(* ===== verification/_CoqProject ===== *)
-Q . S2P
Prelude.v
Data.v
Leases.v
LeaseFacts.v
LeaseContract.v
Reaper.v
Broker.v
BrokerFacts.v
BrokerContract.v
Jobs.v
Admission.v
Transports.v
Queue.v
QueueFacts.v
QueueTrace.v
QueueContract.v
Card.v
Versions.v
VersionService.v
VersionFacts.v
VersionContract.v
VersionSurface.v
VersionPublish.v
Tickets.v
Accounts.v
Session.v
AccessControl.v
SessionContract.v
SignIn.v
AccessFacts.v
AccessContract.v
SignInContract.v
OAuthGroups.v
LeaseApi.v
LeaseApiContract.v
Archive.v
Backups.v
BackupLoad.v
BackupFacts.v
BackupContract.v
BackupFiles.v
Chats.v
ChatApi.v
FolderTree.v
ChatFacts.v
ChatContract.v
JobApi.v
QueueApi.v
JobApiFacts.v
JobApiContract.v
VersionApi.v
VersionApiContract.v
Studio.v
Plugin.v
StudioApi.v
StudioFacts.v
StudioContract.v
ToolCache.v
EvalTemplate.v
CustomEvals.v
CustomEvalContract.v
CatalogContract.v
Channels.v
ChannelApi.v
ChannelContract.v
Formats.v
Replies.v
GenFacts.v
RequestContract.v
RequestRoundTrip.v
StreamContract.v
StreamRoundTrip.v
ModTools.v
ToolLoop.v
ToolOffer.v
ToolRounds.v
ToolStream.v
