(* ===== verification/Prelude.v ===== *)
(** * A verification library for self.ai

    self.ai is a self-hosted assistant: a Python server ([api/selfai_ui]) with
    users, chats, channels and a workspace of models, prompts, tools and
    knowledge, and one 24 GB card that an inference server (self.llamolotl), a
    voice and an image service (self.speak, self.sketch), and training,
    evaluation, curation and publish jobs share.  This library models the code
    that decides who gets the card and who may change what, and proves what it
    promises.  Paths in brackets are under [api/selfai_ui].

    ** The parts and how they interact

    - Who gets the card.  The lease registry ([models/vram_leases.py]) is one
      table: what each consumer holds, what it was granted and has not loaded
      yet, how long ago it reported, and whether it has the card to itself.  The
      broker ([utils/vram_broker.py]) decides a lease request over it, asking
      lower-priority holders to release and having the force-reaper
      ([utils/vram_k8s.py]) delete the pods of silent ones.  The poller
      ([utils/vram_poller.py]) writes what the consumers report.  The queue
      ([utils/gpu_queue.py]) settles running jobs, promotes due ones and
      dispatches; it asks the broker for the exclusive lease before a curation
      or a publish, and for a model's VRAM before an evaluation
      ([utils/vram_admission.py]).  The chat checkpoint
      ([utils/lease_admission.py]) refuses requests while the card is dedicated.
    - Who may act.  Accounts, groups and tokens ([models/auths.py],
      [models/users.py], [models/groups.py]), the sign-in endpoints
      ([routers/auths.py], [utils/oauth.py]), the user gates ([utils/auth.py]),
      permissions and access controls ([utils/access_control.py]), and the
      service tickets ([utils/service_auth.py]) the other services carry.
    - What users write.  Model lines and versions ([utils/model_versions.py]),
      job requests, chats with tags and folders, channels, the workspace, the
      evaluation catalog: tables with endpoints, each a guard, a few writes
      whose commits can fail, and calls to services that can be lost.
    - What keeps it.  Backups and restores ([utils/backup.py]).
    - What talks to models.  The conversions of requests, replies and event
      streams between the OpenAI, Ollama and Anthropic formats
      ([utils/payload.py], [utils/response.py], [utils/toolspec.py]); and the
      loops that offer tools to a model and run the calls it makes
      ([utils/middleware.py], [mods/tools.py]).

    ** The files

    - [Prelude] (this file): record update, keyed tables, stable sorting, sums,
      the state-and-exception programs, "preserves" and "extends" for whole-run
      arguments, and the automation database [s2db].  [Data]: Python's values of
      JSON shape ([json]), with truth, equality, lookup and update.
    - [Leases]: the registry, a [VramConsumer] per row, one definition per method
      of [VramLeasesTable]; [RegOp] is any of its writes.  [LeaseFacts],
      [LeaseContract]: its lemmas and its contract.
    - [Reaper]: [KubernetesPodReaper.reap] over a script of API answers, with its
      contract.
    - [Broker]: the methods of [VramBrokerImpl] as programs over a [World].
      [BrokerFacts], [BrokerContract]: how they run, and what they promise.
    - [Jobs]: the four job tables, the windows and the benchmark durations; the
      class [JobRow] is what the tables have in common.
    - [Admission], with its contract in the Module [AdmissionContract]:
      model sizes ([utils/model_vram.py]), the
      lease request before a load, the chat checkpoint, and core's own policy for
      a registration ([utils/vram_consumer_config.py]).
    - [Transports]: what the consumers answer, mapped by the release transports
      ([utils/vram_llamolotl.py], [utils/vram_speak.py], [utils/vram_sketch.py],
      [utils/vram_curator.py]), by the dispatcher in front of them, and by the
      state sources ([utils/vram_state_source.py]).  Module [Transports.Poller]: a cycle of
      [utils/vram_poller.py] over them.
    - [Queue]: one function per coroutine of the queue, with the dispatch and sync
      helpers of [routers/training.py] and [routers/evaluations.py], over a
      [QWorld]; the broker is behind the class [CardBroker], and what the queue
      may rely on of it is [CardBrokerLaws].  [QueueFacts], [QueueTrace],
      [QueueContract]: what a dispatch can touch and start, what a run leaves in
      the trace, and the contract.
    - [Card]: the broker of [Broker] as an instance of [CardBroker], its laws
      discharged by the broker's own theorem.  Module [Card.QueueRuns]: concrete
      cycles over that instance.
    - [Versions], [VersionService]: the line and version tables and the service
      over them ([models/model_lines.py], [models/model_versions.py],
      [utils/model_versions.py]); [VersionFacts], [VersionContract]: histories
      stay well-formed, appends, provenance walks; [VersionSurface],
      [VersionPublish]: what the service writes, and that recording a finished
      publish is what the queue assumes of it; runs: Module [VersionPublish.VersionRuns].
      [VersionApi], [VersionApiContract]: the endpoints.
    - [Tickets]: service tickets over an interface of the token library, with the
      round trip.  [Accounts], [Session]: the account tables, and who a request
      comes from; [AccessControl]: permissions and access controls; [SignIn]: the
      endpoints, the directory login and the provider callback; [AccessFacts],
      [AccessContract], [SessionContract], [SignInContract], [OAuthGroups]: their
      contracts; the Module [OAuthGroups.SignInRuns]: runs.
    - [LeaseApi], [LeaseApiContract]: the lease endpoints and the emergency stop,
      with the Module [LeaseApiContract.LeaseApiRuns].
    - [Archive], [Backups], [BackupLoad]: archives as records, the jobs and
      endpoints, the load of a restore; [BackupFacts], [BackupContract],
      [BackupFiles]: round trip, failure, blobs (runs: Module
      [BackupFiles.BackupRuns]).
    - [Chats], [ChatApi], [FolderTree]: the tables, the endpoints, the recursion
      over folders; [ChatFacts], [ChatContract]: who can touch what (runs: Module
      [ChatContract.ChatRuns]).
    - [JobApi], [QueueApi]: every endpoint of the training, queue, window and
      evaluation-job routers and of the curator's queue; Module [QueueApi.JobLifecycle]:
      the abstract life of a job; [JobApiFacts] with its Module [JobDispatch], [JobApiContract]:
      refinement of it, authority, finality, and the dispatch after an approval
      against the scheduled one (runs: Module [JobApiContract.JobApiRuns]).
    - [Studio], [Plugin], [StudioApi]: models, prompts, tools and knowledge with
      the module cache of the tools; [StudioFacts] with its Module [Paging],
      [StudioContract], [ToolCache]: who can touch what, pages, the cache (runs: Module
      [ToolCache.StudioRuns]).
    - [EvalTemplate], [CustomEvals]: the rendering of task configurations and the
      catalog over the class of harnesses; [CustomEvalContract],
      [CatalogContract] (runs: Module [CatalogContract.CatalogRuns]).
    - [Channels], [ChannelApi], [ChannelContract]: channels, messages and
      reactions with the events they emit (runs: Module
      [ChannelContract.ChannelRuns]).
    - [Formats]: requests, parameters, prompts and tool specs between the
      formats; [Replies]: whole replies, and streams as programs of the monad
      [gen] of generators; [GenFacts]: its laws, and that the cut of a body into
      chunks does not matter; [RequestContract], [RequestRoundTrip],
      [StreamContract] (runs: Module [StreamContract.FormatRuns]),
      [StreamRoundTrip].
    - [ModTools], [ToolLoop]: the tools a request offers, those of toolkits and of
      mods, and the two loops, buffered and streamed, that answer the calls of a
      model; [ToolOffer], [ToolRounds] with its Module [ToolAnswers], [ToolStream]:
      names, rights, rounds, and the two loops compared (runs: Module
      [ToolStream.ToolRuns]).

    A definition keeps the name of the code it models.  A parenthesised R-number
    or issue number in a comment is the one the code carries.

    ** What the theorems show

    - Registry: the measured hold of a consumer moves only by its own reports; a
      grant survives polling; exclusive postures; the accounting of grants and
      releases; registration is an upsert.
    - Reaper: a reap says confirmed only on evidence, and always ends.
    - Broker: a grant is backed by free capacity read in the same step; a denial
      grants nothing; only strictly lower-priority holders are asked, and only
      stale, observed ones with a trusted target are reaped; one budget bounds the
      decision; the exclusive lease is confirmed or nothing.
    - Queue: slots are never overrun; the order of dispatch; settled jobs are
      final; promotion is exact; the active window; curation and publishing start
      only once the exclusive lease was given, if the broker knows them, and it is
      given back only when idle.
    - Admission: deny-grade sizes; net requests that never stop a load; the exact
      condition of the chat lockout; trusted policy.
    - Consumers: a release is confirmed, denied or timed out exactly as the reply
      says, never by a guess; a poll writes to a row only what that consumer's own
      reading carried, in whatever order the reads end.  Over HTTP every row keeps
      core's policy, and the emergency stop reaches everybody.
    - Versions: histories stay well-formed under interleaving and failing commits;
      an append commits before it writes; walks end; requests stay within rights.
    - Accounts: a request let through carries a live credential; the tables stay
      consistent; a ticket opens what it was minted for.
    - Tables of users: chats, channels, jobs and the workspace change only as
      their owners, their access controls and administrators allow; job requests
      refine the abstract life of a job, no other writer coming in at their
      awaits; a share link shows what was shared; the
      module cache is what the stored sources give.
    - Backups: an archive restores into every empty instance that can take its
      rows; a restore loads everything or nothing.
    - Evaluations: names are free, rendered tasks are their definitions, what
      reads synced is on the harness.
    - Formats: conversations alternate; requests and streamed messages survive the
      conversion and back, of the shapes both formats have; a client reads exactly
      what the upstream sent, however its body is cut between characters.
    - Tools: what a model is offered reaches the tool it was offered for, unless a
      built-in tool has its name; what is run is declared, and allowed to the user
      when it is offered and when it is run; every call is answered
      before the model is asked again, and it is asked at most six times;
      streaming or buffering a reply makes no difference to the conversation.
    - Shortcomings, each a general statement or a closed run: grants on top of a
      measured hold are free, so grants can exceed the card; a heartbeat revives a
      second exclusive holder; the exclusive lease ignores fresh reservations; a
      revived holder is still reaped; a reap outlasts its timeout; a
      release the poller relays first is subtracted twice; a failed reply still
      reports the occupancy of the card; the queue counts a started job twice,
      keeps the card for a lost curation, undoes a [run_now] curation, unloads
      models for a dry run, submits twice without its lock, and publishes under a
      lease that blocks nobody.  The Modules of runs hold those of the other
      parts.

    ** Time, awaits, failures, fuel

    Wall-clock time is in whole seconds and monotonic time in ticks, both
    integers.  Between two awaits a coroutine runs alone and reads one clock
    value; at an await a script says how long it lasts, what it answers, and what
    the other coroutines write meanwhile: to the registry (broker, lease
    endpoints), to the line and version tables, to the job tables (endpoints), to
    the catalog.  Waiting for the grant lock may be met by any registry writes at
    all.  Commit outcomes are part of the script.  A script that runs out answers
    with failures and successful commits.

    Fuel: the reaper's confirm loop has the timeout divided by the poll interval,
    plus one, and [reap_terminates] shows it is always enough; a provenance walk
    has one step per version, and [walk_provenance_terminates] shows the same; the
    recursion over folders has the interpreter's recursion limit, which is what
    the code runs under, and is a parameter; the rendering of JSON to text and the
    parsers of replies recurse on their input.  The rounds of
    a tool loop are counted down from [MAX_TOOL_CALL_ROUNDS], as the code does.

    ** Parameters

    What is not under [src/], and what the code relies on of it: bcrypt and the
    token library (interfaces with their documented laws and a sample instance),
    the directory and the identity provider (their answers), the migrations run
    over a staging database, the order of [list(set(...))], the uuid source,
    executing a tool's source and installing its requirements, the vector
    database, the harnesses (a class with laws), [yaml.safe_dump], the
    datasets server, who is in a socket room, the json module ([CodecLaws]),
    [float()], [int()], the decoding of escapes, and Ollama's token rate.  The
    functions of tools, the page tools and the completions of a model are scripts of
    answers; a completion may also rewrite the list of messages it is handed.

    ** Idealisations, and what is not modelled

    - Reading a table succeeds, but where the code expects that it may not and a
      theorem turns on it: the windows and the evaluations at the chat checkpoint,
      and the file rows of a restore.  Removing a scratch directory succeeds.
    - Text is a string of bytes ordered bytewise; [str.strip] and
      [str.splitlines] act on ASCII.  An error message keeps its fixed part, not
      the exception it quotes.
    - In the queue, commits succeed, and nobody else writes the job tables while a
      cycle runs; its clock and the broker's are separate.  Its
      [_dispatch_training_job] is a coarser view of the one of [JobApi], which
      takes the interleaving into account.  The result files of evaluations,
      the corpus and evaluation tokens are not modelled, nor is the backfill of
      missing results.  The Redis lock is the boolean a cycle starts with.
    - A call to a consumer is its [Reply]: the HTTP exchange, the ticket and the
      choice of the control base are not modelled further.  The poller's endless
      loop is one cycle; seen from the broker its writes are among the peers'.
    - Archives are records of members and decoded rows, not bytes.  The search
      over message texts, previews of dataset rows, cookies and redirects, and
      the settings endpoints are left out.
    - Not modelled: retrieval, audio and transcription, image generation and the
      proxies of [routers/ollama.py] and [routers/openai.py], which pass requests
      to remote services and keep no state of their own; of
      [utils/middleware.py] the filter functions, the files put into a prompt, and
      what happens before and after a turn; mods and
      the browsing policy; the sockets; [main.py], [config.py] and the
      migrations, which are wiring and settings.

    ** This file

    Shared vocabulary: record update, keyed tables (the ORM's view of an SQL
    table), integer sums and maxima, Python's stable [list.sort(key=...)], and the
    state-and-exception monad in which the effectful components are written,
    together with the "preserves" predicate that carries whole-run safety
    arguments. *)

From Stdlib Require Export ZArith Lia Sorted.
From stdpp Require Export base strings numbers option list.

#[global] Open Scope Z_scope.

Create HintDb s2db.

(** ** Field update on records

    [r <| f := v |>] is [r] with field [f] replaced.  The update function of a
    field is computed from the record's eta expansion (class [Eta]), so it is a
    record literal and reduces by [simpl]. *)

Class Eta (R : Type) := eta_expand : R → R.

Class Setter {R T : Type} (proj : R → T) := set_field : (T → T) → R → R.
Arguments set_field {R T} proj {_} _ _ /.

Ltac solve_setter :=
  match goal with
  | |- @Setter ?R ?T ?proj =>
      let e := eval cbv delta [eta_expand] in (eta_expand (R := R)) in
      let e := eval hnf in e in
      let f := fresh "f" in
      let r := fresh "r" in
      refine (fun f r => _);
      let t := eval cbv beta in (e r) in
      let t' := eval pattern (proj r) in t in
      match t' with
      | ?g _ => let u := eval cbv beta in (g (f (proj r))) in exact u
      end
  end.

#[export] Hint Extern 1 (Setter _) => solve_setter : typeclass_instances.

Declare Scope record_scope.
Notation "r <| f := v |>" := (set_field f (λ _, v) r)
  (at level 1, left associativity, f at next level, v at level 200) : record_scope.
#[global] Open Scope record_scope.

(** ** Integer sums and maxima *)

Definition zsum (l : list Z) : Z := foldr Z.add 0 l.

(** Python's [max(xs, default=d)]. *)
Definition zmax (d : Z) (l : list Z) : Z :=
  match l with
  | [] => d
  | x :: l' => foldl Z.max x l'
  end.

(** Python's [max(xs, key=f)]: the first element whose key is the largest. *)
Fixpoint max_by {A} (f : A → Z) (l : list A) : option A :=
  match l with
  | [] => None
  | x :: l' =>
      match max_by f l' with
      | Some y => if decide (f x < f y) then Some y else Some x
      | None => Some x
      end
  end.

Lemma zsum_app l1 l2 : zsum (l1 ++ l2) = zsum l1 + zsum l2.
Proof. induction l1; simpl; lia. Qed.

#[global] Instance zsum_Permutation : Proper ((≡ₚ) ==> (=)) zsum.
Proof. induction 1; simpl; lia. Qed.

Lemma zsum_nonneg l : Forall (λ x, 0 ≤ x) l → 0 ≤ zsum l.
Proof. induction 1; simpl; lia. Qed.

Lemma zsum_map_le {A} (f g : A → Z) l :
  (∀ x, x ∈ l → f x ≤ g x) → zsum (f <$> l) ≤ zsum (g <$> l).
Proof.
  induction l as [|x l IH]; intros Hle; csimpl; [lia|].
  assert (f x ≤ g x) by (apply Hle; left).
  assert (zsum (f <$> l) ≤ zsum (g <$> l)) by (apply IH; intros; apply Hle; by right).
  simpl in *. lia.
Qed.

Lemma zsum_elem_le {A} (f : A → Z) l x :
  (∀ y, y ∈ l → 0 ≤ f y) → x ∈ l → f x ≤ zsum (f <$> l).
Proof.
  intros Hpos Hx. induction l as [|y l IH]; [by apply not_elem_of_nil in Hx|].
  assert (0 ≤ zsum (f <$> l)).
  { apply zsum_nonneg, Forall_fmap, Forall_forall. intros z Hz. simpl.
    apply Hpos. by right. }
  assert (0 ≤ f y) by (apply Hpos; left).
  apply elem_of_cons in Hx as [->|Hx]; csimpl; [simpl in *; lia|].
  assert (f x ≤ zsum (f <$> l)) by (apply IH; [intros; apply Hpos; by right|done]).
  simpl in *. lia.
Qed.

Lemma foldl_max_acc l x y : foldl Z.max (Z.max x y) l = Z.max x (foldl Z.max y l).
Proof. revert x y. induction l as [|z l IH]; intros; simpl; [done|]. by rewrite <- Z.max_assoc, IH. Qed.

Lemma zmax_Permutation d l k : l ≡ₚ k → zmax d l = zmax d k.
Proof.
  induction 1 as [|x l k Hp IH|x y l|]; try done; [|simpl; by rewrite Z.max_comm|congruence].
  simpl. clear IH. revert x.
  induction Hp as [|y l k Hp IH|y1 y2 l|l1 l2 l3 _ IH1 _ IH2]; intros z; simpl; [done|..].
  - apply IH.
  - f_equal. lia.
  - by rewrite IH1.
Qed.

Lemma zmax_elem d l : l ≠ [] → zmax d l ∈ l.
Proof.
  destruct l as [|x l]; [done|]. intros _. simpl. revert x.
  induction l as [|y l IH]; intros x; simpl; [by left|].
  specialize (IH (Z.max x y)). rewrite !elem_of_cons in *.
  destruct (Z.max_spec x y) as [[_ E]|[_ E]]; rewrite E in *; naive_solver.
Qed.

Lemma max_by_elem {A} (f : A → Z) l x : max_by f l = Some x → x ∈ l.
Proof.
  revert x. induction l as [|y l IH]; intros x; simpl; [done|].
  destruct (max_by f l) as [z|]; [case_decide|]; intros [= <-];
    [right; by apply IH | left | left].
Qed.

Lemma max_by_ge {A} (f : A → Z) l x y : max_by f l = Some x → y ∈ l → f y ≤ f x.
Proof.
  revert x. induction l as [|z l IH]; intros x; simpl; [done|].
  intros Hmax Hy. destruct (max_by f l) as [w|] eqn:Hw.
  - apply elem_of_cons in Hy as [->|Hy]; case_decide; simplify_eq; try lia.
    + by apply IH.
    + specialize (IH w eq_refl Hy). lia.
  - destruct l as [|w l]; [|simpl in Hw; destruct (max_by f l); [case_decide|]; done].
    simplify_eq. by apply list_elem_of_singleton in Hy as ->.
Qed.

Lemma max_by_None {A} (f : A → Z) l : max_by f l = None ↔ l = [].
Proof.
  split; [|by intros ->]. destruct l as [|x l]; [done|]. simpl.
  destruct (max_by f l); [case_decide|]; done.
Qed.

(** ** Python's stable sort, [list.sort(key=f)] *)

Section sort_by.
Context {A : Type} (f : A → Z).

Fixpoint sorted_insert (x : A) (l : list A) : list A :=
  match l with
  | [] => [x]
  | y :: l' => if decide (f x ≤ f y) then x :: l else y :: sorted_insert x l'
  end.

Definition sort_by (l : list A) : list A := foldr sorted_insert [] l.

Definition key_le (x y : A) : Prop := f x ≤ f y.

Lemma sorted_insert_perm x l : sorted_insert x l ≡ₚ x :: l.
Proof.
  induction l as [|y l IH]; simpl; [done|]. case_decide; [done|].
  rewrite IH. apply Permutation_swap.
Qed.

Lemma sort_by_perm l : sort_by l ≡ₚ l.
Proof. induction l as [|x l IH]; simpl; [done|]. by rewrite sorted_insert_perm, IH. Qed.

Lemma sort_by_elem_of x l : x ∈ sort_by l ↔ x ∈ l.
Proof. by rewrite sort_by_perm. Qed.

Lemma sorted_insert_sorted x l :
  StronglySorted key_le l → StronglySorted key_le (sorted_insert x l).
Proof.
  induction 1 as [|y l Hs IH Hy]; simpl; [repeat constructor|].
  unfold key_le in *. case_decide as Hxy.
  - repeat (constructor; auto). eapply Forall_impl; [done|]. simpl. lia.
  - constructor; [done|]. rewrite sorted_insert_perm. constructor; [lia|done].
Qed.

Lemma sort_by_sorted l : StronglySorted key_le (sort_by l).
Proof. induction l; simpl; [constructor|]. by apply sorted_insert_sorted. Qed.

(** Stability: the elements of any one key keep their relative order. *)
Lemma sorted_insert_stable k x l :
  filter (λ y, f y = k) (sorted_insert x l) = filter (λ y, f y = k) (x :: l).
Proof.
  induction l as [|y l IH]; [done|]. simpl. case_decide as Hxy; [done|].
  rewrite !filter_cons, IH, filter_cons. repeat case_decide; try done. lia.
Qed.

(** Sorting sees only the key. *)
Lemma sort_by_fmap (h : A → A) l : (∀ x, f (h x) = f x) → sort_by (h <$> l) = h <$> sort_by l.
Proof.
  intros Hh. induction l as [|x l IH]; [done|]. csimpl. rewrite IH.
  generalize (sort_by l). intros k. induction k as [|y k IHk]; [done|]. csimpl.
  rewrite !Hh. case_decide; [done|]. csimpl. by rewrite IHk.
Qed.

Lemma sort_by_stable k l :
  filter (λ y, f y = k) (sort_by l) = filter (λ y, f y = k) l.
Proof.
  induction l as [|x l IH]; [done|]. simpl.
  rewrite sorted_insert_stable, !filter_cons. by rewrite IH.
Qed.
End sort_by.

(** A part of a sorted list, in order, is sorted. *)
Lemma StronglySorted_sublist {A} (R : relation A) (l k : list A) :
  l `sublist_of` k → StronglySorted R k → StronglySorted R l.
Proof.
  induction 1 as [|x l k Hlk IH|x l k Hlk IH]; intros Hk; [done|..].
  - apply StronglySorted_inv in Hk as [Hk Hx]. constructor; [auto|].
    rewrite Forall_forall in Hx |- *. intros y Hy. apply Hx. by eapply elem_of_sublist.
  - apply StronglySorted_inv in Hk as [Hk _]. auto.
Qed.

Lemma filter_none {A} (P : A → Prop) `{∀ x, Decision (P x)} (l : list A) :
  (∀ x, x ∈ l → ¬ P x) → filter P l = [].
Proof.
  intros Hl. apply elem_of_nil_inv. intros x [HP Hx]%list_elem_of_filter. by apply (Hl x).
Qed.

Lemma filter_all {A} (P : A → Prop) `{∀ x, Decision (P x)} (l : list A) :
  (∀ x, P x) → filter P l = l.
Proof. intros HP. induction l as [|x l IH]; [done|]. by rewrite filter_cons_True, IH. Qed.

Lemma filter_keep {A} (P : A → Prop) `{∀ x, Decision (P x)} (l : list A) : Forall P l → filter P l = l.
Proof. induction 1 as [|x l Hx _ IH]; [done|]. by rewrite filter_cons_True, IH. Qed.

Lemma filter_fmap_same {A} (P : A → Prop) `{∀ x, Decision (P x)} (h : A → A) (l : list A) :
  (∀ x, P (h x) ↔ P x) → filter P (h <$> l) = h <$> filter P l.
Proof.
  intros Hh. induction l as [|x l IH]; [done|]. csimpl. rewrite !filter_cons, IH.
  destruct (decide (P x)) as [Hp|Hp].
  - by rewrite (decide_True _ _ (proj2 (Hh x) Hp)).
  - rewrite decide_False; [done|]. by rewrite Hh.
Qed.

(** ** Keyed tables

    An SQL table with a text primary key, as the list of its rows in the order
    a query without [ORDER BY] returns them. *)

Class Keyed (A : Type) := row_key : A → string.

Section tables.
Context {A : Type} `{Keyed A}.
Implicit Types (t : list A) (k : string).

Definition keys t : list string := row_key <$> t.

(** [db.query(T).filter_by(id=k).first()] *)
Fixpoint find_row k t : option A :=
  match t with
  | [] => None
  | r :: t' => if decide (row_key r = k) then Some r else find_row k t'
  end.

(** [db.query(T).filter(p).update(f)] *)
Definition update_where (p : A → bool) (f : A → A) t : list A :=
  (λ r, if p r then f r else r) <$> t.

(** [db.query(T).filter_by(id=k).update(f)], and the write-back of one ORM row. *)
Definition update_row k (f : A → A) t : list A :=
  update_where (λ r, bool_decide (row_key r = k)) f t.

Definition delete_row k t : list A := filter (λ r, row_key r ≠ k) t.

Definition keeps_key (f : A → A) : Prop := ∀ r, row_key (f r) = row_key r.

Lemma find_row_Some k t r : find_row k t = Some r → r ∈ t ∧ row_key r = k.
Proof.
  induction t as [|x t IH]; simpl; [done|]. case_decide; intros Hf; simplify_eq.
  - split; [left|done].
  - destruct (IH Hf). split; [by right|done].
Qed.

Lemma find_row_key k t r : find_row k t = Some r → row_key r = k.
Proof. by intros [_ ?]%find_row_Some. Qed.

Lemma find_row_None k t : find_row k t = None ↔ k ∉ keys t.
Proof.
  unfold keys. induction t as [|x t IH]; csimpl.
  - split; [intros _; apply not_elem_of_nil|done].
  - rewrite not_elem_of_cons, <- IH. case_decide; split; [done| |auto|by intros []].
    intros []; congruence.
Qed.

Lemma find_row_elem t r : NoDup (keys t) → r ∈ t → find_row (row_key r) t = Some r.
Proof.
  intros Hnd Hr. induction t as [|x t IH]; [by apply elem_of_nil in Hr|].
  unfold keys in *. csimpl in *. apply NoDup_cons in Hnd as [Hx Hnd].
  apply elem_of_cons in Hr as [->|Hr]; [by rewrite decide_True|].
  rewrite decide_False; [by apply IH|]. intros Heq. apply Hx. rewrite Heq.
  by apply list_elem_of_fmap_2.
Qed.

Lemma keys_update_where p f t : keeps_key f → keys (update_where p f t) = keys t.
Proof.
  intros Hf. unfold keys, update_where. rewrite <- list_fmap_compose.
  apply list_fmap_ext. intros i x _. simpl. destruct (p x); [apply Hf|done].
Qed.

Lemma keys_update_row k f t : keeps_key f → keys (update_row k f t) = keys t.
Proof. apply keys_update_where. Qed.

Lemma find_update_where p f k t :
  keeps_key f →
  find_row k (update_where p f t) = (λ r, if p r then f r else r) <$> find_row k t.
Proof.
  intros Hf. induction t as [|x t IH]; [done|]. unfold update_where in *. csimpl.
  assert (row_key (if p x then f x else x) = row_key x) as -> by (destruct (p x); auto).
  by case_decide.
Qed.

Lemma find_update_row_eq k f t :
  keeps_key f → find_row k (update_row k f t) = f <$> find_row k t.
Proof.
  intros Hf. induction t as [|x t IH]; [done|]. unfold update_row, update_where in *.
  csimpl. case_bool_decide as Hk; simpl.
  - rewrite Hf, !decide_True by done. done.
  - by rewrite !decide_False by done.
Qed.

Lemma find_update_row_ne k k' f t :
  keeps_key f → k ≠ k' → find_row k (update_row k' f t) = find_row k t.
Proof.
  intros Hf Hne. induction t as [|x t IH]; [done|]. unfold update_row, update_where in *.
  csimpl. case_bool_decide as Hk; simpl.
  - rewrite Hf, !decide_False by congruence. done.
  - case_decide; [done|]. done.
Qed.

Lemma find_update_row k k' f t :
  keeps_key f →
  find_row k (update_row k' f t) =
    if decide (k = k') then f <$> find_row k t else find_row k t.
Proof.
  intros Hf. case_decide; subst; [by apply find_update_row_eq|by apply find_update_row_ne].
Qed.

Lemma update_row_id k f t :
  (∀ r, r ∈ t → row_key r = k → f r = r) → update_row k f t = t.
Proof.
  intros Hid. unfold update_row, update_where.
  rewrite <- (list_fmap_id t) at 2. apply list_fmap_ext. intros i x Hx. simpl.
  case_bool_decide; [|done]. apply Hid; [|done]. by apply list_elem_of_lookup_2 with i.
Qed.

Lemma find_row_app k t1 t2 :
  find_row k (t1 ++ t2) =
    match find_row k t1 with Some r => Some r | None => find_row k t2 end.
Proof. induction t1 as [|x t IH]; simpl; [done|]. by case_decide. Qed.

Lemma find_row_is_Some k t : is_Some (find_row k t) ↔ k ∈ keys t.
Proof.
  destruct (find_row k t) as [r|] eqn:Hr.
  - apply find_row_Some in Hr as [Hr <-]. split; [|done]. intros _.
    by apply list_elem_of_fmap_2.
  - apply find_row_None in Hr. split; [by intros []|done].
Qed.

Lemma update_row_absent k f t : find_row k t = None → update_row k f t = t.
Proof.
  intros Hk%find_row_None. apply update_row_id. intros r Hr <-. destruct Hk.
  by apply list_elem_of_fmap_2.
Qed.

Lemma elem_of_update_row k f t r :
  NoDup (keys t) → keeps_key f →
  r ∈ update_row k f t ↔
    (r ∈ t ∧ row_key r ≠ k) ∨ (∃ r0, find_row k t = Some r0 ∧ r = f r0).
Proof.
  intros Hnd Hf. unfold update_row, update_where. rewrite list_elem_of_fmap. split.
  - intros (x & -> & Hx). case_bool_decide as Hk; [|by left]. right. exists x.
    split; [|done]. rewrite <- Hk. by apply find_row_elem.
  - intros [[Hr Hk]|(r0 & Hr0 & ->)].
    + exists r. by rewrite bool_decide_false.
    + apply find_row_Some in Hr0 as [? ?]. exists r0. by rewrite bool_decide_true.
Qed.

Lemma zsum_update_row (g : A → Z) k f t r :
  NoDup (keys t) → find_row k t = Some r →
  zsum (g <$> update_row k f t) = zsum (g <$> t) - g r + g (f r).
Proof.
  intros Hnd. revert r. induction t as [|x t IH]; intros r; [done|].
  unfold keys, update_row, update_where in *. csimpl in *.
  apply NoDup_cons in Hnd as [Hx Hnd]. case_decide as Hk; intros Hr.
  - simplify_eq. rewrite bool_decide_true by done.
    replace ((λ r0, if bool_decide (row_key r0 = row_key r) then f r0 else r0) <$> t)
      with t; [simpl; lia|].
    symmetry. apply (update_row_absent (row_key r) f t), find_row_None, Hx.
  - rewrite bool_decide_false by done. specialize (IH Hnd r Hr). simpl in *. lia.
Qed.

Lemma zsum_update_row_same (g : A → Z) k f t :
  (∀ r, g (f r) = g r) → zsum (g <$> update_row k f t) = zsum (g <$> t).
Proof.
  intros Hg. unfold update_row, update_where. rewrite <- list_fmap_compose.
  f_equal. apply list_fmap_ext. intros i x _. simpl. by case_bool_decide; rewrite ?Hg.
Qed.

(** Rewriting the rows of [l] one by one is rewriting them all at once. *)
Lemma find_delete_row_ne k k' t : k' ≠ k → find_row k' (delete_row k t) = find_row k' t.
Proof.
  intros Hk. unfold delete_row. induction t as [|r t IH]; [done|]. rewrite filter_cons. simpl.
  destruct (decide (row_key r = k)) as [Hr|Hr].
  - rewrite decide_False by auto. rewrite decide_False by congruence. done.
  - rewrite decide_True by done. simpl. by rewrite IH.
Qed.

Lemma update_rows_where f (l t : list A) :
  keeps_key f → NoDup (keys l) →
  foldl (λ t j, update_row (row_key j) f t) t l =
    update_where (λ r, bool_decide (row_key r ∈ keys l)) f t.
Proof.
  intros Hf. revert t. induction l as [|x l IH]; intros t Hnd.
  - simpl. unfold update_where. transitivity (id <$> t); [by rewrite list_fmap_id|].
    by apply list_fmap_ext.
  - unfold keys in Hnd. apply NoDup_cons in Hnd as [Hx Hnd]. cbn [foldl].
    rewrite IH by done. unfold update_row, update_where. rewrite <- list_fmap_compose.
    apply list_fmap_ext. intros i r _. simpl. destruct (decide (row_key r = row_key x)) as [He|He].
    + rewrite (bool_decide_true (row_key r = row_key x)), Hf by done.
      rewrite bool_decide_false, bool_decide_true; [done| |by rewrite He].
      rewrite He. by left.
    + rewrite (bool_decide_false (row_key r = row_key x)) by done.
      destruct (decide (row_key r ∈ keys l)) as [Hin|Hin].
      * rewrite !bool_decide_true; [done|by right|done].
      * rewrite !bool_decide_false; [done| |done]. by intros [?|?]%elem_of_cons.
Qed.

(** The rows a query selects: their keys, and looking one up. *)
Lemma keys_selected (p : A → Prop) `{∀ x, Decision (p x)} (l t : list A) :
  NoDup (keys t) → l ≡ₚ filter p t → NoDup (keys l).
Proof.
  intros Hnd Hl. unfold keys. rewrite Hl. eapply sublist_NoDup; [exact Hnd|].
  clear. unfold keys. induction t as [|x t IH]; [done|]. rewrite filter_cons.
  case_decide; csimpl; [by apply sublist_skip|by apply sublist_cons].
Qed.

Lemma find_selected (p : A → Prop) `{∀ x, Decision (p x)} (l t : list A) k :
  NoDup (keys t) → l ≡ₚ filter p t →
  find_row k l = (x ← find_row k t; if decide (p x) then Some x else None).
Proof.
  intros Hnd Hl. destruct (find_row k l) as [x|] eqn:Hx.
  - apply find_row_Some in Hx as [Hx <-]. rewrite Hl in Hx.
    apply list_elem_of_filter in Hx as [Hp Hx]. rewrite (find_row_elem t) by done. simpl.
    by rewrite decide_True.
  - apply find_row_None in Hx. destruct (find_row k t) as [y|] eqn:Hy; [|done]. simpl.
    apply find_row_Some in Hy as [Hy <-]. case_decide; [|done]. destruct Hx.
    apply list_elem_of_fmap_2. rewrite Hl. by apply list_elem_of_filter.
Qed.

(** Rewriting the rows a query selects. *)
Lemma update_selected f (p : A → Prop) `{∀ x, Decision (p x)} (l t : list A) :
  keeps_key f → NoDup (keys t) → l ≡ₚ filter p t →
  foldl (λ t j, update_row (row_key j) f t) t l =
    (λ r, if bool_decide (p r) then f r else r) <$> t.
Proof.
  intros Hf Hnd Hl. pose proof (keys_selected p l t Hnd Hl) as Hndl.
  rewrite update_rows_where by done. unfold update_where. apply list_fmap_ext.
  intros i r Hr. apply list_elem_of_lookup_2 in Hr. destruct (decide (p r)) as [Hp|Hp].
  - rewrite !bool_decide_true; [done|done|]. unfold keys. rewrite Hl.
    apply list_elem_of_fmap_2, list_elem_of_filter. done.
  - rewrite !bool_decide_false; [done|done|]. unfold keys. rewrite Hl.
    intros (r' & Hk & [Hp' Hr']%list_elem_of_filter)%list_elem_of_fmap.
    apply (find_row_elem t) in Hr, Hr'; [|done..]. rewrite Hk in Hr. congruence.
Qed.

(** Rewriting some rows of [l], each in its own way. *)
Lemma find_foldl_update (c : A → bool) (F : A → A → A) k (l t : list A) :
  (∀ x, keeps_key (F x)) → NoDup (keys l) →
  find_row k (foldl (λ t x, if c x then update_row (row_key x) (F x) t else t) t l) =
    match find_row k l with
    | Some x => if c x then F x <$> find_row k t else find_row k t
    | None => find_row k t
    end.
Proof.
  intros HF. revert t. induction l as [|x l IH]; intros t Hnd; [done|].
  unfold keys in Hnd. apply NoDup_cons in Hnd as [Hx Hnd]. cbn [foldl find_row].
  rewrite IH by done. case_decide as Hk.
  - subst k. apply find_row_None in Hx. rewrite Hx.
    destruct (c x); [by rewrite find_update_row_eq|done].
  - assert (find_row k (if c x then update_row (row_key x) (F x) t else t) = find_row k t) as ->; [|done].
    destruct (c x); [|done]. by rewrite find_update_row_ne.
Qed.

(** How many rows satisfy [Q] after one row has been rewritten. *)
Lemma filter_update_row_le (Q : A → Prop) `{∀ x, Decision (Q x)} k f t :
  (∀ r, r ∈ t → row_key r = k → Q (f r) → Q r) →
  (length (filter Q (update_row k f t)) ≤ length (filter Q t))%nat.
Proof.
  unfold update_row, update_where. induction t as [|x t IH]; intros HQ; csimpl; [done|].
  assert (length (filter Q ((λ r, if bool_decide (row_key r = k) then f r else r) <$> t))
    ≤ length (filter Q t))%nat as Hle by (apply IH; intros; apply HQ; [by right|done..]).
  rewrite !filter_cons. case_bool_decide as Hk.
  - destruct (decide (Q (f x))) as [Hf|].
    + rewrite decide_True by (apply HQ; [left|done..]). simpl. lia.
    + case_decide; simpl; lia.
  - case_decide; simpl; lia.
Qed.

Lemma filter_update_row_succ (Q : A → Prop) `{∀ x, Decision (Q x)} k f t :
  NoDup (keys t) →
  (length (filter Q (update_row k f t)) ≤ S (length (filter Q t)))%nat.
Proof.
  induction t as [|x t IH]; unfold keys in *; csimpl; intros Hnd; [simpl; lia|].
  apply NoDup_cons in Hnd as [Hx Hnd]. unfold update_row, update_where in *. csimpl.
  rewrite !filter_cons. case_bool_decide as Hk.
  - replace ((λ r, if bool_decide (row_key r = k) then f r else r) <$> t) with t;
      [case_decide; case_decide; simpl; lia|].
    symmetry. apply (update_row_absent k f t), find_row_None. by rewrite <- Hk.
  - specialize (IH Hnd). case_decide; simpl; lia.
Qed.

(** A column read off the whole table does not see an update of another one. *)
Lemma fmap_update_row_same {B} (g : A → B) k f t :
  (∀ r, g (f r) = g r) → g <$> update_row k f t = g <$> t.
Proof.
  intros Hg. unfold update_row, update_where. rewrite <- list_fmap_compose.
  apply list_fmap_ext. intros i x _. simpl. by case_bool_decide; rewrite ?Hg.
Qed.
End tables.

(** ** Fresh identifiers

    The identifiers minted so far by a [uuid4] that never repeats one. *)
Definition minted (uuid4 : nat → string) (n : nat) (id : string) : Prop :=
  ∃ k, (k < n)%nat ∧ id = uuid4 k.

Lemma minted_le uuid4 n m id : minted uuid4 n id → (n ≤ m)%nat → minted uuid4 m id.
Proof. intros (k & ? & ->) ?. exists k. split; [lia|done]. Qed.

Lemma minted_S uuid4 n id : minted uuid4 n id → minted uuid4 (S n) id.
Proof. intros Hid. apply (minted_le _ _ _ _ Hid). lia. Qed.

Lemma minted_now uuid4 n : minted uuid4 (S n) (uuid4 n).
Proof. exists n. split; [lia|done]. Qed.

Lemma not_minted uuid4 `{!Inj (=) (=) uuid4} n : ¬ minted uuid4 n (uuid4 n).
Proof. intros (k & Hk & Heq%(inj uuid4)). lia. Qed.

(** ** State and exceptions

    [prog S E A] is Python code that threads a state [S] and returns an [A] or
    raises an [E]; the state reached before a raise is kept. *)

Inductive result (E A : Type) : Type :=
| Ok (a : A)
| Raise (e : E).
Arguments Ok {E A} a.
Arguments Raise {E A} e.

Definition prog (S E A : Type) : Type := S → result E A * S.

#[export] Instance prog_ret S E : MRet (prog S E) := λ A a s, (Ok a, s).
#[export] Instance prog_bind S E : MBind (prog S E) := λ A B f m s,
  match m s with
  | (Ok a, s') => f a s'
  | (Raise e, s') => (Raise e, s')
  end.

Definition raise {S E A} (e : E) : prog S E A := λ s, (Raise e, s).
Definition gets {S E A} (f : S → A) : prog S E A := λ s, (Ok (f s), s).
Definition modify {S E} (f : S → S) : prog S E unit := λ s, (Ok tt, f s).
Definition result_of {S E A} (m : prog S E A) (s : S) : result E A := (m s).1.
Definition state_of {S E A} (m : prog S E A) (s : S) : S := (m s).2.

(** A program whose answer does not matter. *)
Definition void {S E A} (m : prog S E A) : prog S E unit := m;; mret tt.

(** [for x in xs: ...] *)
Fixpoint for_each {S E A} (f : A → prog S E unit) (l : list A) : prog S E unit :=
  match l with
  | [] => mret tt
  | x :: l' => f x;; for_each f l'
  end.

(** [try: m except Exception: return d] *)
Definition attempt {S E A} (m : prog S E A) (d : A) : prog S E A := λ s,
  match m s with
  | (Raise _, s') => (Ok d, s')
  | r => r
  end.

(** What the handlers of a router raise: an exception that is no [HTTPException], or an
    answer by its status. *)
Inductive ApiExn :=
| Uncaught
| Http (status : Z).

(** [if not x: raise HTTPException(status)], and a use of [x] that may not be [None]. *)
Definition answer {S A} (status : Z) (o : option A) : prog S ApiExn A :=
  match o with Some a => mret a | None => raise (Http status) end.
Definition responded {S A} (o : option A) : prog S ApiExn A :=
  match o with Some a => mret a | None => raise Uncaught end.

(** [preserves R m]: every run of [m], raising or not, goes from a state to an
    [R]-related one.  For a preorder [R] it is closed under composition. *)
Definition preserves {S E A} (R : relation S) (m : prog S E A) : Prop :=
  ∀ s, R s (state_of m s).

Section preserves.
Context {S E : Type} (R : relation S) `{!PreOrder R}.

Lemma preserves_ret {A} (a : A) : preserves R (mret a : prog S E A).
Proof. intros s. change (R s s). reflexivity. Qed.

Lemma preserves_raise {A} (e : E) : preserves R (raise e : prog S E A).
Proof. intros s. change (R s s). reflexivity. Qed.

Lemma preserves_gets {A} (f : S → A) : preserves R (gets f : prog S E A).
Proof. intros s. change (R s s). reflexivity. Qed.

Lemma preserves_modify (f : S → S) :
  (∀ s, R s (f s)) → preserves R (modify f : prog S E unit).
Proof. intros Hf s. apply Hf. Qed.

Lemma preserves_bind {A B} (m : prog S E A) (f : A → prog S E B) :
  preserves R m → (∀ a, preserves R (f a)) → preserves R (m ≫= f).
Proof.
  intros Hm Hf s. specialize (Hm s). unfold state_of, mbind, prog_bind in *.
  destruct (m s) as [[a|e] s'] eqn:Hms; simpl in *; [|done].
  transitivity s'; [done|apply Hf].
Qed.

Lemma preserves_attempt {A} (m : prog S E A) (d : A) :
  preserves R m → preserves R (attempt m d).
Proof.
  intros Hm s. specialize (Hm s). unfold state_of, attempt in *. by destruct (m s) as [[a|e] s'].
Qed.

Lemma preserves_for_each {A} (f : A → prog S E unit) (l : list A) :
  (∀ x, x ∈ l → preserves R (f x)) → preserves R (for_each f l).
Proof.
  induction l as [|x l IH]; intros Hf; [apply preserves_ret|].
  apply preserves_bind; [apply Hf; left|]. intros _. apply IH. intros y Hy. apply Hf. by right.
Qed.

Lemma preserves_if {A} (b : bool) (m1 m2 : prog S E A) :
  preserves R m1 → preserves R m2 → preserves R (if b then m1 else m2).
Proof. by destruct b. Qed.
End preserves.

(** [stable I]: an invariant that held still does. *)
Definition stable {S} (I : S → Prop) : relation S := λ s s', I s → I s'.
#[export] Instance stable_preorder {S} (I : S → Prop) : PreOrder (stable I).
Proof. unfold stable. split; [intros s; auto|intros s1 s2 s3; auto]. Qed.

(** One step through the monadic structure of a [preserves] goal. *)
Ltac preserves_step :=
  lazymatch goal with
  | |- preserves _ (_ ≫= _) => apply preserves_bind; [try apply _| |intros ?]
  | |- preserves _ (mret _) => apply preserves_ret; try apply _
  | |- preserves _ (raise _) => apply preserves_raise; try apply _
  | |- preserves _ (gets _) => apply preserves_gets; try apply _
  | |- preserves _ (attempt _ _) => apply preserves_attempt
  | |- preserves _ (if decide _ then _ else _) => case_decide
  | |- preserves _ (if ?b then _ else _) => destruct b eqn:?
  | |- preserves _ (match ?x with _ => _ end) => destruct x eqn:?
  | |- preserves _ (let '(_, _) := ?x in _) => destruct x eqn:?
  end.
Ltac preserves_auto := repeat (preserves_step; eauto with s2db).

(** Decide a closed proposition by computation. *)
Ltac by_decision :=
  match goal with |- ?P => refine (bool_decide_unpack P _); vm_compute; exact I end.

(** Running a composed program one statement at a time. *)
Lemma run_bind {S E A B} (m : prog S E A) (f : A → prog S E B) s :
  (m ≫= f) s =
    match m s with
    | (Ok a, s') => f a s'
    | (Raise e, s') => (Raise e, s')
    end.
Proof. done. Qed.

Lemma run_gets_bind {S E A B} (f : S → A) (k : A → prog S E B) s : (gets f ≫= k) s = k (f s) s.
Proof. done. Qed.

Lemma run_answer_bind {S A B} status (o : option A) (k : A → prog S ApiExn B) s :
  (answer status o ≫= k) s = match o with Some a => k a s | None => (Raise (Http status), s) end.
Proof. by destruct o. Qed.

Lemma run_responded_bind {S A B} (o : option A) (k : A → prog S ApiExn B) s :
  (responded o ≫= k) s = match o with Some a => k a s | None => (Raise Uncaught, s) end.
Proof. by destruct o. Qed.

Lemma void_state {S E A} (m : prog S E A) s : state_of (void m) s = state_of m s.
Proof. unfold void, state_of. rewrite run_bind. by destruct (m s) as [[]]. Qed.

Lemma run_bind_Ok {S E A B} (m : prog S E A) (f : A → prog S E B) s b s' :
  (m ≫= f) s = (Ok b, s') → ∃ a s1, m s = (Ok a, s1) ∧ f a s1 = (Ok b, s').
Proof. rewrite run_bind. destruct (m s) as [[a|e] s1]; [eauto|done]. Qed.

(** Hoare triples: from a state in [P] the program returns into [Q] or raises
    into [X]. *)
Definition triple {S E A} (P : S → Prop) (m : prog S E A) (Q : A → S → Prop) (X : E → S → Prop)
    : Prop :=
  ∀ s, P s → match m s with (Ok a, s') => Q a s' | (Raise e, s') => X e s' end.

Section triples.
Context {S E : Type} (X : E → S → Prop).

Lemma triple_bind {A B} P (m : prog S E A) Q (f : A → prog S E B) R :
  triple P m Q X → (∀ a, triple (Q a) (f a) R X) → triple P (m ≫= f) R X.
Proof.
  intros Hm Hf s Hs. rewrite run_bind. specialize (Hm s Hs).
  destruct (m s) as [[a|e] s']; [by apply Hf|done].
Qed.

Lemma triple_ret {A} P (a : A) Q : (∀ s, P s → Q a s) → triple P (mret a : prog S E A) Q X.
Proof. intros HQ s Hs. by apply HQ. Qed.

Lemma triple_raise {A} P (e : E) Q : (∀ s, P s → X e s) → triple P (raise e : prog S E A) Q X.
Proof. intros HX s Hs. by apply HX. Qed.

Lemma triple_gets {A} P (f : S → A) Q : (∀ s, P s → Q (f s) s) → triple P (gets f) Q X.
Proof. intros HQ s Hs. by apply HQ. Qed.

Lemma triple_modify P (f : S → S) Q : (∀ s, P s → Q tt (f s)) → triple P (modify f) Q X.
Proof. intros HQ s Hs. by apply HQ. Qed.

Lemma triple_weaken {A} (P P' : S → Prop) (m : prog S E A) (Q Q' : A → S → Prop) :
  (∀ s, P s → P' s) → triple P' m Q' X → (∀ a s, Q' a s → Q a s) → triple P m Q X.
Proof.
  intros HP Hm HQ s Hs. specialize (Hm s (HP s Hs)). destruct (m s) as [[a|e] s']; auto.
Qed.
End triples.

(** [ORDER BY text_column ASC], in byte order. *)
Section order_by.
Context {A : Type} (f : A → string).

Fixpoint text_insert (x : A) (l : list A) : list A :=
  match l with
  | [] => [x]
  | y :: l' => if String.leb (f x) (f y) then x :: l else y :: text_insert x l'
  end.

Definition order_by_text (l : list A) : list A := foldr text_insert [] l.

Lemma text_insert_perm x l : text_insert x l ≡ₚ x :: l.
Proof.
  induction l as [|y l IH]; simpl; [done|]. destruct (String.leb _ _); [done|].
  rewrite IH. apply Permutation_swap.
Qed.

Lemma order_by_text_perm l : order_by_text l ≡ₚ l.
Proof. induction l as [|x l IH]; simpl; [done|]. by rewrite text_insert_perm, IH. Qed.
End order_by.

(** Pointwise version of [preserves], for programs whose steps depend on the
    state they start from. *)
Definition preserves_at {S E A} (R : relation S) (m : prog S E A) (s : S) : Prop :=
  R s (state_of m s).

Lemma preserves_at_bind {S E A B} (R : relation S) `{!Transitive R}
    (m : prog S E A) (f : A → prog S E B) s :
  preserves_at R m s →
  (∀ a s', m s = (Ok a, s') → preserves_at R (f a) s') →
  preserves_at R (m ≫= f) s.
Proof.
  unfold preserves_at, state_of. rewrite run_bind. intros Hm Hf.
  destruct (m s) as [[a|e] s'] eqn:Hms; simpl in *; [|done].
  etransitivity; [done|by apply Hf].
Qed.

(** [s'] extends the log of [s] by entries that all satisfy [P]. *)
Definition extends {S Ev} (log : S → list Ev) (P : Ev → Prop) (s s' : S) : Prop :=
  ∃ es, log s' = log s ++ es ∧ Forall P es.

#[export] Instance extends_preorder {S Ev} (log : S → list Ev) P : PreOrder (extends log P).
Proof.
  split.
  - intros s. exists []. by rewrite app_nil_r.
  - intros s1 s2 s3 (es1 & H1 & HP1) (es2 & H2 & HP2). exists (es1 ++ es2).
    rewrite H2, H1, app_assoc. split; [done|]. by apply Forall_app.
Qed.

Lemma extends_impl {S Ev} (log : S → list Ev) (P Q : Ev → Prop) s s' :
  (∀ e, P e → Q e) → extends log P s s' → extends log Q s s'.
Proof. intros HPQ (es & Hes & HP). exists es. split; [done|]. by eapply Forall_impl. Qed.
