(* ===== verification/Data.v ===== *)
(** Python values the components share: text as a string of ASCII bytes with the
    [str] methods the code calls, and decoded JSON with its dicts, which keep
    their insertion order. *)

From Stdlib Require Import Ascii.
From stdpp Require Import countable.
From S2P Require Import Prelude.

(** ** Text *)

(** Python's truth value of an optional text: the text, unless it is empty. *)
Definition truthy (s : option string) : option string :=
  match s with
  | Some "" => None
  | _ => s
  end.

(** [str.strip()] on the ASCII white space. *)
Definition is_space (c : Ascii.ascii) : bool :=
  let n := Ascii.nat_of_ascii c in
  bool_decide ((9 ≤ n)%nat ∧ (n ≤ 13)%nat ∨ (28 ≤ n)%nat ∧ (n ≤ 32)%nat).

Fixpoint lstrip (s : string) : string :=
  match s with
  | String c s' => if is_space c then lstrip s' else s
  | EmptyString => EmptyString
  end.

Definition string_rev (s : string) : string :=
  String.string_of_list_ascii (rev (String.list_ascii_of_string s)).

Definition strip (s : string) : string := string_rev (lstrip (string_rev (lstrip s))).

(** [str.lstrip("/")] and [str.rstrip("/")] *)
Definition slash : Ascii.ascii := "/"%char.

Fixpoint lstrip_slash (s : string) : string :=
  match s with
  | String c s' => if decide (c = slash) then lstrip_slash s' else s
  | EmptyString => EmptyString
  end.

Definition rstrip_slash (s : string) : string := string_rev (lstrip_slash (string_rev s)).

(** The line boundaries of [str.splitlines]. *)
Definition is_line_break (c : Ascii.ascii) : bool :=
  let n := Ascii.nat_of_ascii c in
  bool_decide ((10 ≤ n)%nat ∧ (n ≤ 13)%nat ∨ (28 ≤ n)%nat ∧ (n ≤ 30)%nat).

Definition newline : Ascii.ascii := Ascii.ascii_of_nat 10.
Definition carriage_return : Ascii.ascii := Ascii.ascii_of_nat 13.
(** [str.splitlines()]: [cur] is the line so far, reversed; a line feed right
    after a carriage return belongs to the same boundary. *)
Fixpoint split_from (after_cr : bool) (cur : list Ascii.ascii) (s : list Ascii.ascii)
    : list (list Ascii.ascii) :=
  match s with
  | [] => if decide (cur = []) then [] else [rev cur]
  | c :: s' =>
      if after_cr && bool_decide (c = newline) then split_from false cur s'
      else if is_line_break c
      then rev cur :: split_from (bool_decide (c = carriage_return)) [] s'
      else split_from false (c :: cur) s'
  end.

Definition splitlines (s : string) : list string :=
  String.string_of_list_ascii <$> split_from false [] (String.list_ascii_of_string s).

(** [s.partition(c)], [None] when [c] does not occur. *)
Fixpoint partition_at (c : Ascii.ascii) (s : string) : option (string * string) :=
  match s with
  | EmptyString => None
  | String x s' =>
      if decide (x = c) then Some (EmptyString, s')
      else '(a, b) ← partition_at c s'; Some (String x a, b)
  end.

(** [str.lower()] on ASCII. *)
Definition lower_char (c : Ascii.ascii) : Ascii.ascii :=
  let n := Ascii.nat_of_ascii c in
  if decide ((65 ≤ n)%nat ∧ (n ≤ 90)%nat) then Ascii.ascii_of_nat (n + 32) else c.

Fixpoint lower (s : string) : string :=
  match s with
  | EmptyString => EmptyString
  | String c s' => String (lower_char c) (lower s')
  end.

(** [int(text)] on decimal digits, with a sign and single underscores between
    digits; [None] is the [ValueError]. *)
Definition digit (c : Ascii.ascii) : option Z :=
  let n := Ascii.nat_of_ascii c in
  if decide ((48 ≤ n)%nat ∧ (n ≤ 57)%nat) then Some (Z.of_nat n - 48) else None.

Fixpoint digits_from (acc : Z) (s : string) : option Z :=
  match s with
  | EmptyString => Some acc
  | String c s' =>
      match digit c with
      | Some d => digits_from (10 * acc + d) s'
      | None =>
          if decide (c = "_"%char) then
            match s' with
            | String c' s'' => d ← digit c'; digits_from (10 * acc + d) s''
            | EmptyString => None
            end
          else None
      end
  end.

Definition digits (s : string) : option Z :=
  match s with
  | String c s' => d ← digit c; digits_from d s'
  | EmptyString => None
  end.

Definition py_int (text : string) : option Z :=
  match strip text with
  | String "-" s => Z.opp <$> digits s
  | String "+" s => digits s
  | s => digits s
  end.

(** ** JSON *)

(** A decoded JSON value; a number that is not an integer is a [JFloat], of which
    only its truth value is kept. *)
Inductive Json :=
| JNull
| JBool (b : bool)
| JInt (n : Z)
| JFloat (nonzero : bool)
| JStr (s : string)
| JList (l : list Json)
| JDict (d : list (string * Json)).

(** [d.get(key)] *)
Fixpoint dict_lookup (key : string) (d : list (string * Json)) : option Json :=
  match d with
  | [] => None
  | (k, v) :: rest => if decide (k = key) then Some v else dict_lookup key rest
  end.

(** [isinstance(x, int) and not isinstance(x, bool)] *)
Definition json_int (j : option Json) : option Z :=
  match j with Some (JInt n) => Some n | _ => None end.

Definition json_str (j : option Json) : option string :=
  match j with Some (JStr s) => Some s | _ => None end.

(** [d[key] = v]: in place, or at the end. *)
Fixpoint dict_set (key : string) (v : Json) (d : list (string * Json)) : list (string * Json) :=
  match d with
  | [] => [(key, v)]
  | (k, x) :: rest => if decide (k = key) then (k, v) :: rest else (k, x) :: dict_set key v rest
  end.

Lemma dict_lookup_set key v d : dict_lookup key (dict_set key v d) = Some v.
Proof.
  induction d as [|[k x] d IH]; simpl; [by rewrite decide_True|].
  case_decide as Hk; simpl; [by rewrite decide_True|by rewrite decide_False].
Qed.

Lemma dict_lookup_set_ne key k v d : k ≠ key → dict_lookup k (dict_set key v d) = dict_lookup k d.
Proof.
  intros Hne. induction d as [|[k' x] d IH]; simpl; [by rewrite decide_False|].
  case_decide as Hk; simpl; [subst; by rewrite !decide_False|].
  by case_decide.
Qed.

(** Python's [bool(x)]. *)
Definition json_truthy (j : Json) : bool :=
  match j with
  | JNull => false
  | JBool b => b
  | JInt n => bool_decide (n ≠ 0)
  | JFloat nonzero => nonzero
  | JStr s => bool_decide (s ≠ EmptyString)
  | JList l => bool_decide (length l ≠ 0%nat)
  | JDict d => bool_decide (length d ≠ 0%nat)
  end.

Definition is_dict (j : Json) : bool := match j with JDict _ => true | _ => false end.

(** Induction with hypotheses for the elements of lists and the values of dicts. *)
Section json_ind.
Context (P : Json → Prop).
Hypothesis Hnull : P JNull.
Hypothesis Hbool : ∀ b, P (JBool b).
Hypothesis Hint : ∀ n, P (JInt n).
Hypothesis Hfloat : ∀ b, P (JFloat b).
Hypothesis Hstr : ∀ s, P (JStr s).
Hypothesis Hlist : ∀ l, Forall P l → P (JList l).
Hypothesis Hdict : ∀ d, Forall (λ kv, P kv.2) d → P (JDict d).

Fixpoint json_nested_ind (j : Json) : P j :=
  match j with
  | JNull => Hnull
  | JBool b => Hbool b
  | JInt n => Hint n
  | JFloat b => Hfloat b
  | JStr s => Hstr s
  | JList l => Hlist l ((fix go l : Forall P l :=
      match l with [] => @List.Forall_nil _ _ | x :: r => @List.Forall_cons _ _ x r (json_nested_ind x) (go r) end) l)
  | JDict d => Hdict d ((fix go d : Forall (λ kv, P kv.2) d :=
      match d with
      | [] => @List.Forall_nil _ _
      | kv :: r => @List.Forall_cons _ (λ kv, P kv.2) kv r (json_nested_ind kv.2) (go r)
      end) d)
  end.
End json_ind.

Lemma dict_lookup_elem key d v : dict_lookup key d = Some v → (key, v) ∈ d.
Proof.
  induction d as [|[k x] d IH]; simpl; [done|]. case_decide; intros Hv; simplify_eq; [left|right; auto].
Qed.

Lemma dict_lookup_None key d : dict_lookup key d = None ↔ key ∉ d.*1.
Proof.
  induction d as [|[k x] d IH]; csimpl.
  - split; [intros _; apply not_elem_of_nil|done].
  - rewrite not_elem_of_cons, <- IH. case_decide; split; [done| |auto|by intros []].
    intros []; congruence.
Qed.

Lemma dict_lookup_is_Some key d : is_Some (dict_lookup key d) ↔ key ∈ d.*1.
Proof.
  destruct (dict_lookup key d) as [v|] eqn:Hv.
  - split; [|eauto]. intros _. apply list_elem_of_fmap. exists (key, v).
    split; [done|by apply dict_lookup_elem].
  - apply dict_lookup_None in Hv. split; [by intros []|done].
Qed.

Lemma dict_lookup_app key d e :
  dict_lookup key (d ++ e) =
    match dict_lookup key d with Some v => Some v | None => dict_lookup key e end.
Proof. induction d as [|[k x] d IH]; simpl; [done|]. by case_decide. Qed.

(** JSON values as trees, which gives them decidable equality. *)
Abbreviation leaf := (option (bool + Z + bool + string))%type.

Fixpoint json_tree (j : Json) : gen_tree leaf :=
  match j with
  | JNull => GenLeaf None
  | JBool b => GenLeaf (Some (inl (inl (inl b))))
  | JInt n => GenLeaf (Some (inl (inl (inr n))))
  | JFloat b => GenLeaf (Some (inl (inr b)))
  | JStr s => GenLeaf (Some (inr s))
  | JList l => GenNode 0 ((fix go l := match l with [] => [] | x :: r => json_tree x :: go r end) l)
  | JDict d => GenNode 1 ((fix go d := match d with
                                       | [] => []
                                       | (k, x) :: r => GenLeaf (Some (inr k)) :: json_tree x :: go r
                                       end) d)
  end.

Fixpoint tree_json (t : gen_tree leaf) : Json :=
  match t with
  | GenLeaf None => JNull
  | GenLeaf (Some (inl (inl (inl b)))) => JBool b
  | GenLeaf (Some (inl (inl (inr n)))) => JInt n
  | GenLeaf (Some (inl (inr b))) => JFloat b
  | GenLeaf (Some (inr s)) => JStr s
  | GenNode 0 l => JList ((fix go l := match l with [] => [] | x :: r => tree_json x :: go r end) l)
  | GenNode _ l =>
      JDict ((fix go l := match l with
                          | GenLeaf (Some (inr k)) :: x :: r => (k, tree_json x) :: go r
                          | _ => []
                          end) l)
  end.

Lemma tree_json_tree j : tree_json (json_tree j) = j.
Proof.
  induction j as [|b|n|b|s|l IH|d IH] using json_nested_ind; try done; simpl; f_equal.
  - induction IH as [|x l Hx Hl IHl]; simpl; [done|]. by rewrite Hx, IHl.
  - induction IH as [|[k x] d Hx Hd IHd]; simpl in *; [done|]. by rewrite Hx, IHd.
Qed.

#[export] Instance json_eq_dec : EqDecision Json.
Proof.
  intros x y. destruct (decide (json_tree x = json_tree y)) as [Heq|Hne]; [left|right].
  - rewrite <- (tree_json_tree x), <- (tree_json_tree y). by f_equal.
  - intros ->. by apply Hne.
Defined.

#[export] Instance json_countable : Countable Json :=
  inj_countable' json_tree tree_json tree_json_tree.

(** A JSON document decoded by Python: no dict in it repeats a key. *)
Inductive json_ok : Json → Prop :=
| json_ok_leaf j : is_dict j = false → (∀ l, j ≠ JList l) → json_ok j
| json_ok_list l : Forall json_ok l → json_ok (JList l)
| json_ok_dict d : NoDup d.*1 → Forall (λ kv, json_ok kv.2) d → json_ok (JDict d).

(** ** Searching text *)

(** [s.split(c)] *)
Fixpoint split_on (c : Ascii.ascii) (s : string) : list string :=
  match s with
  | EmptyString => [EmptyString]
  | String x s' =>
      if decide (x = c) then EmptyString :: split_on c s'
      else match split_on c s' with
           | w :: ws => String x w :: ws
           | [] => [String x EmptyString]
           end
  end.

(** [c.join(l)] *)
Fixpoint join (sep : string) (l : list string) : string :=
  match l with
  | [] => EmptyString
  | [s] => s
  | s :: l' => s +:+ sep +:+ join sep l'
  end.

(** [s.startswith(p)] and [s.endswith(p)] *)
Fixpoint starts_with (p s : string) : bool :=
  match p, s with
  | EmptyString, _ => true
  | String a p', String b s' => bool_decide (a = b) && starts_with p' s'
  | String _ _, EmptyString => false
  end.

Definition ends_with (p s : string) : bool := starts_with (string_rev p) (string_rev s).

(** [sub in s] *)
Fixpoint contains (sub s : string) : bool :=
  starts_with sub s ||
  match s with EmptyString => false | String _ s' => contains sub s' end.

Fixpoint all_chars (p : Ascii.ascii → bool) (s : string) : bool :=
  match s with EmptyString => true | String c s' => p c && all_chars p s' end.

Lemma append_cons c (s t : string) : String c s +:+ t = String c (s +:+ t).
Proof. done. Qed.

Lemma append_assoc (s t u : string) : s +:+ (t +:+ u) = (s +:+ t) +:+ u.
Proof. induction s as [|c s IH]; [done|]. by rewrite !append_cons, IH. Qed.

Lemma append_nil_r (s : string) : s +:+ EmptyString = s.
Proof. induction s as [|c s IH]; [done|]. by rewrite !append_cons, IH. Qed.

Lemma all_chars_app p s t : all_chars p (s +:+ t) = all_chars p s && all_chars p t.
Proof. induction s as [|c s IH]; simpl; [done|]. by rewrite IH, andb_assoc. Qed.

Lemma split_on_ne c s : split_on c s ≠ [].
Proof. destruct s as [|x s]; simpl; [done|]. case_decide; [done|]. by destruct (split_on c s). Qed.

Lemma split_on_app c s t : split_on c (s +:+ String c t) = split_on c s ++ split_on c t.
Proof.
  induction s as [|x s IH]; simpl; [by rewrite decide_True|]. case_decide; [by rewrite IH|].
  rewrite IH. pose proof (split_on_ne c s). by destruct (split_on c s).
Qed.

Lemma split_on_plain c s : all_chars (λ x, bool_decide (x ≠ c)) s = true → split_on c s = [s].
Proof.
  induction s as [|x s IH]; simpl; [done|]. intros [Hx Hs]%andb_true_iff.
  apply bool_decide_eq_true in Hx. by rewrite decide_False, IH.
Qed.

Lemma starts_with_spec p s : starts_with p s = true ↔ ∃ t, s = p +:+ t.
Proof.
  revert s. induction p as [|a p IH]; intros s; simpl; [split; [by exists s|done]|].
  destruct s as [|b s]; [split; [done|by intros [t [=]]]|].
  rewrite andb_true_iff, bool_decide_eq_true, IH. split.
  - intros [-> [t ->]]. by exists t.
  - intros [t [= -> ->]]. eauto.
Qed.

Lemma contains_spec sub s : contains sub s = true ↔ ∃ a b, s = a +:+ sub +:+ b.
Proof.
  induction s as [|c s IH]; simpl; rewrite orb_true_iff, starts_with_spec.
  - split; [intros [[t Ht]|?]; [by exists EmptyString, t|done]|].
    intros (a & b & Hab). left. destruct a; [by exists b|done].
  - rewrite IH. split.
    + intros [[t Ht]|(a & b & ->)]; [by exists EmptyString, t|by exists (String c a), b].
    + intros (a & b & Hab). destruct a as [|x a]; [left; by exists b|].
      injection Hab as -> ->. right. eauto.
Qed.

(** ** The operators of Python on decoded values *)

Definition has_key (key : string) (d : list (string * Json)) : bool := bool_decide (key ∈ d.*1).

Definition json_is (x : string) (j : Json) : bool :=
  match j with JStr s => bool_decide (s = x) | _ => false end.

(** [x in j] for a string [x]; [None] is the [TypeError]. *)
Definition py_in (x : string) (j : Json) : option bool :=
  match j with
  | JList l => Some (existsb (json_is x) l)
  | JDict d => Some (has_key x d)
  | JStr s => Some (contains x s)
  | _ => None
  end.

(** The elements a [for] loop over [j] visits; [None] is the [TypeError]. *)
Definition py_iter (j : Json) : option (list Json) :=
  match j with
  | JList l => Some l
  | JDict d => Some ((λ kv, JStr kv.1) <$> d)
  | JStr s => Some ((λ c, JStr (String c EmptyString)) <$> String.list_ascii_of_string s)
  | _ => None
  end.

Abbreviation json_dict := (list (string * Json)).

(** [{**d, **e}] *)
Definition dict_update (d e : json_dict) : json_dict := foldl (λ d kv, dict_set kv.1 kv.2 d) d e.

(** An [Optional[str]] field of a form or of an update; [None] is the [ValidationError]. *)
Definition optional_text (j : option Json) : option (option string) :=
  match j with
  | None | Some JNull => Some None
  | Some (JStr s) => Some (Some s)
  | Some _ => None
  end.

(** [s.replace(old, new)], [old] not empty; [skip] characters of an occurrence are still
    to be dropped. *)
Fixpoint replace_from (old new : string) (skip : nat) (s : string) : string :=
  match s with
  | EmptyString => EmptyString
  | String c s' =>
      match skip with
      | S skip => replace_from old new skip s'
      | O => if starts_with old s then new +:+ replace_from old new (pred (String.length old)) s'
             else String c (replace_from old new 0 s')
      end
  end.
Definition replace (old new s : string) : string := replace_from old new 0 s.

(** ** Access by key *)

(** [j.get(key, absent)]; [None] when [j] is no dict. *)
Definition get_or (key : string) (d : Json) (absent : Json) : option Json :=
  match d with JDict d => Some (default absent (dict_lookup key d)) | _ => None end.

(** [j.get(key)] *)
Definition field (key : string) (j : Json) : option Json := get_or key j JNull.

(** [j[key]] *)
Definition item (key : string) (j : Json) : option Json :=
  match j with JDict d => dict_lookup key d | _ => None end.

(** [j[key] = v] *)
Definition set_item (key : string) (v j : Json) : option Json :=
  match j with JDict d => Some (JDict (dict_set key v d)) | _ => None end.

(** [x or y] *)
Definition py_or (x y : Json) : Json := if json_truthy x then x else y.

(** A value that has to be a string; [None] is the exception. *)
Definition text_of (j : Json) : option string := json_str (Some j).
