(* ===== verification/Leases.v ===== *)
(** The VRAM lease registry, [models/vram_leases.py]: the [vram_consumer] table
    as a keyed list of rows, the staleness and reservation helpers, and every
    method of [VramLeasesTable].  A writer takes [ok], whether its [db.commit]
    succeeds, and [now], the value of [int(time.time())] it reads; a writer whose
    commit fails leaves the table as it was. *)

From S2P Require Import Prelude.

(** ** Schema *)

Inductive LeaseState := STEADY | RELEASE_REQUESTED | RELEASING | STALE.
Inductive LeaseMode := SHARED | EXCLUSIVE.

#[export] Instance LeaseState_eq_dec : EqDecision LeaseState.
Proof. solve_decision. Defined.
#[export] Instance LeaseMode_eq_dec : EqDecision LeaseMode.
Proof. solve_decision. Defined.

(** [STALE_THRESHOLD_SECONDS] and [RESERVATION_TTL_SECONDS], read from the
    environment when the module is imported. *)
Class LeaseConfig := {
  STALE_THRESHOLD_SECONDS : Z;
  RESERVATION_TTL_SECONDS : Z
}.

Definition default_lease_config : LeaseConfig :=
  {| STALE_THRESHOLD_SECONDS := 120; RESERVATION_TTL_SECONDS := 120 |}.

Record VramConsumer := mkVramConsumer {
  consumer_id : string;
  total_capacity_bytes : Z;
  held_bytes : Z;
  priority : Z;
  lease_state : LeaseState;
  lease_mode : LeaseMode;
  reserved_bytes : option Z;
  reserved_at : option Z;
  last_reported_at : option Z;
  last_observed_at : option Z;
  created_at : option Z;
  updated_at : option Z;
  k8s_namespace : option string;
  k8s_pod_selector : option string;
  loaded_model_id : option string;
  loaded_model_reported_at : option Z;
  device_used_bytes : option Z;
  device_total_bytes : option Z;
  device_unattributed_bytes : option Z;
  device_reported_at : option Z
}.

#[export] Instance VramConsumer_eta : Eta VramConsumer := λ r,
  mkVramConsumer (consumer_id r) (total_capacity_bytes r) (held_bytes r) (priority r)
    (lease_state r) (lease_mode r) (reserved_bytes r) (reserved_at r)
    (last_reported_at r) (last_observed_at r) (created_at r) (updated_at r)
    (k8s_namespace r) (k8s_pod_selector r) (loaded_model_id r)
    (loaded_model_reported_at r) (device_used_bytes r) (device_total_bytes r)
    (device_unattributed_bytes r) (device_reported_at r).

#[export] Instance VramConsumer_keyed : Keyed VramConsumer := consumer_id.

Abbreviation registry := (list VramConsumer).

Record DeviceOccupancy := mkDeviceOccupancy {
  used_bytes : Z;
  total_bytes : option Z;
  unattributed_bytes : Z;
  reported_by : string;
  reported_at : Z
}.

Record VramConsumerStatus := mkVramConsumerStatus {
  status_row : VramConsumer;
  status_effective_state : LeaseState;
  status_is_stale : bool
}.

Record VramConsumerRegisterForm := mkRegisterForm {
  form_consumer_id : string;
  form_total_capacity_bytes : Z;
  form_held_bytes : Z;
  form_priority : Z;
  form_k8s_namespace : option string;
  form_k8s_pod_selector : option string
}.

Record CapacitySummary := mkCapacitySummary {
  sum_total_capacity_bytes : Z;
  sum_total_held_bytes : Z;
  sum_free_bytes : Z;
  sum_consumers : list VramConsumerStatus;
  sum_device_occupancy : option DeviceOccupancy;
  sum_unattributed_bytes : Z
}.

(** What a writer may raise: the only database failure modelled is a commit
    that fails. *)
Inductive db_error := CommitFailed.

(** ** Staleness helpers *)

Section registry.
Context `{!LeaseConfig}.

Definition _is_stale (last_reported : option Z) (now : Z) : bool :=
  match last_reported with
  | None => true
  | Some t => bool_decide (now - t > STALE_THRESHOLD_SECONDS)
  end.

Definition _reservation_live (c : VramConsumer) (now : Z) : bool :=
  let reserved := default 0 (reserved_bytes c) in
  if decide (reserved ≤ 0) then false
  else match reserved_at c with
       | None => false
       | Some at_ => bool_decide (now - at_ ≤ RESERVATION_TTL_SECONDS)
       end.

Definition _effective_held (c : VramConsumer) (now : Z) : Z :=
  let measured := held_bytes c in
  if negb (_reservation_live c now) then measured
  else Z.max measured (default 0 (reserved_bytes c)).

Definition effective_held (c : VramConsumer) (now : Z) : Z := _effective_held c now.

Definition _effective_state (c : VramConsumer) (now : Z) : LeaseState :=
  if bool_decide (lease_state c = STALE) || _is_stale (last_reported_at c) now
  then STALE
  else lease_state c.

(** ** [VramLeasesTable] *)

(** [try: db.commit(); db.refresh(row); return row  except: return None] *)
Definition commit_row (ok : bool) (cid : string) (db db' : registry)
    : option VramConsumer * registry :=
  if ok then (find_row cid db', db') else (None, db).

(** [if row.lease_state == LEASE_STATE_STALE: row.lease_state = LEASE_STATE_STEADY] *)
Definition clear_stale (st : LeaseState) : LeaseState :=
  if decide (st = STALE) then STEADY else st.

Definition register_existing (now : Z) (form : VramConsumerRegisterForm)
    (row : VramConsumer) : VramConsumer := Eval simpl in
  row
    <| total_capacity_bytes := form_total_capacity_bytes form |>
    <| held_bytes := form_held_bytes form |>
    <| priority := form_priority form |>
    <| k8s_namespace := form_k8s_namespace form |>
    <| k8s_pod_selector := form_k8s_pod_selector form |>
    <| last_reported_at := Some now |>
    <| updated_at := Some now |>
    <| lease_state := clear_stale (lease_state row) |>
    <| lease_mode := SHARED |>.

Definition register_new (now : Z) (form : VramConsumerRegisterForm) : VramConsumer :=
  {| consumer_id := form_consumer_id form;
     total_capacity_bytes := form_total_capacity_bytes form;
     held_bytes := form_held_bytes form;
     priority := form_priority form;
     lease_state := STEADY;
     lease_mode := SHARED;
     reserved_bytes := None;
     reserved_at := None;
     last_reported_at := Some now;
     last_observed_at := None;
     created_at := Some now;
     updated_at := Some now;
     k8s_namespace := form_k8s_namespace form;
     k8s_pod_selector := form_k8s_pod_selector form;
     loaded_model_id := None;
     loaded_model_reported_at := None;
     device_used_bytes := None;
     device_total_bytes := None;
     device_unattributed_bytes := None;
     device_reported_at := None |}.

Definition register (ok : bool) (now : Z) (form : VramConsumerRegisterForm)
    (db : registry) : option VramConsumer * registry :=
  let cid := form_consumer_id form in
  match find_row cid db with
  | Some _ => commit_row ok cid db (update_row cid (register_existing now form) db)
  | None => commit_row ok cid db (db ++ [register_new now form])
  end.

Definition get (cid : string) (db : registry) : option VramConsumer := find_row cid db.

Definition get_all (db : registry) : list VramConsumer := order_by_text consumer_id db.

(** The common shape of the writers that update one registered row. *)
Definition write_row (ok : bool) (cid : string) (f : VramConsumer → VramConsumer)
    (db : registry) : option VramConsumer * registry :=
  match find_row cid db with
  | None => (None, db)
  | Some _ => commit_row ok cid db (update_row cid f db)
  end.

(** Whether a measurement has caught up with a consumer's reservation. *)
Definition fulfilled (held : Z) (c : VramConsumer) : bool :=
  bool_decide (default 0 (reserved_bytes c) > 0) &&
  bool_decide (default 0 (reserved_bytes c) ≤ held).

Definition heartbeat_row (now held : Z) (c : VramConsumer) : VramConsumer := Eval simpl in
  c <| held_bytes := held |>
    <| last_reported_at := Some now |>
    <| last_observed_at := Some now |>
    <| updated_at := Some now |>
    <| reserved_bytes := if fulfilled held c then None else reserved_bytes c |>
    <| reserved_at := if fulfilled held c then None else reserved_at c |>
    <| lease_state := clear_stale (lease_state c) |>.

Definition heartbeat (ok : bool) (now : Z) (cid : string) (held : Z) (db : registry) :=
  write_row ok cid (heartbeat_row now held) db.

Definition confirmed_release_row (now new_held : Z) (c : VramConsumer) : VramConsumer := Eval simpl in
  c <| held_bytes := new_held |>
    <| last_reported_at := Some now |>
    <| last_observed_at := Some now |>
    <| updated_at := Some now |>
    <| reserved_bytes := None |>
    <| reserved_at := None |>
    <| lease_state := STEADY |>.

Definition record_confirmed_release (ok : bool) (now : Z) (cid : string) (new_held : Z)
    (db : registry) :=
  write_row ok cid (confirmed_release_row now new_held) db.

Definition grant_row (now amount : Z) (prio : option Z) (c : VramConsumer) : VramConsumer := Eval simpl in
  c <| reserved_bytes := Some (default 0 (reserved_bytes c) + amount) |>
    <| reserved_at := Some now |>
    <| priority := default (priority c) prio |>
    <| last_reported_at := Some now |>
    <| updated_at := Some now |>
    <| lease_state := STEADY |>.

Definition record_grant (ok : bool) (now : Z) (cid : string) (amount : Z)
    (prio : option Z) (db : registry) :=
  write_row ok cid (grant_row now amount prio) db.

Definition set_lease_state_row (now : Z) (st : LeaseState) (c : VramConsumer) : VramConsumer := Eval simpl in
  c <| lease_state := st |> <| updated_at := Some now |>.

Definition set_lease_state (ok : bool) (now : Z) (cid : string) (st : LeaseState)
    (db : registry) :=
  write_row ok cid (set_lease_state_row now st) db.

Definition mark_stale (ok : bool) (now : Z) (cid : string) (db : registry) :=
  write_row ok cid (set_lease_state_row now STALE) db.

Definition is_stale (c : VramConsumer) (now : Z) : bool := _is_stale (last_reported_at c) now.

Definition effective_state (c : VramConsumer) (now : Z) : LeaseState := _effective_state c now.

Definition eligible_holders (now : Z) (db : registry) : list VramConsumer :=
  sort_by priority
    (filter (λ r, _effective_state r now ≠ STALE) (filter (λ r, held_bytes r > 0) db)).

Definition stale_holders (now : Z) (db : registry) : list VramConsumer :=
  sort_by priority
    (filter (λ r, _effective_state r now = STALE) (filter (λ r, held_bytes r > 0) db)).

(** ** Exclusive posture *)

Definition active_exclusive (now : Z) (db : registry) : list VramConsumer :=
  filter (λ r, _effective_state r now ≠ STALE) (filter (λ r, lease_mode r = EXCLUSIVE) db).

Definition active_exclusive_holder (now : Z) (db : registry) : option VramConsumer :=
  head (sort_by priority (active_exclusive now db)).

Definition set_mode_row (now : Z) (m : LeaseMode) (c : VramConsumer) : VramConsumer := Eval simpl in
  c <| lease_mode := m |> <| updated_at := Some now |>.

Definition set_exclusive (ok : bool) (now : Z) (cid : string) (exclusive : bool)
    (db : registry) : result db_error bool * registry :=
  let write m :=
    if ok then (Ok true, update_row cid (set_mode_row now m) db)
    else (Raise CommitFailed, db) in
  match find_row cid db with
  | None => (Ok false, db)
  | Some _ =>
      if exclusive then
        let others := filter (λ r, lease_mode r = EXCLUSIVE ∧ consumer_id r ≠ cid) db in
        if existsb (λ r, bool_decide (_effective_state r now ≠ STALE)) others
        then (Ok false, db)
        else write EXCLUSIVE
      else write SHARED
  end.

(** ** Loaded model *)

Definition loaded_model (cid : string) (db : registry) : option string * option Z :=
  match find_row cid db with
  | None => (None, None)
  | Some row => (loaded_model_id row, loaded_model_reported_at row)
  end.

Definition loaded_model_row (now : Z) (m : option string) (c : VramConsumer) : VramConsumer := Eval simpl in
  c <| loaded_model_id := m |> <| loaded_model_reported_at := Some now |>.

Definition record_loaded_model (ok : bool) (now : Z) (cid : string) (m : option string)
    (db : registry) : result db_error unit * registry :=
  match find_row cid db with
  | None => (Ok tt, db)
  | Some _ =>
      if ok then (Ok tt, update_row cid (loaded_model_row now m) db)
      else (Raise CommitFailed, db)
  end.

(** ** Card-level occupancy *)

Definition total_measured_held (db : registry) : Z := zsum (held_bytes <$> db).

Definition device_row (now used : Z) (total : option Z) (held_now : Z) (c : VramConsumer)
    : VramConsumer := Eval simpl in
  c <| device_used_bytes := Some used |>
    <| device_total_bytes := total |>
    <| device_unattributed_bytes := Some (Z.max 0 (used - held_now)) |>
    <| device_reported_at := Some now |>.

Definition record_device_occupancy (ok : bool) (now : Z) (cid : string) (used : Z)
    (total : option Z) (db : registry) : registry :=
  match find_row cid db with
  | None => db
  | Some _ =>
      let held_now := zsum (held_bytes <$> db) in
      if ok then update_row cid (device_row now used total held_now) db else db
  end.

Definition fresh_reading (now : Z) (r : VramConsumer) : bool :=
  bool_decide (is_Some (device_reported_at r)) &&
  bool_decide (is_Some (device_used_bytes r)) &&
  bool_decide (now - default 0 (device_reported_at r) ≤ STALE_THRESHOLD_SECONDS).

Definition device_occupancy (now : Z) (db : registry) : option DeviceOccupancy :=
  best ← max_by (λ r, default 0 (device_reported_at r)) (filter (λ r, fresh_reading now r) db);
  Some {| used_bytes := default 0 (device_used_bytes best);
          total_bytes := device_total_bytes best;
          unattributed_bytes := default 0 (device_unattributed_bytes best);
          reported_by := consumer_id best;
          reported_at := default 0 (device_reported_at best) |}.

Definition unattributed_overhead (now : Z) (db : registry) : Z :=
  match device_occupancy now db with
  | Some occ => unattributed_bytes occ
  | None => 0
  end.

(** ** Operator and reap clears *)

Definition clear_row (now : Z) (c : VramConsumer) : VramConsumer := Eval simpl in
  c <| held_bytes := 0 |>
    <| reserved_bytes := None |>
    <| reserved_at := None |>
    <| lease_mode := SHARED |>
    <| lease_state := STEADY |>
    <| updated_at := Some now |>.

Definition reconcile (ok : bool) (now : Z) (cid : string) (db : registry) :=
  write_row ok cid (clear_row now) db.

Definition record_reaped_release (ok : bool) (now : Z) (cid : string) (db : registry) :=
  write_row ok cid (clear_row now) db.

(** ** Capacity *)

Definition total_held (now : Z) (db : registry) : Z :=
  zsum ((λ r, _effective_held r now) <$> db).

Definition total_capacity (db : registry) : Z := zmax 0 (total_capacity_bytes <$> db).

Definition free_capacity (now : Z) (db : registry) : Z :=
  Z.max 0 (total_capacity db - total_held now db - unattributed_overhead now db).

Definition consumer_status (now : Z) (r : VramConsumer) : VramConsumerStatus :=
  {| status_row := r;
     status_effective_state := _effective_state r now;
     status_is_stale := _is_stale (last_reported_at r) now |}.

Definition capacity_summary (now : Z) (db : registry) : CapacitySummary :=
  let rows := order_by_text consumer_id db in
  let total_cap := zmax 0 (total_capacity_bytes <$> rows) in
  let held := zsum ((λ r, _effective_held r now) <$> rows) in
  let occ := device_occupancy now db in
  let overhead := match occ with Some o => unattributed_bytes o | None => 0 end in
  {| sum_total_capacity_bytes := total_cap;
     sum_total_held_bytes := held;
     sum_free_bytes := Z.max 0 (total_cap - held - overhead);
     sum_consumers := consumer_status now <$> rows;
     sum_device_occupancy := occ;
     sum_unattributed_bytes := overhead |}.

(** ** Every write of the registry, as data *)

Inductive RegOp :=
| OpRegister (form : VramConsumerRegisterForm)
| OpHeartbeat (cid : string) (held : Z)
| OpConfirmedRelease (cid : string) (new_held : Z)
| OpGrant (cid : string) (amount : Z) (prio : option Z)
| OpSetLeaseState (cid : string) (st : LeaseState)
| OpMarkStale (cid : string)
| OpSetExclusive (cid : string) (exclusive : bool)
| OpLoadedModel (cid : string) (m : option string)
| OpDeviceOccupancy (cid : string) (used : Z) (total : option Z)
| OpReconcile (cid : string)
| OpReapedRelease (cid : string).

Definition apply_op (ok : bool) (now : Z) (op : RegOp) (db : registry) : registry :=
  match op with
  | OpRegister form => (register ok now form db).2
  | OpHeartbeat cid held => (heartbeat ok now cid held db).2
  | OpConfirmedRelease cid h => (record_confirmed_release ok now cid h db).2
  | OpGrant cid amount prio => (record_grant ok now cid amount prio db).2
  | OpSetLeaseState cid st => (set_lease_state ok now cid st db).2
  | OpMarkStale cid => (mark_stale ok now cid db).2
  | OpSetExclusive cid b => (set_exclusive ok now cid b db).2
  | OpLoadedModel cid m => (record_loaded_model ok now cid m db).2
  | OpDeviceOccupancy cid used total => record_device_occupancy ok now cid used total db
  | OpReconcile cid => (reconcile ok now cid db).2
  | OpReapedRelease cid => (record_reaped_release ok now cid db).2
  end.

End registry.
