(* ===== verification/LeaseFacts.v ===== *)
(** Proofs about the VRAM lease registry of [Leases]: the table invariant, the
    trust invariant on [held_bytes], the reservation accounting, the holder
    queries, the exclusive posture and the capacity arithmetic. *)

From S2P Require Import Prelude Data Leases.

(** Unfold the row functions and compute the projections. *)
Ltac unfold_rows :=
  unfold register_existing, register_new, heartbeat_row,
    confirmed_release_row, grant_row, set_lease_state_row, set_mode_row,
    loaded_model_row, device_row, clear_row in *.
Ltac row_cases := intros; unfold_rows; simpl in *; try done.

Section facts.
Context `{!LeaseConfig}.
Implicit Types (db : registry) (r : VramConsumer).

(** ** Row functions keep the primary key *)

Lemma keeps_register now form : keeps_key (register_existing now form).
Proof. unfold keeps_key. row_cases. Qed.
Lemma keeps_heartbeat now h : keeps_key (heartbeat_row now h).
Proof. unfold keeps_key. row_cases. Qed.
Lemma keeps_confirmed now h : keeps_key (confirmed_release_row now h).
Proof. done. Qed.
Lemma keeps_grant now a p : keeps_key (grant_row now a p).
Proof. done. Qed.
Lemma keeps_state now st : keeps_key (set_lease_state_row now st).
Proof. done. Qed.
Lemma keeps_mode now m : keeps_key (set_mode_row now m).
Proof. done. Qed.
Lemma keeps_model now m : keeps_key (loaded_model_row now m).
Proof. done. Qed.
Lemma keeps_device now u t h : keeps_key (device_row now u t h).
Proof. done. Qed.
Lemma keeps_clear now : keeps_key (clear_row now).
Proof. done. Qed.

Hint Resolve keeps_register keeps_heartbeat keeps_confirmed keeps_grant keeps_state
  keeps_mode keeps_model keeps_device keeps_clear : s2db.

(** ** What each write does to the table *)

Lemma write_row_table ok cid f db :
  (write_row ok cid f db).2 = if ok then update_row cid f db else db.
Proof.
  unfold write_row, commit_row. destruct (find_row cid db) eqn:Hf; destruct ok; try done.
  by rewrite update_row_absent.
Qed.

Lemma write_row_return ok cid f db :
  keeps_key f →
  (write_row ok cid f db).1 = if ok then f <$> find_row cid db else None.
Proof.
  intros Hf. unfold write_row, commit_row.
  destruct (find_row cid db) eqn:Hr; destruct ok; simpl; try done.
  by rewrite find_update_row_eq, Hr.
Qed.

Lemma set_exclusive_table ok now cid b db :
  (set_exclusive ok now cid b db).2 = db ∨
  (set_exclusive ok now cid b db = (Ok true, (set_exclusive ok now cid b db).2) ∧
   (set_exclusive ok now cid b db).2 =
     update_row cid (set_mode_row now (if b then EXCLUSIVE else SHARED)) db).
Proof.
  unfold set_exclusive. destruct (find_row cid db), b; try (by left).
  - destruct (existsb _ _); [by left|]. destruct ok; [by right|by left].
  - destruct ok; [by right|by left].
Qed.

(** The row an operation targets and what it does to it. *)
Definition op_target (op : RegOp) : string :=
  match op with
  | OpRegister form => form_consumer_id form
  | OpHeartbeat c _ | OpConfirmedRelease c _ | OpGrant c _ _ | OpSetLeaseState c _
  | OpMarkStale c | OpSetExclusive c _ | OpLoadedModel c _ | OpDeviceOccupancy c _ _
  | OpReconcile c | OpReapedRelease c => c
  end.

Definition op_row (now : Z) (op : RegOp) db : VramConsumer → VramConsumer :=
  match op with
  | OpRegister form => register_existing now form
  | OpHeartbeat _ h => heartbeat_row now h
  | OpConfirmedRelease _ h => confirmed_release_row now h
  | OpGrant _ a p => grant_row now a p
  | OpSetLeaseState _ st => set_lease_state_row now st
  | OpMarkStale _ => set_lease_state_row now STALE
  | OpSetExclusive _ b => set_mode_row now (if b then EXCLUSIVE else SHARED)
  | OpLoadedModel _ m => loaded_model_row now m
  | OpDeviceOccupancy _ u t => device_row now u t (total_measured_held db)
  | OpReconcile _ | OpReapedRelease _ => clear_row now
  end.

Lemma op_row_keeps now op db : keeps_key (op_row now op db).
Proof. destruct op; simpl; auto with s2db. Qed.
Hint Resolve op_row_keeps : s2db.

(** Every write is the identity, one row's update, or the insertion of a row. *)
Lemma apply_op_shape ok now op db :
  apply_op ok now op db = db ∨
  (ok = true ∧
   apply_op ok now op db = update_row (op_target op) (op_row now op db) db) ∨
  (∃ form, ok = true ∧ op = OpRegister form ∧ find_row (form_consumer_id form) db = None ∧
     apply_op ok now op db = db ++ [register_new now form]).
Proof.
  destruct op; simpl; unfold heartbeat, record_confirmed_release, record_grant,
    set_lease_state, mark_stale, reconcile, record_reaped_release;
    rewrite ?write_row_table; try (destruct ok; [right; left; done|by left]).
  - unfold register, commit_row. destruct (find_row _ _) eqn:Hf; destruct ok; simpl; try by left.
    + by right; left.
    + right; right. by exists form.
  - destruct (set_exclusive_table ok now cid exclusive db) as [->|[H1 ->]]; [by left|].
    destruct ok; [by right; left|]. unfold set_exclusive in H1.
    destruct (find_row cid db), exclusive; try done. by destruct (existsb _ _).
  - unfold record_loaded_model. destruct (find_row cid db), ok; simpl; auto.
  - unfold record_device_occupancy. destruct (find_row cid db), ok; simpl; auto.
Qed.

(** ** The table invariant *)

(** The ids a write leaves behind: the same ones, except that registering an
    unknown consumer adds its id. *)
Lemma apply_op_keys ok now op db :
  keys (apply_op ok now op db) = keys db ∨
  (op_target op ∉ keys db ∧ keys (apply_op ok now op db) = keys db ++ [op_target op]).
Proof.
  destruct (apply_op_shape ok now op db) as [->|[[_ ->]|(form & _ & -> & Hf & ->)]].
  - by left.
  - left. apply keys_update_row. auto with s2db.
  - right. split; [by apply find_row_None|]. unfold keys. by rewrite fmap_app.
Qed.

Lemma apply_op_nodup ok now op db :
  NoDup (keys db) → NoDup (keys (apply_op ok now op db)).
Proof.
  intros Hnd. destruct (apply_op_keys ok now op db) as [->|[Hn ->]]; [done|].
  apply NoDup_app. split_and!; [done| |apply NoDup_singleton].
  intros x Hx ->%list_elem_of_singleton. done.
Qed.

Lemma find_apply_op ok now op db cid r r' :
  find_row cid db = Some r → find_row cid (apply_op ok now op db) = Some r' →
  r' = r ∨ (ok = true ∧ cid = op_target op ∧ r' = op_row now op db r).
Proof.
  intros Hr. destruct (apply_op_shape ok now op db) as [->|[[-> ->]|(form & -> & -> & Hf & ->)]].
  - intros Hr'. left. congruence.
  - rewrite find_update_row, Hr by auto with s2db. simpl.
    case_decide; intros [= <-]; auto.
  - intros Hr'. left. revert Hr Hr'. clear. induction db as [|x db IH]; simpl; [done|].
    case_decide; [congruence|done].
Qed.

(** ** Runs of writes *)

(** A run of the registry: writes with their commit outcome and clock reading. *)
Definition run_ops (ops : list (bool * Z * RegOp)) db : registry :=
  foldl (λ db '(ok, now, op), apply_op ok now op db) db ops.

Lemma run_ops_nodup ops db : NoDup (keys db) → NoDup (keys (run_ops ops db)).
Proof.
  revert db. induction ops as [|[[ok now] op] ops IH]; intros db Hnd; [done|].
  apply IH, apply_op_nodup, Hnd.
Qed.

Lemma run_ops_keeps ops db cid :
  is_Some (find_row cid db) → is_Some (find_row cid (run_ops ops db)).
Proof.
  revert db. induction ops as [|[[ok now] op] ops IH]; intros db Hs; [done|]. apply IH.
  destruct (find_row cid (apply_op ok now op db)) eqn:Hf; [done|].
  apply find_row_None in Hf. destruct Hs as [x Hx].
  assert (cid ∈ keys db) as Hin.
  { apply dec_stable. intros Hn%find_row_None. congruence. }
  destruct (apply_op_keys ok now op db) as [Hk|[_ Hk]]; rewrite Hk in Hf; [done|].
  exfalso; apply Hf. apply elem_of_app. by left.
Qed.

(** ** Staleness only grows with time *)

Lemma is_stale_mono t now now' : now ≤ now' → _is_stale t now = true → _is_stale t now' = true.
Proof. intros Hle. destruct t; simpl; [|done]. rewrite !bool_decide_eq_true. lia. Qed.

Lemma effective_state_stale r now :
  _effective_state r now = STALE ↔ lease_state r = STALE ∨ _is_stale (last_reported_at r) now = true.
Proof.
  unfold _effective_state. case_bool_decide; simpl; [by split; auto|].
  destruct (_is_stale _ _); split; naive_solver.
Qed.

Lemma effective_state_stale_mono r now now' :
  now ≤ now' → _effective_state r now = STALE → _effective_state r now' = STALE.
Proof. rewrite !effective_state_stale. intros ? [|]; eauto using is_stale_mono. Qed.

(** ** Effective holds *)

Lemma effective_held_ge_measured r now : held_bytes r ≤ _effective_held r now.
Proof. unfold _effective_held. destruct (_reservation_live r now); simpl; lia. Qed.

Lemma reservation_live_iff r now :
  _reservation_live r now = true ↔
    ∃ t, reserved_at r = Some t ∧ 0 < default 0 (reserved_bytes r) ∧
         now - t ≤ RESERVATION_TTL_SECONDS.
Proof.
  unfold _reservation_live. case_decide as Hpos.
  - split; [done|]. intros (? & _ & ? & _). lia.
  - destruct (reserved_at r) as [t|]; [|split; [done|by intros (? & ? & _)]].
    rewrite bool_decide_eq_true. split; [|naive_solver].
    intros. exists t. split_and!; [done|lia|done].
Qed.

Lemma effective_held_live r now :
  _reservation_live r now = true →
  _effective_held r now = Z.max (held_bytes r) (default 0 (reserved_bytes r)).
Proof. unfold _effective_held. by intros ->. Qed.

Lemma effective_held_not_live r now :
  _reservation_live r now = false → _effective_held r now = held_bytes r.
Proof. unfold _effective_held. by intros ->. Qed.

Lemma effective_held_unreserved r now :
  reserved_bytes r = None → _effective_held r now = held_bytes r.
Proof.
  intros Hr. apply effective_held_not_live. unfold _reservation_live. by rewrite Hr.
Qed.

(** ** The card reading and the ceiling do not depend on the lease columns *)

Definition card_view r := (consumer_id r, total_capacity_bytes r, device_used_bytes r,
  device_total_bytes r, device_unattributed_bytes r, device_reported_at r).

Lemma cons_eq_inv {A} (x y : A) l k : x :: l = y :: k → x = y ∧ l = k.
Proof. by intros [= -> ->]. Qed.

Lemma fresh_filter_card_view now (l l' : registry) :
  card_view <$> l = card_view <$> l' →
  card_view <$> filter (λ r, fresh_reading now r) l =
  card_view <$> filter (λ r, fresh_reading now r) l'.
Proof.
  revert l'. induction l as [|x l IH]; intros [|x' l']; try done.
  csimpl. intros [Hx Hl]%cons_eq_inv. specialize (IH l' Hl).
  unfold card_view in Hx; injection Hx as Hid Hcap Hu Ht Hun Hat.
  rewrite !filter_cons.
  assert (fresh_reading now x = fresh_reading now x') as ->
    by (unfold fresh_reading; by rewrite Hat, Hu).
  case_decide; csimpl; [|done]. f_equal; [|done]. unfold card_view. congruence.
Qed.

Lemma max_by_card_view (l l' : registry) :
  card_view <$> l = card_view <$> l' →
  card_view <$> max_by (λ r, default 0 (device_reported_at r)) l =
  card_view <$> max_by (λ r, default 0 (device_reported_at r)) l'.
Proof.
  revert l'. induction l as [|x l IH]; intros [|x' l']; try done.
  csimpl. intros [Hx Hl]%cons_eq_inv. specialize (IH l' Hl).
  unfold card_view in Hx; injection Hx as Hid Hcap Hu Ht Hun Hat.
  destruct (max_by _ l) as [y|], (max_by _ l') as [y'|]; try done; simpl in *.
  - injection IH as ??????. repeat case_decide; simpl; unfold card_view; congruence.
  - unfold card_view. congruence.
Qed.

Lemma device_occupancy_card_view now db db' :
  card_view <$> db = card_view <$> db' → device_occupancy now db = device_occupancy now db'.
Proof.
  intros Hm%(fresh_filter_card_view now)%max_by_card_view. unfold device_occupancy.
  destruct (max_by _ _) as [y|], (max_by _ _) as [y'|]; try done; simpl in *.
  unfold card_view in Hm. injection Hm as ??????. congruence.
Qed.

Lemma update_row_card_view cid f db :
  (∀ r, card_view (f r) = card_view r) →
  card_view <$> update_row cid f db = card_view <$> db.
Proof. apply fmap_update_row_same. Qed.

Lemma unattributed_overhead_update now cid f db :
  (∀ r, card_view (f r) = card_view r) →
  unattributed_overhead now (update_row cid f db) = unattributed_overhead now db.
Proof.
  intros Hf. unfold unattributed_overhead.
  by rewrite (device_occupancy_card_view _ _ db) by by apply update_row_card_view.
Qed.

Lemma total_capacity_update cid f db :
  (∀ r, total_capacity_bytes (f r) = total_capacity_bytes r) →
  total_capacity (update_row cid f db) = total_capacity db.
Proof. intros Hf. unfold total_capacity. by rewrite fmap_update_row_same. Qed.

Lemma total_held_update now cid f db r :
  NoDup (keys db) → find_row cid db = Some r →
  total_held now (update_row cid f db) =
    total_held now db - _effective_held r now + _effective_held (f r) now.
Proof. intros. unfold total_held.
  by apply (zsum_update_row (λ r, _effective_held r now)). Qed.

(** How a write that leaves the card columns alone moves free capacity. *)
Lemma free_capacity_update now cid f db r :
  NoDup (keys db) → find_row cid db = Some r →
  (∀ x, card_view (f x) = card_view x) →
  free_capacity now (update_row cid f db) =
    Z.max 0 (total_capacity db - unattributed_overhead now db - total_held now db
             + _effective_held r now - _effective_held (f r) now).
Proof.
  intros Hnd Hr Hf. unfold free_capacity.
  rewrite (total_held_update _ _ _ _ r), total_capacity_update,
    unattributed_overhead_update by (done || (intros x; specialize (Hf x);
      unfold card_view in Hf; congruence)).
  f_equal. lia.
Qed.

(** ** Exclusive holders *)

Lemma elem_of_active_exclusive now db r :
  r ∈ active_exclusive now db ↔
    r ∈ db ∧ lease_mode r = EXCLUSIVE ∧ _effective_state r now ≠ STALE.
Proof. unfold active_exclusive. rewrite !list_elem_of_filter. tauto. Qed.

Lemma active_exclusive_earlier now now' db r :
  now ≤ now' → r ∈ active_exclusive now' db → r ∈ active_exclusive now db.
Proof.
  rewrite !elem_of_active_exclusive. intros Hle (? & ? & Hs). split_and!; try done.
  intros Hs'. by apply Hs, (effective_state_stale_mono _ now).
Qed.

Lemma active_exclusive_holder_Some now db r :
  active_exclusive_holder now db = Some r → r ∈ active_exclusive now db.
Proof.
  unfold active_exclusive_holder. intros Hh%head_Some_elem_of. by rewrite sort_by_elem_of in Hh.
Qed.

Lemma active_exclusive_holder_None now db :
  active_exclusive_holder now db = None ↔ active_exclusive now db = [].
Proof.
  unfold active_exclusive_holder. split.
  - intros Hn%head_None. apply Permutation_nil_r. by rewrite <- Hn, sort_by_perm.
  - by intros ->.
Qed.

Lemma set_exclusive_outcome ok now cid db db' b :
  set_exclusive ok now cid true db = (Ok b, db') →
  if b then ∀ r, r ∈ active_exclusive now db' → consumer_id r = cid
  else db' = db ∧
       (find_row cid db = None ∨
        ∃ r, r ∈ active_exclusive now db ∧ consumer_id r ≠ cid).
Proof.
  unfold set_exclusive. destruct (find_row cid db) as [c|] eqn:Hc; [|naive_solver].
  destruct (existsb _ _) eqn:Hex; [|destruct ok; intros [= <- <-]].
  - intros [= <- <-]. split; [done|right].
    apply existsb_exists in Hex as (r & Hr%list_elem_of_In & Hs%bool_decide_eq_true).
    apply list_elem_of_filter in Hr as [[? ?] ?].
    exists r. split; [by apply elem_of_active_exclusive|done].
  - intros r (Hr & Hm & Hs)%elem_of_active_exclusive. unfold update_row, update_where in Hr.
    apply list_elem_of_fmap in Hr as (x & -> & Hx).
    case_bool_decide as Hk; [done|]. exfalso.
    apply not_true_iff_false in Hex. apply Hex, existsb_exists. exists x.
    rewrite bool_decide_true by done. split; [|done].
    apply list_elem_of_In, list_elem_of_filter. done.
Qed.

Lemma set_exclusive_marks ok now cid db db' :
  set_exclusive ok now cid true db = (Ok true, db') →
  ∃ r, find_row cid db' = Some r ∧ lease_mode r = EXCLUSIVE.
Proof.
  unfold set_exclusive. destruct (find_row cid db) as [c|] eqn:Hc; [|done].
  destruct (existsb _ _); [done|]. destruct ok; [|done]. intros [= <-].
  rewrite find_update_row_eq, Hc by auto with s2db. by eexists.
Qed.

(** Whether all active exclusive holders are one and the same consumer. *)
Definition at_most_one_exclusive now db : Prop :=
  ∀ r1 r2, r1 ∈ active_exclusive now db → r2 ∈ active_exclusive now db →
    consumer_id r1 = consumer_id r2.

End facts.

#[export] Hint Resolve keeps_register keeps_heartbeat keeps_confirmed keeps_grant keeps_state
  keeps_mode keeps_model keeps_device keeps_clear op_row_keeps apply_op_nodup : s2db.
