(* ===== verification/LeaseContract.v ===== *)
(** The contract of the VRAM lease registry: what [models/vram_leases.py]
    promises about [held_bytes], reservations, staleness, the holder queries and
    the exclusive posture, with the places where the code's own description does
    not hold of it. *)

From S2P Require Import Prelude Data Leases LeaseFacts.

(** ** A small concrete registry for the witnesses *)

Module Sample.
#[export] Instance cfg : LeaseConfig := default_lease_config.

Definition row (cid : string) (cap held prio : Z) (now : Z) : VramConsumer :=
  register_new now {| form_consumer_id := cid; form_total_capacity_bytes := cap;
    form_held_bytes := held; form_priority := prio;
    form_k8s_namespace := None; form_k8s_pod_selector := None |}.

Definition llamolotl := row "self.llamolotl" 24 8 10 1000.
Definition speak := row "self.speak" 24 5 5 1000.
Definition sketch := row "self.sketch" 24 0 3 1000.

Definition db : registry := [llamolotl; speak; sketch].

Lemma db_nodup : NoDup (keys db).
Proof. by_decision. Qed.
End Sample.

Section contract.
Context `{!LeaseConfig}.
Implicit Types (db : registry) (r : VramConsumer).

(** C2: the trust invariant (R1-AC4).  Whatever write is applied to the
    registry, a consumer's [held_bytes] changes only if the write was committed
    and is that consumer's own registration, heartbeat or confirmed release, in
    which case the new value is the reported one, or an operator reconcile or a
    reaped release of that consumer, in which case it is zero.  In particular a
    grant, a timeout or another consumer's report never moves it. *)
Theorem held_only_from_reports ok now op db cid r r' :
  find_row cid db = Some r →
  find_row cid (apply_op ok now op db) = Some r' →
  held_bytes r' ≠ held_bytes r →
  ok = true ∧
  ((∃ form, op = OpRegister form ∧ form_consumer_id form = cid ∧
      held_bytes r' = form_held_bytes form) ∨
   op = OpHeartbeat cid (held_bytes r') ∨
   op = OpConfirmedRelease cid (held_bytes r') ∨
   ((op = OpReconcile cid ∨ op = OpReapedRelease cid) ∧ held_bytes r' = 0)).
Proof.
  intros Hr Hr' Hne. destruct (find_apply_op _ _ _ _ _ _ _ Hr Hr') as [->|(-> & -> & ->)];
    [done|]. split; [done|].
  destruct op; simpl in *; try done; auto 10.
  left. by exists form.
Qed.

(** Registration is an idempotent upsert (R1-AC1): it never leaves two rows
    with one id, it adds an id only when that id was unknown, the row it leaves
    carries the reported figures in the shared posture and is not stale, and
    registering again at the same instant changes nothing. *)
Theorem register_upsert now form db :
  NoDup (keys db) → 0 ≤ STALE_THRESHOLD_SECONDS →
  let cid := form_consumer_id form in
  let db' := (register true now form db).2 in
  NoDup (keys db') ∧
  keys db' = (if decide (cid ∈ keys db) then keys db else keys db ++ [cid]) ∧
  (register true now form db').2 = db' ∧
  ∃ r, (register true now form db).1 = Some r ∧ find_row cid db' = Some r ∧
    held_bytes r = form_held_bytes form ∧ priority r = form_priority form ∧
    total_capacity_bytes r = form_total_capacity_bytes form ∧
    lease_mode r = SHARED ∧ _effective_state r now ≠ STALE.
Proof.
  intros Hnd Hthr cid db'.
  assert (∀ r, _effective_state (register_existing now form r) now ≠ STALE) as Hlive.
  { intros r. rewrite effective_state_stale. simpl. rewrite bool_decide_eq_true.
    unfold clear_stale. case_decide; intros [|]; try done; lia. }
  assert (∀ r, register_existing now form (register_existing now form r) =
               register_existing now form r) as Hidem.
  { intros r. unfold register_existing. simpl. f_equal. unfold clear_stale.
    by repeat case_decide. }
  subst cid db'. unfold register, commit_row.
  destruct (find_row (form_consumer_id form) db) as [r|] eqn:Hr; simpl.
  - rewrite keys_update_row, find_update_row_eq, Hr by auto with s2db. simpl.
    rewrite decide_True by (apply find_row_is_Some; eauto). split_and!; try done.
    + apply update_row_id. intros x Hx Hk.
      apply elem_of_update_row in Hx as [[_ Hx]|(x0 & _ & ->)]; [done|apply Hidem|done|].
      auto with s2db.
    + eexists. split_and!; try done; row_cases.
  - pose proof Hr as Hn. rewrite find_row_None in Hn. rewrite decide_False by done.
    rewrite !find_row_app, !Hr. simpl. rewrite decide_True by done. simpl.
    unfold keys in *. rewrite fmap_app. split_and!; try done.
    + apply NoDup_app. split_and!; [done| |apply NoDup_singleton].
      intros x Hx Hs. apply list_elem_of_singleton in Hs as ->. done.
    + apply update_row_id. intros x Hx Hk.
      apply elem_of_app in Hx as [Hx|Hx]; [|by apply list_elem_of_singleton in Hx as ->].
      destruct Hn. rewrite <- Hk. by apply list_elem_of_fmap_2.
    + eexists. split_and!; try done. rewrite effective_state_stale. simpl.
      rewrite bool_decide_eq_true. intros [|]; [done|lia].
Qed.

(** ** Reservations (self.ai#76) *)

(** The writes that reach the registry while a granted consumer is still
    loading: any report about another consumer, and for the consumer itself poll
    traffic whose measurement is still below the reservation [R]. *)
Definition loading_traffic (cid : string) (R : Z) (op : RegOp) : Prop :=
  op_target op ≠ cid ∨
  match op with
  | OpHeartbeat _ h => h < R
  | OpLoadedModel _ _ | OpDeviceOccupancy _ _ _ => True
  | _ => False
  end.

Lemma loading_traffic_keeps_reservation ops db cid r R t :
  find_row cid db = Some r → reserved_bytes r = Some R → reserved_at r = Some t →
  Forall (λ '(_, _, op), loading_traffic cid R op) ops →
  ∃ r', find_row cid (run_ops ops db) = Some r' ∧
    reserved_bytes r' = Some R ∧ reserved_at r' = Some t.
Proof.
  intros Hr HR Ht Hops. revert db r Hr HR Ht.
  induction Hops as [|[[ok now] op] ops Hop _ IH]; intros db r Hr HR Ht; [by exists r|].
  simpl. pose proof (run_ops_keeps [(ok, now, op)] db cid (mk_is_Some _ _ Hr)) as [r1 Hr1].
  simpl in Hr1. apply (IH _ r1 Hr1); clear IH;
    destruct (find_apply_op _ _ _ _ _ _ _ Hr Hr1) as [->|(_ & -> & ->)]; try done;
    destruct Hop as [?|Hop]; try done; destruct op; try done; simpl in *; try done;
    unfold fulfilled; rewrite HR; simpl;
    rewrite (bool_decide_false (R ≤ held)), andb_false_r by lia; done.
Qed.

(** A grant survives the poller.  After a grant of [amount] at time [t0],
    whatever reports arrive while the consumer is still loading (any number of
    heartbeats below the reservation, model and card readings, anything about
    other consumers, in any order and with any commit outcomes), the consumer's
    effective hold is at least everything reserved for it, until the reservation
    TTL has passed. *)
Theorem grant_survives_polling db cid r amount prio t0 now ops :
  let R := default 0 (reserved_bytes r) + amount in
  let db1 := (record_grant true t0 cid amount prio db).2 in
  find_row cid db = Some r → 0 < R →
  Forall (λ '(_, _, op), loading_traffic cid R op) ops →
  now - t0 ≤ RESERVATION_TTL_SECONDS →
  ∃ r', find_row cid (run_ops ops db1) = Some r' ∧ R ≤ _effective_held r' now.
Proof.
  intros R db1 Hr HR0 Hops Hnow. subst db1. unfold record_grant. rewrite write_row_table.
  destruct (loading_traffic_keeps_reservation ops
    (update_row cid (grant_row t0 amount prio) db) cid (grant_row t0 amount prio r) R t0)
    as (r' & Hr' & HR' & Ht'); [|done..|].
  - by rewrite find_update_row_eq, Hr by auto with s2db.
  - exists r'. split; [done|]. rewrite effective_held_live; [rewrite HR'; simpl; lia|].
    apply reservation_live_iff. exists t0. rewrite HR'. done.
Qed.

(** What a grant does to the pool.  A committed grant replaces the
    requester's term of the held sum by the larger of its measurement and its
    accumulated reservation, and changes neither the ceiling nor the overhead. *)
Theorem grant_total_held db cid r amount prio now :
  NoDup (keys db) → find_row cid db = Some r →
  0 ≤ RESERVATION_TTL_SECONDS →
  let db' := (record_grant true now cid amount prio db).2 in
  let R := default 0 (reserved_bytes r) + amount in
  total_held now db' =
    total_held now db - _effective_held r now + (if decide (R ≤ 0) then held_bytes r
                                                 else Z.max (held_bytes r) R) ∧
  total_capacity db' = total_capacity db ∧
  unattributed_overhead now db' = unattributed_overhead now db.
Proof.
  intros Hnd Hr Httl db' R. subst db'. unfold record_grant. rewrite write_row_table.
  split_and!.
  - rewrite (total_held_update _ _ _ _ r) by done. f_equal. unfold _effective_held at 1.
    unfold _reservation_live. simpl. fold R. case_decide; [done|]. simpl.
    by rewrite bool_decide_true by lia.
  - by apply total_capacity_update.
  - by apply unattributed_overhead_update.
Qed.

(** A grant to a consumer that already measures at least everything
    reserved for it is not counted: free capacity is exactly what it was before
    the grant, so the same bytes can be granted again.  The registry's
    description ("the requester now holds [amount_bytes] MORE VRAM", counted
    "against capacity via [_effective_held]") does not hold of it, because the
    effective hold is the maximum of measurement and reservation, not their
    sum. *)
Theorem grant_on_top_of_measured_hold_is_free db cid r amount prio now :
  NoDup (keys db) → find_row cid db = Some r → 0 ≤ RESERVATION_TTL_SECONDS →
  default 0 (reserved_bytes r) + amount ≤ held_bytes r →
  default 0 (reserved_bytes r) ≤ held_bytes r →
  free_capacity now (record_grant true now cid amount prio db).2 = free_capacity now db.
Proof.
  intros Hnd Hr Httl HR Hres. unfold record_grant. rewrite write_row_table.
  rewrite (free_capacity_update _ _ _ _ r) by done. unfold free_capacity. f_equal.
  assert (_effective_held r now = held_bytes r) as ->.
  { destruct (_reservation_live r now) eqn:Hl;
      [rewrite effective_held_live by done; lia|by apply effective_held_not_live]. }
  destruct (_reservation_live (grant_row now amount prio r) now) eqn:Hl;
    [rewrite effective_held_live by done|rewrite effective_held_not_live by done];
    simpl; lia.
Qed.

(** A confirmed release is visible at once: the held sum drops by exactly
    the releaser's effective hold less what it still reports, with the ceiling
    and the overhead unchanged, so free capacity rises by that much whenever the
    pool is not over-committed.  This is what the reclamation loop, which
    re-reads free capacity after each release, relies on. *)
Theorem confirmed_release_raises_free db cid r new_held now :
  NoDup (keys db) → find_row cid db = Some r →
  let db' := (record_confirmed_release true now cid new_held db).2 in
  total_held now db' = total_held now db - _effective_held r now + new_held ∧
  (total_held now db + unattributed_overhead now db ≤ total_capacity db →
   new_held ≤ _effective_held r now →
   free_capacity now db' = free_capacity now db + (_effective_held r now - new_held)).
Proof.
  intros Hnd Hr db'. subst db'. unfold record_confirmed_release. rewrite write_row_table.
  assert (_effective_held (confirmed_release_row now new_held r) now = new_held) as Heff
    by by apply effective_held_unreserved.
  split.
  - by rewrite (total_held_update _ _ _ _ r), Heff by done.
  - intros Hfit Hle. rewrite (free_capacity_update _ _ _ _ r), Heff by done.
    unfold free_capacity. lia.
Qed.

(** Elapsed time never frees measured VRAM (R1-AC6/AC7).  As the clock
    advances with no write, the held sum can only fall, by reservations running
    out, and never below the sum of what the consumers last measured, stale
    consumers included; and a consumer that is stale stays stale. *)
Theorem time_never_frees_measured db now now' :
  now ≤ now' →
  total_measured_held db ≤ total_held now' db ≤ total_held now db ∧
  (∀ r, r ∈ db → _effective_state r now = STALE → _effective_state r now' = STALE).
Proof.
  intros Hle. unfold total_measured_held, total_held. split_and!.
  - apply zsum_map_le. intros r _. apply effective_held_ge_measured.
  - apply zsum_map_le. intros r _. destruct (_reservation_live r now') eqn:Hl.
    + rewrite (effective_held_live r now') by done.
      rewrite effective_held_live; [done|].
      apply reservation_live_iff in Hl as (t & ? & ? & ?).
      apply reservation_live_iff. exists t. split_and!; [done|done|lia].
    + rewrite effective_held_not_live by done. apply effective_held_ge_measured.
  - intros r _. by apply effective_state_stale_mono.
Qed.

(** ** The holder queries *)

(** [eligible_holders] and [stale_holders] split the consumers that
    measurably hold VRAM: together they are exactly those rows, no row is in
    both, an eligible holder is never stale and a stale one always is, each list
    is in ascending priority, and rows of equal priority keep their table
    order. *)
Theorem holders_partition now db :
  eligible_holders now db ++ stale_holders now db ≡ₚ filter (λ r, held_bytes r > 0) db ∧
  (∀ r, r ∈ eligible_holders now db → _effective_state r now ≠ STALE ∧ held_bytes r > 0) ∧
  (∀ r, r ∈ stale_holders now db → _effective_state r now = STALE ∧ held_bytes r > 0) ∧
  StronglySorted (key_le priority) (eligible_holders now db) ∧
  StronglySorted (key_le priority) (stale_holders now db) ∧
  (∀ k, filter (λ r, priority r = k) (eligible_holders now db) =
        filter (λ r, priority r = k ∧ _effective_state r now ≠ STALE ∧ held_bytes r > 0) db).
Proof.
  unfold eligible_holders, stale_holders. split_and!; try apply sort_by_sorted.
  - rewrite !sort_by_perm. induction (filter (λ r, held_bytes r > 0) db) as [|x l IH]; [done|].
    rewrite !filter_cons. destruct (decide (_effective_state x now = STALE)) as [Hs|Hs].
    + rewrite (decide_False (P := _ ≠ _)) by auto. by rewrite <- Permutation_middle, IH.
    + rewrite decide_True by done. simpl. by rewrite IH.
  - intros r. rewrite sort_by_elem_of, !list_elem_of_filter. tauto.
  - intros r. rewrite sort_by_elem_of, !list_elem_of_filter. tauto.
  - intros k. rewrite sort_by_stable, !list_filter_filter.
    apply list_filter_iff. intros r. tauto.
Qed.

(** ** Exclusive posture *)

(** A successful [set_exclusive(True)] leaves at most one active exclusive
    holder, the one that was marked; the marking is refused, and nothing is
    written, while another consumer is an active exclusive holder. *)
Theorem set_exclusive_establishes_at_most_one ok now cid db db' b :
  set_exclusive ok now cid true db = (Ok b, db') →
  if b then ∀ r, r ∈ active_exclusive now db' → consumer_id r = cid
  else db' = db ∧
       (find_row cid db = None ∨
        ∃ r, r ∈ active_exclusive now db ∧ consumer_id r ≠ cid).
Proof. apply set_exclusive_outcome. Qed.

(** Whether an operation may turn a stale exclusive holder active again: it is a
    proof of life, or a state change, for a row that is exclusive and stale. *)
Definition revives now db (op : RegOp) : Prop :=
  match op with
  | OpHeartbeat c _ | OpConfirmedRelease c _ | OpGrant c _ _ | OpSetLeaseState c _ =>
      ∃ r, r ∈ db ∧ consumer_id r = c ∧ lease_mode r = EXCLUSIVE ∧
        _effective_state r now = STALE
  | _ => False
  end.

Lemma active_exclusive_update now cid f db r :
  r ∈ active_exclusive now (update_row cid f db) →
  r ∈ active_exclusive now db ∨
  ∃ x, x ∈ db ∧ consumer_id x = cid ∧ r = f x ∧
    lease_mode r = EXCLUSIVE ∧ _effective_state r now ≠ STALE.
Proof.
  intros (Hr & Hm & Hs)%elem_of_active_exclusive. unfold update_row, update_where in Hr.
  apply list_elem_of_fmap in Hr as (x & -> & Hx).
  case_bool_decide; [right; by exists x|left; by apply elem_of_active_exclusive].
Qed.

Lemma active_exclusive_apply ok now op db r :
  ¬ revives now db op → (∀ c, op ≠ OpSetExclusive c true) →
  r ∈ active_exclusive now (apply_op ok now op db) →
  ∃ x, x ∈ active_exclusive now db ∧ consumer_id x = consumer_id r.
Proof.
  intros Hrev Hset Hr.
  destruct (apply_op_shape ok now op db) as [Heq|[[_ Heq]|(form & _ & _ & _ & Heq)]];
    rewrite Heq in Hr; clear Heq.
  - by exists r.
  - apply active_exclusive_update in Hr as [Hr|(x & Hx & Hcid & -> & Hm & Hs)];
      [by exists r|].
    rewrite effective_state_stale in Hs. exists x.
    rewrite elem_of_active_exclusive, effective_state_stale.
    destruct op as [| | | | | |? []| | | |]; simpl in *; try done; try tauto;
      try (by destruct (Hset cid));
      (split; [|done]; split; [done|]; split; [done|]; intros Hst; apply Hrev;
       exists x; by rewrite effective_state_stale).
  - apply elem_of_active_exclusive in Hr as (Hr & Hm & Hs).
    apply elem_of_app in Hr as [Hr|Hr]; [exists r; by rewrite elem_of_active_exclusive|].
    by apply list_elem_of_singleton in Hr as ->.
Qed.

(** The at-most-one-active-exclusive-holder invariant is kept by every write
    of the registry that does not revive a stale exclusive holder, and by the
    passage of time; registration in particular clears the posture, so a
    restarted holder never gets its window back (self.ai#78). *)
Theorem exclusive_invariant_preserved ok now now' op db :
  at_most_one_exclusive now db → ¬ revives now db op → now ≤ now' →
  at_most_one_exclusive now' (apply_op ok now op db).
Proof.
  intros Hone Hrev Hle.
  enough (at_most_one_exclusive now (apply_op ok now op db)) as Hnow.
  { intros r1 r2 H1 H2. apply Hnow; eauto using active_exclusive_earlier. }
  assert ((∃ c, op = OpSetExclusive c true) ∨ ∀ c, op ≠ OpSetExclusive c true) as [[c ->]|Hset]
    by (destruct op as [| | | | | |? []| | | |]; eauto).
  - simpl. destruct (set_exclusive ok now c true db) as [[b|[]] db'] eqn:Hse; simpl.
    + apply set_exclusive_outcome in Hse. destruct b; [|by destruct Hse as [-> _]].
      intros r1 r2 H1%Hse H2%Hse. congruence.
    + destruct (set_exclusive_table ok now c true db) as [Heq|[Heq _]];
        rewrite Hse in Heq; simpl in Heq; by subst.
  - intros r1 r2 H1 H2.
    destruct (active_exclusive_apply _ _ _ _ _ Hrev Hset H1) as (x1 & Hx1 & <-).
    destruct (active_exclusive_apply _ _ _ _ _ Hrev Hset H2) as (x2 & Hx2 & <-).
    by apply Hone.
Qed.

(** ** Capacity views *)

(** The operator's summary and the number the broker decides on agree: the
    free, held, ceiling and overhead figures of [capacity_summary] are
    [free_capacity], [total_held], [total_capacity] and
    [unattributed_overhead], and its breakdown lists every consumer once with
    its read-time state. *)
Theorem capacity_summary_agrees now db :
  let s := capacity_summary now db in
  sum_free_bytes s = free_capacity now db ∧
  sum_total_held_bytes s = total_held now db ∧
  sum_total_capacity_bytes s = total_capacity db ∧
  sum_unattributed_bytes s = unattributed_overhead now db ∧
  status_row <$> sum_consumers s ≡ₚ db ∧
  Forall (λ c, status_effective_state c = STALE ↔
               lease_state (status_row c) = STALE ∨ status_is_stale c = true)
    (sum_consumers s).
Proof.
  assert (zsum ((λ r, _effective_held r now) <$> order_by_text consumer_id db) =
    total_held now db) as Hheld by (unfold total_held; by rewrite order_by_text_perm).
  assert (zmax 0 (total_capacity_bytes <$> order_by_text consumer_id db) =
    total_capacity db) as Hcap
    by (apply zmax_Permutation; by rewrite order_by_text_perm).
  simpl. unfold capacity_summary. simpl. rewrite Hheld, Hcap. split_and!; try done.
  - rewrite <- list_fmap_compose, list_fmap_id. apply order_by_text_perm.
  - apply Forall_fmap, Forall_forall. intros r _. apply effective_state_stale.
Qed.

(** The posture of a stale exclusive holder is only masked.  Once another
    consumer has legitimately taken the exclusive lease, a single heartbeat from
    the masked holder makes both of them active exclusive holders, against the
    "at most one" invariant [set_exclusive] is described as enforcing. *)
Theorem heartbeat_revives_second_exclusive now db a b h :
  find_row (consumer_id a) db = Some a → lease_mode a = EXCLUSIVE →
  b ∈ active_exclusive now db → consumer_id b ≠ consumer_id a →
  0 ≤ STALE_THRESHOLD_SECONDS →
  ¬ at_most_one_exclusive now (heartbeat true now (consumer_id a) h db).2.
Proof.
  intros Ha Hm (Hb & Hbm & Hbs)%elem_of_active_exclusive Hne Hthr Hone. apply Hne.
  unfold heartbeat in Hone. rewrite write_row_table in Hone.
  symmetry. apply (Hone (heartbeat_row now h a) b).
  - apply elem_of_active_exclusive. split_and!; [|done|].
    + apply find_row_Some with (consumer_id a).
      by rewrite find_update_row_eq, Ha by auto with s2db.
    + rewrite effective_state_stale. simpl. rewrite bool_decide_eq_true.
      unfold clear_stale. case_decide; intros [|]; try done; lia.
  - apply elem_of_active_exclusive. split_and!; [|done|done].
    unfold update_row, update_where. apply list_elem_of_fmap. exists b.
    by rewrite bool_decide_false.
Qed.

End contract.

Lemma register_upsert_witness :
  ∃ r, find_row "self.sketch" (register true 1100 (mkRegisterForm "self.sketch" 24 2 3 None None)
    Sample.db).2 = Some r ∧ held_bytes r = 2.
Proof.
  destruct (register_upsert (H := Sample.cfg) 1100 (mkRegisterForm "self.sketch" 24 2 3 None None)
    Sample.db Sample.db_nodup ltac:(done)) as (_ & _ & _ & r & _ & Hf & Hh & _).
  by exists r.
Defined.

(** ** Witnesses *)

Section witnesses.
#[local] Existing Instance Sample.cfg.

Lemma held_only_from_reports_witness :
  ∃ r', find_row "self.speak" (apply_op true 1050 (OpHeartbeat "self.speak" 7) Sample.db) = Some r' ∧
    held_bytes r' = 7 ∧
    true = true ∧
    ((∃ form, OpHeartbeat "self.speak" 7 = OpRegister form ∧ form_consumer_id form = "self.speak" ∧
        held_bytes r' = form_held_bytes form) ∨
     OpHeartbeat "self.speak" 7 = OpHeartbeat "self.speak" (held_bytes r') ∨
     OpHeartbeat "self.speak" 7 = OpConfirmedRelease "self.speak" (held_bytes r') ∨
     ((OpHeartbeat "self.speak" 7 = OpReconcile "self.speak" ∨
       OpHeartbeat "self.speak" 7 = OpReapedRelease "self.speak") ∧ held_bytes r' = 0)).
Proof.
  eexists. split; [reflexivity|]. split; [reflexivity|].
  apply (held_only_from_reports true 1050 (OpHeartbeat "self.speak" 7) Sample.db
    "self.speak" Sample.speak); [reflexivity|reflexivity|done].
Defined.

Lemma grant_survives_polling_witness :
  ∃ r', find_row "self.sketch"
    (run_ops [(true, 1030, OpHeartbeat "self.sketch" 0); (true, 1060, OpHeartbeat "self.speak" 1);
              (true, 1060, OpHeartbeat "self.sketch" 2)]
      (record_grant true 1000 "self.sketch" 6 (Some 3) Sample.db).2) = Some r' ∧
    6 ≤ _effective_held r' 1100.
Proof.
  apply (grant_survives_polling Sample.db "self.sketch" Sample.sketch 6 (Some 3) 1000 1100);
    [reflexivity|vm_compute; reflexivity| |vm_compute; discriminate].
  repeat (apply Forall_cons_2 || apply Forall_nil_2);
    first [by right | left; discriminate].
Defined.

Lemma grant_total_held_witness :
  total_held 1100 (record_grant true 1100 "self.sketch" 6 (Some 3) Sample.db).2 = 19.
Proof.
  destruct (grant_total_held Sample.db "self.sketch" Sample.sketch 6 (Some 3) 1100
    Sample.db_nodup ltac:(reflexivity) ltac:(vm_compute; discriminate)) as (-> & _ & _).
  reflexivity.
Defined.

Lemma grant_on_top_of_measured_hold_is_free_witness :
  free_capacity 1100 (record_grant true 1100 "self.llamolotl" 8 (Some 10) Sample.db).2 = 11 ∧
  free_capacity 1100 Sample.db = 11.
Proof.
  split; [|reflexivity].
  rewrite (grant_on_top_of_measured_hold_is_free Sample.db "self.llamolotl" Sample.llamolotl 8
    (Some 10) 1100 Sample.db_nodup);
    [reflexivity|reflexivity|vm_compute; discriminate..].
Defined.

Lemma confirmed_release_raises_free_witness :
  free_capacity 1100 (record_confirmed_release true 1100 "self.speak" 1 Sample.db).2 = 15.
Proof.
  destruct (confirmed_release_raises_free Sample.db "self.speak" Sample.speak 1 1100
    Sample.db_nodup ltac:(reflexivity)) as [_ Hfree].
  rewrite Hfree; [reflexivity|vm_compute; discriminate..].
Defined.

Lemma time_never_frees_measured_witness :
  total_measured_held Sample.db ≤ total_held 9000 Sample.db ≤ total_held 1000 Sample.db.
Proof.
  destruct (time_never_frees_measured Sample.db 1000 9000 ltac:(done)) as [H _]. exact H.
Defined.

Definition exclusive_db : registry :=
  (set_exclusive true 1000 "self.llamolotl" true Sample.db).2.

Lemma set_exclusive_establishes_at_most_one_witness :
  (set_exclusive true 1000 "self.llamolotl" true Sample.db).1 = Ok true ∧
  ∀ r, r ∈ active_exclusive 1000 exclusive_db → consumer_id r = "self.llamolotl".
Proof.
  split; [reflexivity|].
  apply (set_exclusive_establishes_at_most_one true 1000 "self.llamolotl" Sample.db
    exclusive_db true). reflexivity.
Defined.

Lemma exclusive_invariant_preserved_witness :
  at_most_one_exclusive 1060 (apply_op true 1050 (OpSetExclusive "self.speak" true) exclusive_db).
Proof.
  apply (exclusive_invariant_preserved true 1050 1060 (OpSetExclusive "self.speak" true)
    exclusive_db); [|intros []|lia].
  intros r1 r2 H1 H2. vm_compute in H1, H2.
  apply list_elem_of_singleton in H1 as ->. by apply list_elem_of_singleton in H2 as ->.
Defined.

(** The window of "self.llamolotl" opens at 1000, its reports stop, "self.speak"
    reports and takes the lease at 1200, and "self.llamolotl" reports again. *)
Definition masked_db : registry :=
  run_ops [(true, 1200, OpHeartbeat "self.speak" 5);
           (true, 1200, OpSetExclusive "self.speak" true)] exclusive_db.

Lemma heartbeat_revives_second_exclusive_witness :
  ¬ at_most_one_exclusive 1201 (heartbeat true 1201 "self.llamolotl" 8 masked_db).2.
Proof.
  destruct (find_row "self.llamolotl" masked_db) as [a|] eqn:Ha; [|discriminate].
  assert (consumer_id a = "self.llamolotl") as Hid by exact (find_row_key _ _ _ Ha).
  assert (lease_mode a = EXCLUSIVE) as Hm
    by (vm_compute in Ha; injection Ha as <-; reflexivity).
  destruct (active_exclusive 1201 masked_db) as [|b l] eqn:Hb; [discriminate|].
  pose proof (heartbeat_revives_second_exclusive 1201 masked_db a b 8) as Hrev.
  rewrite Hid in Hrev. apply Hrev; [exact Ha|exact Hm| | |vm_compute; discriminate].
  - rewrite Hb. left.
  - vm_compute in Hb. injection Hb as <- _. discriminate.
Defined.

End witnesses.
