(* ===== verification/Reaper.v ===== *)
(** The Kubernetes pod reaper, [utils/vram_k8s.py]: list the pods behind a
    selector, delete each, confirm that those very pods are gone, and answer
    [confirmed] only then.  The cluster is an explicit script of API answers,
    each with the time it takes; the confirm loop runs on fuel, and
    [reap_terminates] gives the fuel that is always enough. *)

From S2P Require Import Prelude.

(** ** Outcomes *)

Inductive ReapStatus := REAP_CONFIRMED | REAP_FAILED.

Inductive ReapPhase := PhaseList | PhaseDelete.

(** The human-readable [reason], by the branch that writes it. *)
Inductive ReapReason :=
| NoPodsMatched
| ConfirmedDeleted (pods : nat)
| StillPresent
| RbacDenied (phase : ReapPhase)
| NotFound (phase : ReapPhase)
| ApiError (phase : ReapPhase) (code : Z)
| TransportError (phase : ReapPhase)
| UnexpectedError.

Record ReapOutcome := mkReapOutcome {
  reap_status : ReapStatus;
  reap_reason : ReapReason;
  pods_deleted : nat
}.

Definition reap_confirmed (n : nat) (why : ReapReason) : ReapOutcome :=
  mkReapOutcome REAP_CONFIRMED why n.
Definition reap_failed (why : ReapReason) (n : nat) : ReapOutcome :=
  mkReapOutcome REAP_FAILED why n.

#[export] Instance ReapStatus_eq_dec : EqDecision ReapStatus.
Proof. solve_decision. Defined.

(** ** The cluster as the reaper sees it *)

(** The [.status] attribute of a client exception; [StatusOther] carries the
    result of [int(code)] on a value that is neither a bool nor an int. *)
Inductive exc_status :=
| StatusBool (b : bool)
| StatusInt (z : Z)
| StatusOther (parsed : option Z).

Definition _status_code (e : exc_status) : option Z :=
  match e with
  | StatusBool _ => None
  | StatusInt z => Some z
  | StatusOther parsed => parsed
  end.

(** A pod's [metadata.name] and [metadata.uid], where present. *)
Record Pod := mkPod { meta_name : option string; meta_uid : option string }.

Inductive api_answer (A : Type) := ApiOk (a : A) | ApiExc (e : exc_status).
Arguments ApiOk {A} a.
Arguments ApiExc {A} e.

(** What one API call meets: how long it takes and what it answers, as a list
    call or as a delete call. *)
Record ApiStep := mkApiStep {
  api_elapsed : Z;
  api_list : api_answer (list Pod);
  api_delete : api_answer unit
}.

Record Cluster := mkCluster {
  cl_mono : Z;                 (* time.monotonic(), in ticks *)
  cl_steps : list ApiStep;     (* the answers to come; afterwards, none *)
  cl_opens : bool;             (* the client session can be opened *)
  cl_closes : bool;            (* ... and closed without raising *)
  cl_deleted : list string;    (* pods a delete was issued for *)
  cl_seen : list (api_answer (list Pod))   (* the listings answered so far *)
}.

#[export] Instance Cluster_eta : Eta Cluster := λ c,
  mkCluster (cl_mono c) (cl_steps c) (cl_opens c) (cl_closes c) (cl_deleted c) (cl_seen c).

Definition no_answer : ApiStep :=
  mkApiStep 0 (ApiExc (StatusOther None)) (ApiExc (StatusOther None)).

Definition next_step (c : Cluster) : ApiStep * Cluster :=
  match cl_steps c with
  | [] => (no_answer, c)
  | s :: rest =>
      (s, c <| cl_mono := cl_mono c + Z.max 0 (api_elapsed s) |> <| cl_steps := rest |>)
  end.

Definition list_namespaced_pod (c : Cluster) : api_answer (list Pod) * Cluster :=
  let '(s, c') := next_step c in
  (api_list s, c' <| cl_seen := cl_seen c' ++ [api_list s] |>).

Definition delete_namespaced_pod (name : string) (c : Cluster) : api_answer unit * Cluster :=
  let '(s, c') := next_step c in
  (api_delete s, c' <| cl_deleted := cl_deleted c' ++ [name] |>).

(** ** Pod identities *)

Definition nonempty (s : option string) : option string :=
  match s with
  | Some t => if decide (t = "") then None else Some t
  | None => None
  end.

Definition _pod_targets (pods : list Pod) : list (string * option string) :=
  omap (λ p, name ← nonempty (meta_name p); Some (name, nonempty (meta_uid p))) pods.

Definition _pod_names (pods : list Pod) : list string := (_pod_targets pods).*1.

(** Whether a pod that was deleted shows up in a listing: by uid when its uid is
    known, by name otherwise. *)
Definition still_present (targets current : list (string * option string)) : bool :=
  existsb (λ t, match t.2 with
                | Some uid => bool_decide (Some uid ∈ current.*2)
                | None => bool_decide (t.1 ∈ current.*1)
                end) targets.

(** ** [KubernetesPodReaper] *)

Section reaper.
Context (poll_interval : Z).

Definition _failed_from_exc (phase : ReapPhase) (e : exc_status) (deleted : nat)
    : ReapOutcome :=
  reap_failed
    (match _status_code e with
     | Some 403 => RbacDenied phase
     | Some 404 => NotFound phase
     | Some code => ApiError phase code
     | None => TransportError phase
     end) deleted.

(** The deletes, until the first one that fails for a reason other than 404. *)
Fixpoint delete_all (names : list string) (deleted : nat) (c : Cluster)
    : (nat + ReapOutcome) * Cluster :=
  match names with
  | [] => (inl deleted, c)
  | name :: rest =>
      match delete_namespaced_pod name c with
      | (ApiOk _, c') => delete_all rest (S deleted) c'
      | (ApiExc e, c') =>
          if decide (_status_code e = Some 404) then delete_all rest (S deleted) c'
          else (inr (_failed_from_exc PhaseDelete e deleted), c')
      end
  end.

(** One round of the confirm loop: what the poll says, if it settles. *)
Definition confirm_poll (targets : list (string * option string)) (c : Cluster)
    : bool * Cluster :=
  match list_namespaced_pod c with
  | (ApiOk pods, c') => (negb (still_present targets (_pod_targets pods)), c')
  | (ApiExc e, c') => (bool_decide (_status_code e = Some 404), c')
  end.

Fixpoint confirm_loop (fuel : nat) (targets : list (string * option string))
    (deadline : Z) (c : Cluster) : option bool * Cluster :=
  match fuel with
  | O => (None, c)
  | S fuel' =>
      let '(gone, c') := confirm_poll targets c in
      if gone then (Some true, c')
      else if decide (deadline ≤ cl_mono c') then (Some false, c')
      else
        let remaining := deadline - cl_mono c' in
        confirm_loop fuel' targets deadline
          (c' <| cl_mono := cl_mono c' + Z.min poll_interval (Z.max 0 remaining) |>)
  end.

Definition _confirm_absent (fuel : nat) (targets : list (string * option string))
    (timeout : Z) (c : Cluster) : option bool * Cluster :=
  confirm_loop fuel targets (cl_mono c + Z.max 0 timeout) c.

(** The body of [async with self._client_factory() as api]. *)
Definition reap_session (fuel : nat) (timeout : Z) (c : Cluster)
    : option ReapOutcome * Cluster :=
  match list_namespaced_pod c with
  | (ApiExc e, c1) => (Some (_failed_from_exc PhaseList e 0), c1)
  | (ApiOk pods, c1) =>
      let targets := _pod_targets pods in
      match targets with
      | [] => (Some (reap_failed NoPodsMatched 0), c1)
      | _ =>
          match delete_all targets.*1 0 c1 with
          | (inr failed, c2) => (Some failed, c2)
          | (inl deleted, c2) =>
              match _confirm_absent fuel targets timeout c2 with
              | (Some true, c3) => (Some (reap_confirmed deleted (ConfirmedDeleted deleted)), c3)
              | (Some false, c3) => (Some (reap_failed StillPresent deleted), c3)
              | (None, c3) => (None, c3)
              end
          end
      end
  end.

Definition reap (fuel : nat) (timeout : Z) (c : Cluster) : option ReapOutcome * Cluster :=
  if negb (cl_opens c) then (Some (reap_failed UnexpectedError 0), c)
  else
    match reap_session fuel timeout c with
    | (Some out, c') =>
        (Some (if cl_closes c then out else reap_failed UnexpectedError 0), c')
    | (None, c') => (None, c')
    end.

(** ** Proofs *)

Lemma next_step_mono c : cl_mono c ≤ cl_mono (next_step c).2.
Proof. unfold next_step. destruct (cl_steps c); simpl; lia. Qed.

Lemma list_mono c : cl_mono c ≤ cl_mono (list_namespaced_pod c).2.
Proof.
  unfold list_namespaced_pod. pose proof (next_step_mono c).
  by destruct (next_step c); simpl in *.
Qed.

Lemma confirm_poll_mono targets c : cl_mono c ≤ cl_mono (confirm_poll targets c).2.
Proof.
  unfold confirm_poll. pose proof (list_mono c).
  by destruct (list_namespaced_pod c) as [[] ?]; simpl in *.
Qed.

(** Each round that does not settle sleeps for a whole poll interval, or up to
    the deadline, after which the next round does settle. *)
Lemma confirm_loop_enough fuel targets deadline c :
  0 < poll_interval → (0 < fuel)%nat →
  Z.max 0 (deadline - cl_mono c) ≤ (Z.of_nat fuel - 1) * poll_interval →
  (confirm_loop fuel targets deadline c).1 ≠ None.
Proof.
  intros Hpoll. revert c. induction fuel as [|fuel IH]; intros c Hpos Hfuel; [lia|].
  cbn [confirm_loop].
  pose proof (confirm_poll_mono targets c) as Hm.
  destruct (confirm_poll targets c) as [[] c'] eqn:Hp; [done|]. simpl in *.
  case_decide as Hd; [done|].
  rewrite Nat2Z.inj_succ in Hfuel.
  replace (Z.succ (Z.of_nat fuel) - 1) with (Z.of_nat fuel) in Hfuel by lia.
  assert (1 ≤ Z.of_nat fuel) by nia. apply IH; [lia|]. simpl.
  destruct (Z.le_gt_cases poll_interval (deadline - cl_mono c')); nia.
Qed.

Lemma confirm_loop_seen fuel targets deadline c :
  ∃ l, cl_seen (confirm_loop fuel targets deadline c).2 = cl_seen c ++ l ∧
    cl_deleted (confirm_loop fuel targets deadline c).2 = cl_deleted c.
Proof.
  revert c. induction fuel as [|fuel IH]; intros c; simpl; [exists []; by rewrite app_nil_r|].
  assert (∃ l, cl_seen (confirm_poll targets c).2 = cl_seen c ++ l ∧
    cl_deleted (confirm_poll targets c).2 = cl_deleted c) as (l1 & Hl1 & Hd1).
  { unfold confirm_poll, list_namespaced_pod, next_step.
    destruct (cl_steps c) as [|s rest]; simpl; [eauto|]. destruct (api_list s); simpl; eauto. }
  destruct (confirm_poll targets c) as [[] c'] eqn:Hp; simpl in *; [eauto|].
  case_decide; simpl; [eauto|].
  destruct (IH (c' <| cl_mono := cl_mono c' + Z.min poll_interval
    (Z.max 0 (deadline - cl_mono c')) |>)) as (l2 & Hl2 & Hd2).
  exists (l1 ++ l2). simpl in *. by rewrite Hl2, Hd2, Hl1, Hd1, <- app_assoc.
Qed.

Lemma confirm_loop_true fuel targets deadline c c' :
  confirm_loop fuel targets deadline c = (Some true, c') →
  ∃ l0 ans, cl_seen c' = cl_seen c ++ l0 ++ [ans] ∧
    match ans with
    | ApiOk pods => still_present targets (_pod_targets pods) = false
    | ApiExc e => _status_code e = Some 404
    end.
Proof.
  revert c. induction fuel as [|fuel IH]; intros c; simpl; [done|].
  assert (∃ ans, cl_seen (confirm_poll targets c).2 = cl_seen c ++ [ans] ∧
    ((confirm_poll targets c).1 = true → match ans with
      | ApiOk pods => still_present targets (_pod_targets pods) = false
      | ApiExc e => _status_code e = Some 404 end)) as (ans & Hans & Hgone).
  { unfold confirm_poll, list_namespaced_pod, next_step.
    destruct (cl_steps c) as [|s rest]; simpl; [by eexists|].
    destruct (api_list s) as [pods|e] eqn:Hs; simpl; eexists; (split; [done|]); simpl.
    - by intros ?%negb_true_iff.
    - by intros ?%bool_decide_eq_true. }
  destruct (confirm_poll targets c) as [[] c1] eqn:Hp; simpl in *.
  - intros [= <-]. exists [], ans. split; [done|by apply Hgone].
  - case_decide; [done|]. intros (l0 & ans' & Heq & Hg)%IH. exists (ans :: l0), ans'.
    simpl in Heq. rewrite Heq, Hans, <- app_assoc. done.
Qed.

Lemma delete_all_spec names n c m c' :
  delete_all names n c = (inl m, c') →
  m = (n + length names)%nat ∧ cl_deleted c' = cl_deleted c ++ names ∧ cl_seen c' = cl_seen c.
Proof.
  revert n c. induction names as [|x names IH]; intros n c; simpl.
  { intros [= <- <-]. rewrite app_nil_r. split_and!; [lia|done|done]. }
  assert (∀ ans c1, delete_namespaced_pod x c = (ans, c1) →
    cl_deleted c1 = cl_deleted c ++ [x] ∧ cl_seen c1 = cl_seen c) as Hdel.
  { intros ans c1. unfold delete_namespaced_pod, next_step.
    destruct (cl_steps c); simpl; by intros [= <- <-]. }
  destruct (delete_namespaced_pod x c) as [[u|e] c1] eqn:Hd;
    destruct (Hdel _ _ eq_refl) as [Hd1 Hs1]; [|case_decide; [|done]];
    intros (-> & Hdl & Hsn)%IH; rewrite Hdl, Hd1, Hsn, Hs1, <- app_assoc;
    (split_and!; [lia|done|done]).
Qed.

Lemma delete_all_failed names n c o c' :
  delete_all names n c = (inr o, c') → reap_status o = REAP_FAILED.
Proof.
  revert n c. induction names as [|x names IH]; intros n c; simpl; [done|].
  destruct (delete_namespaced_pod x c) as [[u|e] c1]; [apply IH|].
  case_decide; [apply IH|]. by intros [= <- _].
Qed.

(** Reaping always comes back with an outcome.  With a positive poll
    interval, any fuel that covers the timeout in whole poll intervals, plus one
    round, is enough, whatever the cluster answers and however long it takes;
    and every failure is a returned outcome, never an exception. *)
Theorem reap_terminates fuel timeout c :
  0 < poll_interval → (0 < fuel)%nat →
  Z.max 0 timeout ≤ (Z.of_nat fuel - 1) * poll_interval →
  ∃ out, (reap fuel timeout c).1 = Some out.
Proof.
  intros Hpoll Hpos Hfuel. unfold reap, reap_session.
  destruct (cl_opens c); simpl; [|eauto].
  destruct (list_namespaced_pod c) as [[pods|e] c1]; [|eauto].
  destruct (_pod_targets pods) as [|t ts]; [eauto|].
  destruct (delete_all _ _ _) as [[n|out] c2]; [|eauto]. unfold _confirm_absent.
  destruct (confirm_loop fuel (t :: ts) _ c2) as [[[]|] c3] eqn:Hc; simpl; eauto.
  exfalso. apply (confirm_loop_enough fuel (t :: ts) (cl_mono c2 + Z.max 0 timeout) c2);
    [done|done|lia|by rewrite Hc].
Qed.

(** The evidentiary bar (R5-AC5).  A [confirmed] reap means that the first
    listing named at least one pod, that a delete was issued for every pod it
    named, and that the last answer of the confirm phase either shows none of
    those pods (matched by uid, or by name for a pod without one) or is a 404. *)
Theorem reap_confirmed_has_evidence fuel timeout c out c' :
  reap fuel timeout c = (Some out, c') → reap_status out = REAP_CONFIRMED →
  ∃ pods mid ans,
    cl_seen c' = cl_seen c ++ [ApiOk pods] ++ mid ++ [ans] ∧
    _pod_targets pods ≠ [] ∧
    cl_deleted c' = cl_deleted c ++ _pod_names pods ∧
    pods_deleted out = length (_pod_names pods) ∧
    match ans with
    | ApiOk now => still_present (_pod_targets pods) (_pod_targets now) = false
    | ApiExc e => _status_code e = Some 404
    end.
Proof.
  unfold reap, reap_session. destruct (cl_opens c); simpl; [|by intros [= <- <-]].
  destruct (list_namespaced_pod c) as [[pods|e] c1] eqn:Hl; [|by destruct (cl_closes c);
    intros [= <- <-]].
  assert (cl_seen c1 = cl_seen c ++ [ApiOk pods] ∧ cl_deleted c1 = cl_deleted c) as [Hs1 Hd1].
  { revert Hl. unfold list_namespaced_pod, next_step.
    destruct (cl_steps c); simpl; intros [= <- <-]; done. }
  destruct (_pod_targets pods) as [|t ts] eqn:Ht; [by destruct (cl_closes c);
    intros [= <- <-]|].
  destruct (delete_all (t :: ts).*1 0 c1) as [[n|o] c2] eqn:Hd.
  2:{ intros [= <- <-] Hst. apply delete_all_failed in Hd.
      destruct (cl_closes c); [congruence|done]. }
  apply delete_all_spec in Hd as (-> & Hd2 & Hs2). unfold _confirm_absent.
  destruct (confirm_loop fuel (t :: ts) _ c2) as [[[]|] c3] eqn:Hc; [| |done].
  2:{ by destruct (cl_closes c); intros [= <- <-]. }
  destruct (cl_closes c); intros [= <- <-]; [|done]. intros _. simpl.
  pose proof (confirm_loop_seen fuel (t :: ts) (cl_mono c2 + Z.max 0 timeout) c2)
    as (_ & _ & Hd3). rewrite Hc in Hd3. simpl in Hd3.
  apply confirm_loop_true in Hc as (mid & ans & Hs3 & Hg).
  exists pods, mid, ans. unfold _pod_names. rewrite Ht.
  rewrite Hs3, Hs2, Hs1, Hd3, Hd2, Hd1. split_and!; try done; [by rewrite <- app_assoc].
Qed.

End reaper.

(** The timeout a reap is called with bounds only its confirm phase.  The
    list and delete calls carry no bound, so for every duration there is a
    cluster on which a reap called with a zero timeout takes at least that long;
    the broker's "bounded by the same release-timeout so a hung k8s API can never
    block the grant response" does not hold of this reaper. *)
Theorem reap_outlasts_its_timeout poll (duration : Z) :
  ∃ c out c', reap poll 1 0 c = (Some out, c') ∧
    reap_status out = REAP_CONFIRMED ∧ duration ≤ cl_mono c' - cl_mono c.
Proof.
  exists (mkCluster 0 [mkApiStep (Z.max 0 duration) (ApiOk [mkPod (Some "pod-a") (Some "u1")]) (ApiOk tt);
                       mkApiStep 0 (ApiOk []) (ApiOk tt);
                       mkApiStep 0 (ApiOk []) (ApiOk tt)] true true [] []).
  do 2 eexists. split; [reflexivity|]. simpl. split; [done|]. lia.
Qed.

Definition sample_cluster : Cluster :=
  mkCluster 0 [mkApiStep 10 (ApiOk [mkPod (Some "curator-0") (Some "u1")]) (ApiOk tt);
               mkApiStep 20 (ApiOk []) (ApiOk tt);
               mkApiStep 5 (ApiOk [mkPod (Some "curator-0") (Some "u1")]) (ApiOk tt);
               mkApiStep 5 (ApiOk [mkPod (Some "curator-0") (Some "u2")]) (ApiOk tt)]
    true true [] [].

Lemma reap_terminates_witness :
  ∃ out, (reap 500 61 30000 sample_cluster).1 = Some out ∧ reap_status out = REAP_CONFIRMED.
Proof.
  destruct (reap_terminates 500 61 30000 sample_cluster) as [out Hout]; [lia|lia|lia|].
  exists out. split; [done|]. vm_compute in Hout. by injection Hout as <-.
Defined.

Lemma reap_confirmed_has_evidence_witness :
  ∃ pods mid ans c', (reap 500 61 30000 sample_cluster).2 = c' ∧
    cl_seen c' = [ApiOk pods] ++ mid ++ [ans] ∧ cl_deleted c' = ["curator-0"].
Proof.
  destruct (reap 500 61 30000 sample_cluster) as [[out|] c'] eqn:Hr; [|discriminate].
  destruct (reap_confirmed_has_evidence 500 61 30000 sample_cluster out c' Hr)
    as (pods & mid & ans & Hs & _ & Hd & _).
  - vm_compute in Hr. by injection Hr as <- _.
  - exists pods, mid, ans, c'. split_and!; [done|exact Hs|].
    vm_compute in Hr. by injection Hr as _ <-.
Defined.
