(* ===== verification/Broker.v ===== *)
(** The VRAM lease broker, [utils/vram_broker.py]: the release-request protocol
    (R2), the grant decision (R3), the force-reap escalation (R5) and the
    exclusive lease.

    A broker method is a program over a [World]: the registry table, the two
    clocks, the outcomes of the database commits to come, and a script of what
    each [await] meets.  At an [await] the other coroutines of the process run,
    so a script step carries, besides the answer of the awaited call, the
    registry writes of the coroutines that do not hold the grant lock.  The
    registry is read and written atomically between awaits, with the clock it
    shows there.  The outbound calls and the broker's own decisions are recorded
    in a trace. *)

From stdpp Require Import gmap.
From S2P Require Import Prelude Data Leases Reaper.

(** ** Result types *)

Inductive ReleaseOutcome := CONFIRMED | DENIED | TIMEOUT.

Inductive HolderOutcome :=
| HOLDER_OUTCOME_CONFIRMED
| HOLDER_OUTCOME_DENIED
| HOLDER_OUTCOME_TIMEOUT
| HOLDER_OUTCOME_INELIGIBLE_STALE
| HOLDER_OUTCOME_REAPED
| HOLDER_OUTCOME_REAP_FAILED
| HOLDER_OUTCOME_INELIGIBLE_NO_POD_IDENTITY
| HOLDER_OUTCOME_INELIGIBLE_NEVER_OBSERVED.

#[export] Instance ReleaseOutcome_eq_dec : EqDecision ReleaseOutcome.
Proof. solve_decision. Defined.

(** [outcome.value] as a holder outcome. *)
Definition outcome_value (o : ReleaseOutcome) : HolderOutcome :=
  match o with
  | CONFIRMED => HOLDER_OUTCOME_CONFIRMED
  | DENIED => HOLDER_OUTCOME_DENIED
  | TIMEOUT => HOLDER_OUTCOME_TIMEOUT
  end.

(** A holder's own words, or the reaper's. *)
Inductive AskReason :=
| Said (words : string)
| ReapSaid (why : ReapReason)
| NeverObserved.

Record HolderAsked := mkHolderAsked {
  asked_consumer_id : string;
  requested_release : Z;
  actually_released : Z;
  asked_outcome : HolderOutcome;
  asked_reason : option AskReason
}.

Record LeaseDenied := mkLeaseDenied {
  requested_bytes : Z;
  free_bytes : Z;
  freeable_bytes : Z;
  holders_asked : list HolderAsked;
  exclusive_holder : option string
}.

Record LeaseGranted := mkLeaseGranted {
  granted_consumer_id : string;
  granted_bytes : Z;
  granted_held_bytes : Z;
  granted_priority : Z;
  reclaimed : list HolderAsked
}.

Inductive LeaseResult := Granted (g : LeaseGranted) | Denied (d : LeaseDenied).

Inductive ExclusiveReason :=
| AnotherHolder (cid : string)
| CardNotCleared (remaining : nat)
| LostRace
| CardCleared.

Record ExclusiveResult := mkExclusiveResult {
  acquired : bool;
  excl_consumer_id : string;
  excl_reason : ExclusiveReason;
  excl_reclaimed : list HolderAsked;
  blocking_holder : option string
}.

Record ReleaseResponse := mkReleaseResponse {
  outcome : ReleaseOutcome;
  new_held_bytes : option Z;
  reason : option string
}.

(** [_ever_observed] *)
Definition _ever_observed (holder : VramConsumer) : bool :=
  bool_decide (is_Some (last_observed_at holder)).

(** ** The world a broker method runs in *)

(** The registry writes of coroutines that run outside the grant lock: the HTTP
    registration, heartbeat and reconcile handlers and the poller. *)
Inductive PeerOp :=
| PeerRegister (form : VramConsumerRegisterForm)
| PeerHeartbeat (cid : string) (held : Z)
| PeerLoadedModel (cid : string) (m : option string)
| PeerDeviceOccupancy (cid : string) (used : Z) (total : option Z)
| PeerReconcile (cid : string).

Definition peer_op (p : PeerOp) : RegOp :=
  match p with
  | PeerRegister form => OpRegister form
  | PeerHeartbeat cid h => OpHeartbeat cid h
  | PeerLoadedModel cid m => OpLoadedModel cid m
  | PeerDeviceOccupancy cid u t => OpDeviceOccupancy cid u t
  | PeerReconcile cid => OpReconcile cid
  end.

(** What the awaited call answers: a release response, or an exception. *)
Inductive ReleaseAnswer := Replies (r : ReleaseResponse) | Fails.

(** One [await]: how long the awaited call takes if left alone, what the other
    coroutines write meanwhile (each write after so many wall-clock seconds, with
    its commit outcome), and the answer of the call, be it a release request or a
    reap. *)
Record AwaitStep := mkAwaitStep {
  aw_elapsed : Z;
  aw_peers : list (Z * bool * PeerOp);
  aw_release : ReleaseAnswer;
  aw_reap : ReapOutcome
}.

Inductive Event :=
| EvRelease (cid : string) (amount timeout : Z)
| EvReap (holder : VramConsumer) (namespace selector : string) (timeout elapsed : Z)
| EvReaped (cid : string)
| EvGrant (cid : string) (amount : Z)
| EvExclusive (cid : string) (exclusive : bool).

Record World := mkWorld {
  w_reg : registry;
  w_wall : Z;                                 (* int(time.time()) *)
  w_mono : Z;                                 (* time.monotonic(), in ticks *)
  w_commits : list bool;                      (* outcomes of the commits to come *)
  w_script : list AwaitStep;                  (* the awaits to come *)
  w_reasons : gmap string (option string);    (* _last_release_reason *)
  w_trace : list Event
}.

#[export] Instance World_eta : Eta World := λ w,
  mkWorld (w_reg w) (w_wall w) (w_mono w) (w_commits w) (w_script w) (w_reasons w) (w_trace w).

Inductive BrokerExn :=
| NotRegistered (cid : string)     (* ValueError *)
| NoTransport (cid : string)       (* RuntimeError *)
| DbError.

Abbreviation broker A := (prog World BrokerExn A).

(** A broker's construction: whether a release transport and a reaper are
    installed, and the trusted reap targets. *)
Record Broker := mkBroker {
  has_transport : bool;
  has_reaper : bool;
  reap_targets : gmap string (string * string)
}.

Class BrokerConfig := {
  GRANT_RELEASE_TIMEOUT_SECONDS : Z;    (* in ticks *)
  GRANT_TOTAL_TIMEOUT_SECONDS : Z
}.

Definition default_broker_config : BrokerConfig :=
  {| GRANT_RELEASE_TIMEOUT_SECONDS := 30; GRANT_TOTAL_TIMEOUT_SECONDS := 90 |}.

Section broker.
Context `{!LeaseConfig, !BrokerConfig}.

(** ** Primitive steps *)

Definition reads {A} (f : Z → registry → A) : broker A :=
  gets (λ w, f (w_wall w) (w_reg w)).

Definition emit (e : Event) : broker unit :=
  modify (λ w, w <| w_trace := w_trace w ++ [e] |>).

(** The outcome of the next commit; commits succeed once the list is used up. *)
Definition next_commit : broker bool := λ w,
  match w_commits w with
  | [] => (Ok true, w)
  | b :: rest => (Ok b, w <| w_commits := rest |>)
  end.

Definition write_now {A} (f : Z → registry → A * registry) : broker A := λ w,
  (Ok (f (w_wall w) (w_reg w)).1, w <| w_reg := (f (w_wall w) (w_reg w)).2 |>).

Definition writes {A} (f : bool → Z → registry → A * registry) : broker A :=
  ok ← next_commit; write_now (f ok).

Definition set_exclusive_m (cid : string) (exclusive : bool) : broker bool :=
  r ← writes (λ ok now db, set_exclusive ok now cid exclusive db);
  match r with
  | Ok true => emit (EvExclusive cid exclusive);; mret true
  | Ok false => mret false
  | Raise CommitFailed => raise DbError
  end.

Definition run_peer (w : World) (p : Z * bool * PeerOp) : World :=
  let '(dt, ok, op) := p in
  let now := w_wall w + Z.max 0 dt in
  w <| w_wall := now |> <| w_reg := apply_op ok now (peer_op op) (w_reg w) |>.

Definition no_await : AwaitStep :=
  mkAwaitStep 0 [] Fails (reap_failed UnexpectedError 0).

(** Suspend for [elapsed] ticks while the peers of the step run. *)
Definition suspend (step : AwaitStep) (elapsed : Z) : broker unit :=
  modify (λ w, let w' := foldl run_peer w (aw_peers step) in
               w' <| w_mono := w_mono w + Z.max 0 elapsed |>).

Definition next_await : broker AwaitStep := λ w,
  match w_script w with
  | [] => (Ok no_await, w)
  | s :: rest => (Ok s, w <| w_script := rest |>)
  end.

(** [asyncio.wait_for(call, timeout)]: cancelled at the timeout, and at once
    when the timeout is not positive. *)
Definition await_release (timeout : Z) : broker (option ReleaseAnswer) :=
  step ← next_await;
  if decide (timeout ≤ 0 ∨ timeout < aw_elapsed step)
  then suspend step timeout;; mret None
  else suspend step (aw_elapsed step);; mret (Some (aw_release step)).

(** [await self._reaper.reap(ns, sel, timeout)]: the broker puts no bound of its
    own around it. *)
Definition await_reap (holder : VramConsumer) (ns sel : string) (timeout : Z)
    : broker ReapOutcome :=
  step ← next_await;
  emit (EvReap holder ns sel timeout (Z.max 0 (aw_elapsed step)));;
  suspend step (aw_elapsed step);;
  mret (aw_reap step).

(** ** [_Budget] *)

Definition budget_deadline (total : Z) (w : World) : Z := w_mono w + Z.max 0 total.
Definition budget_remaining (deadline : Z) (w : World) : Z := Z.max 0 (deadline - w_mono w).
Definition budget_spent (deadline : Z) (w : World) : bool :=
  bool_decide (budget_remaining deadline w ≤ 0).
Definition budget_bound (deadline per_call : Z) (w : World) : Z :=
  Z.min per_call (budget_remaining deadline w).

(** ** Construction-time operations *)

(** [set_reap_targets]: half-formed entries are dropped. *)
Definition clean_target (target : option (option string * option string))
    : option (string * string) :=
  match target with
  | None => None
  | Some (ns, sel) =>
      let ns := strip (default "" ns) in
      let sel := strip (default "" sel) in
      if decide (ns ≠ "" ∧ sel ≠ "") then Some (ns, sel) else None
  end.

Definition set_reap_targets (targets : gmap string (option (option string * option string)))
    (b : Broker) : Broker :=
  mkBroker (has_transport b) (has_reaper b) (omap clean_target targets).

Definition set_transport (b : Broker) : Broker :=
  mkBroker true (has_reaper b) (reap_targets b).

Definition set_reaper (b : Broker) : Broker :=
  mkBroker (has_transport b) true (reap_targets b).

Definition _reap_target_for (b : Broker) (cid : string) : option (string * string) :=
  reap_targets b !! cid.

Definition last_release_reason (cid : string) (w : World) : option AskReason :=
  Said <$> (w_reasons w !! cid ≫= id).

(** ** R2: release requests *)

(** [_resolve_response] *)
Definition _resolve_response (cid : string) (resp : ReleaseResponse) : broker ReleaseOutcome :=
  modify (λ w, w <| w_reasons := <[cid := reason resp]> (w_reasons w) |>);;
  match outcome resp with
  | CONFIRMED =>
      match new_held_bytes resp with
      | None =>
          writes (λ ok now db, mark_stale ok now cid db);; mret TIMEOUT
      | Some held =>
          writes (λ ok now db, record_confirmed_release ok now cid held db);; mret CONFIRMED
      end
  | DENIED =>
      writes (λ ok now db, set_lease_state ok now cid STEADY db);; mret DENIED
  | TIMEOUT =>
      writes (λ ok now db, mark_stale ok now cid db);; mret TIMEOUT
  end.

Definition timeout_response : ReleaseResponse := mkReleaseResponse TIMEOUT None None.

(** [request_release], under the consumer's own lock. *)
Definition request_release (transport : bool) (cid : string) (amount timeout : Z)
    : broker ReleaseOutcome :=
  if negb transport then raise (NoTransport cid)
  else
    writes (λ ok now db, set_lease_state ok now cid RELEASE_REQUESTED db);;
    writes (λ ok now db, set_lease_state ok now cid RELEASING db);;
    emit (EvRelease cid amount timeout);;
    answer ← await_release timeout;
    _resolve_response cid
      (match answer with
       | Some (Replies resp) => resp
       | Some Fails => timeout_response
       | None => timeout_response
       end).

(** ** R3: grants *)

(** [_granted_effective_held] *)
Definition _granted_effective_held (granted : option VramConsumer) (amount : Z) : Z :=
  match granted with
  | None => amount
  | Some g => Z.max (held_bytes g) (default 0 (reserved_bytes g))
  end.

(** [_commit_grant] *)
Definition _commit_grant (cid : string) (amount prio : Z) (recl : list HolderAsked)
    (freeable : Z) : broker LeaseResult :=
  granted ← writes (λ ok now db, record_grant ok now cid amount (Some prio) db);
  match granted with
  | None =>
      free ← reads free_capacity;
      mret (Denied (mkLeaseDenied amount free freeable recl None))
  | Some _ =>
      emit (EvGrant cid amount);;
      mret (Granted (mkLeaseGranted cid amount (_granted_effective_held granted amount)
        prio recl))
  end.

(** The holders a request may reclaim from cooperatively. *)
Definition reclaimable (cid : string) (prio now : Z) (db : registry) : list VramConsumer :=
  filter (λ h, consumer_id h ≠ cid ∧ priority h < prio) (eligible_holders now db).

(** The stale holders the escalation walks. *)
Definition escalation_candidates (cid : string) (prio now : Z) (db : registry)
    : list VramConsumer :=
  filter (λ h, consumer_id h ≠ cid ∧ priority h < prio) (stale_holders now db).

(** What force-reap could give back, counted only for the holders it may act on. *)
Definition reapable (b : Broker) (cid : string) (prio now : Z) (db : registry) : Z :=
  if has_reaper b then
    zsum (held_bytes <$>
      filter (λ h, is_Some (_reap_target_for b (consumer_id h)) ∧ _ever_observed h = true)
        (escalation_candidates cid prio now db))
  else 0.

Definition held_or (o : option VramConsumer) (d : Z) : Z :=
  match o with Some r => held_bytes r | None => d end.

(** The cooperative reclamation loop. *)
Fixpoint reclaim_loop (transport : bool) (amount release_timeout deadline : Z)
    (holders : list VramConsumer) (asked : list HolderAsked) : broker (list HolderAsked) :=
  match holders with
  | [] => mret asked
  | holder :: rest =>
      free ← reads free_capacity;
      if decide (amount ≤ free) then mret asked else
      spent ← gets (budget_spent deadline);
      if (spent : bool) then mret asked else
      shortfall ← reads (λ now db, amount - free_capacity now db);
      before ← reads (λ _ db, get (consumer_id holder) db);
      timeout ← gets (budget_bound deadline release_timeout);
      out ← request_release transport (consumer_id holder) shortfall timeout;
      after ← reads (λ _ db, get (consumer_id holder) db);
      why ← gets (last_release_reason (consumer_id holder));
      let before_held := held_or before (held_bytes holder) in
      let after_held := held_or after before_held in
      let released := if decide (out = CONFIRMED) then Z.max 0 (before_held - after_held)
                      else 0 in
      reclaim_loop transport amount release_timeout deadline rest
        (asked ++ [mkHolderAsked (consumer_id holder) shortfall released
                     (outcome_value out) why])
  end.

(** One force-reap: the target comes from the trusted map; a confirmed deletion,
    and nothing else, clears the holder's row. *)
Definition reap_one (b : Broker) (holder : VramConsumer) (requested release_timeout deadline : Z)
    (target : string * string) : broker HolderAsked :=
  before ← reads (λ _ db, get (consumer_id holder) db);
  timeout ← gets (budget_bound deadline release_timeout);
  reap ← await_reap holder target.1 target.2 timeout;
  match reap_status reap with
  | REAP_CONFIRMED =>
      writes (λ ok now db, record_reaped_release ok now (consumer_id holder) db);;
      emit (EvReaped (consumer_id holder));;
      after ← reads (λ _ db, get (consumer_id holder) db);
      mret (mkHolderAsked (consumer_id holder) requested
        (Z.max 0 (held_or before (held_bytes holder) - held_or after 0))
        HOLDER_OUTCOME_REAPED (Some (ReapSaid (reap_reason reap))))
  | REAP_FAILED =>
      mret (mkHolderAsked (consumer_id holder) requested 0 HOLDER_OUTCOME_REAP_FAILED
        (Some (ReapSaid (reap_reason reap))))
  end.

Definition never_observed_entry (holder : VramConsumer) (requested : Z) : HolderAsked :=
  mkHolderAsked (consumer_id holder) requested 0 HOLDER_OUTCOME_INELIGIBLE_NEVER_OBSERVED
    (Some NeverObserved).

Definition no_identity_entry (holder : VramConsumer) (requested : Z) : HolderAsked :=
  mkHolderAsked (consumer_id holder) requested 0 HOLDER_OUTCOME_INELIGIBLE_NO_POD_IDENTITY None.

(** The R5 force-reap escalation loop. *)
Fixpoint reap_loop (b : Broker) (amount release_timeout deadline : Z)
    (holders : list VramConsumer) (asked : list HolderAsked) : broker (list HolderAsked) :=
  match holders with
  | [] => mret asked
  | holder :: rest =>
      free ← reads free_capacity;
      if decide (amount ≤ free) then mret asked else
      spent ← gets (budget_spent deadline);
      if (spent : bool) then mret asked else
      shortfall ← reads (λ now db, amount - free_capacity now db);
      if negb (_ever_observed holder) then
        reap_loop b amount release_timeout deadline rest
          (asked ++ [never_observed_entry holder shortfall])
      else
        match _reap_target_for b (consumer_id holder) with
        | None =>
            reap_loop b amount release_timeout deadline rest
              (asked ++ [no_identity_entry holder shortfall])
        | Some target =>
            entry ← reap_one b holder shortfall release_timeout deadline target;
            reap_loop b amount release_timeout deadline rest (asked ++ [entry])
        end
  end.

(** The active exclusive holder that blocks a request by [cid], if any. *)
Definition blocked_by (cid : string) (now : Z) (db : registry) : option VramConsumer :=
  h ← active_exclusive_holder now db;
  if decide (consumer_id h = cid) then None else Some h.

(** The escalation and the final verdict, after the cooperative loop. *)
Definition escalate (b : Broker) (cid : string) (amount prio release_timeout deadline : Z)
    (freeable : Z) (asked : list HolderAsked) : broker LeaseResult :=
  free_after ← reads free_capacity;
  if decide (amount ≤ free_after) then _commit_grant cid amount prio asked freeable
  else if has_reaper b then
    candidates ← reads (escalation_candidates cid prio);
    asked' ← reap_loop b amount release_timeout deadline candidates asked;
    free_after' ← reads free_capacity;
    if decide (amount ≤ free_after') then _commit_grant cid amount prio asked' freeable
    else mret (Denied (mkLeaseDenied amount free_after' freeable asked' None))
  else mret (Denied (mkLeaseDenied amount free_after freeable asked None)).

(** [_decide_lease] *)
Definition _decide_lease (b : Broker) (cid : string) (amount prio release_timeout : Z)
    (transport : bool) (deadline : Z) : broker LeaseResult :=
  me ← reads (λ _ db, get cid db);
  match me with
  | None => raise (NotRegistered cid)
  | Some _ =>
      exclusive ← reads (blocked_by cid);
      match exclusive with
      | Some holder =>
          free ← reads free_capacity;
          mret (Denied (mkLeaseDenied amount free 0 [] (Some (consumer_id holder))))
      | None =>
          free ← reads free_capacity;
          holders ← reads (reclaimable cid prio);
          extra ← reads (reapable b cid prio);
          let freeable := free + zsum (held_bytes <$> holders) + extra in
          if decide (freeable < amount)
          then mret (Denied (mkLeaseDenied amount free freeable [] None))
          else if decide (amount ≤ free)
          then _commit_grant cid amount prio [] freeable
          else
            asked ← reclaim_loop transport amount release_timeout deadline holders [];
            escalate b cid amount prio release_timeout deadline freeable asked
      end
  end.

(** Waiting for the grant lock: time passes, and whoever holds the lock, as well
    as the other coroutines, may write anything to the registry. *)
Record LockWait := mkLockWait {
  lw_elapsed : Z;
  lw_writes : list (Z * bool * RegOp)
}.

Definition acquire_grant_lock (lw : LockWait) : broker unit :=
  modify (λ w,
    let w' := foldl (λ w '(dt, ok, op),
      let now := w_wall w + Z.max 0 dt in
      w <| w_wall := now |> <| w_reg := apply_op ok now op (w_reg w) |>) w (lw_writes lw) in
    w' <| w_mono := w_mono w + Z.max 0 (lw_elapsed lw) |>).

(** [request_lease]: the budget starts before the lock is acquired. *)
Definition request_lease (b : Broker) (lw : LockWait) (cid : string) (amount prio : Z)
    (release_timeout : option Z) (transport : option bool) : broker LeaseResult :=
  let release_timeout := default GRANT_RELEASE_TIMEOUT_SECONDS release_timeout in
  deadline ← gets (budget_deadline GRANT_TOTAL_TIMEOUT_SECONDS);
  acquire_grant_lock lw;;
  _decide_lease b cid amount prio release_timeout
    (default (has_transport b) transport) deadline.

(** ** Exclusive leases *)

(** The cooperative half of [acquire_exclusive]: ask every other eligible holder
    for all it holds, whatever its priority. *)
Fixpoint clear_loop (transport : bool) (release_timeout deadline : Z)
    (holders : list VramConsumer) (asked : list HolderAsked) : broker (list HolderAsked) :=
  match holders with
  | [] => mret asked
  | holder :: rest =>
      before ← reads (λ _ db, get (consumer_id holder) db);
      let before_held := held_or before (held_bytes holder) in
      if decide (before_held ≤ 0) then clear_loop transport release_timeout deadline rest asked
      else
      spent ← gets (budget_spent deadline);
      if (spent : bool) then mret asked else
      timeout ← gets (budget_bound deadline release_timeout);
      out ← request_release transport (consumer_id holder) before_held timeout;
      after ← reads (λ _ db, get (consumer_id holder) db);
      why ← gets (last_release_reason (consumer_id holder));
      let after_held := held_or after before_held in
      let released := if decide (out = CONFIRMED) then Z.max 0 (before_held - after_held)
                      else 0 in
      clear_loop transport release_timeout deadline rest
        (asked ++ [mkHolderAsked (consumer_id holder) before_held released
                     (outcome_value out) why])
  end.

(** The force-reap half. *)
Fixpoint clear_reap_loop (b : Broker) (release_timeout deadline : Z)
    (holders : list VramConsumer) (asked : list HolderAsked) : broker (list HolderAsked) :=
  match holders with
  | [] => mret asked
  | holder :: rest =>
      before ← reads (λ _ db, get (consumer_id holder) db);
      let before_held := held_or before (held_bytes holder) in
      if decide (before_held ≤ 0) then clear_reap_loop b release_timeout deadline rest asked
      else if negb (_ever_observed holder) then
        clear_reap_loop b release_timeout deadline rest
          (asked ++ [never_observed_entry holder before_held])
      else
        match _reap_target_for b (consumer_id holder) with
        | None =>
            clear_reap_loop b release_timeout deadline rest
              (asked ++ [no_identity_entry holder before_held])
        | Some target =>
            spent ← gets (budget_spent deadline);
            if (spent : bool) then mret asked else
            entry ← reap_one b holder before_held release_timeout deadline target;
            clear_reap_loop b release_timeout deadline rest (asked ++ [entry])
        end
  end.

Definition others (cid : string) (hs : list VramConsumer) : list VramConsumer :=
  filter (λ h, consumer_id h ≠ cid) hs.

(** [acquire_exclusive], under the grant lock. *)
Definition acquire_exclusive_locked (b : Broker) (cid : string) (release_timeout : Z)
    (transport : bool) (deadline : Z) : broker ExclusiveResult :=
  me ← reads (λ _ db, get cid db);
  match me with
  | None => raise (NotRegistered cid)
  | Some _ =>
      other ← reads (blocked_by cid);
      match other with
      | Some h =>
          mret (mkExclusiveResult false cid (AnotherHolder (consumer_id h)) []
            (Some (consumer_id h)))
      | None =>
          holders ← reads (λ now db, others cid (eligible_holders now db));
          asked ← clear_loop transport release_timeout deadline holders [];
          stale ← reads (λ now db, if has_reaper b then others cid (stale_holders now db)
                                   else []);
          asked' ← clear_reap_loop b release_timeout deadline stale asked;
          remaining ← reads (λ now db,
            filter (λ h, held_bytes h > 0)
              (others cid (eligible_holders now db ++ stale_holders now db)));
          if decide (remaining ≠ [])
          then mret (mkExclusiveResult false cid (CardNotCleared (length remaining)) asked' None)
          else
            marked ← set_exclusive_m cid true;
            if negb marked
            then mret (mkExclusiveResult false cid LostRace asked' None)
            else mret (mkExclusiveResult true cid CardCleared asked' None)
      end
  end.

Definition acquire_exclusive (b : Broker) (lw : LockWait) (cid : string)
    (release_timeout : option Z) (transport : option bool) : broker ExclusiveResult :=
  let release_timeout := default GRANT_RELEASE_TIMEOUT_SECONDS release_timeout in
  deadline ← gets (budget_deadline GRANT_TOTAL_TIMEOUT_SECONDS);
  acquire_grant_lock lw;;
  acquire_exclusive_locked b cid release_timeout (default (has_transport b) transport) deadline.

(** [release_exclusive] *)
Definition release_exclusive (lw : LockWait) (cid : string) : broker bool :=
  acquire_grant_lock lw;;
  holder ← reads active_exclusive_holder;
  set_exclusive_m cid false;;
  mret (match holder with
        | Some h => bool_decide (consumer_id h = cid)
        | None => false
        end).

End broker.
