(* ===== verification/BrokerFacts.v ===== *)
(** Lemmas about the broker programs of [Broker]: how each statement runs, what
    the loops preserve, and what a run leaves in the trace, the registry and the
    clock. *)

From stdpp Require Import gmap.
From S2P Require Import Prelude Data Leases LeaseFacts Reaper Broker.

Section facts.
Context `{!LeaseConfig, !BrokerConfig}.
Implicit Types (w : World) (b : Broker).

(** ** Running one statement *)

Lemma run_reads {A B} (f : Z → registry → A) (k : A → broker B) w :
  (reads f ≫= k) w = k (f (w_wall w) (w_reg w)) w.
Proof. done. Qed.

Lemma run_gets {A B} (f : World → A) (k : A → broker B) w : (gets f ≫= k) w = k (f w) w.
Proof. done. Qed.

Lemma run_modify {B} (f : World → World) (k : unit → broker B) w :
  (modify f ≫= k) w = k tt (f w).
Proof. done. Qed.

(** The world after a commit has been drawn, and its outcome. *)
Definition commit_ok w : bool := match w_commits w with [] => true | x :: _ => x end.
Definition after_commit w : World :=
  match w_commits w with [] => w | _ :: rest => w <| w_commits := rest |> end.

Lemma after_commit_fields w :
  w_reg (after_commit w) = w_reg w ∧ w_wall (after_commit w) = w_wall w ∧
  w_mono (after_commit w) = w_mono w ∧ w_script (after_commit w) = w_script w ∧
  w_reasons (after_commit w) = w_reasons w ∧ w_trace (after_commit w) = w_trace w.
Proof. unfold after_commit. by destruct (w_commits w). Qed.

Lemma run_writes {A} (f : bool → Z → registry → A * registry) w :
  writes f w =
    (Ok (f (commit_ok w) (w_wall w) (w_reg w)).1,
     (after_commit w) <| w_reg := (f (commit_ok w) (w_wall w) (w_reg w)).2 |>).
Proof.
  unfold writes, next_commit, write_now, commit_ok, after_commit. rewrite run_bind.
  destruct (w_commits w); reflexivity.
Qed.

Lemma run_writes_bind {A B} (f : bool → Z → registry → A * registry) (k : A → broker B) w :
  (writes f ≫= k) w =
    k (f (commit_ok w) (w_wall w) (w_reg w)).1
      ((after_commit w) <| w_reg := (f (commit_ok w) (w_wall w) (w_reg w)).2 |>).
Proof. by rewrite run_bind, run_writes. Qed.

(** A step that touches neither the trace nor the monotonic clock. *)
Definition silent w w' : Prop := w_trace w' = w_trace w ∧ w_mono w' = w_mono w.

Lemma silent_trans w1 w2 w3 : silent w1 w2 → silent w2 w3 → silent w1 w3.
Proof. unfold silent. intros [-> ->] [-> ->]. done. Qed.

Lemma silent_commit w db : silent w ((after_commit w) <| w_reg := db |>).
Proof.
  unfold silent. simpl. by destruct (after_commit_fields w) as (_ & _ & -> & _ & _ & ->).
Qed.

Lemma writes_silent {A} (f : bool → Z → registry → A * registry) w :
  silent w (state_of (writes f) w).
Proof.
  unfold state_of. rewrite run_writes. simpl.
  by destruct (after_commit_fields w) as (_ & _ & ? & _ & _ & ?).
Qed.

Lemma foldl_run_peer_fields peers w :
  w_mono (foldl run_peer w peers) = w_mono w ∧ w_trace (foldl run_peer w peers) = w_trace w ∧
  w_commits (foldl run_peer w peers) = w_commits w ∧
  w_script (foldl run_peer w peers) = w_script w ∧
  w_reasons (foldl run_peer w peers) = w_reasons w ∧
  w_wall w ≤ w_wall (foldl run_peer w peers).
Proof.
  revert w. induction peers as [|[[dt ok] p] peers IH]; intros w; simpl; [by split_and!|].
  match goal with |- context [foldl run_peer ?w0 peers] =>
    destruct (IH w0) as (-> & -> & -> & -> & -> & Hle) end.
  simpl in *. split_and!; try done. lia.
Qed.

(** What the peers do to the registry depends on the registry and the clock only. *)
Lemma foldl_run_peer_cong peers w w' :
  w_reg w = w_reg w' → w_wall w = w_wall w' →
  w_reg (foldl run_peer w peers) = w_reg (foldl run_peer w' peers) ∧
  w_wall (foldl run_peer w peers) = w_wall (foldl run_peer w' peers).
Proof.
  revert w w'. induction peers as [|[[dt ok] p] peers IH]; intros w w' Hr Hw; simpl; [done|].
  apply IH; simpl; by rewrite ?Hr, ?Hw.
Qed.

(** ** What the statements preserve *)

Section preserved.
Context (R : relation World) `{!PreOrder R}.
Context (Hsilent : ∀ w w', silent w w' → R w w').

Lemma at_reads {A B} (f : Z → registry → A) (k : A → broker B) w :
  preserves_at R (k (f (w_wall w) (w_reg w))) w → preserves_at R (reads f ≫= k) w.
Proof. done. Qed.

Lemma at_gets {A B} (f : World → A) (k : A → broker B) w :
  preserves_at R (k (f w)) w → preserves_at R (gets f ≫= k) w.
Proof. done. Qed.

Lemma at_ret {A} (a : A) w : preserves_at R (mret a : broker A) w.
Proof. unfold preserves_at. simpl. reflexivity. Qed.

Lemma at_raise {A} e w : preserves_at R (raise e : broker A) w.
Proof. unfold preserves_at. simpl. reflexivity. Qed.

Lemma at_writes {A} (f : bool → Z → registry → A * registry) w :
  preserves_at R (writes f) w.
Proof. apply Hsilent, writes_silent. Qed.

Lemma at_modify (f : World → World) w : R w (f w) → preserves_at R (modify f : broker unit) w.
Proof. done. Qed.

Lemma at_bind {A B} (m : broker A) (f : A → broker B) w :
  preserves_at R m w → (∀ a w', m w = (Ok a, w') → preserves_at R (f a) w') →
  preserves_at R (m ≫= f) w.
Proof. apply preserves_at_bind. apply _. Qed.

Lemma at_resolve cid resp w : preserves_at R (_resolve_response cid resp) w.
Proof.
  unfold _resolve_response. apply at_bind; [by apply at_modify, Hsilent|]. intros _ w1 _.
  destruct (outcome resp); [destruct (new_held_bytes resp)|..];
    (apply at_bind; [apply at_writes|intros; apply at_ret]).
Qed.

Lemma at_request_release tr cid amount timeout w :
  (∀ w1, silent w w1 →
    R w1 (w1 <| w_trace := w_trace w1 ++ [EvRelease cid amount timeout] |>)) →
  (∀ w1, w_mono w1 = w_mono w → preserves_at R (await_release timeout) w1) →
  preserves_at R (request_release tr cid amount timeout) w.
Proof.
  intros Hemit Hawait. unfold request_release. destruct tr; simpl; [|apply at_raise].
  unfold preserves_at, state_of. rewrite !run_writes_bind.
  match goal with |- R _ (_ ?w1).2 => set (w1' := w1) end.
  assert (silent w w1') as Hs1.
  { subst w1'. eapply silent_trans; apply silent_commit. }
  transitivity w1'; [by apply Hsilent|].
  apply at_bind; [by apply Hemit|]. intros u w2 Hw2.
  apply at_bind; [|intros a w3 _; apply at_resolve].
  apply Hawait. destruct Hs1 as [_ <-]. clearbody w1'. unfold emit, modify in Hw2.
  injection Hw2 as _ <-. done.
Qed.

Lemma at_reap_one b holder requested rt dl target w :
  preserves_at R (await_reap holder target.1 target.2 (budget_bound dl rt w)) w →
  (∀ w1, R w1 (w1 <| w_trace := w_trace w1 ++ [EvReaped (consumer_id holder)] |>)) →
  preserves_at R (reap_one b holder requested rt dl target) w.
Proof.
  intros Hawait Hemit. unfold reap_one. apply at_reads, at_gets.
  apply at_bind; [done|]. intros reap w1 _. destruct (reap_status reap); [|apply at_ret].
  apply at_bind; [apply at_writes|]. intros _ w2 _.
  apply at_bind; [by apply at_modify|]. intros _ w3 _. apply at_reads, at_ret.
Qed.

Section loops.
Context (tr : bool) (rt dl : Z) (b : Broker).

Lemma at_reclaim_loop amount holders asked w :
  (∀ h, h ∈ holders → ∀ x w1,
    preserves_at R (request_release tr (consumer_id h) x (budget_bound dl rt w1)) w1) →
  preserves_at R (reclaim_loop tr amount rt dl holders asked) w.
Proof.
  revert asked w. induction holders as [|h holders IH]; intros asked w Hh;
    cbn [reclaim_loop]; [apply at_ret|].
  apply at_reads. case_decide; [apply at_ret|]. apply at_gets.
  destruct (budget_spent dl w); [apply at_ret|]. do 2 apply at_reads. apply at_gets.
  apply at_bind; [apply Hh; left|]. intros out w1 _. apply at_reads, at_gets.
  apply IH. intros h' Hh'. apply Hh. by right.
Qed.

Lemma at_clear_loop holders asked w :
  (∀ h, h ∈ holders → ∀ x w1,
    preserves_at R (request_release tr (consumer_id h) x (budget_bound dl rt w1)) w1) →
  preserves_at R (clear_loop tr rt dl holders asked) w.
Proof.
  revert asked w. induction holders as [|h holders IH]; intros asked w Hh;
    cbn [clear_loop]; [apply at_ret|].
  assert (∀ h', h' ∈ holders → ∀ x w1, preserves_at R
    (request_release tr (consumer_id h') x (budget_bound dl rt w1)) w1) as Hh'
    by (intros; apply Hh; by right).
  apply at_reads. case_decide; [by apply IH|]. apply at_gets.
  destruct (budget_spent dl w); [apply at_ret|]. apply at_gets.
  apply at_bind; [apply Hh; left|]. intros out w1 _. apply at_reads, at_gets.
  by apply IH.
Qed.

(** A holder the escalation may act on, with its trusted target. *)
Definition armed (h : VramConsumer) (target : string * string) : Prop :=
  _ever_observed h = true ∧ _reap_target_for b (consumer_id h) = Some target.

Lemma at_reap_loop amount holders asked w :
  (∀ h target, h ∈ holders → armed h target → ∀ x w1,
    preserves_at R (reap_one b h x rt dl target) w1) →
  preserves_at R (reap_loop b amount rt dl holders asked) w.
Proof.
  revert asked w. induction holders as [|h holders IH]; intros asked w Hh;
    cbn [reap_loop]; [apply at_ret|].
  assert (∀ h' target, h' ∈ holders → armed h' target → ∀ x w1,
    preserves_at R (reap_one b h' x rt dl target) w1) as Hh'
    by (intros; apply Hh; [by right|done]).
  apply at_reads. case_decide; [apply at_ret|]. apply at_gets.
  destruct (budget_spent dl w); [apply at_ret|]. apply at_reads.
  destruct (_ever_observed h) eqn:Ho; simpl; [|by apply IH].
  destruct (_reap_target_for b (consumer_id h)) as [t|] eqn:Ht; [|by apply IH].
  apply at_bind; [apply Hh; [left|done]|]. intros entry w1 _. by apply IH.
Qed.

Lemma at_clear_reap_loop holders asked w :
  (∀ h target, h ∈ holders → armed h target → ∀ x w1,
    preserves_at R (reap_one b h x rt dl target) w1) →
  preserves_at R (clear_reap_loop b rt dl holders asked) w.
Proof.
  revert asked w. induction holders as [|h holders IH]; intros asked w Hh;
    cbn [clear_reap_loop]; [apply at_ret|].
  assert (∀ h' target, h' ∈ holders → armed h' target → ∀ x w1,
    preserves_at R (reap_one b h' x rt dl target) w1) as Hh'
    by (intros; apply Hh; [by right|done]).
  apply at_reads. case_decide; [by apply IH|].
  destruct (_ever_observed h) eqn:Ho; simpl; [|by apply IH].
  destruct (_reap_target_for b (consumer_id h)) as [t|] eqn:Ht; [|by apply IH].
  apply at_gets. destruct (budget_spent dl w); [apply at_ret|].
  apply at_bind; [apply Hh; [left|done]|]. intros entry w1 _. by apply IH.
Qed.
End loops.
End preserved.

(** ** The trace *)

Abbreviation emits P := (extends w_trace P).

Lemma emits_silent P w w' : silent w w' → emits P w w'.
Proof. intros [Ht _]. exists []. by rewrite Ht, app_nil_r. Qed.

Lemma emits_event (P : Event → Prop) e w :
  P e → emits P w (w <| w_trace := w_trace w ++ [e] |>).
Proof. intros He. exists [e]. split; [done|]. by apply Forall_singleton. Qed.

Lemma suspend_emits P step elapsed w : preserves_at (emits P) (suspend step elapsed) w.
Proof.
  exists []. rewrite app_nil_r. split; [|done]. unfold state_of, suspend, modify. simpl.
  by destruct (foldl_run_peer_fields (aw_peers step) w) as (_ & -> & _).
Qed.

Lemma next_await_emits P w : preserves_at (emits P) next_await w.
Proof.
  exists []. rewrite app_nil_r. split; [|done]. unfold state_of, next_await.
  by destruct (w_script w).
Qed.

Lemma await_release_emits P timeout w : preserves_at (emits P) (await_release timeout) w.
Proof.
  apply at_bind; [apply _|apply next_await_emits|]. intros step w1 _.
  case_decide; (apply at_bind; [apply _|apply suspend_emits|]; intros; by apply at_ret, _).
Qed.

Lemma await_reap_emits (P : Event → Prop) h ns sel timeout w :
  (∀ el, 0 ≤ el → P (EvReap h ns sel timeout el)) →
  preserves_at (emits P) (await_reap h ns sel timeout) w.
Proof.
  intros HP. apply at_bind; [apply _|apply next_await_emits|]. intros step w1 _.
  apply at_bind; [apply _|apply at_modify, emits_event, HP; lia|]. intros _ w2 _.
  apply at_bind; [apply _|apply suspend_emits|]. intros; by apply at_ret, _.
Qed.

Lemma request_release_emits (P : Event → Prop) tr cid amount timeout w :
  P (EvRelease cid amount timeout) →
  preserves_at (emits P) (request_release tr cid amount timeout) w.
Proof.
  intros HP. apply at_request_release; [apply _|apply emits_silent| |].
  - intros w1 _. by apply emits_event.
  - intros w1 _. apply await_release_emits.
Qed.

Lemma reap_one_emits (P : Event → Prop) b h x rt dl target w :
  (∀ tmo el, 0 ≤ el → P (EvReap h target.1 target.2 tmo el)) → P (EvReaped (consumer_id h)) →
  preserves_at (emits P) (reap_one b h x rt dl target) w.
Proof.
  intros HP HP'. apply at_reap_one; [apply _|apply emits_silent| |].
  - apply await_reap_emits. intros. by apply HP.
  - intros w1. by apply emits_event.
Qed.

(** ** The clock *)

(** A reap came back within the timeout it was called with. *)
Definition in_time (e : Event) : Prop :=
  match e with EvReap _ _ _ timeout el => el ≤ Z.max 0 timeout | _ => True end.

(** Time moves forward and, if every reap was in time, not past the deadline. *)
Definition within (dl : Z) w w' : Prop :=
  w_mono w ≤ w_mono w' ∧
  ∃ es, w_trace w' = w_trace w ++ es ∧
    (Forall in_time es → w_mono w' ≤ Z.max (w_mono w) dl).

#[export] Instance within_preorder dl : PreOrder (within dl).
Proof.
  split.
  - intros w. split; [done|]. exists []. rewrite app_nil_r. split; [done|]. lia.
  - intros w1 w2 w3 (Hm1 & es1 & H1 & HP1) (Hm2 & es2 & H2 & HP2). split; [lia|].
    exists (es1 ++ es2). rewrite H2, H1, app_assoc. split; [done|].
    intros [Hes1 Hes2]%Forall_app. specialize (HP1 Hes1). specialize (HP2 Hes2). lia.
Qed.

Lemma within_silent dl w w' : silent w w' → within dl w w'.
Proof.
  intros [Ht Hm]. split; [lia|]. exists []. rewrite Ht, app_nil_r. split; [done|]. lia.
Qed.

Lemma within_event dl e w : within dl w (w <| w_trace := w_trace w ++ [e] |>).
Proof. split; [done|]. exists [e]. split; [done|]. simpl. lia. Qed.

Lemma suspend_within dl step elapsed w :
  Z.max 0 elapsed ≤ Z.max 0 (dl - w_mono w) → preserves_at (within dl) (suspend step elapsed) w.
Proof.
  intros Hel. unfold preserves_at, state_of, suspend, modify. simpl.
  destruct (foldl_run_peer_fields (aw_peers step) w) as (_ & Ht & _).
  split; simpl; [lia|]. exists []. rewrite app_nil_r. split; [done|]. lia.
Qed.

Lemma next_await_silent w : silent w (state_of next_await w).
Proof. unfold silent, state_of, next_await. by destruct (w_script w). Qed.

Lemma run_next_await w step w1 : next_await w = (Ok step, w1) → silent w w1.
Proof. intros Hn. pose proof (next_await_silent w) as Hs. unfold state_of in Hs. by rewrite Hn in Hs. Qed.

Lemma await_release_within dl rt w w1 :
  w_mono w1 = w_mono w → preserves_at (within dl) (await_release (budget_bound dl rt w)) w1.
Proof.
  intros Hm. apply at_bind; [apply _|apply within_silent, next_await_silent|].
  intros step w2 [_ Hm2]%run_next_await. unfold budget_bound, budget_remaining.
  case_decide as Hd; (apply at_bind; [apply _|apply suspend_within; lia|]); intros;
    by apply at_ret, _.
Qed.

Lemma request_release_within dl tr cid x rt w :
  preserves_at (within dl) (request_release tr cid x (budget_bound dl rt w)) w.
Proof.
  apply at_request_release; [apply _|apply within_silent| |].
  - intros w1 _. apply within_event.
  - intros w1 Hw1. by apply await_release_within.
Qed.

Lemma await_reap_within dl h ns sel rt w :
  preserves_at (within dl) (await_reap h ns sel (budget_bound dl rt w)) w.
Proof.
  unfold preserves_at, state_of, await_reap. rewrite run_bind.
  destruct (next_await w) as [[step|e] w1] eqn:Hn; [|unfold next_await in Hn;
    by destruct (w_script w)].
  apply run_next_await in Hn as [Ht Hm]. unfold emit. rewrite run_modify.
  unfold suspend. rewrite run_modify. simpl.
  match goal with |- context [foldl run_peer ?w0 _] =>
    destruct (foldl_run_peer_fields (aw_peers step) w0) as (_ & Htr & _) end.
  split; simpl in *; [lia|]. eexists. rewrite Htr, Ht. split; [done|].
  intros Hin. rewrite Forall_singleton in Hin.
  unfold in_time, budget_bound, budget_remaining in Hin. lia.
Qed.

Lemma reap_one_within dl b h x rt target w :
  preserves_at (within dl) (reap_one b h x rt dl target) w.
Proof.
  apply at_reap_one; [apply _|apply within_silent| |].
  - apply await_reap_within.
  - intros w1. apply within_event.
Qed.

(** ** Grants *)

Definition is_grant (e : Event) : bool :=
  match e with EvGrant _ _ => true | _ => false end.
Definition is_exclusive (e : Event) : bool :=
  match e with EvExclusive _ _ => true | _ => false end.

(** [_commit_grant] either records the grant in the registry and says so, or
    writes nothing and denies. *)
Lemma commit_grant_cases cid amount prio recl freeable w res w' :
  _commit_grant cid amount prio recl freeable w = (res, w') →
  (∃ g r, res = Ok (Granted g) ∧
    granted_consumer_id g = cid ∧ granted_bytes g = amount ∧ reclaimed g = recl ∧
    find_row cid (w_reg w) = Some r ∧
    w_reg w' = (record_grant true (w_wall w) cid amount (Some prio) (w_reg w)).2 ∧
    w_wall w' = w_wall w ∧ w_trace w' = w_trace w ++ [EvGrant cid amount]) ∨
  (∃ d, res = Ok (Denied d) ∧ requested_bytes d = amount ∧ holders_asked d = recl ∧
    (commit_ok w = false ∨ find_row cid (w_reg w) = None) ∧
    w_reg w' = w_reg w ∧ w_wall w' = w_wall w ∧ w_trace w' = w_trace w).
Proof.
  unfold _commit_grant. rewrite run_writes_bind.
  destruct (after_commit_fields w) as (_ & Hwall & _ & _ & _ & Htr).
  unfold record_grant at 1. rewrite write_row_return by auto with s2db.
  destruct (commit_ok w) eqn:Hok; simpl.
  - destruct (find_row cid (w_reg w)) as [r|] eqn:Hr; simpl; intros [= <- <-].
    + left. eexists _, r. split_and!; try done. simpl. by rewrite Htr.
    + right. eexists. split_and!; try done; [by right|]. simpl.
      unfold record_grant. rewrite write_row_table. by rewrite update_row_absent.
  - intros [= <- <-]. right. eexists. split_and!; try done; [by left|]. simpl.
    unfold record_grant. by rewrite write_row_table.
Qed.

Lemma commit_grant_within dl cid amount prio recl freeable w :
  preserves_at (within dl) (_commit_grant cid amount prio recl freeable) w.
Proof.
  apply at_bind; [apply _|apply at_writes, within_silent|].
  intros [g|] w1 _; [|by apply at_reads, at_ret, _].
  apply at_bind; [apply _|apply at_modify, within_event|]. intros. by apply at_ret, _.
Qed.

(** The grant decision as a case analysis on the state it starts from. *)
Lemma decide_lease_cases b cid amount prio rt tr dl w :
  _decide_lease b cid amount prio rt tr dl w =
  match find_row cid (w_reg w) with
  | None => (Raise (NotRegistered cid), w)
  | Some _ =>
    match blocked_by cid (w_wall w) (w_reg w) with
    | Some holder =>
        (Ok (Denied (mkLeaseDenied amount (free_capacity (w_wall w) (w_reg w)) 0 []
          (Some (consumer_id holder)))), w)
    | None =>
        let free := free_capacity (w_wall w) (w_reg w) in
        let holders := reclaimable cid prio (w_wall w) (w_reg w) in
        let freeable := free + zsum (held_bytes <$> holders)
          + reapable b cid prio (w_wall w) (w_reg w) in
        if decide (freeable < amount)
        then (Ok (Denied (mkLeaseDenied amount free freeable [] None)), w)
        else if decide (amount ≤ free)
        then _commit_grant cid amount prio [] freeable w
        else (reclaim_loop tr amount rt dl holders [] ≫=
                escalate b cid amount prio rt dl freeable) w
    end
  end.
Proof.
  unfold _decide_lease, get. rewrite run_reads.
  destruct (find_row cid (w_reg w)); [|done]. rewrite run_reads.
  destruct (blocked_by _ _ _); [done|]. rewrite !run_reads. simpl.
  case_decide; [done|]. by case_decide.
Qed.

(** [escalate] by cases: it grants from a state it has just seen enough free
    capacity in, or denies; in between, only the reap loop runs. *)
Lemma escalate_cases b cid amount prio rt dl freeable asked w :
  (∃ w1 asked', (w1 = w ∨ (has_reaper b = true ∧
      reap_loop b amount rt dl (escalation_candidates cid prio (w_wall w) (w_reg w)) asked w
        = (Ok asked', w1))) ∧
    ((amount ≤ free_capacity (w_wall w1) (w_reg w1) ∧
      ∃ a, escalate b cid amount prio rt dl freeable asked w =
             _commit_grant cid amount prio a freeable w1) ∨
     ∃ d, escalate b cid amount prio rt dl freeable asked w = (Ok (Denied d), w1))) ∨
  (∃ e w1, has_reaper b = true ∧
     reap_loop b amount rt dl (escalation_candidates cid prio (w_wall w) (w_reg w)) asked w
       = (Raise e, w1) ∧
     escalate b cid amount prio rt dl freeable asked w = (Raise e, w1)).
Proof.
  unfold escalate. rewrite run_reads. case_decide as Hfree.
  { left. exists w, []. split; [by left|]. left. eauto. }
  destruct (has_reaper b) eqn:Hr; [|left; exists w, []; split; [by left|]; right; by eexists].
  rewrite run_reads, run_bind.
  destruct (reap_loop _ _ _ _ _ _ w) as [[asked'|e] w1]; [|right; eauto].
  left. exists w1, asked'. split; [by right|]. rewrite run_reads.
  case_decide; [left; eauto|right; by eexists].
Qed.

(** The cooperative half of a grant decision taken from [w], and the escalation
    that may follow it in the world [w2] it leaves. *)
Definition reclaim_phase cid amount prio rt tr dl w : broker (list HolderAsked) :=
  reclaim_loop tr amount rt dl (reclaimable cid prio (w_wall w) (w_reg w)) [].
Definition reap_phase b cid amount prio rt dl asked w2 : broker (list HolderAsked) :=
  reap_loop b amount rt dl (escalation_candidates cid prio (w_wall w2) (w_reg w2)) asked.

(** Where a grant decision taken from [w] can be: still at [w], after the
    cooperative half, or after the escalation. *)
Definition midway b cid amount prio rt tr dl w w1 : Prop :=
  w1 = w ∨ w1 = state_of (reclaim_phase cid amount prio rt tr dl w) w ∨
  ∃ asked w2, reclaim_phase cid amount prio rt tr dl w w = (Ok asked, w2) ∧
    has_reaper b = true ∧ w1 = state_of (reap_phase b cid amount prio rt dl asked w2) w2.

(** A decision ends in a commit, from a state that was just seen to have room,
    or short of one. *)
Lemma decide_lease_run b cid amount prio rt tr dl w :
  ∃ w1, midway b cid amount prio rt tr dl w w1 ∧
  ((amount ≤ free_capacity (w_wall w1) (w_reg w1) ∧
    ∃ asked freeable, _decide_lease b cid amount prio rt tr dl w =
      _commit_grant cid amount prio asked freeable w1) ∨
   ∃ res, _decide_lease b cid amount prio rt tr dl w = (res, w1) ∧
     ∀ g, res ≠ Ok (Granted g)).
Proof.
  rewrite decide_lease_cases.
  destruct (find_row cid (w_reg w));
    [|exists w; split; [by left|]; right; eexists; split; [done|naive_solver]].
  destruct (blocked_by _ _ _);
    [exists w; split; [by left|]; right; eexists; split; [done|naive_solver]|].
  simpl. case_decide as Hover;
    [exists w; split; [by left|]; right; eexists; split; [done|naive_solver]|].
  case_decide as Hfree; [exists w; split; [by left|]; left; eauto|].
  rewrite run_bind. change (reclaim_loop tr amount rt dl
    (reclaimable cid prio (w_wall w) (w_reg w)) []) with
    (reclaim_phase cid amount prio rt tr dl w).
  destruct (reclaim_phase cid amount prio rt tr dl w w) as [[asked|e] w2] eqn:Hrec.
  2: { exists w2. split; [right; left; unfold state_of; by rewrite Hrec|]. right.
       eexists. split; [done|naive_solver]. }
  match goal with |- context [escalate _ _ _ _ _ _ ?f _ _] => generalize f end.
  intros freeable.
  destruct (escalate_cases b cid amount prio rt dl freeable asked w2) as
    [(w1 & asked' & Hw1 & Hend)|(e & w1 & Hr & Hloop & Hend)]; exists w1; rewrite ?Hend.
  - split.
    + destruct Hw1 as [->|[Hr Hloop]].
      * right; left. unfold state_of. by rewrite Hrec.
      * right; right. exists asked, w2. split_and!; [done|done|].
        unfold state_of, reap_phase. by rewrite Hloop.
    + destruct Hend as [(Hfree' & a & ->)|(d & ->)]; [left; eauto|right].
      eexists. split; [done|naive_solver].
  - split; [|right; eexists; split; [done|naive_solver]].
    right; right. exists asked, w2. split_and!; [done|done|].
    unfold state_of, reap_phase. by rewrite Hloop.
Qed.

Lemma midway_preserves (R : relation World) `{!PreOrder R} b cid amount prio rt tr dl w w1 :
  preserves_at R (reclaim_phase cid amount prio rt tr dl w) w →
  (∀ asked w2, reclaim_phase cid amount prio rt tr dl w w = (Ok asked, w2) →
    has_reaper b = true →
    preserves_at R (reap_phase b cid amount prio rt dl asked w2) w2) →
  midway b cid amount prio rt tr dl w w1 → R w w1.
Proof.
  intros Hrec Hreap [->|[->|(asked & w2 & Hw2 & Hr & ->)]]; [done|done|].
  transitivity w2; [|by eapply Hreap]. unfold preserves_at, state_of in Hrec.
  by rewrite Hw2 in Hrec.
Qed.

(** The events a grant decision taken from [w] may emit before its commit. *)
Definition decision_event b cid amount prio rt tr dl w (e : Event) : Prop :=
  match e with
  | EvRelease c _ _ =>
      ∃ h, h ∈ reclaimable cid prio (w_wall w) (w_reg w) ∧ consumer_id h = c
  | EvReap h ns sel _ _ =>
      has_reaper b = true ∧ armed b h (ns, sel) ∧
      let w2 := state_of (reclaim_phase cid amount prio rt tr dl w) w in
      h ∈ escalation_candidates cid prio (w_wall w2) (w_reg w2)
  | EvReaped c =>
      has_reaper b = true ∧
      let w2 := state_of (reclaim_phase cid amount prio rt tr dl w) w in
      ∃ h target, armed b h target ∧ consumer_id h = c ∧
        h ∈ escalation_candidates cid prio (w_wall w2) (w_reg w2)
  | EvGrant _ _ | EvExclusive _ _ => False
  end.

Lemma midway_emits b cid amount prio rt tr dl w w1 :
  midway b cid amount prio rt tr dl w w1 →
  emits (decision_event b cid amount prio rt tr dl w) w w1.
Proof.
  apply midway_preserves; [apply _|..].
  - apply at_reclaim_loop; [apply _|]. intros h Hh x w2. apply request_release_emits.
    simpl. eauto.
  - intros asked w2 Hw2 Hr. apply at_reap_loop; [apply _|].
    assert (w2 = state_of (reclaim_phase cid amount prio rt tr dl w) w) as Heq
      by (unfold state_of; by rewrite Hw2).
    intros h target Hh Harm x w3. apply reap_one_emits.
    + intros tmo el Hel. simpl. rewrite <- Heq. by destruct target.
    + simpl. rewrite <- Heq. eauto 10.
Qed.

Lemma midway_within b cid amount prio rt tr dl w w1 :
  midway b cid amount prio rt tr dl w w1 → within dl w w1.
Proof.
  apply midway_preserves; [apply _|..].
  - apply at_reclaim_loop; [apply _|]. intros. apply request_release_within.
  - intros asked w2 _ _. apply at_reap_loop; [apply _|]. intros. apply reap_one_within.
Qed.

(** The world [request_lease] decides in: the lock has been acquired. *)
Definition locked (lw : LockWait) w : World := state_of (acquire_grant_lock lw) w.

Lemma run_request_lease b lw cid amount prio rt tr w :
  request_lease b lw cid amount prio rt tr w =
  _decide_lease b cid amount prio (default GRANT_RELEASE_TIMEOUT_SECONDS rt)
    (default (has_transport b) tr) (budget_deadline GRANT_TOTAL_TIMEOUT_SECONDS w)
    (locked lw w).
Proof. done. Qed.

Lemma locked_fields lw w :
  w_mono (locked lw w) = w_mono w + Z.max 0 (lw_elapsed lw) ∧
  w_trace (locked lw w) = w_trace w.
Proof.
  unfold locked, state_of, acquire_grant_lock, modify. simpl. split; [done|].
  revert w. induction (lw_writes lw) as [|[[dt ok] op] l IH]; intros w; [done|].
  simpl. by rewrite IH.
Qed.

(** The events of a whole call: what [decision_event] allows, then the grant if
    and only if the call grants. *)
Lemma request_lease_events b lw cid amount prio rt tr w res w' :
  request_lease b lw cid amount prio rt tr w = (res, w') →
  ∃ es,
    w_trace w' = w_trace w ++ es ++
      match res with Ok (Granted _) => [EvGrant cid amount] | _ => [] end ∧
    Forall (decision_event b cid amount prio (default GRANT_RELEASE_TIMEOUT_SECONDS rt)
      (default (has_transport b) tr) (budget_deadline GRANT_TOTAL_TIMEOUT_SECONDS w)
      (locked lw w)) es.
Proof.
  rewrite run_request_lease. intros Hrun.
  destruct (decide_lease_run b cid amount prio (default GRANT_RELEASE_TIMEOUT_SECONDS rt)
    (default (has_transport b) tr) (budget_deadline GRANT_TOTAL_TIMEOUT_SECONDS w)
    (locked lw w)) as (w1 & Hmid & Hend).
  apply midway_emits in Hmid as (es & Htr & Hes). destruct (locked_fields lw w) as [_ Hl].
  exists es. split; [|done]. rewrite app_assoc, <- Hl, <- Htr.
  destruct Hend as [(_ & asked & freeable & Heq)|(res' & Heq & Hno)]; rewrite Heq in Hrun.
  - apply commit_grant_cases in Hrun as
      [(g & r & -> & _ & _ & _ & _ & _ & _ & ->)|(d & -> & _ & _ & _ & _ & _ & ->)];
      [done|by rewrite app_nil_r].
  - injection Hrun as <- <-. destruct res' as [[g|d]|e]; [by destruct (Hno g)|by rewrite app_nil_r..].
Qed.

End facts.
