(* ===== verification/BrokerContract.v ===== *)
(** The contract of the VRAM lease broker: a grant is backed by free capacity
    that was just read, a refusal leaves no grant behind, only the consumers the
    protocol allows are asked or reaped, the whole decision is bounded in time,
    a release request settles on what the holder confirmed, and exclusive leases
    are confirmed or nothing.  Three closed runs show where it falls short. *)

From stdpp Require Import gmap.
From S2P Require Import Prelude Data Leases LeaseFacts LeaseContract Reaper Broker BrokerFacts.

Section contract.
Context `{!LeaseConfig, !BrokerConfig}.
Implicit Types (w : World) (b : Broker).

(** ** Grants *)

(** C1: no speculative grant (R3).  Whatever the other coroutines of the process
    do at the awaits, a [LeaseGranted] means that, in the very state the grant
    was committed in, the registry's free capacity was at least the amount; the
    registry the call leaves is that state with the grant recorded on the
    requester's row, and the grant is the only one the call makes. *)
Theorem grant_is_backed b lw cid amount prio rt tr w g w' :
  request_lease b lw cid amount prio rt tr w = (Ok (Granted g), w') →
  granted_consumer_id g = cid ∧ granted_bytes g = amount ∧
  ∃ now db r es,
    find_row cid db = Some r ∧ amount ≤ free_capacity now db ∧
    w_wall w' = now ∧ w_reg w' = (record_grant true now cid amount (Some prio) db).2 ∧
    w_trace w' = w_trace w ++ es ++ [EvGrant cid amount] ∧
    Forall (λ e, is_grant e = false) es.
Proof.
  rewrite run_request_lease. intros Hrun.
  destruct (decide_lease_run b cid amount prio (default GRANT_RELEASE_TIMEOUT_SECONDS rt)
    (default (has_transport b) tr) (budget_deadline GRANT_TOTAL_TIMEOUT_SECONDS w)
    (locked lw w)) as (w1 & Hmid & [(Hfree & asked & freeable & Heq)|(res & Heq & Hres)]);
    rewrite Heq in Hrun; [|naive_solver].
  apply midway_emits in Hmid as (es & Htr & Hes).
  apply commit_grant_cases in Hrun as
    [(g' & r & [= <-] & Hcid & Ham & _ & Hr & Hreg & Hwall & Htr')|(d & [=] & _)].
  split_and!; [done|done|]. exists (w_wall w1), (w_reg w1), r, es. split_and!; try done.
  - rewrite Htr', Htr. destruct (locked_fields lw w) as [_ ->]. by rewrite app_assoc.
  - eapply Forall_impl; [done|]. by intros [].
Qed.

(** No grant without a [LeaseGranted].  A call that denies or raises leaves
    no grant event behind, whatever it had already reclaimed. *)
Theorem denial_makes_no_grant b lw cid amount prio rt tr w res w' :
  request_lease b lw cid amount prio rt tr w = (res, w') →
  (∀ g, res ≠ Ok (Granted g)) →
  ∃ es, w_trace w' = w_trace w ++ es ∧ Forall (λ e, is_grant e = false) es.
Proof.
  intros (es & Htr & Hes)%request_lease_events Hno. exists es. split.
  - rewrite Htr. destruct res as [[g|d]|e]; [by destruct (Hno g)|by rewrite app_nil_r..].
  - eapply Forall_impl; [done|]. by intros [].
Qed.

(** What a call decides before asking anyone.  An unregistered requester is
    an error; a request blocked by another consumer's active exclusive lease, or
    for more than free plus reclaimable plus reapable capacity, is denied; these
    three leave the world exactly as the lock found it.  A request that already
    fits is decided without one release request or reap. *)
Theorem early_decisions b lw cid amount prio rt tr w :
  let w0 := locked lw w in
  let free := free_capacity (w_wall w0) (w_reg w0) in
  let freeable := free + zsum (held_bytes <$> reclaimable cid prio (w_wall w0) (w_reg w0))
    + reapable b cid prio (w_wall w0) (w_reg w0) in
  let run := request_lease b lw cid amount prio rt tr w in
  (find_row cid (w_reg w0) = None → run = (Raise (NotRegistered cid), w0)) ∧
  (find_row cid (w_reg w0) ≠ None → ∀ h, blocked_by cid (w_wall w0) (w_reg w0) = Some h →
     run = (Ok (Denied (mkLeaseDenied amount free 0 [] (Some (consumer_id h)))), w0)) ∧
  (find_row cid (w_reg w0) ≠ None → blocked_by cid (w_wall w0) (w_reg w0) = None →
     (freeable < amount → run = (Ok (Denied (mkLeaseDenied amount free freeable [] None)), w0)) ∧
     (amount ≤ free → amount ≤ freeable →
        ∃ res, run.1 = Ok res ∧
          w_trace run.2 = w_trace w ++
            match res with Granted _ => [EvGrant cid amount] | Denied _ => [] end ∧
          match res with
          | Granted g => reclaimed g = []
          | Denied d => holders_asked d = [] ∧ w_reg run.2 = w_reg w0 ∧ commit_ok w0 = false
          end)).
Proof.
  intros w0 free freeable run. subst run. rewrite run_request_lease.
  destruct (locked_fields lw w) as [_ Htr]. fold w0 in Htr |- *.
  clearbody w0. rewrite decide_lease_cases. fold free. fold freeable. cbv zeta.
  destruct (find_row cid (w_reg w0)) as [me|] eqn:Hme; [|by split_and!].
  destruct (blocked_by cid (w_wall w0) (w_reg w0)) as [h|];
    [split_and!; [done|by intros _ h' [= <-]|done]|].
  split_and!; [done|done|]. intros _ _. split.
  - intros Hover. by rewrite decide_True.
  - intros Hfree Hfreeable. rewrite decide_False, decide_True by lia.
    destruct (_commit_grant _ _ _ _ _ w0) as [res w'] eqn:Hrun.
    apply commit_grant_cases in Hrun as
      [(g & r & -> & _ & _ & Hrec & _ & _ & _ & Ht)|(d & -> & _ & Ha & Hok & Hreg & _ & Ht)];
      eexists; (split; [done|]); simpl; rewrite Ht, Htr; split; try done; [by rewrite app_nil_r|].
    destruct Hok; [done|congruence].
Qed.

(** ** Who may be asked, and who may be reaped *)

(** The cooperative priority gate (R2/R3).  Every release request a grant
    decision sends goes to a consumer that, when the lock was acquired, was not
    stale, measurably held VRAM, was not the requester, and had strictly lower
    priority than the request. *)
Theorem release_requests_are_gated b lw cid amount prio rt tr w res w' :
  request_lease b lw cid amount prio rt tr w = (res, w') →
  ∃ es, w_trace w' = w_trace w ++ es ∧
  ∀ c x t, EvRelease c x t ∈ es →
    c ≠ cid ∧
    ∃ h, h ∈ w_reg (locked lw w) ∧ consumer_id h = c ∧ priority h < prio ∧ held_bytes h > 0 ∧
      _effective_state h (w_wall (locked lw w)) ≠ STALE.
Proof.
  intros (es & Htr & Hes)%request_lease_events. eexists. split; [exact Htr|].
  intros c x t [Hin|Hin]%elem_of_app.
  - rewrite Forall_forall in Hes. destruct (Hes _ Hin) as (h & Hh & <-).
    unfold reclaimable, eligible_holders in Hh.
    rewrite list_elem_of_filter, sort_by_elem_of, !list_elem_of_filter in Hh.
    destruct Hh as [[Hne Hp] [Hs [Hheld Hdb]]]. split; [done|]. by exists h.
  - destruct res as [[g|d]|e]; [by apply list_elem_of_singleton in Hin|
      by apply elem_of_nil in Hin..].
Qed.

(** C8: the force-reap gate (R5, self.ai#75/#79/#105).  Every pod deletion a
    grant decision asks for is aimed at the namespace and selector core's own
    trusted map has for the holder, never at what the registry row says, and
    only for a holder that core has heard from at least once and that, when the
    cooperative requests were done, was stale, measurably held VRAM, was not the
    requester and had strictly lower priority than the request.  A row is
    cleared as reaped only for such a holder. *)
Theorem reaps_are_gated b lw cid amount prio rt tr w res w' :
  request_lease b lw cid amount prio rt tr w = (res, w') →
  let w2 := state_of (reclaim_phase cid amount prio (default GRANT_RELEASE_TIMEOUT_SECONDS rt)
    (default (has_transport b) tr) (budget_deadline GRANT_TOTAL_TIMEOUT_SECONDS w)
    (locked lw w)) (locked lw w) in
  let may_reap h := has_reaper b = true ∧ h ∈ w_reg w2 ∧ consumer_id h ≠ cid ∧
    priority h < prio ∧ held_bytes h > 0 ∧ _effective_state h (w_wall w2) = STALE ∧
    is_Some (last_observed_at h) in
  ∃ es, w_trace w' = w_trace w ++ es ∧
  (∀ h ns sel t el, EvReap h ns sel t el ∈ es →
     may_reap h ∧ reap_targets b !! consumer_id h = Some (ns, sel)) ∧
  (∀ c, EvReaped c ∈ es →
     ∃ h, may_reap h ∧ consumer_id h = c ∧ is_Some (reap_targets b !! c)).
Proof.
  intros (es & Htr & Hes)%request_lease_events w2 may_reap.
  assert (∀ h target, h ∈ escalation_candidates cid prio (w_wall w2) (w_reg w2) →
    has_reaper b = true → armed b h target →
    may_reap h ∧ reap_targets b !! consumer_id h = Some target) as Hmay.
  { intros h target Hh Hr [Ho%bool_decide_eq_true Ht]. split; [|done]. split; [done|].
    unfold escalation_candidates, stale_holders in Hh.
    rewrite list_elem_of_filter, sort_by_elem_of, !list_elem_of_filter in Hh. tauto. }
  rewrite Forall_forall in Hes. eexists. split; [exact Htr|].
  assert (∀ e, e ∈ es ++ match res with Ok (Granted _) => [EvGrant cid amount] | _ => [] end →
    e ∈ es ∨ e = EvGrant cid amount) as Hin.
  { intros e [?|He]%elem_of_app; [by left|]. destruct res as [[g|d]|x];
      [right; by apply list_elem_of_singleton|by apply elem_of_nil in He..]. }
  split.
  - intros h ns sel t el [He|]%Hin; [|done].
    destruct (Hes _ He) as (Hr & Harm & Hh). by apply Hmay.
  - intros c [He|]%Hin; [|done]. destruct (Hes _ He) as (Hr & h & target & Harm & <- & Hh).
    destruct (Hmay h target Hh Hr Harm) as [? ->]. exists h. by split_and!.
Qed.

(** C9: the grant lock is held for a bounded time (R3-AC5, self.ai#80).  Time
    spent waiting for the lock counts against the one budget, so once the lock
    is acquired the call is over by the later of that moment and the deadline
    [GRANT_TOTAL_TIMEOUT_SECONDS] after the call began, however many holders are
    asked and however they hang, provided the reaps it makes come back within
    the timeouts they are given. *)
Theorem grant_decision_is_bounded b lw cid amount prio rt tr w res w' :
  request_lease b lw cid amount prio rt tr w = (res, w') →
  let acquired_at := w_mono w + Z.max 0 (lw_elapsed lw) in
  acquired_at ≤ w_mono w' ∧
  ∃ es, w_trace w' = w_trace w ++ es ∧
    (Forall in_time es →
     w_mono w' ≤ Z.max acquired_at (w_mono w + Z.max 0 GRANT_TOTAL_TIMEOUT_SECONDS)).
Proof.
  rewrite run_request_lease. intros Hrun acquired_at.
  destruct (locked_fields lw w) as [Hm Ht]. fold acquired_at in Hm.
  rewrite <- Hm, <- Ht. fold (budget_deadline GRANT_TOTAL_TIMEOUT_SECONDS w).
  destruct (decide_lease_run b cid amount prio (default GRANT_RELEASE_TIMEOUT_SECONDS rt)
    (default (has_transport b) tr) (budget_deadline GRANT_TOTAL_TIMEOUT_SECONDS w)
    (locked lw w)) as (w1 & Hmid%midway_within & Hend).
  enough (within (budget_deadline GRANT_TOTAL_TIMEOUT_SECONDS w) (locked lw w) w') as Hw
    by exact Hw.
  transitivity w1; [done|].
  destruct Hend as [(_ & asked & freeable & Heq)|(res' & Heq & _)]; rewrite Heq in Hrun.
  - replace w' with (state_of (_commit_grant cid amount prio asked freeable) w1)
      by (unfold state_of; by rewrite Hrun).
    apply commit_grant_within.
  - by injection Hrun as _ <-.
Qed.

(** ** One release request *)

(** The registry a release request meets its answer in: the holder's row has gone
    through [release_requested] to [releasing], and the peers of the await have
    run. *)
Definition at_answer (cid : string) (step : AwaitStep) w : World :=
  foldl run_peer
    (w <| w_reg := (set_lease_state true (w_wall w) cid RELEASING
                     (set_lease_state true (w_wall w) cid RELEASE_REQUESTED (w_reg w)).2).2 |>)
    (aw_peers step).

(** The answer that counts: the holder's if it came in time and the call did not
    fail, and a timeout otherwise. *)
Definition effective_answer (timeout : Z) (step : AwaitStep) : ReleaseResponse :=
  if decide (timeout ≤ 0 ∨ timeout < aw_elapsed step) then timeout_response
  else match aw_release step with Replies r => r | Fails => timeout_response end.

Lemma run_request_release cid amount timeout w step rest :
  w_commits w = [] → w_script w = step :: rest →
  ∃ w2, request_release true cid amount timeout w =
      _resolve_response cid (effective_answer timeout step) w2 ∧
    w_reg w2 = w_reg (at_answer cid step w) ∧ w_wall w2 = w_wall (at_answer cid step w) ∧
    w_commits w2 = [] ∧ w_trace w2 = w_trace w ++ [EvRelease cid amount timeout].
Proof.
  intros Hc Hs. unfold request_release. cbn [negb].
  rewrite !run_writes_bind. unfold after_commit, commit_ok. simpl. rewrite !Hc. simpl.
  unfold emit. rewrite run_modify. simpl. unfold await_release, effective_answer.
  rewrite run_bind, run_bind. unfold next_await. simpl. rewrite Hs. simpl.
  set (w1 := mkWorld _ _ _ _ _ _ _).
  destruct (foldl_run_peer_cong (aw_peers step) w1
    (w <| w_reg := (set_lease_state true (w_wall w) cid RELEASING
       (set_lease_state true (w_wall w) cid RELEASE_REQUESTED (w_reg w)).2).2 |>))
    as [Hreg Hwall]; [done..|].
  destruct (foldl_run_peer_fields (aw_peers step) w1) as (_ & Htr & Hcm & _).
  assert (∀ el, let w2 := state_of (suspend step el) w1 in
    w_reg w2 = w_reg (at_answer cid step w) ∧ w_wall w2 = w_wall (at_answer cid step w) ∧
    w_commits w2 = [] ∧ w_trace w2 = w_trace w ++ [EvRelease cid amount timeout]) as Hsus
    by (intros el; simpl; rewrite Hreg, Hwall, Htr, Hcm; done).
  case_decide; [exists (state_of (suspend step timeout) w1)|
    exists (state_of (suspend step (aw_elapsed step)) w1)]; (split; [|apply Hsus]);
    rewrite run_bind; [done|]. by destruct (aw_release step).
Qed.

(** A release request settles (R2).  It leaves the holder's row in [steady]
    or, when nothing usable came back, in [stale], never in the intermediate
    states it went through.  It answers [confirmed] exactly when the holder
    confirmed in time with a measured figure, and then, and only then, the hold
    changes, to that figure, and the reservation is retired; a denial, a
    timeout, a failed call and a confirmation with no figure leave what the
    registry believes about the hold as they found it.  Nothing happens to
    anyone else's row. *)
Theorem request_release_settles cid amount timeout w step rest :
  w_commits w = [] → w_script w = step :: rest →
  let w1 := at_answer cid step w in
  let resp := effective_answer timeout step in
  let run := request_release true cid amount timeout w in
  ∃ o, run.1 = Ok o ∧
    w_trace run.2 = w_trace w ++ [EvRelease cid amount timeout] ∧
    (o = CONFIRMED ↔ outcome resp = CONFIRMED ∧ is_Some (new_held_bytes resp)) ∧
    (o = DENIED ↔ outcome resp = DENIED) ∧
    (∀ c, c ≠ cid → find_row c (w_reg run.2) = find_row c (w_reg w1)) ∧
    ∀ r, find_row cid (w_reg w1) = Some r →
      ∃ r', find_row cid (w_reg run.2) = Some r' ∧
        lease_state r' = (if decide (o = TIMEOUT) then STALE else STEADY) ∧
        (if decide (o = CONFIRMED)
         then new_held_bytes resp = Some (held_bytes r') ∧ reserved_bytes r' = None
         else held_bytes r' = held_bytes r ∧ reserved_bytes r' = reserved_bytes r).
Proof.
  intros Hc Hs w1 resp run. subst run.
  destruct (run_request_release cid amount timeout w step rest Hc Hs)
    as (w2 & -> & Hreg & Hwall & Hcm & Htr). fold w1 in Hreg, Hwall. fold resp.
  unfold _resolve_response. rewrite run_modify.
  destruct (outcome resp) eqn:Ho; [destruct (new_held_bytes resp) as [held|] eqn:Hh|..];
    rewrite run_writes_bind; unfold commit_ok, after_commit; simpl; rewrite !Hcm; simpl;
    rewrite Hreg; eexists; (split; [done|]);
    unfold record_confirmed_release, set_lease_state, mark_stale;
    rewrite !write_row_table;
    (split_and!; [done|split; naive_solver|split; naive_solver|..]);
    try (intros c Hne; by rewrite find_update_row_ne by auto with s2db);
    intros r Hr; (eexists; split;
      [rewrite find_update_row_eq, Hr by auto with s2db; done|]); done.
Qed.

(** Without a release transport nothing is asked and nothing is written. *)
Lemma request_release_no_transport cid amount timeout w :
  request_release false cid amount timeout w = (Raise (NoTransport cid), w).
Proof. done. Qed.

(** ** One force-reap *)

Lemma run_await_reap holder ns sel t w step rest :
  w_script w = step :: rest →
  ∃ w2, await_reap holder ns sel t w = (Ok (aw_reap step), w2) ∧
    w_reg w2 = w_reg (foldl run_peer w (aw_peers step)) ∧
    w_wall w2 = w_wall (foldl run_peer w (aw_peers step)) ∧ w_commits w2 = w_commits w.
Proof.
  intros Hs. unfold await_reap. rewrite run_bind. unfold next_await. rewrite Hs.
  unfold emit, suspend. rewrite !run_modify. eexists. split; [done|]. simpl.
  match goal with |- context [foldl run_peer ?x _] =>
    destruct (foldl_run_peer_cong (aw_peers step) x w) as [-> ->]; [done..|];
    destruct (foldl_run_peer_fields (aw_peers step) x) as (_ & _ & -> & _) end.
  done.
Qed.

(** A reap clears what it can prove (R5-AC5).  Only a confirmed deletion
    clears the holder's row, and it clears no other; a reap that failed for
    whatever reason writes nothing, and is reported as having released nothing,
    so it can never be what a grant is backed by. *)
Theorem reap_clears_only_on_confirmation b holder requested rt dl target w step rest :
  w_commits w = [] → w_script w = step :: rest →
  let w1 := foldl run_peer w (aw_peers step) in
  let run := reap_one b holder requested rt dl target w in
  ∃ entry, run.1 = Ok entry ∧ asked_consumer_id entry = consumer_id holder ∧
    (∀ c, c ≠ consumer_id holder → find_row c (w_reg run.2) = find_row c (w_reg w1)) ∧
    match reap_status (aw_reap step) with
    | REAP_CONFIRMED =>
        asked_outcome entry = HOLDER_OUTCOME_REAPED ∧
        actually_released entry =
          Z.max 0 (held_or (find_row (consumer_id holder) (w_reg w)) (held_bytes holder)) ∧
        ∀ r, find_row (consumer_id holder) (w_reg w1) = Some r →
          ∃ r', find_row (consumer_id holder) (w_reg run.2) = Some r' ∧
            _effective_held r' (w_wall run.2) = 0
    | REAP_FAILED =>
        asked_outcome entry = HOLDER_OUTCOME_REAP_FAILED ∧ actually_released entry = 0 ∧
        w_reg run.2 = w_reg w1
    end.
Proof.
  intros Hc Hs w1 run. subst run. unfold reap_one. rewrite run_reads, run_gets, run_bind.
  destruct (run_await_reap holder target.1 target.2 (budget_bound dl rt w) w step rest Hs)
    as (w2 & -> & Hreg & Hwall & Hcm). fold w1 in Hreg, Hwall. rewrite Hc in Hcm.
  destruct (reap_status (aw_reap step)).
  - rewrite run_writes_bind. unfold commit_ok, after_commit. rewrite Hcm.
    unfold emit. rewrite run_modify, run_reads. unfold record_reaped_release, get.
    simpl. rewrite write_row_table, Hreg. eexists. split_and!; try done; simpl.
    + intros c Hne. by rewrite find_update_row_ne by auto with s2db.
    + rewrite find_update_row_eq by auto with s2db.
      destruct (find_row (consumer_id holder) (w_reg w1)); simpl; f_equal; lia.
    + intros r Hr. rewrite find_update_row_eq, Hr by auto with s2db. by eexists.
  - simpl. eexists. split_and!; try done. intros. by rewrite Hreg.
Qed.

(** ** Exclusive leases *)

(** What the clearing loops may emit: requests and reaps, never a grant or a
    change of posture. *)
Definition clearing_event (e : Event) : Prop :=
  match e with EvGrant _ _ | EvExclusive _ _ => False | _ => True end.

(** *** Postures *)

(** [cid] is registered exclusive. *)
Definition exclusive (cid : string) (db : registry) : Prop :=
  ∃ r, find_row cid db = Some r ∧ lease_mode r = EXCLUSIVE.

(** A peer of an await to come registers or reconciles [cid], which makes it shared. *)
Definition resets (cid : string) (p : PeerOp) : Prop :=
  match p with
  | PeerRegister form => form_consumer_id form = cid
  | PeerReconcile c => c = cid
  | _ => False
  end.
Definition peer_resets (cid : string) (script : list AwaitStep) : Prop :=
  ∃ step dt ok p, step ∈ script ∧ (dt, ok, p) ∈ aw_peers step ∧ resets cid p.

(** From [w] to [w'] nobody came to be exclusive, and whoever no longer is was reaped
    or reset by a peer. *)
Definition postures w w' : Prop :=
  w_script w' `suffix_of` w_script w ∧
  ∃ es, w_trace w' = w_trace w ++ es ∧ Forall clearing_event es ∧
    ∀ c, (exclusive c (w_reg w') → exclusive c (w_reg w)) ∧
      (exclusive c (w_reg w) →
         exclusive c (w_reg w') ∨ EvReaped c ∈ es ∨ peer_resets c (w_script w)).

Lemma peer_resets_suffix c s s' : s' `suffix_of` s → peer_resets c s' → peer_resets c s.
Proof.
  intros [k ->] (step & dt & ok & p & Hs & Hp). exists step, dt, ok, p. split; [|done].
  apply elem_of_app. by right.
Qed.

#[local] Instance postures_preorder : PreOrder postures.
Proof.
  split.
  - intros w. split; [done|]. exists []. rewrite app_nil_r. split_and!; [done..|]. naive_solver.
  - intros w1 w2 w3 (S1 & es1 & T1 & F1 & P1) (S2 & es2 & T2 & F2 & P2).
    split; [by trans (w_script w2)|]. exists (es1 ++ es2).
    split_and!; [by rewrite T2, T1, app_assoc|by apply Forall_app|].
    intros c. destruct (P1 c) as [A1 B1], (P2 c) as [A2 B2]. split; [auto|]. intros Hc.
    rewrite elem_of_app. destruct (B1 Hc) as [Hc2|[?|?]]; [|tauto..].
    destruct (B2 Hc2) as [?|[?|?]]; [tauto..|]. right. right. by eapply peer_resets_suffix.
Qed.

(** A step with the registry's postures, the script and the trace as they were. *)
Lemma postures_same w w' :
  w_script w' `suffix_of` w_script w → w_trace w' = w_trace w →
  (∀ c, exclusive c (w_reg w') ↔ exclusive c (w_reg w)) → postures w w'.
Proof.
  intros Hs Ht He. split; [done|]. exists []. rewrite app_nil_r. split_and!; [done..|].
  intros c. rewrite He. tauto.
Qed.

(** The writes that take a consumer's posture away, and those that give it. *)
Definition gives (cid : string) (op : RegOp) : Prop := op = OpSetExclusive cid true.
Definition takes (cid : string) (op : RegOp) : Prop :=
  op_target op = cid ∧
  match op with OpRegister _ | OpReconcile _ | OpReapedRelease _ | OpSetExclusive _ _ => True | _ => False end.

Lemma exclusive_op c ok now op db :
  (exclusive c (apply_op ok now op db) → exclusive c db ∨ gives c op) ∧
  (exclusive c db → exclusive c (apply_op ok now op db) ∨ takes c op).
Proof.
  unfold exclusive, takes. destruct (apply_op_shape ok now op db) as [->|[[_ ->]|(form & _ & -> & Hf & ->)]].
  - tauto.
  - rewrite find_update_row by auto with s2db. case_decide as Hc; [|tauto]. subst c.
    destruct (find_row (op_target op) db) as [r|]; simpl; [|naive_solver].
    split; intros (x & [= <-] & Hx).
    + destruct op as [| | | | | |cid b| | | |]; simpl in *; try (left; by exists r); try done.
      destruct b; [by right|done].
    + destruct op; simpl in *; first [by right|by left; eexists; split; [reflexivity|]].
  - rewrite !find_row_app. simpl. split.
    + destruct (find_row c db); [tauto|]. case_decide; [|by intros (? & ? & ?)]. by intros (? & [= <-] & ?).
    + intros (r & Hr & Hx). left. exists r. by rewrite Hr.
Qed.

(** A write of the registry that is neither. *)
Lemma exclusive_kept c ok now op db :
  ¬ gives c op → ¬ takes c op → exclusive c (apply_op ok now op db) ↔ exclusive c db.
Proof. pose proof (exclusive_op c ok now op db). tauto. Qed.

Lemma postures_writes {A} (f : bool → Z → registry → A * registry) (op : RegOp) w :
  (∀ ok now db, (f ok now db).2 = apply_op ok now op db) →
  (∀ c, ¬ gives c op ∧ ¬ takes c op) →
  preserves_at postures (writes f) w.
Proof.
  intros Hf Hop. unfold preserves_at, state_of. rewrite run_writes. simpl.
  destruct (after_commit_fields w) as (_ & _ & _ & Hs & _ & Ht).
  apply postures_same; simpl; [by rewrite Hs|done|]. intros c. rewrite Hf. by apply exclusive_kept; apply Hop.
Qed.

Lemma postures_peers peers w :
  w_script (foldl run_peer w peers) = w_script w ∧ w_trace (foldl run_peer w peers) = w_trace w ∧
  ∀ c, (exclusive c (w_reg (foldl run_peer w peers)) → exclusive c (w_reg w)) ∧
    (exclusive c (w_reg w) → exclusive c (w_reg (foldl run_peer w peers)) ∨
       ∃ dt ok p, (dt, ok, p) ∈ peers ∧ resets c p).
Proof.
  revert w. induction peers as [|[[dt ok] p] peers IH]; intros w; simpl; [naive_solver|].
  match goal with |- context [foldl run_peer ?w0 peers] => destruct (IH w0) as (Hs & Ht & Hc) end.
  split_and!; [done..|]. intros c. destruct (Hc c) as [H1 H2].
  destruct (exclusive_op c ok (w_wall w + Z.max 0 dt) (peer_op p) (w_reg w)) as [H3 H4]. split.
  - intros [?|Hg]%H1%H3; [done|]. by destruct p.
  - intros [Hx|[Ht' Hp]]%H4.
    + destruct (H2 Hx) as [?|(dt' & ok' & p' & Hin & Hr)]; [by left|]. right.
      exists dt', ok', p'. split; [by right|done].
    + right. exists dt, ok, p. split; [left|]. by destruct p.
Qed.

(** The next await and its peers. *)
Lemma postures_await {A} (tail : AwaitStep → broker A) w :
  (∀ step w1, w_trace w1 = w_trace w → w_reg w1 = w_reg w →
     w_script w1 `suffix_of` w_script w →
     (step ∈ w_script w ∨ aw_peers step = []) → postures w (state_of (tail step) w1)) →
  preserves_at postures (next_await ≫= tail) w.
Proof.
  intros Hk. unfold preserves_at, next_await, state_of. rewrite run_bind.
  destruct (w_script w) as [|step rest] eqn:Hs.
  - apply Hk; [done|done|by rewrite Hs|by right].
  - apply (Hk step (w <| w_script := rest |>)); simpl; [done|done|by exists [step]|]. left. by left.
Qed.

Lemma postures_suspend step elapsed w w1 :
  w_trace w1 = w_trace w → w_reg w1 = w_reg w → w_script w1 `suffix_of` w_script w →
  (step ∈ w_script w ∨ aw_peers step = []) → postures w (state_of (suspend step elapsed) w1).
Proof.
  intros Ht Hr Hs Hin. unfold state_of, suspend, modify. simpl.
  destruct (postures_peers (aw_peers step) w1) as (Hs1 & Ht1 & Hc).
  split; simpl; [by rewrite Hs1|]. exists []. rewrite app_nil_r, Ht1. split_and!; [done..|].
  intros c. destruct (Hc c) as [H1 H2]. rewrite Hr in H1, H2. split; [done|]. intros Hx.
  destruct (H2 Hx) as [?|(dt & ok & p & Hp & Hrs)]; [by left|]. right. right.
  destruct Hin as [Hin|Hnil]; [by exists step, dt, ok, p|]. rewrite Hnil in Hp. by apply elem_of_nil in Hp.
Qed.

Lemma postures_await_release timeout w : preserves_at postures (await_release timeout) w.
Proof.
  apply postures_await. intros step w1 Ht Hr Hs Hin. case_decide; by apply (postures_suspend step _ w w1).
Qed.

Lemma postures_event e w : clearing_event e → postures w (w <| w_trace := w_trace w ++ [e] |>).
Proof.
  intros He. split; [done|]. exists [e]. split_and!; [done|by apply Forall_singleton|]. simpl. tauto.
Qed.

Lemma postures_resolve cid resp w : preserves_at postures (_resolve_response cid resp) w.
Proof.
  unfold _resolve_response. apply at_bind; [apply _|by apply at_modify, postures_same|]. intros _ w1 _.
  destruct (outcome resp); [destruct (new_held_bytes resp) as [held|]|..];
    (apply at_bind; [apply _| |intros; apply at_ret, _]).
  - by apply (postures_writes _ (OpConfirmedRelease cid held)); [|intros c; split; [|intros [_ []]]].
  - by apply (postures_writes _ (OpMarkStale cid)); [|intros c; split; [|intros [_ []]]].
  - by apply (postures_writes _ (OpSetLeaseState cid STEADY)); [|intros c; split; [|intros [_ []]]].
  - by apply (postures_writes _ (OpMarkStale cid)); [|intros c; split; [|intros [_ []]]].
Qed.

Lemma postures_request tr cid amount timeout w :
  preserves_at postures (request_release tr cid amount timeout) w.
Proof.
  unfold request_release. destruct tr; simpl; [|apply at_raise, _].
  apply at_bind; [apply _| |intros _ w1 _].
  { by apply (postures_writes _ (OpSetLeaseState cid RELEASE_REQUESTED)); [|intros c; split; [|intros [_ []]]]. }
  apply at_bind; [apply _| |intros _ w2 _].
  { by apply (postures_writes _ (OpSetLeaseState cid RELEASING)); [|intros c; split; [|intros [_ []]]]. }
  apply at_bind; [apply _|by apply at_modify, postures_event|intros _ w3 _].
  apply at_bind; [apply _|apply postures_await_release|intros answer w4 _]. apply postures_resolve.
Qed.

Lemma postures_reap h ns sel timeout w : preserves_at postures (await_reap h ns sel timeout) w.
Proof.
  apply postures_await. intros step w1 Ht Hr Hs Hin.
  unfold state_of. rewrite run_bind. unfold emit, modify at 1. cbn [fst snd].
  set (w2 := w1 <| w_trace := _ |>).
  transitivity (w <| w_trace := w_trace w ++ [EvReap h ns sel timeout (Z.max 0 (aw_elapsed step))] |>);
    [by apply postures_event|].
  apply (postures_suspend step (aw_elapsed step) (w <| w_trace := _ |>) w2); subst w2; simpl; by rewrite ?Ht.
Qed.

Lemma postures_reap_one b holder requested rt dl target w :
  preserves_at postures (reap_one b holder requested rt dl target) w.
Proof.
  unfold reap_one. apply at_reads, at_gets. apply at_bind; [apply _|apply postures_reap|].
  intros reap w1 _. destruct (reap_status reap); [|apply at_ret, _].
  unfold preserves_at, state_of. rewrite run_writes_bind.
  set (w2 := (after_commit w1) <| w_reg := _ |>).
  destruct (after_commit_fields w1) as (_ & _ & _ & Hs & _ & Ht).
  split; [by subst w2; simpl; rewrite Hs|]. exists [EvReaped (consumer_id holder)]. subst w2. simpl.
  rewrite Ht. split_and!; [done|by apply Forall_singleton|]. intros c.
  destruct (exclusive_op c (commit_ok w1) (w_wall w1) (OpReapedRelease (consumer_id holder)) (w_reg w1)) as [H1 H2].
  simpl in H1, H2. split; [intros [?|?]%H1; done|]. intros [?|[<- _]]%H2; [by left|]. right. left. left.
Qed.

Lemma clear_loop_postures tr rt dl hs asked w :
  preserves_at postures (clear_loop tr rt dl hs asked) w.
Proof. apply at_clear_loop; [apply _|]. intros. apply postures_request. Qed.

Lemma clear_reap_loop_postures b rt dl hs asked w :
  preserves_at postures (clear_reap_loop b rt dl hs asked) w.
Proof. apply at_clear_reap_loop; [apply _|]. intros. apply postures_reap_one. Qed.

(** Nobody but [cid] measurably holds VRAM. *)
Lemma nobody_else_holds cid now db :
  filter (λ h, held_bytes h > 0)
    (others cid (eligible_holders now db ++ stale_holders now db)) = [] →
  ∀ h, h ∈ db → consumer_id h ≠ cid → held_bytes h ≤ 0.
Proof.
  intros Hnil h Hh Hne. destruct (decide (held_bytes h > 0)) as [Hpos|]; [|lia].
  assert (h ∈ ([] : list VramConsumer)) as []%elem_of_nil. rewrite <- Hnil.
  unfold others, eligible_holders, stale_holders.
  rewrite !list_elem_of_filter, elem_of_app, !sort_by_elem_of, !list_elem_of_filter.
  destruct (decide (_effective_state h now = STALE)); tauto.
Qed.

Lemma run_set_exclusive cid exclusive w res w' :
  set_exclusive_m cid exclusive w = (res, w') →
  (res = Ok true ∧ w_wall w' = w_wall w ∧
     w_trace w' = w_trace w ++ [EvExclusive cid exclusive] ∧
     set_exclusive true (w_wall w) cid exclusive (w_reg w) = (Ok true, w_reg w')) ∨
  (res ≠ Ok true ∧ w_trace w' = w_trace w ∧ w_reg w' = w_reg w).
Proof.
  unfold set_exclusive_m. rewrite run_writes_bind.
  destruct (after_commit_fields w) as (_ & Hwall & _ & _ & _ & Htr).
  destruct (set_exclusive_table (commit_ok w) (w_wall w) cid exclusive (w_reg w)) as [Hkept|[Hok _]].
  2: { rewrite Hok. simpl. intros [= <- <-]. left. rewrite <- Hwall at 1. rewrite <- Htr. simpl.
       split_and!; try done. unfold set_exclusive in Hok |- *. destruct (find_row cid (w_reg w)); [|done].
       destruct exclusive; [destruct (existsb _ _); [done|]|]; by destruct (commit_ok w). }
  destruct (set_exclusive (commit_ok w) (w_wall w) cid exclusive (w_reg w))
    as [[[]|[]] db] eqn:Hse; simpl in *; intros [= <- <-]; simpl;
    [left|right; rewrite Htr; done..].
  rewrite Htr. split_and!; try done. rewrite <- Hse.
  unfold set_exclusive in Hse |- *. destruct (find_row cid (w_reg w)); [|done].
  destruct exclusive; [destruct (existsb _ _); [done|]|]; by destruct (commit_ok w).
Qed.

Lemma exclusive_marked now cid db db' :
  set_exclusive true now cid true db = (Ok true, db') →
  ∀ c, (exclusive c db' → exclusive c db ∨ c = cid) ∧ (exclusive c db → exclusive c db').
Proof.
  intros Hset c. pose proof (exclusive_op c true now (OpSetExclusive cid true) db) as [H1 H2].
  simpl in H1, H2. rewrite Hset in H1, H2. simpl in H1, H2. split.
  - intros [?|Hg]%H1; [by left|]. right. by injection Hg.
  - intros Hx. destruct (H2 Hx) as [?|[Hc _]]; [done|]. simpl in Hc. subst c.
    apply set_exclusive_marks in Hset as (r & ? & ?). by exists r.
Qed.

Lemma locked_script lw w : w_script (locked lw w) = w_script w.
Proof.
  unfold locked, state_of, acquire_grant_lock, modify. simpl. revert w.
  induction (lw_writes lw) as [|[[dt ok] op] l IH]; intros w; [done|]. simpl. by rewrite IH.
Qed.

(** How an exclusive acquire can end: [w1] is the world it has cleared the card in. *)
Lemma acquire_exclusive_outcome b lw cid rt tr w res w' :
  acquire_exclusive b lw cid rt tr w = (res, w') →
  ∃ w1, postures (locked lw w) w1 ∧
  ((∃ x, res = Ok x ∧ acquired x = true ∧ w_wall w' = w_wall w1 ∧
      w_trace w' = w_trace w1 ++ [EvExclusive cid true] ∧
      (∀ h, h ∈ w_reg w1 → consumer_id h ≠ cid → held_bytes h ≤ 0) ∧
      set_exclusive true (w_wall w1) cid true (w_reg w1) = (Ok true, w_reg w')) ∨
   ((∀ x, res = Ok x → acquired x = false) ∧ w_trace w' = w_trace w1 ∧ w_reg w' = w_reg w1)).
Proof.
  unfold acquire_exclusive. rewrite run_gets. change ((acquire_grant_lock lw ≫= ?k) w)
    with (k tt (locked lw w)). cbv beta.
  generalize (locked lw w) (budget_deadline GRANT_TOTAL_TIMEOUT_SECONDS w)
    (default (has_transport b) tr) (default GRANT_RELEASE_TIMEOUT_SECONDS rt). clear w.
  intros w dl tr' rt'. unfold acquire_exclusive_locked. rewrite run_reads.
  match goal with |- _ → ?G => assert (∀ res' wx, (res', wx) = (res, w') →
    postures w wx → (∀ x, res' = Ok x → acquired x = false) → G) as Hno end.
  { intros res' wx [= -> ->] Hp Hx. exists w'. split; [done|]. by right. }
  unfold get. destruct (find_row cid (w_reg w)); [|intros Hr; eapply Hno; [exact Hr|done|done]].
  rewrite run_reads. destruct (blocked_by cid (w_wall w) (w_reg w));
    [intros Hr; eapply Hno; [exact Hr|done|by intros ? [= <-]]|].
  rewrite run_reads, run_bind.
  pose proof (clear_loop_postures tr' rt' dl (others cid (eligible_holders (w_wall w) (w_reg w)))
    [] w) as H1. unfold preserves_at, state_of in H1.
  destruct (clear_loop _ _ _ _ _ w) as [[asked|e] w1]; simpl in H1;
    [|intros Hr; eapply Hno; [exact Hr|done|done]].
  rewrite run_reads, run_bind.
  match goal with |- context [clear_reap_loop b rt' dl ?hs asked w1] =>
    pose proof (clear_reap_loop_postures b rt' dl hs asked w1) as H2 end.
  unfold preserves_at, state_of in H2.
  destruct (clear_reap_loop _ _ _ _ _ w1) as [[asked'|e] w2]; simpl in H2;
    (assert (postures w w2) as H12 by by transitivity w1);
    [|intros Hr; eapply Hno; [exact Hr|done|done]].
  rewrite run_reads. case_decide as Hrem;
    [intros Hr; eapply Hno; [exact Hr|done|by intros ? [= <-]]|].
  rewrite run_bind. destruct (set_exclusive_m cid true w2) as [rs w3] eqn:Hset.
  apply run_set_exclusive in Hset as [(-> & Hwall & Htr & Hset)|(Hrs & Htr & Hreg)].
  - intros [= <- <-]. exists w2. split; [done|]. left. eexists. split_and!; try done.
    apply (nobody_else_holds cid (w_wall w2)), Hrem.
  - intros Hr. exists w2. split; [done|]. right.
    destruct rs as [[]|e]; [done|..]; injection Hr as <- <-; split_and!; try done. by intros ? [= <-].
Qed.

(** C5: exclusive access is confirmed or nothing.  A call that reports the exclusive lease
    acquired has, in the state it marked the requester in, just read that no other consumer
    measurably holds VRAM; it leaves the requester the only active exclusive holder, and
    the posture change is the last thing it does.  Any other outcome, refusals and errors
    alike, makes nobody exclusive.  In every case nothing is granted, and a consumer that
    was exclusive when the lock was taken still is, unless the call had its pod deleted or
    it registered or was reconciled meanwhile. *)
Theorem exclusive_is_confirmed_or_nothing b lw cid rt tr w res w' :
  acquire_exclusive b lw cid rt tr w = (res, w') →
  let w0 := locked lw w in
  ∃ es, Forall clearing_event es ∧
  ((∃ x now db, res = Ok x ∧ acquired x = true ∧ w_wall w' = now ∧
      w_trace w' = w_trace w ++ es ++ [EvExclusive cid true] ∧
      (∀ h, h ∈ db → consumer_id h ≠ cid → held_bytes h ≤ 0) ∧
      w_reg w' = (set_exclusive true now cid true db).2 ∧
      (∀ r, r ∈ active_exclusive now (w_reg w') → consumer_id r = cid) ∧
      (∀ c, exclusive c (w_reg w') → exclusive c (w_reg w0) ∨ c = cid)) ∨
   ((∀ x, res = Ok x → acquired x = false) ∧ w_trace w' = w_trace w ++ es ∧
    (∀ c, exclusive c (w_reg w') → exclusive c (w_reg w0)))) ∧
  (∀ c, exclusive c (w_reg w0) →
     exclusive c (w_reg w') ∨ EvReaped c ∈ es ∨ peer_resets c (w_script w)).
Proof.
  intros (w1 & (Hs & es & Ht & Hes & Hp) & Hend)%acquire_exclusive_outcome w0.
  destruct (locked_fields lw w) as [_ Hl]. rewrite Hl in Ht. rewrite locked_script in Hp.
  exists es. split; [done|].
  destruct Hend as [(x & -> & Hx & Hwall & Htr & Hheld & Hset)|(Hno & Htr & Hreg)]; split.
  - left. exists x, (w_wall w1), (w_reg w1). pose proof (exclusive_marked _ _ _ _ Hset) as Hm.
    split_and!; try done; [by rewrite Htr, Ht, app_assoc|by rewrite Hset| |].
    + intros r Hr. by apply set_exclusive_outcome in Hset; apply Hset.
    + intros c [Hc|Hc]%Hm; [left; by apply Hp|by right].
  - intros c [?|?]%Hp; [left; by eapply exclusive_marked|tauto].
  - right. split_and!; [done|by rewrite Htr|]. intros c. rewrite Hreg. apply Hp.
  - intros c. rewrite Hreg. apply Hp.
Qed.

Lemma locked_commits lw w : w_commits w = [] → w_commits (locked lw w) = [].
Proof.
  unfold locked, state_of, acquire_grant_lock, modify. simpl. revert w.
  induction (lw_writes lw) as [|[[dt ok] op] l IH]; intros w Hc; [done|]. by apply IH.
Qed.

Lemma run_release_exclusive lw cid w :
  w_commits w = [] →
  let w0 := locked lw w in
  (release_exclusive lw cid w).1 =
    Ok match active_exclusive_holder (w_wall w0) (w_reg w0) with
       | Some h => bool_decide (consumer_id h = cid)
       | None => false
       end ∧
  w_reg (release_exclusive lw cid w).2 =
    update_row cid (set_mode_row (w_wall w0) SHARED) (w_reg w0).
Proof.
  intros Hc w0. unfold release_exclusive.
  change ((acquire_grant_lock lw ≫= ?k) w) with (k tt (locked lw w)). cbv beta. fold w0.
  assert (w_commits w0 = []) as Hc0 by by apply locked_commits.
  clearbody w0. rewrite run_reads. unfold set_exclusive_m. rewrite !run_bind, run_writes.
  unfold commit_ok, after_commit. rewrite !Hc0. unfold set_exclusive.
  destruct (find_row cid (w_reg w0)) eqn:Hr; simpl; (split; [done|]); [done|].
  by rewrite update_row_absent.
Qed.

Lemma active_exclusive_released now now' cid db r :
  now ≤ now' → r ∈ active_exclusive now' (update_row cid (set_mode_row now SHARED) db) →
  r ∈ active_exclusive now db ∧ consumer_id r ≠ cid.
Proof.
  intros Hle Hr. apply (active_exclusive_earlier now now') in Hr; [|done].
  rewrite elem_of_active_exclusive in Hr. destruct Hr as (Hr & Hm & Hs).
  unfold update_row, update_where in Hr. apply list_elem_of_fmap in Hr as (x & -> & Hx).
  case_bool_decide as Hk; [done|]. by rewrite elem_of_active_exclusive.
Qed.

(** Releasing the exclusive lease returns the broker to normal at once
    (R1-AC3).  Releasing reports whether the consumer was the active exclusive
    holder, changes nobody's hold, and, when it was and was the only one, leaves
    no active exclusive holder, so from then on no request is blocked by one. *)
Theorem release_exclusive_unblocks lw cid w :
  w_commits w = [] →
  let w0 := locked lw w in
  at_most_one_exclusive (w_wall w0) (w_reg w0) →
  let run := release_exclusive lw cid w in
  ∃ was, run.1 = Ok was ∧
    (was = true ↔ ∃ h, h ∈ active_exclusive (w_wall w0) (w_reg w0) ∧ consumer_id h = cid) ∧
    held_bytes <$> w_reg run.2 = held_bytes <$> w_reg w0 ∧
    (was = true → ∀ now c, w_wall w0 ≤ now →
       active_exclusive now (w_reg run.2) = [] ∧ blocked_by c now (w_reg run.2) = None).
Proof.
  intros Hc w0 Hone run. destruct (run_release_exclusive lw cid w Hc) as [Hres Hreg].
  fold run w0 in Hres, Hreg. eexists. split; [done|]. rewrite Hreg.
  assert (∀ h, active_exclusive_holder (w_wall w0) (w_reg w0) = Some h →
    h ∈ active_exclusive (w_wall w0) (w_reg w0)) as Hin by apply active_exclusive_holder_Some.
  split_and!.
  - destruct (active_exclusive_holder _ _) as [h|] eqn:Hh.
    + rewrite bool_decide_eq_true. split; [eauto|].
      intros (h' & Hh' & <-). apply Hone; eauto.
    + apply active_exclusive_holder_None in Hh. rewrite Hh. split; [done|].
      by intros (h & ?%elem_of_nil & _).
  - by apply fmap_update_row_same.
  - destruct (active_exclusive_holder _ _) as [h|] eqn:Hh; [|done].
    intros <-%bool_decide_eq_true now c Hle.
    assert (active_exclusive now (update_row (consumer_id h)
      (set_mode_row (w_wall w0) SHARED) (w_reg w0)) = []) as Hnil.
    { apply elem_of_nil_inv. intros r [Hr Hne]%active_exclusive_released; [|done].
      apply Hne, Hone; eauto. }
    split; [done|]. unfold blocked_by.
    by apply active_exclusive_holder_None in Hnil as ->.
Qed.

End contract.

(** ** Concrete runs *)

Module Runs.
Import Sample.
#[export] Instance bcfg : BrokerConfig := default_broker_config.

Definition world (db : registry) (script : list AwaitStep) : World :=
  mkWorld db 1000 0 [] script ∅ [].

Definition no_wait : LockWait := mkLockWait 0 [].

Definition confirms (held : Z) : AwaitStep :=
  mkAwaitStep 3 [] (Replies (mkReleaseResponse CONFIRMED (Some held) None))
    (reap_failed UnexpectedError 0).

Definition reaped (after : Z) (peers : list (Z * bool * PeerOp)) : AwaitStep :=
  mkAwaitStep after peers Fails
    (reap_confirmed 1 (ConfirmedDeleted 1)).

Definition reaper_broker : Broker :=
  mkBroker true true {[ "self.speak" := ("selfai", "app=speak");
                        "self.llamolotl" := ("selfai", "app=llamolotl") ]}.

Definition no_reaper : Broker := mkBroker true false ∅.

(** A consumer that was heard from once and has been silent since. *)
Definition silent_row (cid : string) (held prio : Z) : VramConsumer :=
  (row cid 24 held prio 0) <| last_observed_at := Some 0 |>.

(** [self.sketch] asks for 14 of which 11 are free: [self.speak] gives up 5. *)
Definition w_coop : World := world db [confirms 0].
Abbreviation coop :=
  (request_lease no_reaper no_wait "self.sketch" 14 20 None None w_coop).

(** The same request when [self.speak] is silent and can be reaped. *)
Definition w_reap : World :=
  world [llamolotl; silent_row "self.speak" 5 5; sketch] [reaped 4 []].
Abbreviation by_reap :=
  (request_lease reaper_broker no_wait "self.sketch" 14 6 None None w_reap).

Definition grant_in (o : result BrokerExn LeaseResult * World) : LeaseGranted :=
  match o.1 with Ok (Granted g) => g | _ => mkLeaseGranted "" 0 0 0 [] end.

(** [self.sketch] alone on the card, holding nothing. *)
Definition w_excl : World :=
  world [llamolotl; row "self.speak" 24 0 5 1000; sketch] [confirms 0].
Abbreviation excl :=
  (acquire_exclusive no_reaper no_wait "self.sketch" None None w_excl).

(** [self.sketch] holds the exclusive lease. *)
Definition w_held : World := world [llamolotl; sketch <| lease_mode := EXCLUSIVE |>] [].
End Runs.

Import Sample Runs.

Lemma grant_is_backed_witness :
  coop = (Ok (Granted (grant_in coop)), coop.2) ∧
  granted_bytes (grant_in coop) = 14 ∧ w_trace coop.2 =
    [EvRelease "self.speak" 3 30; EvGrant "self.sketch" 14].
Proof.
  assert (coop = (Ok (Granted (grant_in coop)), coop.2)) as Hrun by (vm_compute; reflexivity).
  split; [exact Hrun|].
  destruct (grant_is_backed no_reaper no_wait "self.sketch" 14 20 None None w_coop
    (grant_in coop) coop.2 Hrun) as (_ & Ham & _).
  split; [exact Ham|vm_compute; reflexivity].
Defined.

Lemma denial_makes_no_grant_witness :
  let o := request_lease no_reaper no_wait "self.sketch" 40 20 None None w_coop in
  (∀ g, o.1 ≠ Ok (Granted g)) ∧
  ∃ es, w_trace o.2 = w_trace w_coop ++ es ∧ Forall (λ e, is_grant e = false) es.
Proof.
  split; [by vm_compute|].
  apply (denial_makes_no_grant no_reaper no_wait "self.sketch" 40 20 None None w_coop
    (request_lease no_reaper no_wait "self.sketch" 40 20 None None w_coop).1);
    [apply surjective_pairing|by vm_compute].
Defined.

Lemma release_requests_are_gated_witness :
  EvRelease "self.speak" 3 30 ∈ w_trace coop.2 ∧
  ∃ es, w_trace coop.2 = w_trace w_coop ++ es ∧
  ∀ c x t, EvRelease c x t ∈ es → c ≠ "self.sketch" ∧
    ∃ h, h ∈ w_reg (locked no_wait w_coop) ∧ consumer_id h = c ∧ priority h < 20 ∧
      held_bytes h > 0 ∧ _effective_state h (w_wall (locked no_wait w_coop)) ≠ STALE.
Proof.
  split; [vm_compute; left|].
  apply (release_requests_are_gated no_reaper no_wait "self.sketch" 14 20 None None w_coop coop.1).
  apply surjective_pairing.
Defined.

Lemma reaps_are_gated_witness :
  (∃ h t el, EvReap h "selfai" "app=speak" t el ∈ w_trace by_reap.2) ∧
  ∃ es, w_trace by_reap.2 = w_trace w_reap ++ es ∧
  (∀ c, EvReaped c ∈ es → is_Some (reap_targets reaper_broker !! c)).
Proof.
  split; [vm_compute; eexists _, _, _; left|].
  destruct (reaps_are_gated reaper_broker no_wait "self.sketch" 14 6 None None w_reap
    by_reap.1 by_reap.2 (surjective_pairing by_reap)) as (es & Hes & _ & Hc).
  exists es. split; [exact Hes|]. intros c (h & _ & _ & Ht)%Hc. exact Ht.
Defined.

Lemma grant_decision_is_bounded_witness :
  w_mono by_reap.2 = 4 ∧ w_mono w_reap + Z.max 0 (lw_elapsed no_wait) ≤ w_mono by_reap.2.
Proof.
  split; [vm_compute; reflexivity|].
  apply (grant_decision_is_bounded reaper_broker no_wait "self.sketch" 14 6 None None w_reap
    by_reap.1 by_reap.2 (surjective_pairing by_reap)).
Defined.

Lemma request_release_settles_witness :
  ∃ o, (request_release true "self.speak" 3 30 w_coop).1 = Ok o ∧
    (o = CONFIRMED ↔ CONFIRMED = CONFIRMED ∧ is_Some (Some 0)).
Proof.
  destruct (request_release_settles "self.speak" 3 30 w_coop (confirms 0) [] eq_refl eq_refl)
    as (o & Ho & _ & Hc & _).
  exists o. split; [exact Ho|exact Hc].
Defined.

Lemma reap_clears_only_on_confirmation_witness :
  ∃ entry, (reap_one reaper_broker (silent_row "self.speak" 5 5) 3 30 90
      ("selfai", "app=speak") w_reap).1 = Ok entry ∧
    actually_released entry = 5.
Proof.
  destruct (reap_clears_only_on_confirmation reaper_broker (silent_row "self.speak" 5 5) 3 30 90
    ("selfai", "app=speak") w_reap (reaped 4 []) [] eq_refl eq_refl)
    as (entry & He & _ & _ & _ & Hr & _).
  exists entry. split; [exact He|exact Hr].
Defined.

Lemma exclusive_is_confirmed_or_nothing_witness :
  (∃ x, excl.1 = Ok x ∧ acquired x = true) ∧
  ∃ es, Forall clearing_event es ∧
    (w_trace excl.2 = w_trace w_excl ++ es ++ [EvExclusive "self.sketch" true] ∨
     w_trace excl.2 = w_trace w_excl ++ es).
Proof.
  split; [eexists; split; vm_compute; reflexivity|].
  destruct (exclusive_is_confirmed_or_nothing no_reaper no_wait "self.sketch" None None w_excl
    excl.1 excl.2 (surjective_pairing excl)) as (es & Hes & [(x & now & db & _ & _ & _ & Ht & _)|(_ & Ht & _)] & _);
    exists es; auto.
Defined.

Lemma release_exclusive_unblocks_witness :
  active_exclusive 1000 (w_reg w_held) ≠ [] ∧
  let run := release_exclusive no_wait "self.sketch" w_held in
  ∃ was, run.1 = Ok was ∧ (was = true → active_exclusive 2000 (w_reg run.2) = []).
Proof.
  split; [by vm_compute|].
  destruct (release_exclusive_unblocks no_wait "self.sketch" w_held eq_refl) as
    (was & Hwas & _ & _ & Hnil).
  - intros r1 r2 H1 H2. apply elem_of_active_exclusive in H1, H2.
    destruct H1 as (H1 & Hm1 & _), H2 as (H2 & Hm2 & _).
    apply elem_of_cons in H1 as [->|H1%list_elem_of_singleton]; [done|].
    apply elem_of_cons in H2 as [->|H2%list_elem_of_singleton]; [done|]. by subst.
  - exists was. split; [exact Hwas|]. intros Hw. apply (Hnil Hw 2000 ""). by vm_compute.
Defined.

(** ** Where the accounting falls short *)

(** Two grants can promise more than the card has.  A reservation is counted
    as the larger of it and the consumer's measured hold, while the amount asked
    for comes on top of that hold.  Here a consumer that measurably holds 8 of 24
    is granted 10 more, and the next request is granted 14 more, with no release
    in between: 32 is promised of a card of 24. *)
Theorem grants_can_exceed_the_card :
  let w := world [llamolotl; row "self.speak" 24 0 5 1000] [] in
  let first := request_lease no_reaper no_wait "self.llamolotl" 10 10 None None w in
  let second := request_lease no_reaper no_wait "self.speak" 14 5 None None first.2 in
  (∃ g1 g2, first.1 = Ok (Granted g1) ∧ second.1 = Ok (Granted g2) ∧
     total_measured_held (w_reg second.2) + granted_bytes g1 + granted_bytes g2 = 32) ∧
  total_capacity (w_reg second.2) = 24 ∧
  w_trace second.2 = [EvGrant "self.llamolotl" 10; EvGrant "self.speak" 14].
Proof. split; [eexists _, _; split_and!|split]; vm_compute; reflexivity. Qed.

(** The escalation does not look again before it deletes.  The stale holders
    are listed once; here [self.speak] heartbeats while the pod of the holder
    before it is being reaped, and is [steady] in the registry when its own turn
    comes, yet its pod is deleted and its hold cleared. *)
Theorem revived_holder_is_still_reaped :
  let ll := silent_row "self.llamolotl" 8 4 in
  let sp := silent_row "self.speak" 5 5 in
  let w := world [ll; sp; sketch]
    [reaped 4 [(2, true, PeerHeartbeat "self.speak" 5)]; reaped 4 []] in
  escalation_candidates "self.sketch" 20 (w_wall w) (w_reg w) = [ll; sp] ∧
  let w1 := state_of (reap_loop reaper_broker 22 30 90 [ll] []) w in
  let w2 := state_of (reap_loop reaper_broker 22 30 90 [ll; sp] []) w in
  (∃ r, find_row "self.speak" (w_reg w1) = Some r ∧
     _effective_state r (w_wall w1) = STEADY ∧ held_bytes r = 5) ∧
  w_trace w2 = w_trace w1 ++ [EvReap sp "selfai" "app=speak" 30 4; EvReaped "self.speak"] ∧
  (∃ r, find_row "self.speak" (w_reg w2) = Some r ∧ held_bytes r = 0).
Proof.
  split; [vm_compute; reflexivity|]. split; [|split].
  - eexists; split_and!; vm_compute; reflexivity.
  - vm_compute; reflexivity.
  - eexists; split; vm_compute; reflexivity.
Qed.

(** The exclusive lease does not see reservations.  The card is reported
    cleared, and the exclusive lease acquired, while another consumer has just
    been granted 10 that it is still loading and that the registry counts as
    held. *)
Theorem exclusive_ignores_live_reservations :
  let w := world [row "self.speak" 24 0 5 1000; sketch] [] in
  let first := request_lease no_reaper no_wait "self.speak" 10 5 None None w in
  let second := acquire_exclusive no_reaper no_wait "self.sketch" None None first.2 in
  (∃ g x, first.1 = Ok (Granted g) ∧ second.1 = Ok x ∧ acquired x = true ∧
     excl_reason x = CardCleared) ∧
  (∃ r, find_row "self.speak" (w_reg second.2) = Some r ∧
     _effective_held r (w_wall second.2) = 10).
Proof.
  split; [eexists _, _; split_and!|eexists; split]; vm_compute; reflexivity.
Qed.
