(* ===== verification/Jobs.v ===== *)
(** The GPU job tables and their queries: [models/eval_jobs.py],
    [models/training.py] (the job half), [models/curator_jobs.py], the publish
    jobs of [models/model_versions.py], [models/job_windows.py] and the lookup of
    [models/benchmark_config.py].  A table is the list of its rows in the order
    an unordered query returns them; every update takes [now], the value of
    [int(time.time())] it reads.  What the four job tables have in common, a
    status, a priority, a creation time and a schedule, is the class [JobRow],
    against which the queries are written once. *)

From S2P Require Import Prelude Data.

(** ** Status and priority *)

(** The status vocabulary all four tables share. *)
Inductive JobStatus :=
| PENDING | SCHEDULED | QUEUED | RUNNING | COMPLETED | FAILED | CANCELLED.

#[export] Instance JobStatus_eq_dec : EqDecision JobStatus.
Proof. solve_decision. Defined.

(** The statuses a job never leaves by itself. *)
Definition terminal (st : JobStatus) : bool :=
  match st with COMPLETED | FAILED | CANCELLED => true | _ => false end.

(** [fields["x"] = v] guarded by [if v is not None]. *)
Definition set_if_given {A} (v old : option A) : option A :=
  match v with Some _ => v | None => old end.

(** ** The job tables *)

Record EvalMeta := mkEvalMeta {
  total_samples : option Z;
  dry_run : bool;
  code_eval_job_id : option string;
  language_eval_job_id : option string
}.

Record EvalJob := mkEvalJob {
  ev_id : string;
  ev_user_id : string;
  ev_eval_type : string;
  ev_benchmark : string;
  ev_model_id : string;
  ev_status : JobStatus;
  ev_priority : string;
  ev_scheduled_for : option Z;
  ev_error_message : option string;
  ev_meta : EvalMeta;
  ev_created_at : Z;
  ev_updated_at : Z
}.

#[export] Instance EvalJob_eta : Eta EvalJob := λ j,
  mkEvalJob (ev_id j) (ev_user_id j) (ev_eval_type j) (ev_benchmark j) (ev_model_id j)
    (ev_status j) (ev_priority j) (ev_scheduled_for j) (ev_error_message j) (ev_meta j)
    (ev_created_at j) (ev_updated_at j).
#[export] Instance EvalJob_keyed : Keyed EvalJob := ev_id.

Record TrainingJob := mkTrainingJob {
  tr_id : string;
  tr_course_id : string;
  tr_user_id : string;
  tr_model_id : string;
  tr_status : JobStatus;
  tr_priority : string;
  tr_scheduled_for : option Z;
  tr_llamolotl_job_id : option string;
  tr_llamolotl_url_idx : option nat;
  tr_error_message : option string;
  tr_created_at : Z;
  tr_updated_at : Z
}.

#[export] Instance TrainingJob_eta : Eta TrainingJob := λ j,
  mkTrainingJob (tr_id j) (tr_course_id j) (tr_user_id j) (tr_model_id j) (tr_status j)
    (tr_priority j) (tr_scheduled_for j) (tr_llamolotl_job_id j) (tr_llamolotl_url_idx j)
    (tr_error_message j) (tr_created_at j) (tr_updated_at j).
#[export] Instance TrainingJob_keyed : Keyed TrainingJob := tr_id.

Record CuratorJob := mkCuratorJob {
  cu_id : string;
  cu_user_id : string;
  cu_pipeline_id : string;
  cu_status : JobStatus;
  cu_priority : string;
  cu_scheduled_for : option Z;
  cu_curator_job_id : option string;
  cu_curator_url_idx : option nat;
  cu_error_message : option string;
  cu_pipeline_config : bool;            (* (job.meta or {}).get("pipeline_config") *)
  cu_created_knowledge_id : option string;
  cu_created_at : Z;
  cu_updated_at : Z
}.

#[export] Instance CuratorJob_eta : Eta CuratorJob := λ j,
  mkCuratorJob (cu_id j) (cu_user_id j) (cu_pipeline_id j) (cu_status j) (cu_priority j)
    (cu_scheduled_for j) (cu_curator_job_id j) (cu_curator_url_idx j) (cu_error_message j)
    (cu_pipeline_config j) (cu_created_knowledge_id j) (cu_created_at j) (cu_updated_at j).
#[export] Instance CuratorJob_keyed : Keyed CuratorJob := cu_id.

Record PublishJob := mkPublishJob {
  pb_id : string;
  pb_line_id : string;
  pb_user_id : string;
  pb_base_version_id : string;
  pb_adapter_version_ids : option (list string);
  pb_output_name : option string;
  pb_quant_type : option string;
  pb_status : JobStatus;
  pb_priority : string;
  pb_scheduled_for : option Z;
  pb_llamolotl_job_id : option string;
  pb_llamolotl_url_idx : option nat;
  pb_result_version_id : option string;
  pb_error_message : option string;
  pb_waiting_reason : option string;    (* (job.meta or {}).get("waiting_reason") *)
  pb_created_at : Z;
  pb_updated_at : Z
}.

#[export] Instance PublishJob_eta : Eta PublishJob := λ j,
  mkPublishJob (pb_id j) (pb_line_id j) (pb_user_id j) (pb_base_version_id j)
    (pb_adapter_version_ids j) (pb_output_name j) (pb_quant_type j) (pb_status j)
    (pb_priority j) (pb_scheduled_for j) (pb_llamolotl_job_id j) (pb_llamolotl_url_idx j)
    (pb_result_version_id j) (pb_error_message j) (pb_waiting_reason j) (pb_created_at j)
    (pb_updated_at j).
#[export] Instance PublishJob_keyed : Keyed PublishJob := pb_id.

(** What the dispatcher reads off a row of any of the four tables. *)
Class JobRow (A : Type) `{!Keyed A} := {
  job_status : A → JobStatus;
  job_priority : A → string;
  job_created_at : A → Z;
  job_scheduled_for : A → option Z
}.

#[export] Instance EvalJob_row : JobRow EvalJob :=
  {| job_status := ev_status; job_priority := ev_priority;
     job_created_at := ev_created_at; job_scheduled_for := ev_scheduled_for |}.
#[export] Instance TrainingJob_row : JobRow TrainingJob :=
  {| job_status := tr_status; job_priority := tr_priority;
     job_created_at := tr_created_at; job_scheduled_for := tr_scheduled_for |}.
#[export] Instance CuratorJob_row : JobRow CuratorJob :=
  {| job_status := cu_status; job_priority := cu_priority;
     job_created_at := cu_created_at; job_scheduled_for := cu_scheduled_for |}.
#[export] Instance PublishJob_row : JobRow PublishJob :=
  {| job_status := pb_status; job_priority := pb_priority;
     job_created_at := pb_created_at; job_scheduled_for := pb_scheduled_for |}.

Section queries.
Context {A : Type} `{!Keyed A, !JobRow A}.
Implicit Types (t : list A).

(** [get_jobs_by_status], in table order. *)
Definition get_jobs_by_status (st : JobStatus) t : list A :=
  filter (λ j, job_status j = st) t.

(** [scheduled_for <= now]; a null never compares. *)
Definition due (now : Z) (j : A) : bool :=
  match job_scheduled_for j with
  | Some at_ => bool_decide (at_ ≤ now)
  | None => false
  end.

(** [get_due_scheduled_jobs] *)
Definition get_due_scheduled_jobs (now : Z) t : list A :=
  sort_by (λ j, default 0 (job_scheduled_for j))
    (filter (λ j, job_status j = SCHEDULED ∧ due now j = true) t).

(** The queued jobs of one priority. *)
Definition queued_with (prio : string) t : list A :=
  filter (λ j, job_priority j = prio ∧ job_status j = QUEUED) t.

(** [.order_by(created_at.asc())] *)
Definition oldest_first t : list A := sort_by job_created_at t.

Definition running t : list A := get_jobs_by_status RUNNING t.

End queries.

(** ** Evaluation jobs *)

Record EvalJobForm := mkEvalJobForm {
  ef_eval_type : string;
  ef_benchmark : string;
  ef_model_id : string;
  ef_total_samples : option Z;
  ef_dry_run : bool
}.

Module EvalJobs.

(** [insert_new_job]; [id] is the fresh uuid. *)
Definition new_job (now : Z) (id user_id : string) (form : EvalJobForm) : EvalJob :=
  mkEvalJob id user_id (ef_eval_type form) (ef_benchmark form) (ef_model_id form) PENDING
    "normal" None None (mkEvalMeta (ef_total_samples form) (ef_dry_run form) None None) now now.

Definition insert_new_job now id user_id form (t : list EvalJob) : list EvalJob :=
  t ++ [new_job now id user_id form].

Definition status_row (now : Z) (st : JobStatus) (err : option string) (j : EvalJob)
    : EvalJob := Eval simpl in
  j <| ev_status := st |> <| ev_updated_at := now |>
    <| ev_error_message := set_if_given err (ev_error_message j) |>.

Definition update_job_status now id st err (t : list EvalJob) : list EvalJob :=
  update_row id (status_row now st err) t.

(** [update_job_meta] with the remote job's id of either harness. *)
Definition meta_row (now : Z) (code lang : option string) (j : EvalJob) : EvalJob := Eval simpl in
  j <| ev_meta := mkEvalMeta (total_samples (ev_meta j)) (dry_run (ev_meta j))
                    (set_if_given code (code_eval_job_id (ev_meta j)))
                    (set_if_given lang (language_eval_job_id (ev_meta j))) |>
    <| ev_updated_at := now |>.

Definition update_job_meta now id code lang (t : list EvalJob) : list EvalJob :=
  update_row id (meta_row now code lang) t.

Definition schedule_row (now : Z) (at_ : option Z) (j : EvalJob) : EvalJob := Eval simpl in
  j <| ev_scheduled_for := at_ |>
    <| ev_status := match at_ with Some _ => SCHEDULED | None => PENDING end |>
    <| ev_updated_at := now |>.

Definition update_job_scheduled_for now id at_ (t : list EvalJob) : list EvalJob :=
  update_row id (schedule_row now at_) t.

Definition get_next_queued_job (t : list EvalJob) : option EvalJob :=
  head (oldest_first (get_jobs_by_status QUEUED t)).

Definition has_running_job (t : list EvalJob) : bool := bool_decide (running t ≠ []).

End EvalJobs.

(** ** Training jobs *)

Module TrainingJobs.

Definition new_job (now : Z) (id user_id course_id model_id : string) (at_ : option Z)
    : TrainingJob :=
  mkTrainingJob id course_id user_id model_id
    (match at_ with Some 0 | None => PENDING | Some _ => SCHEDULED end)
    "normal" at_ None None None now now.

Definition insert_new_job now id user_id course_id model_id at_ (t : list TrainingJob) :=
  t ++ [new_job now id user_id course_id model_id at_].

Definition status_row (now : Z) (st : JobStatus) (remote : option string) (idx : option nat)
    (err : option string) (j : TrainingJob) : TrainingJob := Eval simpl in
  j <| tr_status := st |> <| tr_updated_at := now |>
    <| tr_llamolotl_job_id := set_if_given remote (tr_llamolotl_job_id j) |>
    <| tr_llamolotl_url_idx := set_if_given idx (tr_llamolotl_url_idx j) |>
    <| tr_error_message := set_if_given err (tr_error_message j) |>.

Definition update_job_status now id st remote idx err (t : list TrainingJob) :=
  update_row id (status_row now st remote idx err) t.

Definition schedule_row (now : Z) (at_ : option Z) (j : TrainingJob) : TrainingJob := Eval simpl in
  j <| tr_scheduled_for := at_ |>
    <| tr_status := match at_ with Some _ => SCHEDULED | None => PENDING end |>
    <| tr_updated_at := now |>.

Definition update_job_scheduled_for now id at_ (t : list TrainingJob) :=
  update_row id (schedule_row now at_) t.

End TrainingJobs.

(** ** Curator jobs *)

Module CuratorJobs.

Definition new_job (now : Z) (id user_id pipeline_id prio : string) (at_ : option Z)
    : CuratorJob :=
  mkCuratorJob id user_id pipeline_id
    (match at_ with Some 0 | None => PENDING | Some _ => SCHEDULED end)
    prio at_ None None None false None now now.

Definition insert_new_job now id user_id pipeline_id prio at_ (t : list CuratorJob) :=
  t ++ [new_job now id user_id pipeline_id prio at_].

Definition status_row (now : Z) (st : JobStatus) (remote : option string) (idx : option nat)
    (err : option string) (j : CuratorJob) : CuratorJob := Eval simpl in
  j <| cu_status := st |> <| cu_updated_at := now |>
    <| cu_curator_job_id := set_if_given remote (cu_curator_job_id j) |>
    <| cu_curator_url_idx := set_if_given idx (cu_curator_url_idx j) |>
    <| cu_error_message := set_if_given err (cu_error_message j) |>.

Definition update_job_status now id st remote idx err (t : list CuratorJob) :=
  update_row id (status_row now st remote idx err) t.

Definition requeue_row (now : Z) (reason : string) (j : CuratorJob) : CuratorJob := Eval simpl in
  j <| cu_status := QUEUED |> <| cu_curator_job_id := None |>
    <| cu_curator_url_idx := None |> <| cu_error_message := Some reason |>
    <| cu_updated_at := now |>.

Definition requeue_for_next_window now id reason (t : list CuratorJob) :=
  update_row id (requeue_row now reason) t.

(** [update_job_meta] with a pipeline configuration. *)
Definition meta_row (now : Z) (pipeline_config : bool) (j : CuratorJob) : CuratorJob := Eval simpl in
  j <| cu_pipeline_config := pipeline_config |> <| cu_updated_at := now |>.

Definition update_job_meta now id pipeline_config (t : list CuratorJob) :=
  update_row id (meta_row now pipeline_config) t.

Definition knowledge_row (now : Z) (k : string) (j : CuratorJob) : CuratorJob := Eval simpl in
  j <| cu_created_knowledge_id := Some k |> <| cu_updated_at := now |>.

Definition update_created_knowledge_id now id k (t : list CuratorJob) :=
  update_row id (knowledge_row now k) t.

End CuratorJobs.

(** ** Publish jobs *)

Module PublishJobs.

(** [PublishJobForm] *)
Record PublishJobForm := mkPublishJobForm {
  pf_output_name : option string;
  pf_quant_type : option string;
  pf_priority : string;
  pf_scheduled_for : option Z
}.

Definition new_job (now : Z) (id line_id user_id base : string) (adapters : list string)
    (form : PublishJobForm) : PublishJob :=
  mkPublishJob id line_id user_id base (Some adapters) (pf_output_name form)
    (pf_quant_type form)
    (match pf_scheduled_for form with Some 0 | None => QUEUED | Some _ => SCHEDULED end)
    (pf_priority form) (pf_scheduled_for form) None None None None None now now.

Definition insert_new_job now id line_id user_id base adapters form (t : list PublishJob) :=
  t ++ [new_job now id line_id user_id base adapters form].

Definition wait_row (now : Z) (reason : option string) (j : PublishJob) : PublishJob := Eval simpl in
  j <| pb_waiting_reason := reason |> <| pb_updated_at := now |>.

(** Newest first. *)
Definition get_jobs_by_line (line_id : string) (t : list PublishJob) : list PublishJob :=
  sort_by (λ j, - pb_created_at j) (filter (λ j, pb_line_id j = line_id) t).

Definition get_job_by_id (id : string) (t : list PublishJob) : option PublishJob := find_row id t.

(** [record_wait_reason]: written only when it changes. *)
Definition record_wait_reason now id reason (t : list PublishJob) : list PublishJob :=
  match find_row id t with
  | None => t
  | Some j =>
      if decide (pb_waiting_reason j = reason) then t
      else update_row id (wait_row now reason) t
  end.

Definition dispatched_row (now : Z) (task : string) (idx : nat) (j : PublishJob)
    : PublishJob := Eval simpl in
  j <| pb_status := RUNNING |> <| pb_llamolotl_job_id := Some task |>
    <| pb_llamolotl_url_idx := Some idx |> <| pb_updated_at := now |>.

Definition mark_dispatched now id task idx (t : list PublishJob) : list PublishJob :=
  update_row id (dispatched_row now task idx) t.

(** [update_status] writes the error and the result even when they are null. *)
Definition status_row (now : Z) (st : JobStatus) (err result : option string)
    (j : PublishJob) : PublishJob := Eval simpl in
  j <| pb_status := st |> <| pb_error_message := err |>
    <| pb_result_version_id := result |> <| pb_updated_at := now |>.

Definition update_status now id st err result (t : list PublishJob) : list PublishJob :=
  update_row id (status_row now st err result) t.

(** [get_due_scheduled_jobs] of this table asks for no order. *)
Definition get_due_scheduled_jobs (now : Z) (t : list PublishJob) : list PublishJob :=
  filter (λ j, job_status j = SCHEDULED ∧ due now j = true) t.

Definition get_jobs_by_status (st : JobStatus) (t : list PublishJob) : list PublishJob :=
  oldest_first (filter (λ j, job_status j = st) t).

End PublishJobs.

(** ** Job windows *)

Record JobWindow := mkJobWindow {
  jw_id : string;
  jw_name : string;
  jw_start_at : Z;
  jw_end_at : Z;
  jw_preferred_job_type : string;
  jw_enabled : bool
}.

#[export] Instance JobWindow_keyed : Keyed JobWindow := jw_id.

Record JobWindowSlot := mkJobWindowSlot {
  js_id : string;
  js_window_id : string;
  js_job_type : string;
  js_max_concurrent : Z;
  js_min_remaining_minutes : Z
}.

#[export] Instance JobWindowSlot_eq_dec : EqDecision JobWindowSlot.
Proof. solve_decision. Defined.

Inductive WindowStatus := W_UPCOMING | W_ACTIVE | W_DISABLED | W_COMPLETED.

Record JobWindowWithSlots := mkWindowWithSlots {
  ws_window : JobWindow;
  ws_slots : list JobWindowSlot;
  ws_status : WindowStatus
}.

Definition _window_status (now : Z) (w : JobWindow) : WindowStatus :=
  if decide (now < jw_start_at w) then W_UPCOMING
  else if decide (jw_start_at w ≤ now ∧ now ≤ jw_end_at w) then
    if jw_enabled w then W_ACTIVE else W_DISABLED
  else W_COMPLETED.

Module JobWindows.

Definition slots_of (id : string) (slots : list JobWindowSlot) : list JobWindowSlot :=
  filter (λ s, js_window_id s = id) slots.

(** [ORDER BY start_at DESC] *)
Definition latest_start_first (ws : list JobWindow) : list JobWindow :=
  sort_by (λ w, - jw_start_at w) ws.

Definition get_window_by_id (now : Z) (id : string) (ws : list JobWindow)
    (slots : list JobWindowSlot) : option JobWindowWithSlots :=
  w ← find_row id ws; Some (mkWindowWithSlots w (slots_of id slots) (_window_status now w)).

Definition get_all_windows (now : Z) (ws : list JobWindow) (slots : list JobWindowSlot)
    : list JobWindowWithSlots :=
  (λ w, mkWindowWithSlots w (slots_of (jw_id w) slots) (_window_status now w))
    <$> latest_start_first ws.

(** The tables of windows and of slots, written in one transaction. *)
Definition tables : Type := list JobWindow * list JobWindowSlot.

(** [get_active_window]: the most recently started window that is open now, and none
    when there is none.  A read that raises ([None]) is swallowed and gives none too. *)
Definition get_active_window (now : Z) (read : option tables) : option JobWindowWithSlots :=
  match read with
  | Some (ws, slots) =>
      w ← head (latest_start_first
        (filter (λ w, jw_start_at w ≤ now ∧ now ≤ jw_end_at w ∧ jw_enabled w = true) ws));
      Some (mkWindowWithSlots w (slots_of (jw_id w) slots) W_ACTIVE)
  | None => None
  end.

(** A slot of a form, with the id the code gives it ([slot.id or uuid4()]). *)
Definition slot_row (wid : string) (s : string * string * Z * Z) : JobWindowSlot :=
  let '(id, job_type, max_concurrent, min_remaining) := s in
  mkJobWindowSlot id wid job_type max_concurrent min_remaining.

(** [insert_new_window]: the window and its slots, or nothing. *)
Definition insert_new_window (ok : bool) (now : Z) (w : JobWindow)
    (slots : list (string * string * Z * Z)) (db : tables)
    : option JobWindowWithSlots * tables :=
  let db' : tables := (db.1 ++ [w], db.2 ++ (slot_row (jw_id w) <$> slots)) in
  if ok
  then (Some (mkWindowWithSlots w (slots_of (jw_id w) db'.2) (_window_status now w)), db')
  else (None, db).

(** The keys of the update dict that are present. *)
Record WindowUpdate := mkWindowUpdate {
  wu_name : option string;
  wu_start_at : option Z;
  wu_end_at : option Z;
  wu_preferred_job_type : option string;
  wu_enabled : option bool;
  wu_slots : option (list (string * string * Z * Z))
}.

Definition updated_window (u : WindowUpdate) (w : JobWindow) : JobWindow :=
  mkJobWindow (jw_id w) (default (jw_name w) (wu_name u))
    (default (jw_start_at w) (wu_start_at u)) (default (jw_end_at w) (wu_end_at u))
    (default (jw_preferred_job_type w) (wu_preferred_job_type u))
    (default (jw_enabled w) (wu_enabled u)).

(** [update_window]: given slots replace the window's old ones. *)
Definition update_window (ok : bool) (now : Z) (id : string) (u : WindowUpdate) (db : tables)
    : option JobWindowWithSlots * tables :=
  match find_row id db.1 with
  | None => (None, db)
  | Some w =>
      let w' := updated_window u w in
      let db' : tables :=
        (update_row id (λ _, w') db.1,
         match wu_slots u with
         | Some slots => filter (λ s, js_window_id s ≠ id) db.2 ++ (slot_row id <$> slots)
         | None => db.2
         end) in
      if ok then (Some (mkWindowWithSlots w' (slots_of id db'.2) (_window_status now w')), db')
      else (None, db)
  end.

Definition delete_window (ok : bool) (id : string) (db : tables) : bool * tables :=
  if ok then (true, (delete_row id db.1, filter (λ s, js_window_id s ≠ id) db.2))
  else (false, db).

End JobWindows.

(** ** Benchmark durations *)

Record BenchmarkConfig := mkBenchmarkConfig {
  bc_id : string;
  bc_benchmark : string;
  bc_eval_type : string;
  max_duration_minutes : Z;
  bc_notes : option string;
  bc_created_at : Z;
  bc_updated_at : Z
}.
#[export] Instance BenchmarkConfig_keyed : Keyed BenchmarkConfig := bc_id.

Definition get_by_benchmark (benchmark eval_type : string) (t : list BenchmarkConfig)
    : option BenchmarkConfig :=
  head (filter (λ c, bc_benchmark c = benchmark ∧ bc_eval_type c = eval_type) t).

Module BenchmarkConfigs.

(** [ORDER BY eval_type, benchmark] *)
Definition get_all (t : list BenchmarkConfig) : list BenchmarkConfig :=
  order_by_text bc_eval_type (order_by_text bc_benchmark t).

Definition get_by_id (id : string) (t : list BenchmarkConfig) : option BenchmarkConfig := find_row id t.

Definition duration_row (now minutes : Z) (notes : option string) (c : BenchmarkConfig) : BenchmarkConfig :=
  mkBenchmarkConfig (bc_id c) (bc_benchmark c) (bc_eval_type c) minutes notes (bc_created_at c) now.

Definition update now id minutes notes (t : list BenchmarkConfig) : list BenchmarkConfig :=
  update_row id (duration_row now minutes notes) t.

End BenchmarkConfigs.
