(* ===== verification/Admission.v ===== *)
(** Admission of model loads and of local generation: the published size of a
    model ([utils/model_vram.py], with [parse_preset_ini] of
    [utils/model_context.py]), the lease request before a load
    ([utils/vram_admission.py]) and the checkpoint in front of a chat request
    ([utils/lease_admission.py]).  Text is taken as ASCII. *)

From Stdlib Require Import Ascii.
From stdpp Require Import gmap.
From S2P Require Import Prelude Data Leases Reaper Broker Jobs.

(** ** Presets *)

Definition backslash : Ascii.ascii := Ascii.ascii_of_nat 92.

(** [s.endswith("\\")] and then [s[:-1]]. *)
Fixpoint continued (s : string) : option string :=
  match s with
  | EmptyString => None
  | String x EmptyString => if decide (x = backslash) then Some EmptyString else None
  | String x s' => String x <$> continued s'
  end.

(** The lines [parse_preset_ini] skips once stripped. *)
Definition not_an_option (s : string) : bool :=
  match s with
  | EmptyString => true
  | String c _ => bool_decide (c = "#"%char ∨ c = ";"%char ∨ c = "["%char)
  end.

(** The loop of [parse_preset_ini] over the lines. *)
Fixpoint parse_lines (pending : string) (options : gmap string string) (lines : list string)
    : gmap string string :=
  match lines with
  | [] => options
  | raw :: rest =>
      let line := pending +:+ raw in
      match continued line with
      | Some start => parse_lines (start +:+ String newline EmptyString) options rest
      | None =>
          let stripped := strip line in
          if not_an_option stripped then parse_lines "" options rest
          else match partition_at "="%char stripped with
               | None => parse_lines "" options rest
               | Some (key, value) => parse_lines "" (<[strip key := strip value]> options) rest
               end
      end
  end.

Definition parse_preset_ini (ini : string) : gmap string string :=
  if decide (strip ini = "") then ∅ else parse_lines "" ∅ (splitlines ini).

(** ** The published size of a model *)

Abbreviation raw_model := (list (string * Json)).

Definition _MIB : Z := 1024 * 1024.

Definition _published_footprint (model : raw_model) : option (Z * string) :=
  match dict_lookup "vram_footprint" model with
  | Some (JDict published) =>
      match dict_lookup "bytes" published, dict_lookup "source" published with
      | Some (JInt raw_bytes), Some (JStr source) =>
          if decide (raw_bytes ≤ 0) then None
          else if decide (source = "") then None
          else Some (raw_bytes, source)
      | _, _ => None
      end
  | _ => None
  end.

Definition _declared_footprint (model : raw_model) : option (Z * string) :=
  match dict_lookup "status" model with
  | Some (JDict status) =>
      match dict_lookup "preset" status with
      | Some (JStr preset) =>
          if decide (preset = "") then None
          else
            raw ← parse_preset_ini preset !! "vram-footprint-mib";
            mib ← py_int (strip raw);
            if decide (mib ≤ 0) then None else Some (mib * _MIB, "declared")
      | _ => None
      end
  | _ => None
  end.

Definition llamolotl_footprint (model : raw_model) : option (Z * string) :=
  match _published_footprint model with
  | Some f => Some f
  | None => _declared_footprint model
  end.

(** [ADMISSION_TRUSTED_SOURCES] *)
Definition trusted_source (source : string) : bool :=
  bool_decide (source = "measured" ∨ source = "declared").

(** The first candidate of a trusted source. *)
Definition llamolotl_admission_footprint (model : raw_model) : option (Z * string) :=
  head (filter (λ c, trusted_source c.2 = true)
    (option_list (_published_footprint model) ++ option_list (_declared_footprint model))).

(** ** The lease request before a load *)

Definition LLAMOLOTL_CONSUMER_ID : string := "self.llamolotl".

Inductive AdmissionReason :=
| LEASE_GRANTED | ALREADY_RESIDENT | SELF_FREEABLE | UNKNOWN_FOOTPRINT | DISABLED | SKIPPED
| SHORTFALL_ADVISORY | ADMISSION_ERROR.

(** What a denial adds to the broker's own breakdown. *)
Record ShortfallDetail := mkShortfallDetail {
  sd_denied : LeaseDenied;
  sd_model : string;
  sd_footprint_source : string;
  sd_footprint_bytes : Z;
  sd_self_freeable_bytes : Z
}.

Record VramAdmission := mkVramAdmission {
  va_ok : bool;
  va_reason : AdmissionReason;
  va_detail : option ShortfallDetail
}.

Definition denied (a : VramAdmission) : bool := negb (va_ok a).

Definition proceed (r : AdmissionReason) : VramAdmission := mkVramAdmission true r None.

(** The part of FastAPI's [app.state] the helper reads. *)
Record AppState := mkAppState {
  ENABLE_LLAMOLOTL_API : bool;
  LLAMOLOTL_MODELS : list (string * string);        (* id, status *)
  LLAMOLOTL_RAW_MODELS : list (string * raw_model)
}.

Fixpoint entry_of {A} (id : string) (d : list (string * A)) : option A :=
  match d with
  | [] => None
  | (k, v) :: rest => if decide (k = id) then Some v else entry_of id rest
  end.

Definition _resident (models_map : list (string * string)) (model_id : string) : bool :=
  match entry_of model_id models_map with
  | Some st => bool_decide (st = "loaded" ∨ st = "loading")
  | None => false
  end.

Section admission.
Context `{!LeaseConfig, !BrokerConfig}.

(** Everything [ensure_llamolotl_vram] settles without the broker. *)
Definition sized (app : option AppState) (model_id : string)
    : AdmissionReason + (Z * string) :=
  if decide (model_id = "") then inl SKIPPED
  else match app with
  | None => inl SKIPPED
  | Some state =>
      if negb (ENABLE_LLAMOLOTL_API state) then inl DISABLED
      else if _resident (LLAMOLOTL_MODELS state) model_id then inl ALREADY_RESIDENT
      else match entry_of model_id (LLAMOLOTL_RAW_MODELS state) with
      | None => inl UNKNOWN_FOOTPRINT
      | Some entry =>
          match llamolotl_admission_footprint entry with
          | None => inl UNKNOWN_FOOTPRINT
          | Some found => inr found
          end
      end
  end.

(** [ensure_llamolotl_vram]: nothing escapes it, so its error type is empty. *)
Definition ensure_llamolotl_vram (b : Broker) (lw : LockWait) (app : option AppState)
    (model_id : string) : prog World Empty_set VramAdmission := λ w,
  match sized app model_id with
  | inl r => (Ok (proceed r), w)
  | inr (amount_bytes, source) =>
      match get LLAMOLOTL_CONSUMER_ID (w_reg w) with
      | None => (Ok (proceed SKIPPED), w)
      | Some registered =>
          let self_freeable := effective_held registered (w_wall w) in
          let request_bytes := Z.max 0 (amount_bytes - self_freeable) in
          if decide (request_bytes = 0) then (Ok (proceed SELF_FREEABLE), w)
          else
            match request_lease b lw LLAMOLOTL_CONSUMER_ID request_bytes (priority registered)
                    None None w with
            | (Ok (Granted _), w') => (Ok (proceed LEASE_GRANTED), w')
            | (Ok (Denied d), w') =>
                (Ok (mkVramAdmission true SHORTFALL_ADVISORY
                  (Some (mkShortfallDetail d model_id source amount_bytes self_freeable))), w')
            | (Raise _, w') => (Ok (proceed ADMISSION_ERROR), w')
            end
      end
  end.

(** ** The checkpoint in front of a chat request *)

(** [GPU_EXCLUSIVE_WINDOW_JOB_TYPES] *)
Definition dedicates_the_card (job_type : string) : bool :=
  bool_decide (job_type = "training" ∨ job_type = "curator" ∨ job_type = "publish").

(** [_active_exclusive_window_type].  Its callers expect it to raise when the windows
    cannot be read; [get_active_window] never lets that through. *)
Definition _active_exclusive_window_type (now : Z) (windows : option JobWindows.tables)
    : result unit (option string) :=
  Ok (ws ← JobWindows.get_active_window now windows;
      head (filter (λ t, dedicates_the_card t = true) (js_job_type <$> ws_slots ws))).

Inductive LeaseAdmission :=
| PROCEED
| REFUSE_UNKNOWN                              (* 503, gpu_status_unknown *)
| REFUSE (gpu_locked_by : string)             (* 503 *)
| SUBSTITUTE (substitute_model requested_model : string).

(** [evaluate_admission].  A table read that raises is [None]. *)
Definition evaluate_admission (now : Z) (windows : option JobWindows.tables)
    (db : registry) (evals : option (list EvalJob)) (model_id : string) : LeaseAdmission :=
  match _active_exclusive_window_type now windows with
  | Raise _ => REFUSE_UNKNOWN
  | Ok locking_window =>
      match locking_window with
      | Some locking_window => REFUSE locking_window
      | None =>
          match active_exclusive_holder now db with
          | Some holder => REFUSE (consumer_id holder)
          | None =>
              let eval_running := match evals with
                                  | Some t => bool_decide (running t ≠ [])
                                  | None => false
                                  end in
              if negb eval_running then PROCEED
              else
                let '(loaded, reported_at) := loaded_model LLAMOLOTL_CONSUMER_ID db in
                let fresh := match reported_at with
                             | Some at_ => bool_decide (now - at_ ≤ STALE_THRESHOLD_SECONDS)
                             | None => false
                             end in
                match truthy loaded with
                | Some m => if fresh && bool_decide (m ≠ model_id) then SUBSTITUTE m model_id
                            else PROCEED
                | None => PROCEED
                end
          end
      end
  end.

End admission.

(** ** Trusted consumer policy ([utils/vram_consumer_config.py]) *)

(** [_CONSUMER_ENV]: the id, and the names of its capacity, priority, namespace
    and selector settings. *)
Definition _CONSUMER_ENV : list (string * string * string * option string * option string) :=
  [ ("self.llamolotl", "LLAMOLOTL_VRAM_CAPACITY_BYTES", "LLAMOLOTL_VRAM_LEASE_PRIORITY",
     Some "LLAMOLOTL_K8S_NAMESPACE", Some "LLAMOLOTL_K8S_POD_SELECTOR");
    ("self.speak", "SPEAK_VRAM_CAPACITY_BYTES", "SPEAK_VRAM_LEASE_PRIORITY", None, None);
    ("self.sketch", "SKETCH_VRAM_CAPACITY_BYTES", "SKETCH_VRAM_LEASE_PRIORITY", None, None);
    ("self.curator", "CURATOR_VRAM_CAPACITY_BYTES", "CURATOR_VRAM_LEASE_PRIORITY",
     Some "CURATOR_K8S_NAMESPACE", Some "CURATOR_K8S_POD_SELECTOR");
    ("self.publish", "PUBLISH_VRAM_CAPACITY_BYTES", "PUBLISH_VRAM_LEASE_PRIORITY", None, None) ].

(** The settings module: what a name is set to, as text. *)
Abbreviation settings := (string → option string).

Definition _env_value (env : settings) (name : option string) : option string :=
  n ← truthy name; env n.

Definition _as_int (value : option string) : option Z :=
  text ← value; if decide (strip text = "") then None else py_int (strip text).

Record ConsumerPolicy := mkConsumerPolicy {
  cp_capacity : Z;
  cp_priority : Z;
  cp_namespace : option string;
  cp_selector : option string
}.

(** One entry of [trusted_consumer_config]. *)
Definition policy_of (env : settings)
    (entry : string * string * string * option string * option string)
    : option (string * ConsumerPolicy) :=
  let '(consumer_id, cap_env, prio_env, ns_env, sel_env) := entry in
  let text name := truthy (Some (strip (default "" (_env_value env name)))) in
  capacity ← _as_int (_env_value env (Some cap_env));
  Some (consumer_id, mkConsumerPolicy capacity
    (default 0 (_as_int (_env_value env (Some prio_env)))) (text ns_env) (text sel_env)).

Definition trusted_consumer_config (env : settings) : list (string * ConsumerPolicy) :=
  omap (policy_of env) _CONSUMER_ENV.

(** [apply_trusted_policy] *)
Definition apply_trusted_policy (env : settings) (form : VramConsumerRegisterForm)
    : option VramConsumerRegisterForm :=
  config ← entry_of (form_consumer_id form) (trusted_consumer_config env);
  Some (mkRegisterForm (form_consumer_id form) (cp_capacity config) (form_held_bytes form)
    (cp_priority config) (cp_namespace config) (cp_selector config)).

From S2P Require Import LeaseFacts BrokerFacts.

(** The contract of admission: a lease is sized only on a figure good enough to
    deny on, a load asks the broker for the net of what it frees itself and is
    never stopped by the answer, the chat checkpoint refuses exactly while the
    card is dedicated, and a registration carries core's policy, not its own. *)
Module AdmissionContract.

(** ** The size of a model *)

Lemma published_positive m n src : _published_footprint m = Some (n, src) → 0 < n.
Proof.
  unfold _published_footprint. repeat case_match; try done. intros [= <- <-].
  apply Z.lt_nge. done.
Qed.

Lemma declared_positive m n src :
  _declared_footprint m = Some (n, src) → 0 < n ∧ src = "declared".
Proof.
  unfold _declared_footprint. destruct (dict_lookup "status" m) as [[]|]; try done.
  destruct (dict_lookup "preset" d) as [[]|]; try done. case_decide; [done|].
  destruct (parse_preset_ini s !! "vram-footprint-mib"); [|done]. simpl.
  destruct (py_int _) as [mib|]; [|done]. simpl. case_decide as Hmib; [done|].
  intros [= <- <-]. unfold _MIB. split; [|done]. apply Z.nle_gt in Hmib. lia.
Qed.

(** A lease is sized only on deny-grade figures.  The admission footprint is
    positive and was measured or declared; a published figure of a trusted source
    is taken as it is, and any other published figure, an estimate for one, does
    not hide the operator's declaration, nor stand in for a missing one. *)
Theorem admission_footprint_is_deny_grade m :
  (∀ n src, llamolotl_admission_footprint m = Some (n, src) →
     0 < n ∧ trusted_source src = true) ∧
  llamolotl_admission_footprint m =
    match _published_footprint m with
    | Some (n, src) => if trusted_source src then Some (n, src) else _declared_footprint m
    | None => _declared_footprint m
    end.
Proof.
  assert (∀ n src, _declared_footprint m = Some (n, src) → trusted_source src = true) as Hdec
    by (by intros n src [_ ->]%declared_positive).
  assert (llamolotl_admission_footprint m =
    match _published_footprint m with
    | Some (n, src) => if trusted_source src then Some (n, src) else _declared_footprint m
    | None => _declared_footprint m
    end) as Heq.
  { unfold llamolotl_admission_footprint.
    destruct (_declared_footprint m) as [[k d]|]; [specialize (Hdec k d eq_refl)|];
      destruct (_published_footprint m) as [[n src]|]; simpl;
      rewrite ?filter_cons; simpl; rewrite ?Hdec; repeat case_match; done. }
  split; [|exact Heq]. rewrite Heq.
  assert (∀ n src, _declared_footprint m = Some (n, src) → 0 < n ∧ trusted_source src = true)
    as Hdecl by (intros n src [? Hs]%declared_positive; by rewrite Hs).
  intros n src. destruct (_published_footprint m) as [[n' src']|] eqn:Hpub; [|apply Hdecl].
  destruct (trusted_source src') eqn:Ht; [|apply Hdecl].
  intros [= <- <-]. by apply published_positive in Hpub.
Qed.

(** ** The lease request before a load *)

Section contract.
Context `{!LeaseConfig, !BrokerConfig}.

(** C10: a load asks for the net and is never stopped (self.ai#114, self.ai#126).
    The helper returns an admission whatever happens, and never a denial.  Either
    it leaves the broker alone, or llamolotl is registered, the model's figure is
    deny-grade and exceeds what llamolotl already counts as held, and exactly the
    difference is requested, at the registered priority; a grant of that net
    amount is recorded if and only if the helper reports one, and a shortfall
    comes back with the gross figure and what was netted out. *)
Theorem load_asks_for_the_net b lw app model_id w :
  let run := ensure_llamolotl_vram b lw app model_id w in
  ∃ a, run.1 = Ok a ∧ denied a = false ∧
    ((run.2 = w ∧ va_detail a = None ∧
       va_reason a ∈ [ALREADY_RESIDENT; SELF_FREEABLE; UNKNOWN_FOOTPRINT; DISABLED; SKIPPED]) ∨
     ∃ r amount source es,
       sized app model_id = inr (amount, source) ∧
       find_row LLAMOLOTL_CONSUMER_ID (w_reg w) = Some r ∧
       let own := _effective_held r (w_wall w) in
       own < amount ∧
       let asked := request_lease b lw LLAMOLOTL_CONSUMER_ID (amount - own) (priority r)
                      None None w in
       run.2 = asked.2 ∧
       w_trace run.2 = w_trace w ++ es ++
         match asked.1 with
         | Ok (Granted _) => [EvGrant LLAMOLOTL_CONSUMER_ID (amount - own)]
         | _ => []
         end ∧
       Forall (λ e, is_grant e = false) es ∧
       (va_reason a = LEASE_GRANTED ↔ ∃ g, asked.1 = Ok (Granted g)) ∧
       ∀ d, asked.1 = Ok (Denied d) →
         a = mkVramAdmission true SHORTFALL_ADVISORY
               (Some (mkShortfallDetail d model_id source amount own))).
Proof.
  unfold ensure_llamolotl_vram. cbv zeta.
  destruct (sized app model_id) as [r|[amount source]] eqn:Hs.
  { exists (proceed r). split_and!; [done..|]. left. split_and!; [done..|].
    unfold sized in Hs. repeat case_match; simplify_eq; simpl; rewrite !elem_of_cons; tauto. }
  unfold get. destruct (find_row LLAMOLOTL_CONSUMER_ID (w_reg w)) as [r|] eqn:Hr.
  2: { eexists. split_and!; [done..|]. left. split_and!; [done..|].
       simpl. rewrite !elem_of_cons. tauto. }
  unfold effective_held. case_decide as Hnet.
  { eexists. split_and!; [done..|]. left. split_and!; [done..|].
    simpl. rewrite !elem_of_cons. tauto. }
  assert (_effective_held r (w_wall w) < amount) as Hown by lia.
  replace (Z.max 0 (amount - _effective_held r (w_wall w)))
    with (amount - _effective_held r (w_wall w)) in * by lia.
  destruct (request_lease b lw LLAMOLOTL_CONSUMER_ID _ (priority r) None None w)
    as [res w'] eqn:Hreq.
  pose proof (request_lease_events _ _ _ _ _ _ _ _ _ _ Hreq) as (es & Ht & Hes).
  assert (Forall (λ e, is_grant e = false) es) as Hno by (eapply Forall_impl; [done|]; by intros []).
  destruct res as [[g|d]|e]; (eexists; split_and!; [done..|]); right;
    exists r, amount, source, es; rewrite Hreq; split_and!; try done; simpl;
    try (by intros d' [= <-]); try (split; [try done; by eexists|by intros [? [=]]]).
Qed.

(** ** The checkpoint in front of a chat request *)

Lemma exclusive_window_type now windows :
  ∃ o, _active_exclusive_window_type now windows = Ok o ∧
    (∀ t, o = Some t → ∃ active s, JobWindows.get_active_window now windows = Some active ∧
      s ∈ ws_slots active ∧ js_job_type s = t ∧ dedicates_the_card t = true) ∧
    (o = None ↔ ∀ active s, JobWindows.get_active_window now windows = Some active →
      s ∈ ws_slots active → dedicates_the_card (js_job_type s) = false).
Proof.
  eexists. split; [done|].
  destruct (JobWindows.get_active_window now windows) as [active|]; [|naive_solver]. simpl. split.
  - intros t [Hd (s & -> & Hs)%list_elem_of_fmap]%head_Some_elem_of%list_elem_of_filter.
    by exists active, s.
  - rewrite head_None. split.
    + intros Hnil active' s [= <-] Hs. destruct (dedicates_the_card (js_job_type s)) eqn:Hd; [|done].
      assert (js_job_type s ∈ ([] : list string)) as []%elem_of_nil. rewrite <- Hnil.
      apply list_elem_of_filter. split; [done|]. by apply list_elem_of_fmap_2.
    + intros Hall. apply elem_of_nil_inv.
      intros t [Hd (s & -> & Hs)%list_elem_of_fmap]%list_elem_of_filter.
      by rewrite (Hall active s) in Hd.
Qed.

(** What the checkpoint has to find to let a request through. *)
Definition card_open (now : Z) (windows : option JobWindows.tables) (db : registry) : Prop :=
  active_exclusive now db = [] ∧
  ∀ active s, JobWindows.get_active_window now windows = Some active →
    s ∈ ws_slots active → dedicates_the_card (js_job_type s) = false.

(** What the checkpoint has to find to put the loaded model in place of the one
    asked for. *)
Definition swaps_to (now : Z) (db : registry) (evals : option (list EvalJob))
    (model_id m : string) : Prop :=
  m ≠ model_id ∧ m ≠ "" ∧ (∃ t, evals = Some t ∧ running t ≠ []) ∧
  ∃ r at_, find_row LLAMOLOTL_CONSUMER_ID db = Some r ∧ loaded_model_id r = Some m ∧
    loaded_model_reported_at r = Some at_ ∧ now - at_ ≤ STALE_THRESHOLD_SECONDS.

Lemma swaps_to_unique now db evals model_id m m' :
  swaps_to now db evals model_id m → swaps_to now db evals model_id m' → m = m'.
Proof. intros (_ & _ & _ & r & ? & Hr & Hm & _) (_ & _ & _ & r' & ? & Hr' & Hm' & _). congruence. Qed.

Lemma truthy_Some o s : truthy o = Some s ↔ o = Some s ∧ s ≠ "".
Proof. destruct o as [[|c o]|]; simpl; naive_solver. Qed.

Lemma checkpoint_open now windows db evals model_id :
  card_open now windows db →
  (evaluate_admission now windows db evals model_id = PROCEED ∧
     ∀ m, ¬ swaps_to now db evals model_id m) ∨
  ∃ m, evaluate_admission now windows db evals model_id = SUBSTITUTE m model_id ∧
    swaps_to now db evals model_id m.
Proof.
  intros (Hex & Hwin). unfold evaluate_admission.
  destruct (exclusive_window_type now windows) as (o & -> & _ & Ho). apply Ho in Hwin as ->. apply active_exclusive_holder_None in Hex as ->.
  destruct evals as [t|]; [|left; split; [done|by intros m (_ & _ & (t & [=] & _) & _)]].
  case_bool_decide as Hrun; simpl; [|left; split; [done|by intros m (_ & _ & (t' & [= <-] & ?) & _)]].
  unfold loaded_model. destruct (find_row LLAMOLOTL_CONSUMER_ID db) as [r|] eqn:Hr;
    [|left; split; [done|intros m (_ & _ & _ & r & ? & ? & _); congruence]].
  destruct (truthy (loaded_model_id r)) as [m|] eqn:Hm.
  - apply truthy_Some in Hm as [Hm Hne].
    destruct (loaded_model_reported_at r) as [at_|] eqn:Hat; simpl.
    2: { left. split; [done|]. intros m' (_ & _ & _ & r' & at_ & Hr' & _ & Hat' & _). congruence. }
    destruct (decide (now - at_ ≤ STALE_THRESHOLD_SECONDS ∧ m ≠ model_id)) as [[Hf Hd]|Hno].
    + right. exists m. rewrite !bool_decide_true by done. split; [done|].
      split_and!; eauto 10.
    + left. split; [do 2 case_bool_decide; naive_solver|].
      intros m' (? & _ & _ & r' & at' & Hr' & Hm' & Hat' & ?).
      apply Hno. by simplify_eq.
  - left. split; [done|]. intros m (_ & Hne & _ & r' & at_ & Hr' & Hm' & _). simplify_eq.
    assert (truthy (loaded_model_id r) = Some m) by by apply truthy_Some. congruence.
Qed.

Lemma checkpoint_closed now windows db evals model_id :
  ¬ card_open now windows db →
  ∃ t, evaluate_admission now windows db evals model_id = REFUSE t ∧
    ((∃ active s, JobWindows.get_active_window now windows = Some active ∧ s ∈ ws_slots active ∧
        js_job_type s = t ∧ dedicates_the_card t = true) ∨
     ∃ h, h ∈ active_exclusive now db ∧ consumer_id h = t).
Proof.
  intros Hclosed. unfold evaluate_admission.
  destruct (exclusive_window_type now windows) as ([t|] & -> & Hsome & Hnone).
  - exists t. split; [done|]. left. by apply Hsome.
  - destruct (active_exclusive_holder now db) as [h|] eqn:Hh.
    + eexists. split; [done|]. right. exists h. split; [|done].
      by apply active_exclusive_holder_Some.
    + destruct Hclosed. split; [by apply active_exclusive_holder_None|by apply Hnone].
Qed.

(** C40: the card is locked for chat exactly while it is seen to be dedicated.  A request
    is let through if and only if no window that can be read is active with a training,
    curator or publish slot, and nobody is an active exclusive holder; a refusal names
    such a slot type or holder.  The branch meant to fail closed is never taken: when the
    windows cannot be read, the decision is the one without any window.  A request that
    is let through runs on the model it asked for, unless an evaluation is running and
    the registry freshly reports another model loaded, in which case, and only then, on
    on that one; evaluations that cannot be read never change it.  The lease registry
    itself is taken to be readable. *)
Theorem checkpoint_decision now windows db evals model_id :
  let decision := evaluate_admission now windows db evals model_id in
  (decision = PROCEED ∨ (∃ m, decision = SUBSTITUTE m model_id) ↔ card_open now windows db) ∧
  (∀ t, decision = REFUSE t →
     (∃ active s, JobWindows.get_active_window now windows = Some active ∧ s ∈ ws_slots active ∧
        js_job_type s = t ∧ dedicates_the_card t = true) ∨
     ∃ h, h ∈ active_exclusive now db ∧ consumer_id h = t) ∧
  decision ≠ REFUSE_UNKNOWN ∧
  evaluate_admission now None db evals model_id = evaluate_admission now (Some ([], [])) db evals model_id ∧
  (∀ m req, decision = SUBSTITUTE m req ↔
     card_open now windows db ∧ req = model_id ∧ swaps_to now db evals model_id m).
Proof.
  intros decision. subst decision.
  assert (card_open now windows db ∨ ¬ card_open now windows db) as [Ho|Hc].
  { unfold card_open. destruct (exclusive_window_type now windows) as ([t|] & _ & _ & Hnone).
    - right. intros [_ Hw]. by apply Hnone in Hw.
    - destruct (decide (active_exclusive_holder now db = None)) as [Hx|Hx];
        rewrite active_exclusive_holder_None in Hx; [left|right; naive_solver].
      split; [done|by apply Hnone]. }
  - destruct (checkpoint_open now windows db evals model_id Ho) as [[-> Hno]|(m & -> & Hm)];
      split_and!; try done; try naive_solver.
    intros m' req. split; [intros [= -> ->]; done|]. intros (_ & -> & Hm').
    by rewrite (swaps_to_unique _ _ _ _ _ _ Hm Hm').
  - destruct (checkpoint_closed now windows db evals model_id Hc) as (t & -> & Ht);
      split_and!; try done; naive_solver.
Qed.

End contract.

(** ** Consumer policy *)

(** A registration carries core's policy.  For a consumer core is configured
    for, the form that reaches the registry keeps the reported hold and takes
    everything else, capacity, priority and reap identity, from the configuration
    alone, so that two registrations of one consumer differ in their hold only; a
    consumer core has no capacity for is refused. *)
Theorem registration_policy_is_trusted env f1 f2 g1 :
  form_consumer_id f1 = form_consumer_id f2 →
  apply_trusted_policy env f1 = Some g1 →
  form_held_bytes g1 = form_held_bytes f1 ∧
  (∃ cap_env prio_env ns_env sel_env,
     (form_consumer_id f1, cap_env, prio_env, ns_env, sel_env) ∈ _CONSUMER_ENV ∧
     _as_int (_env_value env (Some cap_env)) = Some (form_total_capacity_bytes g1) ∧
     form_priority g1 = default 0 (_as_int (_env_value env (Some prio_env)))) ∧
  apply_trusted_policy env f2 = Some (mkRegisterForm (form_consumer_id g1)
    (form_total_capacity_bytes g1) (form_held_bytes f2) (form_priority g1)
    (form_k8s_namespace g1) (form_k8s_pod_selector g1)).
Proof.
  intros Hid. unfold apply_trusted_policy. rewrite <- Hid.
  destruct (entry_of (form_consumer_id f1) (trusted_consumer_config env)) as [p|] eqn:Hp; [|done].
  simpl. intros [= <-]. simpl. split_and!; [done| |done].
  assert (∀ l, entry_of (form_consumer_id f1) (omap (policy_of env) l) = Some p →
    ∃ e, e ∈ l ∧ policy_of env e = Some (form_consumer_id f1, p)) as Hent.
  { induction l as [|e l IH]; [done|]. csimpl. destruct (policy_of env e) as [[k v]|] eqn:He.
    - simpl. case_decide as Hk; [|intros (e' & ? & ?)%IH; exists e'; split; [by right|done]]. subst. intros [= ->].
      exists e. split; [left|done].
    - intros (e' & ? & ?)%IH. exists e'. split; [by right|done]. }
  apply Hent in Hp as ([[[[cid cap] prio] ns] sel] & Hin & Hpol). unfold policy_of in Hpol.
  destruct (_as_int (_env_value env (Some cap))) as [c|] eqn:Hc; [|done]. simpl in Hpol.
  injection Hpol as -> <-. exists cap, prio, ns, sel. by split_and!.
Qed.

(** ** Concrete runs *)

(** A deployment that configured the inference server and nothing else. *)
Definition sample_env : settings := λ name,
  if decide (name = "LLAMOLOTL_VRAM_CAPACITY_BYTES") then Some " 24_000 "
  else if decide (name = "LLAMOLOTL_VRAM_LEASE_PRIORITY") then Some "10"
  else if decide (name = "SPEAK_VRAM_CAPACITY_BYTES") then Some "lots"
  else None.

(** A registration that asserts a priority and a capacity of its own. *)
Definition greedy_form (held : Z) : VramConsumerRegisterForm :=
  mkRegisterForm "self.llamolotl" 999999 held 99 (Some "kube-system") (Some "app=api").

Definition trusted_form (held : Z) : VramConsumerRegisterForm :=
  mkRegisterForm "self.llamolotl" 24000 held 10 None None.

Lemma registration_policy_is_trusted_witness :
  apply_trusted_policy sample_env (greedy_form 7) = Some (trusted_form 7) ∧
  apply_trusted_policy sample_env (greedy_form 8) = Some (trusted_form 8) ∧
  apply_trusted_policy sample_env (mkRegisterForm "self.speak" 24 0 5 None None) = None.
Proof.
  assert (apply_trusted_policy sample_env (greedy_form 7) = Some (trusted_form 7)) as H7
    by (vm_compute; reflexivity).
  split_and!; [exact H7| |vm_compute; reflexivity].
  destruct (registration_policy_is_trusted sample_env (greedy_form 7) (greedy_form 8)
    (trusted_form 7) eq_refl H7) as (_ & _ & H8). exact H8.
Defined.

(** A model whose size is only estimated, with the operator's declaration. *)
Example declaration_survives_estimate :
  let published := JDict [("bytes", JInt 59_000_000_000); ("source", JStr "estimated")] in
  let status := JDict [("preset", JStr (String.concat (String newline "")
    ["[glm]"; "; sized by hand"; "ctx-size = 16384"; " vram-footprint-mib = 1_0 "]))] in
  llamolotl_admission_footprint [("vram_footprint", published); ("status", status)] =
    Some (10 * _MIB, "declared") ∧
  llamolotl_admission_footprint [("vram_footprint", published)] = None ∧
  llamolotl_footprint [("vram_footprint", published)] = Some (59_000_000_000, "estimated").
Proof. split_and!; vm_compute; reflexivity. Qed.

End AdmissionContract.
