(* ===== verification/Transports.v ===== *)
(** What the consumers answer: the release transports
    ([utils/vram_llamolotl.py], [utils/vram_speak.py], [utils/vram_sketch.py],
    [utils/vram_curator.py]) with the dispatcher in front of them, and the state
    sources ([utils/vram_state_source.py] and the one of llamolotl) the poller
    reads.  An HTTP call is its [Reply]; a body is a decoded [Json] value. *)

From stdpp Require Import gmap pretty.
From S2P Require Import Prelude Data Leases LeaseFacts Reaper Broker Jobs Admission.

(** ** Replies *)

(** How a call to a consumer ends: no control base is configured, no ticket could
    be minted, the call raised, or a reply whose body may not decode. *)
Inductive Reply :=
| Unconfigured
| NoTicket
| CallRaised
| HttpReply (status_code : Z) (body : option Json).

Definition is_2xx (code : Z) : bool := bool_decide (200 ≤ code ∧ code < 300).

(** ** Release transports *)

Definition _CONFIRMED_STATUSES : list string := ["released"; "partial"; "confirmed"].
Definition _BUSY_STATUSES : list string := ["busy"].
Definition _DENIED_STATUSES : list string := ["denied"; "refused"].

Definition says (statuses : list string) (status : option string) : bool :=
  match status with Some s => bool_decide (s ∈ statuses) | None => false end.

(** [_new_held_after]: the row is the one the registry holds when the reply is
    mapped. *)
Definition _new_held_after (pre : option VramConsumer) (freed_bytes : Z) : option Z :=
  r ← pre; Some (Z.max 0 (held_bytes r - Z.max 0 freed_bytes)).

Definition timeout_because (why : option string) : ReleaseResponse :=
  mkReleaseResponse TIMEOUT None why.

(** [request_release] of the llamolotl, speak and sketch transports, which map a
    reply in the same way. *)
Definition sibling_release (pre : option VramConsumer) (reply : Reply) : ReleaseResponse :=
  match reply with
  | HttpReply code body =>
      if decide (code = 409) then timeout_because None
      else if negb (is_2xx code) then timeout_because None
      else match body with
           | Some (JDict data) =>
               let status := lower <$> json_str (dict_lookup "status" data) in
               if says _BUSY_STATUSES status then timeout_because None
               else match json_int (dict_lookup "freed_bytes" data) with
                    | Some freed =>
                        if says _CONFIRMED_STATUSES status
                        then mkReleaseResponse CONFIRMED (_new_held_after pre freed) None
                        else timeout_because None
                    | None => timeout_because None
                    end
           | _ => timeout_because None
           end
  | _ => timeout_because None
  end.

(** [request_release] of the curator's transport, polite or as an e-stop. *)
Definition curator_release (force : bool) (pre : option VramConsumer) (reply : Reply)
    : ReleaseResponse :=
  let what := if force then "e-stop" else "release" in
  match reply with
  | Unconfigured => timeout_because (Some "CURATOR_CONTROL_BASE_URL is not configured")
  | NoTicket => timeout_because (Some "could not mint a service ticket")
  | CallRaised => timeout_because (Some (what +:+ " request failed"))
  | HttpReply code body =>
      if negb (is_2xx code) then timeout_because (Some ("HTTP " +:+ pretty code))
      else match body with
           | None => timeout_because (Some "undecodable reply")
           | Some (JDict data) =>
               let status := lower <$> json_str (dict_lookup "status" data) in
               let why := json_str (dict_lookup "reason" data) in
               let or_else words := Some (default words (truthy why)) in
               if says _DENIED_STATUSES status
               then mkReleaseResponse DENIED None
                      (or_else "self.curator refused without a stated reason")
               else if says _BUSY_STATUSES status
               then timeout_because (or_else "consumer reported busy")
               else match json_int (dict_lookup "freed_bytes" data) with
                    | Some freed =>
                        if says _CONFIRMED_STATUSES status
                        then mkReleaseResponse CONFIRMED
                               (if force then Some 0 else _new_held_after pre freed) why
                        else timeout_because (or_else "unrecognised reply shape")
                    | None => timeout_because (or_else "unrecognised reply shape")
                    end
           | Some _ => timeout_because (Some "malformed reply")
           end
  end.

(** ** The dispatcher in front of them *)

Definition SPEAK_AUDIENCE : string := "self.speak".
Definition SKETCH_AUDIENCE : string := "self.sketch".

(** [ConsumerAwareReleaseTransport], over any type of transports. *)
Record Dispatcher (T : Type) := mkDispatcher {
  _speak : T;
  _llamolotl : T;
  _sketch : option T;
  _extra : gmap string T
}.
Arguments mkDispatcher {T}.
Arguments _speak {T}.
Arguments _llamolotl {T}.
Arguments _sketch {T}.
Arguments _extra {T}.

Definition route {T} (d : Dispatcher T) (consumer_id : string) : T :=
  match _extra d !! consumer_id with
  | Some transport => transport
  | None =>
      if decide (consumer_id = SPEAK_AUDIENCE) then _speak d
      else if decide (consumer_id = SKETCH_AUDIENCE) then default (_llamolotl d) (_sketch d)
      else _llamolotl d
  end.

(** The transports, named by the consumer they call. *)
Inductive TransportKind := LLAMOLOTL | SPEAK | SKETCH | CURATOR.

(** The dispatcher [main.py] installs. *)
Definition installed : Dispatcher TransportKind :=
  mkDispatcher SPEAK LLAMOLOTL (Some SKETCH) {[ "self.curator" := CURATOR ]}.

Definition transport_release (t : TransportKind) (force : bool) (pre : option VramConsumer)
    (reply : Reply) : ReleaseResponse :=
  match t with
  | CURATOR => curator_release force pre reply
  | _ => sibling_release pre reply
  end.

(** A release through the installed dispatcher: the answer is mapped against the
    registry as it is once the reply is in. *)
Definition release_via (force : bool) (cid : string) (reply : Reply) (db : registry)
    : ReleaseResponse :=
  transport_release (route installed cid) force (get cid db) reply.

(** ** State sources *)

(** What one poll of a consumer yields; each figure may be missing. *)
Record Reading := mkReading {
  rd_held : option Z;
  rd_loaded_model : option string;
  rd_device_used : option Z;
  rd_device_total : option Z
}.

Definition no_reading : Reading := mkReading None None None None.

Definition _HELD_FIELDS : list string := ["held_vram_bytes"; "held_bytes"; "held"].
Definition _LOADED_MODEL_FIELDS : list string :=
  ["loaded_model"; "loaded_model_id"; "active_model"].
Definition _DEVICE_USED_FIELDS : list string := ["device_used_bytes"; "device_used"].
Definition _DEVICE_TOTAL_FIELDS : list string :=
  ["device_total_bytes"; "total_capacity_bytes"; "device_total"].

(** [first_int_field] *)
Fixpoint first_int_field (data : list (string * Json)) (keys : list string) : option Z :=
  match keys with
  | [] => None
  | key :: rest =>
      match json_int (dict_lookup key data) with
      | Some n => Some n
      | None => first_int_field data rest
      end
  end.

Fixpoint first_text_field (data : list (string * Json)) (keys : list string) : option string :=
  match keys with
  | [] => None
  | key :: rest =>
      match truthy (json_str (dict_lookup key data)) with
      | Some s => Some s
      | None => first_text_field data rest
      end
  end.

(** [parse_device_occupancy]: it looks at the body only. *)
Definition parse_device_occupancy (body : option Json) : option Z * option Z :=
  match body with
  | Some (JDict data) =>
      match first_int_field data _DEVICE_USED_FIELDS with
      | Some used => (Some used, first_int_field data _DEVICE_TOTAL_FIELDS)
      | None => (None, None)
      end
  | _ => (None, None)
  end.

Definition _parse_held (code : Z) (body : option Json) : option Z :=
  match body with
  | Some (JDict data) => if is_2xx code then first_int_field data _HELD_FIELDS else None
  | _ => None
  end.

Definition _parse_loaded_model (code : Z) (body : option Json) : option string :=
  match body with
  | Some (JDict data) => if is_2xx code then first_text_field data _LOADED_MODEL_FIELDS else None
  | _ => None
  end.

(** [read_full]: of the single-base source ([loaded] false) and of llamolotl's. *)
Definition read_full (loaded : bool) (reply : Reply) : Reading :=
  match reply with
  | HttpReply code body =>
      let '(used, total) := parse_device_occupancy body in
      mkReading (_parse_held code body)
        (if loaded then _parse_loaded_model code body else None) used total
  | _ => no_reading
  end.

(** ** What a transport may say *)

(** The replies that amount to a release. *)
Definition releases (reply : Reply) (freed : Z) : Prop :=
  ∃ code data status, reply = HttpReply code (Some (JDict data)) ∧ 200 ≤ code < 300 ∧
    dict_lookup "status" data = Some (JStr status) ∧ lower status ∈ _CONFIRMED_STATUSES ∧
    dict_lookup "freed_bytes" data = Some (JInt freed).

(** The replies that amount to a refusal. *)
Definition refuses (reply : Reply) : Prop :=
  ∃ code data status, reply = HttpReply code (Some (JDict data)) ∧ 200 ≤ code < 300 ∧
    dict_lookup "status" data = Some (JStr status) ∧ lower status ∈ _DENIED_STATUSES.

Lemma says_iff l (o : option string) : says l o = true ↔ ∃ s, o = Some s ∧ s ∈ l.
Proof. destruct o; simpl; rewrite ?bool_decide_eq_true; naive_solver. Qed.

Lemma is_2xx_iff c : is_2xx c = true ↔ 200 ≤ c < 300.
Proof. apply bool_decide_eq_true. Qed.

(** The status of a decoded body. *)
Definition status_of (data : list (string * Json)) : option string :=
  lower <$> json_str (dict_lookup "status" data).

Lemma status_says l data :
  says l (status_of data) = true ↔
  ∃ status, dict_lookup "status" data = Some (JStr status) ∧ lower status ∈ l.
Proof.
  unfold status_of. rewrite says_iff.
  destruct (dict_lookup "status" data) as [[| | | |status| |]|]; simpl; naive_solver.
Qed.

Lemma json_int_Some j n : json_int j = Some n ↔ j = Some (JInt n).
Proof. destruct j as [[]|]; simpl; naive_solver. Qed.

(** The two readings of a reply, as the code tests them. *)
Lemma releases_iff reply freed :
  releases reply freed ↔
  match reply with
  | HttpReply code (Some (JDict data)) =>
      is_2xx code = true ∧ says _CONFIRMED_STATUSES (status_of data) = true ∧
      json_int (dict_lookup "freed_bytes" data) = Some freed
  | _ => False
  end.
Proof.
  unfold releases. split.
  - intros (code & data & status & -> & Hc & Hst & Hin & Hf).
    rewrite is_2xx_iff, status_says, json_int_Some. eauto.
  - destruct reply as [| | |code [[| | | | | |data]|]]; try done.
    rewrite is_2xx_iff, status_says, json_int_Some.
    intros (Hc & (status & Hst & Hin) & Hf). by exists code, data, status.
Qed.

Lemma refuses_iff reply :
  refuses reply ↔
  match reply with
  | HttpReply code (Some (JDict data)) =>
      is_2xx code = true ∧ says _DENIED_STATUSES (status_of data) = true
  | _ => False
  end.
Proof.
  unfold refuses. split.
  - intros (code & data & status & -> & Hc & Hst & Hin).
    rewrite is_2xx_iff, status_says. eauto.
  - destruct reply as [| | |code [[| | | | | |data]|]]; try done.
    rewrite is_2xx_iff, status_says. intros (Hc & status & Hst & Hin).
    by exists code, data, status.
Qed.

(** A status is of one kind only. *)
Lemma says_confirmed o :
  says _CONFIRMED_STATUSES o = true → says _DENIED_STATUSES o = false ∧ says _BUSY_STATUSES o = false.
Proof.
  rewrite says_iff. unfold _CONFIRMED_STATUSES. intros (s & -> & Hs).
  rewrite !elem_of_cons in Hs. by destruct Hs as [->|[->|[->|[]%elem_of_nil]]].
Qed.

Lemma sibling_release_spec pre reply :
  (∀ freed, releases reply freed →
     sibling_release pre reply = mkReleaseResponse CONFIRMED (_new_held_after pre freed) None) ∧
  ((∀ freed, ¬ releases reply freed) → sibling_release pre reply = timeout_because None).
Proof.
  setoid_rewrite releases_iff.
  destruct reply as [| | |code [[| | | | | |data]|]]; try (split; [done|]; simpl; repeat case_match; done).
  simpl. fold (status_of data). destruct (is_2xx code) eqn:Hc; simpl.
  2: { split; [naive_solver|]. by case_decide. }
  rewrite decide_False by (apply is_2xx_iff in Hc; lia).
  destruct (says _CONFIRMED_STATUSES (status_of data)) eqn:Hs.
  - apply says_confirmed in Hs as [_ ->].
    destruct (json_int (dict_lookup "freed_bytes" data)); naive_solver.
  - split; [naive_solver|]. destruct (says _BUSY_STATUSES _); [done|].
    by destruct (json_int (dict_lookup "freed_bytes" data)).
Qed.

Lemma curator_release_spec force pre reply :
  (∀ freed, releases reply freed → ∃ why, curator_release force pre reply =
     mkReleaseResponse CONFIRMED (if force then Some 0 else _new_held_after pre freed) why) ∧
  (refuses reply → ∃ why, curator_release force pre reply = mkReleaseResponse DENIED None why) ∧
  ((∀ freed, ¬ releases reply freed) → ¬ refuses reply →
     ∃ why, curator_release force pre reply = timeout_because why).
Proof.
  setoid_rewrite releases_iff. rewrite refuses_iff.
  destruct reply as [| | |code [[| | | | | |data]|]];
    try (split_and!; [done..|]; simpl; repeat case_match; eauto; done).
  simpl. fold (status_of data). destruct (is_2xx code) eqn:Hc; simpl; [|split_and!; naive_solver].
  destruct (says _CONFIRMED_STATUSES (status_of data)) eqn:Hs.
  - apply says_confirmed in Hs as [-> ->].
    destruct (json_int (dict_lookup "freed_bytes" data)); split_and!; naive_solver.
  - destruct (says _DENIED_STATUSES (status_of data)); [split_and!; naive_solver|].
    destruct (says _BUSY_STATUSES (status_of data)); [split_and!; naive_solver|].
    destruct (json_int (dict_lookup "freed_bytes" data)); split_and!; naive_solver.
Qed.

Lemma releases_dec reply : (∃ freed, releases reply freed) ∨ ∀ freed, ¬ releases reply freed.
Proof.
  setoid_rewrite releases_iff.
  destruct reply as [| | |code [body|]]; try (right; by intros ? []).
  destruct body as [| | | | | |data]; try (right; by intros ? []).
  destruct (is_2xx code), (says _CONFIRMED_STATUSES (status_of data)),
    (json_int (dict_lookup "freed_bytes" data)); (left; by eexists) || (right; by intros ? [? []]).
Qed.

Lemma refuses_dec reply : refuses reply ∨ ¬ refuses reply.
Proof.
  rewrite refuses_iff. destruct reply as [| | |code [body|]]; try (right; by intros []).
  destruct body as [| | | | | |data]; try (right; by intros []).
  destruct (is_2xx code), (says _DENIED_STATUSES (status_of data)); (by left) || (right; by intros []).
Qed.

Lemma releases_not_refuses reply freed : releases reply freed → ¬ refuses reply.
Proof.
  rewrite releases_iff, refuses_iff. destruct reply as [| | |code [[| | | | | |data]|]]; try done.
  intros (_ & [Hd _]%says_confirmed & _) [_ ?]. congruence.
Qed.

Lemma route_installed cid :
  route installed cid =
    if decide (cid = "self.curator") then CURATOR
    else if decide (cid = SPEAK_AUDIENCE) then SPEAK
    else if decide (cid = SKETCH_AUDIENCE) then SKETCH else LLAMOLOTL.
Proof.
  unfold route, installed. simpl. destruct (decide (cid = "self.curator")) as [->|Hne].
  - by rewrite lookup_singleton_eq.
  - by rewrite lookup_singleton_ne.
Qed.

(** No silent success.  A release counts as confirmed if and only if the
    reply is a 2xx whose body names a release status and an integer of freed
    bytes; as refused only if the curator says so in as many words; anything else,
    the consumer's unreachability included, is a timeout with no figure.  A
    confirmation carries the hold the registry knows at that moment less what was
    freed, never below zero, or zero when a curator's e-stop is confirmed; and
    each consumer is asked over its own transport. *)
Theorem release_reply_is_never_guessed force cid reply db :
  let r := release_via force cid reply db in
  (outcome r = CONFIRMED ↔ ∃ freed, releases reply freed) ∧
  (outcome r = DENIED ↔ cid = "self.curator" ∧ refuses reply) ∧
  (∀ freed, releases reply freed → new_held_bytes r =
     if force && bool_decide (cid = "self.curator") then Some 0
     else row ← get cid db; Some (Z.max 0 (held_bytes row - Z.max 0 freed))) ∧
  (outcome r ≠ CONFIRMED → new_held_bytes r = None) ∧
  route installed cid =
    if decide (cid = "self.curator") then CURATOR
    else if decide (cid = SPEAK_AUDIENCE) then SPEAK
    else if decide (cid = SKETCH_AUDIENCE) then SKETCH else LLAMOLOTL.
Proof.
  intros r. subst r. unfold release_via. rewrite route_installed.
  destruct (sibling_release_spec (get cid db) reply) as [Hyes Hno].
  destruct (curator_release_spec force (get cid db) reply) as (Cyes & Cref & Cno).
  destruct (decide (cid = "self.curator")) as [->|Hne].
  - simpl transport_release. rewrite bool_decide_true, andb_true_r by done.
    destruct (releases_dec reply) as [[freed Hrel]|Hnorel].
    + pose proof (releases_not_refuses _ _ Hrel).
      destruct (Cyes freed Hrel) as [why Hr]. rewrite Hr. simpl. split_and!; try naive_solver.
      intros freed' Hrel'. destruct (Cyes freed' Hrel') as [why' Hr']. rewrite Hr' in Hr.
      injection Hr as Hr _. rewrite <- Hr. by destruct force.
    + destruct (refuses_dec reply) as [Href|Hnoref].
      * destruct (Cref Href) as [why ->]. simpl. split_and!; naive_solver.
      * destruct (Cno Hnorel Hnoref) as [why ->]. simpl. split_and!; naive_solver.
  - rewrite bool_decide_false, andb_false_r by done.
    replace (transport_release _ force (get cid db) reply)
      with (sibling_release (get cid db) reply) by (repeat case_decide; done).
    destruct (releases_dec reply) as [[freed Hrel]|Hnorel].
    + rewrite (Hyes freed Hrel). simpl. split_and!; try naive_solver.
      intros freed' Hrel'. rewrite (Hyes freed Hrel) in Hyes.
      specialize (Hyes freed' Hrel'). by injection Hyes.
    + rewrite (Hno Hnorel). simpl. split_and!; naive_solver.
Qed.

From S2P Require Import LeaseContract BrokerContract.

(** The state poller, [utils/vram_poller.py]: one cycle asks every registered
    consumer that has a state source, all at once, and writes what each reading
    carries.  The reads end in any order, and the other coroutines of the process
    write the registry in between; the writes of one reading are made together. *)
Module Poller.

Section poller.
Context `{!LeaseConfig}.
Implicit Types (db : registry).

(** The end of one consumer's read: when, the outcome of each commit to come, and
    the reading, or [None] when the read raised. *)
Record Polled := mkPolled {
  po_consumer : string;
  po_now : Z;
  po_heartbeat_ok : bool;
  po_model_ok : bool;
  po_device_ok : bool;
  po_reading : option Reading
}.

(** The writes of [_poll_consumer] once its read is in.  A commit that fails under
    [record_loaded_model] raises, which ends this consumer's task. *)
Definition _poll_consumer (p : Polled) db : registry :=
  match po_reading p with
  | None => db
  | Some r =>
      let cid := po_consumer p in
      let now := po_now p in
      let db1 := match rd_held r with
                 | Some held => (heartbeat (po_heartbeat_ok p) now cid held db).2
                 | None => db
                 end in
      let '(recorded, db2) := match rd_loaded_model r with
                              | Some m => record_loaded_model (po_model_ok p) now cid (Some m) db1
                              | None => (Ok tt, db1)
                              end in
      match recorded, rd_device_used r with
      | Ok _, Some used =>
          record_device_occupancy (po_device_ok p) now cid used (rd_device_total r) db2
      | _, _ => db2
      end
  end.

(** The tasks a cycle starts: the registered consumers that have a source. *)
Definition poll_tasks (sources : list string) db : list string :=
  filter (λ cid, cid ∈ sources) (consumer_id <$> get_all db).

(** What happens during the [gather]: a task ends, or another coroutine writes. *)
Inductive PollStep :=
| TaskEnds (p : Polled)
| OtherWrite (ok : bool) (now : Z) (op : RegOp).

Definition poll_step db (s : PollStep) : registry :=
  match s with
  | TaskEnds p => _poll_consumer p db
  | OtherWrite ok now op => apply_op ok now op db
  end.

Definition ended (steps : list PollStep) : list string :=
  omap (λ s, match s with TaskEnds p => Some (po_consumer p) | OtherWrite _ _ _ => None end)
    steps.

(** [_poll_once]: a run of the cycle ends each task it started exactly once. *)
Definition _poll_once (sources : list string) db (steps : list PollStep) : option registry :=
  if decide (ended steps ≡ₚ poll_tasks sources db)
  then Some (foldl poll_step db steps)
  else None.

(** ** What a cycle writes *)

(** The row of a consumer once its reading is written, [held_now] being the
    ledger's total at that moment. *)
Definition polled_row (p : Polled) (held_now : Z) (r0 : VramConsumer) : VramConsumer :=
  match po_reading p with
  | None => r0
  | Some r =>
      let now := po_now p in
      let r1 := match rd_held r with
                | Some held => if po_heartbeat_ok p then heartbeat_row now held r0 else r0
                | None => r0
                end in
      let r2 := match rd_loaded_model r with
                | Some m => if po_model_ok p then loaded_model_row now (Some m) r1 else r1
                | None => r1
                end in
      match rd_device_used r with
      | Some used =>
          if po_device_ok p && (po_model_ok p || bool_decide (rd_loaded_model r = None))
          then device_row now used (rd_device_total r) held_now r2 else r2
      | None => r2
      end
  end.

Lemma apply_op_other ok now op db cid :
  op_target op ≠ cid → find_row cid (apply_op ok now op db) = find_row cid db.
Proof.
  intros Hne. destruct (apply_op_shape ok now op db) as [->|[[_ ->]|(form & _ & -> & Hf & ->)]].
  - done.
  - apply find_update_row_ne; [auto with s2db|done].
  - rewrite find_row_app. destruct (find_row cid db); [done|]. simpl in *.
    unfold find_row. simpl. by rewrite decide_False.
Qed.

Lemma poll_other p db cid :
  po_consumer p ≠ cid → find_row cid (_poll_consumer p db) = find_row cid db.
Proof.
  intros Hne. unfold _poll_consumer. destruct (po_reading p) as [[held model used total]|]; [|done].
  simpl. set (db1 := match held with Some _ => _ | None => db end).
  assert (find_row cid db1 = find_row cid db) as <-.
  { unfold db1. destruct held as [h|]; [|done].
    by apply (apply_op_other (po_heartbeat_ok p) (po_now p) (OpHeartbeat (po_consumer p) h)). }
  destruct model as [m|].
  - pose proof (apply_op_other (po_model_ok p) (po_now p)
      (OpLoadedModel (po_consumer p) (Some m)) db1 cid Hne) as Hm. simpl in Hm.
    destruct (record_loaded_model _ _ _ _ db1) as [[[]|[]] db2]; simpl in *; [|done].
    destruct used as [u|]; [|done]. rewrite <- Hm.
    by apply (apply_op_other (po_device_ok p) (po_now p) (OpDeviceOccupancy (po_consumer p) u total)).
  - destruct used as [u|]; [|done].
    by apply (apply_op_other (po_device_ok p) (po_now p) (OpDeviceOccupancy (po_consumer p) u total)).
Qed.

Lemma poll_own p db r0 :
  find_row (po_consumer p) db = Some r0 →
  ∃ held_now, find_row (po_consumer p) (_poll_consumer p db) = Some (polled_row p held_now r0).
Proof.
  intros Hr. unfold _poll_consumer, polled_row.
  destruct (po_reading p) as [[held model used total]|]; [|by exists 0]. simpl.
  set (db1 := match held with Some _ => _ | None => db end).
  set (r1 := match held with Some _ => _ | None => r0 end).
  assert (find_row (po_consumer p) db1 = Some r1) as Hr1.
  { unfold db1, r1. destruct held as [h|]; [|done]. unfold heartbeat.
    rewrite write_row_table. destruct (po_heartbeat_ok p); [|done].
    by rewrite find_update_row_eq, Hr by auto with s2db. }
  clearbody db1 r1. set (rec := match model with Some m => _ | None => (Ok tt, db1) end).
  set (r2 := match model with Some m => _ | None => r1 end).
  assert (find_row (po_consumer p) rec.2 = Some r2 ∧
    (rec.1 = Ok tt ∧ po_model_ok p || bool_decide (model = None) = true ∨
     rec.1 = Raise CommitFailed ∧ po_model_ok p || bool_decide (model = None) = false)) as [Hr2 Hok].
  { unfold rec, r2. destruct model as [m|]; [|rewrite orb_true_r; by auto].
    unfold record_loaded_model. rewrite Hr1. destruct (po_model_ok p); simpl; [|by auto].
    rewrite find_update_row_eq by auto with s2db. rewrite Hr1. by auto. }
  destruct rec as [res db2]. simpl in *.
  destruct Hok as [[-> ->]|[-> ->]]; [|exists 0; by destruct used; rewrite ?andb_false_r].
  destruct used as [u|]; [|by exists 0]. rewrite andb_true_r.
  exists (zsum (held_bytes <$> db2)). unfold record_device_occupancy. rewrite Hr2.
  destruct (po_device_ok p); [|done]. by rewrite find_update_row_eq, Hr2 by auto with s2db.
Qed.

(** A run leaves a row alone until its task ends, and again afterwards. *)
Lemma poll_run_idle steps db cid :
  cid ∉ ended steps → (∀ ok now op, OtherWrite ok now op ∈ steps → op_target op ≠ cid) →
  find_row cid (foldl poll_step db steps) = find_row cid db.
Proof.
  revert db. induction steps as [|s steps IH]; intros db Hend Hother; [done|]. cbn [foldl].
  rewrite IH; [|intros Hin; apply Hend; destruct s; simpl; [by right|done]
               |intros; eapply Hother; by right].
  destruct s as [p|ok now op]; simpl in *.
  - apply poll_other. intros <-. apply Hend. by left.
  - apply apply_op_other. eapply Hother. by left.
Qed.

Lemma poll_run_own steps db cid r0 :
  NoDup (ended steps) → cid ∈ ended steps →
  (∀ ok now op, OtherWrite ok now op ∈ steps → op_target op ≠ cid) →
  find_row cid db = Some r0 →
  ∃ p held_now, TaskEnds p ∈ steps ∧ po_consumer p = cid ∧
    find_row cid (foldl poll_step db steps) = Some (polled_row p held_now r0).
Proof.
  revert db. induction steps as [|s steps IH]; intros db Hnd Hin Hother Hr;
    [by apply elem_of_nil in Hin|].
  assert (∀ ok now op, OtherWrite ok now op ∈ steps → op_target op ≠ cid) as Hother'
    by (intros; eapply Hother; by right).
  destruct s as [p|ok now op]; cbn [foldl] in *; simpl in Hnd, Hin.
  - apply NoDup_cons in Hnd as [Hp Hnd]. destruct (decide (po_consumer p = cid)) as [<-|Hne].
    + destruct (poll_own p db r0 Hr) as [held_now Hown]. exists p, held_now.
      split_and!; [by left|done|]. by rewrite poll_run_idle.
    + apply elem_of_cons in Hin as [?|Hin]; [congruence|].
      destruct (IH (poll_step db (TaskEnds p))) as (p' & h & ? & ? & ?); try done.
      { simpl. by rewrite poll_other. }
      exists p', h. split_and!; [by right|done|done].
  - destruct (IH (apply_op ok now op db)) as (p' & h & ? & ? & ?); try done.
    { rewrite apply_op_other; [done|]. eapply Hother. by left. }
    exists p', h. split_and!; [by right|done|done].
Qed.

Lemma poll_tasks_nodup sources db : NoDup (keys db) → NoDup (poll_tasks sources db).
Proof.
  intros Hnd. unfold poll_tasks, get_all. apply NoDup_filter.
  by rewrite (order_by_text_perm consumer_id db).
Qed.

Lemma elem_of_poll_tasks sources db cid :
  cid ∈ poll_tasks sources db ↔ cid ∈ sources ∧ cid ∈ keys db.
Proof. unfold poll_tasks, get_all. by rewrite list_elem_of_filter, (order_by_text_perm consumer_id db). Qed.

Lemma polled_row_policy p h r0 :
  let r := polled_row p h r0 in
  consumer_id r = consumer_id r0 ∧ total_capacity_bytes r = total_capacity_bytes r0 ∧
  priority r = priority r0 ∧ lease_mode r = lease_mode r0 ∧
  (held_bytes r ≠ held_bytes r0 → ∃ rd, po_reading p = Some rd ∧ rd_held rd = Some (held_bytes r)) ∧
  (lease_state r ≠ lease_state r0 → lease_state r0 = STALE).
Proof.
  cbv zeta. unfold polled_row. destruct (po_reading p) as [[held model used total]|]; simpl;
    [|by split_and!].
  destruct held as [n|], model as [m|], used as [u|],
    (po_heartbeat_ok p), (po_model_ok p), (po_device_ok p); simpl;
    (split_and!; [done..| |]); try done; intros; eauto; try (by eexists);
    unfold clear_stale in *; by destruct (lease_state r0).
Qed.

(** A poll relays what was read and nothing else (R6).  Whatever the reads
    answer, in whatever order they end, and whatever other coroutines write about
    other consumers meanwhile, a consumer without a state source, and one whose
    read raised, keeps its row to the last column, so that its age alone makes it
    stale; any other consumer's row is its old one with its own reading written to
    it.  No poll touches a capacity, a priority or an exclusive posture, moves a
    hold other than to the figure read, or makes a lease stale. *)
Theorem poll_relays_only_what_was_read sources db steps db' cid r0 :
  NoDup (keys db) →
  _poll_once sources db steps = Some db' →
  find_row cid db = Some r0 →
  (∀ ok now op, OtherWrite ok now op ∈ steps → op_target op ≠ cid) →
  if decide (cid ∈ sources) then
    ∃ p held_now r, TaskEnds p ∈ steps ∧ po_consumer p = cid ∧
      find_row cid db' = Some r ∧ r = polled_row p held_now r0 ∧
      (po_reading p = None → r = r0) ∧
      total_capacity_bytes r = total_capacity_bytes r0 ∧ priority r = priority r0 ∧
      lease_mode r = lease_mode r0 ∧
      (held_bytes r ≠ held_bytes r0 →
         ∃ rd, po_reading p = Some rd ∧ rd_held rd = Some (held_bytes r)) ∧
      (lease_state r ≠ lease_state r0 → lease_state r0 = STALE)
  else find_row cid db' = Some r0.
Proof.
  intros Hnd Hpoll Hr Hother. unfold _poll_once in Hpoll.
  case_decide as Hperm; [|done]. injection Hpoll as <-.
  assert (cid ∈ keys db) as Hk by (apply find_row_is_Some; by eexists).
  case_decide as Hs.
  - destruct (poll_run_own steps db cid r0) as (p & h & Hin & Hc & Hrow); try done.
    { rewrite Hperm. by apply poll_tasks_nodup. }
    { rewrite Hperm. by apply elem_of_poll_tasks. }
    destruct (polled_row_policy p h r0) as (_ & ? & ? & ? & ? & ?).
    exists p, h, (polled_row p h r0). split_and!; try done.
    unfold polled_row. by intros ->.
  - rewrite poll_run_idle; [done| |done]. rewrite Hperm. by intros [? _]%elem_of_poll_tasks.
Qed.

End poller.

(** ** Concrete runs *)

Import Sample BrokerContract.Runs.

(** llamolotl answers with every figure, speak's read raises, and sketch, which
    has no source, heartbeats over HTTP in between. *)
Definition cycle_steps : list PollStep :=
  [TaskEnds (mkPolled "self.speak" 1010 true true true None);
   OtherWrite true 1010 (OpHeartbeat "self.sketch" 2);
   TaskEnds (mkPolled "self.llamolotl" 1011 true true true
     (Some (mkReading (Some 9) (Some "qwen") (Some 17) (Some 24))))].

Lemma poll_relays_only_what_was_read_witness :
  _poll_once ["self.llamolotl"; "self.speak"] db cycle_steps ≠ None ∧
  ∃ p held_now r, TaskEnds p ∈ cycle_steps ∧ po_consumer p = "self.speak" ∧
    r = polled_row p held_now speak ∧ held_bytes r = 5.
Proof.
  split; [by vm_compute|].
  destruct (poll_relays_only_what_was_read ["self.llamolotl"; "self.speak"] db cycle_steps
    (foldl poll_step db cycle_steps) "self.speak" speak db_nodup eq_refl eq_refl)
    as (p & h & r & Hin & Hc & Hrow & Hr & _).
  - intros ok now op. unfold cycle_steps. rewrite !elem_of_cons.
    intros [?|[[= -> -> ->]|[?|[]%elem_of_nil]]]; discriminate.
  - exists p, h, r. split_and!; [exact Hin|exact Hc|exact Hr|].
    assert (find_row "self.speak" (foldl poll_step db cycle_steps) = Some speak) as Hspeak
      by (vm_compute; reflexivity).
    rewrite Hspeak in Hrow. injection Hrow as <-. reflexivity.
Defined.

(** A reply that failed still moves the card's occupancy: only the held figure and
    the model are read under the status check. *)
Example failed_reply_reports_the_card :
  let body := Some (JDict [("held_bytes", JInt 3); ("device_used_bytes", JInt 20)]) in
  read_full false (HttpReply 503 body) = mkReading None None (Some 20) None.
Proof. reflexivity. Qed.

(** A release that is polled before it is answered is subtracted twice.  The
    new hold is worked out from the row as it is when the answer arrives, not as
    it was before the call.  Here [self.speak] holds 5, frees 3 and answers after
    the poller has relayed the 2 that are left: the registry ends with no hold at
    all, so 2 that are still in use count as free. *)
Theorem polled_release_is_subtracted_twice :
  let reply := HttpReply 200
    (Some (JDict [("status", JStr "released"); ("freed_bytes", JInt 3)])) in
  let during := (0, true, PeerHeartbeat "self.speak" 2) in
  let polled := apply_op true 1000 (peer_op (PeerHeartbeat "self.speak" 2)) db in
  let step := mkAwaitStep 3 [during] (Replies (release_via false "self.speak" reply polled))
    (reap_failed UnexpectedError 0) in
  let run := request_release true "self.speak" 3 30 (world db [step]) in
  held_bytes speak = 5 ∧ held_bytes <$> find_row "self.speak" polled = Some 2 ∧
  run.1 = Ok CONFIRMED ∧ held_bytes <$> find_row "self.speak" (w_reg run.2) = Some 0.
Proof. split_and!; vm_compute; reflexivity. Qed.

End Poller.
