(* ===== verification/Queue.v ===== *)
(** The GPU job queue, [utils/gpu_queue.py], with the dispatch helpers it calls in
    [routers/training.py] and [routers/evaluations.py]: one function per
    coroutine, composed into the dispatch cycle of [process_gpu_queue_v2].

    The queue runs over a [QWorld]: the job and window tables, the clock, the
    VRAM broker, a script of the answers of the remote calls to come, and a trace
    of what was dispatched and of the exclusive lease.  The broker is reached
    through the class [CardBroker]; [Card] implements it with the broker of
    [Broker].  Database commits succeed here: the queue has no path of its own
    for a failed one.  Other writers of the job tables are not interleaved: a
    cycle is the only writer while it runs. *)

From stdpp Require Import gmap.
From S2P Require Import Prelude Data Jobs.

(** ** The VRAM broker as the queue sees it *)

(** What [VramBroker.acquire_exclusive] comes back with: success, a refusal with
    its reason and each holder's id, outcome and words, the [ValueError] of an
    unregistered requester, or any other exception. *)
Inductive AcquireAnswer :=
| Acquired
| Refused (why : string) (holders : list (string * string * option string))
| AcquireValueError
| AcquireFailed (e : string).

Class CardBroker (C : Type) := {
  card_registered : string → C → bool;                (* VramLeases.get(cid) is not None *)
  card_acquire : string → C → AcquireAnswer * C;      (* VramBroker.acquire_exclusive *)
  card_release : string → C → C;                      (* VramBroker.release_exclusive *)
  card_admit : string → C → C                         (* ensure_llamolotl_vram *)
}.

(** What the queue may rely on: an acquired card is exclusively held. *)
Class CardBrokerLaws (C : Type) `{!CardBroker C} := {
  card_exclusive : string → C → Prop;
  card_acquire_exclusive cid c c' :
    card_acquire cid c = (Acquired, c') → card_exclusive cid c'
}.

(** ** Remote services *)

(** The parts of an answer's JSON body the queue reads. *)
Record RemoteBody := mkRemoteBody {
  rb_status : string;                                  (* get("status", "") *)
  rb_job_id : option string;
  rb_error_message : option string;
  rb_output_path : option string;
  rb_models : list (option string * option string);    (* data: id, status.value *)
  rb_files : list (option string)                      (* files: filename *)
}.

Definition empty_body : RemoteBody := mkRemoteBody "" None None None [] [].

Inductive Remote :=
| RemFail                                  (* the call raised *)
| RemHttp (code : Z) (body : RemoteBody).

(** [resp.raise_for_status()] passes. *)
Definition is_success (code : Z) : bool := bool_decide (200 ≤ code ∧ code < 300).

(** A call whose caller uses [raise_for_status]: the body, or an exception. *)
Definition checked (r : Remote) : option RemoteBody :=
  match r with
  | RemHttp code body => if is_success code then Some body else None
  | RemFail => None
  end.

(** How recording a finished publish ends ([complete_publish_job]). *)
Inductive RecordOutcome := Recorded (version_id : string) | RecordFailed | RowLeft.

(** ** The world *)

(** A job of any of the four tables. *)
Inductive AnyJob :=
| JTraining (j : TrainingJob)
| JEval (j : EvalJob)
| JCurator (j : CuratorJob)
| JPublish (j : PublishJob).

Definition any_id (j : AnyJob) : string :=
  match j with
  | JTraining j => tr_id j
  | JEval j => ev_id j
  | JCurator j => cu_id j
  | JPublish j => pb_id j
  end.

Definition any_created_at (j : AnyJob) : Z :=
  match j with
  | JTraining j => tr_created_at j
  | JEval j => ev_created_at j
  | JCurator j => cu_created_at j
  | JPublish j => pb_created_at j
  end.

(** What a cycle does that others can see.  A release carries how many jobs of
    the type were running when it was made. *)
Inductive QEvent :=
| EvAcquired (cid job_id : string)
| EvReleased (cid : string) (still_running : Z)
| EvDispatch (job_type : string) (job : AnyJob)
| EvSubmit (job_type job_id : string)
| EvAdmit (model_id : string)
| EvUnload (base model_id : string).

Record QConfig := mkQConfig {
  app_ready : bool;                              (* _app_state is not None *)
  LLAMOLOTL_BASE_URLS : list string;
  LLAMOLOTL_CONTROL_BASE_URLS : list string;
  LANGUAGE_EVAL_BASE_URLS : list string;
  CODE_EVAL_BASE_URLS : list string;
  CURATOR_BASE_URLS : list string;
  CURATOR_ENFORCE_WINDOW_END : bool;
  known_course : string → bool;                  (* TrainingCourses.get_course_by_id *)
  input_on_volume : CuratorJob → bool            (* os.path.exists(api_input) *)
}.

Definition CURATOR_AUDIENCE : string := "self.curator".
Definition PUBLISH_AUDIENCE : string := "self.publish".
Definition STALE_RUNNING_TIMEOUT : Z := 24 * 3600.

Record QWorld (C : Type) := mkQWorld {
  q_eval : list EvalJob;
  q_training : list TrainingJob;
  q_curator : list CuratorJob;
  q_publish : list PublishJob;
  q_windows : list JobWindow;
  q_slots : list JobWindowSlot;
  q_benchmarks : list BenchmarkConfig;
  q_now : Z;                                     (* int(time.time()) *)
  q_card : C;
  q_script : list (Z * Remote);                  (* seconds taken, answer *)
  q_records : list RecordOutcome;
  q_datasets : list (option string);
  q_trace : list QEvent
}.
Arguments mkQWorld {C}.
Arguments q_eval {C}.
Arguments q_training {C}.
Arguments q_curator {C}.
Arguments q_publish {C}.
Arguments q_windows {C}.
Arguments q_slots {C}.
Arguments q_benchmarks {C}.
Arguments q_now {C}.
Arguments q_card {C}.
Arguments q_script {C}.
Arguments q_records {C}.
Arguments q_datasets {C}.
Arguments q_trace {C}.

#[export] Instance QWorld_eta C : Eta (QWorld C) := λ w,
  mkQWorld (q_eval w) (q_training w) (q_curator w) (q_publish w) (q_windows w) (q_slots w)
    (q_benchmarks w) (q_now w) (q_card w) (q_script w) (q_records w) (q_datasets w)
    (q_trace w).

(** Nothing escapes from the coroutines of the queue. *)
Abbreviation queue C A := (prog (QWorld C) Empty_set A).

(** The first index below [n] that is not busy. *)
Definition first_idle (n : nat) (busy : list nat) : option nat :=
  head (filter (λ i, i ∉ busy) (seq 0 n)).

(** "; ".join(parts) over the non-empty parts. *)
Fixpoint join_parts (parts : list string) : string :=
  match parts with
  | [] => ""
  | [p] => p
  | p :: rest => p +:+ "; " +:+ join_parts rest
  end.

(** The refusal recorded on a job: who refused, and in their own words. *)
Definition refusal_text (why : string) (holders : list (string * string * option string))
    : string :=
  let said := λ (words : option string),
    match truthy words with Some s => " — " +:+ s | None => "" end in
  let parts := why ::
    ((λ '(cid, outcome, words), cid +:+ ": " +:+ outcome +:+ said words) <$>
      filter (λ h, h.1.2 ≠ "confirmed") holders) in
  "Waiting for the GPU. " +:+ join_parts (filter (λ p, p ≠ "") parts).

(** How many jobs of each type one call of the dispatcher has dispatched. *)
Abbreviation tally := (gmap string Z).

Section queue.
Context {C : Type} `{!CardBroker C} (cfg : QConfig).
Implicit Types (w : QWorld C).

(** ** Primitive steps *)

Definition log_event (e : QEvent) : queue C unit :=
  modify (λ w, w <| q_trace := q_trace w ++ [e] |>).

(** A remote call: time passes, and the script says what it answers. *)
Definition call : queue C Remote := λ w,
  match q_script w with
  | [] => (Ok RemFail, w)
  | (dt, r) :: rest => (Ok r, w <| q_script := rest |> <| q_now := q_now w + Z.max 0 dt |>)
  end.

Definition update_eval (f : Z → list EvalJob → list EvalJob) : queue C unit :=
  modify (λ w, w <| q_eval := f (q_now w) (q_eval w) |>).
Definition update_training (f : Z → list TrainingJob → list TrainingJob) : queue C unit :=
  modify (λ w, w <| q_training := f (q_now w) (q_training w) |>).
Definition update_curator (f : Z → list CuratorJob → list CuratorJob) : queue C unit :=
  modify (λ w, w <| q_curator := f (q_now w) (q_curator w) |>).
Definition update_publish (f : Z → list PublishJob → list PublishJob) : queue C unit :=
  modify (λ w, w <| q_publish := f (q_now w) (q_publish w) |>).

Definition set_eval id st err := update_eval (λ now, EvalJobs.update_job_status now id st err).
Definition set_training id st remote idx err :=
  update_training (λ now, TrainingJobs.update_job_status now id st remote idx err).
Definition set_curator id st remote idx err :=
  update_curator (λ now, CuratorJobs.update_job_status now id st remote idx err).
Definition set_publish id st err result :=
  update_publish (λ now, PublishJobs.update_status now id st err result).

(** ** Counts and workers *)

(** [_running_count] *)
Definition _running_count (job_type : string) w : Z :=
  if decide (job_type = "training") then Z.of_nat (length (running (q_training w)))
  else if decide (job_type = "language-eval" ∨ job_type = "code-eval") then
    Z.of_nat (length (filter (λ j, ev_eval_type j = job_type) (running (q_eval w))))
  else if decide (job_type = "curator") then Z.of_nat (length (running (q_curator w)))
  else if decide (job_type = "publish") then Z.of_nat (length (running (q_publish w)))
  else 0.

(** [_resolve_worker_url] *)
Definition _resolve_worker_url (job_type : string) w : option string :=
  if negb (app_ready cfg) then None
  else
    let pick := λ urls busy, i ← first_idle (length urls) busy; urls !! i in
    let eval_busy := λ t,
      match filter (λ j, ev_eval_type j = t) (running (q_eval w)) with
      | [] => []
      | _ => [0%nat]
      end in
    if decide (job_type = "training") then
      pick (LLAMOLOTL_BASE_URLS cfg) (omap tr_llamolotl_url_idx (running (q_training w)))
    else if decide (job_type = "language-eval") then
      pick (LANGUAGE_EVAL_BASE_URLS cfg) (eval_busy job_type)
    else if decide (job_type = "code-eval") then
      pick (CODE_EVAL_BASE_URLS cfg) (eval_busy job_type)
    else if decide (job_type = "curator") then
      pick (CURATOR_BASE_URLS cfg) (omap cu_curator_url_idx (running (q_curator w)))
    else None.

(** ** llamolotl model residency *)

(** [_ensure_llamolotl_model_ready] at one server. *)
Definition unload_others (base model_id : string) : queue C unit :=
  r ← call;
  match checked r with
  | None => mret tt
  | Some body =>
      if decide (Some model_id ∈ (rb_models body).*1) then
        for_each (λ m,
          match m with
          | (Some other, Some st) =>
              if decide (other ≠ model_id ∧ (st = "loaded" ∨ st = "loading"))
              then log_event (EvUnload base other);; _ ← call; mret tt
              else mret tt
          | _ => mret tt
          end) (rb_models body)
      else mret tt
  end.

Definition _ensure_llamolotl_model_ready (model_id : string) : queue C unit :=
  if negb (app_ready cfg) then mret tt
  else for_each (λ base, unload_others base model_id) (LLAMOLOTL_BASE_URLS cfg).

(** ** The exclusive lease, for curation and for publishing *)

(** [_release_curator_card] and [_release_publish_card]: only for a registered
    consumer, and only once no job of the type is running. *)
Definition release_card (cid job_type : string) : queue C unit :=
  w ← gets id;
  if negb (card_registered cid (q_card w)) then mret tt
  else if decide (_running_count job_type w > 0) then mret tt
  else
    log_event (EvReleased cid (_running_count job_type w));;
    modify (λ w, w <| q_card := card_release cid (q_card w) |>).

Definition _release_curator_card : queue C unit := release_card CURATOR_AUDIENCE "curator".
Definition _release_publish_card : queue C unit := release_card PUBLISH_AUDIENCE "publish".

(** The shared body of [_acquire_curator_card] and [_acquire_publish_card]. *)
Definition acquire_card (cid failed job_id : string) : queue C (bool * option string) :=
  w ← gets id;
  let '(answer, c') := card_acquire cid (q_card w) in
  modify (λ w, w <| q_card := c' |>);;
  match answer with
  | Acquired => log_event (EvAcquired cid job_id);; mret (true, None)
  | Refused why holders => mret (false, Some (refusal_text why holders))
  | AcquireValueError => mret (true, None)
  | AcquireFailed e => mret (false, Some (failed +:+ e))
  end.

Definition _acquire_curator_card (job : CuratorJob) : queue C (bool * option string) :=
  acquire_card CURATOR_AUDIENCE "Could not acquire the GPU for curation: " (cu_id job).

Definition _acquire_publish_card (job : PublishJob) : queue C (bool * option string) :=
  w ← gets id;
  if negb (card_registered PUBLISH_AUDIENCE (q_card w)) then mret (true, None)
  else acquire_card PUBLISH_AUDIENCE "Could not acquire the GPU for the publish: " (pb_id job).

(** ** Dispatch of one job *)

(** [_dispatch_scheduled_job] of [routers/training.py] *)
Definition _dispatch_training_job (job : TrainingJob) : queue C unit :=
  let fail why := set_training (tr_id job) FAILED None None (Some why) in
  if negb (app_ready cfg) then mret tt
  else if negb (known_course cfg (tr_course_id job)) then fail "Training course not found"
  else if decide (LLAMOLOTL_CONTROL_BASE_URLS cfg = []) then fail "No Llamolotl nodes configured"
  else
    datasets ← call;
    match datasets with
    | RemFail => fail "Failed to prepare local dataset"
    | RemHttp code _ =>
        if negb (is_success code) then fail "no valid datasets"
        else
          log_event (EvSubmit "training" (tr_id job));;
          posted ← call;
          match posted with
          | RemFail => fail "Failed to dispatch to Llamolotl"
          | RemHttp code body =>
              if negb (bool_decide (code = 200 ∨ code = 201))
              then fail "Llamolotl rejected the job"
              else
                _ ← call;       (* auto-approve; a failure is only logged *)
                set_training (tr_id job) RUNNING (rb_job_id body) (Some 0%nat) None
          end
    end.

(** [_dispatch_eval_job] and [_dispatch_language_eval_job] of
    [routers/evaluations.py] *)
Definition dispatch_to_harness (language : bool) (job : EvalJob) : queue C unit :=
  log_event (EvSubmit (if language then "language-eval" else "code-eval") (ev_id job));;
  posted ← call;
  match checked posted with
  | None => set_eval (ev_id job) FAILED (Some "Failed to dispatch")
  | Some body =>
      update_eval (λ now, EvalJobs.update_job_meta now (ev_id job)
        (if language then None else rb_job_id body) (if language then rb_job_id body else None));;
      set_eval (ev_id job) RUNNING None
  end.

(** [getattr(job, "eval_type", "code-eval") or "code-eval"] *)
Definition eval_type_of (job : EvalJob) : string :=
  default "code-eval" (truthy (Some (ev_eval_type job))).

(** [_dispatch_eval_job_by_type]: the admission outcome is only logged. *)
Definition _dispatch_eval_job_by_type (job : EvalJob) : queue C unit :=
  log_event (EvAdmit (ev_model_id job));;
  modify (λ w, w <| q_card := card_admit (ev_model_id job) (q_card w) |>);;
  _ensure_llamolotl_model_ready (ev_model_id job);;
  dispatch_to_harness (bool_decide (eval_type_of job = "language-eval")) job.

(** The remote half of [_dispatch_curator_job]: upload the input if it is on the
    volume, submit, approve; [Some] is the remote job's id. *)
Definition ship_to_curator (job : CuratorJob) : queue C (option string) :=
  uploaded ← (if input_on_volume cfg job
              then r ← call; mret (bool_decide (is_Some (checked r)))
              else mret true);
  if negb uploaded then mret None
  else
    log_event (EvSubmit "curator" (cu_id job));;
    posted ← call;
    match body ← checked posted; rb_job_id body with
    | None => mret None
    | Some remote =>
        approved ← call;
        mret (match approved with RemFail => None | RemHttp _ _ => Some remote end)
    end.

(** [_dispatch_curator_job] *)
Definition _dispatch_curator_job (job : CuratorJob) : queue C unit :=
  let fail why := set_curator (cu_id job) FAILED None None (Some why) in
  if negb (app_ready cfg) then fail "App state not available"
  else if decide (CURATOR_BASE_URLS cfg = []) then fail "No Curator URLs configured"
  else
    w ← gets id;
    match first_idle (length (CURATOR_BASE_URLS cfg))
            (omap cu_curator_url_idx (running (q_curator w))) with
    | None => mret tt
    | Some url_idx =>
        if negb (cu_pipeline_config job) then fail "No pipeline_config in job meta"
        else
          acquired ← (if card_registered CURATOR_AUDIENCE (q_card w)
                      then _acquire_curator_card job else mret (true, None));
          if negb acquired.1
          then set_curator (cu_id job) QUEUED None None acquired.2
          else
            shipped ← ship_to_curator job;
            match shipped with
            | None => fail "Failed to dispatch to curator";; _release_curator_card
            | Some remote => set_curator (cu_id job) RUNNING (Some remote) (Some url_idx) None
            end
    end.

(** [_dispatch_publish_job]: [start_publish_merge] is the remote call. *)
Definition _dispatch_publish_job (job : PublishJob) : queue C unit :=
  if negb (app_ready cfg) then mret tt
  else
    acquired ← _acquire_publish_card job;
    if negb acquired.1
    then update_publish (λ now, PublishJobs.record_wait_reason now (pb_id job) acquired.2)
    else
      log_event (EvSubmit "publish" (pb_id job));;
      merged ← call;
      match body ← checked merged; truthy (rb_job_id body) with
      | None =>
          set_publish (pb_id job) FAILED (Some "the merge did not start") None;;
          _release_publish_card
      | Some task =>
          update_publish (λ now, PublishJobs.record_wait_reason now (pb_id job) None);;
          update_publish (λ now, PublishJobs.mark_dispatched now (pb_id job) task 0)
      end.

(** [_dispatch_job]; the rows a slot's type selects carry that type. *)
Definition _dispatch_job (job_type : string) (job : AnyJob) : queue C unit :=
  log_event (EvDispatch job_type job);;
  match job with
  | JTraining j => _dispatch_training_job j
  | JEval j => _dispatch_eval_job_by_type j
  | JCurator j => _dispatch_curator_job j
  | JPublish j => _dispatch_publish_job j
  end.

(** ** Syncing running jobs *)

(** The statuses the harnesses and the curator settle in. *)
Definition settled_status (s : string) : option JobStatus :=
  if decide (s = "completed") then Some COMPLETED
  else if decide (s = "failed") then Some FAILED
  else if decide (s = "cancelled") then Some CANCELLED
  else None.

(** The remote id of an evaluation, by its harness. *)
Definition eval_remote_id (job : EvalJob) : option string :=
  truthy (if decide (eval_type_of job = "language-eval")
          then language_eval_job_id (ev_meta job) else code_eval_job_id (ev_meta job)).

(** [_fetch_code_eval_results], less the files it writes. *)
Definition _fetch_code_eval_results : queue C unit :=
  summary ← call;
  match checked summary with
  | None => mret tt
  | Some _ => _ ← call; mret tt
  end.

(** One job of [_sync_running_jobs] of [routers/evaluations.py]. *)
Definition sync_eval_job (job : EvalJob) : queue C unit :=
  match eval_remote_id job with
  | None => mret tt
  | Some _ =>
      r ← call;
      match r with
      | RemFail => mret tt
      | RemHttp code body =>
          if decide (code = 404) then
            set_eval (ev_id job) FAILED (Some "Job not found (may have been lost on restart)")
          else if negb (is_success code) then mret tt
          else match settled_status (rb_status body) with
               | Some st =>
                   (if decide (st = COMPLETED ∧ eval_type_of job ≠ "language-eval")
                    then _fetch_code_eval_results else mret tt);;
                   set_eval (ev_id job) st (rb_error_message body)
               | None => mret tt
               end
      end
  end.

Definition _sync_eval : queue C unit :=
  w ← gets id; for_each sync_eval_job (running (q_eval w)).

(** [status_map] of [_sync_running_training_jobs] *)
Definition training_status (s : string) : option JobStatus :=
  if decide (s = "pending") then Some QUEUED
  else if decide (s = "running") then Some RUNNING
  else settled_status s.

Definition sync_training_job (job : TrainingJob) : queue C unit :=
  match truthy (tr_llamolotl_job_id job), tr_llamolotl_url_idx job with
  | Some _, Some idx =>
      if decide (length (LLAMOLOTL_CONTROL_BASE_URLS cfg) ≤ idx)%nat then mret tt
      else
        r ← call;
        match r with
        | RemHttp code body =>
            if decide (code = 404) then
              set_training (tr_id job) FAILED None None
                (Some "Job not found in llamolotl (may have been lost on restart)")
            else if is_success code then
              match training_status (rb_status body) with
              | Some st =>
                  if decide (st = tr_status job) then mret tt
                  else set_training (tr_id job) st None None (rb_error_message body)
              | None => mret tt
              end
            else
              now ← gets q_now;
              if decide (tr_updated_at job < now - STALE_RUNNING_TIMEOUT)
              then set_training (tr_id job) FAILED None None (Some "Trainer unreachable")
              else mret tt
        | RemFail =>
            now ← gets q_now;
            if decide (tr_updated_at job < now - STALE_RUNNING_TIMEOUT)
            then set_training (tr_id job) FAILED None None (Some "Trainer unreachable")
            else mret tt
        end
  | _, _ => mret tt
  end.

Definition _sync_running_training_jobs : queue C unit :=
  if negb (app_ready cfg) then mret tt
  else if decide (LLAMOLOTL_CONTROL_BASE_URLS cfg = []) then mret tt
  else
    w ← gets id;
    for_each sync_training_job
      (filter (λ j, tr_status j = RUNNING ∨ tr_status j = QUEUED) (q_training w)).

Definition _expire_stale_training_jobs : queue C unit :=
  update_training (λ now,
    update_where (λ j, bool_decide (tr_status j = RUNNING ∧
                                    tr_updated_at j < now - STALE_RUNNING_TIMEOUT))
      (TrainingJobs.status_row now FAILED None None None)).

(** [Knowledges.insert_new_knowledge]: the new id, or [None] when it failed. *)
Definition next_dataset : queue C (option string) := λ w,
  match q_datasets w with
  | [] => (Ok None, w)
  | k :: rest => (Ok k, w <| q_datasets := rest |>)
  end.

(** Pulling the listed output files one by one; an exception ends the pull. *)
Fixpoint pull_files (files : list (option string)) : queue C unit :=
  match files with
  | [] => mret tt
  | fn :: rest =>
      match truthy fn with
      | None => pull_files rest
      | Some _ =>
          r ← call;
          match r with
          | RemFail => mret tt
          | RemHttp _ _ => pull_files rest
          end
      end
  end.

(** [_finalize_curator_job], less the files it writes and links: the dataset is
    recorded on the job however the pull ended. *)
Definition _finalize_curator_job (job : CuratorJob) : queue C unit :=
  created ← next_dataset;
  match created with
  | None => mret tt
  | Some k =>
      listing ← call;
      (match listing with
       | RemHttp code body => if decide (code = 200) then pull_files (rb_files body) else mret tt
       | RemFail => mret tt
       end);;
      update_curator (λ now, CuratorJobs.update_created_knowledge_id now (cu_id job) k)
  end.

(** A curator that cannot be reached: given up on after a day. *)
Definition curator_unreachable (job : CuratorJob) : queue C unit :=
  now ← gets q_now;
  if decide (cu_updated_at job < now - STALE_RUNNING_TIMEOUT)
  then set_curator (cu_id job) FAILED None None (Some "Worker unreachable");;
       _release_curator_card
  else mret tt.

Definition sync_curator_job (job : CuratorJob) : queue C unit :=
  match truthy (cu_curator_job_id job) with
  | None => mret tt
  | Some _ =>
      if negb (app_ready cfg) then mret tt
      else if decide (length (CURATOR_BASE_URLS cfg) ≤ default 0 (cu_curator_url_idx job))%nat
      then mret tt
      else
        r ← call;
        match r with
        | RemFail => curator_unreachable job
        | RemHttp code body =>
            if decide (code = 404) then
              set_curator (cu_id job) FAILED None None
                (Some "Job not found in curator (may have been lost on restart)")
            else if negb (is_success code) then curator_unreachable job
            else
              match settled_status (rb_status body) with
              | None => mret tt
              | Some st =>
                  set_curator (cu_id job) st None None (rb_error_message body);;
                  _release_curator_card;;
                  if decide (st = COMPLETED) then _finalize_curator_job job else mret tt
              end
        end
  end.

Definition _sync_running_curator_jobs : queue C unit :=
  w ← gets id; for_each sync_curator_job (running (q_curator w)).

Definition next_record : queue C RecordOutcome := λ w,
  match q_records w with
  | [] => (Ok RecordFailed, w)
  | r :: rest => (Ok r, w <| q_records := rest |>)
  end.

(** The job half of [complete_publish_job]; its errors are logged. *)
Definition complete_publish (job : PublishJob) : queue C unit :=
  r ← next_record;
  match r with
  | Recorded v => set_publish (pb_id job) COMPLETED None (Some v)
  | RecordFailed => set_publish (pb_id job) FAILED (Some "could not record the version") None
  | RowLeft => mret tt
  end.

Definition sync_publish_job (job : PublishJob) : queue C unit :=
  match truthy (pb_llamolotl_job_id job) with
  | None => mret tt
  | Some _ =>
      if decide (length (LLAMOLOTL_CONTROL_BASE_URLS cfg)
                 ≤ default 0 (pb_llamolotl_url_idx job))%nat then mret tt
      else
        r ← call;
        match r with
        | RemFail => mret tt
        | RemHttp code body =>
            if decide (code = 404) then
              set_publish (pb_id job) FAILED
                (Some "Merge task not found in llamolotl (may have been lost on restart)") None;;
              _release_publish_card
            else if negb (is_success code) then mret tt
            else if decide (rb_status body = "completed") then
              complete_publish job;; _release_publish_card
            else if decide (rb_status body = "failed") then
              set_publish (pb_id job) FAILED
                (Some (default "the merge failed in llamolotl" (truthy (rb_error_message body))))
                None;;
              _release_publish_card
            else mret tt
        end
  end.

Definition _sync_running_publish_jobs : queue C unit :=
  if negb (app_ready cfg) then mret tt
  else if decide (LLAMOLOTL_CONTROL_BASE_URLS cfg = []) then mret tt
  else
    w ← gets id;
    for_each sync_publish_job (PublishJobs.get_jobs_by_status RUNNING (q_publish w)).

(** [_sync_running_jobs], less the backfill of missing evaluation results, which
    writes result files and no job row. *)
Definition _sync_running_jobs : queue C unit :=
  _sync_eval;;
  _sync_running_curator_jobs;;
  _sync_running_training_jobs;;
  _sync_running_publish_jobs;;
  _expire_stale_training_jobs.

(** ** Promotion *)

Definition _promote_scheduled_jobs : queue C unit :=
  w ← gets id;
  for_each (λ j, set_eval (ev_id j) QUEUED None)
    (get_due_scheduled_jobs (q_now w) (q_eval w));;
  w ← gets id;
  for_each (λ j, set_training (tr_id j) QUEUED None None None)
    (get_due_scheduled_jobs (q_now w) (q_training w));;
  w ← gets id;
  for_each (λ j, set_curator (cu_id j) QUEUED None None None)
    (get_due_scheduled_jobs (q_now w) (q_curator w));;
  w ← gets id;
  for_each (λ j, set_publish (pb_id j) QUEUED None None)
    (PublishJobs.get_due_scheduled_jobs (q_now w) (q_publish w));;
  w ← gets id;
  for_each (λ j, set_eval (ev_id j) QUEUED None) (get_jobs_by_status PENDING (q_eval w));;
  w ← gets id;
  for_each (λ j, set_training (tr_id j) QUEUED None None None)
    (get_jobs_by_status PENDING (q_training w));;
  w ← gets id;
  for_each (λ j, set_curator (cu_id j) QUEUED None None None)
    (filter (λ j, cu_status j = PENDING ∧ cu_scheduled_for j = None) (q_curator w)).

(** ** Dispatch outside windows *)

Definition _dispatch_run_now_jobs : queue C unit :=
  w ← gets id;
  let training := oldest_first (queued_with "run_now" (q_training w)) in
  let evals := oldest_first (queued_with "run_now" (q_eval w)) in
  let curator := oldest_first (queued_with "run_now" (q_curator w)) in
  let publish := oldest_first (queued_with "run_now" (q_publish w)) in
  for_each (λ j, _dispatch_job "training" (JTraining j)) training;;
  for_each (λ j, _dispatch_job (ev_eval_type j) (JEval j)) evals;;
  for_each (λ j, _dispatch_job "curator" (JCurator j)) curator;;
  for_each (λ j, _dispatch_job "publish" (JPublish j)) publish.

Definition _dispatch_dry_run_eval_jobs : queue C unit :=
  w ← gets id;
  for_each (λ j, if dry_run (ev_meta j) then _dispatch_job (ev_eval_type j) (JEval j)
                 else mret tt)
    (oldest_first (get_jobs_by_status QUEUED (q_eval w))).

(** ** Windows *)

Definition _get_active_window w : option JobWindowWithSlots :=
  JobWindows.get_active_window (q_now w) (Some (q_windows w, q_slots w)).

Definition _window_allows (window : option JobWindowWithSlots) (job_type : string) : bool :=
  match window with
  | None => false
  | Some ws => existsb (λ s, bool_decide (js_job_type s = job_type)) (ws_slots ws)
  end.

(** [_stop_and_requeue_curator_job]: the remote cancel is best effort. *)
Definition _stop_and_requeue_curator_job (reason : string) (job : CuratorJob) : queue C unit :=
  (match truthy (cu_curator_job_id job) with
   | Some _ =>
       if app_ready cfg && bool_decide
            (default 0 (cu_curator_url_idx job) < length (CURATOR_BASE_URLS cfg))%nat
       then _ ← call; mret tt else mret tt
   | None => mret tt
   end);;
  update_curator (λ now, CuratorJobs.requeue_for_next_window now (cu_id job) reason).

Definition overrun_message : string :=
  "Overrunning its GPU window: the curator window has closed and this run is still holding the GPU. It will finish, but outside the schedule (set CURATOR_ENFORCE_WINDOW_END=true to stop and requeue overruns instead).".

(** [_enforce_curator_window_end] *)
Definition _enforce_curator_window_end (window : option JobWindowWithSlots) : queue C unit :=
  if _window_allows window "curator" then mret tt
  else
    w ← gets id;
    let overrun := running (q_curator w) in
    if decide (overrun = []) then mret tt
    else if negb (CURATOR_ENFORCE_WINDOW_END cfg) then
      for_each (λ j, set_curator (cu_id j) RUNNING None None (Some overrun_message)) overrun;;
      (if card_registered CURATOR_AUDIENCE (q_card w)
       then log_event (EvReleased CURATOR_AUDIENCE (_running_count "curator" w));;
            modify (λ w, w <| q_card := card_release CURATOR_AUDIENCE (q_card w) |>)
       else mret tt)
    else
      for_each (_stop_and_requeue_curator_job
        "Stopped at the end of its GPU window and requeued for the next one.") overrun;;
      _release_curator_card.

(** [_fits_in_window], in whole seconds: [max_duration_minutes <=
    remaining_seconds / 60 - min_remaining_minutes]. *)
Definition _fits_in_window (benchmark eval_type : string) (remaining_seconds min_remaining : Z)
    (t : list BenchmarkConfig) : bool :=
  match get_by_benchmark benchmark eval_type t with
  | None => true
  | Some c => bool_decide (60 * max_duration_minutes c ≤ remaining_seconds - 60 * min_remaining)
  end.

(** A Python dict in insertion order. *)
Fixpoint dict_set {A} (k : string) (v : A) (d : list (string * A)) : list (string * A) :=
  match d with
  | [] => [(k, v)]
  | (k', v') :: rest => if decide (k = k') then (k, v) :: rest else (k', v') :: dict_set k v rest
  end.

Fixpoint dict_get {A} (k : string) (d : list (string * A)) : option A :=
  match d with
  | [] => None
  | (k', v) :: rest => if decide (k = k') then Some v else dict_get k rest
  end.

(** [{s.job_type: s for s in window.slots}] *)
Definition slots_by_type (slots : list JobWindowSlot) : list (string * JobWindowSlot) :=
  foldl (λ d s, dict_set (js_job_type s) s d) [] slots.

(** The queued jobs of one slot type and one priority, in table order. *)
Definition candidates (prio job_type : string) w : list AnyJob :=
  if decide (job_type = "training") then JTraining <$> queued_with prio (q_training w)
  else if decide (job_type = "language-eval" ∨ job_type = "code-eval") then
    JEval <$> filter (λ j, ev_eval_type j = job_type) (queued_with prio (q_eval w))
  else if decide (job_type = "curator") then JCurator <$> queued_with prio (q_curator w)
  else if decide (job_type = "publish") then JPublish <$> queued_with prio (q_publish w)
  else [].

(** [dispatched.get(jt, 0)] and [dispatched[jt] = dispatched.get(jt, 0) + 1]. *)
Definition tally_get (jt : string) (d : tally) : Z := default 0 (d !! jt).
Definition tally_add (jt : string) (d : tally) : tally := <[jt := tally_get jt d + 1]> d.

(** [_running_count(jtype) + dispatched.get(jtype, 0) >= slot.max_concurrent] *)
Definition at_capacity (jt : string) (slot : JobWindowSlot) (d : tally) w : bool :=
  bool_decide (js_max_concurrent slot ≤ _running_count jt w + tally_get jt d).

(** The fit check, which only evaluations undergo. *)
Definition fits (jt : string) (slot : JobWindowSlot) (remaining : Z) (job : AnyJob) w : bool :=
  match job with
  | JEval j =>
      _fits_in_window (ev_benchmark j) jt remaining (js_min_remaining_minutes slot)
        (q_benchmarks w)
  | _ => true
  end.

(** Pass 1: high priority, oldest first across all slot types. *)
Fixpoint pass1 (slots : list (string * JobWindowSlot)) (remaining : Z)
    (cands : list (string * AnyJob)) (d : tally) : queue C tally :=
  match cands with
  | [] => mret d
  | (jt, job) :: rest =>
      match dict_get jt slots with
      | None => mret d
      | Some slot =>
          w ← gets id;
          if at_capacity jt slot d w then pass1 slots remaining rest d
          else if negb (fits jt slot remaining job w) then pass1 slots remaining rest d
          else _dispatch_job jt job;; pass1 slots remaining rest (tally_add jt d)
      end
  end.

(** The inner loop of pass 2 over the candidates of one type, and of pass 3. *)
Fixpoint dispatch_type (jt : string) (slot : JobWindowSlot) (remaining : Z)
    (cands : list AnyJob) (d : tally) : queue C tally :=
  match cands with
  | [] => mret d
  | job :: rest =>
      w ← gets id;
      if at_capacity jt slot d w then mret d
      else if negb (fits jt slot remaining job w) then dispatch_type jt slot remaining rest d
      else _dispatch_job jt job;; dispatch_type jt slot remaining rest (tally_add jt d)
  end.

Definition oldest_job_first (l : list AnyJob) : list AnyJob := sort_by any_created_at l.

(** Pass 2: normal priority, type by type; training is deferred to pass 3. *)
Fixpoint pass2 (slots : list (string * JobWindowSlot)) (remaining : Z)
    (types : list string) (d : tally) : queue C tally :=
  match types with
  | [] => mret d
  | jt :: rest =>
      match dict_get jt slots with
      | None => pass2 slots remaining rest d
      | Some slot =>
          w ← gets id;
          let cands := if decide (jt = "training") then []
                       else oldest_job_first (candidates "normal" jt w) in
          d' ← dispatch_type jt slot remaining cands d;
          pass2 slots remaining rest d'
      end
  end.

(** Pass 3: normal training jobs, in what capacity is left. *)
Definition pass3 (slots : list (string * JobWindowSlot)) (remaining : Z) (d : tally)
    : queue C unit :=
  match dict_get "training" slots with
  | None => mret tt
  | Some slot =>
      w ← gets id;
      let capacity := js_max_concurrent slot - _running_count "training" w
                      - tally_get "training" d in
      if decide (capacity ≤ 0) then mret tt
      else
        dispatch_type "training" slot remaining
          (take (Z.to_nat capacity) (oldest_job_first (candidates "normal" "training" w))) d;;
        mret tt
  end.

(** The high-priority candidates, as pass 1 sorts them. *)
Definition high_candidates (slots : list (string * JobWindowSlot)) w : list (string * AnyJob) :=
  sort_by (λ c, any_created_at c.2)
    (slots ≫= λ '(jt, _), pair jt <$> candidates "high" jt w).

(** [_dispatch_window_jobs] *)
Definition _dispatch_window_jobs (window : JobWindowWithSlots) : queue C unit :=
  w ← gets id;
  let remaining := Z.max 0 (jw_end_at (ws_window window) - q_now w) in
  let slots := slots_by_type (ws_slots window) in
  let preferred := jw_preferred_job_type (ws_window window) in
  let pass2_types :=
    preferred :: filter (λ jt, jt ≠ preferred ∧ jt ≠ "training") slots.*1 in
  if decide (slots = []) then mret tt
  else
    d1 ← pass1 slots remaining (high_candidates slots w) ∅;
    d2 ← pass2 slots remaining pass2_types d1;
    pass3 slots remaining d2.

(** ** The cycle *)

(** One turn of [process_gpu_queue_v2] once the lock question is settled; without
    the lock the turn is skipped. *)
Definition cycle (lock_acquired : bool) : queue C unit :=
  if negb lock_acquired then mret tt
  else
    _sync_running_jobs;;
    _promote_scheduled_jobs;;
    _dispatch_run_now_jobs;;
    _dispatch_dry_run_eval_jobs;;
    w ← gets id;
    let window := _get_active_window w in
    _enforce_curator_window_end window;;
    match window with
    | Some ws => _dispatch_window_jobs ws
    | None => mret tt
    end.

End queue.
