(* ===== verification/QueueFacts.v ===== *)
(** Lemmas about the queue's programs: what a dispatch, a sync or a release can
    touch, how many jobs it can start, and what it leaves in the trace. *)

From stdpp Require Import gmap.
From S2P Require Import Prelude Data Jobs Queue.

Section facts.
Context {C : Type} `{!CardBroker C} (cfg : QConfig).
Implicit Types (w : QWorld C).

(** ** Loops and leaves *)

Lemma for_each_preserves {A} (R : relation (QWorld C)) `{!PreOrder R}
    (f : A → queue C unit) (l : list A) :
  (∀ x, x ∈ l → preserves R (f x)) → preserves R (for_each f l).
Proof.
  induction l as [|x l IH]; intros Hf; simpl; [by apply preserves_ret, _|].
  apply preserves_bind; [apply _|apply Hf; left|]. intros _. apply IH.
  intros y Hy. apply Hf. by right.
Qed.

(** Reading the state. *)
Lemma run_here {A} (k : QWorld C → queue C A) w : (gets id ≫= k) w = k w w.
Proof. done. Qed.

(** The remote side of a step: only the clock and the scripts move. *)
Definition remote w w' : Prop :=
  q_eval w' = q_eval w ∧ q_training w' = q_training w ∧ q_curator w' = q_curator w ∧
  q_publish w' = q_publish w ∧ q_windows w' = q_windows w ∧ q_slots w' = q_slots w ∧
  q_benchmarks w' = q_benchmarks w ∧ q_card w' = q_card w ∧ q_trace w' = q_trace w.

Lemma call_remote : preserves remote (call (C := C)).
Proof. intros w. unfold call, state_of. by destruct (q_script w) as [|[]]. Qed.

Lemma next_record_remote : preserves remote (next_record (C := C)).
Proof. intros w. unfold next_record, state_of. by destruct (q_records w). Qed.

Lemma next_dataset_remote : preserves remote (next_dataset (C := C)).
Proof. intros w. unfold next_dataset, state_of. by destruct (q_datasets w). Qed.

(** ** Footprints *)

(** The rows a piece of the queue may write, by table. *)
Record footprint := mkFootprint {
  fp_training : string → Prop;
  fp_eval : string → Prop;
  fp_curator : string → Prop;
  fp_publish : string → Prop
}.

Definition writes_to (F : footprint) (job : AnyJob) : Prop :=
  match job with
  | JTraining j => fp_training F (tr_id j)
  | JEval j => fp_eval F (ev_id j)
  | JCurator j => fp_curator F (cu_id j)
  | JPublish j => fp_publish F (pb_id j)
  end.

(** What no step of the queue changes: which rows there are, the type of each
    evaluation, the windows and the benchmark durations. *)
Definition shape w :=
  (tr_id <$> q_training w, (λ j, (ev_id j, ev_eval_type j)) <$> q_eval w,
   cu_id <$> q_curator w, pb_id <$> q_publish w,
   q_windows w, q_slots w, q_benchmarks w).

(** A step that leaves every row outside its footprint as it is. *)
Definition frame (F : footprint) w w' : Prop :=
  shape w' = shape w ∧
  (∀ id, ¬ fp_training F id → find_row id (q_training w') = find_row id (q_training w)) ∧
  (∀ id, ¬ fp_eval F id → find_row id (q_eval w') = find_row id (q_eval w)) ∧
  (∀ id, ¬ fp_curator F id → find_row id (q_curator w') = find_row id (q_curator w)) ∧
  (∀ id, ¬ fp_publish F id → find_row id (q_publish w') = find_row id (q_publish w)).

#[export] Instance frame_preorder F : PreOrder (frame F).
Proof.
  split; [done|].
  intros w1 w2 w3 (S1 & T1 & E1 & C1 & P1) (S2 & T2 & E2 & C2 & P2).
  split_and!; [congruence|intros id Hid..].
  - by rewrite T2, T1.
  - by rewrite E2, E1.
  - by rewrite C2, C1.
  - by rewrite P2, P1.
Qed.

Lemma remote_frame F w w' : remote w w' → frame F w w'.
Proof.
  intros (He & Ht & Hc & Hp & Hw & Hs & Hb & _). unfold frame, shape.
  by rewrite He, Ht, Hc, Hp, Hw, Hs, Hb.
Qed.

Lemma shape_row {A} `{Keyed A} {B} (g : A → B) k f (t : list A) :
  (∀ r, g (f r) = g r) → g <$> update_row k f t = g <$> t.
Proof. apply fmap_update_row_same. Qed.

Lemma outside (P : string → Prop) id id' : P id → ¬ P id' → id' ≠ id.
Proof. intros H1 H2 ->. done. Qed.

Section leaves.
Context (F : footprint).

Lemma call_frame : preserves (frame F) (call (C := C)).
Proof. intros w. apply remote_frame, call_remote. Qed.

Lemma next_record_frame : preserves (frame F) (next_record (C := C)).
Proof. intros w. apply remote_frame, next_record_remote. Qed.

Lemma next_dataset_frame : preserves (frame F) (next_dataset (C := C)).
Proof. intros w. apply remote_frame, next_dataset_remote. Qed.

Lemma log_frame e : preserves (frame F) (log_event (C := C) e).
Proof. by intros w. Qed.

Lemma card_frame (f : QWorld C → C) :
  preserves (frame F) (modify (λ w, w <| q_card := f w |>) : queue C unit).
Proof. by intros w. Qed.

Lemma update_training_frame id (f : Z → TrainingJob → TrainingJob) :
  (∀ now j, tr_id (f now j) = tr_id j) → fp_training F id →
  preserves (frame F) (update_training (C := C) (λ now, update_row id (f now))).
Proof.
  intros Hf HF w. unfold update_training, state_of, modify. simpl. split_and!; try done.
  - unfold shape. simpl. by rewrite shape_row.
  - intros id' Hid'. apply find_update_row_ne; [by intros j|by eapply outside].
Qed.

Lemma update_eval_frame id (f : Z → EvalJob → EvalJob) :
  (∀ now j, ev_id (f now j) = ev_id j ∧ ev_eval_type (f now j) = ev_eval_type j) →
  fp_eval F id →
  preserves (frame F) (update_eval (C := C) (λ now, update_row id (f now))).
Proof.
  intros Hf HF w. unfold update_eval, state_of, modify. simpl. split_and!; try done.
  - unfold shape. simpl. rewrite (shape_row (λ j, (ev_id j, ev_eval_type j))); [done|].
    intros j. by destruct (Hf (q_now w) j) as [-> ->].
  - intros id' Hid'. apply find_update_row_ne; [intros j; apply Hf|by eapply outside].
Qed.

Lemma update_curator_frame id (f : Z → CuratorJob → CuratorJob) :
  (∀ now j, cu_id (f now j) = cu_id j) → fp_curator F id →
  preserves (frame F) (update_curator (C := C) (λ now, update_row id (f now))).
Proof.
  intros Hf HF w. unfold update_curator, state_of, modify. simpl. split_and!; try done.
  - unfold shape. simpl. by rewrite shape_row.
  - intros id' Hid'. apply find_update_row_ne; [by intros j|by eapply outside].
Qed.

Lemma update_publish_frame id (f : Z → PublishJob → PublishJob) :
  (∀ now j, pb_id (f now j) = pb_id j) → fp_publish F id →
  preserves (frame F) (update_publish (C := C) (λ now, update_row id (f now))).
Proof.
  intros Hf HF w. unfold update_publish, state_of, modify. simpl. split_and!; try done.
  - unfold shape. simpl. by rewrite shape_row.
  - intros id' Hid'. apply find_update_row_ne; [by intros j|by eapply outside].
Qed.

Lemma set_training_frame id st remote idx err :
  fp_training F id → preserves (frame F) (set_training (C := C) id st remote idx err).
Proof. by apply update_training_frame. Qed.

Lemma set_eval_frame id st err :
  fp_eval F id → preserves (frame F) (set_eval (C := C) id st err).
Proof. by apply update_eval_frame. Qed.

Lemma set_curator_frame id st remote idx err :
  fp_curator F id → preserves (frame F) (set_curator (C := C) id st remote idx err).
Proof. by apply update_curator_frame. Qed.

Lemma set_publish_frame id st err result :
  fp_publish F id → preserves (frame F) (set_publish (C := C) id st err result).
Proof. by apply update_publish_frame. Qed.

Lemma wait_frame id reason :
  fp_publish F id →
  preserves (frame F)
    (update_publish (C := C) (λ now, PublishJobs.record_wait_reason now id reason)).
Proof.
  intros HF w. unfold update_publish, state_of, modify, PublishJobs.record_wait_reason. simpl.
  destruct (find_row id (q_publish w)) as [j|]; [case_decide|]; try (by destruct w).
  apply (update_publish_frame id (λ now, PublishJobs.wait_row now reason)); done.
Qed.

#[local] Hint Resolve call_frame next_record_frame next_dataset_frame log_frame card_frame set_training_frame
  set_eval_frame set_curator_frame set_publish_frame wait_frame : s2db.

Lemma for_each_frame {A} (f : A → queue C unit) (l : list A) :
  (∀ x, x ∈ l → preserves (frame F) (f x)) → preserves (frame F) (for_each f l).
Proof. apply for_each_preserves, _. Qed.
#[local] Hint Resolve for_each_frame : s2db.

Lemma release_card_frame cid jt : preserves (frame F) (release_card (C := C) cid jt).
Proof. unfold release_card. preserves_auto. Qed.

Lemma acquire_card_frame cid failed id :
  preserves (frame F) (acquire_card (C := C) cid failed id).
Proof. unfold acquire_card. preserves_auto. Qed.

Lemma ensure_ready_frame m : preserves (frame F) (_ensure_llamolotl_model_ready (C := C) cfg m).
Proof.
  unfold _ensure_llamolotl_model_ready. preserves_auto. apply for_each_frame. intros base _.
  unfold unload_others. preserves_auto. apply for_each_frame. intros m' _. preserves_auto.
Qed.

Lemma training_dispatch_frame j :
  fp_training F (tr_id j) → preserves (frame F) (_dispatch_training_job (C := C) cfg j).
Proof. intros HF. unfold _dispatch_training_job. preserves_auto. Qed.

Lemma eval_dispatch_frame j :
  fp_eval F (ev_id j) → preserves (frame F) (_dispatch_eval_job_by_type (C := C) cfg j).
Proof.
  intros HF. unfold _dispatch_eval_job_by_type, dispatch_to_harness.
  apply preserves_bind; [apply _|auto with s2db|intros _].
  apply preserves_bind; [apply _|auto with s2db|intros _].
  apply preserves_bind; [apply _|apply ensure_ready_frame|intros _].
  preserves_auto. by apply update_eval_frame.
Qed.

Lemma ship_frame j : preserves (frame F) (ship_to_curator (C := C) cfg j).
Proof. unfold ship_to_curator. preserves_auto. Qed.
#[local] Hint Resolve release_card_frame acquire_card_frame ship_frame : s2db.

Lemma curator_dispatch_frame j :
  fp_curator F (cu_id j) → preserves (frame F) (_dispatch_curator_job (C := C) cfg j).
Proof.
  intros HF. unfold _dispatch_curator_job, _acquire_curator_card, _release_curator_card.
  preserves_auto.
Qed.

Lemma publish_dispatch_frame j :
  fp_publish F (pb_id j) → preserves (frame F) (_dispatch_publish_job (C := C) cfg j).
Proof.
  intros HF. unfold _dispatch_publish_job, _acquire_publish_card, _release_publish_card.
  preserves_auto. by apply update_publish_frame.
Qed.

Lemma dispatch_frame jt job :
  writes_to F job → preserves (frame F) (_dispatch_job (C := C) cfg jt job).
Proof.
  intros HF. unfold _dispatch_job. apply preserves_bind; [apply _|auto with s2db|intros _].
  destruct job; [by apply training_dispatch_frame|by apply eval_dispatch_frame|
    by apply curator_dispatch_frame|by apply publish_dispatch_frame].
Qed.

(** *** Syncs *)

Lemma pull_files_frame files : preserves (frame F) (pull_files (C := C) files).
Proof.
  induction files as [|fn files IH]; simpl; [by intros w|].
  destruct (truthy fn); [|done]. preserves_auto.
Qed.
#[local] Hint Resolve pull_files_frame : s2db.

Lemma sync_eval_frame j :
  fp_eval F (ev_id j) → preserves (frame F) (sync_eval_job (C := C) j).
Proof. intros HF. unfold sync_eval_job, _fetch_code_eval_results. preserves_auto. Qed.

Lemma sync_training_frame j :
  fp_training F (tr_id j) → preserves (frame F) (sync_training_job (C := C) cfg j).
Proof. intros HF. unfold sync_training_job. preserves_auto. Qed.

Lemma sync_curator_frame j :
  fp_curator F (cu_id j) → preserves (frame F) (sync_curator_job (C := C) cfg j).
Proof.
  intros HF. unfold sync_curator_job, curator_unreachable, _release_curator_card,
    _finalize_curator_job.
  preserves_auto. by apply update_curator_frame.
Qed.

Lemma sync_publish_frame j :
  fp_publish F (pb_id j) → preserves (frame F) (sync_publish_job (C := C) cfg j).
Proof.
  intros HF. unfold sync_publish_job, complete_publish, _release_publish_card.
  preserves_auto.
Qed.

Lemma stop_requeue_frame reason j :
  fp_curator F (cu_id j) →
  preserves (frame F) (_stop_and_requeue_curator_job (C := C) cfg reason j).
Proof.
  intros HF. unfold _stop_and_requeue_curator_job. preserves_auto;
    by apply update_curator_frame.
Qed.

(** *** Passes *)

Lemma pass1_frame slots rem cands d :
  (∀ c, c ∈ cands → writes_to F c.2) →
  preserves (frame F) (pass1 (C := C) cfg slots rem cands d).
Proof.
  revert d. induction cands as [|[jt job] cands IH]; intros d Hc; cbn [pass1];
    [by apply preserves_ret, _|].
  assert (∀ d', preserves (frame F) (pass1 (C := C) cfg slots rem cands d')) as IH'
    by (intros d'; apply IH; intros; apply Hc; by right).
  preserves_auto. apply dispatch_frame. apply (Hc (jt, job)). left.
Qed.

Lemma dispatch_type_frame jt slot rem cands d :
  (∀ job, job ∈ cands → writes_to F job) →
  preserves (frame F) (dispatch_type (C := C) cfg jt slot rem cands d).
Proof.
  revert d. induction cands as [|job cands IH]; intros d Hc; cbn [dispatch_type];
    [by apply preserves_ret, _|].
  assert (∀ d', preserves (frame F) (dispatch_type (C := C) cfg jt slot rem cands d')) as IH'
    by (intros d'; apply IH; intros; apply Hc; by right).
  preserves_auto. apply dispatch_frame, Hc. left.
Qed.

End leaves.

(** ** Settled rows *)

Definition any_status (job : AnyJob) : JobStatus :=
  match job with
  | JTraining j => tr_status j
  | JEval j => ev_status j
  | JCurator j => cu_status j
  | JPublish j => pb_status j
  end.

Definition any_priority (job : AnyJob) : string :=
  match job with
  | JTraining j => tr_priority j
  | JEval j => ev_priority j
  | JCurator j => cu_priority j
  | JPublish j => pb_priority j
  end.

(** The job is a row of its table. *)
Definition row_in (job : AnyJob) w : Prop :=
  match job with
  | JTraining j => j ∈ q_training w
  | JEval j => j ∈ q_eval w
  | JCurator j => j ∈ q_curator w
  | JPublish j => j ∈ q_publish w
  end.

(** Each table has one row per id. *)
Definition wf w : Prop :=
  NoDup (keys (q_training w)) ∧ NoDup (keys (q_eval w)) ∧
  NoDup (keys (q_curator w)) ∧ NoDup (keys (q_publish w)).

Lemma keys_eval w : keys (q_eval w) = ((λ j, (ev_id j, ev_eval_type j)) <$> q_eval w).*1.
Proof. by rewrite <- list_fmap_compose. Qed.

Lemma shape_wf w w' : shape w' = shape w → wf w → wf w'.
Proof.
  intros Hs (HT & HE & HC & HP). unfold wf. rewrite keys_eval in *. unfold shape in Hs.
  injection Hs as Ht He Hc Hp _ _ _. rewrite He. split_and!; [|done|..].
  - change (NoDup (tr_id <$> q_training w')). by rewrite Ht.
  - change (NoDup (cu_id <$> q_curator w')). by rewrite Hc.
  - change (NoDup (pb_id <$> q_publish w')). by rewrite Hp.
Qed.

(** Rows with a settled status are left exactly as they are. *)
Definition rows_kept {A} `{JobRow A} (t t' : list A) : Prop :=
  ∀ id r, find_row id t = Some r → terminal (job_status r) = true → find_row id t' = Some r.

Definition settled_kept w w' : Prop :=
  shape w' = shape w ∧
  (wf w → rows_kept (q_training w) (q_training w') ∧ rows_kept (q_eval w) (q_eval w') ∧
          rows_kept (q_curator w) (q_curator w') ∧ rows_kept (q_publish w) (q_publish w')).

#[export] Instance settled_kept_preorder : PreOrder settled_kept.
Proof.
  split; [by intros w; split; [done|]; intros _; split_and!; intros id r|].
  intros w1 w2 w3 [S1 K1] [S2 K2]. split; [congruence|]. intros Hwf.
  destruct (K1 Hwf) as (T1 & E1 & C1 & P1).
  destruct (K2 (shape_wf _ _ S1 Hwf)) as (T2 & E2 & C2 & P2).
  split_and!; intros id r Hr Ht; auto.
Qed.

(** The footprint of the jobs in [l]. *)
Definition covers (l : list AnyJob) : footprint :=
  mkFootprint (λ id, ∃ j, JTraining j ∈ l ∧ tr_id j = id) (λ id, ∃ j, JEval j ∈ l ∧ ev_id j = id)
    (λ id, ∃ j, JCurator j ∈ l ∧ cu_id j = id) (λ id, ∃ j, JPublish j ∈ l ∧ pb_id j = id).

Lemma covers_writes l job : job ∈ l → writes_to (covers l) job.
Proof. destruct job; simpl; eauto. Qed.

(** Rows of [w] that have not settled. *)
Definition unsettled w (l : list AnyJob) : Prop :=
  ∀ job, job ∈ l → row_in job w ∧ terminal (any_status job) = false.

Lemma kept_outside {A} `{JobRow A} (P : string → Prop) (t t' : list A) :
  NoDup (keys t) → (∀ id, ¬ P id → find_row id t' = find_row id t) →
  (∀ id, P id → ∃ j, j ∈ t ∧ row_key j = id ∧ terminal (job_status j) = false) →
  rows_kept t t'.
Proof.
  intros Hnd Hout HP id r Hr Ht. rewrite Hout; [done|]. intros (j & Hj & <- & Hs)%HP.
  rewrite find_row_elem in Hr by done. simplify_eq. by rewrite Hs in Ht.
Qed.

Lemma frame_settled l w w' : frame (covers l) w w' → unsettled w l → settled_kept w w'.
Proof.
  intros (HS & HT & HE & HC & HP) Hl. split; [done|]. intros (NT & NE & NC & NP).
  split_and!; (eapply kept_outside; [done|done|]); simpl; intros id (j & Hj & <-);
    destruct (Hl _ Hj); by exists j.
Qed.

Lemma phase_settled {A} (m : queue C A) l w :
  preserves (frame (covers l)) m → unsettled w l → preserves_at settled_kept m w.
Proof. intros Hm Hl. by apply (frame_settled l). Qed.

(** A phase: a loop over unsettled rows read at its start. *)
Lemma loop_settled {A} (g : A → AnyJob) (f : A → queue C unit) (l : list A) w :
  (∀ F x, writes_to F (g x) → preserves (frame F) (f x)) →
  (∀ x, x ∈ l → row_in (g x) w ∧ terminal (any_status (g x)) = false) →
  preserves_at settled_kept (for_each f l) w.
Proof.
  intros Hf Hl. apply (phase_settled _ (g <$> l)).
  - apply for_each_frame. intros x Hx. apply Hf, covers_writes. by apply list_elem_of_fmap_2.
  - intros job (x & -> & Hx)%list_elem_of_fmap. by apply Hl.
Qed.

Lemma settled_gets {A} (f : QWorld C → queue C A) :
  (∀ w, preserves_at settled_kept (f w) w) → preserves settled_kept (gets id ≫= f).
Proof. intros Hf w. apply Hf. Qed.

Lemma elem_of_running {A} `{JobRow A} (t : list A) j :
  j ∈ running t ↔ job_status j = RUNNING ∧ j ∈ t.
Proof. unfold running, get_jobs_by_status. by rewrite list_elem_of_filter. Qed.

Lemma elem_of_queued_with {A} `{JobRow A} prio (t : list A) j :
  j ∈ queued_with prio t ↔ (job_priority j = prio ∧ job_status j = QUEUED) ∧ j ∈ t.
Proof. unfold queued_with. by rewrite list_elem_of_filter. Qed.

Lemma elem_of_due {A} `{JobRow A} now (t : list A) j :
  j ∈ get_due_scheduled_jobs now t ↔ (job_status j = SCHEDULED ∧ due now j = true) ∧ j ∈ t.
Proof. unfold get_due_scheduled_jobs. by rewrite sort_by_elem_of, list_elem_of_filter. Qed.

Lemma not_terminal st : st = PENDING ∨ st = SCHEDULED ∨ st = QUEUED ∨ st = RUNNING →
  terminal st = false.
Proof. by intros [->|[->|[->| ->]]]. Qed.

(** The two facts a phase over [x] needs: it is a row, and it is unsettled. *)
Ltac phase_row :=
  intros ? Hin;
  rewrite ?sort_by_elem_of, ?elem_of_running, ?elem_of_due, ?elem_of_queued_with,
    ?list_elem_of_filter in Hin;
  simpl in *; split; [by destruct_and?|];
  apply not_terminal; simpl; tauto.

Lemma sync_eval_settled : preserves settled_kept (_sync_eval (C := C)).
Proof.
  apply settled_gets. intros w. apply (loop_settled JEval); [apply sync_eval_frame|phase_row].
Qed.

Lemma sync_curator_settled : preserves settled_kept (_sync_running_curator_jobs (C := C) cfg).
Proof.
  apply settled_gets. intros w.
  apply (loop_settled JCurator); [apply sync_curator_frame|phase_row].
Qed.

Lemma sync_training_settled :
  preserves settled_kept (_sync_running_training_jobs (C := C) cfg).
Proof.
  apply preserves_if; [by apply preserves_ret, _|]. case_decide; [by apply preserves_ret, _|].
  apply settled_gets. intros w.
  apply (loop_settled JTraining); [apply sync_training_frame|phase_row].
Qed.

Lemma sync_publish_settled : preserves settled_kept (_sync_running_publish_jobs (C := C) cfg).
Proof.
  apply preserves_if; [by apply preserves_ret, _|]. case_decide; [by apply preserves_ret, _|].
  apply settled_gets. intros w.
  apply (loop_settled JPublish); [apply sync_publish_frame|]. intros j Hin.
  unfold PublishJobs.get_jobs_by_status, oldest_first in Hin.
  rewrite sort_by_elem_of, list_elem_of_filter in Hin.
  simpl. split; [by destruct_and?|]. apply not_terminal. simpl in Hin. tauto.
Qed.

Lemma expire_settled : preserves settled_kept (_expire_stale_training_jobs (C := C)).
Proof.
  intros w. unfold _expire_stale_training_jobs, update_training, state_of, modify. simpl.
  split.
  - unfold shape. simpl. do 6 f_equal. unfold update_where. rewrite <- list_fmap_compose.
    apply list_fmap_ext. intros i j _. simpl. by case_bool_decide.
  - intros _. split_and!; try (by intros id r). simpl. intros id r Hr Ht.
    rewrite find_update_where, Hr by by intros j. simpl.
    rewrite bool_decide_false; [done|]. intros [Hs _]. simpl in Ht. by rewrite Hs in Ht.
Qed.

Lemma sync_settled : preserves settled_kept (_sync_running_jobs (C := C) cfg).
Proof.
  unfold _sync_running_jobs. preserves_auto;
    eauto using sync_eval_settled, sync_curator_settled, sync_training_settled,
      sync_publish_settled, expire_settled.
Qed.

(** A phase that reads the state, loops, and goes on. *)
Lemma settled_phase {A B} (l : QWorld C → queue C A) (k : queue C B) :
  (∀ w, preserves_at settled_kept (l w) w) → preserves settled_kept k →
  preserves settled_kept (w ← gets id; l w;; k).
Proof.
  intros Hl Hk w. change (preserves_at settled_kept (l w ≫= λ _, k) w).
  apply (preserves_at_bind settled_kept); [apply Hl|]. intros _ s' _. apply Hk.
Qed.

Lemma promote_settled : preserves settled_kept (_promote_scheduled_jobs (C := C)).
Proof.
  unfold _promote_scheduled_jobs.
  apply settled_phase.
  { intros w. apply (loop_settled JEval); [intros; by apply set_eval_frame|phase_row]. }
  apply settled_phase.
  { intros w. apply (loop_settled JTraining); [intros; by apply set_training_frame|phase_row]. }
  apply settled_phase.
  { intros w. apply (loop_settled JCurator); [intros; by apply set_curator_frame|phase_row]. }
  apply settled_phase.
  { intros w. apply (loop_settled JPublish); [intros; by apply set_publish_frame|].
    unfold PublishJobs.get_due_scheduled_jobs. phase_row. }
  apply settled_phase.
  { intros w. apply (loop_settled JEval); [intros; by apply set_eval_frame|].
    unfold get_jobs_by_status. phase_row. }
  apply settled_phase.
  { intros w. apply (loop_settled JTraining); [intros; by apply set_training_frame|].
    unfold get_jobs_by_status. phase_row. }
  apply settled_gets. intros w.
  apply (loop_settled JCurator); [intros; by apply set_curator_frame|phase_row].
Qed.

Lemma run_now_settled : preserves settled_kept (_dispatch_run_now_jobs (C := C) cfg).
Proof.
  apply settled_gets. intros w.
  set (all := (JTraining <$> oldest_first (queued_with "run_now" (q_training w))) ++
    (JEval <$> oldest_first (queued_with "run_now" (q_eval w))) ++
    (JCurator <$> oldest_first (queued_with "run_now" (q_curator w))) ++
    (JPublish <$> oldest_first (queued_with "run_now" (q_publish w)))).
  apply (phase_settled _ all).
  - assert (∀ job, job ∈ all → writes_to (covers all) job) as Hall by apply covers_writes.
    repeat (apply preserves_bind; [apply _| |intros _]);
      apply for_each_frame; intros j Hj; apply dispatch_frame, Hall; unfold all;
      rewrite !elem_of_app, !list_elem_of_fmap; eauto 10.
  - intros job Hjob. unfold all in Hjob. rewrite !elem_of_app, !list_elem_of_fmap in Hjob.
    destruct Hjob as [(j & -> & Hj)|[(j & -> & Hj)|[(j & -> & Hj)|(j & -> & Hj)]]];
      revert j Hj; unfold oldest_first; phase_row.
Qed.

Lemma dry_run_settled : preserves settled_kept (_dispatch_dry_run_eval_jobs (C := C) cfg).
Proof.
  apply settled_gets. intros w. apply (loop_settled JEval).
  - intros F j HF. destruct (dry_run (ev_meta j)); [by apply dispatch_frame|].
    by apply preserves_ret, _.
  - unfold oldest_first, get_jobs_by_status. phase_row.
Qed.

Lemma window_end_settled window :
  preserves settled_kept (_enforce_curator_window_end (C := C) cfg window).
Proof.
  apply preserves_if; [by apply preserves_ret, _|]. apply settled_gets. intros w.
  cbv zeta. case_decide; [change (settled_kept w w); reflexivity|].
  apply (phase_settled _ (JCurator <$> running (q_curator w))).
  - assert (∀ j, j ∈ running (q_curator w) →
      fp_curator (covers (JCurator <$> running (q_curator w))) (cu_id j)) as Hcov.
    { intros j Hj. apply (covers_writes _ (JCurator j)). by apply list_elem_of_fmap_2. }
    destruct (negb _).
    + apply preserves_bind; [apply _|apply for_each_frame; intros; by apply set_curator_frame, Hcov|].
      intros _. preserves_auto; [apply log_frame|apply (card_frame _ (λ w, card_release CURATOR_AUDIENCE (q_card w)))].
    + apply preserves_bind; [apply _|apply for_each_frame; intros; by apply stop_requeue_frame, Hcov|].
      intros _. apply release_card_frame.
  - intros job (j & -> & Hj)%list_elem_of_fmap. revert j Hj. phase_row.
Qed.

(** The candidates of a slot are queued rows of the priority asked for. *)
Lemma candidates_spec prio jt w job :
  job ∈ candidates prio jt w →
  row_in job w ∧ any_status job = QUEUED ∧ any_priority job = prio.
Proof.
  unfold candidates. repeat case_decide; rewrite ?list_elem_of_fmap;
    try (intros (j & -> & Hj); rewrite ?list_elem_of_filter, ?elem_of_queued_with in Hj;
      simpl in *; tauto).
  by intros ?%elem_of_nil.
Qed.

Lemma candidates_unsettled prio jt w : unsettled w (candidates prio jt w).
Proof. intros job (Hrow & Hst & _)%candidates_spec. by rewrite Hst. Qed.

Lemma high_candidates_spec slots w jt job :
  (jt, job) ∈ high_candidates slots w → jt ∈ slots.*1 ∧ job ∈ candidates "high" jt w.
Proof.
  unfold high_candidates. rewrite sort_by_elem_of, list_elem_of_bind.
  intros ([jt' slot] & (job' & [= -> ->] & Hjob)%list_elem_of_fmap & Hin).
  split; [|done]. by apply list_elem_of_fmap_2 with (f := fst) in Hin.
Qed.

Lemma pass1_settled slots rem d w :
  preserves_at settled_kept (pass1 (C := C) cfg slots rem (high_candidates slots w) d) w.
Proof.
  apply (phase_settled _ (high_candidates slots w).*2).
  - apply pass1_frame. intros c Hc. apply covers_writes. by apply list_elem_of_fmap_2.
  - intros job ([jt job'] & -> & [_ Hin]%high_candidates_spec)%list_elem_of_fmap.
    by apply (candidates_unsettled "high" jt w).
Qed.

Lemma dispatch_type_settled jt slot rem prio n d w :
  preserves_at settled_kept (dispatch_type (C := C) cfg jt slot rem
    (take n (oldest_job_first (candidates prio jt w))) d) w.
Proof.
  apply (phase_settled _ (take n (oldest_job_first (candidates prio jt w)))).
  - apply dispatch_type_frame. intros job. apply covers_writes.
  - intros job Hjob. apply (candidates_unsettled prio jt w).
    unfold oldest_job_first in Hjob. rewrite <- (sort_by_elem_of any_created_at).
    apply subseteq_take in Hjob. done.
Qed.

Lemma pass2_settled slots rem types d :
  preserves settled_kept (pass2 (C := C) cfg slots rem types d).
Proof.
  revert d. induction types as [|jt types IH]; intros d; cbn [pass2]; [by apply preserves_ret, _|].
  destruct (dict_get jt slots) as [slot|]; [|apply IH]. apply settled_gets. intros w. cbv zeta.
  apply (preserves_at_bind settled_kept); [|intros; apply IH].
  case_decide; [apply (dispatch_type_settled jt slot rem "" 0)|].
  rewrite <- (firstn_all (oldest_job_first _)). apply dispatch_type_settled.
Qed.

Lemma pass3_settled slots rem d : preserves settled_kept (pass3 (C := C) cfg slots rem d).
Proof.
  unfold pass3. destruct (dict_get _ slots) as [slot|]; [|by apply preserves_ret, _].
  apply settled_gets. intros w. cbv zeta.
  case_decide; [change (settled_kept w w); reflexivity|].
  apply (preserves_at_bind settled_kept); [apply dispatch_type_settled|].
  intros _ w' _. change (settled_kept w' w'). reflexivity.
Qed.

Lemma window_jobs_settled window :
  preserves settled_kept (_dispatch_window_jobs (C := C) cfg window).
Proof.
  apply settled_gets. intros w. cbv zeta.
  case_decide; [change (settled_kept w w); reflexivity|].
  apply (preserves_at_bind settled_kept); [apply pass1_settled|]. intros d1 w1 _.
  apply (preserves_at_bind settled_kept); [apply pass2_settled|]. intros d2 w2 _.
  apply pass3_settled.
Qed.

Lemma cycle_settled lock : preserves settled_kept (cycle (C := C) cfg lock).
Proof.
  apply preserves_if; [by apply preserves_ret, _|].
  apply preserves_bind; [apply _|apply sync_settled|intros _].
  apply preserves_bind; [apply _|apply promote_settled|intros _].
  apply preserves_bind; [apply _|apply run_now_settled|intros _].
  apply preserves_bind; [apply _|apply dry_run_settled|intros _].
  apply settled_gets. intros w. cbv zeta.
  apply (preserves_at_bind settled_kept); [apply window_end_settled|]. intros _ w1 _.
  destruct (_get_active_window w); [apply window_jobs_settled|].
  change (settled_kept w1 w1). reflexivity.
Qed.

(** ** Running jobs *)

(** The job, taken as one of type [jt], is one of the rows there are. *)
Definition typed (jt : string) (job : AnyJob) w : Prop :=
  match job with
  | JTraining _ => jt = "training"
  | JEval j => (jt = "language-eval" ∨ jt = "code-eval") ∧
               (ev_id j, jt) ∈ (λ j, (ev_id j, ev_eval_type j)) <$> q_eval w
  | JCurator _ => jt = "curator"
  | JPublish _ => jt = "publish"
  end.

(** At most [n] more jobs of type [jt] run, and no more of any other type. *)
Definition adds (jt : string) (n : Z) w w' : Prop :=
  shape w' = shape w ∧
  (wf w → ∀ t, _running_count t w' ≤ _running_count t w + if decide (t = jt) then n else 0).

#[export] Instance adds_preorder jt : PreOrder (adds jt 0).
Proof.
  split; [split; [done|]; intros; case_decide; lia|].
  intros w1 w2 w3 [S1 A1] [S2 A2]. split; [congruence|]. intros Hwf t.
  specialize (A1 Hwf t). specialize (A2 (shape_wf _ _ S1 Hwf) t). case_decide; lia.
Qed.

Lemma adds_trans jt n m w1 w2 w3 : adds jt n w1 w2 → adds jt m w2 w3 → adds jt (n + m) w1 w3.
Proof.
  intros [S1 A1] [S2 A2]. split; [congruence|]. intros Hwf t.
  specialize (A1 Hwf t). specialize (A2 (shape_wf _ _ S1 Hwf) t). case_decide; lia.
Qed.

Lemma adds_le jt n m w w' : n ≤ m → adds jt n w w' → adds jt m w w'.
Proof. intros Hle [S A]. split; [done|]. intros Hwf t. specialize (A Hwf t). case_decide; lia. Qed.

Lemma running_count_eq w w' t :
  q_eval w' = q_eval w → q_training w' = q_training w → q_curator w' = q_curator w →
  q_publish w' = q_publish w → _running_count t w' = _running_count t w.
Proof. unfold _running_count. by intros -> -> -> ->. Qed.

Lemma remote_adds jt w w' : remote w w' → adds jt 0 w w'.
Proof.
  intros Hr. split; [by apply (remote_frame (covers []))|]. intros _ t.
  destruct Hr as (? & ? & ? & ? & _). rewrite (running_count_eq w w') by done.
  case_decide; lia.
Qed.

(** Every row may be written. *)
Definition anywhere : footprint :=
  mkFootprint (λ _, True) (λ _, True) (λ _, True) (λ _, True).

Lemma running_update_succ {A} `{JobRow A} id f (t : list A) :
  NoDup (keys t) → (length (running (update_row id f t)) ≤ S (length (running t)))%nat.
Proof. apply filter_update_row_succ. Qed.

Lemma running_eval (jt : string) (t : list EvalJob) :
  filter (λ j, ev_eval_type j = jt) (running t) =
  filter (λ j, ev_eval_type j = jt ∧ ev_status j = RUNNING) t.
Proof. unfold running, get_jobs_by_status. by rewrite list_filter_filter. Qed.

Ltac count_cases :=
  unfold _running_count; simpl;
  unfold TrainingJobs.update_job_status, EvalJobs.update_job_status,
    CuratorJobs.update_job_status, PublishJobs.mark_dispatched; repeat case_decide; subst; try done; try lia.

Section counts.
Context (jt : string).

Lemma update_training_adds id (f : Z → TrainingJob → TrainingJob) :
  (∀ now j, tr_id (f now j) = tr_id j) → (∀ now j, tr_status (f now j) = RUNNING → tr_status j = RUNNING) →
  preserves (adds jt 0) (update_training (C := C) (λ now, update_row id (f now))).
Proof.
  intros Hid Hf w. split; [by apply (update_training_frame anywhere)|]. intros _ t.
  assert (length (running (update_row id (f (q_now w)) (q_training w)))
    ≤ length (running (q_training w)))%nat.
  { apply filter_update_row_le. intros r _ _. apply Hf. }
  unfold state_of. count_cases.
Qed.

Lemma update_eval_adds id (f : Z → EvalJob → EvalJob) :
  (∀ now j, ev_id (f now j) = ev_id j ∧ ev_eval_type (f now j) = ev_eval_type j) →
  (∀ now j, ev_status (f now j) = RUNNING → ev_status j = RUNNING) →
  preserves (adds jt 0) (update_eval (C := C) (λ now, update_row id (f now))).
Proof.
  intros Hid Hf w. split; [by apply (update_eval_frame anywhere)|]. intros _ t.
  assert (length (filter (λ j, ev_eval_type j = t) (running (update_row id (f (q_now w)) (q_eval w))))
    ≤ length (filter (λ j, ev_eval_type j = t) (running (q_eval w))))%nat.
  { rewrite !running_eval. apply filter_update_row_le. intros r _ _ [Ht Hs].
    split; [by rewrite <- Ht; symmetry; apply Hid|by eapply Hf]. }
  unfold state_of. count_cases.
Qed.

Lemma update_curator_adds id (f : Z → CuratorJob → CuratorJob) :
  (∀ now j, cu_id (f now j) = cu_id j) →
  (∀ now j, cu_status (f now j) = RUNNING → cu_status j = RUNNING) →
  preserves (adds jt 0) (update_curator (C := C) (λ now, update_row id (f now))).
Proof.
  intros Hid Hf w. split; [by apply (update_curator_frame anywhere)|]. intros _ t.
  assert (length (running (update_row id (f (q_now w)) (q_curator w)))
    ≤ length (running (q_curator w)))%nat.
  { apply filter_update_row_le. intros r _ _. apply Hf. }
  unfold state_of. count_cases.
Qed.

Lemma update_publish_adds id (f : Z → PublishJob → PublishJob) :
  (∀ now j, pb_id (f now j) = pb_id j) →
  (∀ now j, pb_status (f now j) = RUNNING → pb_status j = RUNNING) →
  preserves (adds jt 0) (update_publish (C := C) (λ now, update_row id (f now))).
Proof.
  intros Hid Hf w. split; [by apply (update_publish_frame anywhere)|]. intros _ t.
  assert (length (running (update_row id (f (q_now w)) (q_publish w)))
    ≤ length (running (q_publish w)))%nat.
  { apply filter_update_row_le. intros r _ _. apply Hf. }
  unfold state_of. count_cases.
Qed.

Lemma wait_adds id reason :
  preserves (adds jt 0)
    (update_publish (C := C) (λ now, PublishJobs.record_wait_reason now id reason)).
Proof.
  intros w. unfold update_publish, state_of, modify, PublishJobs.record_wait_reason. simpl.
  destruct (find_row id (q_publish w)) as [j|]; [case_decide|];
    try (by destruct w; reflexivity).
  by apply (update_publish_adds id (λ now, PublishJobs.wait_row now reason)).
Qed.

Lemma call_adds : preserves (adds jt 0) (call (C := C)).
Proof. intros w. apply remote_adds, call_remote. Qed.

Lemma log_adds e : preserves (adds jt 0) (log_event (C := C) e).
Proof. intros w. split; [done|]. intros _ t. rewrite (running_count_eq w); [|done..]. case_decide; lia. Qed.

Lemma card_adds (f : QWorld C → C) :
  preserves (adds jt 0) (modify (λ w, w <| q_card := f w |>) : queue C unit).
Proof. intros w. split; [done|]. intros _ t. rewrite (running_count_eq w); [|done..]. case_decide; lia. Qed.

Lemma fail_training_adds id remote idx err :
  preserves (adds jt 0) (set_training (C := C) id FAILED remote idx err).
Proof. by apply update_training_adds. Qed.

Lemma fail_eval_adds id err : preserves (adds jt 0) (set_eval (C := C) id FAILED err).
Proof. by apply update_eval_adds. Qed.

Lemma hold_curator_adds id st remote idx err :
  st ≠ RUNNING → preserves (adds jt 0) (set_curator (C := C) id st remote idx err).
Proof. intros Hst. by apply update_curator_adds. Qed.

Lemma fail_publish_adds id err res :
  preserves (adds jt 0) (set_publish (C := C) id FAILED err res).
Proof. by apply update_publish_adds. Qed.
#[local] Hint Resolve wait_adds call_adds log_adds card_adds fail_training_adds
  fail_eval_adds hold_curator_adds fail_publish_adds : s2db.

Lemma release_card_adds cid t : preserves (adds jt 0) (release_card (C := C) cid t).
Proof. unfold release_card. preserves_auto. Qed.

Lemma acquire_card_adds cid failed id : preserves (adds jt 0) (acquire_card (C := C) cid failed id).
Proof. unfold acquire_card. preserves_auto. Qed.

Lemma ensure_ready_adds m :
  preserves (adds jt 0) (_ensure_llamolotl_model_ready (C := C) cfg m).
Proof.
  unfold _ensure_llamolotl_model_ready. preserves_auto. apply for_each_preserves; [apply _|].
  intros base _. unfold unload_others. preserves_auto.
  apply for_each_preserves; [apply _|]. intros m' _. preserves_auto.
Qed.

Lemma ship_adds j : preserves (adds jt 0) (ship_to_curator (C := C) cfg j).
Proof. unfold ship_to_curator. preserves_auto. Qed.

(** Programs that start at most one job of the type, from any state of the given
    shape. *)
Definition starts_one {A} (w0 : QWorld C) (m : queue C A) : Prop :=
  ∀ w, shape w = shape w0 → preserves_at (adds jt 1) m w.

Lemma starts_none {A} w0 (m : queue C A) : preserves (adds jt 0) m → starts_one w0 m.
Proof. intros Hm w _. apply (adds_le jt 0); [lia|apply Hm]. Qed.

Lemma starts_bind {A B} w0 (m : queue C A) (f : A → queue C B) :
  preserves (adds jt 0) m → (∀ a, starts_one w0 (f a)) → starts_one w0 (m ≫= f).
Proof.
  intros Hm Hf w Hw. unfold preserves_at, state_of. rewrite run_bind.
  specialize (Hm w). unfold state_of in Hm. destruct (m w) as [[a|[]] w1]. simpl in Hm.
  apply (adds_trans jt 0 1 w w1); [done|]. apply Hf. destruct Hm as [-> _]. done.
Qed.

End counts.

(** One step of a [starts_one] goal. *)
Ltac starts_step :=
  lazymatch goal with
  | |- starts_one _ _ (_ ≫= _) => apply starts_bind; [|intros ?]
  | |- starts_one _ _ (mret _) => apply starts_none; apply preserves_ret, _
  | |- starts_one _ _ (if decide _ then _ else _) => case_decide
  | |- starts_one _ _ (if ?b then _ else _) => destruct b eqn:?
  | |- starts_one _ _ (match ?x with _ => _ end) => destruct x eqn:?
  | |- preserves (adds _ 0) (gets _) => apply preserves_gets, _
  | |- preserves (adds _ 0) (mret _) => apply preserves_ret, _
  | |- preserves (adds _ 0) (if ?b then _ else _) => destruct b
  end.

#[local] Hint Resolve wait_adds call_adds log_adds card_adds fail_training_adds
  fail_eval_adds hold_curator_adds fail_publish_adds release_card_adds acquire_card_adds
  ensure_ready_adds ship_adds starts_none : s2db.

Lemma start_training id remote idx err w0 :
  starts_one "training" w0 (set_training (C := C) id RUNNING remote idx err).
Proof.
  intros w _. split; [by apply (set_training_frame anywhere)|]. intros (Hnd & _) t.
  pose proof (running_update_succ id
    (TrainingJobs.status_row (q_now w) RUNNING remote idx err) (q_training w) Hnd).
  unfold state_of. count_cases.
Qed.

Lemma start_curator id remote idx err w0 :
  starts_one "curator" w0 (set_curator (C := C) id RUNNING remote idx err).
Proof.
  intros w _. split; [by apply (set_curator_frame anywhere)|]. intros (_ & _ & Hnd & _) t.
  pose proof (running_update_succ id
    (CuratorJobs.status_row (q_now w) RUNNING remote idx err) (q_curator w) Hnd).
  unfold state_of. count_cases.
Qed.

Lemma start_publish id task idx w0 :
  starts_one "publish" w0
    (update_publish (C := C) (λ now, PublishJobs.mark_dispatched now id task idx)).
Proof.
  intros w _. split; [by apply (update_publish_frame anywhere id
    (λ now, PublishJobs.dispatched_row now task idx))|]. intros (_ & _ & _ & Hnd) t.
  pose proof (running_update_succ id
    (PublishJobs.dispatched_row (q_now w) task idx) (q_publish w) Hnd).
  unfold state_of. count_cases.
Qed.

Lemma start_eval jt j err w0 :
  typed jt (JEval j) w0 → starts_one jt w0 (set_eval (C := C) (ev_id j) RUNNING err).
Proof.
  intros [Hjt Hin] w Hw. split; [by apply (set_eval_frame anywhere)|]. intros (_ & Hnd & _) t.
  replace ((λ j, (ev_id j, ev_eval_type j)) <$> q_eval w0) with
    ((λ j, (ev_id j, ev_eval_type j)) <$> q_eval w) in Hin
    by (unfold shape in Hw; congruence).
  set (f := EvalJobs.status_row (q_now w) RUNNING err).
  pose proof (filter_update_row_succ (λ j, ev_eval_type j = t ∧ ev_status j = RUNNING)
    (ev_id j) f (q_eval w) Hnd) as Hsucc.
  assert (t ≠ jt →
    (length (filter (λ j, ev_eval_type j = t ∧ ev_status j = RUNNING)
      (update_row (ev_id j) f (q_eval w))) ≤
     length (filter (λ j, ev_eval_type j = t ∧ ev_status j = RUNNING) (q_eval w)))%nat) as Hother.
  { intros Hne. apply filter_update_row_le. intros r Hr Hk [Ht _]. destruct Hne.
    apply list_elem_of_fmap in Hin as (j' & [= Hid ->] & Hj').
    simpl in Ht. rewrite <- Ht. f_equal.
    apply (find_row_elem (q_eval w)) in Hr, Hj'; [|done..].
    change (row_key r) with (ev_id r) in *. change (row_key j') with (ev_id j') in *.
    rewrite <- Hid, Hk in *. congruence. }
  rewrite <- !running_eval in Hsucc, Hother. unfold state_of.
  case_decide as Heq; [clear Hother|specialize (Hother Heq)]; unfold _running_count; simpl;
    unfold EvalJobs.update_job_status; fold f; repeat case_decide; subst; try done; try lia;
    naive_solver.
Qed.

Lemma dispatch_adds jt job w :
  typed jt job w → preserves_at (adds jt 1) (_dispatch_job (C := C) cfg jt job) w.
Proof.
  intros Hty. enough (starts_one jt w (_dispatch_job (C := C) cfg jt job)) as H by by apply H.
  unfold _dispatch_job. starts_step; [auto with s2db|]. destruct job; simpl in Hty.
  - subst. unfold _dispatch_training_job.
    repeat (starts_step; auto using start_training with s2db).
  - unfold _dispatch_eval_job_by_type, dispatch_to_harness.
    repeat (starts_step; auto using start_eval with s2db).
    all: by apply update_eval_adds.
  - subst. unfold _dispatch_curator_job, _acquire_curator_card, _release_curator_card.
    repeat (starts_step; auto using start_curator with s2db).
  - subst. unfold _dispatch_publish_job, _acquire_publish_card, _release_publish_card.
    repeat (starts_step; auto using start_publish with s2db).
    preserves_auto.
Qed.

Lemma typed_shape jt job w w' : shape w' = shape w → typed jt job w → typed jt job w'.
Proof.
  destruct job; simpl; try done. unfold shape. intros Hs [Hjt Hin]. split; [done|].
  injection Hs as _ He _ _ _ _ _. by rewrite He.
Qed.

Lemma candidates_typed prio jt w job : job ∈ candidates prio jt w → typed jt job w.
Proof.
  unfold candidates. repeat case_decide; rewrite ?list_elem_of_fmap.
  - by intros (j & -> & _).
  - intros (j & -> & Hj). simpl. split; [done|].
    rewrite list_elem_of_filter, elem_of_queued_with in Hj. destruct Hj as [<- [_ Hj]].
    by apply (list_elem_of_fmap_2 (λ j, (ev_id j, ev_eval_type j))).
  - by intros (j & -> & _).
  - by intros (j & -> & _).
  - by intros ?%elem_of_nil.
Qed.

(** ** Window capacity *)

(** No type ends with more running jobs than it had or its slot allows; a type
    with no slot ends with no more than it had. *)
Definition capped (slots : list (string * JobWindowSlot)) w w' : Prop :=
  shape w' = shape w ∧
  (wf w → ∀ t, _running_count t w' ≤
    match dict_get t slots with
    | Some s => Z.max (_running_count t w) (js_max_concurrent s)
    | None => _running_count t w
    end).

#[export] Instance capped_preorder slots : PreOrder (capped slots).
Proof.
  split; [split; [done|]; intros; destruct (dict_get _ _); lia|].
  intros w1 w2 w3 [S1 A1] [S2 A2]. split; [congruence|]. intros Hwf t.
  specialize (A1 Hwf t). specialize (A2 (shape_wf _ _ S1 Hwf) t). destruct (dict_get t slots); lia.
Qed.

Definition tally_ok (d : tally) : Prop := ∀ t, 0 ≤ tally_get t d.

Lemma tally_ok_empty : tally_ok ∅.
Proof. intros t. unfold tally_get. by rewrite lookup_empty. Qed.

Lemma tally_ok_add jt d : tally_ok d → tally_ok (tally_add jt d).
Proof.
  intros Hd t. unfold tally_add. specialize (Hd t) as Ht. specialize (Hd jt).
  unfold tally_get at 1. destruct (decide (t = jt)) as [->|Hne].
  - rewrite lookup_insert_eq. simpl. lia.
  - by rewrite lookup_insert_ne.
Qed.

(** A dispatch below capacity stays within it. *)
Lemma dispatch_capped slots jt slot job d w :
  dict_get jt slots = Some slot → at_capacity jt slot d w = false → tally_ok d →
  typed jt job w → preserves_at (capped slots) (_dispatch_job (C := C) cfg jt job) w.
Proof.
  intros Hslot Hcap%bool_decide_eq_false Hd Hty.
  destruct (dispatch_adds jt job w Hty) as [Hs Ha]. split; [done|]. intros Hwf t.
  specialize (Ha Hwf t). specialize (Hd jt). case_decide; subst; [rewrite Hslot; lia|].
  destruct (dict_get t slots); lia.
Qed.

Lemma at_refl {A} (R : relation (QWorld C)) `{!PreOrder R} (a : A) w :
  preserves_at R (mret a : queue C A) w.
Proof. unfold preserves_at. simpl. reflexivity. Qed.

(** A pass stays within the slots and hands on a proper tally. *)
Definition caps slots w0 (o : result Empty_set tally * QWorld C) : Prop :=
  capped slots w0 o.2 ∧ match o.1 with Ok d => tally_ok d | Raise _ => False end.

Lemma caps_trans slots w0 w1 o : capped slots w0 w1 → caps slots w1 o → caps slots w0 o.
Proof. intros H1 [H2 Hd]. split; [by transitivity w1|done]. Qed.

Lemma caps_done slots w d : tally_ok d → caps slots w (Ok d, w).
Proof. split; [reflexivity|done]. Qed.

(** Dispatching one more job below capacity, and going on. *)
Lemma caps_dispatch slots jt slot job d w (k : tally → queue C tally) :
  dict_get jt slots = Some slot → at_capacity jt slot d w = false → tally_ok d →
  typed jt job w →
  (∀ w', shape w' = shape w → caps slots w' (k (tally_add jt d) w')) →
  caps slots w ((_dispatch_job (C := C) cfg jt job;; k (tally_add jt d)) w).
Proof.
  intros Hslot Hcap Hd Hty Hk.
  pose proof (dispatch_capped slots jt slot job d w Hslot Hcap Hd Hty) as Hdis.
  unfold preserves_at, state_of in Hdis. rewrite run_bind.
  destruct (_dispatch_job cfg jt job w) as [[u|[]] w1]. simpl in Hdis.
  eapply caps_trans; [done|]. apply Hk, Hdis.
Qed.

Lemma pass1_capped slots rem cands d w :
  (∀ jt job, (jt, job) ∈ cands → typed jt job w) → tally_ok d →
  caps slots w (pass1 (C := C) cfg slots rem cands d w).
Proof.
  revert d w. induction cands as [|[jt job] cands IH]; intros d w Hc Hd; [by apply caps_done|].
  cbn [pass1]. destruct (dict_get jt slots) as [slot|] eqn:Hslot; [|by apply caps_done].
  assert (∀ w', shape w' = shape w → ∀ jt' job', (jt', job') ∈ cands → typed jt' job' w') as Hc'.
  { intros w' Hs jt' job' Hin. eapply typed_shape, Hc; [done|by right]. }
  rewrite run_here.
  destruct (at_capacity jt slot d w) eqn:Hcap; [by apply IH; [apply Hc'|]|].
  destruct (negb _); [by apply IH; [apply Hc'|]|].
  apply (caps_dispatch slots jt slot job d w (pass1 cfg slots rem cands)); try done.
  - apply Hc. left.
  - intros w' Hs. apply IH; [by apply Hc'|by apply tally_ok_add].
Qed.

Lemma dispatch_type_capped slots jt slot rem cands d w :
  dict_get jt slots = Some slot → (∀ job, job ∈ cands → typed jt job w) → tally_ok d →
  caps slots w (dispatch_type (C := C) cfg jt slot rem cands d w).
Proof.
  intros Hslot. revert d w. induction cands as [|job cands IH]; intros d w Hc Hd;
    [by apply caps_done|]. cbn [dispatch_type].
  assert (∀ w', shape w' = shape w → ∀ job', job' ∈ cands → typed jt job' w') as Hc'.
  { intros w' Hs job' Hin. eapply typed_shape, Hc; [done|by right]. }
  rewrite run_here.
  destruct (at_capacity jt slot d w) eqn:Hcap; [by apply caps_done|].
  destruct (negb _); [by apply IH; [apply Hc'|]|].
  apply (caps_dispatch slots jt slot job d w (dispatch_type cfg jt slot rem cands)); try done.
  - apply Hc. left.
  - intros w' Hs. apply IH; [by apply Hc'|by apply tally_ok_add].
Qed.

Lemma candidates_type_typed jt prio n w job :
  job ∈ take n (oldest_job_first (candidates prio jt w)) → typed jt job w.
Proof.
  intros Hj%subseteq_take. unfold oldest_job_first in Hj. rewrite sort_by_elem_of in Hj.
  by apply candidates_typed in Hj.
Qed.

Lemma caps_bind {B} slots w (m : queue C tally) (k : tally → queue C B) :
  caps slots w (m w) →
  (∀ d w', tally_ok d → capped slots w' (state_of (k d) w')) →
  capped slots w (state_of (m ≫= k) w).
Proof.
  intros [Hm Hd] Hk. unfold state_of. rewrite run_bind.
  destruct (m w) as [[d|[]] w1]. simpl in *. transitivity w1; [done|by apply Hk].
Qed.

Lemma pass2_capped slots rem types d w :
  tally_ok d → caps slots w (pass2 (C := C) cfg slots rem types d w).
Proof.
  revert d w. induction types as [|jt types IH]; intros d w Hd; [by apply caps_done|].
  cbn [pass2]. destruct (dict_get jt slots) as [slot|] eqn:Hslot; [|by apply IH].
  rewrite run_here.
  rewrite run_bind.
  match goal with |- context [dispatch_type cfg jt slot rem ?l d w] =>
    assert (caps slots w (dispatch_type cfg jt slot rem l d w)) as [Hdis Hd'] end.
  { apply dispatch_type_capped; [done| |done]. intros job. case_decide; [by intros ?%elem_of_nil|].
    rewrite <- (firstn_all (oldest_job_first _)). apply candidates_type_typed. }
  destruct (dispatch_type _ _ _ _ _ d w) as [[d'|[]] w1]. simpl in *.
  eapply caps_trans; [done|by apply IH].
Qed.

Lemma pass3_capped slots rem d w :
  tally_ok d → capped slots w (state_of (pass3 (C := C) cfg slots rem d) w).
Proof.
  intros Hd. unfold pass3. destruct (dict_get _ slots) as [slot|] eqn:Hslot; [|reflexivity].
  unfold state_of. rewrite run_here. cbv zeta.
  case_decide; [reflexivity|].
  apply (caps_bind slots w); [|intros d' w' _; reflexivity].
  apply dispatch_type_capped; [done|apply candidates_type_typed|done].
Qed.

Lemma window_jobs_capped window w :
  capped (slots_by_type (ws_slots window)) w
    (state_of (_dispatch_window_jobs (C := C) cfg window) w).
Proof.
  unfold _dispatch_window_jobs, state_of. rewrite run_here. cbv zeta.
  case_decide; [reflexivity|].
  apply (caps_bind _ w); [|intros d1 w1 Hd1; apply (caps_bind _ w1)].
  - apply pass1_capped; [|apply tally_ok_empty]. intros jt job [_ Hin]%high_candidates_spec.
    by apply candidates_typed in Hin.
  - by apply pass2_capped.
  - intros d2 w2 Hd2. by apply pass3_capped.
Qed.

End facts.
