(* ===== verification/QueueTrace.v ===== *)
(** What the queue's programs leave in the trace: the order dispatches are made
    in, and when the exclusive lease is given back. *)

From stdpp Require Import gmap.
From S2P Require Import Prelude Data Jobs Queue QueueFacts.

Section trace.
Context {C : Type} `{!CardBroker C} (cfg : QConfig).
Implicit Types (w : QWorld C).

(** ** Events of a step *)

Abbreviation emits P := (extends q_trace P).

Lemma emits_same P w w' : q_trace w' = q_trace w → emits P w w'.
Proof. intros Ht. exists []. by rewrite Ht, app_nil_r. Qed.

Lemma emits_one (P : QEvent → Prop) e : P e → preserves (emits P) (log_event (C := C) e).
Proof. intros He w. exists [e]. split; [done|]. by apply Forall_singleton. Qed.

(** A release of a card is made with no job of its type running. *)
Definition idle_release (e : QEvent) : Prop :=
  match e with EvReleased _ n => n = 0 | _ => True end.

(** Neither a dispatch nor a release with a job still running. *)
Definition orderly (e : QEvent) : Prop :=
  match e with EvDispatch _ _ => False | _ => idle_release e end.

Section emitted.
Context (P : QEvent → Prop) (HP : ∀ e, orderly e → P e).

Lemma call_emits : preserves (emits P) (call (C := C)).
Proof. intros w. apply emits_same, call_remote. Qed.

Lemma record_emits : preserves (emits P) (next_record (C := C)).
Proof. intros w. apply emits_same, next_record_remote. Qed.

Lemma dataset_emits : preserves (emits P) (next_dataset (C := C)).
Proof. intros w. apply emits_same, next_dataset_remote. Qed.

Lemma training_emits f : preserves (emits P) (update_training (C := C) f).
Proof. intros w. by apply emits_same. Qed.
Lemma eval_emits f : preserves (emits P) (update_eval (C := C) f).
Proof. intros w. by apply emits_same. Qed.
Lemma curator_emits f : preserves (emits P) (update_curator (C := C) f).
Proof. intros w. by apply emits_same. Qed.
Lemma publish_emits f : preserves (emits P) (update_publish (C := C) f).
Proof. intros w. by apply emits_same. Qed.

Lemma set_training_emits id st r i e : preserves (emits P) (set_training (C := C) id st r i e).
Proof. apply training_emits. Qed.
Lemma set_eval_emits id st e : preserves (emits P) (set_eval (C := C) id st e).
Proof. apply eval_emits. Qed.
Lemma set_curator_emits id st r i e : preserves (emits P) (set_curator (C := C) id st r i e).
Proof. apply curator_emits. Qed.
Lemma set_publish_emits id st e r : preserves (emits P) (set_publish (C := C) id st e r).
Proof. apply publish_emits. Qed.

Lemma card_emits (f : QWorld C → C) :
  preserves (emits P) (modify (λ w, w <| q_card := f w |>) : queue C unit).
Proof. intros w. by apply emits_same. Qed.

Lemma log_emits e : orderly e → preserves (emits P) (log_event (C := C) e).
Proof. intros He. by apply emits_one, HP. Qed.

Lemma loop_emits {A} (f : A → queue C unit) (l : list A) :
  (∀ x, preserves (emits P) (f x)) → preserves (emits P) (for_each f l).
Proof. intros Hf. apply for_each_preserves; [apply _|auto]. Qed.

#[local] Hint Resolve call_emits record_emits dataset_emits training_emits eval_emits curator_emits
  publish_emits set_training_emits set_eval_emits set_curator_emits set_publish_emits
  card_emits loop_emits : s2db.
#[local] Hint Extern 2 (preserves _ (log_event _)) => apply log_emits; exact I : s2db.

Lemma running_count_nonneg jt w : 0 ≤ _running_count jt w.
Proof. unfold _running_count. repeat case_decide; lia. Qed.

Lemma release_card_emits cid jt : preserves (emits P) (release_card (C := C) cid jt).
Proof.
  intros w. unfold release_card, state_of. rewrite run_here.
  destruct (negb _); [by apply emits_same|]. case_decide as Hr; [by apply emits_same|].
  exists [EvReleased cid (_running_count jt w)]. split; [done|]. apply Forall_singleton, HP.
  simpl. pose proof (running_count_nonneg jt w). lia.
Qed.
#[local] Hint Resolve release_card_emits : s2db.

Lemma acquire_card_emits cid failed id :
  preserves (emits P) (acquire_card (C := C) cid failed id).
Proof. unfold acquire_card. preserves_auto. Qed.

Lemma ensure_ready_emits m :
  preserves (emits P) (_ensure_llamolotl_model_ready (C := C) cfg m).
Proof.
  unfold _ensure_llamolotl_model_ready. preserves_auto. apply loop_emits. intros base.
  unfold unload_others. preserves_auto. apply loop_emits. intros m'. preserves_auto.
Qed.

Lemma ship_emits j : preserves (emits P) (ship_to_curator (C := C) cfg j).
Proof. unfold ship_to_curator. preserves_auto. Qed.
#[local] Hint Resolve acquire_card_emits ensure_ready_emits ship_emits : s2db.

(** The body of a dispatch, after its own event. *)
Lemma dispatch_body_emits job :
  preserves (emits P)
    (match job with
     | JTraining j => _dispatch_training_job (C := C) cfg j
     | JEval j => _dispatch_eval_job_by_type cfg j
     | JCurator j => _dispatch_curator_job cfg j
     | JPublish j => _dispatch_publish_job cfg j
     end).
Proof.
  destruct job.
  - unfold _dispatch_training_job. preserves_auto.
  - unfold _dispatch_eval_job_by_type, dispatch_to_harness. preserves_auto.
  - unfold _dispatch_curator_job, _acquire_curator_card, _release_curator_card. preserves_auto.
  - unfold _dispatch_publish_job, _acquire_publish_card, _release_publish_card. preserves_auto.
Qed.

Lemma pull_files_emits files : preserves (emits P) (pull_files (C := C) files).
Proof.
  induction files as [|fn files IH]; simpl; [by intros w|].
  destruct (truthy fn); [|done]. preserves_auto.
Qed.
#[local] Hint Resolve pull_files_emits : s2db.

Lemma sync_emits : preserves (emits P) (_sync_running_jobs (C := C) cfg).
Proof.
  unfold _sync_running_jobs, _sync_eval, _sync_running_curator_jobs,
    _sync_running_training_jobs, _sync_running_publish_jobs, _expire_stale_training_jobs.
  preserves_auto; apply loop_emits; intros j.
  - unfold sync_eval_job, _fetch_code_eval_results. preserves_auto.
  - unfold sync_curator_job, curator_unreachable, _release_curator_card, _finalize_curator_job.
    preserves_auto.
  - unfold sync_training_job. preserves_auto.
  - unfold sync_publish_job, complete_publish, _release_publish_card. preserves_auto.
Qed.

Lemma promote_emits : preserves (emits P) (_promote_scheduled_jobs (C := C)).
Proof. unfold _promote_scheduled_jobs. preserves_auto; apply loop_emits; auto with s2db. Qed.

End emitted.

(** ** Releases *)

(** The releases a cycle may make: of an idle card, or, when window ends are not
    enforced, of the curator's card at the end of its window. *)
Definition proper_release (e : QEvent) : Prop :=
  idle_release e ∨
  (CURATOR_ENFORCE_WINDOW_END cfg = false ∧ ∃ n, e = EvReleased CURATOR_AUDIENCE n).

Lemma orderly_proper e : orderly e → proper_release e.
Proof. destruct e; simpl; try done; by left. Qed.

Lemma dispatch_releases jt job :
  preserves (emits proper_release) (_dispatch_job (C := C) cfg jt job).
Proof.
  unfold _dispatch_job. apply preserves_bind; [apply _|apply emits_one; by left|intros _].
  apply dispatch_body_emits, orderly_proper.
Qed.

Lemma pass1_releases slots rem cands d :
  preserves (emits proper_release) (pass1 (C := C) cfg slots rem cands d).
Proof.
  revert d. induction cands as [|[jt job] cands IH]; intros d; cbn [pass1];
    preserves_auto; try apply dispatch_releases; auto.
Qed.

Lemma dispatch_type_releases jt slot rem cands d :
  preserves (emits proper_release) (dispatch_type (C := C) cfg jt slot rem cands d).
Proof.
  revert d. induction cands as [|job cands IH]; intros d; cbn [dispatch_type];
    preserves_auto; try apply dispatch_releases; auto.
Qed.

Lemma pass2_releases slots rem types d :
  preserves (emits proper_release) (pass2 (C := C) cfg slots rem types d).
Proof.
  revert d. induction types as [|jt types IH]; intros d; cbn [pass2];
    preserves_auto; try apply dispatch_type_releases; auto.
Qed.

Lemma window_jobs_releases window :
  preserves (emits proper_release) (_dispatch_window_jobs (C := C) cfg window).
Proof.
  unfold _dispatch_window_jobs, pass3.
  preserves_auto; auto using pass1_releases, pass2_releases, dispatch_type_releases.
Qed.

Lemma window_end_releases window :
  preserves (emits proper_release) (_enforce_curator_window_end (C := C) cfg window).
Proof.
  unfold _enforce_curator_window_end. preserves_auto.
  - apply loop_emits. intros. apply set_curator_emits.
  - apply emits_one. right. split; [by apply negb_true_iff|eauto].
  - apply card_emits.
  - apply loop_emits. intros j. unfold _stop_and_requeue_curator_job. preserves_auto;
      auto using call_emits, curator_emits.
  - apply release_card_emits, orderly_proper.
Qed.

Lemma cycle_releases lock : preserves (emits proper_release) (cycle (C := C) cfg lock).
Proof.
  apply preserves_if; [by apply preserves_ret, _|].
  apply preserves_bind; [apply _|apply sync_emits, orderly_proper|intros _].
  apply preserves_bind; [apply _|apply promote_emits|intros _].
  apply preserves_bind; [apply _| |intros _].
  { unfold _dispatch_run_now_jobs.
    preserves_auto; apply loop_emits; intros j; apply dispatch_releases. }
  apply preserves_bind; [apply _| |intros _].
  { unfold _dispatch_dry_run_eval_jobs. preserves_auto. apply loop_emits. intros j.
    preserves_auto. apply dispatch_releases. }
  apply preserves_bind; [apply _|by apply preserves_gets, _|intros w]. cbv zeta.
  apply preserves_bind; [apply _|apply window_end_releases|intros _].
  destruct (_get_active_window w); [apply window_jobs_releases|by apply preserves_ret, _].
Qed.

(** ** Dispatches *)

Definition dispatches (es : list QEvent) : list (string * AnyJob) :=
  omap (λ e, match e with EvDispatch jt job => Some (jt, job) | _ => None end) es.

(** The step dispatches exactly [l], in that order. *)
Definition dispatched (l : list (string * AnyJob)) w w' : Prop :=
  dispatches (q_trace w') = dispatches (q_trace w) ++ l ∧ q_benchmarks w' = q_benchmarks w.

Lemma dispatched_trans l1 l2 w1 w2 w3 :
  dispatched l1 w1 w2 → dispatched l2 w2 w3 → dispatched (l1 ++ l2) w1 w3.
Proof. intros [H1 B1] [H2 B2]. split; [by rewrite H2, H1, app_assoc|congruence]. Qed.

Lemma dispatched_none w : dispatched [] w w.
Proof. split; [by rewrite app_nil_r|done]. Qed.

Lemma dispatch_dispatched jt job w :
  dispatched [(jt, job)] w (state_of (_dispatch_job (C := C) cfg jt job) w).
Proof.
  split.
  - unfold _dispatch_job, state_of. rewrite run_bind. unfold log_event, modify. simpl.
    set (w1 := mkQWorld _ _ _ _ _ _ _ _ _ _ _ _ _).
    destruct (dispatch_body_emits orderly (λ e He, He) job w1) as (es & Ht & Hes).
    assert (dispatches es = []) as Hnil.
    { clear Ht. induction Hes as [|e es He _ IH]; [done|]. by destruct e. }
    unfold state_of in Ht.
    assert (∀ a b, dispatches (a ++ b) = dispatches a ++ dispatches b) as Happ
      by (intros; apply omap_app).
    destruct job; simpl in *; rewrite Ht, !Happ, Hnil, app_nil_r; done.
  - pose proof (dispatch_frame cfg anywhere jt job) as Hf.
    assert (writes_to anywhere job) as Ha by by destruct job.
    destruct (Hf Ha w) as [Hs _]. unfold shape in Hs. congruence.
Qed.

(** What a pass dispatches out of its candidates. *)
Definition passes (slots : list (string * JobWindowSlot)) (remaining : Z) w0
    (cands : list (string * AnyJob)) (o : result Empty_set tally * QWorld C) : Prop :=
  ∃ l, dispatched l w0 o.2 ∧ l `sublist_of` cands ∧
    ∀ jt job, (jt, job) ∈ l → ∃ slot, dict_get jt slots = Some slot ∧
      fits jt slot remaining job w0 = true.

Lemma fits_same jt slot rem job w w' :
  q_benchmarks w' = q_benchmarks w → fits jt slot rem job w' = fits jt slot rem job w.
Proof. unfold fits. by intros ->. Qed.

Lemma passes_skip slots rem w c cands o :
  passes slots rem w cands o → passes slots rem w (c :: cands) o.
Proof.
  intros (l & Hl & Hsub & Hfit). exists l. split_and!; [done|by apply sublist_cons|done].
Qed.

Lemma passes_nothing slots rem w cands r : passes slots rem w cands (r, w).
Proof.
  exists []. split_and!; [apply dispatched_none|apply sublist_nil_l|].
  by intros jt job ?%elem_of_nil.
Qed.

Lemma passes_dispatch slots rem jt slot job cands w (k : queue C tally) :
  dict_get jt slots = Some slot → fits jt slot rem job w = true →
  (∀ w', passes slots rem w' cands (k w')) →
  passes slots rem w ((jt, job) :: cands) ((_dispatch_job (C := C) cfg jt job;; k) w).
Proof.
  intros Hslot Hfit Hk. pose proof (dispatch_dispatched jt job w) as Hd.
  unfold state_of in Hd. rewrite run_bind.
  destruct (_dispatch_job cfg jt job w) as [[u|[]] w1]. simpl in Hd.
  destruct (Hk w1) as (l & Hl & Hsub & Hfits). exists ((jt, job) :: l). split_and!.
  - by apply (dispatched_trans [_] l w w1).
  - by apply sublist_skip.
  - intros jt' job' [[= -> ->]|Hin]%elem_of_cons; [by exists slot|].
    destruct (Hfits _ _ Hin) as (slot' & Hs' & Hf'). exists slot'. split; [done|].
    rewrite <- Hf'. symmetry. apply fits_same, Hd.
Qed.

Lemma pass1_passes slots rem cands d w :
  passes slots rem w cands (pass1 (C := C) cfg slots rem cands d w).
Proof.
  revert d w. induction cands as [|[jt job] cands IH]; intros d w; [apply passes_nothing|].
  cbn [pass1]. destruct (dict_get jt slots) as [slot|] eqn:Hslot; [|apply passes_nothing].
  rewrite run_here.
  destruct (at_capacity jt slot d w); [apply passes_skip, IH|].
  destruct (fits jt slot rem job w) eqn:Hfit; simpl; [|apply passes_skip, IH].
  by apply (passes_dispatch slots rem jt slot).
Qed.

Lemma dispatch_type_passes slots jt slot rem cands d w :
  dict_get jt slots = Some slot →
  passes slots rem w (pair jt <$> cands) (dispatch_type (C := C) cfg jt slot rem cands d w).
Proof.
  intros Hslot. revert d w. induction cands as [|job cands IH]; intros d w;
    [apply passes_nothing|]. cbn [dispatch_type].
  rewrite run_here.
  destruct (at_capacity jt slot d w); [apply passes_nothing|]. rewrite fmap_cons.
  destruct (fits jt slot rem job w) eqn:Hfit; simpl; [|apply passes_skip, IH].
  by apply (passes_dispatch slots rem jt slot).
Qed.

(** ** The order of a window's dispatches *)

Lemma dict_set_keys {A} k (v : A) d :
  (dict_set k v d).*1 = if decide (k ∈ d.*1) then d.*1 else d.*1 ++ [k].
Proof.
  induction d as [|[k' v'] d IH]; cbn [dict_set].
  { rewrite decide_False; [done|apply not_elem_of_nil]. }
  destruct (decide (k = k')) as [->|Hne]; rewrite !fmap_cons; simpl fst.
  - rewrite decide_True by left. done.
  - rewrite IH. destruct (decide (k ∈ d.*1)) as [Hin|Hin].
    + rewrite decide_True by by right. done.
    + rewrite decide_False; [done|]. by intros [?|?]%elem_of_cons.
Qed.

Lemma slots_by_type_nodup slots : NoDup (slots_by_type slots).*1.
Proof.
  unfold slots_by_type. assert (NoDup ([] : list (string * JobWindowSlot)).*1) as Hnd
    by constructor.
  revert Hnd. generalize ([] : list (string * JobWindowSlot)).
  induction slots as [|s slots IH]; intros d Hnd; [done|]. simpl. apply IH.
  rewrite dict_set_keys. case_decide; [done|]. apply NoDup_app. split_and!; [done| |].
  - intros x Hx ->%list_elem_of_singleton. done.
  - apply NoDup_singleton.
Qed.

(** The jobs of one type, in the order they were dispatched. *)
Definition of_type (jt : string) (l : list (string * AnyJob)) : list AnyJob :=
  (filter (λ c, c.1 = jt) l).*2.

Lemma of_type_app jt l1 l2 : of_type jt (l1 ++ l2) = of_type jt l1 ++ of_type jt l2.
Proof. unfold of_type. by rewrite filter_app, fmap_app. Qed.

Lemma of_type_pairs jt l : of_type jt (pair jt <$> l) = l.
Proof.
  unfold of_type. induction l as [|x l IH]; [done|]. rewrite fmap_cons.
  rewrite filter_cons_True by done. csimpl. by rewrite IH.
Qed.

Lemma of_type_absent jt l : (∀ job, (jt, job) ∉ l) → of_type jt l = [].
Proof.
  intros Hl. unfold of_type.
  assert (filter (λ c, c.1 = jt) l = []) as ->; [|done]. apply elem_of_nil_inv.
  intros [jt' job] [Hjt Hin]%list_elem_of_filter. simpl in Hjt. subst. by destruct (Hl job).
Qed.

Lemma of_type_sublist jt l k : l `sublist_of` k → of_type jt l `sublist_of` of_type jt k.
Proof.
  unfold of_type. induction 1 as [|[t x] l k Hlk IH|[t x] l k Hlk IH]; [done|..];
    rewrite ?filter_cons; case_decide; csimpl; [by apply sublist_skip|done|by apply sublist_cons|done].
Qed.

(** A run of normal dispatches: oldest first within each type, of queued normal
    jobs, each with a slot it fits in. *)
Record orderly_normal (slots : list (string * JobWindowSlot)) (remaining : Z) w
    (l : list (string * AnyJob)) : Prop := {
  normal_sorted jt : StronglySorted (key_le any_created_at) (of_type jt l);
  normal_member jt job : (jt, job) ∈ l →
    any_status job = QUEUED ∧ any_priority job = "normal" ∧
    ∃ slot, dict_get jt slots = Some slot ∧ fits jt slot remaining job w = true
}.

Lemma orderly_nil slots rem w : orderly_normal slots rem w [].
Proof. split; [intros jt; constructor|]. by intros jt job ?%elem_of_nil. Qed.

Lemma orderly_app slots rem w w1 l1 l2 :
  q_benchmarks w1 = q_benchmarks w →
  orderly_normal slots rem w l1 → orderly_normal slots rem w1 l2 →
  (∀ jt, of_type jt l1 = [] ∨ of_type jt l2 = []) → orderly_normal slots rem w (l1 ++ l2).
Proof.
  intros Hb [S1 M1] [S2 M2] Hdis. split.
  - intros jt. rewrite of_type_app. destruct (Hdis jt) as [Hn|Hn]; rewrite Hn;
      [apply S2|rewrite app_nil_r; apply S1].
  - intros jt job [Hin|Hin]%elem_of_app; [by apply M1|].
    destruct (M2 _ _ Hin) as (Hst & Hp & slot & Hs & Hf). split_and!; [done|done|].
    exists slot. split; [done|]. rewrite <- Hf. symmetry. by apply fits_same.
Qed.

(** One type's loop over its normal candidates. *)
Lemma dispatch_type_orderly slots jt slot rem n d w :
  dict_get jt slots = Some slot →
  ∃ l r w', dispatch_type (C := C) cfg jt slot rem
      (take n (oldest_job_first (candidates "normal" jt w))) d w = (r, w') ∧
    dispatched l w w' ∧ orderly_normal slots rem w l ∧ ∀ jt' job, (jt', job) ∈ l → jt' = jt.
Proof.
  intros Hslot. set (cands := take n (oldest_job_first (candidates "normal" jt w))).
  destruct (dispatch_type_passes slots jt slot rem cands d w Hslot) as (l & Hl & Hsub & Hfit).
  destruct (dispatch_type cfg jt slot rem cands d w) as [r w']. exists l, r, w'.
  assert (∀ jt' job, (jt', job) ∈ l → jt' = jt ∧ job ∈ cands) as Hin.
  { intros jt' job Hin. eapply elem_of_sublist, list_elem_of_fmap in Hin; [|done].
    by destruct Hin as (j & [= -> ->] & ?). }
  split_and!; [done|done| |by intros jt' job [-> _]%Hin]. split.
  - intros jt'. destruct (decide (jt' = jt)) as [->|Hne].
    + apply StronglySorted_sublist with (oldest_job_first (candidates "normal" jt w));
        [|apply sort_by_sorted].
      transitivity cands; [|apply sublist_take].
      rewrite <- (of_type_pairs jt cands). by apply of_type_sublist.
    + rewrite of_type_absent; [constructor|]. by intros job [? _]%Hin.
  - intros jt' job Hjob. destruct (Hin _ _ Hjob) as [-> Hc].
    assert (job ∈ candidates "normal" jt w) as (_ & Hst & Hp)%candidates_spec.
    { apply subseteq_take in Hc. unfold oldest_job_first in Hc. by rewrite sort_by_elem_of in Hc. }
    split_and!; [done|done|by apply Hfit].
Qed.

Lemma pass2_orderly slots rem types d w :
  NoDup types →
  ∃ l r w', pass2 (C := C) cfg slots rem types d w = (r, w') ∧
    dispatched l w w' ∧ orderly_normal slots rem w l ∧
    ∀ jt job, (jt, job) ∈ l → jt ∈ types ∧ jt ≠ "training".
Proof.
  intros Hnd. revert d w. induction types as [|jt types IH]; intros d w.
  { exists [], (Ok d), w. split_and!; [done|apply dispatched_none|apply orderly_nil|].
    by intros jt job ?%elem_of_nil. }
  apply NoDup_cons in Hnd as [Hjt Hnd]. specialize (IH Hnd). cbn [pass2].
  destruct (dict_get jt slots) as [slot|] eqn:Hslot.
  2: { destruct (IH d w) as (l & r & w' & Hrun & Hl & Ho & Hin). exists l, r, w'.
       split_and!; [done|done|done|]. intros jt' job [? ?]%Hin. split; [by right|done]. }
  rewrite run_here. cbv zeta. rewrite run_bind.
  assert (∃ l1 r1 w1, dispatch_type (C := C) cfg jt slot rem
      (if decide (jt = "training") then [] else oldest_job_first (candidates "normal" jt w)) d w
      = (r1, w1) ∧ dispatched l1 w w1 ∧ orderly_normal slots rem w l1 ∧
      ∀ jt' job, (jt', job) ∈ l1 → jt' = jt ∧ jt ≠ "training")
    as (l1 & r1 & w1 & -> & Hl1 & Ho1 & Hin1).
  { case_decide as Htr.
    - exists [], (Ok d), w. split_and!; [done|apply dispatched_none|apply orderly_nil|].
      by intros jt' job ?%elem_of_nil.
    - rewrite <- (firstn_all (oldest_job_first _)).
      edestruct (dispatch_type_orderly slots jt slot rem) as (l & r & w' & Hrun & Hl & Ho & Hin);
        [done|]. exists l, r, w'. split_and!; [exact Hrun|done|done|].
      intros jt' job Hj. split; [by eapply Hin|done]. }
  destruct r1 as [d1|[]]. destruct (IH d1 w1) as (l2 & r2 & w2 & Hrun & Hl2 & Ho2 & Hin2).
  exists (l1 ++ l2), r2, w2. split_and!; [done|by eapply dispatched_trans| |].
  - eapply orderly_app; [apply Hl1|done|done|]. intros jt'.
    destruct (decide (jt' = jt)) as [->|Hne]; [right|left]; apply of_type_absent.
    + by intros job [? _]%Hin2.
    + by intros job [? _]%Hin1.
  - intros jt' job [[-> ?]%Hin1|[? ?]%Hin2]%elem_of_app; split; [left|done|by right|done].
Qed.

Lemma pass3_orderly slots rem d w :
  ∃ l r w', pass3 (C := C) cfg slots rem d w = (r, w') ∧
    dispatched l w w' ∧ orderly_normal slots rem w l ∧
    ∀ jt job, (jt, job) ∈ l → jt = "training".
Proof.
  assert (∃ l r w', (Ok tt : result Empty_set unit, w) = (r, w') ∧
    dispatched l w w' ∧ orderly_normal slots rem w l ∧
    ∀ jt job, (jt, job) ∈ l → jt = "training") as Hnone.
  { exists [], (Ok tt), w. split_and!; [done|apply dispatched_none|apply orderly_nil|].
    by intros jt job ?%elem_of_nil. }
  unfold pass3. destruct (dict_get _ slots) as [slot|] eqn:Hslot; [|done]. rewrite run_here. cbv zeta.
  case_decide; [done|]. rewrite run_bind.
  edestruct (dispatch_type_orderly slots "training" slot rem) as (l & r & w' & Hrun & Hl & Ho & Hin);
    [done|]. rewrite Hrun. destruct r as [d'|[]]. by exists l, (Ok tt), w'.
Qed.

Lemma window_jobs_orderly window w :
  let slots := slots_by_type (ws_slots window) in
  let remaining := Z.max 0 (jw_end_at (ws_window window) - q_now w) in
  ∃ high normal,
    dispatched (high ++ normal) w (state_of (_dispatch_window_jobs (C := C) cfg window) w) ∧
    high `sublist_of` high_candidates slots w ∧
    (∀ jt job, (jt, job) ∈ high → ∃ slot, dict_get jt slots = Some slot ∧
       fits jt slot remaining job w = true) ∧
    orderly_normal slots remaining w normal.
Proof.
  intros slots remaining. unfold _dispatch_window_jobs, state_of. rewrite run_here. cbv zeta.
  fold slots remaining. case_decide.
  { exists [], []. split_and!; [apply dispatched_none|apply sublist_nil_l| |apply orderly_nil].
    by intros jt job ?%elem_of_nil. }
  destruct (pass1_passes slots remaining (high_candidates slots w) ∅ w)
    as (high & Hhigh & Hsub & Hfit). rewrite run_bind.
  destruct (pass1 cfg slots remaining (high_candidates slots w) ∅ w) as [[d1|[]] w1].
  simpl in Hhigh. rewrite run_bind.
  set (types := _ :: filter _ slots.*1).
  destruct (pass2_orderly slots remaining types d1 w1) as (l2 & r2 & w2 & -> & Hl2 & Ho2 & Hin2).
  { unfold types. constructor.
    - intros [[Hne _] _]%list_elem_of_filter. done.
    - apply NoDup_filter, slots_by_type_nodup. }
  destruct r2 as [d2|[]].
  destruct (pass3_orderly slots remaining d2 w2) as (l3 & r3 & w3 & -> & Hl3 & Ho3 & Hin3).
  exists high, (l2 ++ l3). simpl. split_and!; [|done|done|].
  - eapply dispatched_trans; [done|]. by eapply dispatched_trans.
  - assert (orderly_normal slots remaining w1 (l2 ++ l3)) as [HS HM].
    { eapply orderly_app; [apply Hl2|done|done|]. intros jt.
      destruct (decide (jt = "training")) as [->|Hne]; [left|right]; apply of_type_absent.
      - by intros job [_ ?]%Hin2.
      - by intros job ?%Hin3. }
    split; [done|]. intros jt job Hin.
    destruct (HM _ _ Hin) as (Hst & Hp & slot & Hslot & Hf). split_and!; [done|done|].
    exists slot. split; [done|]. rewrite <- Hf. symmetry. apply fits_same, Hhigh.
Qed.

End trace.
