(* ===== verification/QueueContract.v ===== *)
(** The contract of the GPU job queue: a window never runs more jobs of a type
    than its slot allows, dispatch order follows priority and age, a cycle never
    touches a settled job, promotion leaves nothing behind, and the exclusive
    lease is held for what needs it and given back only when it is idle. *)

From stdpp Require Import gmap.
From S2P Require Import Prelude Data Jobs Queue QueueFacts QueueTrace.

Section contract.
Context {C : Type} `{!CardBroker C} (cfg : QConfig).
Implicit Types (w : QWorld C).

(** ** Windows *)

(** C4: a window's slots are never overrun.  Whatever the remote services and
    the broker answer, the window dispatcher leaves of each job type at most as
    many running jobs as its slot allows, or as were running before if that was
    already more; and it starts nothing of a type the window has no slot for. *)
Theorem window_capacity_respected window w :
  wf w →
  let w' := state_of (_dispatch_window_jobs cfg window) w in
  ∀ jt, _running_count jt w' ≤
    match dict_get jt (slots_by_type (ws_slots window)) with
    | Some slot => Z.max (_running_count jt w) (js_max_concurrent slot)
    | None => _running_count jt w
    end.
Proof. intros Hwf w' jt. by apply (window_jobs_capped cfg window w). Qed.

(** Dispatch order inside a window.  The dispatcher first dispatches high
    priority jobs, a subsequence of all of them in the order of their age
    across every slot type; only then come the normal ones, each type's in the
    order of their age.  Every job it dispatches was queued when it was read, is
    of a type the window has a slot for, and, if it is an evaluation with a known
    duration, fits in the time the window has left. *)
Theorem window_dispatch_order window w :
  let slots := slots_by_type (ws_slots window) in
  let remaining := Z.max 0 (jw_end_at (ws_window window) - q_now w) in
  let w' := state_of (_dispatch_window_jobs cfg window) w in
  ∃ high normal,
    dispatches (q_trace w') = dispatches (q_trace w) ++ high ++ normal ∧
    StronglySorted (key_le any_created_at) high.*2 ∧
    (∀ jt, StronglySorted (key_le any_created_at) (of_type jt normal)) ∧
    (∀ jt job, (jt, job) ∈ high → any_priority job = "high") ∧
    (∀ jt job, (jt, job) ∈ normal → any_priority job = "normal") ∧
    ∀ jt job, (jt, job) ∈ high ++ normal →
      any_status job = QUEUED ∧
      ∃ slot, dict_get jt slots = Some slot ∧ fits jt slot remaining job w = true.
Proof.
  intros slots remaining w'.
  destruct (window_jobs_orderly cfg window w) as (high & normal & [Hd _] & Hsub & Hfit & [HS HM]).
  fold slots remaining in Hsub, Hfit, HS, HM.
  assert (∀ jt job, (jt, job) ∈ high → any_status job = QUEUED ∧ any_priority job = "high")
    as Hhigh.
  { intros jt job Hin. eapply elem_of_sublist in Hin; [|done].
    apply high_candidates_spec in Hin as [_ (_ & ? & ?)%candidates_spec]. done. }
  exists high, normal. split_and!; [done| |done|..].
  - apply StronglySorted_sublist with (high_candidates slots w).*2.
    { clear -Hsub. induction Hsub; csimpl; by constructor. }
    unfold high_candidates.
    match goal with |- context [sort_by ?f ?l] => pose proof (sort_by_sorted f l) as Hs end.
    induction Hs as [|x l Hs IH Hx]; csimpl; constructor; [done|].
    rewrite Forall_fmap. done.
  - intros jt job Hin. by apply (Hhigh jt).
  - intros jt job Hin. by apply (HM jt).
  - intros jt job [Hin|Hin]%elem_of_app.
    + split; [by apply (Hhigh jt)|by apply Hfit].
    + by destruct (HM _ _ Hin) as (? & _ & ?).
Qed.

(** ** The life of a job *)

(** Settled jobs are final.  A whole cycle, with its syncs, promotion,
    dispatches and window-end enforcement, leaves every job that was completed,
    failed or cancelled when it began exactly as it was, and neither adds nor
    removes a row. *)
Theorem settled_jobs_are_left_alone lock w :
  wf w →
  let w' := state_of (cycle cfg lock) w in
  wf w' ∧
  (∀ j, j ∈ q_eval w → terminal (ev_status j) = true →
     find_row (ev_id j) (q_eval w') = Some j) ∧
  (∀ j, j ∈ q_training w → terminal (tr_status j) = true →
     find_row (tr_id j) (q_training w') = Some j) ∧
  (∀ j, j ∈ q_curator w → terminal (cu_status j) = true →
     find_row (cu_id j) (q_curator w') = Some j) ∧
  (∀ j, j ∈ q_publish w → terminal (pb_status j) = true →
     find_row (pb_id j) (q_publish w') = Some j).
Proof.
  intros Hwf w'. destruct (cycle_settled cfg lock w) as [Hs Hkept]. fold w' in Hs, Hkept.
  destruct (Hkept Hwf) as (HT & HE & HC & HP). destruct Hwf as (NT & NE & NC & NP).
  split; [by apply (shape_wf w)|].
  split_and!; intros j Hj Hst.
  - apply HE; [by apply (find_row_elem (q_eval w))|done].
  - apply HT; [by apply (find_row_elem (q_training w))|done].
  - apply HC; [by apply (find_row_elem (q_curator w))|done].
  - apply HP; [by apply (find_row_elem (q_publish w))|done].
Qed.

(** The card is given back only when it is idle (self.ai#88/#136).  Every
    exclusive lease a cycle releases is released with no job of its kind running,
    so one run finishing never hands the card away from under a sibling.  The one
    exception is the code's own: with window ends not enforced, the curator's
    lease is dropped at the end of its window while its jobs run on. *)
Theorem card_released_only_when_idle lock w :
  ∃ es, q_trace (state_of (cycle cfg lock) w) = q_trace w ++ es ∧
    ∀ cid n, EvReleased cid n ∈ es →
      n = 0 ∨ (CURATOR_ENFORCE_WINDOW_END cfg = false ∧ cid = CURATOR_AUDIENCE).
Proof.
  destruct (cycle_releases cfg lock w) as (es & Ht & Hes). exists es. split; [done|].
  intros cid n Hin. rewrite Forall_forall in Hes.
  destruct (Hes _ Hin) as [Hn|(He & m & [= -> ->])]; [by left|by right].
Qed.

(** The active window is the right one.  What the dispatcher is given is an
    enabled window that is open now, with all its slots and no others, and the
    most recently begun of those; it is given none only when there is none. *)
Theorem active_window_is_the_latest_open w :
  let open j := jw_start_at j ≤ q_now w ∧ q_now w ≤ jw_end_at j ∧ jw_enabled j = true in
  match _get_active_window w with
  | Some ws =>
      ws_window ws ∈ q_windows w ∧ open (ws_window ws) ∧
      _window_status (q_now w) (ws_window ws) = W_ACTIVE ∧ ws_status ws = W_ACTIVE ∧
      (∀ s, s ∈ ws_slots ws ↔ s ∈ q_slots w ∧ js_window_id s = jw_id (ws_window ws)) ∧
      (∀ j, j ∈ q_windows w → open j → jw_start_at j ≤ jw_start_at (ws_window ws))
  | None => ∀ j, j ∈ q_windows w → ¬ open j
  end.
Proof.
  intros open. unfold _get_active_window, JobWindows.get_active_window.
  set (cands := JobWindows.latest_start_first _).
  assert (∀ j, j ∈ cands ↔ open j ∧ j ∈ q_windows w) as Hin.
  { intros j. unfold cands, JobWindows.latest_start_first.
    by rewrite sort_by_elem_of, list_elem_of_filter. }
  assert (StronglySorted (key_le (λ j, - jw_start_at j)) cands) as Hsort by apply sort_by_sorted.
  destruct cands as [|j0 rest]; simpl.
  - intros j Hj Hopen. assert (j ∈ ([] : list JobWindow)) as Hno by by apply Hin.
    by apply not_elem_of_nil in Hno.
  - assert (j0 ∈ j0 :: rest) as [Hopen Hj0]%Hin by left. destruct Hopen as (? & ? & He).
    split_and!; [done..| |done| |].
    + unfold _window_status. rewrite decide_False by lia. by rewrite decide_True, He.
    + intros s. unfold JobWindows.slots_of. rewrite list_elem_of_filter. naive_solver.
    + intros j Hj Hopen. assert (j ∈ j0 :: rest) as [->|Hr]%elem_of_cons by by apply Hin.
      { done. }
      apply StronglySorted_inv in Hsort as [_ Hall].
      rewrite Forall_forall in Hall. specialize (Hall j Hr). unfold key_le in Hall. lia.
Qed.

(** ** Promotion *)

(** Rewriting the rows that satisfy [p]. *)
Definition rewrite_where {A} (p : A → Prop) `{!∀ x, Decision (p x)} (f : A → A) (t : list A)
    : list A := (λ r, if bool_decide (p r) then f r else r) <$> t.

Lemma rewrite_where_twice {A} (p q pq : A → Prop)
    `{!∀ x, Decision (p x), !∀ x, Decision (q x), !∀ x, Decision (pq x)} (f : A → A) t :
  (∀ r, pq r ↔ p r ∨ q r) → (∀ r, p r → ¬ q (f r)) →
  rewrite_where q f (rewrite_where p f t) = rewrite_where pq f t.
Proof.
  intros Hpq Hnot. unfold rewrite_where. rewrite <- list_fmap_compose.
  apply list_fmap_ext. intros i r _. unfold compose. specialize (Hpq r).
  destruct (decide (p r)) as [Hp|Hp].
  - rewrite (bool_decide_true (p r)), (bool_decide_false (q (f r))), bool_decide_true;
      [done|apply Hpq; by left|by apply Hnot|done].
  - rewrite (bool_decide_false (p r)) by done.
    by rewrite (bool_decide_ext (q r) (pq r)) by naive_solver.
Qed.

Lemma promote_eval l w :
  for_each (λ j, set_eval (C := C) (ev_id j) QUEUED None) l w =
  (Ok tt, w <| q_eval := foldl (λ t j, update_row (ev_id j)
    (EvalJobs.status_row (q_now w) QUEUED None) t) (q_eval w) l |>).
Proof. revert w. induction l as [|j l IH]; intros w; [by destruct w|].
  exact (IH (state_of (set_eval (ev_id j) QUEUED None) w)). Qed.

Lemma promote_training l w :
  for_each (λ j, set_training (C := C) (tr_id j) QUEUED None None None) l w =
  (Ok tt, w <| q_training := foldl (λ t j, update_row (tr_id j)
    (TrainingJobs.status_row (q_now w) QUEUED None None None) t) (q_training w) l |>).
Proof. revert w. induction l as [|j l IH]; intros w; [by destruct w|].
  exact (IH (state_of (set_training (tr_id j) QUEUED None None None) w)). Qed.

Lemma promote_curator l w :
  for_each (λ j, set_curator (C := C) (cu_id j) QUEUED None None None) l w =
  (Ok tt, w <| q_curator := foldl (λ t j, update_row (cu_id j)
    (CuratorJobs.status_row (q_now w) QUEUED None None None) t) (q_curator w) l |>).
Proof. revert w. induction l as [|j l IH]; intros w; [by destruct w|].
  exact (IH (state_of (set_curator (cu_id j) QUEUED None None None) w)). Qed.

Lemma promote_publish l w :
  for_each (λ j, set_publish (C := C) (pb_id j) QUEUED None None) l w =
  (Ok tt, w <| q_publish := foldl (λ t j, update_row (pb_id j)
    (PublishJobs.status_row (q_now w) QUEUED None None) t) (q_publish w) l |>).
Proof. revert w. induction l as [|j l IH]; intros w; [by destruct w|].
  exact (IH (state_of (set_publish (pb_id j) QUEUED None None) w)). Qed.

Lemma keys_rewrite_where {A} `{Keyed A} (p : A → Prop) `{!∀ x, Decision (p x)} f (t : list A) :
  keeps_key f → keys (rewrite_where p f t) = keys t.
Proof.
  intros Hf. unfold keys, rewrite_where. rewrite <- list_fmap_compose.
  apply list_fmap_ext. intros i r _. simpl. by case_bool_decide.
Qed.

Lemma due_scheduled_perm {A} `{JobRow A} now (t : list A) :
  get_due_scheduled_jobs now t ≡ₚ filter (λ j, job_status j = SCHEDULED ∧ due now j = true) t.
Proof. apply sort_by_perm. Qed.

(** The passes over one table: first the rows that are due, then the pending rows
    [p]. *)
Lemma promoted_due {A} `{!Keyed A} (R : JobRow A) now (q : A → Prop) `{!∀ x, Decision (q x)} f (l t : list A) :
  keeps_key f → NoDup (keys t) →
  (∀ j, q j ↔ job_status j = SCHEDULED ∧ due now j = true) →
  l ≡ₚ filter (λ j, job_status j = SCHEDULED ∧ due now j = true) t →
  foldl (λ t j, update_row (row_key j) f t) t l = rewrite_where q f t.
Proof.
  intros ?? Hq Hl. apply update_selected; [done..|]. rewrite Hl. apply reflexive_eq.
  apply list_filter_iff. naive_solver.
Qed.

Lemma promoted_twice {A} `{!Keyed A} (R : JobRow A) now (p q : A → Prop)
    `{!∀ x, Decision (p x), !∀ x, Decision (q x)} f (l t : list A) :
  keeps_key f → NoDup (keys t) → (∀ j, job_status (f j) = QUEUED) →
  (∀ j, p j → job_status j = PENDING) →
  (∀ j, q j ↔ p j ∨ (job_status j = SCHEDULED ∧ due now j = true)) →
  let t1 := foldl (λ t j, update_row (row_key j) f t) t (get_due_scheduled_jobs now t) in
  l = filter p t1 →
  foldl (λ t j, update_row (row_key j) f t) t1 l = rewrite_where q f t.
Proof.
  intros Hf Hnd Hqueued Hp Hq t1 ->. subst t1.
  rewrite (promoted_due R now (λ j, job_status j = SCHEDULED ∧ due now j = true) f _ t)
    by auto using due_scheduled_perm.
  rewrite (update_selected f p) by (rewrite ?keys_rewrite_where by done; done).
  apply rewrite_where_twice; [naive_solver|]. intros j _ Hj%Hp. by rewrite Hqueued in Hj.
Qed.

(** Promotion leaves nothing behind and touches nothing else.  In one cycle
    every scheduled job whose time has come is queued, in all four tables; every
    pending evaluation and training job is queued; a pending curation is queued
    exactly when it carries no time; every other row of every table, the windows,
    the clock, the broker and the trace stay as they are. *)
Theorem promotion_is_complete w :
  wf w →
  let now := q_now w in
  _promote_scheduled_jobs w = (Ok tt, w
    <| q_eval := rewrite_where
         (λ j, ev_status j = PENDING ∨ (ev_status j = SCHEDULED ∧ due now j = true))
         (EvalJobs.status_row now QUEUED None) (q_eval w) |>
    <| q_training := rewrite_where
         (λ j, tr_status j = PENDING ∨ (tr_status j = SCHEDULED ∧ due now j = true))
         (TrainingJobs.status_row now QUEUED None None None) (q_training w) |>
    <| q_curator := rewrite_where
         (λ j, (cu_status j = PENDING ∧ cu_scheduled_for j = None) ∨
               (cu_status j = SCHEDULED ∧ due now j = true))
         (CuratorJobs.status_row now QUEUED None None None) (q_curator w) |>
    <| q_publish := rewrite_where
         (λ j, pb_status j = SCHEDULED ∧ due now j = true)
         (PublishJobs.status_row now QUEUED None None) (q_publish w) |>).
Proof.
  intros (NT & NE & NC & NP) now. unfold _promote_scheduled_jobs.
  subst now. destruct w. simpl in *.
  rewrite run_here, run_bind, promote_eval; simpl.
  rewrite run_here, run_bind, promote_training; simpl.
  rewrite run_here, run_bind, promote_curator; simpl.
  rewrite run_here, run_bind, promote_publish; simpl.
  rewrite run_here, run_bind, promote_eval; simpl.
  rewrite run_here, run_bind, promote_training; simpl.
  rewrite run_here, promote_curator; simpl. f_equal. f_equal.
  - eapply (promoted_twice EvalJob_row q_now (λ j, ev_status j = PENDING)); by try intros j.
  - eapply (promoted_twice TrainingJob_row q_now (λ j, tr_status j = PENDING)); by try intros j.
  - eapply (promoted_twice CuratorJob_row q_now
      (λ j, cu_status j = PENDING ∧ cu_scheduled_for j = None));
      by try (intros j; try by intros [? _]).
  - eapply (promoted_due PublishJob_row q_now); by try intros j.
Qed.

(** ** The exclusive lease *)

(** A step that leaves the broker, the curator and the publish tables alone, and
    only adds to the trace. *)
Definition away w w' : Prop :=
  q_card w' = q_card w ∧ q_curator w' = q_curator w ∧ q_publish w' = q_publish w ∧
  extends q_trace (λ _, True) w w'.

#[local] Instance away_preorder : PreOrder away.
Proof.
  split; [by intros w; split_and!|].
  intros w1 w2 w3 (? & ? & ? & E1) (? & ? & ? & E2). split_and!; try congruence.
  by transitivity w2.
Qed.

Lemma away_call : preserves away (call (C := C)).
Proof.
  intros w. destruct (call_remote w) as (_ & _ & ? & ? & _ & _ & _ & ? & Ht).
  split_and!; try done. exists []. by rewrite Ht, app_nil_r.
Qed.

Lemma away_log e : preserves away (log_event (C := C) e).
Proof. intros w. split_and!; try done. exists [e]. split; [done|]. by apply Forall_singleton. Qed.
#[local] Hint Resolve away_call away_log : s2db.

Lemma away_ship j : preserves away (ship_to_curator (C := C) cfg j).
Proof. unfold ship_to_curator. preserves_auto. Qed.

(** What a dispatch found when it asked for the card before starting [jid]: the broker
    does not know the consumer, which it may say on either of two asks, or it gave it the
    exclusive lease, before anything else the dispatch records. *)
Definition let_start `{!CardBrokerLaws C} (cid jid : string) w (es : list QEvent) : Prop :=
  card_registered cid (q_card w) = false ∨
  (card_acquire cid (q_card w)).1 = AcquireValueError ∨
  (card_acquire cid (q_card w)).1 = Acquired ∧
    card_exclusive cid (card_acquire cid (q_card w)).2 ∧ ∃ es', es = EvAcquired cid jid :: es'.

(** A step that took the card, or found that there is nothing to take. *)
Definition took_the_card `{!CardBrokerLaws C} (cid jid : string) w w1 : Prop :=
  q_curator w1 = q_curator w ∧ q_publish w1 = q_publish w ∧
  q_card w1 = (if card_registered cid (q_card w) then (card_acquire cid (q_card w)).2 else q_card w) ∧
  ∃ es, q_trace w1 = q_trace w ++ es ∧ ∀ more, let_start cid jid w (es ++ more).

(** Asking for the card: [false] leaves the tables and the trace. *)
Lemma acquire_card_starts `{!CardBrokerLaws C} cid failed jid w got w1 :
  (if card_registered cid (q_card w) then acquire_card cid failed jid else mret (true, None)) w = (got, w1) →
  ∃ x, got = Ok x ∧
    (x.1 = true ∧ took_the_card cid jid w w1 ∨
     x.1 = false ∧ q_curator w1 = q_curator w ∧ q_publish w1 = q_publish w ∧ q_trace w1 = q_trace w).
Proof.
  unfold took_the_card. destruct (card_registered cid (q_card w)) eqn:Hreg.
  2: { intros [= <- <-]. eexists. split; [done|]. left. split_and!; try done. exists []. split; [by rewrite app_nil_r|].
       intros more. by left. }
  unfold acquire_card. rewrite run_here. cbv zeta.
  destruct (card_acquire cid (q_card w)) as [answer c'] eqn:Hacq. rewrite run_bind.
  unfold modify at 1. destruct answer; simpl; intros [= <- <-]; (eexists; split; [done|]); simpl.
  - left. split_and!; try done. eexists. split; [done|]. intros more. right. right. rewrite Hacq.
    split_and!; [done|by eapply card_acquire_exclusive|by eexists].
  - right. done.
  - left. split_and!; try done. exists []. split; [by rewrite app_nil_r|]. intros more. right. left. by rewrite Hacq.
  - right. done.
Qed.

Lemma release_card_tables cid jt w :
  let w' := state_of (release_card (C := C) cid jt) w in
  q_curator w' = q_curator w ∧ q_publish w' = q_publish w ∧ extends q_trace (λ _, True) w w'.
Proof.
  unfold release_card, state_of. rewrite run_here. cbv zeta.
  destruct (negb _); [done|]. case_decide; [done|]. split_and!; [done..|].
  eexists. split; [done|]. by apply Forall_singleton.
Qed.

(** The curator's table is as it was, or the job was given a status that is not
    running. *)
Definition held_back (job : CuratorJob) w w' : Prop :=
  q_curator w' = q_curator w ∨
  ∃ now st remote idx err, st ≠ RUNNING ∧
    q_curator w' = CuratorJobs.update_job_status now (cu_id job) st remote idx err (q_curator w).

Lemma held_back_set job st err w w1 :
  q_curator w1 = q_curator w → st ≠ RUNNING →
  held_back job w (state_of (set_curator (C := C) (cu_id job) st None None err) w1).
Proof. intros Hc Hst. right. eexists _, _, _, _, _. split; [exact Hst|]. simpl. by rewrite Hc. Qed.

Lemma ship_submits job w remote w' :
  ship_to_curator (C := C) cfg job w = (Ok (Some remote), w') →
  ∃ es, q_trace w' = q_trace w ++ es ∧ EvSubmit "curator" (cu_id job) ∈ es.
Proof.
  unfold ship_to_curator. rewrite run_bind. set (up := if input_on_volume _ _ then _ else _).
  assert (away w (state_of up w)) as Ha by (subst up; unfold away in *; case_match; [|done]; apply preserves_bind; [apply _|apply away_call|intros; apply preserves_ret, _]).
  unfold state_of in Ha. destruct (up w) as [[[]|[]] w1]; simpl in Ha; [|done].
  cbn [negb]. rewrite run_bind. set (w2 := state_of (log_event (EvSubmit "curator" (cu_id job))) w1).
  change (log_event (EvSubmit "curator" (cu_id job)) w1) with (Ok tt : result Empty_set unit, w2). cbn [fst snd].
  match goal with |- (?m w2 = _) → _ => assert (preserves away m) as Hm by preserves_auto; specialize (Hm w2) end.
  intros Hrun. unfold state_of in Hm. rewrite Hrun in Hm. simpl in Hm.
  destruct Ha as (_ & _ & _ & es1 & Ht1 & _), Hm as (_ & _ & _ & es2 & Ht2 & _).
  exists (es1 ++ EvSubmit "curator" (cu_id job) :: es2). split.
  - rewrite Ht2. subst w2. simpl. rewrite Ht1, <- !app_assoc. done.
  - apply elem_of_app. right. left.
Qed.

(** A curator dispatch holds the job back and sends nothing, or it may start and either
    fails or sends the job and marks it running. *)
Lemma curator_dispatch_cases `{!CardBrokerLaws C} job w :
  let w' := state_of (_dispatch_curator_job cfg job) w in
  (held_back job w w' ∧ q_trace w' = q_trace w) ∨
  ∃ w1, took_the_card CURATOR_AUDIENCE (cu_id job) w w1 ∧
    ((held_back job w w' ∧ extends q_trace (λ _, True) w1 w') ∨
     ∃ es, q_trace w' = q_trace w1 ++ es ∧ EvSubmit "curator" (cu_id job) ∈ es ∧ q_card w' = q_card w1).
Proof.
  intros w'. subst w'. unfold _dispatch_curator_job. cbv zeta.
  destruct (negb (app_ready cfg)); [left; by split; [apply held_back_set|]|].
  case_decide; [left; by split; [apply held_back_set|]|]. unfold state_of. rewrite run_here.
  destruct (first_idle _ _) as [idx|]; [|left; by split; [left|]].
  destruct (negb _); [left; by split; [apply held_back_set|]|]. rewrite run_bind.
  match goal with |- context [(if card_registered ?cid (q_card w) then ?m else ?n) w] =>
    destruct ((if card_registered cid (q_card w) then m else n) w) as [got w1] eqn:Hacq end.
  apply acquire_card_starts in Hacq as ([[] refusal] & -> & [[[=] Hst]|([=] & Hc & _ & Ht)]); cbn [fst negb].
  2: { left. split; [by apply held_back_set|exact Ht]. }
  right. exists w1. split; [done|]. rewrite run_bind. pose proof (away_ship job w1) as Haway. unfold state_of in Haway.
  destruct (ship_to_curator cfg job w1) as [[shipped|[]] w2] eqn:Hship. simpl in Haway.
  destruct shipped as [remote|].
  - right. apply ship_submits in Hship as (es & Ht & Hin). exists es. split_and!; [done..|]. by destruct Haway.
  - left. rewrite run_bind. destruct Haway as (_ & Hcu & _ & Hext).
    set (w3 := state_of (set_curator (C := C) (cu_id job) FAILED None None
      (Some "Failed to dispatch to curator")) w2).
    destruct Hst as (Hc1 & _).
    assert (held_back job w w3) as Hh by by apply held_back_set; [congruence|].
    destruct (release_card_tables CURATOR_AUDIENCE "curator" w3) as (Hrel & _ & Hrt).
    change (held_back job w (state_of _release_curator_card w3) ∧
      extends q_trace (λ _, True) w1 (state_of _release_curator_card w3)).
    split; [|by transitivity w2].
    unfold held_back in *. unfold _release_curator_card. by rewrite Hrel.
Qed.

(** C6: curation starts only with the whole card (self.ai#88).  A dispatch that sends its
    job to the curator, or leaves it running, has first asked the broker for the exclusive
    lease in the job's name and been given it, unless the broker does not know the curator
    as a consumer; and a job left running was sent, with no other call to the broker
    after that. *)
Theorem curator_starts_only_with_the_card `{!CardBrokerLaws C} job w :
  let w' := state_of (_dispatch_curator_job cfg job) w in
  ∃ es, q_trace w' = q_trace w ++ es ∧
  (EvSubmit "curator" (cu_id job) ∈ es → let_start CURATOR_AUDIENCE (cu_id job) w es) ∧
  ∀ r r', find_row (cu_id job) (q_curator w) = Some r → cu_status r ≠ RUNNING →
    find_row (cu_id job) (q_curator w') = Some r' → cu_status r' = RUNNING →
    let_start CURATOR_AUDIENCE (cu_id job) w es ∧ EvSubmit "curator" (cu_id job) ∈ es ∧
    (card_registered CURATOR_AUDIENCE (q_card w) = true →
       q_card w' = (card_acquire CURATOR_AUDIENCE (q_card w)).2).
Proof.
  intros w'. pose proof (curator_dispatch_cases job w) as Hcases. fold w' in Hcases.
  assert (∀ r r', held_back job w w' → find_row (cu_id job) (q_curator w) = Some r → cu_status r ≠ RUNNING →
    find_row (cu_id job) (q_curator w') = Some r' → cu_status r' ≠ RUNNING) as Hback.
  { intros r r' [Hsame|(now & st & remote & idx & err & Hst & Hc)] Hr Hn Hr'.
    - rewrite Hsame in Hr'. congruence.
    - rewrite Hc in Hr'. unfold CuratorJobs.update_job_status in Hr'.
      rewrite find_update_row_eq, Hr in Hr' by by intros j. by injection Hr' as <-. }
  destruct Hcases as [[Hh Ht]|(w1 & (_ & _ & Hcard & es1 & Ht1 & Hlet) & Hcases)].
  - exists []. rewrite app_nil_r. split_and!; [done|by intros ?%elem_of_nil|].
    intros r r' Hr Hn Hr' Hrun. by destruct (Hback r r').
  - destruct Hcases as [[Hh (es & Ht & _)]|(es & Ht & Hin & Hc)]; exists (es1 ++ es);
      (split; [by rewrite Ht, Ht1, app_assoc|split; [by intros _|]]).
    + intros r r' Hr Hn Hr' Hrun. by destruct (Hback r r').
    + intros _ _ _ _ _ _. split_and!; [done|apply elem_of_app; by right|]. intros Hreg. by rewrite Hc, Hcard, Hreg.
Qed.

Lemma wait_keeps_status now jid reason db r r' :
  find_row jid db = Some r →
  find_row jid (PublishJobs.record_wait_reason now jid reason db) = Some r' →
  pb_status r' = pb_status r.
Proof.
  unfold PublishJobs.record_wait_reason. intros Hr. rewrite Hr. case_decide.
  - rewrite Hr. by intros [= <-].
  - rewrite find_update_row_eq, Hr by by intros j. by intros [= <-].
Qed.

Lemma publish_dispatch_cases `{!CardBrokerLaws C} job w :
  let w' := state_of (_dispatch_publish_job cfg job) w in
  ((q_publish w' = q_publish w ∨ ∃ now why, q_publish w' = PublishJobs.record_wait_reason now (pb_id job) why (q_publish w))
     ∧ q_trace w' = q_trace w) ∨
  ∃ w1 es, took_the_card PUBLISH_AUDIENCE (pb_id job) w w1 ∧ q_trace w' = q_trace w1 ++ es ∧
    EvSubmit "publish" (pb_id job) ∈ es ∧
    (q_card w' = q_card w1 ∨
     ∃ now, q_publish w' = PublishJobs.update_status now (pb_id job) FAILED (Some "the merge did not start") None (q_publish w)).
Proof.
  intros w'. subst w'. unfold _dispatch_publish_job.
  destruct (negb (app_ready cfg)); [left; by split; [left|]|].
  unfold state_of. rewrite run_bind.
  assert (_acquire_publish_card job w =
    (if card_registered PUBLISH_AUDIENCE (q_card w)
     then acquire_card PUBLISH_AUDIENCE "Could not acquire the GPU for the publish: " (pb_id job)
     else mret (true, None)) w) as ->
    by (unfold _acquire_publish_card; rewrite run_here; by destruct (card_registered _ _)).
  match goal with |- context [(if card_registered ?cid (q_card w) then ?m else ?n) w] =>
    destruct ((if card_registered cid (q_card w) then m else n) w) as [got w1] eqn:Hacq end.
  apply acquire_card_starts in Hacq as ([[] refusal] & -> & [[[=] Hst]|([=] & _ & Hp & Ht)]); cbn [fst negb].
  2: { left. split; [right; eexists _, _; simpl; by rewrite Hp|exact Ht]. }
  right. exists w1. destruct Hst as (Hcu & Hp1 & Hst).
  rewrite run_bind. set (w2 := state_of (log_event (EvSubmit "publish" (pb_id job))) w1).
  change (log_event (EvSubmit "publish" (pb_id job)) w1) with (Ok tt : result Empty_set unit, w2). cbn [fst snd].
  rewrite run_bind. pose proof (away_call w2) as (Hcard & _ & Hp3 & es & Ht & _). unfold state_of in Hcard, Hp3, Ht.
  destruct (call w2) as [[answer|[]] w3]. simpl in Hcard, Hp3, Ht.
  destruct (checked answer ≫= λ body, truthy (rb_job_id body)) as [task|].
  - exists (EvSubmit "publish" (pb_id job) :: es). split_and!; [done..| |left|by left].
    simpl. rewrite Ht. subst w2. simpl. by rewrite <- app_assoc.
  - rewrite run_bind. set (w4 := state_of (set_publish (C := C) (pb_id job) FAILED
      (Some "the merge did not start") None) w3).
    destruct (release_card_tables PUBLISH_AUDIENCE "publish" w4) as (_ & Hrel & es' & Hrt & _).
    exists (EvSubmit "publish" (pb_id job) :: es ++ es').
    change (took_the_card PUBLISH_AUDIENCE (pb_id job) w w1 ∧
      q_trace (state_of (release_card PUBLISH_AUDIENCE "publish") w4) = q_trace w1 ++ EvSubmit "publish" (pb_id job) :: es ++ es' ∧
      EvSubmit "publish" (pb_id job) ∈ EvSubmit "publish" (pb_id job) :: es ++ es' ∧
      (q_card (state_of (release_card PUBLISH_AUDIENCE "publish") w4) = q_card w1 ∨
       ∃ now, q_publish (state_of (release_card PUBLISH_AUDIENCE "publish") w4) =
         PublishJobs.update_status now (pb_id job) FAILED (Some "the merge did not start") None (q_publish w))).
    split_and!; [done| |left|].
    + rewrite Hrt. subst w4. simpl. rewrite Ht. subst w2. simpl. by rewrite <- !app_assoc.
    + right. rewrite Hrel. subst w4. simpl. eexists. by rewrite Hp3, <- Hp1.
Qed.

(** C7: publishing starts only with the whole card (self.ai#136).  A dispatch that sends
    its merge, or leaves the publish job running, has first asked the broker for the
    exclusive lease in the job's name and been given it, [run_now] or not, unless the broker
    does not know the publisher as a consumer; and a job left running was sent, with no
    other call to the broker after that. *)
Theorem publish_starts_only_with_the_card `{!CardBrokerLaws C} job w :
  let w' := state_of (_dispatch_publish_job cfg job) w in
  ∃ es, q_trace w' = q_trace w ++ es ∧
  (EvSubmit "publish" (pb_id job) ∈ es → let_start PUBLISH_AUDIENCE (pb_id job) w es) ∧
  ∀ r r', find_row (pb_id job) (q_publish w) = Some r → pb_status r ≠ RUNNING →
    find_row (pb_id job) (q_publish w') = Some r' → pb_status r' = RUNNING →
    let_start PUBLISH_AUDIENCE (pb_id job) w es ∧ EvSubmit "publish" (pb_id job) ∈ es ∧
    (card_registered PUBLISH_AUDIENCE (q_card w) = true →
       q_card w' = (card_acquire PUBLISH_AUDIENCE (q_card w)).2).
Proof.
  intros w'. pose proof (publish_dispatch_cases job w) as Hcases. fold w' in Hcases.
  destruct Hcases as [[Hp Ht]|(w1 & es & (_ & _ & Hcard & es1 & Ht1 & Hlet) & Ht & Hin & Hend)].
  - exists []. rewrite app_nil_r. split_and!; [done|by intros ?%elem_of_nil|].
    intros r r' Hr Hn Hr' Hrun. exfalso. destruct Hp as [Hp|(now & why & Hp)]; rewrite Hp in Hr'; [congruence|].
    by rewrite (wait_keeps_status _ _ _ _ _ _ Hr Hr') in Hrun.
  - exists (es1 ++ es). split_and!; [by rewrite Ht, Ht1, app_assoc|by intros _|].
    intros r r' Hr Hn Hr' Hrun. split_and!; [done|apply elem_of_app; by right|]. intros Hreg.
    destruct Hend as [Hc|(now & Hp)]; [by rewrite Hc, Hcard, Hreg|].
    rewrite Hp in Hr'. unfold PublishJobs.update_status in Hr'.
    rewrite find_update_row_eq, Hr in Hr' by by intros j. by injection Hr' as <-.
Qed.

End contract.
