(* ===== verification/Card.v ===== *)
(** The broker of [Broker] behind the interface [CardBroker] the queue is written
    against: exclusive leases go through [acquire_exclusive] and
    [release_exclusive], the admission of an evaluation's model through
    [ensure_llamolotl_vram].  The laws the queue relies on are the broker's. *)

From stdpp Require Import gmap pretty.
From S2P Require Import Prelude Data Leases LeaseFacts Reaper Broker BrokerFacts.
From S2P Require Import BrokerContract Jobs Admission Queue.

(** The broker's world, with what it meets at its lock on each call to come. *)
Record Card := mkCard {
  card_world : World;
  card_waits : list LockWait
}.

(** The wire values of the outcomes. *)
Definition outcome_text (o : HolderOutcome) : string :=
  match o with
  | HOLDER_OUTCOME_CONFIRMED => "confirmed"
  | HOLDER_OUTCOME_DENIED => "denied"
  | HOLDER_OUTCOME_TIMEOUT => "timeout"
  | HOLDER_OUTCOME_INELIGIBLE_STALE => "ineligible-stale"
  | HOLDER_OUTCOME_REAPED => "reaped"
  | HOLDER_OUTCOME_REAP_FAILED => "reap-failed"
  | HOLDER_OUTCOME_INELIGIBLE_NO_POD_IDENTITY => "ineligible-no-pod-identity"
  | HOLDER_OUTCOME_INELIGIBLE_NEVER_OBSERVED => "ineligible-never-observed"
  end.

(** The reason of an [ExclusiveResult]; an id is quoted as [repr] does when it
    holds no quote. *)
Definition reason_text (r : ExclusiveReason) : string :=
  match r with
  | AnotherHolder cid =>
      "another consumer ('" +:+ cid +:+ "') already holds an active exclusive lease"
  | CardNotCleared n =>
      "could not clear the card: " +:+ pretty n +:+
        " holder(s) still hold VRAM after reclamation"
  | LostRace => "lost a race to another exclusive acquire"
  | CardCleared => "card cleared; exclusive lease active"
  end.

Section card.
Context `{!LeaseConfig, !BrokerConfig}.

(** The broker's construction, the application state, and the words of a reap
    that did not succeed and of an error, as the code formats them. *)
Context (b : Broker) (app : option AppState) (reap_words : AskReason → string)
  (error_words : BrokerExn → string).

Definition next_wait (c : Card) : LockWait * list LockWait :=
  match card_waits c with
  | [] => (mkLockWait 0 [], [])
  | lw :: rest => (lw, rest)
  end.

Definition said_text (r : AskReason) : string :=
  match r with Said words => words | _ => reap_words r end.

Definition seize (cid : string) (c : Card) : AcquireAnswer * Card :=
  let '(lw, rest) := next_wait c in
  let '(res, w') := acquire_exclusive b lw cid None None (card_world c) in
  (match res with
   | Ok x =>
       if acquired x then Acquired
       else Refused (reason_text (excl_reason x))
              ((λ h, (asked_consumer_id h, outcome_text (asked_outcome h),
                      said_text <$> asked_reason h)) <$> excl_reclaimed x)
   | Raise (NotRegistered _) => AcquireValueError
   | Raise e => AcquireFailed (error_words e)
   end, mkCard w' rest).

Definition hand_back (cid : string) (c : Card) : Card :=
  let '(lw, rest) := next_wait c in
  mkCard (release_exclusive lw cid (card_world c)).2 rest.

Definition reserve_for (model_id : string) (c : Card) : Card :=
  let '(lw, rest) := next_wait c in
  mkCard (ensure_llamolotl_vram b lw app model_id (card_world c)).2 rest.

Definition lease_card : CardBroker Card := {|
  card_registered cid c := bool_decide (is_Some (get cid (w_reg (card_world c))));
  card_acquire := seize;
  card_release := hand_back;
  card_admit := reserve_for
|}.

(** [cid] is registered exclusive, nobody else actively is, and nobody else measurably
    holds VRAM.  Whether [cid]'s own row counts as active depends on its reports. *)
Definition holds_exclusively (cid : string) (c : Card) : Prop :=
  exclusive cid (w_reg (card_world c)) ∧
  (∀ r, r ∈ active_exclusive (w_wall (card_world c)) (w_reg (card_world c)) →
    consumer_id r = cid) ∧
  ∀ r, r ∈ w_reg (card_world c) → consumer_id r ≠ cid → held_bytes r ≤ 0.

Lemma seize_exclusive cid c c' : seize cid c = (Acquired, c') → holds_exclusively cid c'.
Proof.
  unfold seize. destruct (next_wait c) as [lw rest].
  destruct (acquire_exclusive b lw cid None None (card_world c)) as [res w'] eqn:Hacq.
  apply acquire_exclusive_outcome in Hacq as
    (w1 & _ & [(x & -> & -> & Hwall & _ & Hheld & Hset)|[Hno _]]).
  - intros [= <-]. split_and!; simpl.
    + apply set_exclusive_marks in Hset as (r & ? & ?). by exists r.
    + intros r Hr. rewrite Hwall in Hr. by apply set_exclusive_outcome in Hset; apply Hset.
    + intros r Hr Hne. destruct (set_exclusive_table true (w_wall w1) cid true (w_reg w1)) as [Hk|[_ Hk]];
        rewrite Hset in Hk; simpl in Hk; rewrite Hk in Hr; [by apply Hheld|].
      unfold update_row, update_where in Hr. apply list_elem_of_fmap in Hr as (r0 & -> & Hr0).
      case_bool_decide as Hc; [done|]. by apply Hheld.
  - destruct res as [x|[]]; [by rewrite (Hno x)|done..].
Qed.

Definition lease_card_laws : @CardBrokerLaws Card lease_card :=
  @Build_CardBrokerLaws Card lease_card holds_exclusively seize_exclusive.

End card.

From S2P Require Import LeaseContract QueueFacts QueueTrace QueueContract.

(** Concrete cycles of the queue over the real broker: the theorems of
    [QueueContract] at inputs where their hypotheses hold, and closed runs in
    which the queue does not do what its comments say. *)
Module QueueRuns.

Import Sample BrokerContract.Runs.

(** ** A small deployment *)

Module Deployment.

#[export] Instance card_broker : CardBroker Card :=
  lease_card no_reaper None (λ _, "") (λ _, "").
#[export] Instance card_laws : CardBrokerLaws Card :=
  lease_card_laws no_reaper None (λ _, "") (λ _, "").

(** One worker of each kind; [enforce] is [CURATOR_ENFORCE_WINDOW_END]. *)
Definition config (enforce : bool) : QConfig :=
  mkQConfig true ["http://llamolotl"] ["http://llamolotl:ctl"] ["http://leval"] ["http://ceval"]
    ["http://curator"] enforce (λ _, true) (λ _, false).

(** The inference server, the curator and the publisher, none of them holding. *)
Definition consumers : registry :=
  [row "self.llamolotl" 24 0 10 1000; row "self.curator" 24 0 8 1000;
   row "self.publish" 24 0 6 1000].

Definition free_card : Card := mkCard (world consumers []) [].

Definition card_of (holder : string) : Card :=
  mkCard (world (update_row holder (set_mode_row 1000 EXCLUSIVE) consumers) []) [].

(** Who holds the card exclusively. *)
Definition holder_of (c : Card) : option string :=
  consumer_id <$> active_exclusive_holder (w_wall (card_world c)) (w_reg (card_world c)).

Definition eval_job (id status_prio : string) (st : JobStatus) (created : Z) (dry : bool) : EvalJob :=
  mkEvalJob id "u" "language-eval" "mmlu" "qwen" st status_prio None None
    (mkEvalMeta None dry None None) created created.

Definition curation (id prio : string) (st : JobStatus) (remote : option string) : CuratorJob :=
  mkCuratorJob id "u" "p" st prio None remote (match remote with Some _ => Some 0%nat | None => None end)
    None true None 500 500.

Definition publication (id prio : string) (st : JobStatus) (remote : option string) : PublishJob :=
  mkPublishJob id "line" "u" "base" None None None st prio None remote
    (match remote with Some _ => Some 0%nat | None => None end) None None None 500 500.

Definition queue_of (evals : list EvalJob) (curations : list CuratorJob)
    (publications : list PublishJob) (card : Card) (script : list Remote) : QWorld Card :=
  mkQWorld evals [] curations publications [] [] [] 1000 card
    ((λ r, (1, r)) <$> script) [] [] [].

(** An answer that starts or settles a job. *)
Definition started (id : string) : Remote :=
  RemHttp 200 (mkRemoteBody "running" (Some id) None None [] []).
Definition not_found : Remote := RemHttp 404 empty_body.

(** A window from 900 to 5000 with one slot. *)
Definition with_window (job_type : string) (max_concurrent : Z) (w : QWorld Card) : QWorld Card :=
  w <| q_windows := [mkJobWindow "w" "nightly" 900 5000 job_type true] |>
    <| q_slots := [mkJobWindowSlot "s" "w" job_type max_concurrent 0] |>.

(** How often a job was submitted to its worker. *)
Definition submissions (id : string) (trace : list QEvent) : nat :=
  length (filter (λ e,
    match e with EvSubmit _ id' => bool_decide (id' = id) | _ => false end = true) trace).

End Deployment.
Import Deployment.

(** ** The contract at work *)

(** Two queued evaluations, a settled one, and a window for them. *)
Definition two_evals : QWorld Card :=
  with_window "language-eval" 2
    (queue_of [eval_job "a" "normal" QUEUED 1 false; eval_job "b" "normal" QUEUED 2 false;
               eval_job "z" "normal" COMPLETED 0 false] [] []
       free_card [RemFail; started "ra"; RemFail; started "rb"]).

Definition nightly : JobWindowWithSlots :=
  mkWindowWithSlots (mkJobWindow "w" "nightly" 900 5000 "language-eval" true)
    [mkJobWindowSlot "s" "w" "language-eval" 2 0] W_ACTIVE.

Lemma two_evals_wf : wf two_evals.
Proof. split_and!; by_decision. Qed.

Definition one_curation : CuratorJob := curation "c" "normal" QUEUED None.
Definition one_publication : PublishJob := publication "p" "run_now" QUEUED None.

Definition curation_world : QWorld Card :=
  queue_of [] [one_curation] [] free_card
    [started "rc"; RemHttp 200 empty_body].
Abbreviation curated :=
  (state_of (_dispatch_curator_job (config true) one_curation)
     curation_world).

Definition publish_world : QWorld Card :=
  queue_of [] [] [one_publication] free_card [started "rp"].
Abbreviation published :=
  (state_of (_dispatch_publish_job (config true) one_publication)
     publish_world).

Lemma window_capacity_respected_witness :
  wf two_evals ∧
  _running_count "language-eval"
    (state_of (_dispatch_window_jobs (config true) nightly) two_evals) ≤ 2.
Proof.
  split; [exact two_evals_wf|].
  exact (window_capacity_respected (config true) nightly two_evals two_evals_wf "language-eval").
Defined.

Lemma settled_jobs_are_left_alone_witness :
  wf two_evals ∧
  find_row "z" (q_eval (state_of (cycle (config true) true) two_evals)) =
    Some (eval_job "z" "normal" COMPLETED 0 false).
Proof.
  split; [exact two_evals_wf|].
  destruct (settled_jobs_are_left_alone (config true) true two_evals two_evals_wf)
    as (_ & He & _).
  apply (He (eval_job "z" "normal" COMPLETED 0 false)); [|reflexivity].
  eapply (list_elem_of_lookup_2 _ 2). reflexivity.
Defined.

Definition pending_world : QWorld Card :=
  queue_of [eval_job "a" "normal" PENDING 1 false] [curation "c" "normal" PENDING None]
    [publication "p" "normal" PENDING None] free_card [].

Lemma promotion_is_complete_witness :
  wf pending_world ∧
  ev_status <$> q_eval (state_of _promote_scheduled_jobs pending_world) = [QUEUED] ∧
  cu_status <$> q_curator (state_of _promote_scheduled_jobs pending_world) = [QUEUED] ∧
  pb_status <$> q_publish (state_of _promote_scheduled_jobs pending_world) = [PENDING].
Proof.
  assert (wf pending_world) as Hwf by (split_and!; by_decision). split; [exact Hwf|].
  unfold state_of. rewrite (promotion_is_complete pending_world Hwf).
  split_and!; vm_compute; reflexivity.
Defined.

Lemma curator_starts_only_with_the_card_witness :
  cu_status <$> q_curator curated = [RUNNING] ∧
  holds_exclusively CURATOR_AUDIENCE (q_card curated) ∧
  ∃ es, q_trace curated = EvAcquired CURATOR_AUDIENCE (cu_id one_curation) :: es ∧
    EvSubmit "curator" (cu_id one_curation) ∈ es.
Proof.
  split; [vm_compute; reflexivity|].
  destruct (curator_starts_only_with_the_card (config true) one_curation curation_world) as (es & Ht & _ & Hrun).
  destruct (Hrun one_curation (CuratorJobs.status_row 1002 RUNNING (Some "rc") (Some 0%nat) None one_curation))
    as (Hlet & Hin & Hcard); [reflexivity|discriminate|vm_compute; reflexivity|reflexivity|].
  destruct Hlet as [Hno|[Hno|(_ & Hex & es' & ->)]]; [vm_compute in Hno; discriminate..|].
  split; [rewrite Hcard by (vm_compute; reflexivity); exact Hex|].
  exists es'. split; [exact Ht|]. by apply elem_of_cons in Hin as [|].
Defined.

Lemma publish_starts_only_with_the_card_witness :
  pb_status <$> q_publish published = [RUNNING] ∧
  holds_exclusively PUBLISH_AUDIENCE (q_card published) ∧
  ∃ es, q_trace published = EvAcquired PUBLISH_AUDIENCE (pb_id one_publication) :: es ∧
    EvSubmit "publish" (pb_id one_publication) ∈ es.
Proof.
  split; [vm_compute; reflexivity|].
  destruct (publish_starts_only_with_the_card (config true) one_publication publish_world) as (es & Ht & _ & Hrun).
  destruct (Hrun one_publication (PublishJobs.dispatched_row 1001 "rp" 0 one_publication))
    as (Hlet & Hin & Hcard); [reflexivity|discriminate|vm_compute; reflexivity|reflexivity|].
  destruct Hlet as [Hno|[Hno|(_ & Hex & es' & ->)]]; [vm_compute in Hno; discriminate..|].
  split; [rewrite Hcard by (vm_compute; reflexivity); exact Hex|].
  exists es'. split; [exact Ht|]. by apply elem_of_cons in Hin as [|].
Defined.

(** ** Where the queue falls short *)

(** A slot for two starts one job per cycle.  A job the dispatcher has just
    started is running in the table and counted again in the tally of the cycle,
    so with [max_concurrent = 2], nothing running, and two jobs queued, a cycle
    starts one and leaves the other queued beside a free slot. *)
Theorem started_jobs_are_counted_twice :
  let w := with_window "language-eval" 2
    (queue_of [eval_job "a" "normal" QUEUED 1 false; eval_job "b" "normal" QUEUED 2 false] [] []
       free_card [RemFail; started "ra"; RemFail; started "rb"]) in
  let w' := state_of (cycle (config false) true) w in
  _running_count "language-eval" w = 0 ∧
  _running_count "language-eval" w' = 1 ∧
  ev_id <$> get_jobs_by_status QUEUED (q_eval w') = ["b"].
Proof. split_and!; vm_compute; reflexivity. Qed.

(** A curation lost by the curator keeps the card.  When the curator answers
    404 for its last running job, the job is failed and the exclusive lease is
    left in place, in that cycle and in the next, though nothing runs under it;
    the publisher's lease is given back in the same situation. *)
Theorem lost_curation_keeps_the_card :
  let w := queue_of [] [curation "c" "normal" RUNNING (Some "rc")] []
    (card_of CURATOR_AUDIENCE) [not_found] in
  let w1 := state_of (cycle (config false) true) w in
  let w2 := state_of (cycle (config false) true) w1 in
  let p := queue_of [] [] [publication "p" "normal" RUNNING (Some "rp")]
    (card_of PUBLISH_AUDIENCE) [not_found] in
  let p1 := state_of (cycle (config false) true) p in
  cu_status <$> q_curator w1 = [FAILED] ∧
  holder_of (q_card w1) = Some CURATOR_AUDIENCE ∧
  holder_of (q_card w2) = Some CURATOR_AUDIENCE ∧ q_trace w2 = [] ∧
  pb_status <$> q_publish p1 = [FAILED] ∧ holder_of (q_card p1) = None.
Proof. split_and!; vm_compute; reflexivity. Qed.

(** A [run_now] curation does not bypass the window.  It is dispatched
    outside every window, but the same cycle then enforces the end of a window
    that never was: with [CURATOR_ENFORCE_WINDOW_END] the run is cancelled and
    requeued, every cycle anew, so that it is submitted again and again and never
    finishes; without it, the exclusive lease the run was just given is dropped
    while it runs, and the job is recorded as an overrun. *)
Theorem run_now_curation_is_undone :
  let job := curation "c" "run_now" QUEUED None in
  let answers := [started "rc"; RemHttp 200 empty_body; RemHttp 200 empty_body] in
  let w := queue_of [] [job] [] free_card (answers ++ answers) in
  let w1 := state_of (cycle (config true) true) w in
  let w2 := state_of (cycle (config true) true) w1 in
  let u := queue_of [] [job] [] free_card answers in
  let u1 := state_of (cycle (config false) true) u in
  cu_status <$> q_curator w1 = [QUEUED] ∧ cu_status <$> q_curator w2 = [QUEUED] ∧
  submissions "c" (q_trace w1) = 1%nat ∧ submissions "c" (q_trace w2) = 2%nat ∧
  cu_status <$> q_curator u1 = [RUNNING] ∧
  cu_error_message <$> q_curator u1 = [Some overrun_message] ∧
  holder_of (q_card u1) = None ∧
  EvAcquired CURATOR_AUDIENCE "c" ∈ q_trace u1 ∧ EvReleased CURATOR_AUDIENCE 1 ∈ q_trace u1.
Proof.
  split_and!; first [eapply (list_elem_of_lookup_2 _ 1); vm_compute; reflexivity
    |eapply (list_elem_of_lookup_2 _ 3); vm_compute; reflexivity|vm_compute; reflexivity].
Qed.

(** Test Mode touches the GPU.  A dry-run evaluation is dispatched outside
    every window because it needs no GPU, yet its dispatch asks the broker for
    the model's VRAM and unloads the model that was loaded. *)
Theorem dry_run_unloads_the_model :
  let job := eval_job "a" "normal" QUEUED 1 true in
  let models := RemHttp 200 (mkRemoteBody "" None None None
    [(Some "qwen", Some "unloaded"); (Some "llama", Some "loaded")] []) in
  let w := queue_of [job] [] [] free_card [models; RemHttp 200 empty_body; started "ra"] in
  let w' := state_of (cycle (config false) true) w in
  _get_active_window w = None ∧
  q_trace w' = [EvDispatch "language-eval" (JEval job); EvAdmit "qwen";
                EvUnload "http://llamolotl" "llama"; EvSubmit "language-eval" "a"].
Proof. split; vm_compute; reflexivity. Qed.

(** Nothing but the lock prevents a double dispatch.  A dispatcher acts on the
    row it read at the start of its pass: when a second node, running without the
    lock, has read the same queued row, it submits the job again although the row
    says by then that it is running. *)
Theorem second_reader_submits_again :
  let job := eval_job "a" "run_now" QUEUED 1 false in
  let w := queue_of [job] [] [] free_card [RemFail; started "ra"; RemFail; started "rb"] in
  let w1 := state_of (_dispatch_job (config false) "language-eval" (JEval job)) w in
  let w2 := state_of (_dispatch_job (config false) "language-eval" (JEval job)) w1 in
  queued_with "run_now" (q_eval w) = [job] ∧ ev_status <$> q_eval w1 = [RUNNING] ∧
  submissions "a" (q_trace w2) = 2%nat ∧
  (language_eval_job_id ∘ ev_meta) <$> q_eval w2 = [Some "rb"].
Proof. split_and!; vm_compute; reflexivity. Qed.

(** The publish lease protects nothing.  Nothing ever reports for
    [self.publish], which is no service of its own, so its row is stale two
    minutes after core registered it at start-up, and an exclusive holder that is
    stale does not count.  Here a [run_now] publish is dispatched a thousand
    seconds after the registration: the lease is acquired and recorded, yet the
    card has no active exclusive holder, a chat request is let through, and
    llamolotl is granted 20 of the card's 24 while the merge runs. *)
Theorem publish_lease_protects_nothing :
  let registered := [row "self.llamolotl" 24 0 10 1000; row PUBLISH_AUDIENCE 24 0 6 0] in
  let w := queue_of [] [] [publication "p" "run_now" QUEUED None]
    (mkCard (world registered []) []) [started "rp"] in
  let w' := state_of (cycle (config false) true) w in
  let card := card_world (q_card w') in
  let asked := request_lease no_reaper no_wait "self.llamolotl" 20 10 None None card in
  pb_status <$> q_publish w' = [RUNNING] ∧ EvAcquired PUBLISH_AUDIENCE "p" ∈ q_trace w' ∧
  lease_mode <$> find_row PUBLISH_AUDIENCE (w_reg card) = Some EXCLUSIVE ∧
  active_exclusive_holder (w_wall card) (w_reg card) = None ∧
  evaluate_admission (w_wall card) (Some ([], [])) (w_reg card) (Some []) "qwen" = PROCEED ∧
  (∃ g, asked.1 = Ok (Granted g) ∧ granted_bytes g = 20).
Proof.
  split_and!; try (vm_compute; reflexivity).
  - eapply (list_elem_of_lookup_2 _ 1); vm_compute; reflexivity.
  - eexists; split; vm_compute; reflexivity.
Qed.

End QueueRuns.
