(* ===== verification/Versions.v ===== *)
(** Model lines and versions: the two tables of [models/model_versions.py] and
    the service over them, [utils/model_versions.py], with the merge request of
    [utils/publish_transport.py].

    A line is the durable identity of a model; a version is one point of its
    history, backed by a commit of the line's corpus repository.  A table method
    is a function of the tables, of the outcome of its database commit and of the
    clock; a service coroutine is a program over a [VWorld], whose script says
    what each [await] answers and what the other coroutines write meanwhile. *)

From stdpp Require Import gmap pretty.
From S2P Require Import Prelude Data Jobs.

(** ** Rows and forms *)

Definition VERSION_KINDS : list string := ["base"; "adapter"].


Record ModelLine := mkModelLine {
  ml_id : string;
  ml_name : string;
  ml_user_id : string;
  ml_corpus_repo : option string;
  ml_current_version_id : option string;
  ml_access_control : option json_dict;
  ml_meta : option json_dict;
  ml_created_at : Z;
  ml_updated_at : Z
}.

#[export] Instance ModelLine_eta : Eta ModelLine := λ l,
  mkModelLine (ml_id l) (ml_name l) (ml_user_id l) (ml_corpus_repo l)
    (ml_current_version_id l) (ml_access_control l) (ml_meta l) (ml_created_at l)
    (ml_updated_at l).
#[export] Instance ModelLine_keyed : Keyed ModelLine := ml_id.

Record ModelVersion := mkModelVersion {
  mv_id : string;
  mv_line_id : string;
  mv_sequence : Z;
  mv_kind : string;
  mv_corpus_commit_id : string;
  mv_parent_version_id : option string;
  mv_base_version_id : option string;
  mv_produced_by : option json_dict;
  mv_published_by : option string;
  mv_artifact_ref : option string;
  mv_meta : option json_dict;
  mv_created_at : Z
}.

#[export] Instance ModelVersion_keyed : Keyed ModelVersion := mv_id.

Record ModelLineForm := mkModelLineForm {
  lf_name : string;
  lf_corpus_repo : option string;
  lf_access_control : option json_dict;
  lf_meta : option json_dict
}.

Record ModelVersionForm := mkModelVersionForm {
  vf_kind : string;
  vf_corpus_commit_id : string;
  vf_parent_version_id : option string;
  vf_base_version_id : option string;
  vf_produced_by : option json_dict;
  vf_published_by : option string;
  vf_artifact_ref : option string;
  vf_meta : option json_dict
}.

(** Where a provenance walk breaks, and why a version cannot be served. *)
Inductive BrokenLink :=
| ChainVersionNotFound (version_id : string)
| ChainCycles (version_id parent_id : string)
| ChainNamesMissing (version_id at_id parent_id : string).

Inductive WhyUnresolvable :=
| ToResolveNotFound (version_id : string)
| NamedBaseMissing (version_id base_id : string)
| NoBaseInProvenance (version_id : string)
| NoArtifactRecorded (version_id : string)
| ArtifactNotPresent (version_id artifact_ref : string).

(** What the code raises: a [ModelVersionError] with its reason, one of its two
    subclasses, the corpus client's error, or a Python error. *)
Inductive VersionError :=
| LineNotFound (line_id : string)
| InvalidKind (kind : string)
| ParentNotFound (id : string)
| ParentOnAnotherLine (id : string)
| MustNameParent (line_id : string)
| BaseNotOnLine (id line_id : string)
| BaseNotOfKindBase (id : string)
| NoCommitId
| OwnParent
| CouldNotWriteVersion (line_id : string)
| VersionNotOnLine (version_id line_id : string)
| StillHasVersions (line_id : string)
| CouldNotCreateLine
| CouldNotAttachRepo (line_id repo_id : string)
| NoCorpusRepo (line_id : string)
| CouldNotStage (repo : option string)
| NoVersionsToPublish (line_id : string)
| NoBaseToPublishOnto (line_id : string)
| NothingToPublish (line_id base_id : string)
| CouldNotCreateJob (line_id : string)
| BaseVersionGone (id : string)
| AdaptersGone (ids : list string)
| NoTaskId (job_id : string)
| CouldNotMove (line_id version_id : string)
| ProvenanceBroken (reason : BrokenLink)
| VersionUnresolvable (reason : WhyUnresolvable)
| SelfCorpusError
| MergeRequestFailed
| PythonTypeError.

(** ** The tables *)

Module ModelLines.

Definition new_line (now : Z) (id user_id : string) (form : ModelLineForm) : ModelLine :=
  mkModelLine id (lf_name form) user_id (lf_corpus_repo form) None
    (lf_access_control form) (lf_meta form) now now.

Definition insert_new_line (ok : bool) (now : Z) (id user_id : string) (form : ModelLineForm)
    (lines : list ModelLine) : option ModelLine * list ModelLine :=
  let line := new_line now id user_id form in
  if ok then (Some line, lines ++ [line]) else (None, lines).

Definition get_lines (lines : list ModelLine) : list ModelLine := lines.

Definition get_lines_by_user_id (user_id : string) (lines : list ModelLine) : list ModelLine :=
  filter (λ l, ml_user_id l = user_id) lines.

Definition get_line_by_id (id : string) (lines : list ModelLine) : option ModelLine :=
  find_row id lines.

Definition get_line_by_corpus_repo (repo : string) (lines : list ModelLine) : option ModelLine :=
  head (filter (λ l, ml_corpus_repo l = Some repo) lines).

Definition repo_row (now : Z) (repo : string) (l : ModelLine) : ModelLine := Eval simpl in
  l <| ml_corpus_repo := Some repo |> <| ml_updated_at := now |>.

Definition update_corpus_repo (ok : bool) (now : Z) (line_id repo : string)
    (lines : list ModelLine) : option ModelLine * list ModelLine :=
  if ok then
    let lines' := update_row line_id (repo_row now repo) lines in
    (get_line_by_id line_id lines', lines')
  else (None, lines).

(** [list(x or [])]; [None] is the [TypeError] of a value that is no iterable. *)
Definition list_or_empty (x : option Json) : option (list Json) :=
  match x with
  | None | Some JNull | Some (JBool false) | Some (JInt 0) | Some (JFloat false) => Some []
  | Some (JList l) => Some l
  | Some (JStr s) => Some ((λ c, JStr (String c EmptyString)) <$> String.list_ascii_of_string s)
  | Some (JDict d) => Some ((λ kv, JStr kv.1) <$> d)
  | Some (JBool true) | Some (JInt _) | Some (JFloat true) => None
  end.

Definition json_opt (s : option string) : Json :=
  match s with Some s => JStr s | None => JNull end.

(** One entry of the audit trail kept in the line's [meta]. *)
Definition version_move (now : Z) (from : option string) (to : string) (by_ : option string)
    : Json :=
  JDict [("to", JStr to); ("from", json_opt from); ("at", JInt now); ("by", json_opt by_)].

Definition move_row (now : Z) (version_id : string) (meta : json_dict) (l : ModelLine)
    : ModelLine := Eval simpl in
  l <| ml_current_version_id := Some version_id |> <| ml_meta := Some meta |>
    <| ml_updated_at := now |>.

Definition set_current_version (ok : bool) (now : Z) (line_id version_id : string)
    (moved_by : option string) (versions : list ModelVersion) (lines : list ModelLine)
    : result VersionError (option ModelLine) * list ModelLine :=
  match find_row version_id versions with
  | None => (Raise (VersionNotOnLine version_id line_id), lines)
  | Some version =>
      if decide (mv_line_id version ≠ line_id)
      then (Raise (VersionNotOnLine version_id line_id), lines)
      else
        match get_line_by_id line_id lines with
        | None => (Raise (LineNotFound line_id), lines)
        | Some line =>
            let meta := default [] (ml_meta line) in
            match list_or_empty (dict_lookup "version_moves" meta) with
            | None => (Raise PythonTypeError, lines)
            | Some history =>
                let move := version_move now (ml_current_version_id line) version_id moved_by in
                let meta := dict_set "version_moves" (JList (history ++ [move])) meta in
                if ok then
                  let lines' := update_row line_id (move_row now version_id meta) lines in
                  (Ok (get_line_by_id line_id lines'), lines')
                else (Ok None, lines)
            end
        end
  end.

(** [delete_line_by_id] of a line whose history is given. *)
Definition delete_line_by_id (ok : bool) (line_id : string) (history : list ModelVersion)
    (lines : list ModelLine) : result VersionError bool * list ModelLine :=
  if decide (history = []) then
    if ok then (Ok true, delete_row line_id lines) else (Ok false, lines)
  else (Raise (StillHasVersions line_id), lines).

End ModelLines.

Module ModelVersions.

(** A line's history, in explicit sequence order. *)
Definition get_versions_by_line (line_id : string) (versions : list ModelVersion)
    : list ModelVersion :=
  sort_by mv_sequence (filter (λ v, mv_line_id v = line_id) versions).

Definition get_version_by_id (id : string) (versions : list ModelVersion)
    : option ModelVersion := find_row id versions.

(** Every guard of an append but the commit's; [None] when all pass. *)
Definition validate_append (line_id kind : string) (parent_version_id base_version_id : option string)
    (lines : list ModelLine) (versions : list ModelVersion) : option VersionError :=
  match ModelLines.get_line_by_id line_id lines with
  | None => Some (LineNotFound line_id)
  | Some _ =>
      if decide (kind ∉ VERSION_KINDS) then Some (InvalidKind kind)
      else
        let existing := get_versions_by_line line_id versions in
        let parent_error :=
          match parent_version_id with
          | Some p =>
              match get_version_by_id p versions with
              | None => Some (ParentNotFound p)
              | Some parent =>
                  if decide (mv_line_id parent ≠ line_id) then Some (ParentOnAnotherLine p)
                  else None
              end
          | None => if decide (existing = []) then None else Some (MustNameParent line_id)
          end in
        match parent_error with
        | Some e => Some e
        | None =>
            match base_version_id with
            | None => None
            | Some b =>
                match get_version_by_id b versions with
                | None => Some (BaseNotOnLine b line_id)
                | Some base =>
                    if decide (mv_line_id base ≠ line_id) then Some (BaseNotOnLine b line_id)
                    else if decide (mv_kind base ≠ "base") then Some (BaseNotOfKindBase b)
                    else None
                end
            end
        end
  end.

Definition next_sequence (existing : list ModelVersion) : Z :=
  if decide (existing = []) then 1 else zmax 0 (mv_sequence <$> existing) + 1.

Definition new_version (now : Z) (id line_id : string) (sequence : Z) (form : ModelVersionForm)
    : ModelVersion :=
  mkModelVersion id line_id sequence (vf_kind form) (vf_corpus_commit_id form)
    (vf_parent_version_id form) (vf_base_version_id form) (vf_produced_by form)
    (vf_published_by form) (vf_artifact_ref form) (vf_meta form) now.

(** [insert_new_version], with the [uuid4] it mints as an argument. *)
Definition insert_new_version (ok : bool) (now : Z) (id line_id : string)
    (form : ModelVersionForm) (lines : list ModelLine) (versions : list ModelVersion)
    : result VersionError ModelVersion * list ModelVersion :=
  match validate_append line_id (vf_kind form) (vf_parent_version_id form)
          (vf_base_version_id form) lines versions with
  | Some e => (Raise e, versions)
  | None =>
      if decide (vf_corpus_commit_id form = "") then (Raise NoCommitId, versions)
      else
        let existing := get_versions_by_line line_id versions in
        if decide (vf_parent_version_id form = Some id) then (Raise OwnParent, versions)
        else
          let version := new_version now id line_id (next_sequence existing) form in
          if ok then (Ok version, versions ++ [version])
          else (Raise (CouldNotWriteVersion line_id), versions)
  end.

Definition delete_versions_by_line (ok : bool) (line_id : string) (versions : list ModelVersion)
    : bool * list ModelVersion :=
  if ok then (true, filter (λ v, mv_line_id v ≠ line_id) versions) else (false, versions).

End ModelVersions.
