(* ===== verification/VersionService.v ===== *)
(** The service over model lines and versions, [utils/model_versions.py]: the
    lookups (provenance, resolution, what a publish would merge, the model
    surface) as functions of the tables, and the coroutines (append, ingest,
    publish) as programs over a [VWorld]. *)

From Stdlib Require Import Ascii.
From stdpp Require Import gmap pretty.
From S2P Require Import Prelude Data Jobs Versions.

(** ** Lookups *)

(** [latest_version]: [history[-1]]. *)
Definition latest_version (line_id : string) (versions : list ModelVersion)
    : option ModelVersion :=
  last (ModelVersions.get_versions_by_line line_id versions).

(** The loop of [walk_provenance] from [version]; [None] when the fuel is out. *)
Fixpoint walk (fuel : nat) (versions : list ModelVersion) (start : string)
    (seen : list string) (version : ModelVersion)
    : option (result VersionError (list ModelVersion)) :=
  match mv_parent_version_id version with
  | None => Some (Ok [version])
  | Some parent_id =>
      if decide (parent_id ∈ seen)
      then Some (Raise (ProvenanceBroken (ChainCycles start parent_id)))
      else
        match ModelVersions.get_version_by_id parent_id versions with
        | None =>
            Some (Raise (ProvenanceBroken (ChainNamesMissing start (mv_id version) parent_id)))
        | Some parent =>
            match fuel with
            | O => None
            | S fuel' =>
                rest ← walk fuel' versions start (parent_id :: seen) parent;
                Some (match rest with
                      | Ok chain => Ok (version :: chain)
                      | Raise e => Raise e
                      end)
            end
        end
  end.

(** Newest first, ending at the version that names no parent. *)
Definition walk_provenance (version_id : string) (versions : list ModelVersion)
    : option (result VersionError (list ModelVersion)) :=
  match ModelVersions.get_version_by_id version_id versions with
  | None => Some (Raise (ProvenanceBroken (ChainVersionNotFound version_id)))
  | Some version => walk (length versions) versions version_id [version_id] version
  end.

Definition is_base (v : ModelVersion) : bool := bool_decide (mv_kind v = "base").
Definition is_adapter (v : ModelVersion) : bool := bool_decide (mv_kind v = "adapter").

(** [next((v for v in chain if v.kind == "base"), None)] *)
Definition first_base (chain : list ModelVersion) : option ModelVersion :=
  head (filter (λ v, is_base v = true) chain).

Record ResolvedVersion := mkResolvedVersion {
  rv_line_id : string;
  rv_version_id : string;
  rv_kind : string;
  rv_corpus_repo : option string;
  rv_corpus_commit_id : string;
  rv_artifact_ref : option string;
  rv_base_version_id : option string;
  rv_base_artifact_ref : option string
}.

(** [_require_artifact]; [None] when the artifact may be served. *)
Definition _require_artifact (version : ModelVersion) (corpus_repo : option string)
    (artifact_exists : option (option string → string → bool)) : option VersionError :=
  match truthy (mv_artifact_ref version) with
  | None => Some (VersionUnresolvable (NoArtifactRecorded (mv_id version)))
  | Some ref =>
      match artifact_exists with
      | Some exists_ =>
          if exists_ corpus_repo ref then None
          else Some (VersionUnresolvable (ArtifactNotPresent (mv_id version) ref))
      | None => None
      end
  end.

(** The base an adapter runs on top of: the one it names, else the nearest base
    of its provenance. *)
Definition base_of_adapter (version : ModelVersion) (versions : list ModelVersion)
    : option (result VersionError ModelVersion) :=
  match truthy (mv_base_version_id version) with
  | Some b =>
      Some (match ModelVersions.get_version_by_id b versions with
            | Some base => Ok base
            | None => Raise (VersionUnresolvable (NamedBaseMissing (mv_id version) b))
            end)
  | None =>
      chain ← walk_provenance (mv_id version) versions;
      Some (match chain with
            | Raise e => Raise e
            | Ok chain =>
                match first_base chain with
                | Some base => Ok base
                | None => Raise (VersionUnresolvable (NoBaseInProvenance (mv_id version)))
                end
            end)
  end.

Definition resolved (version : ModelVersion) (corpus_repo : option string)
    (base : option ModelVersion) : ResolvedVersion :=
  mkResolvedVersion (mv_line_id version) (mv_id version) (mv_kind version) corpus_repo
    (mv_corpus_commit_id version) (mv_artifact_ref version)
    (mv_id <$> base) (base ≫= mv_artifact_ref).

Definition resolve_version (version_id : string)
    (artifact_exists : option (option string → string → bool))
    (lines : list ModelLine) (versions : list ModelVersion)
    : option (result VersionError ResolvedVersion) :=
  match ModelVersions.get_version_by_id version_id versions with
  | None => Some (Raise (VersionUnresolvable (ToResolveNotFound version_id)))
  | Some version =>
      let corpus_repo := ModelLines.get_line_by_id (mv_line_id version) lines ≫= ml_corpus_repo in
      base ← (if is_adapter version
              then r ← base_of_adapter version versions;
                   Some (match r with Ok b => Ok (Some b) | Raise e => Raise e end)
              else Some (Ok None));
      Some (match base with
            | Raise e => Raise e
            | Ok base =>
                match _require_artifact version corpus_repo artifact_exists with
                | Some e => Raise e
                | None =>
                    match (base ≫= λ b, _require_artifact b corpus_repo artifact_exists) with
                    | Some e => Raise e
                    | None => Ok (resolved version corpus_repo base)
                    end
                end
            end)
  end.

(** The line's current version, or the newest one. *)
Definition current_version (line : ModelLine) (newest : ModelVersion)
    (versions : list ModelVersion) : ModelVersion :=
  default newest
    (id ← truthy (ml_current_version_id line); ModelVersions.get_version_by_id id versions).

Definition adapters_after (base : ModelVersion) (history : list ModelVersion)
    : list ModelVersion :=
  filter (λ v, is_adapter v = true ∧ mv_sequence base < mv_sequence v) history.

(** What a publish would start from, and what it would merge. *)
Definition current_base_and_adapters (line_id : string) (lines : list ModelLine)
    (versions : list ModelVersion)
    : option (result VersionError (ModelVersion * list ModelVersion)) :=
  match ModelLines.get_line_by_id line_id lines with
  | None => Some (Raise (LineNotFound line_id))
  | Some line =>
      let history := ModelVersions.get_versions_by_line line_id versions in
      match last history with
      | None => Some (Raise (NoVersionsToPublish line_id))
      | Some newest =>
          let current := current_version line newest versions in
          base ← (if is_base current then Some (Ok (Some current))
                  else
                    chain ← walk_provenance (mv_id current) versions;
                    Some (match chain with
                          | Ok chain => Ok (first_base chain)
                          | Raise e => Raise e
                          end));
          Some (match base with
                | Raise e => Raise e
                | Ok None => Raise (NoBaseToPublishOnto line_id)
                | Ok (Some base) => Ok (base, adapters_after base history)
                end)
      end
  end.

(** ** The model surface

    The entries of the picker are Python dicts, passed by reference: a list of
    references into a heap of entries. *)

(** [entry["info"]["meta"]] as the code reads it: no dict there, or its two keys. *)
Inductive EntryMeta :=
| NoMeta
| MetaDict (line_id version_id : option string).

Record LineBlock := mkLineBlock {
  lb_id : string;
  lb_name : string;
  lb_current_version_id : option string;
  lb_version_id : option string;
  lb_versions : list ModelVersion
}.

Record ModelEntry := mkModelEntry {
  me_id : string;
  me_meta : EntryMeta;
  me_line : option LineBlock
}.

#[export] Instance ModelEntry_eta : Eta ModelEntry := λ e,
  mkModelEntry (me_id e) (me_meta e) (me_line e).

Definition _line_pointer (e : ModelEntry) : option string * option string :=
  match me_meta e with
  | NoMeta => (None, None)
  | MetaDict line_id version_id => (line_id, version_id)
  end.

Abbreviation heap := (nat → ModelEntry).

Definition line_of (h : heap) (r : nat) : option string := truthy (_line_pointer (h r)).1.

(** [grouped], in first-appearance order of the lines. *)
Definition group_keys (h : heap) (models : list nat) : list string :=
  foldl (λ ks r, match line_of h r with
                 | Some l => if decide (l ∈ ks) then ks else ks ++ [l]
                 | None => ks
                 end) [] models.

Definition group_of (h : heap) (line_id : string) (models : list nat) : list nat :=
  filter (λ r, line_of h r = Some line_id) models.

Definition sequence_of (history : list ModelVersion) (version_id : option string) : Z :=
  match version_id with
  | Some v => default 0 (mv_sequence <$> find_row v history)
  | None => 0
  end.

(** The entry that stands for the line: the current version's, else the newest's. *)
Definition chosen_entry (h : heap) (line : ModelLine) (history : list ModelVersion)
    (entries : list nat) : option nat :=
  match head (filter (λ r, (_line_pointer (h r)).2 = ml_current_version_id line) entries) with
  | Some r => Some r
  | None => max_by (λ r, sequence_of history (_line_pointer (h r)).2) entries
  end.

Definition line_block (line : ModelLine) (version_id : option string)
    (history : list ModelVersion) : LineBlock :=
  mkLineBlock (ml_id line) (ml_name line) (ml_current_version_id line) version_id history.

Definition set_line (r : nat) (b : LineBlock) (h : heap) : heap :=
  λ r', if decide (r' = r) then (h r) <| me_line := Some b |> else h r'.

(** The body of the loop over [grouped]: the heap and the entries to drop. *)
Definition attach_line (lines : list ModelLine) (versions : list ModelVersion)
    (models : list nat) (acc : heap * list nat) (line_id : string) : heap * list nat :=
  let '(h, drop_) := acc in
  match ModelLines.get_line_by_id line_id lines with
  | None => acc
  | Some line =>
      let history := ModelVersions.get_versions_by_line line_id versions in
      let entries := group_of h line_id models in
      match chosen_entry h line history entries with
      | None => acc
      | Some chosen =>
          (set_line chosen (line_block line (_line_pointer (h chosen)).2 history) h,
           drop_ ++ filter (λ r, r ≠ chosen) entries)
      end
  end.

Definition attach_lines_to_models (lines : list ModelLine) (versions : list ModelVersion)
    (h : heap) (models : list nat) : heap * list nat :=
  let '(h', drop_) := foldl (attach_line lines versions models) (h, []) (group_keys h models) in
  (h', filter (λ r, r ∉ drop_) models).

(** ** The coroutines *)

(** The tables, and how many [uuid4]s the process has minted. *)
Record Tables := mkTables {
  t_lines : list ModelLine;
  t_versions : list ModelVersion;
  t_minted : nat
}.

#[export] Instance Tables_eta : Eta Tables := λ t,
  mkTables (t_lines t) (t_versions t) (t_minted t).

(** The table methods other coroutines may call while one is suspended. *)
Inductive TableWrite :=
| WInsertLine (user_id : string) (form : ModelLineForm)
| WUpdateRepo (line_id repo : string)
| WSetCurrent (line_id version_id : string) (moved_by : option string)
| WDeleteLine (line_id : string)
| WInsertVersion (line_id : string) (form : ModelVersionForm)
| WDeleteVersions (line_id : string).

(** What an awaited call answers.  A commit's reply may carry no id, and a commit that was
    made may be answered by an error or by nothing. *)
Inductive Answer :=
| AnswerFails
| AnswerLost (commit_id : string)
| AnswerCommit (commit_id : string)
| AnswerRepo
| AnswerMerge (task_id : option string).

(** One [await]: the clock after it, what the other coroutines write meanwhile
    (each with its commit outcome and its clock), and the answer. *)
Record VAwait := mkVAwait {
  va_now : Z;
  va_peers : list (bool * Z * TableWrite);
  va_answer : Answer
}.

Inductive VEvent :=
| EvStaged (repo : option string) (name : string)
| EvCommitted (repo commit_id : string)
| EvMergeRequested (base : option string) (adapters : list (option string))
    (output_name quant_type : option string)
| EvRepoCreated (repo : string).

Record VWorld := mkVWorld {
  v_tables : Tables;
  v_jobs : list PublishJob;
  v_now : Z;
  v_commits : list bool;
  v_staging : list bool;
  v_script : list VAwait;
  v_log : list VEvent
}.

#[export] Instance VWorld_eta : Eta VWorld := λ w,
  mkVWorld (v_tables w) (v_jobs w) (v_now w) (v_commits w) (v_staging w) (v_script w) (v_log w).

Abbreviation service A := (prog VWorld VersionError A).

Section service.
Context (uuid4 : nat → string).

(** One table method, run by anybody. *)
Definition run_write (t : Tables) (p : bool * Z * TableWrite) : Tables :=
  let '(ok, now, op) := p in
  let lines := t_lines t in
  let versions := t_versions t in
  match op with
  | WInsertLine user_id form =>
      mkTables (ModelLines.insert_new_line ok now (uuid4 (t_minted t)) user_id form lines).2
        versions (S (t_minted t))
  | WUpdateRepo line_id repo =>
      t <| t_lines := (ModelLines.update_corpus_repo ok now line_id repo lines).2 |>
  | WSetCurrent line_id version_id moved_by =>
      t <| t_lines := (ModelLines.set_current_version ok now line_id version_id moved_by
                         versions lines).2 |>
  | WDeleteLine line_id =>
      t <| t_lines := (ModelLines.delete_line_by_id ok line_id
                         (ModelVersions.get_versions_by_line line_id versions) lines).2 |>
  | WInsertVersion line_id form =>
      mkTables lines (ModelVersions.insert_new_version ok now (uuid4 (t_minted t)) line_id form
                        lines versions).2 (S (t_minted t))
  | WDeleteVersions line_id =>
      t <| t_versions := (ModelVersions.delete_versions_by_line ok line_id versions).2 |>
  end.

Definition next_commit : service bool := λ w,
  match v_commits w with
  | [] => (Ok true, w)
  | b :: rest => (Ok b, w <| v_commits := rest |>)
  end.

Definition acting {A} (f : VWorld → result VersionError A * VWorld) : service A := f.

(** A table method called by the coroutine itself, and what it returns. *)
Definition writes {A} (op : TableWrite) (returns : bool → Z → Tables → result VersionError A)
    : service A :=
  ok ← next_commit;
  acting (λ w, (returns ok (v_now w) (v_tables w),
        w <| v_tables := run_write (v_tables w) (ok, v_now w, op) |>)).

Definition insert_new_line (user_id : string) (form : ModelLineForm)
    : service (option ModelLine) :=
  writes (WInsertLine user_id form) (λ ok now t,
    Ok (ModelLines.insert_new_line ok now (uuid4 (t_minted t)) user_id form (t_lines t)).1).

Definition update_corpus_repo (line_id repo : string) : service (option ModelLine) :=
  writes (WUpdateRepo line_id repo) (λ ok now t,
    Ok (ModelLines.update_corpus_repo ok now line_id repo (t_lines t)).1).

Definition set_current_version (line_id version_id : string) (moved_by : option string)
    : service (option ModelLine) :=
  writes (WSetCurrent line_id version_id moved_by) (λ ok now t,
    (ModelLines.set_current_version ok now line_id version_id moved_by
       (t_versions t) (t_lines t)).1).

Definition insert_new_version (line_id : string) (form : ModelVersionForm)
    : service ModelVersion :=
  writes (WInsertVersion line_id form) (λ ok now t,
    (ModelVersions.insert_new_version ok now (uuid4 (t_minted t)) line_id form
       (t_lines t) (t_versions t)).1).

Definition emit (e : VEvent) : service unit :=
  modify (λ w, w <| v_log := v_log w ++ [e] |>).

(** Suspend: the peers run, the clock moves, the call answers. *)
Definition await_answer : service Answer := λ w,
  match v_script w with
  | [] => (Ok AnswerFails, w)
  | a :: rest =>
      (Ok (va_answer a),
       w <| v_script := rest |> <| v_now := va_now a |>
         <| v_tables := foldl run_write (v_tables w) (va_peers a) |>)
  end.

Definition or_raise {A} (r : result VersionError A) : service A :=
  match r with Ok a => mret a | Raise e => raise e end.

(** [try: m except ...: h] *)
Definition catching {A} (m : service A) (h : VersionError → service A) : service A := λ w,
  match m w with
  | (Raise e, w') => h e w'
  | r => r
  end.

(** [commit_branch]; a reply without an id raises, though the commit was made. *)
Definition commit_branch (repo : string) : service string :=
  a ← await_answer;
  match a with
  | AnswerCommit id =>
      emit (EvCommitted repo id);;
      if decide (id = "") then raise SelfCorpusError else mret id
  | AnswerLost id => emit (EvCommitted repo id);; raise SelfCorpusError
  | _ => raise SelfCorpusError
  end.

(** [_stage_provenance_manifest] answers at once. *)
Definition _stage_provenance_manifest (repo : option string) (name : string) : service bool := λ w,
  match v_staging w with
  | true :: rest => 
      (Ok true, w <| v_staging := rest |> <| v_log := v_log w ++ [EvStaged repo name] |>)
  | false :: rest => (Ok false, w <| v_staging := rest |>)
  | [] => (Ok false, w)
  end.

Record Append := mkAppend {
  ap_kind : string;
  ap_parent_version_id : option string;
  ap_base_version_id : option string;
  ap_produced_by : option json_dict;
  ap_published_by : option string;
  ap_artifact_ref : option string;
  ap_meta : option json_dict
}.

Definition version_form (a : Append) (commit_id : string) : ModelVersionForm :=
  mkModelVersionForm (ap_kind a) commit_id (ap_parent_version_id a) (ap_base_version_id a)
    (ap_produced_by a) (ap_published_by a) (ap_artifact_ref a) (ap_meta a).

(** Validate, commit, and only then write the row. *)
Definition append_version (line_id : string) (a : Append) : service ModelVersion :=
  t ← gets v_tables;
  match ModelLines.get_line_by_id line_id (t_lines t) with
  | None => raise (LineNotFound line_id)
  | Some line =>
      match truthy (ml_corpus_repo line) with
      | None => raise (NoCorpusRepo line_id)
      | Some repo =>
          match ModelVersions.validate_append line_id (ap_kind a) (ap_parent_version_id a)
                  (ap_base_version_id a) (t_lines t) (t_versions t) with
          | Some e => raise e
          | None =>
              commit_id ← commit_branch repo;
              insert_new_version line_id (version_form a commit_id)
          end
      end
  end.

Definition SELFAI_REPO_PREFIX : string := "selfai-".
Definition MODEL_LINE_INFIX : string := "line-".
Definition repo_id_for_model_line (line_id : string) : string :=
  SELFAI_REPO_PREFIX +:+ MODEL_LINE_INFIX +:+ line_id.

Definition create_repository (repo : string) : service unit :=
  a ← await_answer;
  match a with
  | AnswerRepo => emit (EvRepoCreated repo)
  | AnswerLost _ => emit (EvRepoCreated repo);; raise SelfCorpusError
  | _ => raise SelfCorpusError
  end.

Definition ensure_line (user_id : string) (line_id line_name : option string)
    : service ModelLine :=
  match truthy line_id with
  | Some id =>
      t ← gets v_tables;
      match ModelLines.get_line_by_id id (t_lines t) with
      | Some line => mret line
      | None => raise (LineNotFound id)
      end
  | None =>
      line ← insert_new_line user_id
               (mkModelLineForm (default "model line" (truthy line_name)) None None None);
      match line with
      | None => raise CouldNotCreateLine
      | Some line =>
          let repo_id := repo_id_for_model_line (ml_id line) in
          create_repository repo_id;;
          updated ← update_corpus_repo (ml_id line) repo_id;
          match updated with
          | Some line => mret line
          | None => raise (CouldNotAttachRepo (ml_id line) repo_id)
          end
      end
  end.

(** [s.replace("/", "_")] *)
Fixpoint no_slash (s : string) : string :=
  match s with
  | EmptyString => EmptyString
  | String c s' => String (if decide (c = "/"%char) then "_"%char else c) (no_slash s')
  end.

(** The newest base on a line. *)
Definition newest_base (line_id : string) (versions : list ModelVersion) : option ModelVersion :=
  first_base (rev (ModelVersions.get_versions_by_line line_id versions)).

Definition record_version_for_artifact (user_id kind : string) (artifact_ref : option string)
    (manifest : json_dict) (line_id line_name : option string) (produced_by : option json_dict)
    : service ModelVersion :=
  line ← ensure_line user_id line_id line_name;
  t ← gets v_tables;
  let history := ModelVersions.get_versions_by_line (ml_id line) (t_versions t) in
  let manifest_name :=
    default (kind +:+ "-" +:+ pretty (Z.of_nat (length history) + 1)) (truthy artifact_ref) in
  staged ← _stage_provenance_manifest (ml_corpus_repo line) (no_slash manifest_name);
  if negb staged then raise (CouldNotStage (ml_corpus_repo line))
  else
    append_version (ml_id line)
      (mkAppend kind (mv_id <$> latest_version (ml_id line) (t_versions t))
         (if decide (kind = "adapter")
          then mv_id <$> newest_base (ml_id line) (t_versions t) else None)
         produced_by (Some user_id) artifact_ref (Some [("manifest", JDict manifest)])).

(** ** Publishing *)

(** A lookup; it cannot run out of fuel ([walk_provenance_terminates]). *)
Definition looked_up {A} (r : option (result VersionError A)) : service A :=
  match r with Some r => or_raise r | None => raise PythonTypeError end.

(** [PublishJobs.insert_new_job] raises when its commit fails. *)
Definition insert_new_job (line_id user_id base : string) (adapters : list string)
    (form : PublishJobs.PublishJobForm) : service PublishJob :=
  ok ← next_commit;
  acting (λ w,
    let id := uuid4 (t_minted (v_tables w)) in
    let w := w <| v_tables := (v_tables w) <| t_minted := S (t_minted (v_tables w)) |> |> in
    if ok : bool
    then (Ok (PublishJobs.new_job (v_now w) id line_id user_id base adapters form),
          w <| v_jobs := PublishJobs.insert_new_job (v_now w) id line_id user_id base adapters
                           form (v_jobs w) |>)
    else (Raise (CouldNotCreateJob line_id), w)).

Definition create_publish_job (line_id user_id : string) (form : PublishJobs.PublishJobForm)
    : service PublishJob :=
  t ← gets v_tables;
  match ModelLines.get_line_by_id line_id (t_lines t) with
  | None => raise (LineNotFound line_id)
  | Some line =>
      match truthy (ml_corpus_repo line) with
      | None => raise (NoCorpusRepo line_id)
      | Some _ =>
          ba ← looked_up (current_base_and_adapters line_id (t_lines t) (t_versions t));
          let '(base, adapters) := ba in
          if decide (adapters = []) then raise (NothingToPublish line_id (mv_id base))
          else
            let named :=
              match truthy (PublishJobs.pf_output_name form) with
              | Some _ => PublishJobs.pf_output_name form
              | None => Some (ml_name line +:+ "-v" +:+
                              pretty (mv_sequence base + Z.of_nat (length adapters) + 1))
              end in
            insert_new_job line_id user_id (mv_id base) (mv_id <$> adapters)
              (PublishJobs.mkPublishJobForm named (PublishJobs.pf_quant_type form)
                 (PublishJobs.pf_priority form) (PublishJobs.pf_scheduled_for form))
      end
  end.

(** [merge_adapters_into_base]: every adapter at full weight; [control_urls] is
    [LLAMOLOTL_CONTROL_BASE_URLS], of which the first is asked. *)
Definition merge_adapters_into_base (control_urls : list string) (base : ModelVersion)
    (adapters : list ModelVersion) (output_name quant_type : option string)
    : service (option string) :=
  if decide (control_urls = []) then raise MergeRequestFailed else
  emit (EvMergeRequested (mv_artifact_ref base) (mv_artifact_ref <$> adapters) output_name
          (truthy quant_type));;
  a ← await_answer;
  match a with
  | AnswerMerge task_id => mret task_id
  | _ => raise MergeRequestFailed
  end.

Definition start_publish_merge (control_urls : list string) (job : PublishJob) : service string :=
  t ← gets v_tables;
  match ModelVersions.get_version_by_id (pb_base_version_id job) (t_versions t) with
  | None => raise (BaseVersionGone (pb_base_version_id job))
  | Some base =>
      let ids := default [] (pb_adapter_version_ids job) in
      let resolved_ := (λ v, (v, ModelVersions.get_version_by_id v (t_versions t))) <$> ids in
      let missing := (filter (λ p, p.2 = None) resolved_).*1 in
      if decide (missing = []) then
        task_id ← merge_adapters_into_base control_urls base (omap snd resolved_)
                    (pb_output_name job) (pb_quant_type job);
        match truthy task_id with
        | Some t => mret t
        | None => raise (NoTaskId (pb_id job))
        end
      else raise (AdaptersGone missing)
  end.

(** [PublishJobs.update_status]: the row afterwards, or nothing. *)
Definition update_status (id : string) (st : JobStatus) (err result_version_id : option string)
    : service (option PublishJob) :=
  ok ← next_commit;
  acting (λ w,
    if ok : bool
    then let jobs := PublishJobs.update_status (v_now w) id st err result_version_id (v_jobs w) in
         (Ok (find_row id jobs), w <| v_jobs := jobs |>)
    else (Ok None, w)).

Definition publish_append (job : PublishJob) (artifact_ref : option string) : Append :=
  mkAppend "base" (Some (pb_base_version_id job)) None
    (Some [("job_kind", JStr "publish"); ("job_id", JStr (pb_id job))])
    (Some (pb_user_id job)) artifact_ref
    (Some [("merged_adapter_versions",
            JList (JStr <$> default [] (pb_adapter_version_ids job)));
           ("base_version", JStr (pb_base_version_id job))]).

(** The [str] of an error, its fixed part. *)
Definition error_text (e : VersionError) : string := "could not record the version".

(** The [try] block of [complete_publish_job]. *)
Definition stage_and_append (line_id : string) (repo : option string) (name : string) (a : Append)
    : service ModelVersion :=
  staged ← _stage_provenance_manifest repo name;
  if negb staged then raise (CouldNotStage repo) else append_version line_id a.

Definition complete_publish_job (job : PublishJob) (artifact : option string)
    : service (option PublishJob) :=
  t ← gets v_tables;
  match ModelLines.get_line_by_id (pb_line_id job) (t_lines t) with
  | None => raise (LineNotFound (pb_line_id job))
  | Some line =>
      let artifact_ref :=
        match truthy artifact with Some a => Some a | None => pb_output_name job end in
      version ← catching
        (stage_and_append (pb_line_id job) (ml_corpus_repo line)
           (no_slash (default (pb_id job) (truthy artifact_ref)))
           (publish_append job artifact_ref))
        (λ e, update_status (pb_id job) FAILED (Some (error_text e)) None;; raise e);
      set_current_version (pb_line_id job) (mv_id version) (Some (pb_user_id job));;
      update_status (pb_id job) COMPLETED None (Some (mv_id version))
  end.

Definition revert_line (line_id version_id : string) (moved_by : option string)
    : service ModelLine :=
  line ← set_current_version line_id version_id moved_by;
  match line with
  | Some line => mret line
  | None => raise (CouldNotMove line_id version_id)
  end.

End service.
