(* ===== verification/VersionFacts.v ===== *)
(** Lemmas on model lines and versions: what an append checks and writes, the
    well-formedness of the two tables, and that every table method keeps it. *)

From stdpp Require Import gmap pretty.
From S2P Require Import Prelude Data Jobs Versions VersionService.

Implicit Types (lines : list ModelLine) (versions : list ModelVersion) (v : ModelVersion).

(** ** The tables' methods *)

Lemma elem_of_history line_id versions v :
  v ∈ ModelVersions.get_versions_by_line line_id versions ↔
    v ∈ versions ∧ mv_line_id v = line_id.
Proof.
  unfold ModelVersions.get_versions_by_line.
  rewrite sort_by_elem_of, list_elem_of_filter. tauto.
Qed.

Lemma history_nil line_id versions :
  ModelVersions.get_versions_by_line line_id versions = [] ↔
    ∀ v, v ∈ versions → mv_line_id v ≠ line_id.
Proof.
  split.
  - intros Hnil v Hv Hl. apply (not_elem_of_nil v). rewrite <- Hnil. by apply elem_of_history.
  - intros Hno. apply elem_of_nil_inv. intros v [Hv Hl]%elem_of_history. by apply (Hno v).
Qed.

(** The parent an append names, as its guard accepts it. *)
Definition parent_accepted (line_id : string) (parent : option string) versions : Prop :=
  match parent with
  | Some p => ∃ pv, find_row p versions = Some pv ∧ mv_line_id pv = line_id
  | None => ∀ v, v ∈ versions → mv_line_id v ≠ line_id
  end.

Definition base_accepted (line_id : string) (base : option string) versions : Prop :=
  match base with
  | Some b => ∃ bv, find_row b versions = Some bv ∧ mv_line_id bv = line_id ∧ mv_kind bv = "base"
  | None => True
  end.

Lemma validate_append_None line_id kind parent base lines versions :
  ModelVersions.validate_append line_id kind parent base lines versions = None ↔
    is_Some (find_row line_id lines) ∧ kind ∈ VERSION_KINDS ∧
    parent_accepted line_id parent versions ∧ base_accepted line_id base versions.
Proof.
  unfold ModelVersions.validate_append, ModelLines.get_line_by_id, ModelVersions.get_version_by_id.
  destruct (find_row line_id lines) as [l|]; [|split; [done|by intros [[] _]]].
  case_decide as Hk; [split; [done|by intros (_ & ? & _)]|].
  assert ((match parent with
           | Some p => match find_row p versions with
                       | Some pv => if decide (mv_line_id pv ≠ line_id)
                                    then Some (ParentOnAnotherLine p) else None
                       | None => Some (ParentNotFound p)
                       end
           | None => if decide (ModelVersions.get_versions_by_line line_id versions = [])
                     then None else Some (MustNameParent line_id)
           end) = None ↔ parent_accepted line_id parent versions) as Hparent.
  { unfold parent_accepted. destruct parent as [p|].
    - destruct (find_row p versions) as [pv|]; [|split; [done|by intros (? & ? & _)]].
      case_decide; naive_solver.
    - rewrite <- history_nil. case_decide; naive_solver. }
  destruct (match parent with Some _ => _ | None => _ end) as [e|]; [naive_solver|].
  assert (parent_accepted line_id parent versions) by tauto.
  unfold base_accepted. destruct base as [b|]; [|naive_solver].
  destruct (find_row b versions) as [bv|]; [|split; [done|by intros (_ & _ & _ & ? & ? & _)]].
  repeat case_decide; naive_solver.
Qed.

(** An append either writes nothing and raises, or adds one row. *)
Lemma insert_new_version_cases ok now id line_id form lines versions :
  let r := ModelVersions.insert_new_version ok now id line_id form lines versions in
  (∃ e, r = (Raise e, versions)) ∨
  (∃ v, r = (Ok v, versions ++ [v]) ∧
     v = ModelVersions.new_version now id line_id
           (ModelVersions.next_sequence (ModelVersions.get_versions_by_line line_id versions)) form ∧
     ModelVersions.validate_append line_id (vf_kind form) (vf_parent_version_id form)
       (vf_base_version_id form) lines versions = None ∧
     vf_corpus_commit_id form ≠ "").
Proof.
  unfold ModelVersions.insert_new_version.
  destruct (ModelVersions.validate_append _ _ _ _ _ _) eqn:Hv; [left; by eexists|].
  case_decide; [left; by eexists|]. case_decide; [left; by eexists|].
  destruct ok; [right; eauto 10|left; by eexists].
Qed.

(** ** Sequences *)

Lemma zmax_ge d l x : x ∈ l → x ≤ zmax d l.
Proof.
  destruct l as [|y l]; [by intros ?%not_elem_of_nil|]. simpl. revert y.
  induction l as [|z l IH]; intros y Hx; simpl.
  - apply list_elem_of_singleton in Hx as ->. lia.
  - assert (∀ l a b, a ≤ b → foldl Z.max a l ≤ foldl Z.max b l) as Hmono.
    { clear. induction l as [|c l IH]; intros a b Hab; simpl; [done|]. apply IH. lia. }
    apply elem_of_cons in Hx as [->|[->|Hx]%elem_of_cons].
    + etransitivity; [apply (IH y); left|apply Hmono; lia].
    + etransitivity; [apply (IH z); left|apply Hmono; lia].
    + apply IH. by right.
Qed.

Lemma next_sequence_gt line_id versions v :
  v ∈ versions → mv_line_id v = line_id →
  mv_sequence v <
    ModelVersions.next_sequence (ModelVersions.get_versions_by_line line_id versions).
Proof.
  intros Hv Hl. assert (v ∈ ModelVersions.get_versions_by_line line_id versions) as Hh
    by by apply elem_of_history.
  unfold ModelVersions.next_sequence. case_decide as Hnil.
  - rewrite Hnil in Hh. by apply not_elem_of_nil in Hh.
  - assert (mv_sequence v ≤ zmax 0 (mv_sequence <$> ModelVersions.get_versions_by_line line_id versions)).
    { apply zmax_ge, list_elem_of_fmap. eauto. }
    lia.
Qed.

Lemma next_sequence_first line_id versions :
  (∀ v, v ∈ versions → mv_line_id v ≠ line_id) →
  ModelVersions.next_sequence (ModelVersions.get_versions_by_line line_id versions) = 1.
Proof. intros Hno%history_nil. rewrite Hno. done. Qed.

(** ** Well-formed tables *)

(** A version in its history: where its parent and its base are. *)
Record version_ok lines versions (v : ModelVersion) : Prop := {
  vok_line : mv_line_id v ∈ keys lines;
  vok_kind : mv_kind v ∈ VERSION_KINDS;
  vok_commit : mv_corpus_commit_id v ≠ "";
  vok_first : mv_parent_version_id v = None ↔ mv_sequence v = 1;
  vok_positive : 1 ≤ mv_sequence v;
  vok_parent : ∀ p, mv_parent_version_id v = Some p →
    ∃ pv, find_row p versions = Some pv ∧ mv_line_id pv = mv_line_id v ∧
      mv_sequence pv < mv_sequence v;
  vok_base : ∀ b, mv_base_version_id v = Some b →
    ∃ bv, find_row b versions = Some bv ∧ mv_line_id bv = mv_line_id v ∧
      mv_kind bv = "base" ∧ mv_sequence bv < mv_sequence v
}.

Record tables_ok (uuid4 : nat → string) (t : Tables) : Prop := {
  tok_lines_nodup : NoDup (keys (t_lines t));
  tok_versions_nodup : NoDup (keys (t_versions t));
  tok_lines_minted : ∀ l, l ∈ t_lines t → minted uuid4 (t_minted t) (ml_id l);
  tok_versions_minted : ∀ v, v ∈ t_versions t → minted uuid4 (t_minted t) (mv_id v);
  tok_versions : ∀ v, v ∈ t_versions t → version_ok (t_lines t) (t_versions t) v;
  tok_sequences : ∀ v v', v ∈ t_versions t → v' ∈ t_versions t →
    mv_line_id v = mv_line_id v' → mv_sequence v = mv_sequence v' → v = v';
  tok_current : ∀ l c, l ∈ t_lines t → ml_current_version_id l = Some c →
    minted uuid4 (t_minted t) c ∧
    (∀ v, find_row c (t_versions t) = Some v → mv_line_id v = ml_id l)
}.

#[export] Hint Resolve minted_S minted_now : s2db.

(** Lines may be rewritten in place as long as they keep their ids. *)
Lemma version_ok_lines lines lines' versions v :
  keys lines ⊆ keys lines' → version_ok lines versions v → version_ok lines' versions v.
Proof. intros Hk []. split; auto. Qed.

Lemma version_ok_app lines versions v x :
  mv_id x ∉ keys versions → version_ok lines versions v → version_ok lines (versions ++ [x]) v.
Proof.
  intros Hx [? ? ? ? ? Hp Hb]. split; try done.
  - intros p (pv & Hf & ?)%Hp. exists pv. split; [|done]. by rewrite find_row_app, Hf.
  - intros b (bv & Hf & ?)%Hb. exists bv. split; [|done]. by rewrite find_row_app, Hf.
Qed.

Lemma find_row_snoc_old {A} `{Keyed A} k (t : list A) r x :
  find_row k t = Some r → find_row k (t ++ [x]) = Some r.
Proof. intros Hr. by rewrite find_row_app, Hr. Qed.

Lemma keys_app {A} `{Keyed A} (t1 t2 : list A) : keys (t1 ++ t2) = keys t1 ++ keys t2.
Proof. apply fmap_app. Qed.

Section writes.
Context (uuid4 : nat → string) `{!Inj (=) (=) uuid4}.
Implicit Types t : Tables.

Lemma not_minted_keys {A} `{Keyed A} (l : list A) n :
  (∀ x, x ∈ l → minted uuid4 n (row_key x)) → uuid4 n ∉ keys l.
Proof.
  intros Hm (x & Hx & Hin)%list_elem_of_fmap. apply (not_minted uuid4 n). rewrite Hx. auto.
Qed.
Lemma set_current_version_cases ok now line_id version_id by_ versions lines :
  let r := ModelLines.set_current_version ok now line_id version_id by_ versions lines in
  r.2 = lines ∨
  (∃ v meta, find_row version_id versions = Some v ∧ mv_line_id v = line_id ∧ ok = true ∧
     r = (Ok (find_row line_id (update_row line_id (ModelLines.move_row now version_id meta) lines)),
          update_row line_id (ModelLines.move_row now version_id meta) lines)).
Proof.
  unfold ModelLines.set_current_version, ModelLines.get_line_by_id.
  destruct (find_row version_id versions) as [v|] eqn:Hv; [|by left].
  case_decide as Hl; [by left|].
  destruct (find_row line_id lines) as [l|]; [|by left].
  destruct (ModelLines.list_or_empty _); [|by left].
  destruct ok; [right|by left]. eexists v, _. by split_and!.
Qed.

(** Writing a line's row in place, its pointer set to a version of its own. *)
Lemma tables_ok_update_line t line_id (f : ModelLine → ModelLine) :
  tables_ok uuid4 t → keeps_key f →
  (∀ l, l ∈ t_lines t → ml_id l = line_id →
     ml_current_version_id (f l) = ml_current_version_id l ∨
     ∃ v, v ∈ t_versions t ∧ mv_line_id v = line_id ∧
          ml_current_version_id (f l) = Some (mv_id v)) →
  tables_ok uuid4 (t <| t_lines := update_row line_id f (t_lines t) |>).
Proof.
  intros [Hnl Hnv Hml Hmv Hv Hs Hc] Hf Hcur. split; simpl; try done.
  - by rewrite keys_update_row.
  - intros l [[Hl _]|(l0 & Hl0 & ->)]%elem_of_update_row; [by apply Hml| |done|done].
    apply find_row_Some in Hl0 as [Hl0 _]. pose proof (Hf l0) as Hk.
    unfold row_key, ModelLine_keyed in Hk. rewrite Hk. by apply Hml.
  - intros v Hin. eapply version_ok_lines, Hv, Hin. by rewrite keys_update_row.
  - intros l c [[Hl _]|(l0 & Hl0 & ->)]%elem_of_update_row; [by apply Hc| |done|done].
    apply find_row_Some in Hl0 as [Hl0 Hid]. pose proof (Hf l0) as Hk.
    unfold row_key, ModelLine_keyed in Hk, Hid. rewrite Hk.
    destruct (Hcur l0 Hl0 Hid) as [->|(v & Hin & Hvl & ->)]; [by apply Hc|].
    intros [= <-]. split; [by apply Hmv|]. intros v' Hv'.
    assert (find_row (mv_id v) (t_versions t) = Some v) by by apply find_row_elem.
    congruence.
Qed.

Lemma tables_ok_insert_line t line :
  tables_ok uuid4 t → ml_id line = uuid4 (t_minted t) → ml_current_version_id line = None →
  tables_ok uuid4 (mkTables (t_lines t ++ [line]) (t_versions t) (S (t_minted t))).
Proof.
  intros [Hnl Hnv Hml Hmv Hv Hs Hc] Hid Hnone. split; simpl; try done.
  - rewrite keys_app. apply NoDup_app. split_and!; [done| |apply NoDup_singleton].
    intros k Hk ->%list_elem_of_singleton. revert Hk. unfold row_key, ModelLine_keyed.
    rewrite Hid. by apply (not_minted_keys _ (t_minted t)).
  - intros l [Hl| ->%list_elem_of_singleton]%elem_of_app; [eauto with s2db|].
    rewrite Hid. eauto with s2db.
  - eauto with s2db.
  - intros v Hin. eapply version_ok_lines, Hv, Hin. rewrite keys_app. set_solver.
  - intros l c [Hl| ->%list_elem_of_singleton]%elem_of_app Hcur; [|congruence].
    destruct (Hc l c Hl Hcur). eauto with s2db.
Qed.

Lemma tables_ok_delete_line t line_id :
  tables_ok uuid4 t → (∀ v, v ∈ t_versions t → mv_line_id v ≠ line_id) →
  tables_ok uuid4 (t <| t_lines := delete_row line_id (t_lines t) |>).
Proof.
  intros [Hnl Hnv Hml Hmv Hv Hs Hc] Hno.
  assert (∀ l, l ∈ delete_row line_id (t_lines t) ↔ ml_id l ≠ line_id ∧ l ∈ t_lines t) as Hin.
  { intros l. unfold delete_row. by rewrite list_elem_of_filter. }
  split; simpl; try done.
  - eapply sublist_NoDup; [exact Hnl|]. apply fmap_sublist, sublist_filter.
  - intros l [_ ?]%Hin. auto.
  - intros v Hv'. destruct (Hv v Hv') as [Hl]. split; try done.
    apply list_elem_of_fmap in Hl as (l & Hl & Hl'). apply list_elem_of_fmap. exists l.
    split; [done|]. apply Hin. split; [|done]. intros He. apply (Hno v Hv'). rewrite Hl. done.
  - intros l c [_ ?]%Hin. eauto.
Qed.

Lemma tables_ok_delete_versions t line_id :
  tables_ok uuid4 t →
  tables_ok uuid4 (t <| t_versions := filter (λ v, mv_line_id v ≠ line_id) (t_versions t) |>).
Proof.
  intros [Hnl Hnv Hml Hmv Hv Hs Hc].
  assert (∀ v, v ∈ filter (λ v, mv_line_id v ≠ line_id) (t_versions t) ↔
    mv_line_id v ≠ line_id ∧ v ∈ t_versions t) as Hin
    by (intros v; by rewrite list_elem_of_filter).
  assert (NoDup (keys (filter (λ v, mv_line_id v ≠ line_id) (t_versions t)))) as Hnd.
  { eapply sublist_NoDup; [exact Hnv|]. apply fmap_sublist, sublist_filter. }
  assert (∀ k v, find_row k (t_versions t) = Some v → mv_line_id v ≠ line_id →
    find_row k (filter (λ v, mv_line_id v ≠ line_id) (t_versions t)) = Some v) as Hfind.
  { intros k v [Hv' <-]%find_row_Some Hl. by apply find_row_elem, Hin. }
  split; simpl; try done.
  - intros v [_ ?]%Hin. auto.
  - intros v [Hl Hv']%Hin. destruct (Hv v Hv') as [? ? ? ? ? Hp Hb]. split; try done.
    + intros p (pv & ? & Hpl & ?)%Hp. exists pv. split; [|done]. apply Hfind; congruence.
    + intros b (bv & ? & Hbl & ?)%Hb. exists bv. split; [|done]. apply Hfind; congruence.
  - intros v v' [_ ?]%Hin [_ ?]%Hin. auto.
  - intros l c Hl Hcur. destruct (Hc l c Hl Hcur) as [? Hc']. split; [done|].
    intros v [[_ Hv']%Hin <-]%find_row_Some. apply Hc'. by apply find_row_elem.
Qed.

(** The row an append adds is well-formed, and its sequence is new on its line. *)
Lemma new_version_ok t now line_id form :
  tables_ok uuid4 t →
  ModelVersions.validate_append line_id (vf_kind form) (vf_parent_version_id form)
    (vf_base_version_id form) (t_lines t) (t_versions t) = None →
  vf_corpus_commit_id form ≠ "" →
  version_ok (t_lines t) (t_versions t)
    (ModelVersions.new_version now (uuid4 (t_minted t)) line_id
       (ModelVersions.next_sequence
          (ModelVersions.get_versions_by_line line_id (t_versions t))) form).
Proof.
  intros Hok (Hline & Hkind & Hparent & Hbase)%validate_append_None Hcommit.
  assert (∀ v, v ∈ t_versions t → mv_line_id v = line_id → 1 <
    ModelVersions.next_sequence (ModelVersions.get_versions_by_line line_id (t_versions t))) as Hgt.
  { intros v Hv Hl. pose proof (next_sequence_gt line_id _ v Hv Hl).
    pose proof (vok_positive _ _ _ (tok_versions _ _ Hok v Hv)). lia. }
  split; simpl; try done.
  - by apply find_row_is_Some.
  - unfold parent_accepted in Hparent. destruct (vf_parent_version_id form) as [p|].
    + destruct Hparent as (pv & [Hp _]%find_row_Some & Hl). specialize (Hgt pv Hp Hl).
      split; [done|lia].
    + by rewrite next_sequence_first.
  - unfold ModelVersions.next_sequence in *. case_decide as Hnil; [lia|].
    destruct (ModelVersions.get_versions_by_line line_id (t_versions t)) as [|v l] eqn:Hh; [done|].
    assert (v ∈ ModelVersions.get_versions_by_line line_id (t_versions t)) as [Hv Hl]%elem_of_history
      by (rewrite Hh; left).
    specialize (Hgt v Hv Hl). lia.
  - intros p Hp. rewrite Hp in Hparent. destruct Hparent as (pv & Hf & Hl).
    exists pv. split_and!; [done..|]. apply find_row_Some in Hf as [Hin _].
    by apply next_sequence_gt.
  - intros b Hb. rewrite Hb in Hbase. destruct Hbase as (bv & Hf & Hl & Hk).
    exists bv. split_and!; [done..|]. apply find_row_Some in Hf as [Hin _].
    by apply next_sequence_gt.
Qed.

Lemma tables_ok_insert_version t now line_id form :
  tables_ok uuid4 t →
  ModelVersions.validate_append line_id (vf_kind form) (vf_parent_version_id form)
    (vf_base_version_id form) (t_lines t) (t_versions t) = None →
  vf_corpus_commit_id form ≠ "" →
  tables_ok uuid4 (mkTables (t_lines t)
    (t_versions t ++ [ModelVersions.new_version now (uuid4 (t_minted t)) line_id
       (ModelVersions.next_sequence
          (ModelVersions.get_versions_by_line line_id (t_versions t))) form]) (S (t_minted t))).
Proof.
  intros Hok Hval Hcommit. pose proof (new_version_ok t now line_id form Hok Hval Hcommit) as Hnew.
  set (x := ModelVersions.new_version _ _ _ _ _) in *.
  destruct Hok as [Hnl Hnv Hml Hmv Hv Hs Hc].
  assert (mv_id x ∉ keys (t_versions t)) as Hfresh by by apply (not_minted_keys _ (t_minted t)).
  assert (∀ v, v ∈ t_versions t → mv_line_id v = line_id → mv_sequence v < mv_sequence x) as Hseq
    by (intros; by apply next_sequence_gt).
  split; simpl; try done.
  - rewrite keys_app. apply NoDup_app. split_and!; [done| |apply NoDup_singleton].
    by intros k Hk ->%list_elem_of_singleton.
  - eauto with s2db.
  - intros v [?| ->%list_elem_of_singleton]%elem_of_app; [eauto with s2db|apply minted_now].
  - intros v [?| ->%list_elem_of_singleton]%elem_of_app; apply version_ok_app; auto.
  - intros v v' [?| ->%list_elem_of_singleton]%elem_of_app
      [?| ->%list_elem_of_singleton]%elem_of_app Hl Hq; [by apply Hs| | |done].
    + assert (mv_sequence v < mv_sequence x) by by apply Hseq. lia.
    + assert (mv_sequence v' < mv_sequence x) by by apply Hseq. lia.
  - intros l c Hl Hcur. destruct (Hc l c Hl Hcur) as [Hm Hc']. split; [eauto with s2db|].
    intros v Hf. rewrite find_row_app in Hf. destruct (find_row c (t_versions t)); [naive_solver|].
    simpl in Hf. case_decide as Hxc; [|done]. destruct (not_minted uuid4 (t_minted t)).
    change (mv_id x = c) in Hxc. simpl in Hxc. by rewrite Hxc.
Qed.

Lemma run_write_ok t p : tables_ok uuid4 t → tables_ok uuid4 (run_write uuid4 t p).
Proof.
  intros Hok. destruct p as [[ok now] op]. destruct op as [u form|l repo|l vid by_|l|l form|l]; simpl.
  - destruct ok; simpl; [by apply tables_ok_insert_line|].
    destruct Hok as [? ? ? ? ? ? Hc]. split; simpl; try done; eauto with s2db.
    intros ll c ? ?. destruct (Hc ll c); eauto with s2db.
  - unfold ModelLines.update_corpus_repo. destruct ok; simpl; [|by destruct t].
    apply tables_ok_update_line; [done|done|]. intros; by left.
  - destruct (set_current_version_cases ok now l vid by_ (t_versions t) (t_lines t))
      as [Hr|(v & meta & Hv & Hl & -> & Hr)]; simpl in Hr; [rewrite Hr; by destruct t|].
    rewrite Hr. simpl. apply tables_ok_update_line; [done|done|]. intros l' Hl' Hid. right.
    apply find_row_Some in Hv as [? Hk]. exists v. split_and!; [done|done|]. simpl. by rewrite <- Hk.
  - unfold ModelLines.delete_line_by_id. case_decide as Hh; [|by destruct t].
    destruct ok; simpl; [|by destruct t]. apply tables_ok_delete_line; [done|by apply history_nil].
  - destruct (insert_new_version_cases ok now (uuid4 (t_minted t)) l form (t_lines t) (t_versions t))
      as [[e Hr]|(v & Hr & -> & Hval & Hcommit)]; simpl in Hr; rewrite Hr; simpl.
    + destruct Hok as [? ? ? ? ? ? Hc]. split; simpl; try done; eauto with s2db.
      intros ll c ? ?. destruct (Hc ll c); eauto with s2db.
    + by apply tables_ok_insert_version.
  - destruct ok; simpl; [by apply tables_ok_delete_versions|by destruct t].
Qed.

Lemma run_writes_ok t ps : tables_ok uuid4 t → tables_ok uuid4 (foldl (run_write uuid4) t ps).
Proof. revert t. induction ps as [|p ps IH]; intros t Hok; simpl; [done|]. by apply IH, run_write_ok. Qed.

Lemma no_tables_ok : tables_ok uuid4 (mkTables [] [] 0).
Proof.
  split; simpl; try apply NoDup_nil_2; intros; exfalso; by eapply not_elem_of_nil.
Qed.
End writes.
