(* ===== verification/VersionContract.v ===== *)
(** The contract of model lines and versions: every history stays walkable, an
    append commits before it records, provenance is total and never truncated,
    what a publish merges, how it completes, and what the picker shows. *)

From Stdlib Require Import Ascii.
From stdpp Require Import gmap pretty.
From S2P Require Import Prelude Data Jobs Versions VersionService VersionFacts.

(** ** Provenance *)

(** The parent chain of a version, newest first, down to a version without a
    parent. *)
Inductive provenance (versions : list ModelVersion) : ModelVersion → list ModelVersion → Prop :=
| provenance_first v :
    mv_parent_version_id v = None → provenance versions v [v]
| provenance_next v p pv chain :
    mv_parent_version_id v = Some p → find_row p versions = Some pv →
    provenance versions pv chain → provenance versions v (v :: chain).

Lemma provenance_det versions v chain1 chain2 :
  provenance versions v chain1 → provenance versions v chain2 → chain1 = chain2.
Proof.
  intros Hc. revert chain2. induction Hc; intros chain2 Hc2; inversion Hc2; simplify_eq;
    [done|f_equal; auto].
Qed.

(** Where a parent chain stops short: at [v], whose parent is missing or was met. *)
Inductive broken (versions : list ModelVersion) (start : string)
    : list string → ModelVersion → BrokenLink → Prop :=
| broken_missing seen v p :
    mv_parent_version_id v = Some p → p ∉ seen → find_row p versions = None →
    broken versions start seen v (ChainNamesMissing start (mv_id v) p)
| broken_cycle seen v p :
    mv_parent_version_id v = Some p → p ∈ seen →
    broken versions start seen v (ChainCycles start p)
| broken_later seen v p pv e :
    mv_parent_version_id v = Some p → p ∉ seen → find_row p versions = Some pv →
    broken versions start (p :: seen) pv e → broken versions start seen v e.

Section walking.
Context (versions : list ModelVersion) (start : string).
Implicit Types (v : ModelVersion).

Lemma walk_total fuel seen v :
  (length versions ≤ fuel + length seen)%nat → NoDup seen → seen ⊆ keys versions →
  ∃ r, walk fuel versions start seen v = Some r ∧
    match r with
    | Ok chain => provenance versions v chain
    | Raise e => ∃ b, e = ProvenanceBroken b ∧ broken versions start seen v b
    end.
Proof.
  revert seen v. induction fuel as [|fuel IH]; intros seen v Hlen Hnd Hsub; simpl;
    unfold ModelVersions.get_version_by_id.
  all: destruct (mv_parent_version_id v) as [p|] eqn:Hp;
    [|eexists; split; [done|by constructor]].
  all: case_decide as Hseen; [eexists; split; [done|]; eexists; split; [done|];
    by apply broken_cycle|].
  all: destruct (find_row p versions) as [pv|] eqn:Hpv;
    [|eexists; split; [done|]; eexists; split; [done|]; by apply broken_missing].
  all: assert (p ∈ keys versions) as Hkey by (apply find_row_is_Some; eauto).
  all: assert (NoDup (p :: seen)) as Hnd' by by constructor.
  all: assert (p :: seen ⊆ keys versions) as Hsub' by set_solver.
  - assert (length (p :: seen) ≤ length (keys versions))%nat as Hle
      by (apply submseteq_length, NoDup_submseteq; [done|set_solver]).
    unfold keys in Hle. rewrite length_fmap in Hle. simpl in Hle. lia.
  - destruct (IH (p :: seen) pv) as (r & Hr & Hspec); [simpl; lia|done|done|].
    rewrite Hr. simpl. eexists; split; [done|]. destruct r as [chain|e].
    + by eapply provenance_next.
    + destruct Hspec as (b & -> & Hb). eexists; split; [done|]. by eapply broken_later.
Qed.
End walking.

(** C25: walking a version's provenance always ends, with the fuel of one step per
    row, and never truncates: the answer is the whole parent chain down to a
    version without a parent, or an error that names the link where the chain
    breaks or closes on itself. *)
Theorem walk_provenance_terminates version_id versions :
  ∃ r, walk_provenance version_id versions = Some r ∧
    match find_row version_id versions with
    | None => r = Raise (ProvenanceBroken (ChainVersionNotFound version_id))
    | Some v =>
        match r with
        | Ok chain => provenance versions v chain
        | Raise e => ∃ b, e = ProvenanceBroken b ∧ broken versions version_id [version_id] v b
        end
    end.
Proof.
  unfold walk_provenance, ModelVersions.get_version_by_id.
  destruct (find_row version_id versions) as [v|] eqn:Hv; [|by eexists].
  apply walk_total; [simpl; lia|apply NoDup_singleton|].
  intros x ->%list_elem_of_singleton. apply find_row_is_Some. eauto.
Qed.

Section histories.
Context (uuid4 : nat → string) `{!Inj (=) (=) uuid4}.
Implicit Types (t : Tables) (v : ModelVersion).

Lemma provenance_props t v chain :
  tables_ok uuid4 t → v ∈ t_versions t → provenance (t_versions t) v chain →
  head chain = Some v ∧
  (∀ x, x ∈ chain → x ∈ t_versions t ∧ mv_line_id x = mv_line_id v ∧
     mv_sequence x ≤ mv_sequence v) ∧
  StronglySorted (λ x y, mv_sequence y < mv_sequence x) chain ∧
  (∃ first, last chain = Some first ∧ mv_sequence first = 1).
Proof.
  intros Hok Hv Hchain. induction Hchain as [v Hp|v p pv chain Hp Hpv Hc IH].
  - split_and!; [done| |repeat constructor|].
    + intros x ->%list_elem_of_singleton. split_and!; [done|done|lia].
    + exists v. split; [done|]. by apply (vok_first _ _ _ (tok_versions _ _ Hok v Hv)).
  - destruct (vok_parent _ _ _ (tok_versions _ _ Hok v Hv) p Hp) as (pv' & Hpv' & Hl & Hs).
    simplify_eq. apply find_row_Some in Hpv as [Hin _].
    destruct (IH Hin) as (Hhd & Hall & Hsorted & first & Hlast & Hone).
    split_and!; [done| | |].
    + intros x [->|Hx]%elem_of_cons; [split_and!; [done|done|lia]|].
      destruct (Hall x Hx) as (? & ? & ?). split_and!; [done|congruence|lia].
    + constructor; [done|]. apply Forall_forall. intros x Hx.
      destruct (Hall x Hx) as (_ & _ & ?). lia.
    + exists first. split; [|done]. destruct chain; [done|]. by rewrite last_cons_cons.
Qed.

(** Along a well-formed history no link is broken. *)
Lemma no_broken t start seen v b :
  tables_ok uuid4 t → v ∈ t_versions t →
  (∀ x y, x ∈ seen → find_row x (t_versions t) = Some y → mv_sequence v ≤ mv_sequence y) →
  ¬ broken (t_versions t) start seen v b.
Proof.
  intros Hok Hv Hseen Hb. revert Hv Hseen.
  induction Hb as [seen v p Hp Hn Hf|seen v p Hp Hin|seen v p pv e Hp Hn Hf Hb IH]; intros Hv Hseen.
  all: destruct (vok_parent _ _ _ (tok_versions _ _ Hok v Hv) p Hp) as (pv' & Hpv' & Hl & Hs).
  - congruence.
  - specialize (Hseen p pv' Hin Hpv'). lia.
  - simplify_eq. apply IH; [by apply find_row_Some in Hf as [? _]|].
    intros x y [->|Hx]%elem_of_cons Hy; [simplify_eq; lia|]. specialize (Hseen x y Hx Hy). lia.
Qed.

Lemma walk_provenance_ok t v :
  tables_ok uuid4 t → v ∈ t_versions t →
  ∃ chain, walk_provenance (mv_id v) (t_versions t) = Some (Ok chain) ∧
    provenance (t_versions t) v chain.
Proof.
  intros Hok Hv. assert (find_row (mv_id v) (t_versions t) = Some v) as Hf
    by (apply find_row_elem; [by apply tok_versions_nodup with uuid4|done]).
  unfold walk_provenance, ModelVersions.get_version_by_id. rewrite Hf.
  destruct (walk_total (t_versions t) (mv_id v) (length (t_versions t)) [mv_id v] v)
    as (r & Hr & Hspec); [simpl; lia|apply NoDup_singleton| |].
  { intros x ->%list_elem_of_singleton. apply find_row_is_Some. eauto. }
  rewrite Hr. destruct r as [chain|e]; [by exists chain|].
  destruct Hspec as (b & -> & Hb). exfalso. eapply no_broken, Hb; [done|done|].
  intros x y ->%list_elem_of_singleton Hy. simplify_eq. lia.
Qed.
End histories.

(** ** Every history stays well-formed *)

(** A call of the service, with its arguments. *)
Inductive Call :=
| CallAppend (line_id : string) (a : Append)
| CallRecord (user_id kind : string) (artifact_ref : option string) (manifest : json_dict)
    (line_id line_name : option string) (produced_by : option json_dict)
| CallCreatePublish (line_id user_id : string) (form : PublishJobs.PublishJobForm)
| CallStartMerge (control_urls : list string) (job : PublishJob)
| CallCompletePublish (job : PublishJob) (artifact : option string)
| CallRevert (line_id version_id : string) (moved_by : option string)
| CallTableWrite (ok : bool) (now : Z) (op : TableWrite).

Section invariant.
Context (uuid4 : nat → string) `{!Inj (=) (=) uuid4}.

Definition call_state (c : Call) (w : VWorld) : VWorld :=
  match c with
  | CallAppend l a => state_of (append_version uuid4 l a) w
  | CallRecord u k art m l n p => state_of (record_version_for_artifact uuid4 u k art m l n p) w
  | CallCreatePublish l u f => state_of (create_publish_job uuid4 l u f) w
  | CallStartMerge urls j => state_of (start_publish_merge uuid4 urls j) w
  | CallCompletePublish j art => state_of (complete_publish_job uuid4 j art) w
  | CallRevert l v by_ => state_of (revert_line uuid4 l v by_) w
  | CallTableWrite ok now op => w <| v_tables := run_write uuid4 (v_tables w) (ok, now, op) |>
  end.

Definition keeps_ok : relation VWorld := λ w w',
  tables_ok uuid4 (v_tables w) → tables_ok uuid4 (v_tables w').

#[local] Instance keeps_ok_preorder : PreOrder keeps_ok.
Proof. split; unfold keeps_ok; [by intros ?|]. intros ???; auto. Qed.

Lemma preserves_acting {A} (R : relation VWorld) (f : VWorld → result VersionError A * VWorld) :
  (∀ w, R w (f w).2) → preserves R (acting f).
Proof. intros Hf w. apply Hf. Qed.

Lemma next_commit_ok : preserves keeps_ok next_commit.
Proof. intros w. unfold next_commit, state_of. destruct (v_commits w); simpl; by intros ?. Qed.

Lemma writes_ok {A} op (f : bool → Z → Tables → result VersionError A) :
  preserves keeps_ok (writes uuid4 op f).
Proof.
  apply preserves_bind; [apply _|apply next_commit_ok|]. intros ok. apply preserves_acting.
  intros w Hok. by apply run_write_ok.
Qed.

Lemma emit_ok e : preserves keeps_ok (emit e).
Proof. intros w. unfold keeps_ok. auto. Qed.

Lemma await_ok : preserves keeps_ok (await_answer uuid4).
Proof.
  intros w. unfold await_answer, state_of. destruct (v_script w); simpl; unfold keeps_ok; [auto|].
  intros Hok. by apply run_writes_ok.
Qed.

Lemma staging_ok repo name : preserves keeps_ok (_stage_provenance_manifest repo name).
Proof.
  intros w. unfold _stage_provenance_manifest, state_of.
  destruct (v_staging w) as [|[] ?]; simpl; unfold keeps_ok; auto.
Qed.

Lemma update_status_ok id st e r : preserves keeps_ok (update_status id st e r).
Proof.
  apply preserves_bind; [apply _|apply next_commit_ok|]. intros ok. apply preserves_acting.
  intros w Hok. by destruct ok.
Qed.

Lemma or_raise_ok {A} (r : result VersionError A) : preserves keeps_ok (or_raise r).
Proof. destruct r; intros w; unfold keeps_ok; auto. Qed.

Lemma insert_new_job_ok l u b adapters form :
  preserves keeps_ok (insert_new_job uuid4 l u b adapters form).
Proof.
  apply preserves_bind; [apply _|apply next_commit_ok|]. intros ok. apply preserves_acting.
  intros w [? ? ? ? ? ? Hc]. destruct ok; (split; simpl; try done; eauto with s2db;
    intros ll c ? ?; destruct (Hc ll c); eauto with s2db).
Qed.

Lemma catching_ok {A} (m : service A) h :
  preserves keeps_ok m → (∀ e, preserves keeps_ok (h e)) → preserves keeps_ok (catching m h).
Proof.
  intros Hm Hh w. specialize (Hm w). unfold catching, state_of in *.
  destruct (m w) as [[a|e] w'] eqn:Hw; simpl in *; [done|].
  etransitivity; [exact Hm|apply (Hh e w')].
Qed.

#[local] Hint Resolve next_commit_ok writes_ok emit_ok await_ok staging_ok update_status_ok
  or_raise_ok insert_new_job_ok : s2db.

Lemma append_version_ok l a : preserves keeps_ok (append_version uuid4 l a).
Proof.
  unfold append_version, commit_branch, insert_new_version. preserves_auto.
Qed.

#[local] Hint Resolve append_version_ok : s2db.

Lemma record_version_ok u k art m l n p :
  preserves keeps_ok (record_version_for_artifact uuid4 u k art m l n p).
Proof.
  unfold record_version_for_artifact, ensure_line, insert_new_line, create_repository,
    update_corpus_repo.
  preserves_auto.
Qed.

Lemma complete_publish_ok job art : preserves keeps_ok (complete_publish_job uuid4 job art).
Proof.
  unfold complete_publish_job, set_current_version. preserves_auto.
  apply catching_ok; intros; [unfold stage_and_append|]; preserves_auto.
Qed.

(** C23: every history stays walkable.  Whatever calls of the service and table
    methods run, in whatever order, with whatever commits fail and whatever the
    other coroutines write at the awaits, each version's kind is a kind, it has a
    commit, its line exists, sequences are unique on a line, only the first
    version has no parent, a parent and a base come earlier on the same line, the
    base is a base, and a line's pointer never names a version of another line. *)
Theorem histories_stay_well_formed calls w :
  tables_ok uuid4 (v_tables w) →
  tables_ok uuid4 (v_tables (foldl (λ w c, call_state c w) w calls)).
Proof.
  revert w. induction calls as [|c calls IH]; intros w Hok; simpl; [done|]. apply IH.
  assert (∀ {A} (m : service A), preserves keeps_ok m → tables_ok uuid4 (v_tables (state_of m w)))
    as Hrun by (intros A m Hm; by apply Hm).
  destruct c; simpl.
  - apply Hrun, append_version_ok.
  - apply Hrun, record_version_ok.
  - apply Hrun. unfold create_publish_job, looked_up. preserves_auto.
  - apply Hrun. unfold start_publish_merge, merge_adapters_into_base. preserves_auto.
  - apply Hrun, complete_publish_ok.
  - apply Hrun. unfold revert_line, set_current_version. preserves_auto.
  - apply (run_write_ok uuid4 _ (ok, now, op) Hok).
Qed.
End invariant.

(** ** Appending *)

Section append.
Context (uuid4 : nat → string).
Implicit Types (w : VWorld) (v : ModelVersion).

(** The tables after the peers of the next await have run. *)
Definition after_peers w : Tables :=
  match v_script w with
  | [] => v_tables w
  | a :: _ => foldl (run_write uuid4) (v_tables w) (va_peers a)
  end.

(** The row an append of [line_id] writes over the tables [t] with clock [now]. *)
Definition appended (t : Tables) (now : Z) (line_id : string) (a : Append) (commit_id : string)
    : ModelVersion :=
  ModelVersions.new_version now (uuid4 (t_minted t)) line_id
    (ModelVersions.next_sequence (ModelVersions.get_versions_by_line line_id (t_versions t)))
    (version_form a commit_id).

Definition valid_append (t : Tables) (line_id : string) (a : Append) : Prop :=
  ModelVersions.validate_append line_id (ap_kind a) (ap_parent_version_id a)
    (ap_base_version_id a) (t_lines t) (t_versions t) = None.

(** The next await makes a commit, and its reply has no id or does not arrive. *)
Definition reply_lost (id : string) w : Prop :=
  match va_answer <$> head (v_script w) with
  | Some (AnswerCommit id') => id' = "" ∧ id = ""
  | Some (AnswerLost id') => id' = id
  | _ => False
  end.

Lemma run_commit_branch repo w :
  ∃ w', v_tables w' = after_peers w ∧ v_commits w' = v_commits w ∧ v_jobs w' = v_jobs w ∧
    v_staging w' = v_staging w ∧
    match commit_branch uuid4 repo w with
    | (Ok id, w'') => w'' = w' ∧ id ≠ "" ∧ v_log w' = v_log w ++ [EvCommitted repo id]
    | (Raise e, w'') => w'' = w' ∧ e = SelfCorpusError ∧
        (v_log w' = v_log w ∨ ∃ id, reply_lost id w ∧ v_log w' = v_log w ++ [EvCommitted repo id])
    end.
Proof.
  unfold commit_branch, await_answer, after_peers, reply_lost. rewrite run_bind.
  destruct (v_script w) as [|a rest]; [exists w; simpl; split_and!; try done; by left|].
  set (w1 := w <| v_script := rest |> <| v_now := va_now a |>
               <| v_tables := foldl (run_write uuid4) (v_tables w) (va_peers a) |>).
  simpl. destruct (va_answer a) as [|id|id| |]; try (exists w1; simpl; split_and!; try done; by left).
  - exists (w1 <| v_log := v_log w ++ [EvCommitted repo id] |>). simpl. split_and!; try done. right. by exists id.
  - exists (w1 <| v_log := v_log w ++ [EvCommitted repo id] |>). simpl. case_decide as Hid; [|done].
    split_and!; try done. simpl. split_and!; [done..|]. right. by exists id.
Qed.

Lemma run_insert_new_version line_id a id w :
  id ≠ "" →
  let t := v_tables w in
  let w' := state_of (insert_new_version uuid4 line_id (version_form a id)) w in
  v_log w' = v_log w ∧ v_jobs w' = v_jobs w ∧ t_lines (v_tables w') = t_lines t ∧
  match result_of (insert_new_version uuid4 line_id (version_form a id)) w with
  | Ok v => v = appended t (v_now w) line_id a id ∧ valid_append t line_id a ∧
      t_versions (v_tables w') = t_versions t ++ [v]
  | Raise e => t_versions (v_tables w') = t_versions t ∧
      (head (v_commits w) = Some false ∨ ¬ valid_append t line_id a ∨
       ap_parent_version_id a = Some (uuid4 (t_minted t)))
  end.
Proof.
  intros Hid. unfold insert_new_version, writes, next_commit, state_of, result_of, acting.
  rewrite run_bind.
  assert (∀ ok, ∀ r, ModelVersions.insert_new_version ok (v_now w) (uuid4 (t_minted (v_tables w)))
      line_id (version_form a id) (t_lines (v_tables w)) (t_versions (v_tables w)) = r →
    match r.1 with
    | Ok v => v = appended (v_tables w) (v_now w) line_id a id ∧
        valid_append (v_tables w) line_id a ∧ r.2 = t_versions (v_tables w) ++ [v]
    | Raise e => r.2 = t_versions (v_tables w) ∧
        (ok = false ∨ ¬ valid_append (v_tables w) line_id a ∨
         ap_parent_version_id a = Some (uuid4 (t_minted (v_tables w))))
    end) as Hcases.
  { intros ok r <-. unfold valid_append, appended, ModelVersions.insert_new_version. simpl.
    destruct (ModelVersions.validate_append _ _ _ _ _ _); [naive_solver|].
    rewrite decide_False by done. case_decide; [naive_solver|]. destruct ok; naive_solver. }
  destruct (v_commits w) as [|ok rest]; simpl;
    [specialize (Hcases true _ eq_refl)|specialize (Hcases ok _ eq_refl)];
    destruct (ModelVersions.insert_new_version _ _ _ _ _ _ _) as [[v|e] versions];
    simpl in *; naive_solver.
Qed.

Lemma valid_parent_minted `{!Inj (=) (=) uuid4} t line_id a :
  tables_ok uuid4 t → ap_parent_version_id a = Some (uuid4 (t_minted t)) →
  ¬ valid_append t line_id a.
Proof.
  intros Hok Hp (_ & _ & Hparent & _)%validate_append_None. rewrite Hp in Hparent.
  destruct Hparent as (pv & [Hin Hk]%find_row_Some & _).
  apply (not_minted uuid4 (t_minted t)). rewrite <- Hk. by apply tok_versions_minted.
Qed.

(** An append over its world: what it commits and writes, on every branch. *)
Lemma run_append_version `{!Inj (=) (=) uuid4} line_id a w :
  tables_ok uuid4 (v_tables w) →
  let w' := state_of (append_version uuid4 line_id a) w in
  match result_of (append_version uuid4 line_id a) w with
  | Ok v =>
      ∃ line repo now,
        find_row line_id (t_lines (v_tables w)) = Some line ∧ ml_corpus_repo line = Some repo ∧
        valid_append (v_tables w) line_id a ∧
        v_log w' = v_log w ++ [EvCommitted repo (mv_corpus_commit_id v)] ∧
        v = appended (after_peers w) now line_id a (mv_corpus_commit_id v) ∧
        t_versions (v_tables w') = t_versions (after_peers w) ++ [v]
  | Raise e =>
      w' = w ∨
      (valid_append (v_tables w) line_id a ∧
       t_versions (v_tables w') = t_versions (after_peers w) ∧
       (v_log w' = v_log w ∨
        (∃ repo id, v_log w' = v_log w ++ [EvCommitted repo id] ∧
           (reply_lost id w ∨ head (v_commits w) = Some false ∨ ¬ valid_append (after_peers w) line_id a))))
  end.
Proof.
  intros Hok. unfold append_version, state_of, result_of. rewrite run_bind.
  unfold gets. unfold ModelLines.get_line_by_id.
  destruct (find_row line_id (t_lines (v_tables w))) as [line|] eqn:Hline; [|by left].
  destruct (truthy (ml_corpus_repo line)) as [repo|] eqn:Hrepo; [|by left].
  destruct (ModelVersions.validate_append _ _ _ _ _ _) eqn:Hval; [by left|].
  assert (ml_corpus_repo line = Some repo) as Hrepo'
    by (destruct (ml_corpus_repo line) as [[]|]; simpl in Hrepo; congruence).
  destruct (run_commit_branch repo w) as (w1 & Ht & Hc & _ & _ & Hrun).
  rewrite run_bind. destruct (commit_branch uuid4 repo w) as [[id|e] w1'].
  - destruct Hrun as (-> & Hid & Hlog).
    destruct (run_insert_new_version line_id a id w1 Hid) as (Hlog' & _ & _ & Hres).
    unfold state_of, result_of in *. rewrite Ht, Hc in *.
    destruct (insert_new_version uuid4 line_id (version_form a id) w1) as [[v|e] w2]; simpl in *.
    + destruct Hres as (-> & _ & Hvs). exists line, repo, (v_now w1). simpl.
      split_and!; try done. by rewrite Hlog', Hlog.
    + right. destruct Hres as [Hvs Hwhy]. split_and!; [done|done|right]. exists repo, id.
      split; [by rewrite Hlog', Hlog|]. destruct Hwhy as [?|[?|Hp]]; [by auto|by auto|right; right].
      apply valid_parent_minted; [|done]. unfold after_peers.
      destruct (v_script w); [done|by apply run_writes_ok].
  - destruct Hrun as (-> & -> & [Hlog|(id & Hlost & Hlog)]); right; simpl; rewrite Ht, Hlog; split_and!; auto.
    right. exists repo, id. auto.
Qed.

(** C24: an append commits first and records second.  When it returns a version,
    the append was valid, exactly one commit was made, in the line's own
    repository, and the version's row, which carries that commit, was written
    after it as the line's next in sequence.  When it raises, no row was written;
    no commit is left behind either, except when the commit was made but its reply
    has no id or is lost, when the row's own database commit failed, or when the
    other coroutines made the append invalid during the commit.  Reads of the
    tables succeed. *)
Theorem append_commits_first `{!Inj (=) (=) uuid4} line_id a w :
  tables_ok uuid4 (v_tables w) →
  let w' := state_of (append_version uuid4 line_id a) w in
  match result_of (append_version uuid4 line_id a) w with
  | Ok v =>
      ∃ line repo now,
        find_row line_id (t_lines (v_tables w)) = Some line ∧ ml_corpus_repo line = Some repo ∧
        valid_append (v_tables w) line_id a ∧
        v_log w' = v_log w ++ [EvCommitted repo (mv_corpus_commit_id v)] ∧
        v = appended (after_peers w) now line_id a (mv_corpus_commit_id v) ∧
        t_versions (v_tables w') = t_versions (after_peers w) ++ [v]
  | Raise e =>
      w' = w ∨
      (valid_append (v_tables w) line_id a ∧
       t_versions (v_tables w') = t_versions (after_peers w) ∧
       (v_log w' = v_log w ∨
        (∃ repo id, v_log w' = v_log w ++ [EvCommitted repo id] ∧
           (reply_lost id w ∨ head (v_commits w) = Some false ∨ ¬ valid_append (after_peers w) line_id a))))
  end.
Proof. apply run_append_version. Qed.
End append.

(** ** What a publish merges *)

Lemma first_base_spec chain b :
  first_base chain = Some b ↔
    ∃ newer older, chain = newer ++ b :: older ∧ mv_kind b = "base" ∧
      ∀ x, x ∈ newer → mv_kind x ≠ "base".
Proof.
  unfold first_base. split.
  - induction chain as [|x chain IH]; [done|]. rewrite filter_cons. unfold is_base in *.
    case_decide as Hx; simpl; intros Hb.
    + simplify_eq. apply bool_decide_eq_true in Hx. exists [], chain. split_and!; [done|done|].
      by intros ? ?%not_elem_of_nil.
    + destruct (IH Hb) as (newer & older & -> & Hk & Hn). exists (x :: newer), older.
      split_and!; [done|done|]. intros y [->|Hy]%elem_of_cons; [|by apply Hn].
      intros He. by apply Hx, bool_decide_eq_true.
  - intros (newer & older & -> & Hk & Hn). induction newer as [|x newer IH]; simpl.
    + rewrite filter_cons. unfold is_base. by rewrite decide_True by by apply bool_decide_eq_true.
    + rewrite filter_cons. unfold is_base. rewrite decide_False.
      * apply IH. intros y Hy. apply Hn. by right.
      * rewrite bool_decide_eq_true. apply Hn. left.
Qed.

Section publish.
Context (uuid4 : nat → string) `{!Inj (=) (=) uuid4}.
Implicit Types (t : Tables) (v : ModelVersion) (line : ModelLine).

Lemma truthy_text s : truthy (Some s) = if decide (s = "") then None else Some s.
Proof. by destruct s. Qed.

(** The version a line is at: its pointer's if that version exists, else its newest. *)
Lemma current_version_on_line t line_id line newest :
  tables_ok uuid4 t → find_row line_id (t_lines t) = Some line →
  last (ModelVersions.get_versions_by_line line_id (t_versions t)) = Some newest →
  let current := current_version line newest (t_versions t) in
  current ∈ t_versions t ∧ mv_line_id current = line_id.
Proof.
  intros Hok Hline Hlast. apply last_Some_elem_of, elem_of_history in Hlast as Hnew.
  apply find_row_Some in Hline as [Hin Hid]. unfold current_version, ModelVersions.get_version_by_id.
  destruct (ml_current_version_id line) as [c|] eqn:Hc; [|done].
  rewrite truthy_text. case_decide; simpl; [done|].
  destruct (find_row c (t_versions t)) as [v|] eqn:Hv; simpl; [|done].
  destruct (tok_current _ _ Hok line c Hin Hc) as [_ Hon]. split.
  - by apply find_row_Some in Hv as [? _].
  - rewrite (Hon v Hv). exact Hid.
Qed.

(** A publish starts from the nearest base in the provenance of the version
    the line is at, and would merge exactly the adapters of the line that come
    after that base, in sequence order; it is refused when the line is empty or
    no base precedes it. *)
Theorem publish_merges_after_its_base t line_id line :
  tables_ok uuid4 t → find_row line_id (t_lines t) = Some line →
  match last (ModelVersions.get_versions_by_line line_id (t_versions t)) with
  | None =>
      (∀ v, v ∈ t_versions t → mv_line_id v ≠ line_id) ∧
      current_base_and_adapters line_id (t_lines t) (t_versions t) =
        Some (Raise (NoVersionsToPublish line_id))
  | Some newest =>
      ∃ chain, provenance (t_versions t) (current_version line newest (t_versions t)) chain ∧
        match first_base chain with
        | None => current_base_and_adapters line_id (t_lines t) (t_versions t) =
            Some (Raise (NoBaseToPublishOnto line_id))
        | Some base =>
            ∃ adapters,
              current_base_and_adapters line_id (t_lines t) (t_versions t) =
                Some (Ok (base, adapters)) ∧
              mv_kind base = "base" ∧ mv_line_id base = line_id ∧
              StronglySorted (λ x y, mv_sequence x ≤ mv_sequence y) adapters ∧
              ∀ v, v ∈ adapters ↔
                v ∈ t_versions t ∧ mv_line_id v = line_id ∧ mv_kind v = "adapter" ∧
                mv_sequence base < mv_sequence v
        end
  end.
Proof.
  intros Hok Hline. unfold current_base_and_adapters, ModelLines.get_line_by_id. rewrite Hline.
  destruct (last (ModelVersions.get_versions_by_line line_id (t_versions t))) as [newest|] eqn:Hlast.
  2: { split; [|done]. by apply history_nil, last_None. }
  destruct (current_version_on_line t line_id line newest Hok Hline Hlast) as [Hcur Hl].
  set (current := current_version line newest (t_versions t)) in *.
  destruct (walk_provenance_ok uuid4 t current Hok Hcur) as (chain & Hwalk & Hchain).
  exists chain. split; [done|].
  destruct (provenance_props uuid4 t current chain Hok Hcur Hchain) as (Hhd & Hall & _ & _).
  assert ((if is_base current then Some (Ok (Some current))
           else chain ← walk_provenance (mv_id current) (t_versions t);
                Some (match chain with Ok chain => Ok (first_base chain) | Raise e => Raise e end))
          = Some (Ok (first_base chain))) as ->.
  { destruct (is_base current) eqn:Hb; [|by rewrite Hwalk].
    destruct chain as [|x chain]; simplify_eq/=. unfold first_base.
    rewrite filter_cons. by rewrite decide_True. }
  simpl. destruct (first_base chain) as [base|] eqn:Hbase; [|done]. eexists. split; [done|].
  apply first_base_spec in Hbase as (newer & older & -> & Hkind & _).
  destruct (Hall base) as (_ & Hbl & _); [set_solver|]. split_and!; [done|congruence| |].
  - eapply StronglySorted_sublist; [apply sublist_filter|]. apply sort_by_sorted.
  - intros v. unfold adapters_after. rewrite list_elem_of_filter, elem_of_history.
    unfold is_adapter. rewrite bool_decide_eq_true. tauto.
Qed.

Definition pointing_at (c : string) (line : ModelLine) : ModelLine :=
  line <| ml_current_version_id := Some c |>.

(** Reverting a line to an earlier adapter of the same base does not narrow
    what a publish would merge: from any two versions with the same nearest base
    it starts from that base and merges the same adapters, the ones after the
    version reverted to among them. *)
Theorem revert_does_not_narrow t line_id line v1 v2 chain1 chain2 base :
  tables_ok uuid4 t → find_row line_id (t_lines t) = Some line →
  v1 ∈ t_versions t → v2 ∈ t_versions t →
  mv_line_id v1 = line_id → mv_line_id v2 = line_id → mv_id v1 ≠ "" → mv_id v2 ≠ "" →
  provenance (t_versions t) v1 chain1 → provenance (t_versions t) v2 chain2 →
  first_base chain1 = Some base → first_base chain2 = Some base →
  let at_ c := current_base_and_adapters line_id
                 (update_row line_id (pointing_at c) (t_lines t)) (t_versions t) in
  at_ (mv_id v1) = at_ (mv_id v2) ∧
  ∃ adapters, at_ (mv_id v1) = Some (Ok (base, adapters)) ∧
    ∀ v, v ∈ t_versions t → mv_line_id v = line_id → mv_kind v = "adapter" →
      mv_sequence base < mv_sequence v → v ∈ adapters.
Proof.
  intros Hok Hline Hv1 Hv2 Hl1 Hl2 Hn1 Hn2 Hc1 Hc2 Hb1 Hb2 at_.
  assert (∀ v chain, v ∈ t_versions t → mv_line_id v = line_id → mv_id v ≠ "" →
    provenance (t_versions t) v chain → first_base chain = Some base →
    at_ (mv_id v) = Some (Ok (base, adapters_after base
      (ModelVersions.get_versions_by_line line_id (t_versions t))))) as Hat.
  { intros v chain Hv Hl Hn Hc Hb. unfold at_, current_base_and_adapters, ModelLines.get_line_by_id.
    rewrite find_update_row_eq, Hline by done. simpl.
    destruct (last (ModelVersions.get_versions_by_line line_id (t_versions t))) eqn:Hlast.
    2: { apply last_None in Hlast. by destruct (proj1 (history_nil _ _) Hlast v). }
    assert (current_version (pointing_at (mv_id v) line) m (t_versions t) = v) as ->.
    { unfold current_version, ModelVersions.get_version_by_id, pointing_at. simpl ml_current_version_id.
      rewrite truthy_text, decide_False by done. simpl.
      assert (find_row (mv_id v) (t_versions t) = Some v) as ->; [|done].
      apply find_row_elem; [by apply tok_versions_nodup with uuid4|done]. }
    destruct (walk_provenance_ok uuid4 t v Hok Hv) as (chain' & Hwalk & Hchain').
    assert (chain' = chain) as -> by by eapply provenance_det.
    destruct (is_base v) eqn:Hkind; [|by rewrite Hwalk; simpl; rewrite Hb].
    destruct Hc; unfold first_base in Hb; rewrite filter_cons, decide_True in Hb by done;
      simpl in *; by simplify_eq. }
  rewrite (Hat v1 chain1), (Hat v2 chain2) by done. split; [done|]. eexists. split; [done|].
  intros v Hv Hl Hk Hs. unfold adapters_after. apply list_elem_of_filter.
  unfold is_adapter. rewrite bool_decide_eq_true, elem_of_history. auto.
Qed.
End publish.
