(* ===== verification/VersionSurface.v ===== *)
(** The model surface and the lookups of model versions: a line appears once in
    the picker, a version resolves to its own artifacts, and a revert only moves
    the line's pointer. *)

From stdpp Require Import gmap pretty.
From S2P Require Import Prelude Data Jobs Versions VersionService VersionFacts VersionContract.

(** ** The picker *)

Section surface.
Context (lines : list ModelLine) (versions : list ModelVersion) (models : list nat).
Implicit Types (h : heap) (r : nat) (l : string).

(** Two heaps whose entries point at the same lines and versions. *)
Definition same_meta h h' : Prop := ∀ r, me_meta (h r) = me_meta (h' r).

#[local] Instance same_meta_equiv : Equivalence same_meta.
Proof.
  split; unfold same_meta; [done| |]; [by intros h1 h2 H1 r|].
  intros h1 h2 h3 H1 H2 r. by rewrite H1.
Qed.

Lemma same_pointer h h' r : same_meta h h' → _line_pointer (h r) = _line_pointer (h' r).
Proof. intros Hm. unfold _line_pointer. by rewrite (Hm r). Qed.

Lemma same_line_of h h' r : same_meta h h' → line_of h r = line_of h' r.
Proof. intros Hm. unfold line_of. by rewrite (same_pointer h h'). Qed.

Lemma same_group h h' l : same_meta h h' → group_of h l models = group_of h' l models.
Proof.
  intros Hm. unfold group_of. induction models as [|r rs IH]; [done|].
  by rewrite !filter_cons, IH, (same_line_of h h').
Qed.

Lemma max_by_ext {A} (f g : A → Z) (rs : list A) : (∀ x, f x = g x) → max_by f rs = max_by g rs.
Proof. intros Hfg. induction rs as [|x rs IH]; simpl; [done|]. rewrite IH. by destruct (max_by g rs); rewrite ?Hfg. Qed.

Lemma same_chosen h h' line history es :
  same_meta h h' → chosen_entry h line history es = chosen_entry h' line history es.
Proof.
  intros Hm. unfold chosen_entry.
  replace (filter (λ r, (_line_pointer (h r)).2 = ml_current_version_id line) es)
    with (filter (λ r, (_line_pointer (h' r)).2 = ml_current_version_id line) es).
  - rewrite (max_by_ext _ (λ r, sequence_of history (_line_pointer (h' r)).2)); [done|].
    intros r. by rewrite (same_pointer h h').
  - induction es as [|r rs IH]; [done|]. by rewrite !filter_cons, IH, (same_pointer h h').
Qed.

Lemma chosen_in_group h line history es r :
  chosen_entry h line history es = Some r → r ∈ es.
Proof.
  unfold chosen_entry. destruct (head _) as [r'|] eqn:Hh; intros [= <-] || intros Hmax.
  - apply head_Some_elem_of in Hh. by apply list_elem_of_filter in Hh as [_ ?].
  - by eapply max_by_elem.
Qed.

Lemma chosen_exists h line history es : es ≠ [] → is_Some (chosen_entry h line history es).
Proof.
  intros Hes. unfold chosen_entry. destruct (head _); [by eexists|].
  destruct (max_by _ es) eqn:Hm; [by eexists|]. by apply max_by_None in Hm.
Qed.

(** The entry that stands for a line, and the block it is given. *)
Definition stands_for h l : option nat :=
  line ← find_row l lines;
  chosen_entry h line (ModelVersions.get_versions_by_line l versions) (group_of h l models).

Definition block_for h l r : option LineBlock :=
  line ← find_row l lines;
  Some (line_block line (_line_pointer (h r)).2 (ModelVersions.get_versions_by_line l versions)).

Lemma attach_line_spec h0 drop0 l :
  let '(h', d') := attach_line lines versions models (h0, drop0) l in
  same_meta h0 h' ∧
  (∀ r, h' r = if decide (stands_for h0 l = Some r)
               then (h0 r) <| me_line := block_for h0 l r |> else h0 r) ∧
  (∀ r, r ∈ d' ↔ r ∈ drop0 ∨
     (r ∈ group_of h0 l models ∧ is_Some (stands_for h0 l) ∧ stands_for h0 l ≠ Some r)).
Proof.
  unfold attach_line, stands_for, block_for, ModelLines.get_line_by_id.
  destruct (find_row l lines) as [line|]; simpl; [|by split_and!; naive_solver].
  destruct (chosen_entry h0 line _ _) as [c|] eqn:Hc; [|by split_and!; naive_solver].
  split_and!.
  - intros r. unfold set_line. by destruct (decide (r = c)) as [->|].
  - intros r. unfold set_line. repeat case_decide; naive_solver.
  - intros r. rewrite elem_of_app, list_elem_of_filter. naive_solver.
Qed.

Lemma same_stands_for h h' l : same_meta h h' → stands_for h l = stands_for h' l.
Proof.
  intros Hm. unfold stands_for. destruct (find_row l lines) as [line|]; [|done]. simpl.
  rewrite (same_group h h') by done. by apply same_chosen.
Qed.

Lemma stands_for_line h l r : stands_for h l = Some r → r ∈ models ∧ line_of h r = Some l.
Proof.
  unfold stands_for. destruct (find_row l lines); [|done]. simpl.
  intros ?%chosen_in_group. by apply list_elem_of_filter in H as [? ?].
Qed.

Lemma attach_lines_spec ks h0 drop0 :
  NoDup ks →
  let '(h', d') := foldl (attach_line lines versions models) (h0, drop0) ks in
  same_meta h0 h' ∧
  (∀ l r, l ∈ ks → stands_for h0 l = Some r →
     h' r = (h0 r) <| me_line := block_for h0 l r |>) ∧
  (∀ r, (∀ l, l ∈ ks → stands_for h0 l ≠ Some r) → h' r = h0 r) ∧
  (∀ r, r ∈ d' ↔ r ∈ drop0 ∨ ∃ l, l ∈ ks ∧ line_of h0 r = Some l ∧ r ∈ models ∧
     is_Some (stands_for h0 l) ∧ stands_for h0 l ≠ Some r).
Proof.
  intros Hnd. revert h0 drop0. induction Hnd as [|l ks Hl Hnd IH]; intros h0 drop0; cbn [foldl].
  { split_and!; [done| | |].
    - intros ? ? ?%not_elem_of_nil. done.
    - done.
    - intros r. split; [by left|]. intros [?|(l & ?%not_elem_of_nil & _)]; done. }
  pose proof (attach_line_spec h0 drop0 l) as Hstep.
  destruct (attach_line lines versions models (h0, drop0) l) as [h1 d1].
  destruct Hstep as (Hm & Hh1 & Hd1). specialize (IH h1 d1).
  destruct (foldl (attach_line lines versions models) (h1, d1) ks) as [h' d'].
  destruct IH as (Hm' & Hset & Hkeep & Hd').
  assert (∀ l', stands_for h1 l' = stands_for h0 l') as Hst by (intros; by apply same_stands_for).
  assert (∀ l' r, block_for h1 l' r = block_for h0 l' r) as Hbl.
  { intros l' r. unfold block_for. by rewrite (same_pointer h1 h0). }
  assert (∀ l' r, l' ∈ ks → stands_for h0 l = Some r → stands_for h0 l' ≠ Some r) as Hother.
  { intros l' r Hl' H1 H2. apply stands_for_line in H1 as [_ H1], H2 as [_ H2]. congruence. }
  split_and!.
  - by transitivity h1.
  - intros l' r [->|Hl']%elem_of_cons Hr.
    + rewrite Hkeep, Hh1, decide_True; [done|done|]. intros l' Hl'. rewrite Hst. by apply Hother.
    + rewrite (Hset l' r), Hh1, decide_False, Hbl; [done| |done|by rewrite Hst].
      intros H1. by apply (Hother l' r).
  - intros r Hr. rewrite Hkeep, Hh1, decide_False; [done| |].
    + apply Hr. left.
    + intros l' Hl'. rewrite Hst. apply Hr. by right.
  - intros r. rewrite Hd', Hd1. unfold group_of. rewrite list_elem_of_filter.
    setoid_rewrite elem_of_cons. setoid_rewrite Hst.
    assert (∀ r, line_of h1 r = line_of h0 r) as Hlo by (intros; by apply same_line_of).
    setoid_rewrite Hlo. naive_solver.
Qed.

Lemma group_keys_spec h rs ks :
  NoDup ks →
  let out := foldl (λ ks r, match line_of h r with
                            | Some l => if decide (l ∈ ks) then ks else ks ++ [l]
                            | None => ks
                            end) ks rs in
  NoDup out ∧ ∀ l, l ∈ out ↔ l ∈ ks ∨ ∃ r, r ∈ rs ∧ line_of h r = Some l.
Proof.
  revert ks. induction rs as [|r rs IH]; intros ks Hnd; simpl.
  { split; [done|]. intros l. split; [by left|]. by intros [?|(r & ?%not_elem_of_nil & _)]. }
  destruct (line_of h r) as [l0|] eqn:Hr; [case_decide as Hin|].
  - destruct (IH ks Hnd) as [? Hspec]. split; [done|]. intros l. rewrite Hspec.
    setoid_rewrite elem_of_cons. naive_solver.
  - destruct (IH (ks ++ [l0])) as [? Hspec].
    { apply NoDup_app. split_and!; [done| |apply NoDup_singleton]. set_solver. }
    split; [done|]. intros l. rewrite Hspec, elem_of_app, list_elem_of_singleton.
    setoid_rewrite elem_of_cons. naive_solver.
  - destruct (IH ks Hnd) as [? Hspec]. split; [done|]. intros l. rewrite Hspec.
    setoid_rewrite elem_of_cons. naive_solver.
Qed.

(** A line appears once in the picker (Decision 10).  The entries returned are
    some of those given, in their order; an entry of no line, or of a line whose
    record has vanished, is returned untouched; of the entries of a recorded line
    exactly one object stays, the one at the line's current version when there is
    one and otherwise one of the newest version shown, and it alone is given the
    line's block. *)
Theorem line_appears_once h :
  let '(h', out) := attach_lines_to_models lines versions h models in
  out `sublist_of` models ∧
  (∀ r, r ∈ models → (∀ l line, line_of h r = Some l → find_row l lines ≠ Some line) →
     r ∈ out ∧ h' r = h r) ∧
  ∀ l line, find_row l lines = Some line → (∃ r, r ∈ models ∧ line_of h r = Some l) →
    ∃ chosen,
      (∀ r, r ∈ out ∧ line_of h r = Some l ↔ r = chosen) ∧
      h' chosen = (h chosen) <| me_line := block_for h l chosen |> ∧
      (∀ r, line_of h r = Some l → r ≠ chosen → h' r = h r) ∧
      ((∃ r, r ∈ models ∧ line_of h r = Some l ∧
          (_line_pointer (h r)).2 = ml_current_version_id line) →
        (_line_pointer (h chosen)).2 = ml_current_version_id line) ∧
      ((∀ r, r ∈ models → line_of h r = Some l →
          (_line_pointer (h r)).2 ≠ ml_current_version_id line) →
        ∀ r, r ∈ models → line_of h r = Some l →
          sequence_of (ModelVersions.get_versions_by_line l versions) (_line_pointer (h r)).2 ≤
          sequence_of (ModelVersions.get_versions_by_line l versions) (_line_pointer (h chosen)).2).
Proof.
  unfold attach_lines_to_models.
  destruct (group_keys_spec h models [] (NoDup_nil_2)) as [Hnd Hkeys].
  pose proof (attach_lines_spec (group_keys h models) h [] Hnd) as Hspec.
  destruct (foldl (attach_line lines versions models) (h, []) (group_keys h models)) as [h' d'].
  destruct Hspec as (_ & Hset & Hkeep & Hd). split_and!.
  - apply sublist_filter.
  - intros r Hr Hno.
    assert (∀ l, line_of h r = Some l → stands_for h l = None) as Hnone.
    { intros l Hl. unfold stands_for. destruct (find_row l lines) as [line|] eqn:Hf; [|done].
      by destruct (Hno l line Hl). }
    split.
    + apply list_elem_of_filter. split; [|done]. intros [?%not_elem_of_nil|(l & _ & Hl & _ & [? Hs] & _)]%Hd;
        [done|]. rewrite (Hnone l Hl) in Hs. done.
    + apply Hkeep. intros l _ Hs. pose proof (stands_for_line h l r Hs) as [_ Hl].
      by rewrite (Hnone l Hl) in Hs.
  - intros l line Hline [r0 [Hr0 Hl0]].
    assert (l ∈ group_keys h models) as Hin by (apply Hkeys; right; eauto).
    assert (is_Some (stands_for h l)) as [c Hc].
    { unfold stands_for. rewrite Hline. simpl. apply chosen_exists. intros Hnil.
      apply (not_elem_of_nil r0). rewrite <- Hnil. by apply list_elem_of_filter. }
    destruct (stands_for_line h l c Hc) as [Hcm Hcl]. exists c. split_and!.
    + intros r. rewrite list_elem_of_filter, Hd. split.
      * intros [[Hnot Hr] Hl]. apply dec_stable. intros Hne. apply Hnot. right. exists l.
        rewrite Hc. split_and!; [done|done|done|by eexists|congruence].
      * intros ->. split; [|done]. split; [|done].
        intros [?%not_elem_of_nil|(l' & _ & Hl' & _ & _ & Hne)]; [done|]. congruence.
    + by apply Hset.
    + intros r Hl Hne. apply Hkeep. intros l' _ Hs.
      pose proof (stands_for_line h l' r Hs) as [_ Hl']. congruence.
    + intros (r & Hr & Hl & Hp). unfold stands_for in Hc. rewrite Hline in Hc. simpl in Hc.
      unfold chosen_entry in Hc. destruct (head _) as [r'|] eqn:Hh.
      * simplify_eq. apply head_Some_elem_of, list_elem_of_filter in Hh as [? _]. done.
      * apply head_None in Hh. exfalso. apply (not_elem_of_nil r). rewrite <- Hh.
        apply list_elem_of_filter. split; [done|]. by apply list_elem_of_filter.
    + intros Hno r Hr Hl. unfold stands_for in Hc. rewrite Hline in Hc. simpl in Hc.
      unfold chosen_entry in Hc. destruct (head _) as [r'|] eqn:Hh.
      * simplify_eq. apply head_Some_elem_of, list_elem_of_filter in Hh as [Hp _].
        by destruct (Hno c).
      * eapply (max_by_ge (λ r, sequence_of _ (_line_pointer (h r)).2)); [exact Hc|].
        by apply list_elem_of_filter.
Qed.
End surface.

(** ** Resolution *)

(** The artifact of [v] is recorded and, when the caller can look, is there. *)
Definition servable (repo : option string) (artifact_exists : option (option string → string → bool))
    (v : ModelVersion) : Prop :=
  ∃ ref, mv_artifact_ref v = Some ref ∧ ref ≠ "" ∧
    ∀ exists_, artifact_exists = Some exists_ → exists_ repo ref = true.

Lemma require_artifact_None v repo ex :
  _require_artifact v repo ex = None ↔ servable repo ex v.
Proof.
  unfold _require_artifact, servable. destruct (mv_artifact_ref v) as [ref|].
  - rewrite truthy_text. case_decide as Hr.
    + split; [done|]. intros (? & ? & ? & _). by simplify_eq.
    + destruct ex as [ex|]; [destruct (ex repo ref) eqn:He|].
      * split; [|done]. intros _. exists ref. split_and!; [done|done|]. by intros ? [= <-].
      * split; [done|]. intros (? & ? & _ & Hex). simplify_eq. by rewrite Hex in He.
      * split; [|done]. intros _. by exists ref.
  - simpl. split; [done|]. by intros (? & ? & _).
Qed.

Lemma require_artifact_raises v repo ex e :
  _require_artifact v repo ex = Some e → ∃ why, e = VersionUnresolvable why.
Proof.
  unfold _require_artifact. destruct (truthy _); [|intros [= <-]; by eexists].
  destruct ex as [ex|]; [|done]. destruct (ex _ _); [done|]. intros [= <-]. by eexists.
Qed.

Section resolution.
Context (uuid4 : nat → string) `{!Inj (=) (=) uuid4}.
Implicit Types (t : Tables) (v : ModelVersion).

Lemma base_of_adapter_ok t v :
  tables_ok uuid4 t → v ∈ t_versions t → mv_kind v = "adapter" →
  ∃ r, base_of_adapter v (t_versions t) = Some r ∧
    match r with
    | Ok b => b ∈ t_versions t ∧ mv_kind b = "base" ∧ mv_line_id b = mv_line_id v ∧
        mv_sequence b < mv_sequence v
    | Raise e => ∃ why, e = VersionUnresolvable why
    end.
Proof.
  intros Hok Hv Hk. unfold base_of_adapter, ModelVersions.get_version_by_id.
  destruct (truthy (mv_base_version_id v)) as [b|] eqn:Hb.
  - eexists. split; [done|]. destruct (find_row b (t_versions t)) as [bv|] eqn:Hf; [|by eexists].
    assert (mv_base_version_id v = Some b) as Hb'
      by (destruct (mv_base_version_id v) as [[]|]; simpl in Hb; congruence).
    destruct (vok_base _ _ _ (tok_versions _ _ Hok v Hv) b Hb') as (bv' & ? & ? & ? & ?).
    simplify_eq. split_and!; try done. by apply find_row_Some in Hf as [? _].
  - destruct (walk_provenance_ok uuid4 t v Hok Hv) as (chain & -> & Hchain). simpl.
    eexists. split; [done|]. destruct (first_base chain) as [b|] eqn:Hfb; [|by eexists].
    apply first_base_spec in Hfb as (newer & older & -> & Hkb & _).
    destruct (provenance_props uuid4 t v _ Hok Hv Hchain) as (Hhd & Hall & Hsorted & _).
    destruct (Hall b) as (? & ? & ?); [set_solver|]. split_and!; try done.
    destruct newer as [|x newer]; simplify_eq/=; [congruence|].
    apply StronglySorted_inv in Hsorted as [_ Hx]. rewrite Forall_forall in Hx. apply Hx.
    apply elem_of_app. right. left.
Qed.

Lemma resolve_version_repo v id ex lines lines' versions :
  find_row id versions = Some v →
  (find_row (mv_line_id v) lines ≫= ml_corpus_repo) =
    (find_row (mv_line_id v) lines' ≫= ml_corpus_repo) →
  resolve_version id ex lines versions = resolve_version id ex lines' versions.
Proof.
  intros Hv Hrepo. unfold resolve_version, ModelVersions.get_version_by_id, ModelLines.get_line_by_id.
  by rewrite Hv, Hrepo.
Qed.

(** Resolving a version is a lookup.  It answers for every version that
    exists: with that version's own commit and artifact and, for an adapter, the
    artifact of a base that precedes it on its line, each recorded and present;
    or with the reason why it cannot be served.  The line's current version has
    no part in it. *)
Theorem resolution_is_a_lookup t v ex :
  tables_ok uuid4 t → v ∈ t_versions t →
  ∃ r, resolve_version (mv_id v) ex (t_lines t) (t_versions t) = Some r ∧
    (∀ line_id c, resolve_version (mv_id v) ex
       (update_row line_id (pointing_at c) (t_lines t)) (t_versions t) = Some r) ∧
    match r with
    | Raise e => ∃ why, e = VersionUnresolvable why
    | Ok rv =>
        ∃ base,
          rv = resolved v (rv_corpus_repo rv) base ∧ servable (rv_corpus_repo rv) ex v ∧
          match base with
          | None => mv_kind v = "base"
          | Some b => mv_kind v = "adapter" ∧ b ∈ t_versions t ∧ mv_kind b = "base" ∧
              mv_line_id b = mv_line_id v ∧ mv_sequence b < mv_sequence v ∧
              servable (rv_corpus_repo rv) ex b
          end
    end.
Proof.
  intros Hok Hv. assert (find_row (mv_id v) (t_versions t) = Some v) as Hf
    by (apply find_row_elem; [by apply tok_versions_nodup with uuid4|done]).
  assert (∀ r, resolve_version (mv_id v) ex (t_lines t) (t_versions t) = r →
    ∀ line_id c, resolve_version (mv_id v) ex
      (update_row line_id (pointing_at c) (t_lines t)) (t_versions t) = r) as Hptr.
  { intros r <- line_id c. apply (resolve_version_repo v); [done|].
    rewrite find_update_row by done. case_decide; [|done].
    by destruct (find_row (mv_line_id v) (t_lines t)). }
  enough (∃ r, resolve_version (mv_id v) ex (t_lines t) (t_versions t) = Some r ∧
    match r with
    | Raise e => ∃ why, e = VersionUnresolvable why
    | Ok rv =>
        ∃ base,
          rv = resolved v (rv_corpus_repo rv) base ∧ servable (rv_corpus_repo rv) ex v ∧
          match base with
          | None => mv_kind v = "base"
          | Some b => mv_kind v = "adapter" ∧ b ∈ t_versions t ∧ mv_kind b = "base" ∧
              mv_line_id b = mv_line_id v ∧ mv_sequence b < mv_sequence v ∧
              servable (rv_corpus_repo rv) ex b
          end
    end) as (r & Hr & Hspec).
  { exists r. split_and!; [done|by apply Hptr|done]. }
  unfold resolve_version, ModelVersions.get_version_by_id, ModelLines.get_line_by_id. rewrite Hf.
  set (repo := find_row (mv_line_id v) (t_lines t) ≫= ml_corpus_repo).
  destruct (is_adapter v) eqn:Had.
  - apply bool_decide_eq_true in Had.
    destruct (base_of_adapter_ok t v Hok Hv Had) as (r & -> & Hr). simpl.
    destruct r as [b|e]; [|eexists; split; done].
    eexists. split; [done|].
    destruct (_require_artifact v repo ex) eqn:Hreq; [by eapply require_artifact_raises|].
    simpl. destruct (_require_artifact b repo ex) eqn:Hreqb; [by eapply require_artifact_raises|].
    apply require_artifact_None in Hreq, Hreqb. exists (Some b). naive_solver.
  - eexists. split; [done|]. simpl.
    destruct (_require_artifact v repo ex) eqn:Hreq; [by eapply require_artifact_raises|].
    apply require_artifact_None in Hreq. exists None. split_and!; [done|done|].
    apply bool_decide_eq_false in Had.
    pose proof (vok_kind _ _ _ (tok_versions _ _ Hok v Hv)) as Hk.
    apply elem_of_cons in Hk as [?|[?|?%not_elem_of_nil]%elem_of_cons]; done.
Qed.

(** ** Reverting *)

(** A revert is a pointer move.  It builds nothing and commits nothing: when
    it succeeds the version is one of the line's, the line's row points at it and
    carries one more entry of the audit trail, and no other row has changed; when
    it is refused nothing has changed. *)
Theorem revert_is_a_pointer_move line_id version_id by_ w :
  NoDup (keys (t_lines (v_tables w))) →
  let res := result_of (revert_line uuid4 line_id version_id by_) w in
  let w' := state_of (revert_line uuid4 line_id version_id by_) w in
  v_log w' = v_log w ∧ v_jobs w' = v_jobs w ∧ v_script w' = v_script w ∧
  t_versions (v_tables w') = t_versions (v_tables w) ∧
  match res with
  | Ok line' =>
      ∃ v line trail,
        find_row version_id (t_versions (v_tables w)) = Some v ∧ mv_line_id v = line_id ∧
        find_row line_id (t_lines (v_tables w)) = Some line ∧
        ModelLines.list_or_empty (dict_lookup "version_moves" (default [] (ml_meta line))) =
          Some trail ∧
        ml_current_version_id line' = Some version_id ∧
        dict_lookup "version_moves" (default [] (ml_meta line')) =
          Some (JList (trail ++ [ModelLines.version_move (v_now w) (ml_current_version_id line)
                                   version_id by_])) ∧
        ∀ l, find_row l (t_lines (v_tables w')) =
          if decide (l = line_id) then Some line' else find_row l (t_lines (v_tables w))
  | Raise _ => t_lines (v_tables w') = t_lines (v_tables w)
  end.
Proof.
  intros Hnd res w'. subst res w'. unfold revert_line, set_current_version, writes, acting.
  unfold state_of, result_of. rewrite run_bind, run_bind. unfold next_commit.
  assert (∀ ok, let r := ModelLines.set_current_version ok (v_now w) line_id version_id by_
      (t_versions (v_tables w)) (t_lines (v_tables w)) in
    match r.1 with
    | Ok (Some line') =>
        ∃ v line trail,
          find_row version_id (t_versions (v_tables w)) = Some v ∧ mv_line_id v = line_id ∧
          find_row line_id (t_lines (v_tables w)) = Some line ∧
          ModelLines.list_or_empty (dict_lookup "version_moves" (default [] (ml_meta line))) =
            Some trail ∧
          ml_current_version_id line' = Some version_id ∧
          dict_lookup "version_moves" (default [] (ml_meta line')) =
            Some (JList (trail ++ [ModelLines.version_move (v_now w) (ml_current_version_id line)
                                     version_id by_])) ∧
          ∀ l, find_row l r.2 =
            if decide (l = line_id) then Some line' else find_row l (t_lines (v_tables w))
    | _ => r.2 = t_lines (v_tables w)
    end) as Hset.
  { intros ok. unfold ModelLines.set_current_version, ModelLines.get_line_by_id.
    destruct (find_row version_id (t_versions (v_tables w))) as [v|] eqn:Hv; [|done].
    case_decide as Hl; [done|].
    destruct (find_row line_id (t_lines (v_tables w))) as [line|] eqn:Hline; [|done].
    destruct (ModelLines.list_or_empty _) as [trail|] eqn:Htrail; [|done].
    destruct ok; [|done]. rewrite find_update_row_eq, Hline by done. simpl.
    exists v, line, trail. split_and!; try done; [by rewrite dict_lookup_set|].
    intros l. rewrite find_update_row by done. case_decide; [subst; by rewrite Hline|done]. }
  destruct (v_commits w) as [|ok rest]; simpl;
    [specialize (Hset true)|specialize (Hset ok)];
    destruct (ModelLines.set_current_version _ _ _ _ _ _ _) as [[[line'|]|e] lines'];
    simpl in *; by split_and!.
Qed.
End resolution.
