(* ===== verification/VersionPublish.v ===== *)
(** How a publish completes, against what the queue assumes of it. *)

From stdpp Require Import gmap pretty.
From S2P Require Import Prelude Data Jobs Versions VersionService VersionFacts VersionContract.
From S2P Require Import Queue.

Section complete.
Context (uuid4 : nat → string) `{!Inj (=) (=) uuid4}.
Implicit Types (w : VWorld) (v : ModelVersion).

(** Both tables are those the peers left, up to what [f] says. *)
Lemma run_staging repo name w :
  ∃ b w', _stage_provenance_manifest repo name w = (Ok b, w') ∧
    v_tables w' = v_tables w ∧ v_jobs w' = v_jobs w ∧ v_now w' = v_now w ∧
    v_commits w' = v_commits w ∧ v_script w' = v_script w.
Proof.
  unfold _stage_provenance_manifest. destruct (v_staging w) as [|[] rest]; by eexists _, _.
Qed.

(** Commit outcomes are only ever consumed. *)
Lemma run_update_status id st err res w :
  ∃ b, update_status id st err res w =
    (Ok (if b : bool then find_row id (PublishJobs.update_status (v_now w) id st err res (v_jobs w))
         else None),
     state_of (update_status id st err res) w) ∧
    (b = false → false ∈ v_commits w) ∧
    let w' := state_of (update_status id st err res) w in
    v_tables w' = v_tables w ∧ v_now w' = v_now w ∧ v_log w' = v_log w ∧
    v_jobs w' = (if b then PublishJobs.update_status (v_now w) id st err res (v_jobs w)
                 else v_jobs w).
Proof.
  unfold update_status, state_of, acting. rewrite run_bind. unfold next_commit.
  destruct (v_commits w) as [|[] rest]; simpl; [by exists true|by exists true|exists false].
  split_and!; try done. intros _. left.
Qed.

(** Neither an append nor a move of a pointer writes the job table, and commit
    outcomes are only ever consumed. *)
Definition same_jobs : relation VWorld := λ w w',
  v_jobs w' = v_jobs w ∧ v_commits w' `suffix_of` v_commits w.

#[local] Instance same_jobs_preorder : PreOrder same_jobs.
Proof.
  split; unfold same_jobs; [done|]. intros w1 w2 w3 [? ?] [? ?]. split; [congruence|].
  by etransitivity.
Qed.

Lemma writes_jobs {A} op (f : bool → Z → Tables → result VersionError A) :
  preserves same_jobs (writes uuid4 op f).
Proof.
  apply preserves_bind; [apply _| |].
  - intros w. unfold next_commit, same_jobs, state_of.
    destruct (v_commits w) eqn:Hc; simpl; [by rewrite Hc|]. split; [done|by apply suffix_cons_r].
  - intros ok. by apply preserves_acting.
Qed.

Lemma await_jobs : preserves same_jobs (await_answer uuid4).
Proof. intros w. unfold await_answer, same_jobs, state_of. by destruct (v_script w). Qed.

#[local] Hint Resolve writes_jobs await_jobs : s2db.

Lemma append_jobs line_id a : preserves same_jobs (append_version uuid4 line_id a).
Proof.
  assert (∀ e, preserves same_jobs (emit e)) by by intros e w.
  unfold append_version, commit_branch, insert_new_version. preserves_auto.
Qed.

(** The line stands at the version. *)
Definition stands_at (line_id version_id : string) w : Prop :=
  ∃ l, find_row line_id (t_lines (v_tables w)) = Some l ∧ ml_current_version_id l = Some version_id.

(** Moving the pointer to a version of the line raises only on a malformed audit
    trail, and writes no version; it moves unless its commit fails. *)
Lemma run_set_current line_id version_id by_ w v :
  find_row version_id (t_versions (v_tables w)) = Some v → mv_line_id v = line_id →
  is_Some (find_row line_id (t_lines (v_tables w))) →
  ∃ r w', set_current_version uuid4 line_id version_id by_ w = (r, w') ∧
    t_versions (v_tables w') = t_versions (v_tables w) ∧ v_now w' = v_now w ∧
    v_log w' = v_log w ∧ v_jobs w' = v_jobs w ∧ v_commits w' `suffix_of` v_commits w ∧
    match r with
    | Raise e => e = PythonTypeError ∧ v_tables w' = v_tables w
    | Ok _ => stands_at line_id version_id w' ∨ false ∈ v_commits w
    end.
Proof.
  intros Hv Hl [line Hline].
  destruct (writes_jobs (WSetCurrent line_id version_id by_) (λ ok now t,
    (ModelLines.set_current_version ok now line_id version_id by_ (t_versions t) (t_lines t)).1) w)
    as [Hj Hc].
  unfold set_current_version in *. unfold state_of in Hj, Hc.
  destruct (writes uuid4 _ _ w) as [r w'] eqn:Hw. exists r, w'. split; [done|].
  unfold writes, acting, next_commit in Hw. rewrite run_bind in Hw.
  simpl in Hj, Hc. destruct w as [[lines versions minted] jobs now commits staging script log].
  simpl in *. assert (∀ ok, match (ModelLines.set_current_version ok now line_id version_id by_ versions lines) with
    | (Raise e, l) => e = PythonTypeError ∧ l = lines
    | (Ok _, l) => (∃ row, find_row line_id l = Some row ∧ ml_current_version_id row = Some version_id) ∨ ok = false
    end) as Hcases.
  { intros ok. unfold ModelLines.set_current_version, ModelLines.get_line_by_id.
    rewrite Hv, decide_False, Hline by (intros []; done).
    destruct (ModelLines.list_or_empty _); [|done]. destruct ok; [left|by right].
    rewrite find_update_row_eq by done. rewrite Hline. by eexists. }
  destruct commits as [|ok rest]; simpl in Hw; injection Hw as <- <-;
    [specialize (Hcases true)|specialize (Hcases ok)]; simpl in *;
    destruct (ModelLines.set_current_version _ _ _ _ _ _ _) as [[c|e] l] eqn:Hset; simpl in *; unfold stands_at; simpl;
    split_and!; try done; [by left; destruct Hcases|..].
  3: destruct Hcases as [?| ->]; [by left|right; constructor].
  all: by destruct Hcases as [-> ->].
Qed.

(** The job table after the queue has seen the outcome [r]. *)
Definition record_step (now : Z) (r : RecordOutcome) (id : string) (t : list PublishJob)
    : list PublishJob :=
  match r with
  | Recorded v => PublishJobs.update_status now id COMPLETED None (Some v) t
  | RecordFailed =>
      PublishJobs.update_status now id FAILED (Some "could not record the version") None t
  | RowLeft => t
  end.

Lemma queue_complete_publish {C} (job : PublishJob) (qw : QWorld C) r rest :
  q_records qw = r :: rest →
  q_publish (state_of (complete_publish job) qw) =
    record_step (q_now qw) r (pb_id job) (q_publish qw).
Proof.
  intros Hr. unfold complete_publish, next_record, state_of. rewrite run_bind, Hr.
  by destruct r.
Qed.

(** One version was written: a base of the line, parented on the base the publish
    started from and backed by a commit. *)
Definition recorded (job : PublishJob) (w w' : VWorld) v : Prop :=
  t_versions (v_tables w') = t_versions (after_peers uuid4 w) ++ [v] ∧
  mv_kind v = "base" ∧ mv_line_id v = pb_line_id job ∧
  mv_parent_version_id v = Some (pb_base_version_id job) ∧
  ∃ repo, EvCommitted repo (mv_corpus_commit_id v) ∈ v_log w'.

(** And the line stands at it, unless a commit failed. *)
Definition recorded_and_moved (job : PublishJob) (w w' : VWorld) v : Prop :=
  recorded job w w' v ∧ (stands_at (pb_line_id job) (mv_id v) w' ∨ false ∈ v_commits w).

Definition unrecorded (w w' : VWorld) : Prop :=
  t_versions (v_tables w') = t_versions (v_tables w) ∨
  t_versions (v_tables w') = t_versions (after_peers uuid4 w).

(** What the outcome the queue is told means for the version tables. *)
Definition outcome_means (job : PublishJob) (w w' : VWorld) (res : result VersionError (option PublishJob))
    (r : RecordOutcome) : Prop :=
  match r with
  | Recorded id => ∃ v, mv_id v = id ∧ recorded_and_moved job w w' v ∧ ∃ row, res = Ok row
  | RecordFailed => unrecorded w w' ∧ ∃ e, res = Raise e
  | RowLeft =>
      (res = Raise (LineNotFound (pb_line_id job)) ∧ w' = w) ∨
      (res = Raise PythonTypeError ∧ ∃ v, recorded job w w' v) ∨
      (false ∈ v_commits w ∧ res = Ok None ∧ ∃ v, recorded_and_moved job w w' v) ∨
      (false ∈ v_commits w ∧ unrecorded w w' ∧ ∃ e, res = Raise e)
  end.

(** The guarded part of [complete_publish_job]: stage, then append. *)
Lemma run_stage_append job repo name a w :
  tables_ok uuid4 (v_tables w) →
  let m := stage_and_append uuid4 (pb_line_id job) repo name a in
  same_jobs w (state_of m w) ∧ tables_ok uuid4 (v_tables (state_of m w)) ∧
  match result_of m w with
  | Ok v =>
      t_versions (v_tables (state_of m w)) = t_versions (after_peers uuid4 w) ++ [v] ∧ mv_line_id v = pb_line_id job ∧
      mv_kind v = ap_kind a ∧ mv_parent_version_id v = ap_parent_version_id a ∧
      ∃ r, EvCommitted r (mv_corpus_commit_id v) ∈ v_log (state_of m w)
  | Raise _ =>
      t_versions (v_tables (state_of m w)) = t_versions (v_tables w) ∨
      t_versions (v_tables (state_of m w)) = t_versions (after_peers uuid4 w)
  end.
Proof.
  intros Hok m. unfold m, stage_and_append, state_of, result_of. rewrite run_bind.
  destruct (run_staging repo name w) as (b & w1 & -> & Ht & Hj & Hn & Hc & Hs).
  assert (same_jobs w w1) as Hw1 by (split; [done|by rewrite Hc]).
  assert (after_peers uuid4 w1 = after_peers uuid4 w) as Hpeers
    by (unfold after_peers; by rewrite Hs, Ht).
  destruct b; simpl; [|split_and!; [done|by rewrite Ht|left; by rewrite Ht]].
  rewrite <- Ht in Hok. pose proof (append_jobs (pb_line_id job) a w1) as Hjobs.
  pose proof (append_version_ok uuid4 (pb_line_id job) a w1 Hok) as Hok'.
  pose proof (run_append_version uuid4 (pb_line_id job) a w1 Hok) as Happ.
  unfold state_of, result_of in *.
  destruct (append_version uuid4 (pb_line_id job) a w1) as [[v|e] w2]; simpl in *.
  - destruct Happ as (line & repo' & now & _ & _ & _ & Hlog & Hv & Hvs).
    split_and!; [by etransitivity|done|by rewrite Hvs, Hpeers| | | |].
    1-3: by rewrite Hv.
    exists repo'. rewrite Hlog. set_solver.
  - split_and!; [by etransitivity|done|].
    destruct Happ as [->|(_ & Hvs & _)]; [left; by rewrite Ht|right; by rewrite Hvs, Hpeers].
Qed.

End complete.

From S2P Require Import VersionSurface.

(** Concrete histories: the theorems on model lines and versions at inputs where
    their hypotheses hold, and closed runs of the service in which it does not do
    what its comments say. *)
Module VersionRuns.

(** ** A line with two bases and three adapters *)

Module History.

Definition uuid4 (n : nat) : string := "v" +:+ pretty n.

#[export] Instance uuid4_inj : Inj (=) (=) uuid4.
Proof. unfold uuid4. intros n m Heq. simplify_eq. by apply (inj pretty). Qed.

Definition form (kind commit : string) (parent base : option string) : ModelVersionForm :=
  mkModelVersionForm kind commit parent base None (Some "u") (Some (commit +:+ ".gguf")) None.

Definition append_form (kind : string) (parent base : option string) : Append :=
  mkAppend kind parent base None (Some "u") (Some "next.gguf") None.

(** The line [v0]: the base [v1], its adapter [v2], the base [v3] published from
    them, its adapters [v4] and [v5]; the line is at [v5]. *)
Definition writes : list (bool * Z * TableWrite) :=
  (λ op, (true, 10, op)) <$>
  [WInsertLine "u" (mkModelLineForm "coder" (Some "selfai-line-v0") None None);
   WInsertVersion "v0" (form "base" "c1" None None);
   WInsertVersion "v0" (form "adapter" "c2" (Some "v1") (Some "v1"));
   WInsertVersion "v0" (form "base" "c3" (Some "v2") None);
   WInsertVersion "v0" (form "adapter" "c4" (Some "v3") (Some "v3"));
   WInsertVersion "v0" (form "adapter" "c5" (Some "v4") (Some "v3"));
   WSetCurrent "v0" "v5" None].

Definition tables : Tables := Eval vm_compute in
  foldl (run_write uuid4) (mkTables [] [] 0) writes.

Lemma history_ok : tables_ok uuid4 tables.
Proof.
  assert (foldl (run_write uuid4) (mkTables [] [] 0) writes = tables) as <-
    by (vm_compute; reflexivity).
  apply run_writes_ok; [apply _|apply no_tables_ok].
Qed.

Definition job : PublishJob :=
  PublishJobs.new_job 20 "p" "v0" "u" "v3" ["v4"; "v5"]
    (PublishJobs.mkPublishJobForm (Some "coder-v6") None "normal" None).

Definition world (commits : list bool) (script : list VAwait) : VWorld :=
  mkVWorld tables [PublishJobs.status_row 21 RUNNING None None job] 30 commits [true; true]
    script [].

(** A commit that answers at once. *)
Definition commit_answers (id : string) : VAwait := mkVAwait 31 [] (AnswerCommit id).

Definition pointer (w : VWorld) : option (option string) :=
  ml_current_version_id <$> find_row "v0" (t_lines (v_tables w)).

Definition history (w : VWorld) : list (string * string) :=
  (λ v, (mv_id v, mv_kind v)) <$> ModelVersions.get_versions_by_line "v0" (t_versions (v_tables w)).

End History.
Import History.

(** ** Witnesses *)

Lemma histories_stay_well_formed_witness :
  tables_ok uuid4 (v_tables (foldl (λ w c, call_state uuid4 c w)
    (world [true; false] [commit_answers "c6"; commit_answers "c7"; mkVAwait 40 [] AnswerRepo])
    [CallAppend "v0" (append_form "adapter" (Some "v5") (Some "v3"));
     CallRecord "u" "base" (Some "m.gguf") [] (Some "v0") None None;
     CallCreatePublish "v0" "u" (PublishJobs.mkPublishJobForm None None "normal" None);
     CallCompletePublish job (Some "out.gguf"); CallRevert "v0" "v1" None;
     CallTableWrite true 50 (WDeleteVersions "v0")])).
Proof. apply (histories_stay_well_formed uuid4). exact history_ok. Defined.

Lemma append_commits_first_witness :
  let a := append_form "adapter" (Some "v5") (Some "v3") in
  let w := world [] [commit_answers "c6"] in
  ∃ v, result_of (append_version uuid4 "v0" a) w = Ok v ∧
    v_log (state_of (append_version uuid4 "v0" a) w) =
      [EvCommitted "selfai-line-v0" (mv_corpus_commit_id v)] ∧ mv_sequence v = 6.
Proof.
  intros a w.
  pose proof (append_commits_first uuid4 "v0" a w history_ok) as Hspec. cbv zeta in Hspec.
  destruct (result_of (append_version uuid4 "v0" a) w) as [v|e] eqn:Hr;
    [|vm_compute in Hr; discriminate].
  exists v. split; [done|]. destruct Hspec as (line & repo & now & _ & _ & _ & Hlog & _).
  split; [|vm_compute in Hr; by injection Hr as <-].
  rewrite Hlog. vm_compute in Hr. injection Hr as <-. vm_compute in Hlog. by injection Hlog as ->.
Defined.

Lemma publish_merges_after_its_base_witness :
  ∃ base adapters,
    current_base_and_adapters "v0" (t_lines tables) (t_versions tables) = Some (Ok (base, adapters)) ∧
    mv_id base = "v3" ∧ mv_id <$> adapters = ["v4"; "v5"] ∧
    StronglySorted (λ x y, mv_sequence x ≤ mv_sequence y) adapters.
Proof.
  destruct (find_row "v0" (t_lines tables)) as [line|] eqn:Hline; [|vm_compute in Hline; discriminate].
  pose proof (publish_merges_after_its_base uuid4 tables "v0" line history_ok Hline) as Hspec.
  destruct (last _) as [newest|] eqn:Hlast; [|vm_compute in Hlast; discriminate].
  destruct Hspec as (chain & _ & Hspec). destruct (first_base chain) as [base|].
  - destruct Hspec as (adapters & Heq & _ & _ & Hsorted & _). exists base, adapters.
    split; [exact Heq|]. vm_compute in Heq. injection Heq as <- <-. done.
  - vm_compute in Hspec. discriminate.
Defined.

(** A version of the sample history, by its id. *)
Definition sample (id : string) : ModelVersion :=
  default (ModelVersions.new_version 0 "" "" 0 (form "" "" None None)) (find_row id (t_versions tables)).

Lemma revert_does_not_narrow_witness :
  let at_ c := current_base_and_adapters "v0"
                 (update_row "v0" (pointing_at c) (t_lines tables)) (t_versions tables) in
  at_ "v4" = at_ "v5" ∧ ∃ base adapters, at_ "v4" = Some (Ok (base, adapters)) ∧ sample "v5" ∈ adapters.
Proof.
  destruct (find_row "v0" (t_lines tables)) as [line|] eqn:Hline; [|vm_compute in Hline; discriminate].
  destruct (revert_does_not_narrow uuid4 tables "v0" line (sample "v4") (sample "v5")
    [sample "v4"; sample "v3"; sample "v2"; sample "v1"]
    [sample "v5"; sample "v4"; sample "v3"; sample "v2"; sample "v1"] (sample "v3"))
    as [Heq (adapters & Hat & Hall)]; try done.
  - exact history_ok.
  - apply find_row_Some with "v4". vm_compute. reflexivity.
  - apply find_row_Some with "v5". vm_compute. reflexivity.
  - repeat (eapply provenance_next; [vm_compute; reflexivity..|]). by apply provenance_first.
  - repeat (eapply provenance_next; [vm_compute; reflexivity..|]). by apply provenance_first.
  - split; [exact Heq|]. exists (sample "v3"), adapters. split; [exact Hat|].
    apply Hall; try done. apply find_row_Some with "v5". vm_compute. reflexivity.
Defined.


Lemma resolution_is_a_lookup_witness :
  ∃ rv, resolve_version "v5" (Some (λ _ _, true)) (t_lines tables) (t_versions tables) = Some (Ok rv) ∧
    rv_base_version_id rv = Some "v3" ∧
    resolve_version "v5" (Some (λ _ _, true)) (update_row "v0" (pointing_at "v1") (t_lines tables))
      (t_versions tables) = Some (Ok rv).
Proof.
  destruct (resolution_is_a_lookup uuid4 tables (sample "v5") (Some (λ _ _, true)) history_ok)
    as (r & Hr & Hptr & _).
  { apply find_row_Some with "v5". vm_compute. reflexivity. }
  specialize (Hptr "v0" "v1"). change (mv_id (sample "v5")) with "v5" in *.
  destruct r as [rv|e]; [|vm_compute in Hr; discriminate].
  exists rv. split; [exact Hr|]. split; [|exact Hptr]. vm_compute in Hr. by injection Hr as <-.
Defined.

Lemma revert_is_a_pointer_move_witness :
  let w := world [] [] in
  v_log (state_of (revert_line uuid4 "v0" "v1" (Some "u")) w) = [] ∧
  pointer (state_of (revert_line uuid4 "v0" "v1" (Some "u")) w) = Some (Some "v1").
Proof.
  intros w. destruct (revert_is_a_pointer_move uuid4 "v0" "v1" (Some "u") w) as [Hlog _].
  - exact (tok_lines_nodup _ _ history_ok).
  - split; [exact Hlog|vm_compute; reflexivity].
Defined.

(** ** Runs against the comments *)

(** The base a publish of the line at version [c] starts from, and what it merges. *)
Definition publish_at (c : string) : option (string * list string) :=
  match current_base_and_adapters "v0" (update_row "v0" (pointing_at c) (t_lines tables))
          (t_versions tables) with
  | Some (Ok (base, adapters)) => Some (mv_id base, mv_id <$> adapters)
  | _ => None
  end.

(** Going back to the first base and publishing merges the adapters fitted on the
    second one too: a revert can widen what a publish merges. *)
Example reverting_to_an_earlier_base_widens :
  publish_at "v5" = Some ("v3", ["v4"; "v5"]) ∧ publish_at "v2" = Some ("v1", ["v2"; "v4"; "v5"]).
Proof. vm_compute. auto. Qed.

(** The commit of the pointer fails: the job is completed all the same, and the
    line is not moved. *)
Example completed_without_moving_the_line :
  let w := state_of (complete_publish_job uuid4 job (Some "out.gguf"))
             (world [true; false; true] [commit_answers "c6"]) in
  pb_status <$> v_jobs w = [COMPLETED] ∧ pointer w = Some (Some "v5") ∧
  history w = [("v1", "base"); ("v2", "adapter"); ("v3", "base"); ("v4", "adapter");
               ("v5", "adapter"); ("v6", "base")].
Proof. vm_compute. auto. Qed.

(** The commit of the job's own row fails: the job stays running, and the next
    cycle records the same merge as another base. *)
Example one_merge_recorded_twice :
  let once := complete_publish_job uuid4 job (Some "out.gguf") in
  let w1 := state_of once (world [true; true; false] [commit_answers "c6"; commit_answers "c7"]) in
  let w2 := state_of once w1 in
  pb_status <$> v_jobs w1 = [RUNNING] ∧ pb_status <$> v_jobs w2 = [COMPLETED] ∧
  history w2 = [("v1", "base"); ("v2", "adapter"); ("v3", "base"); ("v4", "adapter");
                ("v5", "adapter"); ("v6", "base"); ("v7", "base")].
Proof. vm_compute. auto. Qed.

(** A version appended by another coroutine during the commit takes nothing from
    this one; the line's versions deleted meanwhile refuse it, and its commit is
    left without a version. *)
Example commit_without_a_version :
  let a := append_form "adapter" (Some "v5") (Some "v3") in
  let run peers := append_version uuid4 "v0" a
                     (world [] [mkVAwait 31 peers (AnswerCommit "c6")]) in
  (∃ v w, run [(true, 31, WInsertVersion "v0" (form "base" "c9" (Some "v3") None))] = (Ok v, w) ∧
     mv_sequence v = 7) ∧
  (∃ e w, run [(true, 31, WDeleteVersions "v0")] = (Raise e, w) ∧
     v_log w = [EvCommitted "selfai-line-v0" "c6"] ∧ t_versions (v_tables w) = []).
Proof. vm_compute. eauto 10. Qed.

End VersionRuns.
