(* ===== verification/Tickets.v ===== *)
(** Signed tickets: the JWT library as an interface with its laws, and the
    service tickets of [utils/service_auth.py] over it. *)

From Stdlib Require Import Ascii.
From stdpp Require Import countable.
From S2P Require Import Prelude Data.


(** ** The JWT library

    [jwt.encode(claims, secret, algorithm="HS256")] and [jwt.decode(token, secret,
    algorithms=["HS256"], audience=audience)] at time [now]; [None] is any
    [InvalidTokenError]. *)
Class Jwt := {
  jwt_encode : json_dict → string → string;
  jwt_decode : Z → string → string → option string → option json_dict
}.

(** Claims with which a token is accepted: it has not expired, was not issued in
    the future, and names the audience asked for, and none if none is. *)
Definition accepted (now : Z) (claims : json_dict) (audience : option string) : bool :=
  match dict_lookup "exp" claims with
  | None => true | Some (JInt e) => bool_decide (now < e) | Some _ => false
  end &&
  match dict_lookup "iat" claims with
  | None => true | Some (JInt i) => bool_decide (i ≤ now) | Some _ => false
  end &&
  match dict_lookup "nbf" claims with None => true | Some _ => false end &&
  match audience, dict_lookup "aud" claims with
  | None, None => true
  | Some a, Some (JStr b) => bool_decide (a = b)
  | _, _ => false
  end.

(** What the library documents: a token is not empty and starts with its header,
    the base64 text of a JSON object; a token it signed is accepted with the same
    secret while its claims are acceptable, and not when it has expired, is for
    another audience, or was signed with another secret. *)
Class JwtLaws `{!Jwt} : Prop := {
  encode_nonempty claims secret : jwt_encode claims secret ≠ "";
  encode_header claims secret :
    starts_with "eval-" (jwt_encode claims secret) = false ∧
    starts_with "sk-" (jwt_encode claims secret) = false;
  decode_encode now claims secret audience :
    accepted now claims audience = true →
    jwt_decode now (jwt_encode claims secret) secret audience = Some claims;
  decode_expired now claims secret secret' audience e :
    dict_lookup "exp" claims = Some (JInt e) → e ≤ now →
    jwt_decode now (jwt_encode claims secret) secret' audience = None;
  decode_audience now claims secret secret' audience b :
    dict_lookup "aud" claims = Some (JStr b) → audience ≠ Some b →
    jwt_decode now (jwt_encode claims secret) secret' audience = None;
  decode_secret now claims secret secret' audience :
    secret ≠ secret' →
    jwt_decode now (jwt_encode claims secret) secret' audience = None
}.

(** ** Service tickets *)

Definition DEFAULT_TICKET_TTL_SECONDS : Z := 120.

(** A [str] or an iterable of them. *)
Inductive Scopes := OneScope (s : string) | ManyScopes (l : list string).

Inductive TicketError :=
| ServiceAuthNotConfigured
| NotConfigured503
| MissingTicket401
| InvalidTicket401
| MissingScope403 (missing : list string).

(** [str.split()] on ASCII white space. *)
Fixpoint words_from (cur : option string) (s : string) : list string :=
  match s with
  | EmptyString => match cur with Some w => [w] | None => [] end
  | String c s' =>
      if is_space c
      then match cur with Some w => w :: words_from None s' | None => words_from None s' end
      else words_from (Some (default EmptyString cur +:+ String c EmptyString)) s'
  end.

Definition words (s : string) : list string := words_from None s.

Definition scope_text (scope : Scopes) : string :=
  match scope with OneScope s => s | ManyScopes l => join " " l end.

Definition scope_list (scope : Scopes) : list string :=
  match scope with OneScope s => [s] | ManyScopes l => l end.

Section service_auth.
Context `{!Jwt} (SERVICE_AUTH_SECRET SERVICE_AUTH_ISSUER SERVICE_AUTH_AUDIENCE : string).
(** [str(x)] of a decoded value that is no string. *)
Context (py_str : Json → string).

(** The payload, [jti] being the hex of a fresh [uuid4]. *)
Definition ticket_claims (now : Z) (jti audience : string) (scope : Scopes) (ttl_seconds : Z)
    : json_dict :=
  [("iss", JStr SERVICE_AUTH_ISSUER); ("aud", JStr audience); ("scope", JStr (scope_text scope));
   ("iat", JInt now); ("exp", JInt (now + ttl_seconds)); ("jti", JStr jti)].

Definition mint_service_ticket (now : Z) (jti audience : string) (scope : Scopes)
    (ttl_seconds : Z) : result TicketError string :=
  if decide (SERVICE_AUTH_SECRET = "") then Raise ServiceAuthNotConfigured
  else Ok (jwt_encode (ticket_claims now jti audience scope ttl_seconds) SERVICE_AUTH_SECRET).

Definition TICKET_HEADER : string := "X-Selfai-Ticket".

Definition service_ticket_header (now : Z) (jti audience : string) (scope : Scopes)
    (ttl_seconds : Z) : result TicketError (list (string * string)) :=
  match mint_service_ticket now jti audience scope ttl_seconds with
  | Ok t => Ok [(TICKET_HEADER, t)]
  | Raise e => Raise e
  end.

(** [str(claims.get("scope", ""))] *)
Definition claimed_scope (claims : json_dict) : string :=
  match dict_lookup "scope" claims with
  | None => ""
  | Some (JStr s) => s
  | Some j => py_str j
  end.

Definition verify_service_ticket (now : Z) (ticket : option string) (required_scopes : Scopes)
    (audience : string) : result TicketError json_dict :=
  if decide (SERVICE_AUTH_SECRET = "") then Raise NotConfigured503
  else
    match truthy ticket with
    | None => Raise MissingTicket401
    | Some ticket =>
        match jwt_decode now ticket SERVICE_AUTH_SECRET (Some audience) with
        | None => Raise InvalidTicket401
        | Some claims =>
            let granted := words (claimed_scope claims) in
            let missing := filter (λ s, s ∉ granted) (remove_dups (scope_list required_scopes)) in
            if decide (missing = []) then Ok claims
            else Raise (MissingScope403 (order_by_text id missing))
        end
    end.

(** The dependency a ticket-gated endpoint declares. *)
Definition require_service_ticket (required_scopes : list string) (now : Z)
    (header : option string) : result TicketError json_dict :=
  verify_service_ticket now header (ManyScopes required_scopes) SERVICE_AUTH_AUDIENCE.

End service_auth.

(** ** The round trip *)

Definition scope_ok (s : string) : bool :=
  bool_decide (s ≠ "") && all_chars (λ c, negb (is_space c)) s.

Lemma words_from_plain w s rest :
  all_chars (λ c, negb (is_space c)) s = true →
  words_from (Some w) (s +:+ rest) = words_from (Some (w +:+ s)) rest.
Proof.
  revert w. induction s as [|c s IH]; intros w; [by rewrite append_nil_r|].
  rewrite append_cons. intros [Hc%negb_true_iff Hs]%andb_true_iff. cbn [words_from].
  rewrite Hc, IH by done. by rewrite <- append_assoc.
Qed.

Lemma words_plain s rest :
  scope_ok s = true → words_from None (s +:+ rest) = words_from (Some s) rest.
Proof.
  intros [Hne%bool_decide_eq_true Hs]%andb_true_iff. destruct s as [|c s]; [done|].
  simpl in Hs. apply andb_true_iff in Hs as [Hc%negb_true_iff Hs].
  rewrite append_cons. cbn [words_from]. by rewrite Hc, words_from_plain.
Qed.

(** Joining scopes with spaces and splitting them again. *)
Lemma words_join l : Forall (λ s, scope_ok s = true) l → words (join " " l) = l.
Proof.
  unfold words. induction 1 as [|s l Hs Hl IH]; [done|]. destruct l as [|s' l].
  - rewrite <- (append_nil_r (join " " [s])). cbn [join]. by rewrite words_plain.
  - change (join " " (s :: s' :: l)) with (s +:+ " " +:+ join " " (s' :: l)).
    rewrite words_plain by done.
    change (s :: words_from None (join " " (s' :: l)) = s :: s' :: l). by f_equal.
Qed.

Lemma words_scope scope :
  Forall (λ s, scope_ok s = true) (scope_list scope) →
  words (scope_text scope) = scope_list scope.
Proof.
  destruct scope as [s|l]; simpl; [|apply words_join].
  intros Hs. apply (words_join [s] Hs).
Qed.

(** C34: a minted ticket opens exactly the endpoints it was minted for.  A ticket minted
    under a secret is verified, from the moment of minting on, by whoever has the same
    secret, until its lifetime is over, for its own audience and any scopes among those it
    carries: then its claims are returned, and a 403 naming the missing scopes if one is
    not among them.  Under another secret, after its lifetime or for another audience it is
    a 401, as is no ticket at all.  Without a secret nothing is minted and nothing
    verified.  The scopes a ticket carries are those given, provided none is empty or has
    white space in it, and the words of their text in any case. *)
Theorem ticket_roundtrip `{!Jwt} `{!JwtLaws} secret issuer py_str now jti audience scope ttl :
  let claims := ticket_claims issuer now jti audience scope ttl in
  let granted := words (scope_text scope) in
  let minted := mint_service_ticket secret issuer now jti audience scope ttl in
  let verified verifier := verify_service_ticket verifier py_str in
  (Forall (λ s, scope_ok s = true) (scope_list scope) → granted = scope_list scope) ∧
  (∀ at_ ticket required aud, verified "" at_ ticket required aud = Raise NotConfigured503) ∧
  (∀ verifier at_ required aud, verifier ≠ "" → verified verifier at_ None required aud = Raise MissingTicket401) ∧
  if decide (secret = "") then minted = Raise ServiceAuthNotConfigured
  else
    ∃ ticket, minted = Ok ticket ∧
      ∀ verifier at_ required aud, verifier ≠ "" → now ≤ at_ →
        verified verifier at_ (Some ticket) required aud =
          if decide (verifier = secret ∧ at_ < now + ttl ∧ aud = audience) then
            let missing := filter (λ s, s ∉ granted) (remove_dups (scope_list required)) in
            if decide (missing = []) then Ok claims
            else Raise (MissingScope403 (order_by_text id missing))
          else Raise InvalidTicket401.
Proof.
  intros claims granted minted verified. split; [apply words_scope|]. split; [done|].
  split; [intros verifier at_ required aud Hv; unfold verified, verify_service_ticket; by rewrite decide_False|].
  unfold minted, mint_service_ticket. destruct (decide (secret = "")) as [Hs|Hs]; [done|].
  exists (jwt_encode claims secret). split; [done|]. intros verifier at_ required aud Hv Hat.
  unfold verified, verify_service_ticket. rewrite (decide_False (P := verifier = "")) by done.
  pose proof (encode_nonempty claims secret) as Hne.
  assert (truthy (Some (jwt_encode claims secret)) = Some (jwt_encode claims secret)) as ->
    by (by destruct (jwt_encode claims secret)).
  destruct (decide (verifier = secret)) as [->|Hsecret].
  2:{ rewrite decode_secret by done. by rewrite decide_False by tauto. }
  destruct (decide (secret = secret ∧ at_ < now + ttl ∧ aud = audience)) as [(_ & Hlive & ->)|Hnot].
  - rewrite decode_encode; [done|]. unfold accepted, claims. simpl. by rewrite !bool_decide_true by (done || lia).
  - destruct (decide (aud = audience)) as [->|Haud].
    + rewrite (decode_expired _ _ _ _ _ (now + ttl)); [done|done|]. destruct (decide (at_ < now + ttl)); [tauto|lia].
    + rewrite (decode_audience _ _ _ _ _ audience); [done|done|congruence].
Qed.

(** ** A concrete library

    Tokens that carry their claims and their secret in the clear, and are decoded
    by the documented checks: an instance of the interface in which its laws
    hold. *)

Module ClearJwt.

Fixpoint pos_bits (p : positive) : string :=
  match p with
  | xH => EmptyString
  | xO p => String "0" (pos_bits p)
  | xI p => String "1" (pos_bits p)
  end.

Fixpoint bits_pos (s : string) : positive :=
  match s with
  | EmptyString => xH
  | String c s => if decide (c = "1"%char) then xI (bits_pos s) else xO (bits_pos s)
  end.

Lemma bits_pos_bits p : bits_pos (pos_bits p) = p.
Proof. induction p as [p IH|p IH|]; simpl; [by rewrite IH|by rewrite IH|done]. Qed.

#[export] Instance clear_jwt : Jwt := {
  jwt_encode claims secret := String "." (pos_bits (encode (claims, secret)));
  jwt_decode now token secret audience :=
    match token with
    | EmptyString => None
    | String _ bits =>
        '(claims, signed) ← decode (A := json_dict * string) (bits_pos bits);
        if decide (signed = secret)
        then if accepted now claims audience then Some claims else None
        else None
    end
}.

#[export] Instance clear_jwt_laws : JwtLaws.
Proof.
  split; intros; simpl; try done; rewrite bits_pos_bits, countable.decode_encode; simpl.
  - by rewrite decide_True, H.
  - case_decide; [|done]. unfold accepted. rewrite H. by rewrite bool_decide_false by lia.
  - case_decide; [|done]. unfold accepted. rewrite H. destruct audience as [a|].
    + rewrite (bool_decide_false (a = b)) by congruence. by rewrite !andb_false_r.
    + by rewrite !andb_false_r.
  - by rewrite decide_False.
Qed.
End ClearJwt.
Import ClearJwt.

Definition sample_claims : json_dict :=
  ticket_claims "self.ai" 100 "j1" "self.ai" (ManyScopes ["vram:report"; "vram:lease"]) 120.

Lemma ticket_roundtrip_witness :
  ∃ ticket,
    mint_service_ticket "k" "self.ai" 100 "j1" "self.ai" (ManyScopes ["vram:report"; "vram:lease"]) 120 =
      Ok ticket ∧
    verify_service_ticket "k" (λ _, "") 219 (Some ticket) (OneScope "vram:lease") "self.ai" =
      Ok sample_claims ∧
    verify_service_ticket "other" (λ _, "") 219 (Some ticket) (OneScope "vram:lease") "self.ai" =
      Raise InvalidTicket401 ∧
    verify_service_ticket "k" (λ _, "") 220 (Some ticket) (OneScope "vram:lease") "self.ai" =
      Raise InvalidTicket401 ∧
    verify_service_ticket "k" (λ _, "") 101 (Some ticket) (OneScope "jobs:read") "self.ai" =
      Raise (MissingScope403 ["jobs:read"]).
Proof.
  pose proof (ticket_roundtrip "k" "self.ai" (λ _, "") 100 "j1" "self.ai"
    (ManyScopes ["vram:report"; "vram:lease"]) 120) as Hround.
  destruct Hround as (_ & _ & _ & ticket & Hmint & Hverify).
  exists ticket. split; [exact Hmint|].
  repeat split; (rewrite Hverify; [vm_compute; reflexivity|done|lia]).
Defined.
