(* ===== verification/Accounts.v ===== *)
(** Accounts: the user, credential and group tables of [models/users.py],
    [models/auths.py] and [models/groups.py].

    A table method is a function of the tables, of whether its database commit
    succeeds ([ok]) and, where it stamps a row, of the clock and the id it mints.
    A commit that fails inside [try] answers [None] or [False]; outside it raises,
    which is [None] here too and is said at the definition. *)

From Stdlib Require Import Ascii.
From S2P Require Import Prelude Data.


(** ** Users *)

Record User := mkUser {
  us_id : string;
  us_name : string;
  us_email : string;
  us_role : string;
  us_profile_image_url : string;
  us_last_active_at : Z;
  us_updated_at : Z;
  us_created_at : Z;
  us_api_key : option string;
  us_settings : option json_dict;
  us_info : option json_dict;
  us_oauth_sub : option string
}.

#[export] Instance User_eta : Eta User := λ u,
  mkUser (us_id u) (us_name u) (us_email u) (us_role u) (us_profile_image_url u)
    (us_last_active_at u) (us_updated_at u) (us_created_at u) (us_api_key u) (us_settings u)
    (us_info u) (us_oauth_sub u).
#[export] Instance User_keyed : Keyed User := us_id.

(** The rows of a query with [OFFSET] and [LIMIT]; a null or zero one is not sent. *)
Definition page {A} (skip limit : option nat) (rows : list A) : list A :=
  let rows := match skip with Some (S n) => drop (S n) rows | _ => rows end in
  match limit with Some (S n) => take (S n) rows | _ => rows end.

Module Users.

Definition new_user (now : Z) (id name email profile_image_url role : string)
    (oauth_sub : option string) : User :=
  mkUser id name email role profile_image_url now now now None None None oauth_sub.

(** [insert_new_user]; a failed commit raises. *)
Definition insert_new_user (ok : bool) now id name email profile_image_url role oauth_sub
    (t : list User) : option User * list User :=
  let u := new_user now id name email profile_image_url role oauth_sub in
  if ok then (Some u, t ++ [u]) else (None, t).

Definition get_user_by_id (id : string) (t : list User) : option User := find_row id t.

(** [filter_by(column=x).first()] *)
Definition first_where (p : User → bool) (t : list User) : option User :=
  head (filter (λ u, p u = true) t).

Definition get_user_by_api_key (api_key : string) : list User → option User :=
  first_where (λ u, bool_decide (us_api_key u = Some api_key)).
Definition get_user_by_email (email : string) : list User → option User :=
  first_where (λ u, bool_decide (us_email u = email)).
Definition get_user_by_oauth_sub (sub : string) : list User → option User :=
  first_where (λ u, bool_decide (us_oauth_sub u = Some sub)).

(** Newest first. *)
Definition get_users (skip limit : option nat) (t : list User) : list User :=
  page skip limit (sort_by (λ u, - us_created_at u) t).

Definition get_users_by_user_ids (ids : list string) (t : list User) : list User :=
  filter (λ u, us_id u ∈ ids) t.

Definition get_num_users (t : list User) : nat := length t.

Definition get_first_user (t : list User) : option User := head (sort_by us_created_at t).

(** One updated column, and the row afterwards. *)
Definition update_user (ok : bool) (id : string) (f : User → User) (t : list User)
    : option User * list User :=
  if ok then (find_row id (update_row id f t), update_row id f t) else (None, t).

Definition update_user_role_by_id (ok : bool) (id role : string) : list User → option User * list User :=
  update_user ok id (λ u, u <| us_role := role |>).
Definition update_user_profile_image_url_by_id (ok : bool) (id url : string)
    : list User → option User * list User :=
  update_user ok id (λ u, u <| us_profile_image_url := url |>).
Definition update_user_last_active_by_id (ok : bool) (now : Z) (id : string)
    : list User → option User * list User :=
  update_user ok id (λ u, u <| us_last_active_at := now |>).
Definition update_user_by_id (ok : bool) (id : string) (updated : User → User)
    : list User → option User * list User :=
  update_user ok id updated.
Definition update_user_oauth_sub_by_id (ok : bool) (now : Z) (id sub : string)
    : list User → option User * list User :=
  update_user ok id (λ u, u <| us_oauth_sub := Some sub |> <| us_updated_at := now |>).

(** [delete_user_by_id], given whether the user's chats could be deleted. *)
Definition delete_user_by_id (chats_deleted ok : bool) (id : string) (t : list User)
    : bool * list User :=
  if chats_deleted && ok then (true, delete_row id t) else (false, t).

(** [True] when exactly one row was updated. *)
Definition update_user_api_key_by_id (ok : bool) (id : string) (api_key : option string) (t : list User)
    : bool * list User :=
  if ok
  then (bool_decide (length (filter (λ u, us_id u = id) t) = 1%nat),
        update_row id (λ u, u <| us_api_key := api_key |>) t)
  else (false, t).

Definition get_user_api_key_by_id (id : string) (t : list User) : option string :=
  find_row id t ≫= us_api_key.

End Users.

(** ** Credentials *)

Record Auth := mkAuth {
  au_id : string;
  au_email : string;
  au_password : string;
  au_active : bool
}.

#[export] Instance Auth_eta : Eta Auth := λ a,
  mkAuth (au_id a) (au_email a) (au_password a) (au_active a).
#[export] Instance Auth_keyed : Keyed Auth := au_id.

Module Auths.

(** [insert_new_auth]: the user's row is committed on its own, before the
    credential's; either commit may fail, which raises. *)
Definition insert_new_auth (user_ok ok : bool) (now : Z)
    (id email password name profile_image_url role : string) (oauth_sub : option string)
    (users : list User) (auths : list Auth) : option User * list User * list Auth :=
  let '(user, users) :=
    Users.insert_new_user user_ok now id name email profile_image_url role oauth_sub users in
  if user_ok && ok then (user, users, auths ++ [mkAuth id email password true])
  else (None, users, auths).

Definition active_auth (email : string) (auths : list Auth) : option Auth :=
  head (filter (λ a, au_email a = email ∧ au_active a = true) auths).

(** [authenticate_user], with [verify_password] as [verify]. *)
Definition authenticate_user (verify : string → string → bool) (email password : string)
    (users : list User) (auths : list Auth) : option User :=
  a ← active_auth email auths;
  if verify password (au_password a) then Users.get_user_by_id (au_id a) users else None.

Definition authenticate_user_by_api_key (api_key : string) (users : list User) : option User :=
  if decide (api_key = "") then None else Users.get_user_by_api_key api_key users.

Definition authenticate_user_by_trusted_header (email : string) (users : list User)
    (auths : list Auth) : option User :=
  a ← active_auth email auths; Users.get_user_by_id (au_id a) users.

Definition update_auth (ok : bool) (id : string) (f : Auth → Auth) (t : list Auth)
    : bool * list Auth :=
  if ok
  then (bool_decide (length (filter (λ a, au_id a = id) t) = 1%nat), update_row id f t)
  else (false, t).

Definition update_user_password_by_id (ok : bool) (id password : string)
    : list Auth → bool * list Auth :=
  update_auth ok id (λ a, a <| au_password := password |>).
Definition update_email_by_id (ok : bool) (id email : string) : list Auth → bool * list Auth :=
  update_auth ok id (λ a, a <| au_email := email |>).

(** [delete_auth_by_id]: the user first, and only then the credential. *)
Definition delete_auth_by_id (chats_deleted user_ok ok : bool) (id : string)
    (users : list User) (auths : list Auth) : bool * list User * list Auth :=
  let '(deleted, users) := Users.delete_user_by_id chats_deleted user_ok id users in
  if deleted && ok then (true, users, delete_row id auths) else (false, users, auths).

End Auths.

(** ** Groups *)

Record Group := mkGroup {
  gr_id : string;
  gr_user_id : string;
  gr_name : string;
  gr_description : string;
  gr_data : option json_dict;
  gr_meta : option json_dict;
  gr_permissions : option json_dict;
  gr_user_ids : list string;
  gr_created_at : Z;
  gr_updated_at : Z
}.

#[export] Instance Group_eta : Eta Group := λ g,
  mkGroup (gr_id g) (gr_user_id g) (gr_name g) (gr_description g) (gr_data g) (gr_meta g)
    (gr_permissions g) (gr_user_ids g) (gr_created_at g) (gr_updated_at g).
#[export] Instance Group_keyed : Keyed Group := gr_id.

(** [GroupUpdateForm]; its [admin_ids] is no column of the table. *)
Record GroupUpdateForm := mkGroupUpdateForm {
  gf_name : string;
  gf_description : string;
  gf_permissions : option json_dict;
  gf_user_ids : option (list string)
}.

Definition backslash : ascii := Ascii.ascii_of_nat 92.

(** The SQL [LIKE] of the two databases the program runs on: SQLite's folds
    ASCII case and has no escape, PostgreSQL's compares bytes and escapes with a
    backslash. *)
Inductive Dialect := SQLite | PostgreSQL.

Definition like_fold (d : Dialect) (c : ascii) : ascii :=
  match d with SQLite => lower_char c | PostgreSQL => c end.

Definition like_escape (d : Dialect) (c : ascii) : bool :=
  match d with SQLite => false | PostgreSQL => bool_decide (c = backslash) end.

Definition like_char (d : Dialect) (c x : ascii) : bool :=
  bool_decide (like_fold d c = like_fold d x).

Fixpoint sql_like (d : Dialect) (p s : string) : bool :=
  match p with
  | EmptyString => bool_decide (s = EmptyString)
  | String c p' =>
      if like_escape d c then
        match p', s with
        | String c' p'', String x s' => like_char d c' x && sql_like d p'' s'
        | _, _ => false
        end
      else if decide (c = "%"%char) then
        (fix skip s :=
           sql_like d p' s || match s with EmptyString => false | String _ s' => skip s' end) s
      else
        match s with
        | EmptyString => false
        | String x s' => (bool_decide (c = "_"%char) || like_char d c x) && sql_like d p' s'
        end
  end.

(** A JSON string of printable ASCII as [json.dumps] writes it. *)
Definition quote : ascii := Ascii.ascii_of_nat 34.

Fixpoint json_escape (s : string) : string :=
  match s with
  | EmptyString => EmptyString
  | String c s' =>
      if decide (c = quote ∨ c = backslash) then String backslash (String c (json_escape s'))
      else String c (json_escape s')
  end.

Definition quoted (s : string) : string := String quote (s +:+ String quote EmptyString).

(** The text of the JSON column [user_ids]. *)
Definition user_ids_text (ids : list string) : string :=
  "[" +:+ join ", " (quoted ∘ json_escape <$> ids) +:+ "]".

Module Groups.

Definition new_group (now : Z) (id user_id name description : string) : Group :=
  mkGroup id user_id name description None None None [] now now.

Definition insert_new_group (ok : bool) (now : Z) (id user_id name description : string)
    (t : list Group) : option Group * list Group :=
  let g := new_group now id user_id name description in
  if ok then (Some g, t ++ [g]) else (None, t).

Definition latest_first (t : list Group) : list Group := sort_by (λ g, - gr_updated_at g) t.

Definition get_groups (t : list Group) : list Group := latest_first t.

(** The membership test runs on the text of the JSON column. *)
Definition has_member (d : Dialect) (user_id : string) (g : Group) : bool :=
  bool_decide (gr_user_ids g ≠ []) &&
  sql_like d ("%" +:+ quoted user_id +:+ "%") (user_ids_text (gr_user_ids g)).

Definition get_groups_by_member_id (d : Dialect) (user_id : string) (t : list Group)
    : list Group :=
  latest_first (filter (λ g, has_member d user_id g = true) t).

Definition get_group_by_id (id : string) (t : list Group) : option Group := find_row id t.

Definition get_group_user_ids_by_id (id : string) (t : list Group) : option (list string) :=
  gr_user_ids <$> find_row id t.

(** [model_dump(exclude_none=True)], less what is no column. *)
Definition updated_row (now : Z) (form : GroupUpdateForm) (g : Group) : Group := Eval simpl in
  g <| gr_name := gf_name form |> <| gr_description := gf_description form |>
    <| gr_permissions := match gf_permissions form with
                         | Some p => Some p | None => gr_permissions g end |>
    <| gr_user_ids := default (gr_user_ids g) (gf_user_ids form) |>
    <| gr_updated_at := now |>.

Definition update_group_by_id (ok : bool) (now : Z) (id : string) (form : GroupUpdateForm)
    (t : list Group) : option Group * list Group :=
  if ok
  then (find_row id (update_row id (updated_row now form) t),
        update_row id (updated_row now form) t)
  else (None, t).

Definition delete_group_by_id (ok : bool) (id : string) (t : list Group) : bool * list Group :=
  if ok then (true, delete_row id t) else (false, t).

Definition delete_all_groups (ok : bool) (t : list Group) : bool * list Group :=
  if ok then (true, []) else (false, t).

End Groups.
