(* ===== verification/Session.v ===== *)
(** Who is calling: the credentials of a request, [utils/auth.py].

    The evaluation tokens are the in-memory dict behind its lock; [jwt] is the
    interface of [Tickets], [bcrypt.checkpw] a parameter. *)

From Stdlib Require Import Ascii.
From stdpp Require Import gmap.
From S2P Require Import Prelude Data Accounts Tickets.

(** ** Evaluation tokens *)

Record EvalInfo := mkEvalInfo {
  ei_user_id : string;
  ei_job_id : string;
  ei_eval_type : string;
  ei_created_at : Z
}.

Abbreviation eval_tokens := (gmap string EvalInfo).

(** [hex] is the first sixteen digits of a [uuid4]. *)
Definition create_eval_token (now : Z) (hex user_id job_id eval_type : string) (store : eval_tokens)
    : string * eval_tokens :=
  let token := "eval-" +:+ hex in
  (token, <[token := mkEvalInfo user_id job_id eval_type now]> store).

Definition revoke_eval_token (token : string) (store : eval_tokens) : eval_tokens :=
  delete token store.

Definition revoke_eval_tokens_for_job (job_id : string) (store : eval_tokens) : eval_tokens :=
  filter (λ kv, ei_job_id kv.2 ≠ job_id) store.

Definition get_eval_token_info (token : string) (store : eval_tokens) : option EvalInfo :=
  store !! token.

(** ** Passwords *)

Definition BCRYPT_MAX_BYTES : nat := 72.

(** [password.encode()[:72]]; text is bytes already. *)
Definition _bcrypt_bytes (password : string) : string := String.substring 0 BCRYPT_MAX_BYTES password.

Definition radix64_char (c : ascii) : bool :=
  let n := nat_of_ascii c in
  bool_decide ((46 ≤ n ≤ 57)%nat ∨ (65 ≤ n ≤ 90)%nat ∨ (97 ≤ n ≤ 122)%nat).

Definition is_digit (c : ascii) : bool :=
  let n := nat_of_ascii c in bool_decide ((48 ≤ n ≤ 57)%nat).

(** [_BCRYPT_HASH_RE.match]: the [$] at its end also matches before a final line
    feed. *)
Definition bcrypt_hash_shape (s : string) : bool :=
  match s with
  | String d1 (String two (String v (String d2 (String c1 (String c2 (String d3 rest)))))) =>
      bool_decide (d1 = "$"%char ∧ two = "2"%char ∧ v ∈ ["a"%char; "b"%char; "x"%char; "y"%char] ∧
        d2 = "$"%char ∧ d3 = "$"%char) &&
      is_digit c1 && is_digit c2 &&
      let body := String.substring 0 53 rest in
      bool_decide (String.length body = 53%nat) && all_chars radix64_char body &&
      (bool_decide (rest = body) || bool_decide (rest = body +:+ String newline EmptyString))
  | _ => false
  end.

Section session.
Context `{!Jwt} (SESSION_SECRET : string) (checkpw : string → string → option bool).

(** [verify_password] as a truth value; [checkpw] answers [None] when it raises. *)
Definition verify_password (plain hashed : string) : bool :=
  if decide (hashed = "") then false
  else if bcrypt_hash_shape hashed then default false (checkpw (_bcrypt_bytes plain) hashed)
  else false.

(** ** Session tokens *)

(** [expires_delta] in seconds; a zero one is no expiry. *)
Definition create_token (now : Z) (data : json_dict) (expires_delta : option Z) : string :=
  let payload :=
    match expires_delta with
    | Some (Z0) | None => data
    | Some delta => dict_set "exp" (JInt (now + delta)) data
    end in
  jwt_encode payload SESSION_SECRET.

Definition decode_token (now : Z) (token : string) : option json_dict :=
  jwt_decode now token SESSION_SECRET None.

(** ** Requests *)

Record Request := mkRequest {
  rq_bearer : option string;          (* the Authorization header's credentials *)
  rq_cookie : option string;          (* request.cookies["token"] *)
  rq_x_api_key : option string;
  rq_path : string;
  rq_enable_api_key : bool;
  rq_restrict_endpoints : bool;       (* ENABLE_API_KEY_ENDPOINT_RESTRICTIONS *)
  rq_allowed_endpoints : string       (* API_KEY_ALLOWED_ENDPOINTS *)
}.

Inductive AuthError :=
| NotAuthenticated403
| EvalTokenInvalid401
| InvalidToken401
| ApiKeyNotAllowed403
| Unauthorized401
| AccessProhibited401.

(** The user, and the evaluation job the request is for. *)
Record Session := mkSession {
  se_user : User;
  se_eval : option (string * string)
}.

Definition entry_allows (path entry : string) : bool :=
  if ends_with "/*" entry
  then starts_with (String.substring 0 (String.length entry - 1) entry) path
  else bool_decide (path = entry).

Definition _path_is_allowed (path : string) (allowed_paths : list string) : bool :=
  existsb (entry_allows path) allowed_paths.

Definition allowed_paths (endpoints : string) : list string :=
  strip <$> split_on ","%char endpoints.

(** The credential of a request: header, then cookie, then [x-api-key]. *)
Definition credential (r : Request) : option string :=
  match rq_bearer r with
  | Some t => Some t
  | None => match rq_cookie r with Some t => Some t | None => rq_x_api_key r end
  end.

(** A stored user, whose last activity is stamped. *)
Definition touching (ok : bool) (now : Z) (user : option User) (users : list User)
    : result AuthError Session * list User :=
  match user with
  | None => (Raise InvalidToken401, users)
  | Some u =>
      (Ok (mkSession u None), (Users.update_user_last_active_by_id ok now (us_id u) users).2)
  end.

Definition get_current_user_by_api_key (ok : bool) (now : Z) (api_key : string) (users : list User)
    : result AuthError Session * list User :=
  touching ok now (Users.get_user_by_api_key api_key users) users.

Definition get_current_user (ok : bool) (now : Z) (r : Request) (store : eval_tokens)
    (users : list User) : result AuthError Session * list User :=
  match credential r with
  | None => (Raise NotAuthenticated403, users)
  | Some token =>
      if starts_with "eval-" token then
        match get_eval_token_info token store with
        | None => (Raise EvalTokenInvalid401, users)
        | Some info =>
            match Users.get_user_by_id (ei_user_id info) users with
            | None => (Raise InvalidToken401, users)
            | Some u => (Ok (mkSession u (Some (ei_job_id info, ei_eval_type info))), users)
            end
        end
      else if starts_with "sk-" token then
        if negb (rq_enable_api_key r) then (Raise ApiKeyNotAllowed403, users)
        else if rq_restrict_endpoints r &&
                negb (_path_is_allowed (rq_path r) (allowed_paths (rq_allowed_endpoints r)))
        then (Raise ApiKeyNotAllowed403, users)
        else get_current_user_by_api_key ok now token users
      else
        match decode_token now token ≫= dict_lookup "id" with
        | None => (Raise Unauthorized401, users)
        | Some id =>
            touching ok now
              (match id with JStr id => Users.get_user_by_id id users | _ => None end) users
        end
  end.

Definition get_verified_user (s : Session) : result AuthError Session :=
  if decide (us_role (se_user s) ∈ ["user"; "admin"]) then Ok s else Raise AccessProhibited401.

Definition get_admin_user (s : Session) : result AuthError Session :=
  if decide (us_role (se_user s) = "admin") then Ok s else Raise AccessProhibited401.
End session.
