(* ===== verification/AccessControl.v ===== *)
(** Permissions and resource access, [utils/access_control.py] and
    [browse/access_control.py], over the user and group tables. *)

From Stdlib Require Import Ascii.
From S2P Require Import Prelude Data Accounts.

(** ** Permissions *)

Definition new_name : string := "studio".
Definition old_name : string := "workspace".

(** [fold_renamed_group] of a blob that is a dict. *)
Definition fold_renamed_group (permissions : json_dict) : json_dict :=
  match dict_lookup old_name permissions with
  | None => permissions
  | Some old =>
      let folded := filter (λ kv, kv.1 ≠ old_name) permissions in
      if has_key new_name folded then folded else folded ++ [(new_name, old)]
  end.

Inductive PyError := TypeError | AttributeError.

(** What the loop of [combine_permissions] leaves under a key that holds
    [existing] in [permissions] and [value] in the group's blob. *)
Fixpoint merge_value (value : Json) (existing : option Json) : result PyError Json :=
  match value with
  | JDict items =>
      (fix go items permissions :=
         match items with
         | [] => Ok permissions
         | (key, x) :: rest =>
             match permissions with
             | JDict d =>
                 match merge_value x (dict_lookup key d) with
                 | Ok y => go rest (JDict (dict_set key y d))
                 | Raise e => Raise e
                 end
             | _ => Raise TypeError
             end
         end) items (default (JDict []) existing)
  | leaf =>
      match existing with
      | None => Ok leaf
      | Some e => Ok (if json_truthy e then e else leaf)
      end
  end.

Definition combine_permissions (permissions : Json) (group_permissions : json_dict)
    : result PyError Json :=
  merge_value (JDict group_permissions) (Some permissions).

(** One turn of the loop over the user's groups; a null blob has no [items]. *)
Definition combine_group (acc : result PyError Json) (g : Group) : result PyError Json :=
  match acc with
  | Raise e => Raise e
  | Ok permissions =>
      match gr_permissions g with
      | None => Raise AttributeError
      | Some blob => combine_permissions permissions (fold_renamed_group blob)
      end
  end.

(** [get_permissions]: the object the client reads. *)
Definition get_permissions (dialect : Dialect) (groups : list Group) (user_id : string)
    (default_permissions : json_dict) : result PyError Json :=
  foldl combine_group (Ok (JDict default_permissions))
    (Groups.get_groups_by_member_id dialect user_id groups).

(** [get_permission]: down the path, and the truth value at its end. *)
Fixpoint get_permission (permissions : Json) (keys : list string) : bool :=
  match keys with
  | [] => json_truthy permissions
  | key :: rest =>
      match permissions with
      | JDict d =>
          match dict_lookup key d with
          | Some p => get_permission p rest
          | None => false
          end
      | _ => false
      end
  end.

(** [_resolve_permission]: once more under the pre-rename name. *)
Definition _resolve_permission (permissions : Json) (path : list string) : bool :=
  match path, permissions with
  | first :: rest, JDict d =>
      if decide (first = new_name) then
        if negb (has_key new_name d) && has_key old_name d
        then get_permission permissions (old_name :: rest)
        else get_permission permissions path
      else get_permission permissions path
  | _, _ => get_permission permissions path
  end.

Definition blob_of (permissions : option json_dict) : Json :=
  match permissions with Some d => JDict d | None => JNull end.

(** [has_permission]: the gate of the server. *)
Definition has_permission (dialect : Dialect) (groups : list Group) (user_id permission_key : string)
    (default_permissions : json_dict) : bool :=
  let path := split_on "."%char permission_key in
  existsb (λ g, _resolve_permission (blob_of (gr_permissions g)) path)
    (Groups.get_groups_by_member_id dialect user_id groups)
  || _resolve_permission (JDict default_permissions) path.

(** ** Access to resources *)

(** [access_control.get(type, {})] and the two lists of the rule; [None] when the
    rule is no dict. *)
Definition access_rule (access_control : json_dict) (type : string) : option (Json * Json) :=
  match dict_lookup type access_control with
  | None => Some (JList [], JList [])
  | Some (JDict rule) =>
      Some (default (JList []) (dict_lookup "group_ids" rule),
            default (JList []) (dict_lookup "user_ids" rule))
  | Some _ => None
  end.

(** [any(id in permitted for id in ids)] *)
Fixpoint any_in (ids : list string) (permitted : Json) : option bool :=
  match ids with
  | [] => Some false
  | id :: rest =>
      b ← py_in id permitted;
      if b : bool then Some true else any_in rest permitted
  end.

(** [has_access]; [None] when the access control has a shape the code raises on. *)
Definition has_access (dialect : Dialect) (groups : list Group) (user_id type : string)
    (access_control : option json_dict) : option bool :=
  match access_control with
  | None => Some (bool_decide (type = "read"))
  | Some ac =>
      let ids := gr_id <$> Groups.get_groups_by_member_id dialect user_id groups in
      '(group_ids, user_ids) ← access_rule ac type;
      b ← py_in user_id user_ids;
      if b : bool then Some true else any_in ids group_ids
  end.

(** ** The gates of the routers *)

(** [user.role == "admin" or has_permission(user.id, permission, USER_PERMISSIONS)] *)
Definition may (dialect : Dialect) (groups : list Group) (USER_PERMISSIONS : json_dict) (user : User)
    (permission : string) : bool :=
  bool_decide (us_role user = "admin") || has_permission dialect groups (us_id user) permission USER_PERMISSIONS.

(** [user.role == "admin" or row.user_id == user.id or has_access(user.id, type,
    row.access_control)]; [None] as in [has_access]. *)
Definition allowed (dialect : Dialect) (groups : list Group) (user : User) (type owner : string)
    (access_control : option json_dict) : option bool :=
  if decide (us_role user = "admin") then Some true
  else if decide (owner = us_id user) then Some true
  else has_access dialect groups (us_id user) type access_control.

(** The rows a listing keeps; [None] when the gate raises on one. *)
Fixpoint those_allowed {A} (gate : A → option bool) (l : list A) : option (list A) :=
  match l with
  | [] => Some []
  | a :: l' =>
      ok ← gate a;
      rest ← those_allowed gate l';
      Some (if ok : bool then a :: rest else rest)
  end.

(** The ids among JSON values; no row has any other for a key. *)
Definition strings_of (l : list Json) : list string := omap (λ j, json_str (Some j)) l.

(** [set(l)]; [None] is the [TypeError] of an unhashable element. *)
Definition py_set (l : list Json) : option (list Json) :=
  if existsb (λ j, match j with JList _ | JDict _ => true | _ => false end) l
  then None else Some l.

Definition get_users_with_access (users : list User) (groups : list Group) (type : string)
    (access_control : option json_dict) : option (list User) :=
  match access_control with
  | None => Some (Users.get_users None None users)
  | Some ac =>
      '(group_ids, user_ids) ← access_rule ac type;
      permitted ← py_iter user_ids;
      permitted ← py_set permitted;
      group_ids ← py_iter group_ids;
      let members :=
        strings_of group_ids ≫= λ id, default [] (Groups.get_group_user_ids_by_id id groups) in
      Some (Users.get_users_by_user_ids (strings_of permitted ++ members) users)
  end.

(** ** Browsing *)

Definition BROWSING_PERMISSION_KEY : string := "features.web_browsing".

Definition has_browsing_access (dialect : Dialect) (groups : list Group) (user : User)
    (user_permissions : json_dict) : bool :=
  if decide (us_role user = "admin") then true
  else has_permission dialect groups (us_id user) BROWSING_PERMISSION_KEY user_permissions.

(** The [HTTPException] is its status code. *)
Definition check_browsing_access (dialect : Dialect) (groups : list Group) (user : User)
    (user_permissions : json_dict) : result Z unit :=
  if has_browsing_access dialect groups user user_permissions then Ok tt else Raise 401.

(** ** The migration of stored blobs, [3f7eff4c5814] *)

(** [_rekey]: nothing to do without the source key; the target wins. *)
Definition _rekey (blob : json_dict) (source target : string) : option json_dict :=
  match dict_lookup source blob with
  | None => None
  | Some stale =>
      let updated := filter (λ kv, kv.1 ≠ source) blob in
      Some (if has_key target updated then updated else updated ++ [(target, stale)])
  end.

(** [_migrate]: the rows are read once, then updated one by one. *)
Definition migrate_row (source target : string) (t : list Group) (row : Group) : list Group :=
  match gr_permissions row ≫= λ blob, _rekey blob source target with
  | None => t
  | Some updated => update_row (gr_id row) (λ g, g <| gr_permissions := Some updated |>) t
  end.

Definition _migrate (source target : string) (groups : list Group) : list Group :=
  foldl (migrate_row source target) groups groups.

Definition upgrade : list Group → list Group := _migrate old_name new_name.
Definition downgrade : list Group → list Group := _migrate new_name old_name.
