(* ===== verification/SessionContract.v ===== *)
(** The contract of a request's credentials: a session is always grounded in a
    stored user and a live credential, a session token works until it expires, and
    an evaluation token until it is revoked. *)

From Stdlib Require Import Ascii.
From stdpp Require Import gmap.
From S2P Require Import Prelude Data Accounts Tickets Session.

Section session.
Context `{!Jwt} (SESSION_SECRET : string).
Implicit Types (users : list User) (store : eval_tokens) (r : Request).

Lemma first_where_Some p users u : Users.first_where p users = Some u → u ∈ users ∧ p u = true.
Proof.
  intros Hu. apply head_Some_elem_of in Hu. by apply list_elem_of_filter in Hu as [? ?].
Qed.

(** What a request authenticates by. *)
Inductive grounded (now : Z) r store : string → User → option (string * string) → Prop :=
| by_eval_token token u info :
    starts_with "eval-" token = true → store !! token = Some info → ei_user_id info = us_id u →
    grounded now r store token u (Some (ei_job_id info, ei_eval_type info))
| by_api_key token u :
    starts_with "sk-" token = true → rq_enable_api_key r = true →
    (rq_restrict_endpoints r = true →
       ∃ entry, entry ∈ allowed_paths (rq_allowed_endpoints r) ∧
         entry_allows (rq_path r) entry = true) →
    us_api_key u = Some token →
    grounded now r store token u None
| by_session_token token u claims :
    starts_with "eval-" token = false → starts_with "sk-" token = false →
    decode_token SESSION_SECRET now token = Some claims →
    dict_lookup "id" claims = Some (JStr (us_id u)) →
    grounded now r store token u None.

(** C33: authentication is grounded.  A request that is let through carries, in the
    order header, cookie, [x-api-key], a credential of a stored user: a live
    evaluation token issued for that user, that user's own API key with API keys
    enabled and the path allowed, or a session token naming the user; at most the
    user's last activity is stamped.  A request that is refused changes nothing. *)
Theorem authentication_is_grounded ok now r store users :
  match get_current_user SESSION_SECRET ok now r store users with
  | (Ok s, users') =>
      se_user s ∈ users ∧
      (∃ token, credential r = Some token ∧ grounded now r store token (se_user s) (se_eval s)) ∧
      (users' = users ∨
       users' = update_row (us_id (se_user s)) (λ u, u <| us_last_active_at := now |>) users)
  | (Raise _, users') => users' = users
  end.
Proof.
  unfold get_current_user, get_current_user_by_api_key.
  destruct (credential r) as [token|] eqn:Hcred; [|done].
  assert (∀ u, (Users.update_user_last_active_by_id ok now (us_id u) users).2 = users ∨
    (Users.update_user_last_active_by_id ok now (us_id u) users).2 =
      update_row (us_id u) (λ u, u <| us_last_active_at := now |>) users) as Htouch
    by (intros u; destruct ok; [by right|by left]).
  destruct (starts_with "eval-" token) eqn:Heval.
  { unfold get_eval_token_info. destruct (store !! token) as [info|] eqn:Hinfo; [|done].
    unfold Users.get_user_by_id. destruct (find_row _ users) as [u|] eqn:Hu; [|done].
    apply find_row_Some in Hu as [Hin Hid]. simpl. split_and!; [done| |by left].
    exists token. split; [done|]. by apply by_eval_token. }
  destruct (starts_with "sk-" token) eqn:Hsk.
  { destruct (rq_enable_api_key r) eqn:Hen; [|done].
    destruct (rq_restrict_endpoints r && _) eqn:Hrestrict; [done|].
    unfold touching. destruct (Users.get_user_by_api_key token users) as [u|] eqn:Hu; [|done].
    apply first_where_Some in Hu as [Hin Hkey]. apply bool_decide_eq_true in Hkey.
    simpl. split_and!; [done| |apply Htouch]. exists token. split; [done|].
    apply by_api_key; [done..| |done]. intros Hr. rewrite Hr in Hrestrict.
    apply negb_false_iff, existsb_exists in Hrestrict as (entry & Hentry & Hallow).
    exists entry. split; [|done]. by apply list_elem_of_In. }
  destruct (decode_token SESSION_SECRET now token) as [claims|] eqn:Hdec; [|done]. simpl.
  destruct (dict_lookup "id" claims) as [[| | | |id| |]|] eqn:Hid; try done.
  unfold touching, Users.get_user_by_id. destruct (find_row id users) as [u|] eqn:Hu; [|done].
  apply find_row_Some in Hu as [Hin Hkey]. simpl. split_and!; [done| |apply Htouch].
  exists token. split; [done|]. apply by_session_token with claims; [done..|].
  unfold row_key, User_keyed in Hkey. by rewrite Hkey.
Qed.

Context `{!JwtLaws}.

Definition session_expired (now : Z) (delta : option Z) (at_ : Z) : bool :=
  match delta with None | Some 0 => false | Some d => bool_decide (now + d ≤ at_) end.

(** A session token signs its user in, whatever the API-key settings, until it
    expires and no longer; one without an expiry never stops, and one whose user
    has been deleted is refused. *)
Theorem session_token_roundtrip ok now delta id r store users :
  rq_bearer r = Some (create_token SESSION_SECRET now [("id", JStr id)] delta) →
  ∀ at_, now ≤ at_ →
    (get_current_user SESSION_SECRET ok at_ r store users).1 =
      if session_expired now delta at_
      then Raise Unauthorized401
      else match find_row id users with
           | Some u => Ok (mkSession u None)
           | None => Raise InvalidToken401
           end.
Proof.
  intros Hr at_ Hat. unfold get_current_user, credential. rewrite Hr. unfold create_token, decode_token.
  set (payload := match delta with Some 0 | None => _ | Some _ => _ end).
  destruct (encode_header payload SESSION_SECRET) as [-> ->].
  assert (accepted at_ payload None = match delta with
    | None | Some 0 => true | Some d => bool_decide (at_ < now + d) end) as Hacc.
  { unfold payload, accepted. destruct delta as [[|d|d]|]; simpl; try done.
    all: by rewrite !andb_true_r. }
  assert (dict_lookup "id" payload = Some (JStr id)) as Hid
    by (unfold payload; by destruct delta as [[|d|d]|]).
  assert (accepted at_ payload None = true →
    (match jwt_decode at_ (jwt_encode payload SESSION_SECRET) SESSION_SECRET None ≫= dict_lookup "id" with
     | None => (Raise Unauthorized401, users)
     | Some id => touching ok at_
         (match id with JStr id => Users.get_user_by_id id users | _ => None end) users
     end).1 = match find_row id users with Some u => Ok (mkSession u None) | None => Raise InvalidToken401 end)
    as Hlive.
  { intros Ha. rewrite decode_encode by done. simpl. rewrite Hid.
    unfold touching, Users.get_user_by_id. by destruct (find_row id users). }
  destruct (session_expired now delta at_) eqn:Hexp; unfold session_expired in Hexp.
  - destruct delta as [[|d|d]|]; try done.
    all: apply bool_decide_eq_true in Hexp; unfold payload; by erewrite decode_expired.
  - apply Hlive. rewrite Hacc. destruct delta as [[|d|d]|]; try done.
    all: apply bool_decide_eq_false in Hexp; apply bool_decide_eq_true; lia.
Qed.
End session.

(** ** Evaluation tokens *)

Inductive EvalOp :=
| OpCreate (now : Z) (hex user_id job_id eval_type : string)
| OpRevoke (token : string)
| OpRevokeJob (job_id : string).

Definition eval_op (store : eval_tokens) (op : EvalOp) : eval_tokens :=
  match op with
  | OpCreate now hex user_id job_id eval_type =>
      (create_eval_token now hex user_id job_id eval_type store).2
  | OpRevoke token => revoke_eval_token token store
  | OpRevokeJob job_id => revoke_eval_tokens_for_job job_id store
  end.

(** The operations that end a token, or issue it again. *)
Definition ends_token (token : string) (info : EvalInfo) (op : EvalOp) : Prop :=
  match op with
  | OpCreate _ hex _ _ _ => token = "eval-" +:+ hex
  | OpRevoke t => t = token
  | OpRevokeJob job_id => job_id = ei_job_id info
  end.

(** After any sequence of issues and revocations a token is known exactly when
    it was issued and neither it nor the tokens of its job were revoked since. *)
Theorem eval_token_lifetime ops token info :
  get_eval_token_info token (foldl eval_op ∅ ops) = Some info ↔
    ∃ before now hex after,
      ops = before ++ OpCreate now hex (ei_user_id info) (ei_job_id info) (ei_eval_type info) :: after ∧
      token = "eval-" +:+ hex ∧ ei_created_at info = now ∧
      ∀ op, op ∈ after → ¬ ends_token token info op.
Proof.
  unfold get_eval_token_info. induction ops as [|op ops IH] using rev_ind.
  { simpl. rewrite lookup_empty. split; [done|]. intros (before & ? & ? & ? & Hnil & _).
    by destruct before. }
  rewrite foldl_app. simpl.
  assert (∀ store, eval_op store op !! token = Some info ↔
    (store !! token = Some info ∧ ¬ ends_token token info op) ∨
    (∃ hex, op = OpCreate (ei_created_at info) hex (ei_user_id info) (ei_job_id info) (ei_eval_type info) ∧
       token = "eval-" +:+ hex)) as Hop.
  { intros store. destruct op as [now hex u j ty|t|j]; simpl.
    - rewrite lookup_insert. case_decide as Ht.
      + split; [intros [= <-]; right; by exists hex|]. intros [[_ []]|(hex' & Heq & _)]; [by symmetry|].
        injection Heq as -> -> -> -> ->. by destruct info.
      + split; [intros ?; left; split; [done|by intros ->]|].
        intros [[? _]|(hex' & Heq & Htok)]; [done|]. injection Heq as -> -> -> -> ->. by subst.
    - unfold revoke_eval_token. rewrite lookup_delete_Some. naive_solver.
    - unfold revoke_eval_tokens_for_job. rewrite map_lookup_filter_Some. simpl. naive_solver. }
  rewrite Hop, IH. split.
  - intros [[(before & now & hex & after & -> & Ht & Hn & Hafter) Hend]|(hex & -> & Ht)].
    + exists before, now, hex, (after ++ [op]). split_and!; [by rewrite <- app_assoc|done..|].
      intros op' Hin. apply elem_of_app in Hin as [Hin|Hin]; [by apply Hafter|].
      by apply list_elem_of_singleton in Hin as ->.
    + exists ops, (ei_created_at info), hex, []. split_and!; try done.
      intros op' Hin. by apply not_elem_of_nil in Hin.
  - intros (before & now & hex & after & Heq & Ht & Hn & Hafter).
    destruct after as [|op' after _] using rev_ind.
    + apply app_inj_tail in Heq as [-> ->]. right. exists hex. by rewrite Hn.
    + rewrite app_comm_cons, app_assoc in Heq. apply app_inj_tail in Heq as [-> ->].
      left. split; [|apply Hafter, elem_of_app; right; left].
      exists before, now, hex, after. split_and!; try done.
      intros op Hin. apply Hafter, elem_of_app. by left.
Qed.
