(* ===== verification/SignIn.v ===== *)
(** Accounts coming and going: the sign-in, sign-up and API-key endpoints of
    [routers/auths.py] and the OIDC callback of [utils/oauth.py].

    An endpoint is a program over a [Site]: the account tables, the one setting it
    changes ([ENABLE_SIGNUP]), the clock, the outcomes of the coming commits and
    the webhooks posted.  The directory (LDAP) and the identity provider enter as
    what they answered. *)

From Stdlib Require Import Ascii.
From stdpp Require Import gmap.
From S2P Require Import Prelude Data Accounts Tickets Session AccessControl.

(** ** Settings and state *)

Record OAuthConfig := mkOAuthConfig {
  oc_enable_signup : bool;
  oc_merge_by_email : bool;
  oc_email_claim : string;
  oc_username_claim : string;
  oc_picture_claim : string;
  oc_allowed_domains : list string;
  oc_role_management : bool;
  oc_roles_claim : string;
  oc_allowed_roles : list string;
  oc_admin_roles : list string;
  oc_group_management : bool;
  oc_groups_claim : string
}.

Record SiteConfig := mkSiteConfig {
  sc_webui_auth : bool;                    (* WEBUI_AUTH *)
  sc_enable_login_form : bool;
  sc_default_user_role : string;
  sc_jwt_expires_in : option Z;            (* parse_duration(JWT_EXPIRES_IN), in seconds *)
  sc_user_permissions : json_dict;         (* USER_PERMISSIONS *)
  sc_enable_api_key : bool;
  sc_webhook_url : string;
  sc_trusted_email_header : bool;          (* WEBUI_AUTH_TRUSTED_EMAIL_HEADER is set *)
  sc_oauth : OAuthConfig
}.

Record Site := mkSite {
  st_users : list User;
  st_auths : list Auth;
  st_groups : list Group;
  st_enable_signup : bool;                 (* ENABLE_SIGNUP *)
  st_now : Z;
  st_minted : nat;                         (* uuid4s and salts drawn *)
  st_commits : list bool;
  st_webhooks : list string;
  st_meanwhile : list (list (User * Auth)) (* accounts others create at the coming awaits *)
}.

#[export] Instance Site_eta : Eta Site := λ s,
  mkSite (st_users s) (st_auths s) (st_groups s) (st_enable_signup s) (st_now s) (st_minted s)
    (st_commits s) (st_webhooks s) (st_meanwhile s).

Inductive SignInError :=
| AccessProhibited403
| InvalidEmailFormat400
| EmailTaken400
| CreateUserError500
| InvalidCred400
| InvalidTrustedHeader400
| ExistingUsers400
| ActionProhibited400
| InvalidPassword400
| UpdateFailed400
| ApiKeyCreationNotAllowed403
| CreateApiKeyError500
| ApiKeyNotFound404
| Ldap400
| InternalError500.

Abbreviation endpoint A := (prog Site SignInError A).

Record SignupForm := mkSignupForm {
  sf_name : string;
  sf_email : string;
  sf_password : string;
  sf_profile_image_url : string
}.

(** [SessionUserResponse], less the copies of the user's columns. *)
Record SessionUser := mkSessionUser {
  su_token : string;
  su_expires_at : option Z;
  su_user : User;
  su_permissions : Json
}.

(** [validate_email_format]: [\[^@\]+@\[^@\]+\.\[^@\]+] at the start of the text. *)
Fixpoint dot_within (seen : bool) (s : string) : bool :=
  match s with
  | EmptyString => false
  | String c s' =>
      if decide (c = "@"%char) then false
      else if seen && bool_decide (c = "."%char)
           then match s' with
                | String c' _ => bool_decide (c' ≠ "@"%char) || dot_within true s'
                | EmptyString => false
                end
           else dot_within true s'
  end.

Definition validate_email_format (email : string) : bool :=
  ends_with "@localhost" email ||
  match partition_at "@"%char email with
  | Some (local, domain) => bool_decide (local ≠ "") && dot_within false domain
  | None => false
  end.

Section sign_in.
Context `{!Jwt} (SESSION_SECRET : string).
Context (checkpw : string → string → option bool) (hashpw : nat → string → string).
Context (uuid4 : nat → string) (dialect : Dialect) (cfg : SiteConfig).

Definition next_commit : endpoint bool := λ s,
  match st_commits s with
  | [] => (Ok true, s)
  | b :: rest => (Ok b, s <| st_commits := rest |>)
  end.

Definition fresh : endpoint nat := λ s, (Ok (st_minted s), s <| st_minted := S (st_minted s) |>).

(** [try: m except Exception: raise e] *)
Definition or_else {A} (m : endpoint A) (e : SignInError) : endpoint A := λ s,
  match m s with
  | (Raise _, s') => (Raise e, s')
  | r => r
  end.

Definition user_by_email (email : string) : endpoint (option User) :=
  gets (λ s, Users.get_user_by_email email (st_users s)).

Definition get_password_hash (password : string) : endpoint string :=
  salt ← fresh; mret (hashpw salt (_bcrypt_bytes password)).

(** [Auths.insert_new_auth]; it raises when either commit fails. *)
Definition insert_new_auth (email password name profile_image_url role : string)
    (oauth_sub : option string) : endpoint User :=
  n ← fresh;
  user_ok ← next_commit;
  ok ← (if user_ok : bool then next_commit else mret false);
  now ← gets st_now;
  row ← (λ s,
    let '(user, users, auths) :=
      Auths.insert_new_auth user_ok ok now (uuid4 n) email password name profile_image_url role
        oauth_sub (st_users s) (st_auths s) in
    (Ok user, s <| st_users := users |> <| st_auths := auths |>));
  match row with
  | Some user => mret user
  | None => raise InternalError500
  end.

(** The token and the permissions of the response to a sign-in. *)
Definition session_for (user : User) : endpoint SessionUser :=
  s ← gets id;
  let expires_at :=
    match sc_jwt_expires_in cfg with
    | None | Some 0 => None
    | Some delta => Some (st_now s + delta)
    end in
  match get_permissions dialect (st_groups s) (us_id user) (sc_user_permissions cfg) with
  | Ok permissions =>
      mret (mkSessionUser
        (create_token SESSION_SECRET (st_now s) [("id", JStr (us_id user))] (sc_jwt_expires_in cfg))
        expires_at user permissions)
  | Raise _ => raise InternalError500
  end.

Definition get_session_user (user : User) : endpoint SessionUser := session_for user.

Definition post_webhook (user : User) : endpoint unit :=
  if decide (sc_webhook_url cfg = "") then mret tt
  else modify (λ s, s <| st_webhooks := st_webhooks s ++ [us_name user] |>).

Definition role_for_newcomer : endpoint string :=
  s ← gets id;
  mret (if decide (st_users s = []) then "admin" else sc_default_user_role cfg).

Definition signup (form : SignupForm) : endpoint SessionUser :=
  s ← gets id;
  if (if sc_webui_auth cfg
      then negb (st_enable_signup s) || negb (sc_enable_login_form cfg)
      else bool_decide (st_users s ≠ []))
  then raise AccessProhibited403
  else if negb (validate_email_format (lower (sf_email form))) then raise InvalidEmailFormat400
  else
    taken ← user_by_email (lower (sf_email form));
    match taken with
    | Some _ => raise EmailTaken400
    | None =>
        or_else
          (role ← role_for_newcomer;
           modify (λ s, if decide (st_users s = []) then s <| st_enable_signup := false |> else s);;
           hashed ← get_password_hash (sf_password form);
           user ← insert_new_auth (lower (sf_email form)) hashed (sf_name form)
                    (sf_profile_image_url form) role None;
           post_webhook user;;
           session_for user) CreateUserError500
    end.

Definition authenticate_user (email password : string) : endpoint (option User) :=
  gets (λ s, Auths.authenticate_user (verify_password checkpw) email password
               (st_users s) (st_auths s)).

(** What the proxy put in the trusted headers: an e-mail and perhaps a name. *)
Definition signin (trusted : option (string * option string)) (email password : string)
    : endpoint SessionUser :=
  user ← (if sc_trusted_email_header cfg then
            match trusted with
            | None => raise InvalidTrustedHeader400
            | Some (header, name) =>
                let trusted_email := lower header in
                known ← user_by_email trusted_email;
                (match known with
                 | Some _ => mret tt
                 | None =>
                     n ← fresh;
                     signup (mkSignupForm (default trusted_email name) trusted_email (uuid4 n)
                               "/user.png");;
                     mret tt
                 end);;
                gets (λ s, Auths.authenticate_user_by_trusted_header trusted_email
                             (st_users s) (st_auths s))
            end
          else if negb (sc_webui_auth cfg) then
            known ← user_by_email "admin@localhost";
            match known with
            | Some _ => authenticate_user "admin@localhost" "admin"
            | None =>
                users ← gets st_users;
                if decide (users ≠ []) then raise ExistingUsers400
                else
                  signup (mkSignupForm "User" "admin@localhost" "admin" "/user.png");;
                  authenticate_user "admin@localhost" "admin"
            end
          else authenticate_user (lower email) password);
  match user with
  | Some user => session_for user
  | None => raise InvalidCred400
  end.

(** [add_user], behind the admin gate; the token it answers with has no expiry. *)
Definition add_user (form : SignupForm) (role : string) : endpoint (string * User) :=
  if negb (validate_email_format (lower (sf_email form))) then raise InvalidEmailFormat400
  else
    taken ← user_by_email (lower (sf_email form));
    match taken with
    | Some _ => raise EmailTaken400
    | None =>
        or_else
          (hashed ← get_password_hash (sf_password form);
           user ← insert_new_auth (lower (sf_email form)) hashed (sf_name form)
                    (sf_profile_image_url form) role None;
           now ← gets st_now;
           mret (create_token SESSION_SECRET now [("id", JStr (us_id user))] None, user))
          CreateUserError500
    end.

(** ** Profiles, passwords, API keys *)

Definition on_users {A} (f : list User → A * list User) : endpoint A := λ s,
  let '(a, users) := f (st_users s) in (Ok a, s <| st_users := users |>).

Definition on_auths {A} (f : list Auth → A * list Auth) : endpoint A := λ s,
  let '(a, auths) := f (st_auths s) in (Ok a, s <| st_auths := auths |>).

Definition update_profile (session_user : User) (name profile_image_url : string) : endpoint User :=
  ok ← next_commit;
  row ← on_users (Users.update_user_by_id ok (us_id session_user)
          (λ u, u <| us_profile_image_url := profile_image_url |> <| us_name := name |>));
  match row with Some user => mret user | None => raise UpdateFailed400 end.

Definition update_password (session_user : User) (password new_password : string) : endpoint bool :=
  if sc_trusted_email_header cfg then raise ActionProhibited400
  else
    user ← authenticate_user (us_email session_user) password;
    match user with
    | None => raise InvalidPassword400
    | Some user =>
        hashed ← get_password_hash new_password;
        ok ← next_commit;
        on_auths (Auths.update_user_password_by_id ok (us_id user) hashed)
    end.

Fixpoint without_dashes (s : string) : string :=
  match s with
  | EmptyString => EmptyString
  | String c s' => if decide (c = "-"%char) then without_dashes s' else String c (without_dashes s')
  end.

Definition create_api_key : endpoint string :=
  n ← fresh; mret ("sk-" +:+ without_dashes (uuid4 n)).

Definition generate_api_key (user : User) : endpoint string :=
  if negb (sc_enable_api_key cfg) then raise ApiKeyCreationNotAllowed403
  else
    api_key ← create_api_key;
    ok ← next_commit;
    success ← on_users (Users.update_user_api_key_by_id ok (us_id user) (Some api_key));
    if success : bool then mret api_key else raise CreateApiKeyError500.

Definition delete_api_key (user : User) : endpoint bool :=
  ok ← next_commit; on_users (Users.update_user_api_key_by_id ok (us_id user) None).

Definition get_api_key (user : User) : endpoint string :=
  key ← gets (λ s, truthy (Users.get_user_api_key_by_id (us_id user) (st_users s)));
  match key with Some k => mret k | None => raise ApiKeyNotFound404 end.

(** ** LDAP *)

(** What the directory holds under a user name, and whether a password binds. *)
Record LdapEntry := mkLdapEntry {
  le_username : string;
  le_mail : string;
  le_cn : string;
  le_binds : string → bool
}.

(** [ldap_auth]; every failure inside becomes a 400. *)
Definition ldap_auth (enabled : bool) (search : string → option LdapEntry) (user password : string)
    : endpoint (string * User) :=
  if negb enabled then raise Ldap400
  else
    or_else
      (match search (lower user) with
       | None => raise Ldap400
       | Some entry =>
           if decide (lower (le_username entry) ≠ lower user) then raise Ldap400
           else if negb (le_binds entry password) then raise Ldap400
           else
             known ← user_by_email (le_mail entry);
             (match known with
              | Some _ => mret tt
              | None =>
                  role ← role_for_newcomer;
                  n ← fresh;
                  insert_new_auth (le_mail entry) (uuid4 n) (le_cn entry) "/user.png" role None;;
                  mret tt
              end);;
             account ← gets (λ s, Auths.authenticate_user_by_trusted_header (le_mail entry)
                                    (st_users s) (st_auths s));
             match account with
             | None => raise InvalidCred400
             | Some account =>
                 now ← gets st_now;
                 mret (create_token SESSION_SECRET now [("id", JStr (us_id account))]
                         (sc_jwt_expires_in cfg), account)
             end
       end) Ldap400.

(** ** The OIDC callback *)

(** Down the nested claims; [None] when one of them is no dict. *)
Fixpoint claim_at (claim_data : Json) (nested_claims : list string) : option Json :=
  match nested_claims with
  | [] => Some claim_data
  | key :: rest =>
      match claim_data with
      | JDict d => claim_at (default (JDict []) (dict_lookup key d)) rest
      | _ => None
      end
  end.

Definition any_role (roles : list string) (oauth_roles : list Json) : bool :=
  existsb (λ role, existsb (json_is role) oauth_roles) roles.

Definition role_by_claim (user : option User) (user_data : json_dict) : option string :=
  let oc := sc_oauth cfg in
  if oc_role_management oc then
    if decide (oc_roles_claim oc ≠ "" ∧ oc_allowed_roles oc ≠ [] ∧ oc_admin_roles oc ≠ []) then
      data ← claim_at (JDict user_data) (split_on "."%char (oc_roles_claim oc));
      let oauth_roles := match data with JList l => l | _ => [] end in
      Some (if any_role (oc_admin_roles oc) oauth_roles then "admin"
            else if any_role (oc_allowed_roles oc) oauth_roles then "user"
            else "pending")
    else Some "pending"
  else Some (match user with None => sc_default_user_role cfg | Some u => us_role u end).

(** [get_user_role]; [None] when reading the claim raises. *)
Definition get_user_role (users : list User) (user : option User) (user_data : json_dict)
    : option string :=
  if decide (length users = match user with Some _ => 1%nat | None => 0%nat end)
  then Some "admin" else role_by_claim user user_data.

Definition or_internal {A} (x : option A) : endpoint A :=
  match x with Some a => mret a | None => raise InternalError500 end.

(** [GroupUpdateForm] of a change of members; a group without permissions gets the
    defaults. *)
Definition members_form (g : Group) (default_permissions : json_dict) (user_ids : list string)
    : GroupUpdateForm :=
  mkGroupUpdateForm (gr_name g) (gr_description g)
    (Some match gr_permissions g with
          | Some (p :: ps) => p :: ps
          | _ => default_permissions
          end)
    (Some user_ids).

Definition set_members (g : Group) (default_permissions : json_dict) (user_ids : list string)
    : endpoint unit :=
  ok ← next_commit;
  modify (λ s, s <| st_groups :=
    (Groups.update_group_by_id ok (st_now s) (gr_id g)
       (members_form g default_permissions user_ids) (st_groups s)).2 |>).

Fixpoint leave_groups (user : User) (claimed : Json) (default_permissions : json_dict)
    (current : list Group) : endpoint unit :=
  match current with
  | [] => mret tt
  | g :: rest =>
      stays ← or_internal (py_in (gr_name g) claimed);
      (if stays : bool then mret tt
       else set_members g default_permissions (filter (λ i, i ≠ us_id user) (gr_user_ids g)));;
      leave_groups user claimed default_permissions rest
  end.

Fixpoint join_groups (user : User) (claimed : Json) (default_permissions : json_dict)
    (current available : list Group) : endpoint unit :=
  match available with
  | [] => mret tt
  | g :: rest =>
      named ← or_internal (py_in (gr_name g) claimed);
      (if named && negb (existsb (λ gm, bool_decide (gr_name gm = gr_name g)) current)
       then set_members g default_permissions (gr_user_ids g ++ [us_id user])
       else mret tt);;
      join_groups user claimed default_permissions current rest
  end.

Definition update_user_groups (user : User) (user_data : json_dict)
    (default_permissions : json_dict) : endpoint unit :=
  let claimed := default (JList []) (dict_lookup (oc_groups_claim (sc_oauth cfg)) user_data) in
  groups ← gets st_groups;
  let current := Groups.get_groups_by_member_id dialect (us_id user) groups in
  leave_groups user claimed default_permissions current;;
  join_groups user claimed default_permissions current (Groups.get_groups groups).

(** [user_data.get(key, "").lower()] *)
Definition lower_claim (key : string) (user_data : json_dict) : option string :=
  match dict_lookup key user_data with
  | None => Some ""
  | Some (JStr s) => Some (lower s)
  | Some _ => None
  end.

Context (py_str : Json → string).

(** The profile picture as a data URL, [""] when the download fails; requests
    served meanwhile may create accounts. *)
Context (picture : string → string).

Definition download (url : string) : endpoint string := λ s,
  match st_meanwhile s with
  | [] => (Ok (picture url), s)
  | accounts :: rest =>
      (Ok (picture url),
       s <| st_users := st_users s ++ accounts.*1 |> <| st_auths := st_auths s ++ accounts.*2 |>
         <| st_meanwhile := rest |>)
  end.

Definition profile_picture (user_data : json_dict) : endpoint string :=
  match dict_lookup (oc_picture_claim (sc_oauth cfg)) user_data with
  | Some (JStr (String _ _ as url)) =>
      p ← download url; mret (if decide (p = "") then "/user.png" else p)
  | _ => mret "/user.png"
  end.

(** The account of a known subject or, when merging is on, of a known e-mail. *)
Definition find_oauth_user (provider_sub email : string) : endpoint (option User) :=
  user ← gets (λ s, Users.get_user_by_oauth_sub provider_sub (st_users s));
  match user with
  | Some u => mret (Some u)
  | None =>
      if oc_merge_by_email (sc_oauth cfg) then
        user ← user_by_email email;
        match user with
        | Some u =>
            ok ← next_commit;
            now ← gets st_now;
            on_users (Users.update_user_oauth_sub_by_id ok now (us_id u) provider_sub);;
            mret (Some u)
        | None => mret None
        end
      else mret None
  end.

(** An existing account: its role follows the claims. *)
Definition refresh_role (u : User) (user_data : json_dict) : endpoint unit :=
  users ← gets st_users;
  role ← or_internal (get_user_role users (Some u) user_data);
  if decide (us_role u = role) then mret tt
  else ok ← next_commit; on_users (Users.update_user_role_by_id ok (us_id u) role);; mret tt.

(** A new account, if sign-up through the provider is enabled. *)
Definition oauth_signup (provider_sub email : string) (user_data : json_dict) : endpoint User :=
  if negb (oc_enable_signup (sc_oauth cfg)) then raise AccessProhibited403
  else
    address ← or_internal (lower_claim "email" user_data);
    existing ← user_by_email address;
    match existing with
    | Some _ => raise EmailTaken400
    | None =>
        picture_url ← profile_picture user_data;
        users ← gets st_users;
        role ← or_internal (get_user_role users None user_data);
        n ← fresh;
        hashed ← get_password_hash (uuid4 n);
        name ← or_internal match dict_lookup (oc_username_claim (sc_oauth cfg)) user_data with
                           | None => Some "User" | Some (JStr s) => Some s | Some _ => None
                           end;
        user ← insert_new_auth email hashed name picture_url role (Some provider_sub);
        post_webhook user;;
        mret user
    end.

(** [handle_callback], after the exchange with the provider. *)
Definition handle_callback (provider : string) (user_data : json_dict) : endpoint (string * User) :=
  let oc := sc_oauth cfg in
  match dict_lookup "sub" user_data with
  | None => raise InvalidCred400
  | Some sub =>
      if negb (json_truthy sub) then raise InvalidCred400
      else
        let provider_sub :=
          provider +:+ "@" +:+ match sub with JStr s => s | j => py_str j end in
        email ← or_internal (lower_claim (oc_email_claim oc) user_data);
        if decide (email = "") then raise InvalidCred400
        else if decide ("*" ∉ oc_allowed_domains oc ∧
                        default "" (last (split_on "@"%char email)) ∉ oc_allowed_domains oc)
        then raise InvalidCred400
        else
          known ← find_oauth_user provider_sub email;
          user ← match known with
                 | Some u => refresh_role u user_data;; mret u
                 | None => oauth_signup provider_sub email user_data
                 end;
          now ← gets st_now;
          (if oc_group_management oc
           then update_user_groups user user_data (sc_user_permissions cfg) else mret tt);;
          mret (create_token SESSION_SECRET now [("id", JStr (us_id user))] (sc_jwt_expires_in cfg),
                user)
  end.
End sign_in.
