(* ===== verification/AccessFacts.v ===== *)
(** Lemmas on accounts and permissions: membership by SQL pattern, and the merge
    of permission blobs. *)

From Stdlib Require Import Ascii.
From stdpp Require Import sets.
From S2P Require Import Prelude Data Accounts AccessControl.

(** ** Membership by pattern *)

(** A character of an id: no capital, and none the pattern or the JSON text of a
    list gives a meaning to.  Those of a [uuid4] all are. *)
Definition plain_char (c : ascii) : bool :=
  bool_decide (lower_char c = c ∧
    c ∉ [quote; backslash; "%"%char; "_"%char; ","%char; " "%char; "["%char; "]"%char]).

Definition plain_id (s : string) : bool := all_chars plain_char s.

Definition lower_case (s : string) : bool := all_chars (λ c, bool_decide (lower_char c = c)) s.

(** A character a pattern only matches itself with. *)
Definition literal_char (c : ascii) : bool :=
  bool_decide (lower_char c = c ∧ c ≠ backslash ∧ c ≠ "%"%char ∧ c ≠ "_"%char).

Lemma all_chars_impl (p q : ascii → bool) s :
  (∀ c, p c = true → q c = true) → all_chars p s = true → all_chars q s = true.
Proof.
  intros Hpq. induction s as [|c s IH]; simpl; [done|]. rewrite !andb_true_iff.
  intros [? ?]. auto.
Qed.

Lemma sql_like_percent d p s :
  sql_like d (String "%" p) s = true ↔ ∃ a b, s = a +:+ b ∧ sql_like d p b = true.
Proof.
  assert (like_escape d "%"%char = false) as He by by destruct d.
  cbn [sql_like]. rewrite He, decide_True by done. induction s as [|x s IH].
  - rewrite orb_false_r. split; [by exists EmptyString, EmptyString|].
    intros (a & b & Hab & Hb). destruct a; [|done]. by destruct b.
  - rewrite orb_true_iff, IH. split.
    + intros [?|(a & b & -> & ?)]; [by exists EmptyString, (String x s)|by exists (String x a), b].
    + intros (a & b & Hab & Hb). destruct a as [|y a]; [left; simpl in Hab; by rewrite Hab|].
      injection Hab as -> ->. right. eauto.
Qed.

Lemma sql_like_literal d u p s :
  all_chars literal_char u = true → lower_case s = true →
  sql_like d (u +:+ p) s = true ↔ ∃ b, s = u +:+ b ∧ sql_like d p b = true.
Proof.
  revert s. induction u as [|c u IH]; intros s Hu Hs; [simpl; naive_solver|].
  simpl in Hu. apply andb_true_iff in Hu as [Hc Hu].
  unfold literal_char in Hc. apply bool_decide_eq_true in Hc as (Hlow & Hb & Hp & Hw).
  assert (like_escape d c = false) as He by (destruct d; [done|by apply bool_decide_eq_false]).
  rewrite !append_cons. cbn [sql_like]. rewrite He, decide_False by done.
  destruct s as [|x s]; [split; [done|by intros (? & ? & ?)]|].
  unfold lower_case in Hs. simpl in Hs. apply andb_true_iff in Hs as [Hx Hs].
  apply bool_decide_eq_true in Hx.
  assert (bool_decide (c = "_"%char) = false) as -> by by apply bool_decide_eq_false.
  assert (like_char d c x = bool_decide (c = x)) as ->
    by (unfold like_char, like_fold; destruct d; [by rewrite Hlow, Hx|done]).
  cbn [orb]. rewrite andb_true_iff, IH, bool_decide_eq_true by done. split.
  - intros [-> (b & -> & ?)]. eauto.
  - intros (b & [= -> ->] & ?). eauto.
Qed.

(** [LIKE '%u%'] is containment. *)
Lemma sql_like_contains d u s :
  all_chars literal_char u = true → lower_case s = true →
  sql_like d ("%" +:+ u +:+ "%") s = true ↔ contains u s = true.
Proof.
  intros Hu Hs. rewrite contains_spec. change ("%" +:+ u +:+ "%") with (String "%" (u +:+ "%")).
  rewrite sql_like_percent. split.
  - intros (a & b & -> & Hb). unfold lower_case in Hs. rewrite all_chars_app in Hs.
    apply andb_true_iff in Hs as [_ Hs]. apply sql_like_literal in Hb as (b' & -> & _); [|done..].
    eauto.
  - intros (a & b & ->). exists a, (u +:+ b). split; [done|].
    unfold lower_case in Hs. rewrite all_chars_app in Hs. apply andb_true_iff in Hs as [_ Hs].
    apply sql_like_literal; [done..|]. exists b. split; [done|]. apply sql_like_percent.
    exists b, EmptyString. split; [by rewrite append_nil_r|done].
Qed.

Lemma plain_escape s : plain_id s = true → json_escape s = s.
Proof.
  unfold plain_id. induction s as [|c s IH]; simpl; [done|]. intros [Hc Hs]%andb_true_iff.
  apply bool_decide_eq_true in Hc as [_ Hc]. rewrite decide_False, IH; [done..|]. set_solver.
Qed.

Lemma plain_quote_free s :
  plain_id s = true → all_chars (λ c, bool_decide (c ≠ quote)) s = true.
Proof.
  apply all_chars_impl. intros c [_ Hc]%bool_decide_eq_true. apply bool_decide_eq_true. set_solver.
Qed.

(** Splitting at a quoted text gives the text itself. *)
Lemma split_quoted x s y :
  all_chars (λ c, bool_decide (c ≠ quote)) s = true →
  split_on quote (x +:+ quoted s +:+ y) = split_on quote x ++ s :: split_on quote y.
Proof.
  intros Hs. unfold quoted. rewrite append_cons, split_on_app, <- append_assoc, append_cons.
  by rewrite split_on_app, (split_on_plain _ s).
Qed.

Lemma split_quoted_ids ids pre :
  ids ≠ [] → Forall (λ s, plain_id s = true) ids → pre ∈ ["["; "]"; ", "] →
  ∀ x, x ∈ split_on quote (pre +:+ join ", " (quoted <$> ids) +:+ "]") ↔
    x ∈ ids ∨ x = "]" ∨ x = pre ∨ (x = ", " ∧ (1 < length ids)%nat).
Proof.
  intros Hne Hids. revert pre.
  induction ids as [|s ids IH]; [done|]. clear Hne. intros pre Hpre x.
  apply Forall_cons in Hids as [Hs%plain_quote_free Hids].
  assert (split_on quote pre = [pre]) as Hsplit.
  { apply split_on_plain. repeat apply elem_of_cons in Hpre as [->|Hpre]; [done..|].
    by apply elem_of_nil in Hpre. }
  destruct ids as [|s' ids].
  - csimpl. rewrite split_quoted, Hsplit by done.
    assert (¬ (1 < length [s])%nat) by (simpl; lia).
    assert (split_on quote "]" = ["]"]) as -> by done.
    cbn [app]. rewrite !elem_of_cons, elem_of_nil. tauto.
  - cbn [fmap list_fmap join]. rewrite <- !append_assoc, split_quoted, Hsplit by done.
    pose proof (IH ltac:(done) Hids ", " ltac:(set_solver) x) as Hx.
    assert (1 < length (s :: s' :: ids))%nat by (simpl; lia).
    cbn [app fmap list_fmap join] in *. rewrite !elem_of_cons in *.
    rewrite Hx. clear -H. tauto.
Qed.

Lemma plain_lower s : plain_id s = true → lower_case s = true.
Proof.
  apply all_chars_impl. intros c [Hc _]%bool_decide_eq_true. by apply bool_decide_eq_true.
Qed.

Lemma lower_user_ids ids :
  Forall (λ s, plain_id s = true) ids → lower_case (user_ids_text ids) = true.
Proof.
  intros Hids. unfold user_ids_text, lower_case. rewrite !all_chars_app.
  apply andb_true_iff; split; [done|]. apply andb_true_iff; split; [|done].
  induction Hids as [|s ids Hs Hids IH]; [done|].
  assert (all_chars (λ c, bool_decide (lower_char c = c)) (quoted (json_escape s)) = true) as Hq.
  { unfold quoted. rewrite plain_escape by done. simpl.
    rewrite all_chars_app. apply andb_true_iff; split; [by apply plain_lower|done]. }
  destruct ids as [|s' ids]; [done|]. cbn [fmap list_fmap join compose] in *.
  rewrite !all_chars_app, Hq. done.
Qed.

Lemma join_elem sep l x : x ∈ l → ∃ a b, join sep l = a +:+ x +:+ b.
Proof.
  induction l as [|y l IH]; [by intros ?%not_elem_of_nil|]. intros Hx.
  destruct l as [|z l].
  - apply list_elem_of_singleton in Hx as ->. exists EmptyString, EmptyString. simpl.
    by rewrite append_nil_r.
  - apply elem_of_cons in Hx as [->|Hx].
    + exists EmptyString, (sep +:+ join sep (z :: l)). done.
    + destruct (IH Hx) as (a & b & Heq). exists (y +:+ sep +:+ a), b.
      change (join sep (y :: z :: l)) with (y +:+ sep +:+ join sep (z :: l)).
      by rewrite Heq, !append_assoc.
Qed.

(** On plain ids the pattern test is membership, on either database. *)
Lemma has_member_spec dialect user_id g :
  plain_id user_id = true → Forall (λ s, plain_id s = true) (gr_user_ids g) →
  Groups.has_member dialect user_id g = true ↔ user_id ∈ gr_user_ids g.
Proof.
  intros Hu Hids. unfold Groups.has_member. rewrite andb_true_iff, bool_decide_eq_true.
  assert (all_chars literal_char (quoted user_id) = true) as Hlit.
  { unfold quoted. simpl. rewrite all_chars_app. apply andb_true_iff; split; [|done].
    apply (all_chars_impl plain_char); [|done]. intros c [? Hc]%bool_decide_eq_true.
    apply bool_decide_eq_true. set_solver. }
  rewrite sql_like_contains by (done || by apply lower_user_ids).
  destruct (decide (gr_user_ids g = [])) as [He|Hne].
  { rewrite He. split; [by intros [? _]|by intros ?%not_elem_of_nil]. }
  pose proof (split_quoted_ids (gr_user_ids g) "[" Hne Hids ltac:(set_solver) user_id) as Hsplit.
  assert (user_ids_text (gr_user_ids g) = "[" +:+ join ", " (quoted <$> gr_user_ids g) +:+ "]")
    as Htext.
  { unfold user_ids_text. do 3 f_equal. apply list_fmap_ext. intros i s Hs. simpl.
    rewrite plain_escape; [done|]. rewrite Forall_forall in Hids. apply Hids.
    by apply list_elem_of_lookup_2 with i. }
  rewrite <- Htext in Hsplit. rewrite contains_spec. split.
  - intros [_ (a & b & Hab)]. rewrite Hab, split_quoted in Hsplit by by apply plain_quote_free.
    destruct (proj1 Hsplit) as [?|[Hbad|[Hbad|[Hbad _]]]]; [|done|..].
    { apply elem_of_app. right. left. }
    all: by subst.
  - intros Hin. split; [done|]. rewrite Htext.
    destruct (join_elem ", " (quoted <$> gr_user_ids g) (quoted user_id)) as (a & b & ->).
    { by apply list_elem_of_fmap_2. }
    exists ("[" +:+ a), (b +:+ "]"). by rewrite <- !append_assoc.
Qed.

(** ** Blobs *)

(** Two blobs that never disagree on whether a path ends at a value or goes on. *)
Inductive compat : Json → Json → Prop :=
| compat_leaf a b : is_dict a = false → is_dict b = false → compat a b
| compat_dict d e :
    (∀ k x y, dict_lookup k d = Some x → dict_lookup k e = Some y → compat x y) →
    compat (JDict d) (JDict e).

Lemma compat_dict_inv d e k x y :
  compat (JDict d) (JDict e) → dict_lookup k d = Some x → dict_lookup k e = Some y → compat x y.
Proof. intros Hc. inversion Hc; simplify_eq/=; eauto. Qed.

Lemma compat_dict_r d b : compat (JDict d) b → ∃ e, b = JDict e.
Proof. intros Hc. inversion Hc; simplify_eq/=; eauto. Qed.

Lemma compat_leaf_r a b : compat a b → is_dict a = false → is_dict b = false.
Proof. intros Hc Ha. by inversion Hc; simplify_eq/=. Qed.

(** A key of a merged dict: the merge of what both sides hold. *)
Definition merged_at (items d d' : json_dict) : Prop :=
  ∀ k, match dict_lookup k items with
       | Some x => ∃ y, merge_value x (dict_lookup k d) = Ok y ∧ dict_lookup k d' = Some y
       | None => dict_lookup k d' = dict_lookup k d
       end.

Lemma merge_dict items d :
  NoDup items.*1 →
  (∀ k x, dict_lookup k items = Some x → ∃ y, merge_value x (dict_lookup k d) = Ok y) →
  ∃ d', merge_value (JDict items) (Some (JDict d)) = Ok (JDict d') ∧ merged_at items d d' ∧
    (d' = [] ↔ items = [] ∧ d = []).
Proof.
  simpl. revert d. induction items as [|[key x] items IH]; intros d Hnd Hok.
  - exists d. by split_and!; [|intros k|naive_solver].
  - csimpl in *. apply NoDup_cons in Hnd as [Hkey Hnd].
    destruct (Hok key x) as (y & Hy); [by rewrite decide_True|]. rewrite Hy.
    destruct (IH (dict_set key y d) Hnd) as (d' & Hd' & Hat & Hnil).
    { intros k z Hz. assert (k ≠ key) as Hne.
      { intros ->. apply Hkey, dict_lookup_is_Some. eauto. }
      rewrite dict_lookup_set_ne by done. apply Hok. by rewrite decide_False. }
    exists d'. split; [done|]. split.
    + intros k. specialize (Hat k). simpl. case_decide as Hk.
      * subst. apply dict_lookup_None in Hkey. rewrite Hkey in Hat.
        rewrite dict_lookup_set in Hat. eauto.
      * by rewrite dict_lookup_set_ne in Hat.
    + rewrite Hnil. split; [|by intros [? _]]. intros [_ Hset].
      destruct d as [|[k' z] d]; simpl in Hset; [done|]. by case_decide.
Qed.

(** A merge of compatible blobs succeeds, grants a path exactly when one of the
    two grants it, and stays compatible with what both are compatible with. *)
Lemma merge_value_spec value :
  json_ok value → ∀ existing, (∀ e, existing = Some e → compat value e) →
  ∃ r, merge_value value existing = Ok r ∧
    (∀ path, get_permission r path =
       get_permission value path ||
       match existing with Some e => get_permission e path | None => false end) ∧
    (∀ c, compat c value → (∀ e, existing = Some e → compat c e) → compat c r).
Proof.
  induction value as [|b|n|b|s|l IH|items IH] using json_nested_ind; intros Hok existing Hc.
  1-6: destruct existing as [e|]; [|eexists; split_and!; [done|intros; by rewrite orb_false_r|auto]].
  1-6: eexists; split_and!; [done| |intros c Hv He; by case_match; auto].
  1-6: specialize (Hc e eq_refl); apply compat_leaf_r in Hc; [|done].
  1-6: intros [|k path]; simpl; [by destruct (json_truthy e) eqn:He; rewrite ?He, ?orb_true_r, ?orb_false_r|].
  1-6: by destruct (json_truthy e), e.
  inversion Hok as [|?|? Hnd Hall]; simplify_eq/=.
  assert (∃ d, default (JDict []) existing = JDict d ∧
    (∀ k x y, dict_lookup k items = Some x → dict_lookup k d = Some y → compat x y) ∧
    (∀ path, get_permission (JDict d) path =
       match existing with Some e => get_permission e path | None => false end) ∧
    (∀ c, compat c (JDict items) → (∀ e, existing = Some e → compat c e) → compat c (JDict d)))
    as (d & Hd & Hshared & Hget & Hcd).
  { destruct existing as [e|]; simpl.
    - specialize (Hc e eq_refl). destruct (compat_dict_r _ _ Hc) as [d ->]. exists d.
      split_and!; [done| |done|auto]. intros k x y. by apply compat_dict_inv.
    - exists []. split_and!; [done..| |]; [by intros [|]|].
      intros c Hci _. inversion Hci; simplify_eq/=. by apply compat_dict. }
  assert (∀ k x, dict_lookup k items = Some x → ∃ y, merge_value x (dict_lookup k d) = Ok y ∧
    (∀ path, get_permission y path = get_permission x path ||
       match dict_lookup k d with Some e => get_permission e path | None => false end) ∧
    (∀ c, compat c x → (∀ e, dict_lookup k d = Some e → compat c e) → compat c y)) as Hval.
  { intros k x Hx. apply dict_lookup_elem in Hx as Hin. rewrite Forall_forall in IH, Hall.
    apply (IH _ Hin (Hall _ Hin)). intros e He. by eapply Hshared. }
  change (merge_value (JDict items) existing)
    with (merge_value (JDict items) (Some (default (JDict []) existing))).
  rewrite Hd. destruct (merge_dict items d Hnd) as (d' & Hd' & Hat & Hnil).
  { intros k x Hx. destruct (Hval k x Hx) as (y & ? & _). eauto. }
  exists (JDict d'). split_and!; [done| |].
  - intros [|k path]; rewrite <- Hget; simpl.
    + destruct items, d, d'; simpl; rewrite ?orb_true_r; naive_solver.
    + specialize (Hat k). destruct (dict_lookup k items) as [x|] eqn:Hx; [|by rewrite Hat].
      destruct Hat as (y & Hy & ->). destruct (Hval k x Hx) as (y' & Hy' & Hp & _).
      rewrite Hy in Hy'. injection Hy' as <-. rewrite Hp. by destruct (dict_lookup k d).
  - intros c Hci Hce. specialize (Hcd c Hci Hce).
    inversion Hci as [|c' ? Hcx]; simplify_eq/=. apply compat_dict. intros k x y Hx Hy.
    specialize (Hat k). destruct (dict_lookup k items) as [z|] eqn:Hz.
    + destruct Hat as (y' & Hy' & ?). simplify_eq.
      destruct (Hval k z Hz) as (y'' & Hy'' & _ & Hcompat). rewrite Hy' in Hy''.
      injection Hy'' as <-. apply Hcompat; [eauto|].
      intros e He. eapply compat_dict_inv; [exact Hcd|done..].
    + rewrite Hat in Hy. eapply compat_dict_inv; [exact Hcd|done..].
Qed.

(** The groups of a user, one after the other, on top of the defaults. *)
Lemma foldl_combine (blobs : list json_dict) (groups : list Group) acc :
  gr_permissions <$> groups = Some <$> blobs →
  Forall (λ b, json_ok (JDict (fold_renamed_group b))) blobs →
  ForallOrdPairs (λ b c, compat (JDict (fold_renamed_group c)) (JDict (fold_renamed_group b))) blobs →
  Forall (λ b, compat (JDict (fold_renamed_group b)) acc) blobs →
  ∃ r, foldl combine_group (Ok acc) groups = Ok r ∧
    ∀ path, get_permission r path =
      existsb (λ b, get_permission (JDict (fold_renamed_group b)) path) blobs ||
      get_permission acc path.
Proof.
  revert groups acc. induction blobs as [|b blobs IH]; intros groups acc Hg Hok Hpair Hacc.
  { destruct groups; [|done]. by exists acc. }
  destruct groups as [|g groups]; [done|]. injection Hg as Hb Hg.
  inversion Hok; inversion Hacc; inversion Hpair as [|?? Hhere Hrest]; simplify_eq/=.
  rewrite Hb. unfold combine_permissions.
  destruct (merge_value_spec (JDict (fold_renamed_group b)) ltac:(done) (Some acc))
    as (r & Hr & Hget & Hcompat); [by intros e [= <-]|].
  rewrite Hr. destruct (IH groups r) as (r' & Hr' & Hget'); try done.
  { apply Forall_forall. intros c Hc. apply Hcompat.
    - rewrite Forall_forall in Hhere. by apply Hhere.
    - intros e [= <-]. match goal with H : Forall _ blobs |- _ =>
        by (rewrite Forall_forall in H; apply H) end. }
  exists r'. split; [done|]. intros path. rewrite Hget', Hget.
  by destruct (get_permission (JDict _) path), (existsb _ blobs).
Qed.

(** ** The rename *)

Lemma dict_lookup_filter (p : string * Json → Prop) `{∀ x, Decision (p x)} key d :
  (∀ v, p (key, v)) → dict_lookup key (filter p d) = dict_lookup key d.
Proof.
  intros Hp. induction d as [|[k x] d IH]; [done|]. rewrite filter_cons. simpl.
  case_decide; simpl; [by case_decide|]. case_decide as Hk; [|done]. subst. by specialize (Hp x).
Qed.

Lemma has_key_false key d : has_key key d = false ↔ dict_lookup key d = None.
Proof. unfold has_key. by rewrite bool_decide_eq_false, dict_lookup_None. Qed.

Lemma filter_fst_NoDup (p : string * Json → Prop) `{∀ x, Decision (p x)} (d : json_dict) :
  NoDup d.*1 → NoDup (filter p d).*1.
Proof.
  intros Hnd. eapply sublist_NoDup; [exact Hnd|]. clear.
  induction d as [|x d IH]; [done|]. rewrite filter_cons.
  case_decide; csimpl; [by apply sublist_skip|by apply sublist_cons].
Qed.

Lemma fold_renamed_ok d : json_ok (JDict d) → json_ok (JDict (fold_renamed_group d)).
Proof.
  intros Hok. inversion Hok as [|?|? Hnd Hall]; simplify_eq/=. unfold fold_renamed_group.
  destruct (dict_lookup old_name d) as [old|] eqn:Hold; [|done].
  set (folded := filter _ d).
  assert (Forall (λ kv, json_ok kv.2) folded) as Hf.
  { rewrite Forall_forall in Hall |- *. intros kv [_ Hin]%list_elem_of_filter. by apply Hall. }
  assert (NoDup folded.*1) as Hn by by apply filter_fst_NoDup.
  destruct (has_key new_name folded) eqn:Hk; [by apply json_ok_dict|].
  apply json_ok_dict.
  - rewrite fmap_app. apply NoDup_app. split_and!; [done| |apply NoDup_singleton].
    intros k Hin ->%list_elem_of_singleton. unfold has_key in Hk.
    by apply bool_decide_eq_false in Hk.
  - apply Forall_app. split; [done|]. constructor; [|done]. simpl.
    rewrite Forall_forall in Hall. apply (Hall (old_name, old)). by apply dict_lookup_elem.
Qed.

(** Resolving a path other than the old group's is looking it up in the folded
    blob. *)
Lemma resolve_folded d first rest :
  first ≠ old_name →
  _resolve_permission (JDict d) (first :: rest) =
    get_permission (JDict (fold_renamed_group d)) (first :: rest).
Proof.
  intros Hfirst. unfold _resolve_permission, fold_renamed_group.
  destruct (dict_lookup old_name d) as [old|] eqn:Hold.
  2: { assert (has_key old_name d = false) as -> by by apply has_key_false.
       rewrite andb_false_r. by case_decide. }
  assert (has_key old_name d = true) as ->
    by (apply bool_decide_eq_true, dict_lookup_is_Some; eauto).
  set (folded := filter _ d).
  assert (∀ k, k ≠ old_name → dict_lookup k folded = dict_lookup k d) as Hlk
    by (intros k Hk; by apply dict_lookup_filter).
  assert (has_key new_name folded = has_key new_name d) as ->.
  { destruct (has_key new_name d) eqn:Hn.
    - apply bool_decide_eq_true, dict_lookup_is_Some. rewrite Hlk by done.
      apply bool_decide_eq_true in Hn. by apply dict_lookup_is_Some.
    - apply has_key_false. rewrite Hlk by done. by apply has_key_false. }
  rewrite andb_true_r. case_decide as Hf.
  - subst. destruct (has_key new_name d) eqn:Hn; simpl.
    + by rewrite Hlk.
    + apply has_key_false in Hn. rewrite Hold, dict_lookup_app, Hlk, Hn by done.
      cbn [dict_lookup]. by rewrite decide_True.
  - destruct (has_key new_name d); simpl; [by rewrite Hlk|].
    rewrite dict_lookup_app, Hlk by done. destruct (dict_lookup first d); [done|].
    cbn [dict_lookup]. by rewrite decide_False.
Qed.
