(* ===== verification/AccessContract.v ===== *)
(** The contract of accounts and access control: the server's gate and the
    client's permission object agree, the two readings of a resource's access
    control agree, and the rename of a permission group changes nothing. *)

From Stdlib Require Import Ascii.
From stdpp Require Import sets.
From S2P Require Import Prelude Data Accounts AccessControl AccessFacts.

Section permissions.
Context (dialect : Dialect).
Implicit Types (groups : list Group) (g : Group).

(** ** Permissions *)

(** The blobs never disagree on where values are. *)
Definition same_shape (blobs : list json_dict) : Prop :=
  ∀ b c, b ∈ blobs → c ∈ blobs → compat (JDict b) (JDict c).

Lemma same_shape_pairs d blobs :
  same_shape (d :: blobs) →
  ForallOrdPairs (λ b c, compat (JDict c) (JDict b)) blobs ∧
  Forall (λ b, compat (JDict b) (JDict d)) blobs.
Proof.
  intros Hs. split.
  - assert (∀ b c, b ∈ blobs → c ∈ blobs → compat (JDict b) (JDict c)) as Hb
      by (intros; apply Hs; by right).
    clear Hs. induction blobs as [|b blobs IH]; constructor.
    + apply Forall_forall. intros c Hc. apply Hb; [by right|left].
    + apply IH. intros; apply Hb; by right.
  - apply Forall_forall. intros b Hb. apply Hs; [by right|left].
Qed.

Lemma fold_no_old d : dict_lookup old_name d = None → fold_renamed_group d = d.
Proof. intros Hd. unfold fold_renamed_group. by rewrite Hd. Qed.

(** The gate of the server and the object the client reads agree.  For
    defaults and group blobs of one shape, whether or not a group still carries
    the pre-rename key, [get_permissions] answers, and looking a permission up in
    its answer gives what [has_permission] decides, on either database. *)
Theorem permissions_agree groups user_id d blobs :
  gr_permissions <$> Groups.get_groups_by_member_id dialect user_id groups = Some <$> blobs →
  Forall (λ b, json_ok (JDict b)) blobs →
  same_shape (d :: (fold_renamed_group <$> blobs)) →
  dict_lookup old_name d = None →
  ∃ p, get_permissions dialect groups user_id d = Ok p ∧
    ∀ key, head (split_on "."%char key) ≠ Some old_name →
      get_permission p (split_on "."%char key) = has_permission dialect groups user_id key d.
Proof.
  intros Hblobs Hok Hshape Hold. unfold get_permissions, has_permission. cbv zeta.
  destruct (same_shape_pairs _ _ Hshape) as [Hpairs Hdef].
  destruct (foldl_combine blobs (Groups.get_groups_by_member_id dialect user_id groups) (JDict d))
    as (p & Hp & Hget); [done| | | |].
  - eapply Forall_impl; [exact Hok|]. apply fold_renamed_ok.
  - clear -Hpairs. induction blobs as [|b blobs IH]; [constructor|].
    inversion Hpairs as [|?? Hb Hrest]; simplify_eq. constructor; [|by apply IH].
    by rewrite Forall_fmap in Hb.
  - by rewrite Forall_fmap in Hdef.
  - exists p. split; [done|]. intros key Hkey. rewrite Hget.
    destruct (split_on "."%char key) as [|first rest] eqn:Hpath;
      [by apply split_on_ne in Hpath|]. simpl in Hkey.
    assert (first ≠ old_name) by congruence.
    rewrite resolve_folded, fold_no_old by done. f_equal. clear -Hblobs H.
    revert Hblobs. generalize (Groups.get_groups_by_member_id dialect user_id groups).
    induction blobs as [|b blobs IH]; intros [|g gs] Hg; try discriminate Hg; [done|].
    injection Hg as Hg Hgs. cbn [existsb]. rewrite <- (IH gs) by done. f_equal.
    rewrite Hg. cbn [blob_of]. by rewrite resolve_folded.
Qed.

(** One group of the user without a permission blob and the client's object
    cannot be built: [get_permissions] raises, though the server's gate passes
    over such a group; and a new group has no blob. *)
Theorem null_blob_breaks_the_session groups user_id d g :
  g ∈ Groups.get_groups_by_member_id dialect user_id groups → gr_permissions g = None →
  (∃ e, get_permissions dialect groups user_id d = Raise e) ∧
  (∀ path, _resolve_permission (blob_of (gr_permissions g)) path = false) ∧
  ∀ now id owner name description,
    gr_permissions (Groups.new_group now id owner name description) = None.
Proof.
  intros Hg Hnone. split_and!; [|intros [|]; by rewrite Hnone|done].
  unfold get_permissions. revert Hg. generalize (Groups.get_groups_by_member_id dialect user_id groups).
  intros gs. revert d. 
  assert (∀ gs e, foldl combine_group (Raise e) gs = Raise e) as Hraise
    by (intros gs' e; induction gs'; simpl; auto).
  enough (∀ acc, g ∈ gs → ∃ e, foldl combine_group acc gs = Raise e) as Hall by auto.
  induction gs as [|x gs IH]; intros acc Hin; [by apply not_elem_of_nil in Hin|]. simpl.
  apply elem_of_cons in Hin as [<-|Hin]; [|by apply IH].
  destruct acc as [p|e]; simpl; [rewrite Hnone|]; eauto.
Qed.

(** ** Access to resources *)

(** A rule as the forms write it: lists of ids, each possibly absent. *)
Definition id_list (ids : list string) : Json := JList (JStr <$> ids).

Inductive rule_of (access_control : json_dict) (type : string) : list string → list string → Prop :=
| rule_absent : dict_lookup type access_control = None → rule_of access_control type [] []
| rule_present rule group_ids user_ids :
    dict_lookup type access_control = Some (JDict rule) →
    default (JList []) (dict_lookup "group_ids" rule) = id_list group_ids →
    default (JList []) (dict_lookup "user_ids" rule) = id_list user_ids →
    rule_of access_control type group_ids user_ids.

Lemma access_rule_of ac type gids uids :
  rule_of ac type gids uids → access_rule ac type = Some (id_list gids, id_list uids).
Proof. unfold access_rule. by intros [->|rule ?? -> -> ->]. Qed.

Lemma py_in_id_list x ids : py_in x (id_list ids) = Some (bool_decide (x ∈ ids)).
Proof.
  simpl. f_equal. induction ids as [|y ids IH]; [done|]. csimpl. rewrite IH.
  apply eq_true_iff_eq. rewrite orb_true_iff, !bool_decide_eq_true, elem_of_cons. naive_solver.
Qed.

Lemma strings_of_id_list ids : strings_of (JStr <$> ids) = ids.
Proof. unfold strings_of. induction ids as [|y ids IH]; [done|]. simpl. f_equal. exact IH. Qed.

Lemma py_iter_id_list ids : py_iter (id_list ids) = Some (JStr <$> ids).
Proof. done. Qed.

Lemma py_set_id_list ids : py_set (JStr <$> ids) = Some (JStr <$> ids).
Proof. unfold py_set. replace (existsb _ _) with false; [done|]. by induction ids. Qed.

Lemma any_in_id_list ids gids :
  any_in ids (id_list gids) = Some true ↔ ∃ id, id ∈ ids ∧ id ∈ gids.
Proof.
  induction ids as [|x ids IH]; cbn [any_in].
  { split; [done|]. by intros (? & ?%not_elem_of_nil & _). }
  rewrite py_in_id_list. simpl. case_bool_decide as Hx.
  { split; [|done]. intros _. exists x. split; [left|done]. }
  rewrite IH. split; intros (id & Hin & Hg); exists id.
  - split; [by right|done].
  - apply elem_of_cons in Hin as [->|Hin]; [done|by split].
Qed.

Lemma elem_of_latest g groups : g ∈ Groups.latest_first groups ↔ g ∈ groups.
Proof. apply sort_by_elem_of. Qed.

(** The two readings of a resource's access control agree.  For a rule of id
    lists, a user is among [get_users_with_access] exactly when [has_access]
    admits them, by name or through a group, on either database.  Without access
    control both admit everybody to reading; to writing, [has_access] admits
    nobody and [get_users_with_access] returns everybody. *)
Theorem access_readings_agree users groups type ac :
  NoDup (keys groups) →
  Forall (λ u, plain_id (us_id u) = true) users →
  Forall (λ g, Forall (λ s, plain_id s = true) (gr_user_ids g)) groups →
  match ac with
  | Some rule => ∃ gids uids, rule_of rule type gids uids
  | None => type = "read"
  end →
  ∃ admitted, get_users_with_access users groups type ac = Some admitted ∧
    ∀ u, u ∈ admitted ↔
      u ∈ users ∧ has_access dialect groups (us_id u) type ac = Some true.
Proof.
  intros Hnd Husers Hgroups Hac. destruct ac as [ac|].
  2: { eexists. split; [done|]. intros u. unfold Users.get_users. simpl.
       rewrite sort_by_elem_of, Hac. simpl. naive_solver. }
  destruct Hac as (gids & uids & Hrule). unfold get_users_with_access, has_access.
  rewrite (access_rule_of _ _ _ _ Hrule). cbn [mbind option_bind].
  rewrite !py_iter_id_list. cbn [mbind option_bind]. rewrite py_set_id_list.
  cbn [mbind option_bind]. eexists. split; [done|]. intros u.
  unfold Users.get_users_by_user_ids. rewrite !strings_of_id_list, list_elem_of_filter.
  assert (us_id u ∈ uids ++ (gids ≫= λ id, default [] (Groups.get_group_user_ids_by_id id groups)) ↔
    us_id u ∈ uids ∨ ∃ id, id ∈ gids ∧ ∃ g, find_row id groups = Some g ∧ us_id u ∈ gr_user_ids g)
    as Hmembers.
  { rewrite elem_of_app, list_elem_of_bind. unfold Groups.get_group_user_ids_by_id.
    split; (intros [?|Hid]; [by left|right]).
    - destruct Hid as (id & Hu & Hid). exists id. split; [done|].
      destruct (find_row id groups) as [g|]; [by exists g|by apply not_elem_of_nil in Hu].
    - destruct Hid as (id & Hid & g & Hg & Hu). exists id. by rewrite Hg. }
  rewrite Hmembers. rewrite (py_in_id_list (us_id u) uids). cbn [mbind option_bind].
  assert (u ∈ users → (∃ id, id ∈ gr_id <$> Groups.get_groups_by_member_id dialect (us_id u) groups ∧
      id ∈ gids) ↔
    ∃ id, id ∈ gids ∧ ∃ g, find_row id groups = Some g ∧ us_id u ∈ gr_user_ids g) as Hgroups'.
  { intros Hu. rewrite Forall_forall in Husers. rewrite Forall_forall in Hgroups. unfold Groups.get_groups_by_member_id.
    split.
    - intros (id & (g & -> & Hg)%list_elem_of_fmap & Hid). rewrite elem_of_latest in Hg.
      apply list_elem_of_filter in Hg as [Hm Hg]. exists (gr_id g). split; [done|]. exists g.
      split; [by apply (find_row_elem groups g)|]. apply has_member_spec in Hm; auto.
    - intros (id & Hid & g & [Hg Hk]%find_row_Some & Hm). exists id. split; [|done].
      apply list_elem_of_fmap. exists g. split; [done|]. rewrite elem_of_latest. apply list_elem_of_filter.
      split; [|done]. apply has_member_spec; auto. }
  case_bool_decide as Hu; [naive_solver|]. rewrite any_in_id_list. naive_solver.
Qed.

(** ** The rename of a permission group *)

Lemma migrate_rows source target pre l :
  NoDup (keys (pre ++ l)) →
  foldl (migrate_row source target) (pre ++ l) l =
    pre ++ ((λ g, match gr_permissions g ≫= λ b, _rekey b source target with
                  | Some b => g <| gr_permissions := Some b |> | None => g end) <$> l).
Proof.
  revert pre. induction l as [|g l IH]; intros pre Hnd; [done|].
  set (h := λ g : Group, _). cbn [foldl fmap list_fmap].
  assert (migrate_row source target (pre ++ g :: l) g = (pre ++ [h g]) ++ l) as ->.
  { unfold migrate_row, h. rewrite <- app_assoc. simpl.
    destruct (gr_permissions g ≫= _) as [b|]; [|done].
    unfold keys in Hnd. rewrite fmap_app in Hnd. csimpl in Hnd.
    apply NoDup_app in Hnd as (_ & Hpre & [Hl _]%NoDup_cons).
    unfold update_row, update_where. rewrite fmap_app. csimpl. rewrite bool_decide_true by done.
    f_equal; [|f_equal].
    - apply (update_row_absent (gr_id g) _ pre), find_row_None. intros Hin.
      apply (Hpre _ Hin). left.
    - apply (update_row_absent (gr_id g) _ l), find_row_None. exact Hl. }
  rewrite IH; [by rewrite <- app_assoc|].
  rewrite <- app_assoc. unfold keys in *. rewrite fmap_app in Hnd |- *. csimpl in *.
  replace (row_key (h g)) with (row_key g); [done|].
  unfold h. by destruct (gr_permissions g ≫= _).
Qed.

(** A group after the upgrade: its blob is the folded one. *)
Definition upgraded (g : Group) : Group :=
  match gr_permissions g with
  | Some b => g <| gr_permissions := Some (fold_renamed_group b) |>
  | None => g
  end.

Lemma fold_rekey b : default b (_rekey b old_name new_name) = fold_renamed_group b.
Proof. unfold _rekey, fold_renamed_group. by destruct (dict_lookup old_name b). Qed.

Lemma fold_drops_old b : dict_lookup old_name (fold_renamed_group b) = None.
Proof.
  unfold fold_renamed_group. destruct (dict_lookup old_name b) as [old|] eqn:Hold; [|done].
  set (folded := filter _ b).
  assert (dict_lookup old_name folded = None) as Hf.
  { apply dict_lookup_None. intros (kv & Hk & [Hne _]%list_elem_of_filter)%list_elem_of_fmap.
    by symmetry in Hk. }
  destruct (has_key new_name folded); [done|]. rewrite dict_lookup_app, Hf. done.
Qed.

Lemma upgrade_rows groups : NoDup (keys groups) → upgrade groups = upgraded <$> groups.
Proof.
  intros Hnd. unfold upgrade, _migrate.
  etransitivity; [exact (migrate_rows old_name new_name [] groups Hnd)|]. simpl.
  apply list_fmap_ext. intros i g _. unfold upgraded.
  destruct g as [? ? ? ? ? ? [b|] ? ? ?]; simpl; [|done].
  rewrite <- fold_rekey. by destruct (_rekey b old_name new_name).
Qed.

Lemma upgraded_members groups user_id :
  Groups.get_groups_by_member_id dialect user_id (upgraded <$> groups) =
    upgraded <$> Groups.get_groups_by_member_id dialect user_id groups.
Proof.
  unfold Groups.get_groups_by_member_id, Groups.latest_first.
  assert (∀ g, gr_user_ids (upgraded g) = gr_user_ids g ∧ gr_updated_at (upgraded g) = gr_updated_at g)
    as Hsame by (intros g; unfold upgraded; by destruct (gr_permissions g)).
  rewrite filter_fmap_same.
  - apply sort_by_fmap. intros g. by rewrite (proj2 (Hsame g)).
  - intros g. unfold Groups.has_member. by rewrite (proj1 (Hsame g)).
Qed.

Lemma combine_upgraded acc g : combine_group acc (upgraded g) = combine_group acc g.
Proof.
  unfold combine_group, upgraded. destruct acc as [p|e]; [|done].
  destruct (gr_permissions g) as [b|] eqn:Hb; simpl; [|by rewrite Hb].
  by rewrite (fold_no_old (fold_renamed_group b)) by apply fold_drops_old.
Qed.

(** The rename is safe to land in either order.  Migrating the stored blobs
    changes neither the object the client reads nor any decision of the server's
    gate on a permission outside the old group, leaves no blob with the old key,
    and running it again does nothing. *)
Theorem migration_is_transparent groups user_id d :
  NoDup (keys groups) →
  get_permissions dialect (upgrade groups) user_id d = get_permissions dialect groups user_id d ∧
  (∀ key, head (split_on "."%char key) ≠ Some old_name →
     has_permission dialect (upgrade groups) user_id key d =
       has_permission dialect groups user_id key d) ∧
  (∀ g b, g ∈ upgrade groups → gr_permissions g = Some b → dict_lookup old_name b = None) ∧
  upgrade (upgrade groups) = upgrade groups.
Proof.
  intros Hnd. rewrite upgrade_rows by done. split_and!.
  - unfold get_permissions. rewrite upgraded_members. generalize (Ok (E:=PyError) (JDict d)).
    induction (Groups.get_groups_by_member_id dialect user_id groups) as [|g gs IH]; [done|].
    intros acc. cbn [foldl fmap list_fmap]. by rewrite combine_upgraded.
  - intros key Hkey. unfold has_permission. cbv zeta. rewrite upgraded_members. f_equal.
    destruct (split_on "."%char key) as [|first rest] eqn:Hpath; [by apply split_on_ne in Hpath|].
    assert (first ≠ old_name) by (simpl in Hkey; congruence).
    induction (Groups.get_groups_by_member_id dialect user_id groups) as [|g gs IH]; [done|].
    cbn [existsb fmap list_fmap]. rewrite IH. f_equal. unfold upgraded.
    destruct (gr_permissions g) as [b|] eqn:Hb; [|by rewrite Hb].
    change (blob_of (gr_permissions (g <| gr_permissions := Some (fold_renamed_group b) |>)))
      with (JDict (fold_renamed_group b)).
    cbn [blob_of]. rewrite !resolve_folded by done. by rewrite fold_no_old by apply fold_drops_old.
  - intros g b (g' & -> & _)%list_elem_of_fmap. unfold upgraded.
    destruct (gr_permissions g') as [b'|] eqn:Hb; simpl; [|congruence].
    intros [= <-]. apply fold_drops_old.
  - rewrite upgrade_rows.
    + rewrite <- list_fmap_compose. apply list_fmap_ext. intros i g _. simpl.
      unfold upgraded. destruct g as [? ? ? ? ? ? [b|] ? ? ?]; simpl; [|done].
      by rewrite (fold_no_old (fold_renamed_group b)) by apply fold_drops_old.
    + unfold keys. rewrite <- list_fmap_compose.
      replace (row_key ∘ upgraded <$> groups) with (keys groups); [done|].
      apply list_fmap_ext. intros i g _. unfold upgraded. simpl. by destruct (gr_permissions g).
Qed.
End permissions.

(** ** Runs *)

Module AccessRuns.

Definition flags (l : list (string * bool)) : Json := JDict ((λ kv, (kv.1, JBool kv.2)) <$> l).

Definition group (id : string) (permissions : option json_dict) (user_ids : list string) : Group :=
  mkGroup id "admin" id "" None None permissions user_ids 10 20.

(** A group the migration has not reached, and one it has. *)
Definition old_blob : json_dict := [("workspace", flags [("models", true)])].
Definition new_blob : json_dict :=
  [("studio", flags [("tools", true); ("evaluations", true)]); ("chat", flags [("delete", false)])].
Definition defaults : json_dict :=
  [("studio", flags [("models", false); ("tools", false)]); ("chat", flags [("delete", true)])].

Definition groups : list Group :=
  [group "g1" (Some old_blob) ["ada"; "bob"]; group "g2" (Some new_blob) ["ada"]].

Definition user (id : string) : User :=
  mkUser id id "" "user" "" 0 0 0 None None None None.

Definition rule : json_dict :=
  [("read", JDict [("group_ids", id_list ["g2"]); ("user_ids", id_list ["bob"])])].

End AccessRuns.
Import AccessRuns.

Ltac solve_compat :=
  match goal with
  | |- compat (JDict _) (JDict _) =>
      apply compat_dict; intros ? ? ? ? ?; simpl in *; repeat case_decide; simplify_eq; solve_compat
  | |- compat _ _ => by apply compat_leaf
  end.

Ltac solve_json_ok :=
  cbv beta; simpl;
  match goal with
  | |- Forall _ [] => apply List.Forall_nil
  | |- Forall _ (_ :: _) => apply List.Forall_cons; solve_json_ok
  | |- json_ok (JDict _) =>
      apply json_ok_dict; [by_decision|solve_json_ok]
  | |- json_ok _ => by apply json_ok_leaf
  end.

Lemma permissions_agree_witness :
  ∃ p, get_permissions SQLite groups "ada" defaults = Ok p ∧
    get_permission p ["studio"; "models"] = true ∧
    has_permission SQLite groups "ada" "studio.models" defaults = true.
Proof.
  destruct (permissions_agree SQLite groups "ada" defaults [old_blob; new_blob])
    as (p & Hp & Hagree).
  - vm_compute. reflexivity.
  - vm_compute. solve_json_ok.
  - intros b c Hb Hc.
    repeat (apply elem_of_cons in Hb as [->|Hb]); try (by apply elem_of_nil in Hb);
    repeat (apply elem_of_cons in Hc as [->|Hc]); try (by apply elem_of_nil in Hc);
    vm_compute; solve_compat.
  - reflexivity.
  - exists p. split; [exact Hp|]. split; [|vm_compute; reflexivity].
    specialize (Hagree "studio.models"). change (split_on _ "studio.models") with ["studio"; "models"] in Hagree.
    rewrite Hagree; [vm_compute; reflexivity|discriminate].
Defined.

Lemma null_blob_breaks_the_session_witness :
  ∃ e, get_permissions PostgreSQL (group "g0" None ["bob"] :: groups) "bob" defaults = Raise e.
Proof.
  destruct (null_blob_breaks_the_session PostgreSQL (group "g0" None ["bob"] :: groups) "bob" defaults
    (group "g0" None ["bob"])) as [He _]; [left|reflexivity|exact He].
Defined.

Lemma access_readings_agree_witness :
  ∃ admitted, get_users_with_access [user "ada"; user "bob"; user "eve"] groups "read" (Some rule) =
      Some admitted ∧
    us_id <$> admitted = ["ada"; "bob"] ∧
    has_access PostgreSQL groups "bob" "read" (Some rule) = Some true.
Proof.
  destruct (access_readings_agree PostgreSQL [user "ada"; user "bob"; user "eve"] groups "read" (Some rule))
    as (admitted & Hadm & Hagree).
  - by_decision.
  - repeat constructor.
  - repeat constructor.
  - exists ["g2"], ["bob"]. by eapply rule_present.
  - exists admitted. split; [exact Hadm|].
    assert (admitted = [user "ada"; user "bob"]) as ->
      by (vm_compute in Hadm; by injection Hadm as <-).
    split; [reflexivity|]. apply (Hagree (user "bob")). right. left.
Defined.

Lemma migration_is_transparent_witness :
  get_permissions SQLite (upgrade groups) "bob" defaults = get_permissions SQLite groups "bob" defaults ∧
  upgrade groups ≠ groups.
Proof.
  destruct (migration_is_transparent SQLite groups "bob" defaults) as [Heq _].
  - by_decision.
  - split; [exact Heq|vm_compute; discriminate].
Defined.

(** A permission the defaults do not declare is in the client's object all the
    same once a group grants it. *)
Example undeclared_grant_is_published :
  match get_permissions SQLite groups "ada" defaults with
  | Ok p => get_permission p ["studio"; "evaluations"]
  | Raise _ => false
  end = true ∧ get_permission (JDict defaults) ["studio"; "evaluations"] = false.
Proof. vm_compute. auto. Qed.

(** Defaults stored before the rename are folded by the gate only: it permits
    what the client is not told of. *)
Example renamed_defaults_disagree :
  has_permission SQLite [] "ada" "studio.models" old_blob = true ∧
  match get_permissions SQLite [] "ada" old_blob with
  | Ok p => get_permission p ["studio"; "models"]
  | Raise _ => true
  end = false.
Proof. vm_compute. auto. Qed.

(** A new group given members but no permissions keeps its members from signing
    in: the object built for them raises. *)
Example first_members_cannot_sign_in :
  let t := (Groups.insert_new_group true 1 "g" "admin" "crew" "" []).2 in
  let t := (Groups.update_group_by_id true 2 "g"
              (mkGroupUpdateForm "crew" "" None (Some ["ada"])) t).2 in
  get_permissions SQLite t "ada" defaults = Raise AttributeError.
Proof. vm_compute. reflexivity. Qed.

(** Without access control, writing: nobody has access, everybody is returned. *)
Example write_without_access_control :
  has_access SQLite groups "ada" "write" None = Some false ∧
  get_users_with_access [user "ada"] groups "write" None = Some [user "ada"].
Proof. vm_compute. auto. Qed.
