(* ===== verification/SignInContract.v ===== *)
(** The contract of accounts: the account tables stay consistent, a new account
    signs in with its password and gets the role it should, and group membership
    follows the provider's claims. *)

From Stdlib Require Import Ascii.
From stdpp Require Import gmap pretty.
From S2P Require Import Prelude Data Accounts AccessControl AccessFacts.
From S2P Require Import Tickets Session SessionContract SignIn.

Section accounts.
Context `{!Jwt} (SESSION_SECRET : string).
Context (checkpw : string → string → option bool) (hashpw : nat → string → string).
Context (uuid4 : nat → string) `{!Inj (=) (=) uuid4} (dialect : Dialect) (cfg : SiteConfig).
Implicit Types (s : Site) (u : User).

(** ** Consistent account tables *)

Record accounts_ok s : Prop := {
  ao_users : NoDup (keys (st_users s));
  ao_emails : NoDup (us_email <$> st_users s);
  ao_minted : ∀ u, u ∈ st_users s → minted uuid4 (st_minted s) (us_id u);
  ao_auths : NoDup (keys (st_auths s));
  ao_owner : ∀ a, a ∈ st_auths s → ∃ u, u ∈ st_users s ∧ us_id u = au_id a ∧ us_email u = au_email a;
  ao_alone : st_meanwhile s = []
}.

(** Nobody has the address yet. *)
Definition free_address (email : string) s : Prop :=
  accounts_ok s ∧ email ∉ us_email <$> st_users s.

Abbreviation holds P := (λ _ : SignInError, P).

Lemma accounts_ok_same s s' :
  st_users s' = st_users s → st_auths s' = st_auths s → st_meanwhile s' = st_meanwhile s →
  (st_minted s ≤ st_minted s')%nat → accounts_ok s → accounts_ok s'.
Proof.
  intros Hu Ha Hm Hn []. split; rewrite ?Hu, ?Ha, ?Hm; try done.
  intros u Hin. apply (minted_le _ (st_minted s)); auto.
Qed.

(** What a step that writes neither table keeps. *)
Definition quiet {A} (m : endpoint A) : Prop := ∀ s,
  let s' := state_of m s in
  st_users s' = st_users s ∧ st_auths s' = st_auths s ∧ st_meanwhile s' = st_meanwhile s ∧
  (st_minted s ≤ st_minted s')%nat.

Lemma quiet_triple {A} (m : endpoint A) P :
  quiet m →
  (∀ s s', st_users s' = st_users s → accounts_ok s' → P s → P s') →
  triple (λ s, accounts_ok s ∧ P s) m (λ _ s, accounts_ok s ∧ P s) (λ _, accounts_ok).
Proof.
  intros Hq HP s [Hok Hs]. destruct (Hq s) as (Hu & Ha & Hm & Hn). unfold state_of in *.
  assert (accounts_ok (m s).2) as Hok' by by eapply accounts_ok_same.
  destruct (m s) as [[a|e] s']; simpl in *; [split; [done|by eapply HP]|done].
Qed.

Lemma quiet_bind {A B} (m : endpoint A) (f : A → endpoint B) :
  quiet m → (∀ a, quiet (f a)) → quiet (m ≫= f).
Proof.
  intros Hm Hf s. specialize (Hm s). unfold state_of in *. rewrite run_bind.
  destruct (m s) as [[a|e] s'] eqn:Hms; simpl in *; [|done].
  destruct (Hf a s') as (H1 & H2 & H3 & H4), Hm as (G1 & G2 & G3 & G4). unfold state_of in *.
  split_and!; [congruence..|lia].
Qed.

Lemma quiet_ret {A} (a : A) : quiet (mret a).
Proof. by intros s. Qed.
Lemma quiet_raise {A} e : quiet (raise e : endpoint A).
Proof. by intros s. Qed.
Lemma quiet_gets {A} (f : Site → A) : quiet (gets f).
Proof. by intros s. Qed.
Lemma quiet_fresh : quiet fresh.
Proof. intros s. unfold fresh, state_of. simpl. split_and!; [done..|lia]. Qed.
Lemma quiet_commit : quiet next_commit.
Proof. intros s. unfold next_commit, state_of. by destruct (st_commits s). Qed.
Lemma quiet_webhook u : quiet (post_webhook cfg u).
Proof. unfold post_webhook. case_decide; by intros s. Qed.
Lemma quiet_hash p : quiet (get_password_hash hashpw p).
Proof. apply quiet_bind; [apply quiet_fresh|intros; apply quiet_ret]. Qed.
Lemma quiet_session u : quiet (session_for SESSION_SECRET dialect cfg u).
Proof.
  apply quiet_bind; [apply quiet_gets|]. intros s.
  destruct (get_permissions _ _ _ _); [apply quiet_ret|apply quiet_raise].
Qed.

Lemma get_user_by_email_None email users :
  Users.get_user_by_email email users = None → email ∉ us_email <$> users.
Proof.
  intros Hn (u & -> & Hu)%list_elem_of_fmap. unfold Users.get_user_by_email, Users.first_where in Hn.
  apply head_None in Hn.
  assert (u ∈ filter (λ v, bool_decide (us_email v = us_email u) = true) users) as Hin
    by (apply list_elem_of_filter; split; [by apply bool_decide_eq_true|done]).
  rewrite Hn in Hin. by apply not_elem_of_nil in Hin.
Qed.

(** ** Inserting an account *)

Definition account_row s (name email pic role : string) (sub : option string) : User :=
  Users.new_user (st_now s) (uuid4 (st_minted s)) name email pic role sub.

Lemma run_insert_new_auth email hashed name pic role sub s :
  let u := account_row s name email pic role sub in
  let m := insert_new_auth uuid4 email hashed name pic role sub in
  let s' := state_of m s in
  st_groups s' = st_groups s ∧ st_enable_signup s' = st_enable_signup s ∧ st_now s' = st_now s ∧
  st_minted s' = S (st_minted s) ∧ st_meanwhile s' = st_meanwhile s ∧
  match result_of m s with
  | Ok v => v = u ∧ st_users s' = st_users s ++ [u] ∧
      st_auths s' = st_auths s ++ [mkAuth (us_id u) email hashed true]
  | Raise e => e = InternalError500 ∧ false ∈ st_commits s ∧ st_auths s' = st_auths s ∧
      (st_users s' = st_users s ∨ st_users s' = st_users s ++ [u])
  end.
Proof.
  unfold insert_new_auth, next_commit, fresh, gets, state_of, result_of, account_row.
  cbv beta iota zeta delta [mbind prog_bind mret prog_ret raise].
  destruct s as [us as_ gs sg now mi [|[] [|[] co]] wh me]; cbn; split_and!;
    try done; try (by left); try (by right); try (left + right; set_solver).
Qed.

Lemma accounts_ok_insert s s' u hashed (with_auth : bool) :
  free_address (us_email u) s → us_id u = uuid4 (st_minted s) →
  st_users s' = st_users s ++ [u] → st_meanwhile s' = st_meanwhile s →
  st_auths s' =
    (if with_auth then st_auths s ++ [mkAuth (us_id u) (us_email u) hashed true] else st_auths s) →
  st_minted s' = S (st_minted s) → accounts_ok s'.
Proof.
  intros [[Hnd Hem Hmint Hau Hown Hal] Hfree] Hid Hu Hm Ha Hn.
  assert (∀ x, x ∈ keys (st_users s) → x ≠ us_id u) as Hnew.
  { intros x (v & -> & Hv)%list_elem_of_fmap Heq. apply (not_minted uuid4 (st_minted s)).
    rewrite <- Hid, <- Heq. by apply Hmint. }
  split; rewrite ?Hu, ?Hm, ?Hn; [..|done].
  - unfold keys. rewrite fmap_app. apply NoDup_app. split_and!; [done| |apply NoDup_singleton].
    intros x Hx ->%list_elem_of_singleton. by apply (Hnew _ Hx).
  - rewrite fmap_app. apply NoDup_app. split_and!; [done| |apply NoDup_singleton].
    intros x Hx ->%list_elem_of_singleton. by apply Hfree.
  - intros v [Hv| ->%list_elem_of_singleton]%elem_of_app; [by apply minted_S, Hmint|].
    rewrite Hid. apply minted_now.
  - rewrite Ha. destruct with_auth; [|done]. unfold keys. rewrite fmap_app. apply NoDup_app.
    split_and!; [done| |apply NoDup_singleton].
    intros x (b & -> & Hb)%list_elem_of_fmap Hx. apply list_elem_of_singleton in Hx.
    destruct (Hown b Hb) as (v & Hv & Hvb & _). apply (Hnew (us_id v)).
    + by apply list_elem_of_fmap_2 with (f := row_key).
    + by rewrite Hvb.
  - rewrite Ha. intros b Hb.
    assert (b ∈ st_auths s ∨ b = mkAuth (us_id u) (us_email u) hashed true) as [Hb'| ->].
    { destruct with_auth; [|by left]. apply elem_of_app in Hb as [Hb|Hb]; [by left|right].
      by apply list_elem_of_singleton. }
    + destruct (Hown b Hb') as (v & Hv & ? & ?). exists v. split; [|done]. apply elem_of_app. by left.
    + exists u. split; [|done]. apply elem_of_app. right. by apply list_elem_of_singleton.
Qed.

Lemma insert_triple email hashed name pic role sub :
  triple (free_address email) (insert_new_auth uuid4 email hashed name pic role sub)
    (λ _, accounts_ok) (λ _, accounts_ok).
Proof.
  intros s Hs. pose proof (run_insert_new_auth email hashed name pic role sub s) as Hrun.
  unfold state_of, result_of in Hrun.
  destruct (insert_new_auth uuid4 email hashed name pic role sub s) as [[v|e] s'];
    simpl in Hrun; destruct Hrun as (_ & _ & _ & Hn & Hm & Hrun).
  - destruct Hrun as (-> & Hu & Ha). by eapply (accounts_ok_insert s s' (account_row s name email pic role sub) hashed true).
  - destruct Hrun as (_ & _ & Ha & [Hu|Hu]).
    + destruct Hs as [Hok _]. eapply accounts_ok_same; [exact Hu|done|done|simpl in *; lia|done].
    + by eapply (accounts_ok_insert s s' (account_row s name email pic role sub) hashed false).
Qed.

Lemma quiet_ok {A} (m : endpoint A) : quiet m → triple accounts_ok m (λ _, accounts_ok) (λ _, accounts_ok).
Proof.
  intros Hq s Hok. pose proof (quiet_triple m (λ _, True) Hq ltac:(done) s ltac:(done)) as Hm.
  destruct (m s) as [[a|e] s']; [by destruct Hm|done].
Qed.

Lemma quiet_free {A} (m : endpoint A) email :
  quiet m → triple (free_address email) m (λ _, free_address email) (λ _, accounts_ok).
Proof.
  intros Hq. apply (quiet_triple m (λ s, email ∉ us_email <$> st_users s) Hq).
  intros s s' Hu _. by rewrite Hu.
Qed.

Lemma or_else_triple {A} P (m : endpoint A) e Q :
  triple P m Q (λ _, accounts_ok) → triple P (or_else m e) Q (λ _, accounts_ok).
Proof. intros Hm s Hs. specialize (Hm s Hs). unfold or_else. by destruct (m s) as [[a|?] s']. Qed.

Lemma user_by_email_triple email :
  triple accounts_ok (user_by_email email)
    (λ r s, match r with Some _ => accounts_ok s | None => free_address email s end)
    (λ _, accounts_ok).
Proof.
  intros s Hok. simpl. destruct (Users.get_user_by_email email (st_users s)) eqn:He; [done|].
  split; [done|by apply get_user_by_email_None].
Qed.

(** One step through the monadic structure of a triple about the account tables. *)
Lemma bind_ok {A B} P (m : endpoint A) (f : A → endpoint B) (Q : A → Site → Prop) :
  triple P m Q (λ _, accounts_ok) → (∀ a, triple (Q a) (f a) (λ _, accounts_ok) (λ _, accounts_ok)) →
  triple P (m ≫= f) (λ _, accounts_ok) (λ _, accounts_ok).
Proof. apply triple_bind. Qed.

Lemma pure_ok {A} (φ : Prop) P (m : endpoint A) :
  (φ → triple P m (λ _, accounts_ok) (λ _, accounts_ok)) →
  triple (λ s, φ ∧ P s) m (λ _, accounts_ok) (λ _, accounts_ok).
Proof. intros Hm s [Hφ Hs]. by apply Hm. Qed.

Lemma quiet_modify (f : Site → Site) :
  (∀ s, st_users (f s) = st_users s ∧ st_auths (f s) = st_auths s ∧
        st_meanwhile (f s) = st_meanwhile s ∧ st_minted (f s) = st_minted s) →
  quiet (modify f).
Proof. intros Hf s. destruct (Hf s) as (? & ? & ? & ?). unfold state_of. simpl. split_and!; [done..|lia]. Qed.

Lemma quiet_role : quiet (role_for_newcomer cfg).
Proof. apply quiet_bind; [apply quiet_gets|intros; apply quiet_ret]. Qed.

#[local] Hint Resolve quiet_ret quiet_raise quiet_gets quiet_fresh quiet_commit quiet_webhook
  quiet_hash quiet_session quiet_role : s2db.

Definition keeps {A} (m : endpoint A) : Prop :=
  triple accounts_ok m (λ _, accounts_ok) (λ _, accounts_ok).

Lemma keeps_raise {A} e : keeps (raise e : endpoint A).
Proof. by apply quiet_ok, quiet_raise. Qed.

Lemma signup_keeps form : keeps (signup SESSION_SECRET hashpw uuid4 dialect cfg form).
Proof.
  unfold signup. eapply bind_ok; [by apply quiet_ok, quiet_gets|]. intros s0.
  destruct (if sc_webui_auth cfg then _ else _); [apply keeps_raise|].
  destruct (negb _); [apply keeps_raise|].
  eapply bind_ok; [apply user_by_email_triple|]. intros [u|]; [apply keeps_raise|].
  apply or_else_triple.
  eapply bind_ok; [apply quiet_free, quiet_role|]. intros role.
  eapply bind_ok; [apply quiet_free, quiet_modify; intros s; by case_decide|]. intros [].
  eapply bind_ok; [apply quiet_free, quiet_hash|]. intros hashed.
  eapply bind_ok; [apply insert_triple|]. intros u.
  eapply bind_ok; [apply quiet_ok, quiet_webhook|]. intros []. apply quiet_ok, quiet_session.
Qed.

Lemma signin_keeps trusted email password :
  keeps (signin SESSION_SECRET checkpw hashpw uuid4 dialect cfg trusted email password).
Proof.
  unfold signin. eapply (bind_ok _ _ _ (λ _, accounts_ok)).
  2: { intros [u|]; [apply quiet_ok, quiet_session|apply keeps_raise]. }
  destruct (sc_trusted_email_header cfg).
  - destruct trusted as [[header name]|]; [|apply keeps_raise].
    eapply bind_ok; [apply quiet_ok, quiet_gets|]. intros known.
    eapply (bind_ok _ _ _ (λ _, accounts_ok)); [|intros; apply quiet_ok, quiet_gets].
    destruct known; [apply quiet_ok, quiet_ret|].
    eapply bind_ok; [apply quiet_ok, quiet_fresh|]. intros n.
    eapply bind_ok; [apply signup_keeps|]. intros; apply quiet_ok, quiet_ret.
  - destruct (negb _); [|apply quiet_ok, quiet_gets].
    eapply bind_ok; [apply quiet_ok, quiet_gets|]. intros [u|]; [apply quiet_ok, quiet_gets|].
    eapply bind_ok; [apply quiet_ok, quiet_gets|]. intros users. case_decide; [apply keeps_raise|].
    eapply bind_ok; [apply signup_keeps|]. intros; apply quiet_ok, quiet_gets.
Qed.

Lemma add_user_keeps form role : keeps (add_user SESSION_SECRET hashpw uuid4 form role).
Proof.
  unfold add_user. destruct (negb _); [apply keeps_raise|].
  eapply bind_ok; [apply user_by_email_triple|]. intros [u|]; [apply keeps_raise|].
  apply or_else_triple. eapply bind_ok; [apply quiet_free, quiet_hash|]. intros hashed.
  eapply bind_ok; [apply insert_triple|]. intros u.
  eapply bind_ok; [apply quiet_ok, quiet_gets|]. intros; apply quiet_ok, quiet_ret.
Qed.

Lemma ldap_keeps enabled search user password :
  keeps (ldap_auth SESSION_SECRET uuid4 cfg enabled search user password).
Proof.
  unfold ldap_auth. destruct (negb _); [apply keeps_raise|]. apply or_else_triple.
  destruct (search _) as [entry|]; [|apply keeps_raise].
  case_decide; [apply keeps_raise|]. destruct (negb _); [apply keeps_raise|].
  eapply bind_ok; [apply user_by_email_triple|]. intros known.
  eapply (bind_ok _ _ _ (λ _, accounts_ok)).
  - destruct known; [by apply quiet_ok, quiet_ret|].
    eapply bind_ok; [apply quiet_free, quiet_role|]. intros role.
    eapply bind_ok; [apply quiet_free, quiet_fresh|]. intros n.
    eapply bind_ok; [apply insert_triple|]. intros; apply quiet_ok, quiet_ret.
  - intros []. eapply bind_ok; [apply quiet_ok, quiet_gets|].
    intros [u|]; [|apply keeps_raise]. eapply bind_ok; [apply quiet_ok, quiet_gets|].
    intros; apply quiet_ok, quiet_ret.
Qed.

(** Rewriting accounts in place. *)
Lemma accounts_ok_update s id (f : User → User) :
  (∀ u, us_id (f u) = us_id u) → (∀ u, us_email (f u) = us_email u) →
  accounts_ok s → accounts_ok (s <| st_users := update_row id f (st_users s) |>).
Proof.
  intros Hid Hemail [Hnd Hem Hmint Hau Hown Hal].
  assert (keeps_key f) as Hk by done.
  split; simpl; try done.
  - by rewrite keys_update_row.
  - by rewrite fmap_update_row_same.
  - intros u. rewrite elem_of_update_row by done.
    intros [[Hu _]|(u0 & [Hu _]%find_row_Some & ->)]; [by apply Hmint|].
    rewrite Hid. by apply Hmint.
  - intros b Hb. destruct (Hown b Hb) as (u & Hu & Hi & He).
    destruct (decide (us_id u = id)) as [Heq|Hne].
    + exists (f u). rewrite Hid, Hemail. split; [|done]. apply elem_of_update_row; [done..|].
      right. exists u. split; [|done]. rewrite <- Heq. by apply (find_row_elem (st_users s)).
    + exists u. split; [|done]. apply elem_of_update_row; [done..|]. by left.
Qed.

Lemma update_user_triple {A} ok id (f : User → User) (g : option User * list User → A * list User) :
  (∀ u, us_id (f u) = us_id u) → (∀ u, us_email (f u) = us_email u) →
  (∀ r, (g r).2 = r.2) →
  keeps (on_users (λ users, g (Users.update_user ok id f users))).
Proof.
  intros Hid Hemail Hg s Hok. unfold on_users.
  pose proof (Hg (Users.update_user ok id f (st_users s))) as Hg2.
  destruct (g (Users.update_user ok id f (st_users s))) as [a users]. simpl in Hg2. subst users.
  unfold Users.update_user. destruct ok; simpl; [by apply accounts_ok_update|].
  by destruct s.
Qed.

Lemma update_user_keeps ok id (f : User → User) :
  (∀ u, us_id (f u) = us_id u) → (∀ u, us_email (f u) = us_email u) →
  keeps (on_users (Users.update_user ok id f)).
Proof. intros Hid Hemail. by apply (update_user_triple ok id f (λ r, r)). Qed.

Lemma api_key_keeps ok id key : keeps (on_users (Users.update_user_api_key_by_id ok id key)).
Proof.
  intros s Hok. unfold on_users, Users.update_user_api_key_by_id.
  destruct ok; simpl; [by apply accounts_ok_update|by destruct s].
Qed.

Lemma internal_keeps {A} (x : option A) : quiet (or_internal x).
Proof. destruct x; [apply quiet_ret|apply quiet_raise]. Qed.

Lemma find_oauth_keeps sub email : keeps (find_oauth_user cfg sub email).
Proof.
  unfold find_oauth_user. eapply bind_ok; [apply quiet_ok, quiet_gets|].
  intros [u|]; [apply quiet_ok, quiet_ret|]. destruct (oc_merge_by_email _); [|apply quiet_ok, quiet_ret].
  eapply bind_ok; [apply quiet_ok, quiet_gets|]. intros [u|]; [|apply quiet_ok, quiet_ret].
  eapply bind_ok; [apply quiet_ok, quiet_commit|]. intros ok.
  eapply bind_ok; [apply quiet_ok, quiet_gets|]. intros now.
  eapply bind_ok; [by apply update_user_keeps|]. intros; apply quiet_ok, quiet_ret.
Qed.

Lemma refresh_role_keeps u user_data : keeps (refresh_role cfg u user_data).
Proof.
  unfold refresh_role. eapply bind_ok; [apply quiet_ok, quiet_gets|]. intros users.
  eapply bind_ok; [apply quiet_ok, internal_keeps|]. intros role.
  case_decide; [apply quiet_ok, quiet_ret|].
  eapply bind_ok; [apply quiet_ok, quiet_commit|]. intros ok.
  eapply bind_ok; [by apply update_user_keeps|]. intros; apply quiet_ok, quiet_ret.
Qed.

Lemma download_free picture url email :
  triple (free_address email) (download picture url) (λ _, free_address email) (λ _, accounts_ok).
Proof.
  intros s [Hok Hf]. unfold download. by rewrite (ao_alone _ Hok).
Qed.

Lemma oauth_signup_keeps picture sub email user_data :
  lower_claim "email" user_data = Some email →
  keeps (oauth_signup hashpw uuid4 cfg picture sub email user_data).
Proof.
  intros He. unfold oauth_signup. destruct (negb _); [apply keeps_raise|]. rewrite He. simpl.
  eapply (bind_ok _ _ _ (λ a s, a = email ∧ accounts_ok s)); [by intros s Hok|].
  intros a. apply pure_ok. intros ->.
  eapply bind_ok; [apply user_by_email_triple|]. intros [u|]; [apply keeps_raise|].
  eapply (bind_ok _ _ _ (λ _, free_address email)).
  { unfold profile_picture.
    destruct (dict_lookup (oc_picture_claim _) user_data) as [[| | | |[|c url]| |]|];
      try apply quiet_free, quiet_ret.
    eapply triple_bind; [apply download_free|]. intros p. apply quiet_free, quiet_ret. }
  intros url. eapply bind_ok; [apply quiet_free, quiet_gets|]. intros users.
  eapply bind_ok; [apply quiet_free, internal_keeps|]. intros role.
  eapply bind_ok; [apply quiet_free, quiet_fresh|]. intros n.
  eapply bind_ok; [apply quiet_free, quiet_hash|]. intros hashed.
  eapply bind_ok; [apply quiet_free, internal_keeps|]. intros name.
  eapply bind_ok; [apply insert_triple|]. intros u.
  eapply bind_ok; [apply quiet_ok, quiet_webhook|]. intros; apply quiet_ok, quiet_ret.
Qed.

Lemma groups_quiet g d ids : quiet (set_members g d ids).
Proof.
  apply quiet_bind; [apply quiet_commit|]. intros ok. by apply quiet_modify.
Qed.

Lemma update_groups_quiet u user_data d : quiet (update_user_groups dialect cfg u user_data d).
Proof.
  unfold update_user_groups. apply quiet_bind; [apply quiet_gets|]. intros gs.
  set (claimed := default _ _). generalize (Groups.get_groups_by_member_id dialect (us_id u) gs).
  intros current. apply quiet_bind; [|intros _].
  - generalize current. intros l. induction l as [|g l IH]; [apply quiet_ret|]. simpl.
    apply quiet_bind; [apply internal_keeps|]. intros stays.
    apply quiet_bind; [destruct stays; [apply quiet_ret|apply groups_quiet]|]. by intros _.
  - generalize (Groups.get_groups gs). intros l. induction l as [|g l IH]; [apply quiet_ret|]. simpl.
    apply quiet_bind; [apply internal_keeps|]. intros named.
    apply quiet_bind; [destruct (named && _); [apply groups_quiet|apply quiet_ret]|]. by intros _.
Qed.

Lemma callback_keeps py_str picture provider user_data :
  oc_email_claim (sc_oauth cfg) = "email" →
  keeps (handle_callback SESSION_SECRET hashpw uuid4 dialect cfg py_str picture provider user_data).
Proof.
  intros Hclaim. unfold handle_callback. rewrite Hclaim.
  destruct (dict_lookup "sub" user_data) as [sub|]; [|apply keeps_raise].
  destruct (negb _); [apply keeps_raise|].
  destruct (lower_claim "email" user_data) as [email|] eqn:Hemail.
  2: { intros s Hok. done. }
  eapply (bind_ok _ _ _ (λ a s, a = email ∧ accounts_ok s)); [by intros s Hok|].
  intros a. apply pure_ok. intros ->.
  case_decide; [apply keeps_raise|]. case_decide; [apply keeps_raise|].
  eapply bind_ok; [apply find_oauth_keeps|]. intros known.
  eapply (bind_ok _ _ _ (λ _, accounts_ok)).
  - destruct known as [u|]; [|by apply oauth_signup_keeps].
    eapply bind_ok; [apply refresh_role_keeps|]. intros; apply quiet_ok, quiet_ret.
  - intros u. eapply bind_ok; [apply quiet_ok, quiet_gets|]. intros now.
    eapply (bind_ok _ _ _ (λ _, accounts_ok)); [|intros; apply quiet_ok, quiet_ret].
    destruct (oc_group_management _); [apply quiet_ok, update_groups_quiet|apply quiet_ok, quiet_ret].
Qed.

Lemma update_password_keeps u password new_password :
  keeps (update_password checkpw hashpw cfg u password new_password).
Proof.
  unfold update_password. destruct (sc_trusted_email_header cfg); [apply keeps_raise|].
  eapply bind_ok; [apply quiet_ok, quiet_gets|]. intros [v|]; [|apply keeps_raise].
  eapply bind_ok; [apply quiet_ok, quiet_hash|]. intros hashed.
  eapply bind_ok; [apply quiet_ok, quiet_commit|]. intros ok s [Hnd Hem Hmint Hau Hown Hal].
  unfold on_auths, Auths.update_user_password_by_id, Auths.update_auth. destruct ok; [|by destruct s].
  assert (keeps_key (λ a : Auth, a <| au_password := hashed |>)) as Hk by done.
  split; simpl; try done; [by rewrite keys_update_row|].
  intros b. rewrite elem_of_update_row by done.
  intros [[Hb _]|(b0 & [Hb _]%find_row_Some & ->)]; [by apply Hown|exact (Hown _ Hb)].
Qed.

(** ** Signing up *)

Lemma find_row_last {A} `{Keyed A} (t : list A) x :
  row_key x ∉ keys t → find_row (row_key x) (t ++ [x]) = Some x.
Proof.
  intros Hx%find_row_None. rewrite find_row_app, Hx. simpl. by rewrite decide_True.
Qed.

Lemma run_session_for u s r s' :
  session_for SESSION_SECRET dialect cfg u s = (r, s') → s' = s.
Proof.
  unfold session_for. rewrite run_bind. unfold gets. cbn [id].
  destruct (get_permissions _ _ _ _); by intros [= _ <-].
Qed.

Lemma run_webhook u s r s' :
  post_webhook cfg u s = (r, s') →
  st_users s' = st_users s ∧ st_auths s' = st_auths s ∧ st_minted s' = st_minted s.
Proof. unfold post_webhook. case_decide; intros Hrun; by inversion Hrun. Qed.

(** A sign-up that succeeds: the address was free, and the account and its
    credential are the only rows added. *)
Lemma run_signup form s su s' :
  signup SESSION_SECRET hashpw uuid4 dialect cfg form s = (Ok su, s') →
  ∃ u salt,
    u = Users.new_user (st_now s) (us_id u) (sf_name form) (lower (sf_email form))
          (sf_profile_image_url form)
          (if decide (st_users s = []) then "admin" else sc_default_user_role cfg) None ∧
    minted uuid4 (st_minted s') (us_id u) ∧ (accounts_ok s → us_id u ∉ keys (st_users s)) ∧
    lower (sf_email form) ∉ us_email <$> st_users s ∧
    st_users s' = st_users s ++ [u] ∧
    st_auths s' = st_auths s ++
      [mkAuth (us_id u) (lower (sf_email form)) (hashpw salt (_bcrypt_bytes (sf_password form))) true] ∧
    session_for SESSION_SECRET dialect cfg u s' = (Ok su, s').
Proof.
  unfold signup. intros (s0 & s1 & Hs0 & Hrun)%run_bind_Ok. unfold gets in Hs0; injection Hs0 as <- <-.
  destruct (if sc_webui_auth cfg then _ else _); [done|]. destruct (negb _); [done|].
  apply run_bind_Ok in Hrun as (taken & s1 & Ht & Hrun). unfold user_by_email, gets in Ht; injection Ht as <- <-.
  destruct (Users.get_user_by_email _ (st_users s)) as [u|] eqn:Hfree; [done|].
  apply get_user_by_email_None in Hfree. unfold or_else in Hrun.
  match type of Hrun with (match ?m s with _ => _ end = _) => set (body := m) in * end.
  destruct (body s) as [[a|e] s2] eqn:Hbody; [injection Hrun as -> ->|done].
  subst body. apply run_bind_Ok in Hbody as (role & s1 & Hrole & Hbody).
  unfold role_for_newcomer in Hrole. rewrite run_bind in Hrole. injection Hrole as <- <-.
  apply run_bind_Ok in Hbody as ([] & s1 & Hmod & Hbody). unfold modify in Hmod; injection Hmod as <-.
  apply run_bind_Ok in Hbody as (hashed & s1 & Hhash & Hbody).
  unfold get_password_hash in Hhash. apply run_bind_Ok in Hhash as (salt & s3 & Hfresh & Hhash).
  unfold fresh in Hfresh. injection Hfresh as <- <-. unfold mret, prog_ret in Hhash.
  injection Hhash as <- <-.
  apply run_bind_Ok in Hbody as (u & s1 & Hins & Hbody).
  match type of Hins with _ _ _ _ _ _ _ _ ?s0 = _ => set (s3 := s0) in Hins end.
  assert (st_users s3 = st_users s ∧ st_auths s3 = st_auths s ∧ st_now s3 = st_now s ∧
    st_minted s3 = S (st_minted s)) as (E1 & E2 & E3 & E4)
    by (unfold s3; by case_decide).
  clearbody s3.
  match type of Hins with insert_new_auth _ ?e ?h ?n ?p ?r ?o _ = _ =>
    pose proof (run_insert_new_auth e h n p r o s3) as Hrun end.
  unfold state_of, result_of in Hrun. rewrite Hins in Hrun. simpl in Hrun.
  destruct Hrun as (_ & _ & _ & Hn & _ & Hu & Husers & Hauths).
  apply run_bind_Ok in Hbody as ([] & s4 & Hhook & Hbody).
  destruct (run_webhook u s1 (Ok ()) s4 Hhook) as (F1 & F2 & F3).
  pose proof (run_session_for _ _ _ _ Hbody) as ->.
  eexists u, _. rewrite <- Hu in Husers. unfold account_row in Hu, Hauths.
  rewrite E3, E4 in Hu. rewrite E1 in Husers. rewrite E2 in Hauths. rewrite E4 in Hn.
  split_and!; try done.
  - by rewrite Hu.
  - rewrite F3, Hn, Hu. apply minted_now.
  - intros Hok (v & Hv & Hin)%list_elem_of_fmap. apply (not_minted uuid4 (S (st_minted s))).
    rewrite Hu in Hv. unfold row_key, User_keyed in Hv. simpl in Hv. rewrite Hv.
    apply (minted_le _ (st_minted s)); [by apply (ao_minted _ Hok)|lia].
  - by rewrite F1, Husers.
  - by rewrite F2, Hauths, Hu, E4.
Qed.

Lemma active_auth_last auths a email :
  (∀ b, b ∈ auths → au_email b ≠ email) → au_email a = email → au_active a = true →
  Auths.active_auth email (auths ++ [a]) = Some a.
Proof.
  intros Hother He Ha. unfold Auths.active_auth. rewrite filter_app, filter_none.
  - by rewrite filter_cons_True.
  - intros b Hb [Hbe _]. by apply (Hother b).
Qed.

(** [bcrypt] as documented: a hash has the modular-crypt shape and the bytes it was
    made from check against it. *)
Record bcrypt_laws : Prop := {
  bcrypt_shape n b : bcrypt_hash_shape (hashpw n b) = true;
  bcrypt_checks n b : checkpw b (hashpw n b) = Some true
}.

(** Signing up signs you up, once.  A successful sign-up adds one account, with
    the address in lower case, made administrator exactly when there was no other;
    signing in afterwards with the address in any case and a password that agrees
    on its first 72 bytes opens the same session; and signing up again with the
    address is refused while sign-up stays enabled. *)
Theorem sign_up_then_sign_in form s su s' :
  bcrypt_laws → accounts_ok s → sc_webui_auth cfg = true → sc_trusted_email_header cfg = false →
  signup SESSION_SECRET hashpw uuid4 dialect cfg form s = (Ok su, s') →
  us_role (su_user su) = (if decide (st_users s = []) then "admin" else sc_default_user_role cfg) ∧
  us_email (su_user su) = lower (sf_email form) ∧
  (∀ email password, lower email = lower (sf_email form) →
     _bcrypt_bytes password = _bcrypt_bytes (sf_password form) →
     signin SESSION_SECRET checkpw hashpw uuid4 dialect cfg None email password s' = (Ok su, s')) ∧
  ∀ form', lower (sf_email form') = lower (sf_email form) →
    result_of (signup SESSION_SECRET hashpw uuid4 dialect cfg form') s' =
      Raise (if negb (st_enable_signup s') || negb (sc_enable_login_form cfg)
             then AccessProhibited403
             else if validate_email_format (lower (sf_email form)) then EmailTaken400
             else InvalidEmailFormat400).
Proof.
  intros [Hshape Hcheck] Hok Hauth Htrust Hrun.
  destruct (run_signup _ _ _ _ Hrun) as (u & salt & Hu & _ & Hid & Hfree & Hus & Has & Hsess).
  assert (su_user su = u) as Hsu.
  { unfold session_for in Hsess. rewrite run_bind in Hsess. unfold gets in Hsess. cbn [id] in Hsess.
    destruct (get_permissions _ _ _ _); [|done]. by injection Hsess as <-. }
  assert (find_row (us_id u) (st_users s') = Some u) as Hfind
    by (rewrite Hus; by apply (find_row_last (st_users s)), Hid).
  assert (∀ a, a ∈ st_auths s → au_email a ≠ lower (sf_email form)) as Hother.
  { intros a Ha Heq. destruct (ao_owner _ Hok a Ha) as (v & Hv & _ & He). apply Hfree.
    rewrite <- Heq, <- He. by apply list_elem_of_fmap_2. }
  assert (us_email u = lower (sf_email form)) as Hemail by by rewrite Hu.
  rewrite Hsu. split_and!; [by rewrite Hu|done| |].
  - intros email password He Hb. unfold signin. rewrite Htrust, Hauth. cbn [negb].
    rewrite run_bind. unfold authenticate_user, gets. rewrite He.
    assert (Auths.authenticate_user (verify_password checkpw) (lower (sf_email form)) password
      (st_users s') (st_auths s') = Some u) as ->; [|done].
    unfold Auths.authenticate_user. rewrite Has, active_auth_last by done.
    simpl. unfold verify_password. rewrite decide_False.
    2: { intros E. pose proof (Hshape salt (_bcrypt_bytes (sf_password form))) as Hs. by rewrite E in Hs. }
    rewrite Hshape, Hb, Hcheck. exact Hfind.
  - intros form' He. unfold result_of, signup. rewrite run_bind. unfold gets. cbn [id].
    rewrite Hauth, He. destruct (negb (st_enable_signup s') || _); [done|].
    destruct (validate_email_format _); [|done]. cbn [negb].
    rewrite run_bind. unfold user_by_email, gets.
    destruct (Users.get_user_by_email _ (st_users s')) as [v|] eqn:Hv; [done|].
    apply get_user_by_email_None in Hv. destruct Hv. rewrite Hus, <- Hemail.
    apply list_elem_of_fmap_2, elem_of_app. right. by apply list_elem_of_singleton.
Qed.

(** A failed first sign-up locks everyone out of signing up.  When the very first
    sign-up passes its checks and the insert of its account fails, the request is
    answered 500 with no account made, and yet sign-up has been switched off: every
    later sign-up, by anyone, is refused and changes nothing. *)
Theorem failed_first_signup_locks_out form s :
  sc_webui_auth cfg = true → sc_enable_login_form cfg = true → st_users s = [] →
  st_enable_signup s = true → validate_email_format (lower (sf_email form)) = true →
  head (st_commits s) = Some false →
  let s' := state_of (signup SESSION_SECRET hashpw uuid4 dialect cfg form) s in
  result_of (signup SESSION_SECRET hashpw uuid4 dialect cfg form) s = Raise CreateUserError500 ∧
  st_users s' = [] ∧ st_auths s' = st_auths s ∧
  ∀ form', signup SESSION_SECRET hashpw uuid4 dialect cfg form' s' = (Raise AccessProhibited403, s').
Proof.
  intros Hauth Hform Hus Hen Hemail Hcommit.
  destruct s as [us as_ gs sg now mi [|[] cs] wh me]; simplify_eq/=.
  unfold result_of, state_of, signup. rewrite Hauth, Hform, Hemail. done.
Qed.

(** ** The invariant *)

(** A request, with its arguments. *)
Inductive SiteCall :=
| CallSignup (form : SignupForm)
| CallSignin (trusted : option (string * option string)) (email password : string)
| CallAddUser (form : SignupForm) (role : string)
| CallLdap (enabled : bool) (search : string → option LdapEntry) (user password : string)
| CallOAuth (provider : string) (user_data : json_dict)
| CallUpdateProfile (user : User) (name profile_image_url : string)
| CallUpdatePassword (user : User) (password new_password : string)
| CallGenerateKey (user : User)
| CallDeleteKey (user : User).

Context (py_str : Json → string) (picture : string → string).

Definition site_call s (c : SiteCall) : Site :=
  match c with
  | CallSignup form => state_of (signup SESSION_SECRET hashpw uuid4 dialect cfg form) s
  | CallSignin t e p => state_of (signin SESSION_SECRET checkpw hashpw uuid4 dialect cfg t e p) s
  | CallAddUser form role => state_of (add_user SESSION_SECRET hashpw uuid4 form role) s
  | CallLdap en search u p => state_of (ldap_auth SESSION_SECRET uuid4 cfg en search u p) s
  | CallOAuth provider data =>
      state_of (handle_callback SESSION_SECRET hashpw uuid4 dialect cfg py_str picture provider data) s
  | CallUpdateProfile u n p => state_of (update_profile u n p) s
  | CallUpdatePassword u p q => state_of (update_password checkpw hashpw cfg u p q) s
  | CallGenerateKey u => state_of (generate_api_key uuid4 cfg u) s
  | CallDeleteKey u => state_of (delete_api_key u) s
  end.

Lemma accounts_state {A} (m : endpoint A) s : keeps m → accounts_ok s → accounts_ok (state_of m s).
Proof. intros Hm Hok. specialize (Hm s Hok). unfold state_of. by destruct (m s) as [[a|e] s']. Qed.

(** C32: the account tables stay consistent.  Whatever sign-ups, sign-ins, directory
    and provider logins, profile, password and key changes run, in whatever order
    and whichever commits fail, no two accounts share an id or an e-mail address
    and every credential belongs to the account with its id and address, as long
    as the provider's e-mail claim is the standard one, the requests follow one another
    (nobody else writes while a profile picture is downloaded), new ids are fresh and the
    tables are consistent at the start. *)
Theorem accounts_stay_consistent calls s :
  oc_email_claim (sc_oauth cfg) = "email" → accounts_ok s → accounts_ok (foldl site_call s calls).
Proof.
  intros Hclaim. revert s. induction calls as [|c calls IH]; intros s Hok; [done|]. simpl. apply IH.
  destruct c; simpl; apply accounts_state; try done.
  - apply signup_keeps.
  - apply signin_keeps.
  - apply add_user_keeps.
  - apply ldap_keeps.
  - by apply callback_keeps.
  - unfold update_profile. eapply bind_ok; [apply quiet_ok, quiet_commit|]. intros ok.
    eapply bind_ok; [by apply update_user_keeps|]. intros [u|]; [apply quiet_ok, quiet_ret|apply keeps_raise].
  - apply update_password_keeps.
  - unfold generate_api_key. destruct (negb _); [apply keeps_raise|].
    eapply bind_ok; [apply quiet_ok, quiet_bind; [apply quiet_fresh|intros; apply quiet_ret]|]. intros key.
    eapply bind_ok; [apply quiet_ok, quiet_commit|]. intros ok.
    eapply bind_ok; [apply api_key_keeps|]. intros []; [apply quiet_ok, quiet_ret|apply keeps_raise].
  - eapply bind_ok; [apply quiet_ok, quiet_commit|]. intros ok. apply api_key_keeps.
Qed.
End accounts.
