(* ===== verification/OAuthGroups.v ===== *)
(** Group membership through the identity provider: after a callback the account is
    in exactly the groups its claim names, [update_user_groups] of [utils/oauth.py]. *)

From stdpp Require Import gmap.
From S2P Require Import Prelude Data Accounts AccessControl AccessFacts.
From S2P Require Import Tickets Session SignIn.

Section oauth_groups.
Context (dialect : Dialect) (cfg : SiteConfig) (u : User) (d : json_dict).
Implicit Types (s : Site) (g : Group).

(** ** The two loops when no commit fails *)

Section loops.
Context (names : list string).
Let claimed := JList (JStr <$> names).

Lemma py_in_names x : py_in x claimed = Some (bool_decide (x ∈ names)).
Proof.
  unfold claimed. cbn [py_in]. f_equal. apply eq_true_iff_eq.
  rewrite bool_decide_eq_true, existsb_exists. split.
  - intros (j & (y & -> & Hy)%list_elem_of_In%list_elem_of_fmap & Hj). simpl in Hj.
    apply bool_decide_eq_true in Hj. by subst.
  - intros Hx. exists (JStr x). split; [|by apply bool_decide_eq_true].
    by apply list_elem_of_In, list_elem_of_fmap_2.
Qed.

Definition left_row now g : Group → Group :=
  Groups.updated_row now (members_form g d (filter (λ i, i ≠ us_id u) (gr_user_ids g))).
Definition joined_row now g : Group → Group :=
  Groups.updated_row now (members_form g d (gr_user_ids g ++ [us_id u])).

Lemma run_set_members g ids s :
  st_commits s = [] →
  set_members g d ids s =
    (Ok tt, s <| st_groups := update_row (gr_id g)
       (Groups.updated_row (st_now s) (members_form g d ids)) (st_groups s) |>).
Proof. intros Hc. unfold set_members, next_commit. rewrite run_bind, Hc. by destruct s. Qed.

Lemma run_leave_groups l s :
  st_commits s = [] →
  leave_groups u claimed d l s =
    (Ok tt, s <| st_groups := foldl (λ t g, if negb (bool_decide (gr_name g ∈ names))
       then update_row (row_key g) (left_row (st_now s) g) t else t) (st_groups s) l |>).
Proof.
  revert s. induction l as [|g l IH]; intros s Hc; [by destruct s|]. cbn [leave_groups foldl].
  rewrite run_bind, py_in_names. unfold or_internal. cbn [mret prog_ret]. rewrite run_bind.
  destruct (bool_decide _); cbn [negb].
  - unfold mret, prog_ret. by rewrite IH.
  - rewrite run_set_members, IH by done. done.
Qed.

Definition joins (current : list Group) g : bool :=
  bool_decide (gr_name g ∈ names) &&
  negb (existsb (λ gm, bool_decide (gr_name gm = gr_name g)) current).

Lemma run_join_groups current l s :
  st_commits s = [] →
  join_groups u claimed d current l s =
    (Ok tt, s <| st_groups := foldl (λ t g, if joins current g
       then update_row (row_key g) (joined_row (st_now s) g) t else t) (st_groups s) l |>).
Proof.
  revert s. induction l as [|g l IH]; intros s Hc; [by destruct s|]. cbn [join_groups foldl].
  rewrite run_bind, py_in_names. unfold or_internal. cbn [mret prog_ret]. rewrite run_bind.
  unfold joins at 2. destruct (bool_decide _ && negb _).
  - rewrite run_set_members, IH by done. done.
  - unfold mret, prog_ret. by rewrite IH.
Qed.

(** ** What becomes of a group *)

(** No two groups share an id or a name, and ids are plain text. *)
Record groups_ok (t : list Group) : Prop := {
  go_ids : NoDup (keys t);
  go_names : ∀ g g', g ∈ t → g' ∈ t → gr_name g = gr_name g' → g = g';
  go_plain : ∀ g, g ∈ t → Forall (λ i, plain_id i = true) (gr_user_ids g)
}.

Definition followed now g : Group :=
  if decide (gr_name g ∈ names)
  then if decide (us_id u ∈ gr_user_ids g) then g else joined_row now g g
  else if decide (us_id u ∈ gr_user_ids g) then left_row now g g else g.

Definition followed_groups now (t : list Group) : list Group :=
  let current := Groups.get_groups_by_member_id dialect (us_id u) t in
  let t1 := foldl (λ t g, if negb (bool_decide (gr_name g ∈ names))
              then update_row (row_key g) (left_row now g) t else t) t current in
  foldl (λ t g, if joins current g then update_row (row_key g) (joined_row now g) t else t)
    t1 (Groups.get_groups t).

Lemma find_followed now t k :
  groups_ok t → plain_id (us_id u) = true →
  find_row k (followed_groups now t) = followed now <$> find_row k t.
Proof.
  intros [Hids Hnames Hplain] Hu. unfold followed_groups.
  set (current := Groups.get_groups_by_member_id _ _ t).
  set (p := λ g, Groups.has_member dialect (us_id u) g = true).
  assert (current ≡ₚ filter p t) as Hcur by apply sort_by_perm.
  assert (Groups.get_groups t ≡ₚ t) as Hall by apply sort_by_perm.
  assert (NoDup (keys (Groups.get_groups t))) as Hndall by (unfold keys; by rewrite Hall).
  rewrite find_foldl_update by done.
  rewrite find_foldl_update by (done || by apply (keys_selected p current t)).
  rewrite (find_selected p current t k Hids Hcur).
  rewrite (find_selected (λ _, True) (Groups.get_groups t) t k Hids)
    by (rewrite Hall; clear; induction t as [|x t IH]; [done|by rewrite filter_cons_True, <- IH]).
  destruct (find_row k t) as [g|] eqn:Hg; [|done]. simpl.
  apply find_row_Some in Hg as [Hg _].
  assert (p g ↔ us_id u ∈ gr_user_ids g) as Hmem by (apply has_member_spec; auto).
  assert (existsb (λ gm, bool_decide (gr_name gm = gr_name g)) current
          = bool_decide (us_id u ∈ gr_user_ids g)) as Hex.
  { apply eq_true_iff_eq. rewrite bool_decide_eq_true, existsb_exists, <- Hmem. split.
    - intros (gm & Hgm & Hn%bool_decide_eq_true). apply list_elem_of_In in Hgm. rewrite Hcur in Hgm.
      apply list_elem_of_filter in Hgm as [Hp Hin]. by rewrite <- (Hnames gm g).
    - intros Hp. exists g. split; [|by apply bool_decide_eq_true].
      apply list_elem_of_In. rewrite Hcur. by apply list_elem_of_filter. }
  unfold joins. rewrite Hex. unfold followed.
  destruct (decide (p g)) as [Hp|Hp];
    [rewrite Hmem in Hp|rewrite Hmem in Hp];
    destruct (decide (gr_name g ∈ names)) as [Hn|Hn], (decide (us_id u ∈ gr_user_ids g));
    try done; rewrite ?bool_decide_true, ?bool_decide_false by done; done.
Qed.

Lemma keys_followed now t : keys (followed_groups now t) = keys t.
Proof.
  unfold followed_groups. generalize (Groups.get_groups t). intros l1.
  generalize (Groups.get_groups_by_member_id dialect (us_id u) t). intros l2.
  assert (∀ (c : Group → bool) (F : Group → Group → Group) l t', (∀ x, keeps_key (F x)) →
    keys (foldl (λ t g, if c g then update_row (row_key g) (F g) t else t) t' l) = keys t') as Hfold.
  { intros c F l t' HF. revert t'. induction l as [|g l IH]; intros t'; [done|]. cbn [foldl].
    rewrite IH. destruct (c g); [by apply keys_update_row|done]. }
  by rewrite !Hfold.
Qed.

(** Group management follows the provider.  When a callback runs with group
    management on and its commits succeed, the account is afterwards a member of
    exactly the groups its claim names; nobody else's membership changes, no group
    appears, disappears or is renamed, and a group whose membership is already right
    is not written at all; a group that is written keeps its permissions unless it
    had none, when it is given the default ones. *)
Theorem oauth_groups_mirror_the_claim user_data s :
  groups_ok (st_groups s) → plain_id (us_id u) = true → st_commits s = [] →
  dict_lookup (oc_groups_claim (sc_oauth cfg)) user_data = Some (JList (JStr <$> names)) →
  let m := update_user_groups dialect cfg u user_data d in
  result_of m s = Ok tt ∧ keys (st_groups (state_of m s)) = keys (st_groups s) ∧
  ∀ g, g ∈ st_groups s → ∃ g',
    find_row (gr_id g) (st_groups (state_of m s)) = Some g' ∧
    gr_name g' = gr_name g ∧
    (us_id u ∈ gr_user_ids g' ↔ gr_name g ∈ names) ∧
    (∀ v, v ≠ us_id u → (v ∈ gr_user_ids g' ↔ v ∈ gr_user_ids g)) ∧
    ((us_id u ∈ gr_user_ids g ↔ gr_name g ∈ names) → g' = g) ∧
    (gr_permissions g' = gr_permissions g ∨
     default [] (gr_permissions g) = [] ∧ gr_permissions g' = Some d).
Proof.
  intros Hok Hu Hc Hclaim. cbv zeta.
  assert (update_user_groups dialect cfg u user_data d s =
    (Ok tt, s <| st_groups := followed_groups (st_now s) (st_groups s) |>)) as Hrun.
  { unfold update_user_groups. rewrite Hclaim. cbn [default]. rewrite run_bind. unfold gets.
    rewrite run_bind. cbn [from_option]. unfold id. fold claimed.
    rewrite run_leave_groups, run_join_groups by done. done. }
  unfold result_of, state_of. rewrite Hrun. cbn [fst snd].
  change (st_groups (s <| st_groups := ?t |>)) with t.
  split_and!; [done|apply keys_followed|]. intros g Hg. exists (followed (st_now s) g).
  change (gr_id g) with (row_key g).
  rewrite find_followed, find_row_elem by (done || apply Hok). split; [done|].
  unfold followed, joined_row, left_row, members_form, Groups.updated_row.
  destruct (decide (gr_name g ∈ names)) as [Hn|Hn], (decide (us_id u ∈ gr_user_ids g)) as [Hm|Hm];
    cbn -[filter];
    (split_and!; [done|..|intros [??]; naive_solver|]);
    try (by destruct (gr_permissions g) as [[|]|]; auto); try set_solver.
  all: intros; rewrite ?elem_of_app, ?list_elem_of_filter; set_solver.
Qed.
End loops.
End oauth_groups.

From Stdlib Require Import Ascii.
From stdpp Require Import pretty.
From S2P Require Import Prelude SessionContract SignInContract.

(** Closed runs of the account endpoints: the accounts theorems at concrete
    tables, and the behaviours no theorem of theirs covers. *)
Module SignInRuns.

Import ClearJwt.

(** ** A small site *)

Definition uuids (n : nat) : string := "id" +:+ pretty n.
#[local] Instance uuids_inj : Inj (=) (=) uuids.
Proof. intros m n Hmn. unfold uuids in Hmn. by simplify_eq. Qed.

(** Text of the shape [bcrypt] gives its hashes, the same for every password. *)
Definition one_hash (salt : nat) (password : string) : string :=
  "$2b$12$abcdefghijklmnopqrstuvwxyzABCDEFGHIJKLMNOPQRSTUVWXYZ.".
Definition any_password (password hashed : string) : option bool := Some true.

Lemma one_hash_laws : bcrypt_laws any_password one_hash.
Proof. split; intros; by vm_compute. Qed.

Definition oauth (email_claim : string) : OAuthConfig :=
  mkOAuthConfig true false email_claim "name" "picture" ["*"] false "" [] [] true "groups".
Definition config (email_claim : string) : SiteConfig :=
  mkSiteConfig true true "pending" (Some 3600) [] true "" false (oauth email_claim).

Definition empty_site (commits : list bool) : Site := mkSite [] [] [] true 1000 0 commits [] [].

Definition ada_form : SignupForm := mkSignupForm "Ada" "Ada@Example.org" "correct horse" "/user.png".
Definition bob_form : SignupForm := mkSignupForm "Bob" "bob@example.org" "staple" "/user.png".

Lemma empty_site_ok commits : accounts_ok uuids (empty_site commits).
Proof. split; try constructor; try done; intros ? ?%not_elem_of_nil; done. Qed.

Abbreviation sign_up form s := (signup "k" one_hash uuids SQLite (config "email") form s).
Definition site_with_ada : Site := state_of (signup "k" one_hash uuids SQLite (config "email") ada_form) (empty_site []).

Lemma session_token_roundtrip_witness :
  let r := mkRequest (Some (create_token "k" 1000 [("id", JStr "id1")] (Some 3600))) None None
             "/api/v1/models" false false "" in
  (get_current_user "k" true 4599 r ∅ (st_users site_with_ada)).1 =
     Ok (mkSession (Users.new_user 1000 "id1" "Ada" "ada@example.org" "/user.png" "admin" None) None) ∧
  (get_current_user "k" true 4600 r ∅ (st_users site_with_ada)).1 = Raise Unauthorized401.
Proof.
  intros r.
  pose proof (session_token_roundtrip "k" true 1000 (Some 3600) "id1" r ∅ (st_users site_with_ada)
    eq_refl) as Hround.
  split; (rewrite Hround by lia; vm_compute; reflexivity).
Defined.

Lemma sign_up_then_sign_in_witness :
  ∃ su s', sign_up ada_form (empty_site []) = (Ok su, s') ∧ us_role (su_user su) = "admin" ∧
    signin "k" any_password one_hash uuids SQLite (config "email") None "ADA@example.ORG"
      "correct horse" s' = (Ok su, s').
Proof.
  destruct (sign_up ada_form (empty_site [])) as [[su|e] s'] eqn:Hrun; [|vm_compute in Hrun; done].
  exists su, s'.
  destruct (sign_up_then_sign_in "k" any_password one_hash uuids SQLite (config "email") ada_form
    (empty_site []) su s' one_hash_laws (empty_site_ok []) eq_refl eq_refl Hrun)
    as (Hrole & _ & Hin & _).
  split_and!; [done|exact Hrole|]. by apply Hin.
Defined.

Lemma failed_first_signup_locks_out_witness :
  let s' := (sign_up ada_form (empty_site [false])).2 in
  st_users s' = [] ∧ sign_up bob_form s' = (Raise AccessProhibited403, s').
Proof.
  destruct (failed_first_signup_locks_out "k" one_hash uuids SQLite (config "email") ada_form
    (empty_site [false])) as (_ & Hnone & _ & Hlater); [vm_compute; reflexivity..|].
  split; [exact Hnone|]. apply (Hlater bob_form).
Defined.

Lemma accounts_stay_consistent_witness :
  let s := foldl (site_call "k" any_password one_hash uuids SQLite (config "email")
             (λ _, "") (λ _, ""))
             (empty_site [true; true; true; false])
             [CallSignup ada_form; CallAddUser bob_form "user"; CallAddUser bob_form "user";
              CallOAuth "google" [("sub", JStr "7"); ("email", JStr "Eve@x.org")]] in
  accounts_ok uuids s ∧ us_email <$> st_users s = ["ada@example.org"; "bob@example.org"; "eve@x.org"].
Proof.
  intros s. split; [|vm_compute; reflexivity].
  apply accounts_stay_consistent; [apply _|reflexivity|apply empty_site_ok].
Defined.

(** ** Groups *)

Definition crew (id name : string) (permissions : option json_dict) (ids : list string) : Group :=
  mkGroup id "admin" name "" None None permissions ids 1 1.
Definition crews : list Group :=
  [crew "g1" "dev" (Some [("chat", JDict [])]) ["bob"]; crew "g2" "ops" None ["id1"; "bob"];
   crew "g3" "qa" None ["id1"]].
Definition crew_site : Site := mkSite [] [] crews false 2000 5 [] [] [].
Definition ada : User := Users.new_user 1000 "id1" "Ada" "ada@example.org" "/user.png" "user" None.
Definition ada_claims : json_dict := [("groups", JList (JStr <$> ["dev"; "qa"; "unknown"]))].

Lemma crews_ok : groups_ok crews.
Proof.
  split.
  - by_decision.
  - intros g g' Hg Hg'. repeat (apply elem_of_cons in Hg as [->|Hg]);
      repeat (apply elem_of_cons in Hg' as [->|Hg']); done || (by apply not_elem_of_nil in Hg)
      || (by apply not_elem_of_nil in Hg').
  - apply Forall_forall. repeat constructor.
Qed.

Lemma oauth_groups_mirror_the_claim_witness :
  let s' := state_of (update_user_groups SQLite (config "email") ada ada_claims [("chat", JNull)]) crew_site in
  ∃ g, find_row "g1" (st_groups s') = Some g ∧ "id1" ∈ gr_user_ids g ∧
    (gr_user_ids <$> st_groups s') = [["bob"; "id1"]; ["bob"]; ["id1"]].
Proof.
  destruct (oauth_groups_mirror_the_claim SQLite (config "email") ada [("chat", JNull)]
    ["dev"; "qa"; "unknown"] ada_claims crew_site crews_ok eq_refl eq_refl eq_refl)
    as (_ & _ & Hall).
  destruct (Hall (crew "g1" "dev" (Some [("chat", JDict [])]) ["bob"])) as (g & Hg & _ & Hin & _);
    [left|].
  exists g. split; [exact Hg|]. split; [apply Hin; left|vm_compute; reflexivity].
Defined.

(** ** Behaviours outside the theorems *)

(** With an e-mail claim of another name the check for an existing account reads the
    standard one: two subjects make two accounts with one address. *)
Example custom_claim_shares_an_address :
  let login sub := CallOAuth "corp" [("sub", JStr sub); ("mail", JStr "Ada@x.org")] in
  us_email <$> st_users (foldl (site_call "k" any_password one_hash uuids SQLite (config "mail")
      (λ _, "") (λ _, "")) (empty_site []) [login "1"; login "2"]) = ["ada@x.org"; "ada@x.org"].
Proof. vm_compute. reflexivity. Qed.

(** Two first sign-ins through the provider, the second running while the first
    waits for its picture: both are the administrator, with one address. *)
Example awaiting_the_picture_shares_an_address :
  let other := Users.new_user 1000 "x" "Ada" "ada@x.org" "/user.png" "admin" (Some "corp@1") in
  let s := (empty_site []) <| st_meanwhile := [[(other, mkAuth "x" "ada@x.org" "h" true)]] |> in
  us_email <$> st_users (site_call "k" any_password one_hash uuids SQLite (config "email")
      (λ _, "") (λ _, "data:") s
      (CallOAuth "corp" [("sub", JStr "1"); ("email", JStr "ada@x.org"); ("picture", JStr "http://p")]))
    = ["ada@x.org"; "ada@x.org"].
Proof. vm_compute. reflexivity. Qed.

(** A stored hash of sixty characters and a line feed has the shape. *)
Example hash_with_a_line_feed :
  String.length (one_hash 0 "") = 60%nat ∧
  bcrypt_hash_shape (one_hash 0 "" +:+ String newline EmptyString) = true ∧
  bcrypt_hash_shape (one_hash 0 "" +:+ "x") = false.
Proof. vm_compute. auto. Qed.

End SignInRuns.
