(* ===== verification/LeaseApi.v ===== *)
(** The lease broker over HTTP: [routers/vram_leases.py], with the unload-all leg
    of the emergency stop from [routers/llamolotl.py].

    A handler is a program over the broker's [World], behind its dependency: a
    service ticket, or the administrator's session. *)

From stdpp Require Import gmap.
From S2P Require Import Prelude Data Leases Reaper Broker Jobs Admission Transports.
From S2P Require Import Tickets Accounts Session.

Inductive ApiError :=
| TicketRefused (e : TicketError)
| NotSignedIn (e : AuthError)
| Unconfigured403 (cid : string)
| RegisterFailed500
| NotRegistered404 (cid : string)
| BadRequest400 (e : BrokerExn)
| Conflict409 (d : LeaseDenied)
| Unhandled500.

Abbreviation api A := (prog World ApiError A).

Record LeaseRequestForm := mkLeaseRequestForm {
  lr_consumer_id : string;
  lr_amount_bytes : Z;
  lr_priority : Z
}.

Section api.
Context `{!LeaseConfig, !BrokerConfig, !Jwt}.
Context (SERVICE_AUTH_SECRET SERVICE_AUTH_AUDIENCE : string) (py_str : Json → string).
Context (env : settings) (b : Broker).

(** ** Gates *)

(** [Depends(require_service_ticket(scope))], reading the header. *)
Definition with_ticket {A} (scope : string) (header : option string) (handler : api A) : api A :=
  now ← gets w_wall;
  match require_service_ticket SERVICE_AUTH_SECRET SERVICE_AUTH_AUDIENCE py_str [scope] now header with
  | Ok _ => handler
  | Raise e => raise (TicketRefused e)
  end.

(** [Depends(get_admin_user)], given what [get_current_user] answered. *)
Definition as_admin {A} (caller : result AuthError Session) (handler : api A) : api A :=
  match caller with
  | Raise e => raise (NotSignedIn e)
  | Ok session =>
      match get_admin_user session with
      | Ok _ => handler
      | Raise e => raise (NotSignedIn e)
      end
  end.

(** A call of the registry or the broker. *)
Definition from_broker {A} (m : broker A) (handle : BrokerExn → ApiError) : api A := λ w,
  match m w with
  | (Ok a, w') => (Ok a, w')
  | (Raise e, w') => (Raise (handle e), w')
  end.

Definition registry_write (f : bool → Z → registry → option VramConsumer * registry)
    : api (option VramConsumer) := from_broker (writes f) (λ _, Unhandled500).

(** ** For consumers *)

Definition register_consumer (header : option string) (form : VramConsumerRegisterForm)
    : api VramConsumer :=
  with_ticket "vram:report" header
    match apply_trusted_policy env form with
    | None => raise (Unconfigured403 (form_consumer_id form))
    | Some trusted =>
        consumer ← registry_write (λ ok now db, register ok now trusted db);
        match consumer with
        | Some consumer => mret consumer
        | None => raise RegisterFailed500
        end
    end.

Definition heartbeat_consumer (header : option string) (cid : string) (held : Z) : api VramConsumer :=
  with_ticket "vram:report" header
    (consumer ← registry_write (λ ok now db, heartbeat ok now cid held db);
     match consumer with
     | Some consumer => mret consumer
     | None => raise (NotRegistered404 cid)
     end).

Definition bad_request (e : BrokerExn) : ApiError :=
  match e with NotRegistered cid => BadRequest400 (NotRegistered cid) | _ => Unhandled500 end.

(** [request_lease], behind the ticket: the priority is the registered one. *)
Definition request_lease_handler (lw : LockWait) (form : LeaseRequestForm) : api LeaseGranted :=
  registered ← gets (λ w, get (lr_consumer_id form) (w_reg w));
  let effective_priority :=
    match registered with Some r => priority r | None => lr_priority form end in
  outcome ← from_broker
    (request_lease b lw (lr_consumer_id form) (lr_amount_bytes form) effective_priority None None)
    bad_request;
  match outcome with
  | Denied d => raise (Conflict409 d)
  | Granted g => mret g
  end.

Definition request_lease_endpoint (header : option string) (lw : LockWait) (form : LeaseRequestForm)
    : api LeaseGranted :=
  with_ticket "vram:lease" header (request_lease_handler lw form).

(** ** For the operator *)

Definition list_consumers (caller : result AuthError Session) : api (list VramConsumerStatus) :=
  as_admin caller (gets (λ w, sum_consumers (capacity_summary (w_wall w) (w_reg w)))).

Definition capacity (caller : result AuthError Session) : api CapacitySummary :=
  as_admin caller (gets (λ w, capacity_summary (w_wall w) (w_reg w))).

Definition reconcile_consumer (caller : result AuthError Session) (cid : string) : api VramConsumer :=
  as_admin caller
    (consumer ← registry_write (λ ok now db, reconcile ok now cid db);
     match consumer with
     | Some consumer => mret consumer
     | None => raise (NotRegistered404 cid)
     end).
End api.

(** ** The emergency stop *)

Definition _LLAMOLOTL_CONSUMER_ID : string := "self.llamolotl".
Definition _ESTOP_RELEASE_SENTINEL_BYTES : Z := Z.shiftl 1 60.

Inductive EstopDetail :=
| NoTransportInstalled
| LegRaised
| LegAnswered (outcome : ReleaseOutcome) (new_held : option Z) (why : option string)
| Unloads (unloaded errors : list Json).

Record ReleaseAllResult := mkReleaseAllResult {
  rr_consumer_id : string;
  rr_ok : bool;
  rr_detail : EstopDetail
}.

(** [_force_release_consumer]; the answer is [None] when the transport raises. *)
Definition _force_release_consumer (transport : bool) (consumer_id : string)
    (answer : option ReleaseResponse) : ReleaseAllResult :=
  if negb transport then mkReleaseAllResult consumer_id false NoTransportInstalled
  else
    match answer with
    | None => mkReleaseAllResult consumer_id false LegRaised
    | Some resp =>
        mkReleaseAllResult consumer_id (bool_decide (outcome resp = CONFIRMED))
          (LegAnswered (outcome resp) (new_held_bytes resp) (truthy (reason resp)))
    end.

(** What the llamolotl servers answer: the models of a server, and whether it
    unloads one. *)
Record Llamolotl := mkLlamolotl {
  ll_models : string → option Json;
  ll_unload : string → Json → bool
}.

(** [loaded] or [loading]; [None] when the entry is no dict. *)
Definition occupies_memory (model : Json) : option bool :=
  status_obj ← get_or "status" model (JDict []);
  let status_val := match status_obj with
                    | JDict d => default (JStr "unloaded") (dict_lookup "value" d)
                    | _ => JStr "unloaded"
                    end in
  Some (json_is "loaded" status_val || json_is "loading" status_val).

Fixpoint unload_each (ll : Llamolotl) (url : string) (models : list Json)
    (unloaded errors : list Json) : option (list Json * list Json) :=
  match models with
  | [] => Some (unloaded, errors)
  | model :: rest =>
      model_id ← get_or "id" model (JStr "");
      occupies ← occupies_memory model;
      if occupies : bool then
        if ll_unload ll url model_id
        then unload_each ll url rest (unloaded ++ [model_id]) errors
        else unload_each ll url rest unloaded (errors ++ [model_id])
      else unload_each ll url rest unloaded errors
  end.

(** [unload_all_llamolotl_models]; [None] when it raises. *)
Definition unload_all_llamolotl_models (urls : list string) (ll : Llamolotl) (url_idx : option nat)
    : option (list Json * list Json) :=
  url ← match url_idx with Some i => urls !! i | None => head urls end;
  models_result ← ll_models ll url;
  data ← get_or "data" models_result (JList []);
  models ← py_iter data;
  unload_each ll url models [] [].

Definition _estop_llamolotl (urls : list string) (ll : Llamolotl) : ReleaseAllResult :=
  match unload_all_llamolotl_models urls ll None with
  | None => mkReleaseAllResult _LLAMOLOTL_CONSUMER_ID false LegRaised
  | Some (unloaded, errors) =>
      mkReleaseAllResult _LLAMOLOTL_CONSUMER_ID (bool_decide (errors = [])) (Unloads unloaded errors)
  end.

Definition _estop_target_bytes (consumer : VramConsumerStatus) : Z :=
  let r := status_row consumer in
  let held := Z.max (held_bytes r) (default 0 (reserved_bytes r)) in
  if decide (held > 0) then held else _ESTOP_RELEASE_SENTINEL_BYTES.

(** [_requeue_estopped_curator_jobs]: a failed commit is logged by the table and
    answered [None], which is not looked at. *)
Definition requeue_reason : string :=
  "Stopped by the VRAM e-stop (Unload All Models) and requeued for the next curator window.".

Fixpoint requeue_each (now : Z) (oks : list bool) (running : list CuratorJob) (t : list CuratorJob)
    : list CuratorJob :=
  match running with
  | [] => t
  | job :: rest =>
      requeue_each now (tail oks) rest
        (if default true (head oks)
         then CuratorJobs.requeue_for_next_window now (cu_id job) requeue_reason t else t)
  end.

Definition _requeue_estopped_curator_jobs (now : Z) (oks : list bool) (t : list CuratorJob)
    : list string * list CuratorJob :=
  let running := get_jobs_by_status RUNNING t in
  (cu_id <$> running, requeue_each now oks running t).

(** One consumer's leg: what it answers to the request for [amount] bytes, mapped
    against the registry as it is by then. *)
Abbreviation leg_answers := (string → Z → Reply * registry).

Section release_all.
Context `{!LeaseConfig} (urls : list string) (ll : Llamolotl).

Definition estop_leg (transport : bool) (answers : leg_answers) (consumer : VramConsumerStatus)
    : ReleaseAllResult :=
  let cid := consumer_id (status_row consumer) in
  if decide (cid = _LLAMOLOTL_CONSUMER_ID) then _estop_llamolotl urls ll
  else
    let '(reply, db) := answers cid (_estop_target_bytes consumer) in
    _force_release_consumer transport cid (Some (release_via true cid reply db)).

(** [release_all]: the legs run together, then the curation runs are requeued, in
    the table as other coroutines have left it ([curator_jobs]). *)
Definition release_all (transport : bool) (answers : leg_answers) (now later : Z) (db : registry)
    (oks : list bool) (curator_jobs : list CuratorJob)
    : list ReleaseAllResult * list string * list CuratorJob :=
  let consumers := sum_consumers (capacity_summary now db) in
  let labels := consumer_id ∘ status_row <$> consumers in
  let results :=
    (estop_leg transport answers <$> consumers) ++
    (if decide (_LLAMOLOTL_CONSUMER_ID ∈ labels) then [] else [_estop_llamolotl urls ll]) in
  let '(requeued, curator_jobs) := _requeue_estopped_curator_jobs later oks curator_jobs in
  (results, requeued, curator_jobs).

Definition release_all_endpoint (caller : result AuthError Session) (transport : bool)
    (answers : leg_answers) (later : Z) (oks : list bool) (curator_jobs : list CuratorJob)
    : api (list ReleaseAllResult * list string * list CuratorJob) :=
  as_admin caller
    (gets (λ w, release_all transport answers (w_wall w) later (w_reg w) oks curator_jobs)).
End release_all.
