(* ===== verification/LeaseApiContract.v ===== *)
(** The contract of the lease broker's HTTP surface: nobody gets past its gates,
    the policy columns of the registry stay core's own, and what the emergency
    stop does. *)

From stdpp Require Import gmap.
From S2P Require Import Prelude Data Leases LeaseFacts Reaper Broker BrokerFacts Jobs Admission.
From S2P Require Import Transports Tickets Accounts Session LeaseApi.

Section policy.
Context `{!LeaseConfig, !BrokerConfig} (env : settings).
Implicit Types (w : World) (r : VramConsumer) (db : registry).

(** ** The policy columns are core's *)

(** Capacity and priority of a row are what this deployment configures. *)
Definition ruled r : Prop := ∃ pol,
  entry_of (consumer_id r) (trusted_consumer_config env) = Some pol ∧
  total_capacity_bytes r = cp_capacity pol ∧ priority r = cp_priority pol.

Definition trusted_form (form : VramConsumerRegisterForm) : Prop :=
  ∃ asserted, apply_trusted_policy env asserted = Some form.

(** A write that takes its policy figures, if any, from core. *)
Definition trusted_op (op : RegOp) : Prop :=
  match op with
  | OpRegister form => trusted_form form
  | OpGrant cid _ (Some p) =>
      ∀ pol, entry_of cid (trusted_consumer_config env) = Some pol → p = cp_priority pol
  | _ => True
  end.

Lemma trusted_form_policy form :
  trusted_form form → ∃ pol,
    entry_of (form_consumer_id form) (trusted_consumer_config env) = Some pol ∧
    form_total_capacity_bytes form = cp_capacity pol ∧ form_priority form = cp_priority pol.
Proof.
  intros [asserted Ht]. unfold apply_trusted_policy in Ht.
  destruct (entry_of _ _) as [pol|] eqn:Hp; [|done]. injection Ht as <-. by exists pol.
Qed.

Lemma ruled_same (f : VramConsumer → VramConsumer) r :
  consumer_id (f r) = consumer_id r → total_capacity_bytes (f r) = total_capacity_bytes r →
  priority (f r) = priority r → ruled r → ruled (f r).
Proof. intros Hi Hc Hp (pol & ? & ? & ?). exists pol. by rewrite Hi, Hc, Hp. Qed.

Lemma ruled_update cid (f : VramConsumer → VramConsumer) db :
  (∀ r, consumer_id r = cid → ruled r → ruled (f r)) →
  Forall ruled db → Forall ruled (update_row cid f db).
Proof.
  intros Hf Hdb. unfold update_row, update_where. apply Forall_fmap.
  eapply Forall_impl; [exact Hdb|]. intros r Hr. simpl. case_bool_decide; auto.
Qed.

Lemma ruled_write_row ok cid (f : VramConsumer → VramConsumer) db :
  (∀ r, consumer_id r = cid → ruled r → ruled (f r)) →
  Forall ruled db → Forall ruled (write_row ok cid f db).2.
Proof. intros Hf Hdb. rewrite write_row_table. destruct ok; [by apply ruled_update|done]. Qed.

Lemma ruled_register ok now form db :
  trusted_form form → Forall ruled db → Forall ruled (register ok now form db).2.
Proof.
  intros (pol & Hp & Hc & Hr)%trusted_form_policy Hdb. unfold register, commit_row.
  destruct (find_row _ db); destruct ok; try done.
  - apply ruled_update; [|done]. intros r Heq _. exists pol. simpl. by rewrite Heq.
  - apply Forall_app. split; [done|]. apply Forall_singleton. by exists pol.
Qed.

(** Every registry write but a self-asserted one leaves the policy columns ruled. *)
Lemma ruled_op ok now op db :
  trusted_op op → Forall ruled db → Forall ruled (apply_op ok now op db).
Proof.
  intros Hop Hdb.
  destruct op as [form|cid h|cid h|cid x [p|]|cid st|cid|cid e|cid m|cid u t|cid|cid]; cbn [apply_op];
    try (apply ruled_write_row; [|done]; intros; by apply ruled_same).
  - by apply ruled_register.
  - apply ruled_write_row; [|done]. intros r <- (pol & Hp & Hc & Hr). exists pol.
    by rewrite (Hop pol Hp).
  - destruct (set_exclusive_table ok now cid e db) as [->|[_ ->]]; [done|].
    apply ruled_update; [|done]. intros; by apply ruled_same.
  - unfold record_loaded_model. destruct (find_row cid db); [|done]. destruct ok; [|done].
    apply ruled_update; [|done]. intros; by apply ruled_same.
  - unfold record_device_occupancy. destruct (find_row cid db); [|done]. destruct ok; [|done].
    apply ruled_update; [|done]. intros; by apply ruled_same.
Qed.

(** ** Through the broker *)

Definition trusted_step (step : AwaitStep) : Prop :=
  Forall (λ p, trusted_op (peer_op p.2)) (aw_peers step).

(** The rows are ruled, and so is what the coroutines met at the coming awaits
    write. *)
Definition ruled_world w : Prop := Forall ruled (w_reg w) ∧ Forall trusted_step (w_script w).

Definition rules {E A} (m : prog World E A) : Prop :=
  triple ruled_world m (λ _, ruled_world) (λ _, ruled_world).

Lemma rules_bind {E A B} (m : prog World E A) (f : A → prog World E B) :
  rules m → (∀ a, rules (f a)) → rules (m ≫= f).
Proof. apply triple_bind. Qed.

Lemma rules_ret {E A} (a : A) : rules (mret a : prog World E A).
Proof. by apply triple_ret. Qed.
Lemma rules_raise {E A} (e : E) : rules (raise e : prog World E A).
Proof. by apply triple_raise. Qed.
Lemma rules_gets {E A} (f : World → A) : rules (gets f : prog World E A).
Proof. by apply triple_gets. Qed.
Lemma rules_reads {A} (f : Z → registry → A) : rules (reads f).
Proof. apply rules_gets. Qed.
Lemma rules_emit e : rules (emit e).
Proof. by apply triple_modify. Qed.

Lemma rules_writes {A} (f : bool → Z → registry → A * registry) :
  (∀ ok now db, Forall ruled db → Forall ruled (f ok now db).2) → rules (writes f).
Proof.
  intros Hf w [Hdb Hs]. rewrite run_writes. split; simpl; [by apply Hf|].
  by destruct (after_commit_fields w) as (_ & _ & _ & -> & _).
Qed.

Lemma rules_suspend step elapsed : trusted_step step → rules (suspend step elapsed).
Proof.
  intros Hstep. apply triple_modify. intros w [Hdb Hs]. split; simpl.
  - clear Hs. revert w Hdb. induction Hstep as [|[[dt ok] p] ps Hp Hps IH]; intros w Hdb; [done|].
    simpl. apply IH. simpl. by apply ruled_op.
  - by destruct (foldl_run_peer_fields (aw_peers step) w) as (_ & _ & _ & -> & _).
Qed.

Lemma next_await_trusted :
  triple ruled_world next_await (λ step w, trusted_step step ∧ ruled_world w) (λ _, ruled_world).
Proof.
  intros w [Hdb Hs]. unfold next_await. destruct (w_script w) as [|s rest] eqn:Hw.
  - split; [constructor|]. split; [done|]. by rewrite Hw.
  - apply Forall_cons in Hs as [? ?]. split; [done|]. by split.
Qed.

Lemma rules_await {A} (k : AwaitStep → broker A) :
  (∀ step, trusted_step step → rules (k step)) → rules (next_await ≫= k).
Proof.
  intros Hk. eapply triple_bind; [apply next_await_trusted|]. intros step w [Hs Hw]. by apply Hk.
Qed.

#[local] Hint Resolve rules_ret rules_raise rules_gets rules_reads rules_emit : s2db.

Lemma rules_write_row {A} cid (g : bool → Z → VramConsumer → VramConsumer) (k : option VramConsumer → broker A) :
  (∀ ok now r, consumer_id r = cid → ruled r → ruled (g ok now r)) → (∀ o, rules (k o)) →
  rules (writes (λ ok now db, write_row ok cid (g ok now) db) ≫= k).
Proof.
  intros Hg Hk. apply rules_bind; [|done]. apply rules_writes. intros ok now db.
  apply ruled_write_row. intros; by apply Hg.
Qed.

(** One write that leaves the policy columns alone, and what follows. *)
Ltac plain_write :=
  first [apply (rules_write_row _ (λ _ now, _ now)) | apply (rules_write_row _ (λ _ now, _ now _))];
  [intros; by apply ruled_same|intros].

Lemma rules_resolve cid resp : rules (_resolve_response cid resp).
Proof.
  unfold _resolve_response. apply rules_bind; [by apply triple_modify|]. intros _.
  unfold mark_stale, set_lease_state, record_confirmed_release.
  destruct (outcome resp); [destruct (new_held_bytes resp)|..]; plain_write; auto with s2db.
Qed.

Lemma rules_await_release timeout : rules (await_release timeout).
Proof.
  apply rules_await. intros step Hs. case_decide;
    (apply rules_bind; [by apply rules_suspend|intros; apply rules_ret]).
Qed.

Lemma rules_await_reap h ns sel timeout : rules (await_reap h ns sel timeout).
Proof.
  apply rules_await. intros step Hs. apply rules_bind; [apply rules_emit|]. intros _.
  apply rules_bind; [by apply rules_suspend|intros; apply rules_ret].
Qed.

Lemma rules_request_release tr cid amount timeout : rules (request_release tr cid amount timeout).
Proof.
  unfold request_release. destruct tr; simpl; [|apply rules_raise].
  unfold set_lease_state. plain_write. plain_write.
  apply rules_bind; [apply rules_emit|]. intros _.
  apply rules_bind; [apply rules_await_release|]. intros. apply rules_resolve.
Qed.

Lemma rules_reap_one b h x rt dl target : rules (reap_one b h x rt dl target).
Proof.
  unfold reap_one. apply rules_bind; [auto with s2db|]. intros before.
  apply rules_bind; [auto with s2db|]. intros timeout.
  apply rules_bind; [apply rules_await_reap|]. intros reap.
  destruct (reap_status reap); [|apply rules_ret]. unfold record_reaped_release. plain_write.
  do 2 (apply rules_bind; [auto with s2db|intros]). apply rules_ret.
Qed.

(** Reads of the clock and the registry between the awaits. *)
Ltac reading := repeat (apply rules_bind; [solve [auto with s2db]|intros ?]).

Lemma rules_reclaim_loop tr amount rt dl holders asked :
  rules (reclaim_loop tr amount rt dl holders asked).
Proof.
  revert asked. induction holders as [|h holders IH]; intros asked; cbn [reclaim_loop];
    [apply rules_ret|].
  apply rules_bind; [auto with s2db|]. intros free. case_decide; [apply rules_ret|].
  apply rules_bind; [auto with s2db|]. intros []; [apply rules_ret|].
  do 3 (apply rules_bind; [auto with s2db|intros]).
  apply rules_bind; [apply rules_request_release|intros]. reading. apply IH.
Qed.

Lemma rules_reap_loop b amount rt dl holders asked :
  rules (reap_loop b amount rt dl holders asked).
Proof.
  revert asked. induction holders as [|h holders IH]; intros asked; cbn [reap_loop];
    [apply rules_ret|].
  apply rules_bind; [auto with s2db|]. intros free. case_decide; [apply rules_ret|].
  apply rules_bind; [auto with s2db|]. intros []; [apply rules_ret|].
  apply rules_bind; [auto with s2db|]. intros. destruct (negb _); [apply IH|].
  destruct (_reap_target_for _ _); [|apply IH].
  apply rules_bind; [apply rules_reap_one|]. intros. apply IH.
Qed.

Lemma rules_commit_grant cid amount prio recl freeable :
  (∀ pol, entry_of cid (trusted_consumer_config env) = Some pol → prio = cp_priority pol) →
  rules (_commit_grant cid amount prio recl freeable).
Proof.
  intros Hprio. unfold _commit_grant, record_grant.
  apply (rules_write_row _ (λ _ now, grant_row now amount (Some prio))).
  - intros _ now r <- (pol & Hp & Hc & Hr). exists pol. simpl. by rewrite (Hprio pol Hp).
  - intros [g|]; reading; apply rules_ret.
Qed.

Lemma rules_decide b cid amount prio rt tr dl :
  (∀ pol, entry_of cid (trusted_consumer_config env) = Some pol → prio = cp_priority pol) →
  rules (_decide_lease b cid amount prio rt tr dl).
Proof.
  intros Hprio. pose proof (rules_commit_grant cid amount prio) as Hcommit. unfold _decide_lease.
  apply rules_bind; [auto with s2db|]. intros [me|]; [|apply rules_raise].
  apply rules_bind; [auto with s2db|]. intros [h|]; [reading; apply rules_ret|]. reading.
  cbv zeta. case_decide; [apply rules_ret|]. case_decide; [auto|].
  apply rules_bind; [apply rules_reclaim_loop|]. intros asked. unfold escalate. reading.
  case_decide; [auto|]. destruct (has_reaper b); [|apply rules_ret]. reading.
  apply rules_bind; [apply rules_reap_loop|]. intros. reading.
  case_decide; [auto|apply rules_ret].
Qed.

(** ** Through the endpoints *)

Context `{!Jwt} (SERVICE_AUTH_SECRET SERVICE_AUTH_AUDIENCE : string) (py_str : Json → string).
Context (b : Broker).

Abbreviation behind_ticket := (with_ticket SERVICE_AUTH_SECRET SERVICE_AUTH_AUDIENCE py_str).
Abbreviation register_call :=
  (register_consumer SERVICE_AUTH_SECRET SERVICE_AUTH_AUDIENCE py_str env).
Abbreviation heartbeat_call := (heartbeat_consumer SERVICE_AUTH_SECRET SERVICE_AUTH_AUDIENCE py_str).
Abbreviation lease_call :=
  (request_lease_endpoint SERVICE_AUTH_SECRET SERVICE_AUTH_AUDIENCE py_str b).

Lemma rules_ticket {A} scope header (handler : api A) :
  rules handler → rules (behind_ticket scope header handler).
Proof.
  intros Hh. apply rules_bind; [apply rules_gets|]. intros now.
  destruct (require_service_ticket _ _ _ _ _ _); [done|apply rules_raise].
Qed.

Lemma rules_admin {A} caller (handler : api A) : rules handler → rules (as_admin caller handler).
Proof.
  intros Hh. unfold as_admin. destruct caller as [s|e]; [|apply rules_raise].
  destruct (get_admin_user s); [done|apply rules_raise].
Qed.

Lemma rules_from_broker {A} (m : broker A) handle : rules m → rules (from_broker m handle).
Proof. intros Hm w Hw. specialize (Hm w Hw). unfold from_broker. by destruct (m w) as [[a|e] w']. Qed.

Lemma rules_answer {A} (o : option A) (e : ApiError) :
  rules (match o with Some a => mret a | None => raise e end).
Proof. destruct o; [apply rules_ret|apply rules_raise]. Qed.

Lemma rules_register header form : rules (register_call header form).
Proof.
  apply rules_ticket. destruct (apply_trusted_policy env form) as [trusted|] eqn:Ht;
    [|apply rules_raise].
  apply rules_bind; [|intros; apply rules_answer]. apply rules_from_broker, rules_writes.
  intros. apply ruled_register; [by exists form|done].
Qed.

Lemma rules_heartbeat header cid held : rules (heartbeat_call header cid held).
Proof.
  apply rules_ticket, rules_bind; [|intros; apply rules_answer]. apply rules_from_broker, rules_writes.
  intros. apply ruled_write_row; [|done]. intros; by apply ruled_same.
Qed.

Lemma rules_reconcile caller cid : rules (reconcile_consumer caller cid).
Proof.
  apply rules_admin, rules_bind; [|intros; apply rules_answer]. apply rules_from_broker, rules_writes.
  intros. apply ruled_write_row; [|done]. intros; by apply ruled_same.
Qed.

(** Waiting for the grant lock while its holder and the others write. *)
Definition trusted_wait (lw : LockWait) : Prop := Forall (λ x, trusted_op x.2) (lw_writes lw).

Lemma ruled_locked lw w : trusted_wait lw → ruled_world w → ruled_world (locked lw w).
Proof.
  intros Hlw [Hdb Hs]. unfold locked, state_of, acquire_grant_lock, modify, ruled_world. simpl.
  unfold trusted_wait in Hlw. revert w Hdb Hs.
  induction Hlw as [|[[dt ok] op] l Hop Hl IH]; intros w Hdb Hs; [done|].
  simpl. apply IH; [|done]. simpl. by apply ruled_op.
Qed.

(** The lease request reads the priority before it waits for the lock. *)
Definition priority_settled (lw : LockWait) (form : LeaseRequestForm) w : Prop :=
  is_Some (get (lr_consumer_id form) (w_reg w)) ∨ lw_writes lw = [].

Lemma lease_handler_rules lw form w :
  trusted_wait lw → priority_settled lw form w → ruled_world w →
  ruled_world (state_of (request_lease_handler b lw form) w).
Proof.
  intros Hlw Hset Hw. unfold request_lease_handler, state_of. rewrite run_gets_bind.
  assert (∀ p, (∀ pol, entry_of (lr_consumer_id form) (trusted_consumer_config env) = Some pol →
      p = cp_priority pol) ∨ find_row (lr_consumer_id form) (w_reg (locked lw w)) = None →
    ruled_world (request_lease b lw (lr_consumer_id form) (lr_amount_bytes form) p None None w).2) as Hrun.
  { intros p Hp. rewrite run_request_lease. pose proof (ruled_locked lw w Hlw Hw) as Hl.
    destruct Hp as [Hp|Hnone].
    - pose proof (rules_decide b (lr_consumer_id form) (lr_amount_bytes form) p
        (default GRANT_RELEASE_TIMEOUT_SECONDS None) (default (has_transport b) None)
        (budget_deadline GRANT_TOTAL_TIMEOUT_SECONDS w) Hp _ Hl) as Hd.
      by destruct (_decide_lease _ _ _ _ _ _ _ _) as [[r|e] w'].
    - rewrite decide_lease_cases, Hnone. done. }
  match goal with |- context [request_lease b lw _ _ ?p None None] => set (prio := p) end.
  assert (ruled_world (request_lease b lw (lr_consumer_id form) (lr_amount_bytes form) prio None None w).2)
    as Hend.
  { apply Hrun. unfold prio, get. destruct (find_row _ (w_reg w)) as [r|] eqn:Hr.
    - left. intros pol Hpol. apply find_row_Some in Hr as [Hr Hid].
      destruct Hw as [Hdb _]. rewrite Forall_forall in Hdb. destruct (Hdb r Hr) as (pol' & Hp & _ & ->).
      unfold row_key, VramConsumer_keyed in Hid. rewrite Hid in Hp. congruence.
    - right. destruct Hset as [[? Hs]|Hfree]; [unfold get in Hs; congruence|].
      unfold locked, state_of, acquire_grant_lock. by rewrite Hfree. }
  rewrite run_bind. unfold from_broker.
  destruct (request_lease _ _ _ _ _ _ _ w) as [[[g|d]|e] w']; done.
Qed.

(** One step of the process as its untrusted callers, its administrators and the
    clock make it.  Between calls time passes and the awaits to come are decided. *)
Inductive api_step w : World → Prop :=
| step_register header form : api_step w (state_of (register_call header form) w)
| step_heartbeat header cid held : api_step w (state_of (heartbeat_call header cid held) w)
| step_lease header lw form :
    trusted_wait lw → priority_settled lw form w →
    api_step w (state_of (lease_call header lw form) w)
| step_reconcile caller cid : api_step w (state_of (reconcile_consumer caller cid) w)
| step_time w' : w_reg w' = w_reg w → Forall trusted_step (w_script w') → api_step w w'.

Lemma rules_state {E A} (m : prog World E A) w : rules m → ruled_world w → ruled_world (state_of m w).
Proof. intros Hm Hw. specialize (Hm w Hw). unfold state_of. by destruct (m w) as [[a|e] w']. Qed.

Lemma api_step_ruled w w' : api_step w w' → ruled_world w → ruled_world w'.
Proof.
  intros [header form|header cid held|header lw form Hlw Hset|caller cid|w'' Hreg Hs] Hw.
  - by apply rules_state; [apply rules_register|].
  - by apply rules_state; [apply rules_heartbeat|].
  - unfold request_lease_endpoint, with_ticket, state_of. rewrite run_gets_bind.
    destruct (require_service_ticket _ _ _ _ _ _); [by apply lease_handler_rules|done].
  - by apply rules_state; [apply rules_reconcile|].
  - destruct Hw as [Hdb _]. split; [by rewrite Hreg|done].
Qed.

(** C3: the lease policy is core's alone.  Whatever services register, report and
    request over HTTP, in whatever order and with whatever figures in their forms,
    every row of the registry keeps the capacity and the priority this deployment
    configures for its consumer, no row is made for a consumer that is not
    configured, and so the pool's ceiling is never above a configured capacity;
    provided that a lease request either finds its consumer registered or need not
    wait for the grant lock. *)
Theorem lease_policy_is_cores w w' :
  rtc api_step w w' → Forall ruled (w_reg w) → Forall trusted_step (w_script w) →
  Forall ruled (w_reg w') ∧
  (total_capacity (w_reg w') = 0 ∨
   ∃ cid pol, entry_of cid (trusted_consumer_config env) = Some pol ∧
     total_capacity (w_reg w') = cp_capacity pol).
Proof.
  intros Hsteps Hdb Hs.
  assert (ruled_world w') as [Hdb' _].
  { clear -Hsteps Hdb Hs. induction Hsteps as [w|w1 w2 w3 Hstep Hsteps IH]; [done|].
    destruct (api_step_ruled w1 w2 Hstep) as [? ?]; [done|]. by apply IH. }
  split; [done|]. unfold total_capacity.
  destruct (w_reg w') as [|r db] eqn:Hreg; [by left|right].
  pose proof (zmax_elem 0 (total_capacity_bytes <$> r :: db)) as Hmax.
  apply list_elem_of_fmap in Hmax as (x & Hx & Hin); [|done].
  rewrite Forall_forall in Hdb'. destruct (Hdb' x Hin) as (pol & Hp & Hc & _).
  exists (consumer_id x), pol. by rewrite Hx.
Qed.
End policy.

(** ** The emergency stop *)

Section estop.
Context `{!LeaseConfig} (urls : list string) (ll : Llamolotl).
Implicit Types (db : registry) (jobs : list CuratorJob).

Lemma estop_labels transport (answers : leg_answers) c :
  rr_consumer_id (estop_leg urls ll transport answers c) = consumer_id (status_row c).
Proof.
  unfold estop_leg, _estop_llamolotl. case_decide as Hc.
  - rewrite Hc. by destruct (unload_all_llamolotl_models _ _ _) as [[? ?]|].
  - destruct (answers _ _) as [reply db]. unfold _force_release_consumer. by destruct transport.
Qed.

Lemma summary_rows now db :
  status_row <$> sum_consumers (capacity_summary now db) ≡ₚ db.
Proof.
  simpl. rewrite <- list_fmap_compose. unfold compose. simpl.
  rewrite list_fmap_id. apply order_by_text_perm.
Qed.

Lemma consumer_in_summary now db r :
  r ∈ db → consumer_status now r ∈ sum_consumers (capacity_summary now db).
Proof. intros Hr. simpl. apply list_elem_of_fmap_2. by rewrite order_by_text_perm. Qed.

Lemma target_covers now r :
  let target := _estop_target_bytes (consumer_status now r) in
  0 < target ∧ _effective_held r now ≤ target.
Proof.
  unfold _estop_target_bytes, _effective_held, _ESTOP_RELEASE_SENTINEL_BYTES.
  change (Z.shiftl 1 60) with 1152921504606846976. simpl.
  destruct (_reservation_live r now); cbn [negb]; case_decide; lia.
Qed.

(** The stop reaches everybody.  The summary has one entry for every registered
    consumer and one for llamolotl, registered or not.  Every other consumer was
    asked, by force, for at least what the ledger counts it as holding, and its
    entry says whether that very request was confirmed, whatever became of the
    others. *)
Theorem estop_reaches_every_consumer transport answers now later db oks jobs :
  let results := (release_all urls ll transport answers now later db oks jobs).1.1 in
  rr_consumer_id <$> results ≡ₚ
    (if decide (_LLAMOLOTL_CONSUMER_ID ∈ keys db) then keys db
     else _LLAMOLOTL_CONSUMER_ID :: keys db) ∧
  ∀ r, r ∈ db → consumer_id r ≠ _LLAMOLOTL_CONSUMER_ID →
    ∃ amount result, 0 < amount ∧ _effective_held r now ≤ amount ∧
      result ∈ results ∧ rr_consumer_id result = consumer_id r ∧
      (rr_ok result = true ↔ transport = true ∧
         outcome (release_via true (consumer_id r) (answers (consumer_id r) amount).1
                    (answers (consumer_id r) amount).2) = CONFIRMED).
Proof.
  cbv zeta.
  set (consumers := sum_consumers (capacity_summary now db)).
  assert (consumer_id ∘ status_row <$> consumers ≡ₚ keys db) as Hkeys
    by (unfold keys; rewrite <- (summary_rows now db), <- list_fmap_compose; done).
  assert ((release_all urls ll transport answers now later db oks jobs).1.1 =
    (estop_leg urls ll transport answers <$> consumers) ++
      (if decide (_LLAMOLOTL_CONSUMER_ID ∈ consumer_id ∘ status_row <$> consumers) then []
       else [_estop_llamolotl urls ll])) as ->
    by (unfold release_all; by destruct (_requeue_estopped_curator_jobs _ _ _)).
  split.
  - rewrite fmap_app, <- list_fmap_compose.
    rewrite (list_fmap_ext _ (consumer_id ∘ status_row)) by (intros; apply estop_labels).
    destruct (decide (_LLAMOLOTL_CONSUMER_ID ∈ keys db)) as [Hin|Hin].
    + rewrite decide_True by (by rewrite Hkeys). by rewrite app_nil_r, Hkeys.
    + rewrite decide_False by (by rewrite Hkeys). rewrite Hkeys, Permutation_app_comm.
      unfold _estop_llamolotl. by destruct (unload_all_llamolotl_models _ _ _) as [[? ?]|].
  - intros r Hr Hne. destruct (target_covers now r) as [Hpos Hle].
    exists (_estop_target_bytes (consumer_status now r)),
      (estop_leg urls ll transport answers (consumer_status now r)).
    split_and!; [done|done| |apply estop_labels|].
    + apply elem_of_app. left. apply list_elem_of_fmap_2, consumer_in_summary. done.
    + unfold estop_leg. simpl. rewrite decide_False by done.
      destruct (answers _ _) as [reply db']. unfold _force_release_consumer. simpl.
      destruct transport; simpl; [|naive_solver]. rewrite bool_decide_eq_true. naive_solver.
Qed.

Lemma requeue_each_all now running jobs :
  requeue_each now [] running jobs =
    foldl (λ t j, if true then update_row (row_key j) (CuratorJobs.requeue_row now requeue_reason) t
                  else t) jobs running.
Proof. revert jobs. induction running as [|j l IH]; intros jobs; [done|]. simpl. by rewrite IH. Qed.

(** The stop forgets every run.  When its commits succeed, every curation job
    that is running once the legs are over is back in the queue with no remote job
    attached, every other job is as it was, and the summary names exactly those
    put back; whatever the legs answered, that is, also when the consumer did not
    stop the run. *)
Theorem estop_requeues_every_run transport answers now later db jobs :
  NoDup (keys jobs) →
  let '(results, requeued, jobs') := release_all urls ll transport answers now later db [] jobs in
  requeued = cu_id <$> get_jobs_by_status RUNNING jobs ∧
  keys jobs' = keys jobs ∧
  ∀ j, j ∈ jobs → ∃ j', find_row (cu_id j) jobs' = Some j' ∧
    if decide (cu_status j = RUNNING)
    then cu_status j' = QUEUED ∧ cu_curator_job_id j' = None ∧ cu_curator_url_idx j' = None ∧
         cu_scheduled_for j' = cu_scheduled_for j ∧ cu_pipeline_config j' = cu_pipeline_config j
    else j' = j.
Proof.
  intros Hnd. unfold release_all, _requeue_estopped_curator_jobs. split; [done|].
  rewrite requeue_each_all. split.
  - generalize (get_jobs_by_status RUNNING jobs). intros l. generalize jobs. clear.
    induction l as [|j l IH]; intros t; [done|]. cbn [foldl]. rewrite IH.
    by apply keys_update_row.
  - intros j Hj. change (cu_id j) with (row_key j).
    rewrite (find_foldl_update (λ _, true) (λ _, CuratorJobs.requeue_row later requeue_reason)).
    2: done.
    2: by apply (keys_selected (λ j, job_status j = RUNNING) _ jobs).
    rewrite (find_selected (λ j, job_status j = RUNNING) _ jobs) by done.
    rewrite (find_row_elem jobs) by done. simpl.
    change (job_status j) with (cu_status j). case_decide; eexists; by split.
Qed.
End estop.

From S2P Require Import LeaseContract BrokerContract.

(** Closed runs of the lease endpoints: their theorems at a small deployment, and
    what the emergency stop and a race for the grant lock really do. *)
Module LeaseApiRuns.

Import Sample BrokerContract.Runs ClearJwt.

(** ** A deployment with one configured consumer *)

Definition deployment : settings := λ name,
  if decide (name = "SPEAK_VRAM_CAPACITY_BYTES") then Some "16"
  else if decide (name = "SPEAK_VRAM_LEASE_PRIORITY") then Some "5" else None.

(** What the consumer asserts, and what core makes of it. *)
Definition boastful : VramConsumerRegisterForm :=
  mkRegisterForm "self.speak" 1000 2 99 (Some "kube-system") (Some "app=core").
Definition speak_policy : VramConsumerRegisterForm := mkRegisterForm "self.speak" 16 2 5 None None.

Definition ticket (scope : string) : option string :=
  match mint_service_ticket "k" "self.ai" 1000 "j" "self.ai" (OneScope scope) 120 with
  | Ok t => Some t | Raise _ => None end.

Abbreviation call_register := (register_consumer "k" "self.ai" (λ _, "") deployment).
Abbreviation call_lease := (request_lease_endpoint "k" "self.ai" (λ _, "") no_reaper).

Definition speak_alone : registry := [row "self.speak" 16 2 5 1000].
Definition before : World := world [] [].
Definition registered : World := state_of (call_register (ticket "vram:report") boastful) before.
Definition leased : World :=
  state_of (call_lease (ticket "vram:lease") no_wait (mkLeaseRequestForm "self.speak" 4 99)) registered.

Lemma lease_policy_is_cores_witness :
  total_capacity (w_reg leased) = 16 ∧
  (priority <$> w_reg leased) = [5] ∧ (reserved_bytes <$> w_reg leased) = [Some 4].
Proof.
  destruct (lease_policy_is_cores deployment "k" "self.ai" (λ _, "") no_reaper before leased)
    as [_ [Hzero|(cid & pol & Hpol & Hcap)]].
  - eapply rtc_l; [apply step_register|]. eapply rtc_l; [|apply rtc_refl].
    apply step_lease; [constructor|by right].
  - constructor.
  - constructor.
  - vm_compute in Hzero. done.
  - split_and!; [|vm_compute; reflexivity..]. vm_compute. reflexivity.
Defined.

(** The priority is read before the wait for the lock: a consumer that is
    registered during the wait gets the one it asserted, on its row as well. *)
Example race_grants_the_asserted_priority :
  let wait := mkLockWait 1 [(1, true, OpRegister speak_policy)] in
  let o := request_lease_handler no_reaper wait (mkLeaseRequestForm "self.speak" 4 99) before in
  (∃ g, o.1 = Ok g ∧ granted_priority g = 99) ∧ (priority <$> w_reg o.2) = [99] ∧
  apply_trusted_policy deployment boastful = Some speak_policy.
Proof. vm_compute. eauto. Qed.

(** ** The emergency stop *)

Definition curation_run (id remote : string) : CuratorJob :=
  mkCuratorJob id "u" "p" RUNNING "normal" None (Some remote) (Some 0%nat) None true None 500 500.

Definition curator_row : VramConsumer := row "self.curator" 24 20 8 1000.
Definition two_servers : Llamolotl :=
  mkLlamolotl (λ url, Some (JDict [("data", JList [JDict [("id", JStr ("model@" +:+ url));
      ("status", JDict [("value", JStr "loaded")])]])]))
    (λ _ _, true).

Definition stop (reply : Reply) (oks : list bool) :=
  release_all ["a"; "b"] two_servers true (λ _ _, (reply, [curator_row])) 1000 1005 [curator_row] oks
    [curation_run "c1" "remote-1"].

Lemma estop_requeues_every_run_witness :
  let '(_, requeued, jobs) := stop CallRaised [] in
  requeued = ["c1"] ∧ (cu_status <$> jobs) = [QUEUED].
Proof.
  pose proof (estop_requeues_every_run ["a"; "b"] two_servers true (λ _ _, (CallRaised, [curator_row]))
    1000 1005 [curator_row] [curation_run "c1" "remote-1"] ltac:(by_decision)) as Hstop.
  unfold stop. destruct (release_all _ _ _ _ _ _ _ _ _) as [[results requeued] jobs] eqn:Hrun.
  destruct Hstop as (Hreq & _ & _). split; [rewrite Hreq; reflexivity|].
  assert (jobs = (stop CallRaised []).2) as -> by (unfold stop; by rewrite Hrun).
  vm_compute. reflexivity.
Defined.

(** The curator could not be reached and goes on; its run is queued again all the
    same, and the id it could be cancelled by is gone. *)
Example estop_forgets_a_surviving_run :
  let '(results, requeued, jobs) := stop CallRaised [] in
  (rr_ok <$> results) = [false; true] ∧ requeued = ["c1"] ∧
  (cu_status <$> jobs) = [QUEUED] ∧ (cu_curator_job_id <$> jobs) = [None].
Proof. vm_compute. auto. Qed.

(** A requeue whose commit fails is reported as done. *)
Example failed_requeue_is_reported :
  let '(_, requeued, jobs) := stop (HttpReply 200 (Some (JDict [("status", JStr "released");
      ("freed_bytes", JInt 20)]))) [false] in
  requeued = ["c1"] ∧ (cu_status <$> jobs) = [RUNNING].
Proof. vm_compute. auto. Qed.

(** Of two configured llamolotl servers the stop unloads the first. *)
Example estop_unloads_the_first_server :
  unload_all_llamolotl_models ["a"; "b"] two_servers None = Some ([JStr "model@a"], []).
Proof. vm_compute. reflexivity. Qed.

(** The target counts a reservation the ledger no longer does. *)
Example estop_asks_for_a_lapsed_reservation :
  let r := (row "self.speak" 16 2 5 0) <| reserved_bytes := Some 9 |> <| reserved_at := Some 0 |> in
  _estop_target_bytes (consumer_status 100000 r) = 9 ∧ _effective_held r 100000 = 2.
Proof. vm_compute. auto. Qed.

End LeaseApiRuns.
