(* ===== verification/Archive.v ===== *)
(** The database as backups see it: the tables of a backup's scopes with their
    columns and constraints, rows as dicts from column to value, and the file
    storage of [storage/provider.py]. *)

From Stdlib Require Import Ascii.
From stdpp Require Import gmap.
From S2P Require Import Prelude Data Accounts.

(** ** Schema *)

(** A row by column, a JSON column holding its decoded value. *)
Abbreviation Row := json_dict.

(** The columns of a table, which of them hold JSON, its primary and unique keys,
    and its foreign keys: column, table and column referred to. *)
Record TableSchema := mkTable {
  ts_columns : list string;
  ts_json : list string;
  ts_keys : list (list string);
  ts_foreign : list (string * (string * string))
}.

Definition user_table : TableSchema :=
  mkTable ["id"; "name"; "email"; "role"; "profile_image_url"; "last_active_at"; "updated_at";
    "created_at"; "api_key"; "settings"; "info"; "oauth_sub"] ["settings"; "info"] [["id"];
    ["api_key"]; ["oauth_sub"]] [].
Definition auth_table : TableSchema :=
  mkTable ["id"; "email"; "password"; "active"] [] [["id"]] [].
Definition group_table : TableSchema :=
  mkTable ["id"; "user_id"; "name"; "description"; "data"; "meta"; "permissions"; "user_ids";
    "created_at"; "updated_at"] ["data"; "meta"; "permissions"; "user_ids"] [["id"]] [].
Definition folder_table : TableSchema :=
  mkTable ["id"; "parent_id"; "user_id"; "name"; "items"; "meta"; "is_expanded"; "created_at";
    "updated_at"] ["items"; "meta"] [["id"]] [].
Definition chat_table : TableSchema :=
  mkTable ["id"; "user_id"; "title"; "chat"; "created_at"; "updated_at"; "share_id";
    "archived"; "pinned"; "meta"; "folder_id"; "kind"] ["chat"; "meta"] [["id"]; ["share_id"]]
    [].
Definition tag_table : TableSchema :=
  mkTable ["id"; "name"; "user_id"; "meta"] ["meta"] [["id"; "user_id"]] [].
Definition channel_table : TableSchema :=
  mkTable ["id"; "user_id"; "type"; "name"; "description"; "data"; "meta"; "access_control";
    "created_at"; "updated_at"] ["data"; "meta"; "access_control"] [["id"]] [].
Definition message_reaction_table : TableSchema :=
  mkTable ["id"; "user_id"; "message_id"; "name"; "created_at"] [] [["id"]] [].
Definition message_table : TableSchema :=
  mkTable ["id"; "user_id"; "channel_id"; "parent_id"; "content"; "data"; "meta";
    "created_at"; "updated_at"] ["data"; "meta"] [["id"]] [].
Definition knowledge_table : TableSchema :=
  mkTable ["id"; "user_id"; "name"; "description"; "data"; "meta"; "access_control";
    "created_at"; "updated_at"] ["data"; "meta"; "access_control"] [["id"]] [].
Definition knowledge_file_table : TableSchema :=
  mkTable ["knowledge_id"; "file_id"; "created_at"] [] [["knowledge_id"; "file_id"]]
    [("knowledge_id", ("knowledge", "id")); ("file_id", ("file", "id"))].
Definition file_table : TableSchema :=
  mkTable ["id"; "user_id"; "hash"; "filename"; "path"; "data"; "meta"; "access_control";
    "created_at"; "updated_at"] ["data"; "meta"; "access_control"] [["id"]] [].
Definition prompt_table : TableSchema :=
  mkTable ["command"; "user_id"; "title"; "content"; "timestamp"; "access_control"]
    ["access_control"] [["command"]] [].
Definition model_table : TableSchema :=
  mkTable ["id"; "user_id"; "base_model_id"; "name"; "params"; "meta"; "access_control";
    "is_active"; "updated_at"; "created_at"] ["params"; "meta"; "access_control"] [["id"]] [].
Definition tool_table : TableSchema :=
  mkTable ["id"; "user_id"; "name"; "content"; "specs"; "meta"; "valves"; "access_control";
    "updated_at"; "created_at"] ["specs"; "meta"; "valves"; "access_control"] [["id"]] [].
Definition function_table : TableSchema :=
  mkTable ["id"; "user_id"; "name"; "type"; "content"; "meta"; "valves"; "is_active";
    "is_global"; "updated_at"; "created_at"] ["meta"; "valves"] [["id"]] [].
Definition voice_table : TableSchema :=
  mkTable ["id"; "user_id"; "name"; "description"; "graph"; "meta"; "access_control";
    "created_at"; "updated_at"] ["graph"; "meta"; "access_control"] [["id"]] [].
Definition voice_file_table : TableSchema :=
  mkTable ["voice_id"; "file_id"; "created_at"] [] [["voice_id"; "file_id"]] [("voice_id",
    ("voice", "id")); ("file_id", ("file", "id"))].
Definition memory_table : TableSchema :=
  mkTable ["id"; "user_id"; "content"; "updated_at"; "created_at"] [] [["id"]] [].
Definition feedback_table : TableSchema :=
  mkTable ["id"; "user_id"; "version"; "type"; "data"; "meta"; "snapshot"; "created_at";
    "updated_at"] ["data"; "meta"; "snapshot"] [["id"]] [].
Definition eval_job_table : TableSchema :=
  mkTable ["id"; "user_id"; "eval_type"; "benchmark"; "model_id"; "status"; "priority";
    "scheduled_for"; "error_message"; "meta"; "created_at"; "updated_at"] ["meta"] [["id"]] [].

Definition schema : list (string * TableSchema) :=
  [("user", user_table); ("auth", auth_table); ("group", group_table);
   ("folder", folder_table); ("chat", chat_table); ("tag", tag_table);
   ("channel", channel_table); ("message_reaction", message_reaction_table); ("message", message_table);
   ("knowledge", knowledge_table); ("knowledge_file", knowledge_file_table); ("file", file_table);
   ("prompt", prompt_table); ("model", model_table); ("tool", tool_table);
   ("function", function_table); ("voice", voice_table); ("voice_file", voice_file_table);
   ("memory", memory_table); ("feedback", feedback_table); ("eval_job", eval_job_table)].

Fixpoint schema_of (table : string) (l : list (string * TableSchema)) : option TableSchema :=
  match l with
  | [] => None
  | (name, ts) :: rest => if decide (name = table) then Some ts else schema_of table rest
  end.

Definition table_schema (table : string) : option TableSchema := schema_of table schema.

(** ** Rows and tables *)

Abbreviation Db := (gmap string (list Row)).

Definition rows (db : Db) (table : string) : list Row := default [] (db !! table).

Definition cell (row : Row) (column : string) : Json := default JNull (dict_lookup column row).

Definition row_text (row : Row) (column : string) : option string :=
  json_str (dict_lookup column row).

(** Two rows may not agree on a key without a null in it. *)
Definition same_key (key : list string) (r r' : Row) : bool :=
  forallb (λ c, bool_decide (cell r c = cell r' c) && bool_decide (cell r c ≠ JNull)) key.

Definition key_conflict (ts : TableSchema) (existing : list Row) (row : Row) : bool :=
  existsb (λ key, existsb (same_key key row) existing) (ts_keys ts).

Definition reference_missing (db : Db) (ts : TableSchema) (row : Row) : bool :=
  existsb (λ '(column, (table, target)),
    bool_decide (cell row column ≠ JNull) &&
    negb (existsb (λ r, bool_decide (cell r target = cell row column)) (rows db table)))
    (ts_foreign ts).

(** SQLite, as the program opens it, does not enforce foreign keys. *)
Definition enforces_references (d : Dialect) : bool :=
  match d with PostgreSQL => true | SQLite => false end.

(** [INSERT INTO table]: a column left out is null; [None] when the statement fails. *)
Definition insert_row (d : Dialect) (table : string) (row : Row) (db : Db) : option Db :=
  ts ← table_schema table;
  if decide (row = []) then None
  else if existsb (λ kv, bool_decide (kv.1 ∉ ts_columns ts)) row then None
  else if key_conflict ts (rows db table) row then None
  else if enforces_references d && reference_missing db ts row then None
  else Some (<[table := rows db table ++ [(λ c, (c, cell row c)) <$> ts_columns ts]]> db).

(** ** Paths *)

(** [os.path.basename] and [os.path.dirname] *)
Definition basename (path : string) : string := default "" (last (split_on slash path)).

Definition dirname (path : string) : string :=
  match split_on slash path with
  | [] | [_] => ""
  | segments =>
      let head := join "/" (removelast segments) +:+ "/" in
      if all_chars (λ c, bool_decide (c = slash)) head then head else rstrip_slash head
  end.

(** Dropping empty and [.] segments and resolving [..]. *)
Fixpoint resolve_segments (absolute : bool) (segments acc : list string) : list string :=
  match segments with
  | [] => rev acc
  | s :: rest =>
      if decide (s = "" ∨ s = ".") then resolve_segments absolute rest acc
      else if decide (s ≠ "..") then resolve_segments absolute rest (s :: acc)
      else match acc with
           | [] => resolve_segments absolute rest (if absolute then [] else [".."])
           | a :: acc' =>
               if decide (a = "..") then resolve_segments absolute rest (".." :: acc)
               else resolve_segments absolute rest acc'
           end
  end.

(** [os.path.normpath]; exactly two leading slashes are kept. *)
Definition leading_slashes (path : string) : string :=
  if starts_with "//" path && negb (starts_with "///" path) then "//"
  else if starts_with "/" path then "/" else "".

Definition normpath (path : string) : string :=
  let initial := leading_slashes path in
  let resolved := initial +:+
    join "/" (resolve_segments (bool_decide (initial ≠ "")) (split_on slash path) []) in
  if decide (resolved = "") then "." else resolved.

(** ** File storage *)

Inductive Provider := LocalStorage | S3Storage (bucket : string).

(** The files on disk by path, and the objects of the bucket by key. *)
Record Store := mkStore {
  sto_local : gmap string string;
  sto_s3 : gmap string string
}.

#[export] Instance Store_eta : Eta Store := λ s, mkStore (sto_local s) (sto_s3 s).

(** [s.split("//")] *)
Fixpoint split_slashes (s : string) : list string :=
  match s with
  | String "/" (String "/" s') => "" :: split_slashes s'
  | String c s' =>
      match split_slashes s' with
      | w :: ws => String c w :: ws
      | [] => [String c EmptyString]
      end
  | EmptyString => [""]
  end.

Section storage.
Context (UPLOAD_DIR : string) (provider : Provider).

(** [Storage.get_file]: the local path of a stored file, downloaded from the bucket
    if need be; [None] when it raises. *)
Definition get_file (path : string) (s : Store) : option (string * Store) :=
  match provider with
  | LocalStorage => Some (path, s)
  | S3Storage bucket =>
      located ← split_slashes path !! 1%nat;
      match split_on slash located with
      | [b; key] =>
          if decide (b = bucket) then
            contents ← sto_s3 s !! key;
            let local := UPLOAD_DIR +:+ "/" +:+ key in
            Some (local, s <| sto_local := <[local := contents]> (sto_local s) |>)
          else None
      | _ => None
      end
  end.

(** The name an upload is stored under. *)
Definition storage_key (filename : string) (subdirectory : option string) : string :=
  match truthy subdirectory with
  | Some d => d +:+ "/" +:+ filename
  | None => filename
  end.

(** [Storage.upload_file]; [None] when it raises. *)
Definition upload_file (contents filename : string) (subdirectory : option string) (s : Store)
    : option Store :=
  if decide (contents = "" ∨ filename = "") then None
  else
    let key := storage_key filename subdirectory in
    let s := s <| sto_local := <[UPLOAD_DIR +:+ "/" +:+ key := contents]> (sto_local s) |> in
    Some match provider with
         | LocalStorage => s
         | S3Storage _ => s <| sto_s3 := <[key := contents]> (sto_s3 s) |>
         end.

(** [_split_stored_path] of [utils/restore.py] *)
Definition _split_stored_path (stored_path : string) : option string * string :=
  let normalised := normpath stored_path in
  let root := normpath UPLOAD_DIR +:+ "/" in
  if starts_with root normalised then
    let relative := String.substring (String.length root) (String.length normalised) normalised in
    (truthy (Some (dirname relative)), basename relative)
  else (None, basename normalised).
End storage.
