(* ===== verification/Backups.v ===== *)
(** Backups and restores: the job table of [models/backup_jobs.py], the archive of
    [utils/backup.py], the restore of [utils/restore.py] and the endpoints of
    [routers/backups.py].

    An operation is a program over an [Instance]: the database at its schema
    revision, the file storage, the job table and the archives of the backup
    repository.  Between two database statements of a long operation other
    requests may write ([in_meanwhile]).  What alembic knows and does is a
    parameter. *)

From Stdlib Require Import Ascii.
From stdpp Require Import gmap pretty.
From S2P Require Import Prelude Data Accounts Archive.

(** ** Scopes *)

Record Scope := mkScope {
  sc_name : string;
  sc_tables : list string;
  sc_carries_files : bool
}.

Definition SCOPES : list Scope :=
  [mkScope "users" ["user"; "auth"; "group"] false;
   mkScope "chats" ["folder"; "chat"; "tag"; "channel"; "message"; "message_reaction"] false;
   mkScope "knowledge" ["knowledge"; "knowledge_file"] true;
   mkScope "files" ["file"] true;
   mkScope "prompts" ["prompt"] false;
   mkScope "models" ["model"] false;
   mkScope "tools" ["tool"; "function"] false;
   mkScope "voices" ["voice"; "voice_file"] true;
   mkScope "memories" ["memory"] false;
   mkScope "evaluations" ["feedback"; "eval_job"] false].

Definition scope_names : list string := sc_name <$> SCOPES.

Definition scope_of (name : string) : option Scope :=
  head (filter (λ s, sc_name s = name) SCOPES).

(** ** Errors *)

Inductive Why :=
| UnknownScopes (names : list string)
| Unstamped
| NoManifest
| BadFormat (version : Z)
| CorpusUnavailable
| NoSchemaRevision
| UnknownRevision (revision : string)
| NotAnAncestor (revision : string)
| NotEmpty (occupied : list (string * nat))
| UnsafeMember (name : string).

(** [RestoreRefused] is a [BackupError]; anything else an operation raises is not. *)
Inductive BackupExn :=
| BackupError (why : Why)
| RestoreRefused (why : Why)
| Unexpected.

Definition is_backup_error (e : BackupExn) : bool :=
  match e with Unexpected => false | _ => true end.

Definition resolve_scopes (requested : option (list string)) : result BackupExn (list string) :=
  match requested with
  | None | Some [] => Ok scope_names
  | Some l =>
      let unknown := filter (λ s, s ∉ scope_names) l in
      if decide (unknown ≠ []) then Raise (BackupError (UnknownScopes (order_by_text id unknown)))
      else Ok (filter (λ s, s ∈ l) scope_names)
  end.

(** The tables of a selection, each once, in the order of the scopes. *)
Definition add_table (tables : list string) (t : string) : list string :=
  if decide (t ∈ tables) then tables else tables ++ [t].

Definition tables_of (name : string) : list string :=
  match scope_of name with Some s => sc_tables s | None => [] end.

Definition _tables_for_scopes (scopes : list string) : list string :=
  foldl add_table [] (scopes ≫= tables_of).

(** ** Jobs *)

Inductive BackupStatus := PENDING | RUNNING | COMPLETED | FAILED.
#[export] Instance BackupStatus_eq_dec : EqDecision BackupStatus.
Proof. solve_decision. Defined.

Record BackupJob := mkBackupJob {
  bj_id : string;
  bj_user_id : string;
  bj_kind : string;
  bj_status : BackupStatus;
  bj_scopes : list string;
  bj_archive_repo : option string;
  bj_archive_path : option string;
  bj_archive_commit : option string;
  bj_schema_revision : option string;
  bj_progress : option Json;
  bj_error : bool;                      (* whether error_message is set *)
  bj_created_at : Z;
  bj_updated_at : Z
}.

#[export] Instance BackupJob_eta : Eta BackupJob := λ j,
  mkBackupJob (bj_id j) (bj_user_id j) (bj_kind j) (bj_status j) (bj_scopes j) (bj_archive_repo j)
    (bj_archive_path j) (bj_archive_commit j) (bj_schema_revision j) (bj_progress j) (bj_error j)
    (bj_created_at j) (bj_updated_at j).
#[export] Instance BackupJob_keyed : Keyed BackupJob := bj_id.

Module BackupJobs.

Definition new_job (now : Z) (id user_id : string) (scopes : list string) (kind : string)
    (revision : option string) : BackupJob :=
  mkBackupJob id user_id kind PENDING scopes None None None revision None false now now.

Definition insert_new_job (ok : bool) (now : Z) (id user_id : string) (scopes : list string)
    (kind : string) (revision : option string) (t : list BackupJob) : option BackupJob * list BackupJob :=
  let job := new_job now id user_id scopes kind revision in
  if ok then (Some job, t ++ [job]) else (None, t).

Definition get_all_jobs (t : list BackupJob) : list BackupJob := sort_by (λ j, - bj_created_at j) t.

Definition get_job_by_id (id : string) (t : list BackupJob) : option BackupJob := find_row id t.

(** [update_job], with the patch as a change of the row. *)
Definition update_job (ok : bool) (now : Z) (id : string) (patch : BackupJob → BackupJob)
    (t : list BackupJob) : option BackupJob * list BackupJob :=
  if ok
  then let t := update_row id (λ j, (patch j) <| bj_updated_at := now |>) t in (find_row id t, t)
  else (None, t).

Definition get_interrupted_jobs (t : list BackupJob) : list BackupJob :=
  filter (λ j, bj_status j ∈ [PENDING; RUNNING]) t.

Definition delete_job_by_id (ok : bool) (id : string) (t : list BackupJob) : bool * list BackupJob :=
  if ok then (true, delete_row id t) else (false, t).

End BackupJobs.

(** ** Archives *)

Definition BACKUP_FORMAT_VERSION : Z := 1.
Definition SELFAI_BACKUP_REPO : string := "selfai-backups".

Record FileCounts := mkFileCounts {
  fc_copied : nat;
  fc_bytes : nat;
  fc_inline : nat;
  fc_missing : list string
}.

Record Manifest := mkManifest {
  mf_format_version : Z;
  mf_created_at : Z;
  mf_created_by : string;
  mf_schema_revision : option string;
  mf_scopes : list string;
  mf_tables : list (string * nat);
  mf_files : FileCounts
}.

(** [manifest.json]: absent or no regular file, undecodable, or read. *)
Inductive ManifestMember := NoMember | Undecodable | Readable (m : Manifest).

(** An archive: its members with whether they are links, the rows of its table
    dumps, and the directories of its files, if it has any. *)
Record TarArchive := mkTarArchive {
  ar_manifest : ManifestMember;
  ar_members : list (string * bool);
  ar_tables : gmap string (list Row);
  ar_files : option (list (string * list (string * string)))
}.

Definition read_manifest (a : TarArchive) : result BackupExn Manifest :=
  match ar_manifest a with
  | NoMember => Raise (BackupError NoManifest)
  | Undecodable => Raise Unexpected
  | Readable m =>
      if decide (mf_format_version m = BACKUP_FORMAT_VERSION) then Ok m
      else Raise (BackupError (BadFormat (mf_format_version m)))
  end.

(** ** The instance *)

Record Instance_ := mkInstance {
  in_db : Db;
  in_revision : option string;             (* the row of alembic_version *)
  in_store : Store;
  in_jobs : list BackupJob;
  in_repo : gmap string TarArchive;        (* objects on the branch, by key *)
  in_now : Z;
  in_minted : nat;
  in_commits : list bool;                  (* outcomes of the commits to come *)
  in_corpus : list bool;                   (* and of the calls to self.corpus *)
  in_meanwhile : list (Db → Db);           (* what other requests write meanwhile *)
  in_readable : bool                       (* whether a restore can read the file rows it loaded *)
}.

#[export] Instance Instance_eta : Eta Instance_ := λ s,
  mkInstance (in_db s) (in_revision s) (in_store s) (in_jobs s) (in_repo s) (in_now s) (in_minted s)
    (in_commits s) (in_corpus s) (in_meanwhile s) (in_readable s).

Abbreviation backup A := (prog Instance_ BackupExn A).

Definition next_commit : backup bool := λ s,
  match in_commits s with
  | [] => (Ok true, s)
  | ok :: rest => (Ok ok, s <| in_commits := rest |>)
  end.

Definition next_corpus : backup bool := λ s,
  match in_corpus s with
  | [] => (Ok true, s)
  | ok :: rest => (Ok ok, s <| in_corpus := rest |>)
  end.

Definition fresh : backup nat := λ s, (Ok (in_minted s), s <| in_minted := S (in_minted s) |>).

(** Another request may write. *)
Definition interlude : backup unit := λ s,
  match in_meanwhile s with
  | [] => (Ok tt, s)
  | f :: rest => (Ok tt, s <| in_db := f (in_db s) |> <| in_meanwhile := rest |>)
  end.

Definition lift {A} (r : result BackupExn A) : backup A :=
  match r with Ok a => mret a | Raise e => raise e end.

Definition update_job (id : string) (patch : BackupJob → BackupJob) : backup unit :=
  ok ← next_commit;
  modify (λ s, s <| in_jobs := (BackupJobs.update_job ok (in_now s) id patch (in_jobs s)).2 |>).

(** What alembic knows: the revisions of the migration directory, its heads, and
    the ancestry of a revision, itself included. *)
Record ScriptDirectory := mkScriptDirectory {
  sd_known : list string;
  sd_heads : list string;
  sd_ancestry : string → list string
}.

Section backups.
Context (dialect : Dialect) (UPLOAD_DIR : string) (provider : Provider) (uuid4 : nat → string).
Context (script : ScriptDirectory).
(** What a JSON column holds after a value that is neither a dict nor a list, nor
    null, is bound to it as it is; [None] when the database refuses it. *)
Context (bind_scalar : Json → option Json).
(** Staging the rows at the archive's revision, upgrading to head and reading the
    tables back; [None] when a step raises. *)
Context (migrate : string → list (string * list Row) → option (gmap string (list Row))).

(** ** Taking a backup *)

Definition _serialise_row (ts : TableSchema) (row : Row) : Row :=
  (λ c, (c, cell row c)) <$> ts_columns ts.

Definition dump_table (table : string) : backup (list Row) :=
  interlude;;
  s ← gets id;
  match table_schema table with
  | Some ts => mret (_serialise_row ts <$> rows (in_db s) table)
  | None => raise Unexpected
  end.

Fixpoint dump_tables (tables : list string) : backup (list (string * list Row)) :=
  match tables with
  | [] => mret []
  | t :: rest =>
      dumped ← dump_table t;
      more ← dump_tables rest;
      mret ((t, dumped) :: more)
  end.

(** [_copy_files]: one row of the file table. *)
Definition copy_file (row : Row) (acc : FileCounts * list (string * list (string * string)) * Store)
    : FileCounts * list (string * list (string * string)) * Store :=
  let '(counts, dirs, store) := acc in
  let id := default "" (row_text row "id") in
  let missing := mkFileCounts (fc_copied counts) (fc_bytes counts) (fc_inline counts)
                   (fc_missing counts ++ [id]) in
  match truthy (row_text row "path") with
  | None => (mkFileCounts (fc_copied counts) (fc_bytes counts) (S (fc_inline counts))
               (fc_missing counts), dirs, store)
  | Some path =>
      match get_file UPLOAD_DIR provider path store with
      | None => (missing, dirs, store)
      | Some (local, store) =>
          match sto_local store !! local with
          | None => (missing, dirs ++ [(id, [])], store)
          | Some contents =>
              (mkFileCounts (S (fc_copied counts)) (fc_bytes counts + String.length contents)
                 (fc_inline counts) (fc_missing counts),
               dirs ++ [(id, [(basename path, contents)])], store)
          end
      end
  end.

Definition no_files : FileCounts := mkFileCounts 0 0 0 [].

Definition copy_rows (files : list Row) : backup (FileCounts * list (string * list (string * string))) :=
  λ s,
    let '(counts, dirs, store) :=
      foldl (λ acc row, copy_file row acc) (no_files, [], in_store s) files in
    (Ok (counts, dirs), s <| in_store := store |>).

Definition _copy_files : backup (FileCounts * list (string * list (string * string))) :=
  interlude;;
  files ← gets (λ s, rows (in_db s) "file");
  copy_rows files.

Definition wants_files (scopes : list string) : bool :=
  existsb (λ n, match scope_of n with Some s => sc_carries_files s | None => false end) scopes.

(** The members [tar.add] writes, directories included. *)
Definition file_members (dirs : list (string * list (string * string))) : list string :=
  "files" :: (dirs ≫= λ d, ("files/" +:+ d.1) :: ((λ e, "files/" +:+ d.1 +:+ "/" +:+ e.1) <$> d.2)).

Definition members_of (tables : list string) (files : option (list (string * list (string * string))))
    : list (string * bool) :=
  (λ name, (name, false)) <$>
    ((match files with Some dirs => file_members dirs | None => [] end) ++ ["manifest.json"; "tables"] ++
     ((λ t, "tables/" +:+ t +:+ ".jsonl") <$> tables)).

(** [build_archive]: the archive and its manifest. *)
Definition build_archive (scopes : list string) (created_by : string)
    : backup (TarArchive * Manifest) :=
  s ← gets id;
  match in_revision s with
  | None => raise (BackupError Unstamped)
  | Some revision =>
      if decide (Forall (λ n, n ∈ scope_names) scopes) then
        dumped ← dump_tables (scopes ≫= tables_of);
        files ← (if wants_files scopes then f ← _copy_files; mret (Some f) else mret None);
        let counts := match files with Some (c, _) => c | None => no_files end in
        let dirs := snd <$> files in
        let manifest := mkManifest BACKUP_FORMAT_VERSION (in_now s) created_by (Some revision) scopes
                          ((λ d, (d.1, length d.2)) <$> dumped) counts in
        mret (mkTarArchive (Readable manifest) (members_of (fst <$> dumped) dirs)
                (list_to_map (reverse dumped)) dirs, manifest)
      else raise Unexpected
  end.

(** ** The backup repository *)

Definition corpus_call : backup unit :=
  ok ← next_corpus; if ok : bool then mret tt else raise (BackupError CorpusUnavailable).

Definition ensure_backup_repo : backup unit := corpus_call.

(** [put_archive]: the upload stages the object, the commit seals it. *)
Definition put_archive (a : TarArchive) (object_key : string) : backup string :=
  corpus_call;;
  modify (λ s, s <| in_repo := <[object_key := a]> (in_repo s) |>);;
  corpus_call;;
  n ← fresh; mret (uuid4 n).

Definition download_archive (object_key : string) : backup TarArchive :=
  corpus_call;;
  s ← gets id;
  match in_repo s !! object_key with
  | Some a => mret a
  | None => raise (BackupError CorpusUnavailable)
  end.

(** [try: m except Exception: handler]: a job's error handling. *)
Definition failing {A} (m : backup A) (ok : A → backup unit) (handler : backup unit) : backup unit := λ s,
  match m s with
  | (Ok a, s') => match ok a s' with (Raise _, s'') => handler s'' | r => r end
  | (Raise _, s') => handler s'
  end.

Definition counts_json (counts : list (string * nat)) : Json :=
  JDict ((λ c, (c.1, JInt (Z.of_nat c.2))) <$> counts).

(** What a backup job reports; of a missing file, its id. *)
Definition progress_json (m : Manifest) : Json :=
  let files := mf_files m in
  JDict [("tables", counts_json (mf_tables m));
         ("files", JDict [("copied", JInt (Z.of_nat (fc_copied files)));
                          ("bytes", JInt (Z.of_nat (fc_bytes files)));
                          ("inline", JInt (Z.of_nat (fc_inline files)));
                          ("missing", JList (JStr <$> fc_missing files))])].

Definition object_key (job : BackupJob) : string :=
  pretty (bj_created_at job) +:+ "-" +:+ bj_id job +:+ ".tar.gz".

Definition mark_failed (job_id : string) : backup unit :=
  update_job job_id (λ j, j <| bj_status := FAILED |> <| bj_error := true |>).

(** [run_backup_job]: the work of the job, with its progress, and the job. *)
Definition seal_backup (job : BackupJob) : backup (string * Manifest) :=
  ensure_backup_repo;;
  built ← build_archive (bj_scopes job) (bj_user_id job);
  update_job (bj_id job) (λ j, j <| bj_progress := Some (progress_json built.2) |>);;
  commit_id ← put_archive built.1 (object_key job);
  mret (commit_id, built.2).

Definition completed_with (job : BackupJob) (sealed : string * Manifest) (j : BackupJob) : BackupJob :=
  j <| bj_status := COMPLETED |>
    <| bj_archive_repo := Some SELFAI_BACKUP_REPO |>
    <| bj_archive_path := Some (object_key job) |>
    <| bj_archive_commit := Some sealed.1 |>
    <| bj_schema_revision := mf_schema_revision sealed.2 |>.

Definition run_backup_job (job_id : string) : backup unit :=
  job ← gets (λ s, BackupJobs.get_job_by_id job_id (in_jobs s));
  match job with
  | None => mret tt
  | Some job =>
      update_job job_id (λ j, j <| bj_status := RUNNING |>);;
      failing (seal_backup job) (λ sealed, update_job job_id (completed_with job sealed))
        (mark_failed job_id)
  end.

(** [fail_interrupted_jobs], at startup. *)
Fixpoint fail_each (jobs : list BackupJob) : backup unit :=
  match jobs with
  | [] => mret tt
  | j :: rest => mark_failed (bj_id j);; fail_each rest
  end.

Definition fail_interrupted_jobs : backup unit :=
  jobs ← gets (λ s, BackupJobs.get_interrupted_jobs (in_jobs s)); fail_each jobs.

(** ** Whether an archive fits *)

Inductive Plan := Direct | MigrateForward | Refuse (why : Why).

Definition _is_ancestor (candidate descendant : string) : bool :=
  bool_decide (candidate ∈ sd_ancestry script descendant).

Definition assess_compatibility (archive_revision current : option string) : Plan :=
  match archive_revision with
  | None => Refuse NoSchemaRevision
  | Some r =>
      if decide (Some r = current) then Direct
      else if decide (r ∉ sd_known script) then Refuse (UnknownRevision r)
      else match current with
           | Some c => if _is_ancestor r c then MigrateForward else Refuse (NotAnAncestor r)
           | None => Refuse (NotAnAncestor r)
           end
  end.

(** The account tables are counted, and loaded, without the acting administrator. *)
Definition own_row (table acting : string) (row : Row) : bool :=
  bool_decide (table ∈ ["user"; "auth"] ∧ acting ≠ "" ∧ cell row "id" = JStr acting).

Definition scope_occupancy (scopes : list string) (acting : string) (db : Db) : list (string * nat) :=
  (λ t, (t, length (filter (λ r, own_row t acting r = false) (rows db t)))) <$> _tables_for_scopes scopes.

Definition occupied (counts : list (string * nat)) : list (string * nat) :=
  filter (λ c, c.2 ≠ 0%nat) counts.

Definition unknown_scopes (scopes : list string) : list string :=
  filter (λ s, s ∉ scope_names) scopes.

Record Preview := mkPreview {
  pv_plan : Plan;
  pv_unknown : list string;
  pv_occupancy : list (string * nat);
  pv_can_restore : bool
}.

Definition preview_archive (a : TarArchive) (acting : string) : backup Preview :=
  manifest ← lift (read_manifest a);
  s ← gets id;
  let plan := assess_compatibility (mf_schema_revision manifest) (in_revision s) in
  let scopes := mf_scopes manifest in
  let occupancy := scope_occupancy (filter (λ n, n ∈ scope_names) scopes) acting (in_db s) in
  let refused := match plan with Refuse _ => true | _ => false end in
  mret (mkPreview plan (unknown_scopes scopes) occupancy
    (negb refused && bool_decide (occupied occupancy = []) && bool_decide (unknown_scopes scopes = []))).

(** ** Restoring *)

(** Where a member would be written, as segments, and [_extract]'s check. *)
Definition realpath (path : string) : list string := resolve_segments true (split_on slash path) [].

(** [os.path.join(dest, name)] *)
Definition path_join (dest name : string) : string :=
  if starts_with "/" name then name else dest +:+ "/" +:+ name.

Definition safe_member (dest : string) (m : string * bool) : bool :=
  bool_decide (realpath dest `prefix_of` realpath (path_join dest m.1)) &&
  bool_decide (realpath dest ≠ realpath (path_join dest m.1)) && negb m.2.

Definition _extract (dest : string) (a : TarArchive) : backup unit :=
  match head (filter (λ m, safe_member dest m = false) (ar_members a)) with
  | Some m => raise (RestoreRefused (UnsafeMember m.1))
  | None => mret tt
  end.

(** The value a column holds after [_load_rows_into] bound [v]: for a JSON column a
    dict or a list goes in as its text; no other column takes one. *)
Definition loaded_cell (ts : TableSchema) (column : string) (v : Json) : option Json :=
  match v with
  | JDict _ | JList _ => if decide (column ∈ ts_json ts) then Some v else None
  | JNull => Some v
  | _ => if decide (column ∈ ts_json ts) then bind_scalar v else Some v
  end.

Fixpoint loaded_row (ts : TableSchema) (row : Row) : option Row :=
  match row with
  | [] => Some []
  | (column, v) :: rest =>
      w ← loaded_cell ts column v; more ← loaded_row ts rest; Some ((column, w) :: more)
  end.

Fixpoint _load_rows_into (table : string) (archived : list Row) (db : Db) : option Db :=
  match archived with
  | [] => Some db
  | row :: rest =>
      ts ← table_schema table;
      row ← loaded_row ts row;
      db ← insert_row dialect table row db;
      _load_rows_into table rest db
  end.

Record Report := mkReport {
  rp_plan : Plan;
  rp_tables : list (string * nat);
  rp_skipped : list (string * nat);
  rp_restored : nat;
  rp_missing : list string
}.

(** One transaction: [None] when a statement fails, and everything is rolled back. *)
Fixpoint load_tables (archive : gmap string (list Row)) (acting : string) (tables : list string)
    (db : Db) : option (Db * list (string * nat) * list (string * nat)) :=
  match tables with
  | [] => Some (db, [], [])
  | t :: rest =>
      let archived := default [] (archive !! t) in
      let kept := filter (λ r, own_row t acting r = false) archived in
      let skipped := (length archived - length kept)%nat in
      db ← _load_rows_into t kept db;
      '(db, loaded, skips) ← load_tables archive acting rest db;
      Some (db, (t, length kept) :: loaded,
            if decide (skipped = 0%nat) then skips else (t, skipped) :: skips)
  end.

Definition _write_rows_into_live (archive : gmap string (list Row)) (tables : list string)
    (acting : string) : backup (list (string * nat) * list (string * nat)) :=
  interlude;;
  s ← gets id;
  match load_tables archive acting tables (in_db s) with
  | None => raise Unexpected
  | Some (db, loaded, skipped) =>
      ok ← next_commit;
      if ok : bool then modify (λ s, s <| in_db := db |>);; mret (loaded, skipped)
      else raise Unexpected
  end.

(** One row of the file table: its blob goes back where the row expects it. *)
Definition restore_file (dirs : list (string * list (string * string))) (row : Row)
    (acc : nat * list string * Store) : nat * list string * Store :=
  let '(restored, missing, store) := acc in
  let id := default "" (row_text row "id") in
  match truthy (row_text row "path") with
  | None => acc
  | Some path =>
      match find (λ d, bool_decide (d.1 = id)) dirs ≫= λ d, head (order_by_text fst d.2) with
      | None => (restored, missing ++ [id], store)
      | Some (_, contents) =>
          let '(subdirectory, filename) := _split_stored_path UPLOAD_DIR path in
          match upload_file UPLOAD_DIR provider contents filename subdirectory store with
          | Some store => (S restored, missing, store)
          | None => (restored, missing ++ [id], store)
          end
      end
  end.

(** The rows are read in one query, after the load is committed; it may raise. *)
Definition _restore_files (files : option (list (string * list (string * string))))
    : backup (nat * list string) := λ s,
  match files with
  | None => (Ok (0%nat, []), s)
  | Some dirs =>
      if in_readable s then
        let '(restored, missing, store) :=
          foldl (λ acc row, restore_file dirs row acc) (0%nat, [], in_store s) (rows (in_db s) "file") in
        (Ok (restored, missing), s <| in_store := store |>)
      else (Raise Unexpected, s)
  end.

Definition _migrate_archive_forward (revision : string) (a : TarArchive) (tables : list string)
    : backup Db :=
  match migrate revision ((λ t, (t, default [] (ar_tables a !! t))) <$> tables) with
  | Some staged => mret staged
  | None => raise Unexpected
  end.

Definition rows_by_table (plan : Plan) (m : Manifest) (a : TarArchive) : backup Db :=
  match plan with
  | MigrateForward =>
      _migrate_archive_forward (default "" (mf_schema_revision m)) a (_tables_for_scopes (mf_scopes m))
  | _ => mret (ar_tables a)
  end.

(** The body of [run_restore] once every check has passed. *)
Definition load_archive (workdir : string) (plan : Plan) (m : Manifest) (a : TarArchive)
    (acting : string) : backup Report :=
  _extract workdir a;;
  archived ← rows_by_table plan m a;
  done ← _write_rows_into_live archived (_tables_for_scopes (mf_scopes m)) acting;
  let '(loaded, skipped) := done in
  files ← _restore_files (ar_files a);
  let '(restored, missing) := files in
  mret (mkReport plan loaded skipped restored missing).

(** [run_restore], into a scratch directory [workdir]. *)
Definition run_restore (workdir : string) (a : TarArchive) (acting : string) : backup Report :=
  manifest ← lift (read_manifest a);
  let scopes := mf_scopes manifest in
  if decide (unknown_scopes scopes ≠ [])
  then raise (RestoreRefused (UnknownScopes (order_by_text id (unknown_scopes scopes))))
  else
    s ← gets id;
    let plan := assess_compatibility (mf_schema_revision manifest) (in_revision s) in
    match plan with
    | Refuse why => raise (RestoreRefused why)
    | _ =>
        let counts := scope_occupancy scopes acting (in_db s) in
        if decide (occupied counts ≠ []) then raise (RestoreRefused (NotEmpty (occupied counts)))
        else load_archive workdir plan manifest a acting
    end.

Definition plan_name (p : Plan) : string :=
  match p with Direct => "direct" | MigrateForward => "migrate_forward" | Refuse _ => "refuse" end.

Definition report_json (r : Report) : Json :=
  JDict [("plan", JStr (plan_name (rp_plan r)));
         ("tables", counts_json (rp_tables r));
         ("skipped", counts_json (rp_skipped r));
         ("files", JDict [("restored", JInt (Z.of_nat (rp_restored r)));
                          ("missing", JList (JStr <$> rp_missing r))])].

(** [run_restore_job], less the progress it reports while loading. *)
Definition run_restore_job (workdir job_id : string) : backup unit :=
  job ← gets (λ s, BackupJobs.get_job_by_id job_id (in_jobs s));
  match job with
  | None => mret tt
  | Some job =>
      update_job job_id (λ j, j <| bj_status := RUNNING |>);;
      failing
        (a ← download_archive (default "" (bj_archive_path job));
         run_restore workdir a (bj_user_id job))
        (λ report, update_job job_id
          (λ j, j <| bj_status := COMPLETED |> <| bj_progress := Some (report_json report) |>))
        (mark_failed job_id)
  end.

(** ** Endpoints, behind the administrator gate *)

Inductive BackupHttp :=
| BadBackupRequest400 (e : BackupExn)
| BadGateway502 (e : BackupExn)
| JobNotFound404
| JobConflict409
| RestoreRefused409 (p : Preview)
| NotCreated500
| Crashed500.

Abbreviation endpoint A := (prog Instance_ BackupHttp A).

(** [try: m except BackupError] *)
Definition as_request {A} (m : backup A) : endpoint A := λ s,
  match m s with
  | (Ok a, s') => (Ok a, s')
  | (Raise e, s') => (Raise (if is_backup_error e then BadBackupRequest400 e else Crashed500), s')
  end.

(** The same, where an error of the archive store is a bad gateway. *)
Definition as_gateway {A} (m : backup A) : endpoint A := λ s,
  match m s with
  | (Ok a, s') => (Ok a, s')
  | (Raise e, s') => (Raise (if is_backup_error e then BadGateway502 e else Crashed500), s')
  end.

Definition insert_job (user_id : string) (scopes : list string) (kind : string)
    (revision : option string) : endpoint BackupJob :=
  n ← as_request fresh;
  ok ← as_request next_commit;
  s ← gets id;
  let '(job, jobs) :=
    BackupJobs.insert_new_job ok (in_now s) (uuid4 n) user_id scopes kind revision (in_jobs s) in
  modify (λ s, s <| in_jobs := jobs |>);;
  match job with Some job => mret job | None => raise NotCreated500 end.

Definition get_schema_revision : endpoint (option string * list string * bool) :=
  current ← gets in_revision;
  let heads := order_by_text id (sd_heads script) in
  mret (current, heads, existsb (λ h, bool_decide (Some h = current)) heads).

Definition create_backup_job (user_id : string) (requested : option (list string)) : endpoint BackupJob :=
  scopes ← as_request (lift (resolve_scopes requested));
  revision ← gets in_revision;
  insert_job user_id scopes "backup" revision.

Definition upload_restore_archive (a : TarArchive) : endpoint (string * string) :=
  as_request
    (lift (read_manifest a);;
     n ← fresh;
     let object_key := "uploads/" +:+ uuid4 n +:+ ".tar.gz" in
     ensure_backup_repo;;
     commit_id ← put_archive a object_key;
     mret (object_key, commit_id)).

Definition preview_restore (user_id archive_path : string) : endpoint Preview :=
  as_request (a ← download_archive archive_path; preview_archive a user_id).

Definition create_restore_job (user_id archive_path : string) : endpoint BackupJob :=
  checked ← as_request
    (a ← download_archive archive_path;
     preview ← preview_archive a user_id;
     manifest ← lift (read_manifest a);
     mret (preview, manifest));
  let '(preview, manifest) := checked in
  if negb (pv_can_restore preview) then raise (RestoreRefused409 preview)
  else
    job ← insert_job user_id (mf_scopes manifest) "restore" (mf_schema_revision manifest);
    as_request (update_job (bj_id job)
      (λ j, j <| bj_archive_repo := Some SELFAI_BACKUP_REPO |> <| bj_archive_path := Some archive_path |>));;
    refreshed ← gets (λ s, BackupJobs.get_job_by_id (bj_id job) (in_jobs s));
    match refreshed with Some job => mret job | None => raise Crashed500 end.

Definition list_backup_jobs : endpoint (list BackupJob) :=
  gets (λ s, BackupJobs.get_all_jobs (in_jobs s)).

Definition get_backup_job (job_id : string) : endpoint BackupJob :=
  job ← gets (λ s, BackupJobs.get_job_by_id job_id (in_jobs s));
  match job with Some job => mret job | None => raise JobNotFound404 end.

Definition download_backup_archive (job_id : string) : endpoint TarArchive :=
  job ← gets (λ s, BackupJobs.get_job_by_id job_id (in_jobs s));
  match job with
  | None => raise JobNotFound404
  | Some job =>
      match truthy (bj_archive_path job) with
      | Some path =>
          if decide (bj_status job = COMPLETED) then as_gateway (download_archive path)
          else raise JobConflict409
      | None => raise JobConflict409
      end
  end.

Definition delete_backup_job (job_id : string) : endpoint bool :=
  job ← gets (λ s, BackupJobs.get_job_by_id job_id (in_jobs s));
  match job with
  | None => raise JobNotFound404
  | Some job =>
      if decide (bj_status job = RUNNING) then raise JobConflict409
      else
        ok ← as_request next_commit;
        s ← gets id;
        let '(deleted, jobs) := BackupJobs.delete_job_by_id ok job_id (in_jobs s) in
        modify (λ s, s <| in_jobs := jobs |>);;
        mret deleted
  end.
End backups.
