(* ===== verification/BackupLoad.v ===== *)
(** Loading an archive's rows: when every statement of the restore's transaction
    succeeds, what the tables hold afterwards, and what a failing one leaves; and
    which archive members stay inside the directory they are extracted to. *)

From Stdlib Require Import Ascii.
From stdpp Require Import gmap.
From S2P Require Import Prelude Data Accounts Archive Backups.

(** ** Rows that can go back *)

(** A value a column of the table can hold. *)
Definition storable (ts : TableSchema) (kv : string * Json) : bool :=
  match kv.2 with
  | JDict _ | JList _ => bool_decide (kv.1 ∈ ts_json ts)
  | JNull => true
  | _ => bool_decide (kv.1 ∉ ts_json ts)
  end.

(** A row with a value for every column, in the order of the columns. *)
Definition well_typed (ts : TableSchema) (row : Row) : bool :=
  bool_decide (row.*1 = ts_columns ts) && forallb (storable ts) row.

(** Added one after the other to [before], no row takes a key. *)
Fixpoint keys_hold (ts : TableSchema) (before l : list Row) : bool :=
  match l with
  | [] => true
  | row :: rest => negb (key_conflict ts before row) && keys_hold ts (before ++ [row]) rest
  end.

(** The rows of a table a restore by [acting] loads. *)
Definition kept (acting : string) (archive : gmap string (list Row)) (table : string) : list Row :=
  filter (λ r, own_row table acting r = false) (default [] (archive !! table)).

(** Every row refers to rows of tables loaded before its own. *)
Fixpoint references_first (acting : string) (archive loaded : Db) (tables : list string) : bool :=
  match tables with
  | [] => true
  | t :: rest =>
      match table_schema t with
      | Some ts => forallb (λ row, negb (reference_missing loaded ts row)) (kept acting archive t)
      | None => false
      end && references_first acting archive (<[t := kept acting archive t]> loaded) rest
  end.

(** What a restore needs of an archive and of the tables it loads it into. *)
Definition archive_fits (d : Dialect) (acting : string) (archive db : Db) (tables : list string) : bool :=
  forallb (λ t, match table_schema t with
                | Some ts => forallb (well_typed ts) (kept acting archive t) &&
                             keys_hold ts (rows db t) (kept acting archive t)
                | None => false
                end) tables &&
  (negb (enforces_references d) || references_first acting archive ∅ tables).

(** ** The schema *)

Lemma schema_of_elem table l ts : schema_of table l = Some ts → (table, ts) ∈ l.
Proof.
  induction l as [|[name x] l IH]; simpl; [done|]. case_decide as Hn.
  - intros [= ->]. subst. left.
  - intros H. right. by apply IH.
Qed.

Lemma schema_sound : Forall (λ e, NoDup (ts_columns e.2) ∧ ts_columns e.2 ≠ []) schema.
Proof. by_decision. Qed.

Lemma columns_sound table ts :
  table_schema table = Some ts → NoDup (ts_columns ts) ∧ ts_columns ts ≠ [].
Proof. intros Hts%schema_of_elem. by apply (proj1 (Forall_forall _ _) schema_sound (table, ts)). Qed.

(** A row read column by column is itself. *)
Lemma cells_of_row cols row :
  NoDup cols → row.*1 = cols → (λ c, (c, cell row c)) <$> cols = row.
Proof.
  intros Hnd <-. induction row as [|[c v] row IH]; [done|]. csimpl in *.
  apply NoDup_cons in Hnd as [Hc Hnd]. f_equal.
  - unfold cell. simpl. by rewrite decide_True.
  - rewrite <- IH at 2 by done. apply list_fmap_ext. intros i x Hx. f_equal.
    unfold cell. simpl. rewrite decide_False; [done|]. intros ->.
    apply Hc, list_elem_of_lookup. by exists i.
Qed.

Lemma serialise_well_typed table ts row :
  table_schema table = Some ts → well_typed ts row = true → _serialise_row ts row = row.
Proof.
  intros [Hnd _]%columns_sound [Hcols _]%andb_true_iff.
  apply bool_decide_eq_true in Hcols. by apply cells_of_row.
Qed.

(** ** One table *)

Section load.
Context (dialect : Dialect) (bind_scalar : Json → option Json).
Implicit Types (db archive : Db) (row : Row).

Lemma loaded_well_typed ts row :
  forallb (storable ts) row = true → loaded_row bind_scalar ts row = Some row.
Proof.
  induction row as [|[c v] row IH]; [done|]. cbn [forallb loaded_row].
  intros [Hv Hrow]%andb_true_iff.
  assert (loaded_cell bind_scalar ts c v = Some v) as ->.
  { unfold storable in Hv. cbn [fst snd] in Hv. unfold loaded_cell.
    destruct v; try done; apply bool_decide_eq_true in Hv; try (by rewrite decide_True);
      by rewrite decide_False. }
  csimpl. by rewrite IH.
Qed.

Lemma rows_insert_eq db t l : rows (<[t := l]> db) t = l.
Proof. unfold rows. by rewrite lookup_insert_eq. Qed.

Lemma rows_insert_ne db t t' l : t ≠ t' → rows (<[t := l]> db) t' = rows db t'.
Proof. intros. unfold rows. by rewrite lookup_insert_ne. Qed.

(** More rows satisfy more references. *)
Lemma reference_found db db' ts row :
  (∀ t, rows db t ⊆ rows db' t) →
  reference_missing db ts row = false → reference_missing db' ts row = false.
Proof.
  intros Hsub Hfound. apply not_true_iff_false. intros Hmissing.
  apply not_true_iff_false in Hfound. apply Hfound. unfold reference_missing in *.
  apply existsb_exists in Hmissing as ([c [t target]] & Hin & Hm).
  apply existsb_exists. exists (c, (t, target)). split; [done|].
  apply andb_true_iff in Hm as [Hnn Hm]. apply andb_true_iff. split; [done|].
  apply negb_true_iff, not_true_iff_false. intros Hex.
  apply negb_true_iff, not_true_iff_false in Hm. apply Hm.
  apply existsb_exists in Hex as (r & Hr & Heq). apply existsb_exists. exists r. split; [|done].
  apply list_elem_of_In, Hsub, list_elem_of_In, Hr.
Qed.

Lemma insert_fitting table ts row db :
  table_schema table = Some ts → well_typed ts row = true →
  key_conflict ts (rows db table) row = false →
  (enforces_references dialect = true → reference_missing db ts row = false) →
  insert_row dialect table row db = Some (<[table := rows db table ++ [row]]> db).
Proof.
  intros Hts Hrow Hkeys Hrefs. destruct (columns_sound _ _ Hts) as [Hnd Hne].
  apply andb_true_iff in Hrow as [Hcols%bool_decide_eq_true _].
  unfold insert_row. rewrite Hts. simpl. rewrite decide_False by (intros ->; by destruct Hne).
  replace (existsb _ row) with false; [|symmetry; apply not_true_iff_false; intros Hc].
  2: { apply existsb_exists in Hc as (kv & Hin & Hc). apply bool_decide_eq_true in Hc.
       apply Hc. rewrite <- Hcols. by apply list_elem_of_fmap_2, list_elem_of_In. }
  rewrite Hkeys, cells_of_row by done.
  destruct (enforces_references dialect); simpl; [by rewrite Hrefs|done].
Qed.

Lemma load_rows table ts l db :
  table_schema table = Some ts → forallb (well_typed ts) l = true →
  keys_hold ts (rows db table) l = true →
  (enforces_references dialect = true →
    forallb (λ row, negb (reference_missing db ts row)) l = true) →
  ∃ db', _load_rows_into dialect bind_scalar table l db = Some db' ∧
    rows db' table = rows db table ++ l ∧ ∀ t, t ≠ table → db' !! t = db !! t.
Proof.
  intros Hts. revert db. induction l as [|row l IH]; intros db Hl Hkeys Hrefs.
  { exists db. split_and!; [done|by rewrite app_nil_r|done]. }
  simpl in Hl, Hkeys, Hrefs. apply andb_true_iff in Hl as [Hrow Hl].
  apply andb_true_iff in Hkeys as [Hkey%negb_true_iff Hkeys].
  destruct (IH (<[table := rows db table ++ [row]]> db)) as (db' & Hload & Hrows & Hother).
  - done.
  - by rewrite rows_insert_eq.
  - intros He. apply Hrefs, andb_true_iff in He as [_ He].
    rewrite forallb_forall in *. intros r Hr. apply negb_true_iff.
    apply (reference_found db); [|apply negb_true_iff, (He r Hr)].
    intros t. destruct (decide (table = t)) as [<-|Ht];
      [rewrite rows_insert_eq; set_solver|by rewrite rows_insert_ne].
  - exists db'. simpl. rewrite Hts. simpl.
    rewrite loaded_well_typed by (by apply andb_true_iff in Hrow as [_ ?]). simpl.
    rewrite (insert_fitting table ts row db) by
      (done || (intros He; apply Hrefs, andb_true_iff in He as [He _]; by apply negb_true_iff)).
    simpl. split_and!; [done| |].
    + by rewrite Hrows, rows_insert_eq, <- app_assoc.
    + intros t Ht. rewrite Hother by done. by apply lookup_insert_ne.
Qed.

(** ** The tables of a restore *)

Lemma load_tables_fitting acting archive (loaded : Db) tables db :
  NoDup tables →
  forallb (λ t, match table_schema t with
                | Some ts => forallb (well_typed ts) (kept acting archive t) &&
                             keys_hold ts (rows db t) (kept acting archive t)
                | None => false
                end) tables = true →
  (∀ t, rows loaded t ⊆ rows db t) →
  (enforces_references dialect = true → references_first acting archive loaded tables = true) →
  ∃ db' skipped,
    load_tables dialect bind_scalar archive acting tables db =
      Some (db', (λ t, (t, length (kept acting archive t))) <$> tables, skipped) ∧
    (∀ t, t ∈ tables → rows db' t = rows db t ++ kept acting archive t) ∧
    (∀ t, t ∉ tables → db' !! t = db !! t).
Proof.
  intros Hnd. revert loaded db. induction tables as [|t tables IH]; intros loaded db Hfit Hsub Hrefs.
  { exists db, []. split_and!; [done| |done]. intros t Ht. by apply not_elem_of_nil in Ht. }
  apply NoDup_cons in Hnd as [Ht Hnd]. simpl in Hfit, Hrefs.
  apply andb_true_iff in Hfit as [Hthis Hfit].
  destruct (table_schema t) as [ts|] eqn:Hts; [|done].
  apply andb_true_iff in Hthis as [Htyped Hkeys].
  destruct (load_rows t ts (kept acting archive t) db) as (db1 & Hload & Hrows & Hother); [done..| |].
  { intros He. apply Hrefs, andb_true_iff in He as [He _].
    rewrite forallb_forall in *. intros r Hr. apply negb_true_iff.
    apply (reference_found loaded); [done|apply negb_true_iff, (He r Hr)]. }
  assert (∀ t', t' ≠ t → rows db1 t' = rows db t') as Hother'
    by (intros; unfold rows; by rewrite Hother).
  destruct (IH Hnd (<[t := kept acting archive t]> loaded) db1) as (db' & skipped & Htables & Hin & Hout).
  - rewrite forallb_forall in *. intros t' Ht'. rewrite Hother'; [by apply Hfit|].
    intros ->. apply Ht, list_elem_of_In, Ht'.
  - intros t'. destruct (decide (t = t')) as [<-|Hne].
    + rewrite rows_insert_eq, Hrows. set_solver.
    + rewrite rows_insert_ne, Hother' by done. apply Hsub.
  - intros He. by apply Hrefs, andb_true_iff in He as [_ He].
  - eexists db', _. simpl. fold (kept acting archive t). rewrite Hload. simpl.
    rewrite Htables. simpl. split_and!; [reflexivity| |].
    + intros t' [->|Ht']%elem_of_cons; [|rewrite Hin, Hother'; set_solver].
      rewrite <- Hrows. unfold rows. by rewrite Hout.
    + intros t' [??]%not_elem_of_cons. by rewrite Hout, Hother.
Qed.

Corollary fitting_archive_loads acting archive db tables :
  NoDup tables → archive_fits dialect acting archive db tables = true →
  ∃ db' skipped,
    load_tables dialect bind_scalar archive acting tables db =
      Some (db', (λ t, (t, length (kept acting archive t))) <$> tables, skipped) ∧
    (∀ t, t ∈ tables → rows db' t = rows db t ++ kept acting archive t) ∧
    (∀ t, t ∉ tables → db' !! t = db !! t).
Proof.
  intros Hnd [Hfit Hrefs]%andb_true_iff. apply (load_tables_fitting acting archive ∅); [done..| |].
  - intros t. unfold rows at 1. rewrite lookup_empty. set_solver.
  - intros He. by rewrite He in Hrefs.
Qed.

(** Whatever the archive holds, a load touches its own tables only. *)
Lemma load_rows_frame table l db db' t :
  _load_rows_into dialect bind_scalar table l db = Some db' → t ≠ table → db' !! t = db !! t.
Proof.
  revert db. induction l as [|row l IH]; simpl; intros db Hload Ht; [by simplify_eq|].
  destruct (table_schema table) as [ts|] eqn:Hts; [|done]. simpl in Hload.
  destruct (loaded_row bind_scalar ts row) as [row'|]; [|done]. simpl in Hload.
  destruct (insert_row dialect table row' db) as [db1|] eqn:Hins; [|done]. simpl in Hload.
  rewrite (IH _ Hload Ht). unfold insert_row in Hins. rewrite Hts in Hins. simpl in Hins.
  repeat case_match; try done. simplify_eq. by rewrite lookup_insert_ne.
Qed.

Lemma load_tables_frame acting archive tables db db' loaded skipped t :
  load_tables dialect bind_scalar archive acting tables db = Some (db', loaded, skipped) →
  t ∉ tables → db' !! t = db !! t.
Proof.
  revert db loaded skipped. induction tables as [|t' tables IH]; intros db loaded skipped Hload Ht.
  { by simplify_eq/=. }
  apply not_elem_of_cons in Ht as [Hne Ht]. simpl in Hload.
  destruct (_load_rows_into _ _ t' _ db) as [db1|] eqn:H1; [|done]. simpl in Hload.
  destruct (load_tables _ _ archive acting tables db1) as [[[db2 l2] s2]|] eqn:H2; [|done].
  simplify_eq/=. rewrite (IH _ _ _ H2 Ht). by eapply load_rows_frame.
Qed.

(** A row that refers to a table without rows stops the transaction. *)
Lemma dangling_row_stops table ts row column other target l1 l2 db :
  enforces_references dialect = true → table_schema table = Some ts →
  (column, (other, target)) ∈ ts_foreign ts → other ≠ table → rows db other = [] →
  column ∉ ts_json ts →
  (∃ s, dict_lookup column row = Some (JStr s)) →
  _load_rows_into dialect bind_scalar table (l1 ++ row :: l2) db = None.
Proof.
  intros He Hts Hforeign Hne Hempty Hcol [s Hs]. revert db Hempty.
  induction l1 as [|r l1 IH]; simpl; intros db Hempty; rewrite Hts; simpl.
  - destruct (loaded_row bind_scalar ts row) as [row'|] eqn:Hrow; simpl; [|done].
    assert (dict_lookup column row' = Some (JStr s)) as Hs'.
    { clear -Hrow Hs Hcol. revert row' Hrow. induction row as [|[c v] row IH]; intros row' Hrow; [done|].
      simpl in Hs, Hrow. destruct (loaded_cell bind_scalar ts c v) as [w|] eqn:Hw; [|done].
      simpl in Hrow. destruct (loaded_row bind_scalar ts row) as [more|]; [|done].
      simplify_eq/=. case_decide as Hc; [subst|by apply IH].
      simplify_eq/=. rewrite decide_False in Hw by done. congruence. }
    assert (insert_row dialect table row' db = None) as ->; [|done].
    unfold insert_row. rewrite Hts. simpl. do 3 (case_match; [done|]).
    rewrite He. replace (reference_missing db ts row') with true; [done|].
    symmetry. apply existsb_exists. exists (column, (other, target)).
    split; [by apply list_elem_of_In|]. rewrite Hempty. simpl. rewrite andb_true_r.
    apply bool_decide_eq_true. unfold cell. by rewrite Hs'.
  - destruct (loaded_row bind_scalar ts r) as [r'|]; simpl; [|done].
    destruct (insert_row dialect table r' db) as [db1|] eqn:Hins; [|done]. simpl.
    apply IH. unfold insert_row in Hins. rewrite Hts in Hins. simpl in Hins.
    repeat case_match; try done. simplify_eq. by rewrite rows_insert_ne.
Qed.

(** A table that cannot be loaded without rows of another stops a restore that
    loads it before the other. *)
Lemma load_stops archive acting before table after other db :
  other ∉ before → rows db other = [] →
  (∀ db, rows db other = [] →
    _load_rows_into dialect bind_scalar table
      (filter (λ r, own_row table acting r = false) (default [] (archive !! table))) db = None) →
  load_tables dialect bind_scalar archive acting (before ++ table :: after) db = None.
Proof.
  intros Hbefore Hempty Hstop. revert db Hempty.
  induction before as [|t before IH]; intros db Hempty; simpl; [by rewrite Hstop|].
  apply not_elem_of_cons in Hbefore as [Hne Hbefore].
  destruct (_load_rows_into _ _ t _ db) as [db1|] eqn:Hload; [|done]. simpl.
  rewrite IH; [done|done|]. unfold rows. by rewrite (load_rows_frame _ _ _ _ _ Hload).
Qed.
End load.
