(* ===== verification/BackupFacts.v ===== *)
(** What the steps of a backup and of a restore do to the instance: the archive a
    backup builds, which of its members are safe to extract, and the one
    transaction of a restore, inverted. *)

From Stdlib Require Import Ascii.
From stdpp Require Import gmap.
From S2P Require Import Prelude Data Accounts Archive Backups BackupLoad.

(** ** Selections *)

Lemma scope_tables_known : Forall (λ n, Forall (λ t, is_Some (table_schema t)) (tables_of n)) scope_names.
Proof. by_decision. Qed.

Lemma selected_tables_known scopes t :
  Forall (λ n, n ∈ scope_names) scopes → t ∈ scopes ≫= tables_of → is_Some (table_schema t).
Proof.
  intros Hscopes (n & Ht & Hn)%list_elem_of_bind. rewrite Forall_forall in Hscopes.
  pose proof (proj1 (Forall_forall _ _) scope_tables_known n (Hscopes n Hn)) as Hknown.
  by apply (proj1 (Forall_forall _ _) Hknown).
Qed.

Lemma add_tables l tables :
  (∀ t, t ∈ foldl add_table tables l ↔ t ∈ tables ∨ t ∈ l) ∧
  (NoDup tables → NoDup (foldl add_table tables l)).
Proof.
  revert tables. induction l as [|x l IH]; intros tables; simpl.
  { split; [|done]. intros t. rewrite elem_of_nil. tauto. }
  destruct (IH (add_table tables x)) as [Hin Hnd]. split.
  - intros t. rewrite Hin, elem_of_cons. unfold add_table. case_decide; set_solver.
  - intros. apply Hnd. unfold add_table. case_decide; [done|].
    apply NoDup_app. split_and!; [done| |apply NoDup_singleton]. set_solver.
Qed.

Lemma elem_of_tables scopes t : t ∈ _tables_for_scopes scopes ↔ t ∈ scopes ≫= tables_of.
Proof. unfold _tables_for_scopes. rewrite (proj1 (add_tables _ _)), elem_of_nil. tauto. Qed.

Lemma tables_nodup scopes : NoDup (_tables_for_scopes scopes).
Proof. apply (add_tables _ []), NoDup_nil_2. Qed.

Lemma known_scopes scopes : unknown_scopes scopes = [] ↔ Forall (λ n, n ∈ scope_names) scopes.
Proof.
  unfold unknown_scopes. induction scopes as [|n scopes IH]; [done|]. rewrite Forall_cons, filter_cons.
  case_decide; [split; [done|tauto]|]. rewrite IH.
  destruct (decide (n ∈ scope_names)); tauto.
Qed.

(** ** Members *)

Definition plain_segment (s : string) : bool := bool_decide (s ≠ "" ∧ s ≠ "." ∧ s ≠ "..").

(** The name of a file or directory in a directory. *)
Definition plain_name (s : string) : bool :=
  plain_segment s && all_chars (λ c, bool_decide (c ≠ slash)) s.

Lemma split_plain s : plain_name s = true → split_on slash s = [s] ∧ plain_segment s = true.
Proof. intros [Hp Hs]%andb_true_iff. by rewrite split_on_plain. Qed.

Lemma resolve_app absolute l1 l2 acc :
  resolve_segments absolute (l1 ++ l2) acc =
    resolve_segments absolute l2 (rev (resolve_segments absolute l1 acc)).
Proof.
  revert acc. induction l1 as [|s l1 IH]; intros acc; simpl; [by rewrite rev_involutive|].
  case_decide; [done|]. case_decide; [done|]. destruct acc; [done|]. case_decide; apply IH.
Qed.

Lemma resolve_plain absolute l acc :
  forallb plain_segment l = true → resolve_segments absolute l acc = rev acc ++ l.
Proof.
  revert acc. induction l as [|s l IH]; intros acc; simpl; [by rewrite app_nil_r|].
  intros [(Hs & Hdot & Hdots)%bool_decide_eq_true Hl]%andb_true_iff.
  rewrite decide_False by tauto. rewrite decide_True by done.
  rewrite IH by done. simpl. by rewrite <- app_assoc.
Qed.

Lemma safe_name dest name l :
  split_on slash name = l → forallb plain_segment l = true → safe_member dest (name, false) = true.
Proof.
  intros Hsplit Hl. unfold safe_member, path_join. cbn [fst snd].
  assert (starts_with "/" name = false) as ->.
  { apply not_true_iff_false. intros [t ->]%starts_with_spec.
    change ("/" +:+ t) with ("" +:+ String slash t) in Hsplit.
    rewrite split_on_app in Hsplit. by subst l. }
  assert (realpath (dest +:+ "/" +:+ name) = realpath dest ++ l) as ->.
  { unfold realpath. change (dest +:+ "/" +:+ name) with (dest +:+ String slash name).
    by rewrite split_on_app, Hsplit, resolve_app, resolve_plain, rev_involutive. }
  rewrite andb_true_r. apply andb_true_iff.
  split; apply bool_decide_eq_true; [by apply prefix_app_r|].
  intros Heq. rewrite <- (app_nil_r (realpath dest)) in Heq at 1. apply app_inv_head in Heq. subst l.
  symmetry in Heq. by apply split_on_ne in Heq.
Qed.

(** The directories of a [_copy_files] over files with plain names. *)
Definition plain_dirs (dirs : list (string * list (string * string))) : bool :=
  forallb (λ d, plain_name d.1 && forallb (λ e, plain_name e.1) d.2) dirs.

Lemma members_are_safe dest tables files :
  (∀ t, t ∈ tables → is_Some (table_schema t)) →
  match files with Some dirs => plain_dirs dirs = true | None => True end →
  Forall (λ m, safe_member dest m = true) (members_of tables files).
Proof.
  intros Htables Hdirs. unfold members_of. rewrite Forall_fmap, Forall_app. split.
  - destruct files as [dirs|]; [|constructor]. unfold file_members. constructor.
    { by eapply safe_name. }
    apply Forall_forall. intros m (d & Hm & Hd)%list_elem_of_bind. simpl.
    unfold plain_dirs in Hdirs. rewrite forallb_forall in Hdirs.
    pose proof (Hdirs d (proj1 (list_elem_of_In _ _) Hd)) as [Hid Hentries]%andb_true_iff.
    destruct (split_plain _ Hid) as [Hsplit Hplain]. apply elem_of_cons in Hm as [->|Hm].
    + eapply (safe_name _ _ ["files"; d.1]); [|by simpl; rewrite Hplain].
      change ("files/" +:+ d.1) with ("files" +:+ String slash d.1). by rewrite split_on_app, Hsplit.
    + apply list_elem_of_fmap in Hm as (e & -> & He). rewrite forallb_forall in Hentries.
      destruct (split_plain _ (Hentries e (proj1 (list_elem_of_In _ _) He))) as [Hes Hep].
      eapply (safe_name _ _ ["files"; d.1; e.1]); [|by simpl; rewrite Hplain, Hep].
      change ("files/" +:+ d.1 +:+ "/" +:+ e.1) with ("files" +:+ String slash (d.1 +:+ String slash e.1)).
      by rewrite !split_on_app, Hsplit, Hes.
  - simpl. constructor; [by eapply safe_name|]. constructor; [by eapply safe_name|].
    rewrite Forall_fmap. apply Forall_forall. intros t Ht. simpl.
    destruct (Htables t Ht) as [ts Hts%schema_of_elem].
    assert (Forall (λ e, plain_name (e.1 +:+ ".jsonl") = true) schema) as Hall by by_decision.
    destruct (split_plain _ (proj1 (Forall_forall _ _) Hall _ Hts)) as [Hsplit Hplain]. simpl in *.
    eapply (safe_name _ _ ["tables"; t +:+ ".jsonl"]); [|by simpl; rewrite Hplain].
    change ("tables/" +:+ t +:+ ".jsonl") with ("tables" +:+ String slash (t +:+ ".jsonl")).
    by rewrite split_on_app, Hsplit.
Qed.

(** ** A backup *)

(** A table's rows as its dump holds them. *)
Definition dumped (db : Db) (table : string) : list Row :=
  match table_schema table with
  | Some ts => _serialise_row ts <$> rows db table
  | None => []
  end.

Lemma dump_quiet tables s :
  in_meanwhile s = [] → (∀ t, t ∈ tables → is_Some (table_schema t)) →
  dump_tables tables s = (Ok ((λ t, (t, dumped (in_db s) t)) <$> tables), s).
Proof.
  intros Hquiet. induction tables as [|t tables IH]; intros Hknown; [done|].
  destruct (Hknown t) as [ts Hts]; [left|]. cbn [dump_tables].
  rewrite run_bind. unfold dump_table at 1. rewrite run_bind. unfold interlude. rewrite Hquiet.
  rewrite run_gets_bind, Hts. simpl. rewrite run_bind, IH by (intros; apply Hknown; by right).
  simpl. unfold dumped at 2. by rewrite Hts.
Qed.

Lemma dumped_lookup db tables t :
  t ∈ tables →
  (list_to_map (reverse ((λ t, (t, dumped db t)) <$> tables)) : Db) !! t = Some (dumped db t).
Proof.
  intros Ht. rewrite <- fmap_reverse. apply elem_of_reverse in Ht. revert Ht.
  induction (reverse tables) as [|x l IH]; [by intros ?%not_elem_of_nil|]. simpl.
  destruct (decide (x = t)) as [->|Hne]; [by rewrite lookup_insert_eq|].
  intros [->|Ht]%elem_of_cons; [done|]. rewrite lookup_insert_ne by done. by apply IH.
Qed.

Lemma dumped_well_typed db table ts :
  table_schema table = Some ts → forallb (well_typed ts) (rows db table) = true →
  dumped db table = rows db table.
Proof.
  intros Hts Hrows. unfold dumped. rewrite Hts. rewrite forallb_forall in Hrows.
  rewrite <- (list_fmap_id (rows db table)) at 2. apply list_fmap_ext. intros i row Hi.
  apply (serialise_well_typed table); [done|].
  apply Hrows, list_elem_of_In, list_elem_of_lookup. by exists i.
Qed.

(** A table's dump, or a file's copy, leaves the jobs, the archives and the revision
    alone; so does building an archive. *)
Definition only_data (s s' : Instance_) : Prop :=
  in_jobs s' = in_jobs s ∧ in_repo s' = in_repo s ∧ in_revision s' = in_revision s.

#[export] Instance only_data_preorder : PreOrder only_data.
Proof. split; [done|]. intros ??? (?&?&?) (?&?&?). by split_and!; etrans. Qed.

Lemma interlude_data : preserves only_data interlude.
Proof. intros s. unfold state_of, interlude. by destruct (in_meanwhile s). Qed.

Lemma dump_tables_data tables : preserves only_data (dump_tables tables).
Proof.
  induction tables as [|t tables IH]; cbn [dump_tables]; unfold dump_table; preserves_auto.
  apply interlude_data.
Qed.

(** Nothing but what others wrote meanwhile. *)
Definition untouched (s s' : Instance_) : Prop :=
  (∃ written, in_meanwhile s = written ++ in_meanwhile s' ∧
    in_db s' = foldl (λ db f, f db) (in_db s) written) ∧
  in_store s' = in_store s ∧ in_revision s' = in_revision s ∧ in_repo s' = in_repo s.

#[export] Instance untouched_preorder : PreOrder untouched.
Proof.
  split.
  - intros s. split; [by exists []|done].
  - intros s1 s2 s3 ((w1 & H1 & Hdb1) & Hs1) ((w2 & H2 & Hdb2) & Hs2).
    split; [|by destruct_and!; split_and!; etrans].
    exists (w1 ++ w2). by rewrite H1, H2, app_assoc, foldl_app, <- Hdb1.
Qed.

Lemma untouched_interlude : preserves untouched interlude.
Proof.
  intros s. unfold state_of, interlude. destruct (in_meanwhile s) as [|f l] eqn:Hm; [done|].
  split; [|done]. by exists [f].
Qed.

Lemma untouched_commit : preserves untouched next_commit.
Proof. intros s. unfold state_of, next_commit. destruct (in_commits s); split; try done; by exists []. Qed.

Lemma untouched_corpus : preserves untouched next_corpus.
Proof. intros s. unfold state_of, next_corpus. destruct (in_corpus s); split; try done; by exists []. Qed.

Lemma untouched_job id patch : preserves untouched (update_job id patch).
Proof.
  apply preserves_bind; [apply _|apply untouched_commit|]. intros ok. apply preserves_modify.
  intros s. split; [by exists []|done].
Qed.

(** Nothing but the jobs and the commits to come. *)
Definition beside (s s' : Instance_) : Prop :=
  in_db s' = in_db s ∧ in_meanwhile s' = in_meanwhile s ∧ in_store s' = in_store s ∧ in_readable s' = in_readable s.

Lemma update_job_beside id patch s : beside s (state_of (update_job id patch) s).
Proof. unfold update_job, state_of. rewrite run_bind. unfold next_commit. by destruct (in_commits s). Qed.

(** [find_row id] of the jobs: as before, or patched. *)
Definition patched (id : string) (patch : BackupJob → BackupJob) (s s' : Instance_) : Prop :=
  find_row id (in_jobs s') = find_row id (in_jobs s) ∨
  ∃ now, find_row id (in_jobs s') =
    (λ j, (patch j) <| bj_updated_at := now |>) <$> find_row id (in_jobs s).

(** A job's row after an update of it: patched, unless the commit failed. *)
Lemma update_job_run id patch s :
  (∀ j, bj_id (patch j) = bj_id j) →
  ∃ s', update_job id patch s = (Ok (), s') ∧ untouched s s' ∧
    patched id patch s s'.
Proof.
  intros Hid. pose proof (untouched_job id patch s) as Hu. unfold state_of, update_job in *.
  rewrite run_bind in *. destruct (next_commit s) as [[ok|] s1] eqn:Hc;
    [|by unfold next_commit in Hc; destruct (in_commits s)].
  eexists. split; [reflexivity|]. split; [exact Hu|]. unfold patched.
  assert (in_jobs s1 = in_jobs s) as <-
    by (unfold next_commit in Hc; destruct (in_commits s); by simplify_eq).
  destruct ok; [right|by left]. exists (in_now s1). simpl. by apply find_update_row_eq.
Qed.

Section facts.
Context (dialect : Dialect) (UPLOAD_DIR : string) (provider : Provider) (uuid4 : nat → string).
Context (script : ScriptDirectory) (bind_scalar : Json → option Json).
Context (migrate : string → list (string * list Row) → option (gmap string (list Row))).

Definition copied (files : list Row) (store : Store)
    : FileCounts * list (string * list (string * string)) * Store :=
  foldl (λ acc row, copy_file UPLOAD_DIR provider row acc) (no_files, [], store) files.

(** The files whose blobs are archived have plain names. *)
Definition plain_files (files : list Row) : bool :=
  forallb (λ row, match truthy (row_text row "path") with
                  | Some path => plain_name (default "" (row_text row "id")) && plain_name (basename path)
                  | None => true
                  end) files.

Lemma copied_plain files store : plain_files files = true → plain_dirs (copied files store).1.2 = true.
Proof.
  unfold copied. assert (plain_dirs (no_files, [], store).1.2 = true) as Hd by done. revert Hd.
  generalize (no_files, @nil (string * list (string * string)), store).
  induction files as [|row files IH]; intros [[counts dirs] sto] Hd; [done|].
  simpl in Hd |- *. intros [Hrow Hfiles]%andb_true_iff. apply IH; [|done]. unfold copy_file.
  destruct (truthy (row_text row "path")) as [path|]; [|done].
  apply andb_true_iff in Hrow as [Hid Hbase].
  destruct (get_file UPLOAD_DIR provider path sto) as [[local sto']|]; [|done].
  unfold plain_dirs in *.
  destruct (sto_local sto' !! local); cbn [fst snd]; rewrite forallb_app, Hd; cbn [forallb fst snd];
    by rewrite Hid, ?Hbase.
Qed.

Lemma build_quiet scopes created_by s revision :
  in_meanwhile s = [] → in_revision s = Some revision → Forall (λ n, n ∈ scope_names) scopes →
  ∃ a m s', build_archive UPLOAD_DIR provider scopes created_by s = (Ok (a, m), s') ∧
    read_manifest a = Ok m ∧ mf_schema_revision m = Some revision ∧ mf_scopes m = scopes ∧
    (∀ t, t ∈ _tables_for_scopes scopes → ar_tables a !! t = Some (dumped (in_db s) t)) ∧
    ar_members a = members_of (scopes ≫= tables_of) (ar_files a) ∧
    ar_files a = (if wants_files scopes
                  then Some (copied (rows (in_db s) "file") (in_store s)).1.2 else None).
Proof.
  intros Hquiet Hrev Hscopes. unfold build_archive. rewrite run_gets_bind. unfold id at 1.
  rewrite Hrev, decide_True by done.
  rewrite run_bind, dump_quiet by (done || (intros; by apply (selected_tables_known scopes))).
  rewrite run_bind. destruct (wants_files scopes) eqn:Hwants.
  - rewrite run_bind. unfold _copy_files. rewrite run_bind. unfold interlude at 1. rewrite Hquiet.
    rewrite run_gets_bind. unfold copy_rows. fold (copied (rows (in_db s) "file") (in_store s)).
    destruct (copied (rows (in_db s) "file") (in_store s)) as [[counts dirs] store].
    eexists _, _, _. split; [reflexivity|]. split_and!; try done.
    + intros t Ht%elem_of_tables. by apply dumped_lookup.
    + simpl. rewrite <- list_fmap_compose. by rewrite list_fmap_id.
  - eexists _, _, _. split; [reflexivity|]. split_and!; try done.
    + intros t Ht%elem_of_tables. by apply dumped_lookup.
    + simpl. rewrite <- list_fmap_compose. by rewrite list_fmap_id.
Qed.
Lemma build_data scopes created_by : preserves only_data (build_archive UPLOAD_DIR provider scopes created_by).
Proof.
  unfold build_archive, _copy_files. preserves_auto.
  - apply dump_tables_data.
  - apply interlude_data.
  - intros s2. unfold state_of, copy_rows. by destruct (foldl _ _ _) as [[]].
Qed.

Lemma build_jobs scopes created_by s :
  in_jobs (state_of (build_archive UPLOAD_DIR provider scopes created_by) s) = in_jobs s.
Proof. apply (build_data scopes created_by s). Qed.

Lemma build_Ok scopes created_by s a m s' :
  build_archive UPLOAD_DIR provider scopes created_by s = (Ok (a, m), s') →
  only_data s s' ∧ read_manifest a = Ok m ∧ mf_scopes m = scopes ∧
  is_Some (in_revision s) ∧ mf_schema_revision m = in_revision s.
Proof.
  intros Hrun. pose proof (build_data scopes created_by s) as Hd. unfold state_of in Hd.
  rewrite Hrun in Hd. split; [done|]. revert Hrun. clear Hd.
  unfold build_archive. rewrite run_gets_bind. unfold id at 1 2.
  destruct (in_revision s) as [r|] eqn:Hr; [|done]. case_decide; [|done].
  intros (d & s1 & _ & (f & s2 & _ & [= <- <- <-])%run_bind_Ok)%run_bind_Ok. done.
Qed.

Lemma corpus_run s : in_jobs (state_of corpus_call s) = in_jobs s ∧ in_repo (state_of corpus_call s) = in_repo s
  ∧ in_revision (state_of corpus_call s) = in_revision s.
Proof.
  unfold state_of, corpus_call. rewrite run_bind. unfold next_corpus.
  by destruct (in_corpus s) as [|[] rest].
Qed.

Lemma put_Ok a key s commit s' :
  put_archive uuid4 a key s = (Ok commit, s') →
  in_repo s' !! key = Some a ∧ in_jobs s' = in_jobs s.
Proof.
  unfold put_archive. rewrite run_bind.
  pose proof (corpus_run s) as (Hj & _). unfold state_of in Hj.
  destruct (corpus_call s) as [[[]|] s1]; [|done]. rewrite run_bind. unfold modify. rewrite run_bind.
  set (s2 := _ <| in_repo := _ |>).
  pose proof (corpus_run s2) as (Hj2 & Hr2 & _). unfold state_of in Hj2, Hr2.
  destruct (corpus_call s2) as [[[]|] s3]; [|done]. intros [= _ <-].
  simpl in *. rewrite Hr2, Hj2. split; [apply lookup_insert_eq|done].
Qed.

(** Sealing a backup leaves every job's status alone. *)
Lemma seal_jobs job s r s' :
  seal_backup UPLOAD_DIR provider uuid4 job s = (r, s') →
  bj_status <$> find_row (bj_id job) (in_jobs s') = bj_status <$> find_row (bj_id job) (in_jobs s).
Proof.
  set (R := λ s s', bj_status <$> find_row (bj_id job) (in_jobs s')
                    = bj_status <$> find_row (bj_id job) (in_jobs s)).
  assert (PreOrder R) by (split; [done|]; intros ??? H1 H2; unfold R in *; by rewrite H2).
  assert (∀ A (m : backup A), (∀ s, in_jobs (state_of m s) = in_jobs s) → preserves R m) as Hsame
    by (intros A m Hm s0; unfold R; by rewrite Hm).
  intros Hrun. enough (preserves R (seal_backup UPLOAD_DIR provider uuid4 job)) as HR
    by (specialize (HR s); unfold state_of in HR; by rewrite Hrun in HR).
  unfold seal_backup, ensure_backup_repo, put_archive. preserves_auto.
  all: try (apply Hsame; intros; first [apply corpus_run|apply build_jobs|reflexivity]).
  intros s1. unfold R, state_of.
  destruct (update_job_run (bj_id job) (λ j, j <| bj_progress := Some (progress_json a0.2) |>) s1)
    as (s2 & -> & _ & [Hp|[now Hp]]); [done| |]; simpl; rewrite Hp; [done|].
  destruct (find_row (bj_id job) (in_jobs s1)) as [j|]; reflexivity.
Qed.

Lemma seal_Ok job s commit m s' :
  seal_backup UPLOAD_DIR provider uuid4 job s = (Ok (commit, m), s') →
  ∃ a, in_repo s' !! object_key job = Some a ∧ read_manifest a = Ok m ∧
    mf_scopes m = bj_scopes job ∧ is_Some (in_revision s) ∧ mf_schema_revision m = in_revision s ∧
    patched (bj_id job) (λ j, j <| bj_progress := Some (progress_json m) |>) s s'.
Proof.
  unfold seal_backup. intros ([] & s1 & H1 & Hrun)%run_bind_Ok.
  pose proof (corpus_run s) as (Hj1 & _ & Hr1). unfold state_of, ensure_backup_repo in *.
  rewrite H1 in Hj1, Hr1. simpl in Hj1, Hr1.
  apply run_bind_Ok in Hrun as ([a m'] & s2 & H2 & Hrun).
  apply build_Ok in H2 as ((Hj2 & _ & _) & Hm & Hscopes & Hstamped & Hrev).
  apply run_bind_Ok in Hrun as ([] & s3 & H3 & Hrun).
  destruct (update_job_run (bj_id job) (λ j, j <| bj_progress := Some (progress_json m') |>) s2)
    as (s3' & H3' & _ & Hp); [done|]. cbn [snd] in H3. rewrite H3' in H3. simplify_eq.
  apply run_bind_Ok in Hrun as (c & s4 & H4 & [= <- <- <-]).
  apply put_Ok in H4 as [Hput Hj4]. simpl in Hput. exists a. rewrite Hr1 in *.
  unfold patched in *. by rewrite Hj4, <- Hj1, <- Hj2.
Qed.

(** ** A restore *)

Lemma download_jobs key s : in_jobs (state_of (download_archive key) s) = in_jobs s.
Proof.
  pose proof (proj1 (corpus_run s)) as Hc. unfold state_of, download_archive in *. rewrite run_bind.
  destruct (corpus_call s) as [[]  s1]; [|done]. rewrite run_gets_bind. unfold id.
  by destruct (in_repo s1 !! key).
Qed.

Lemma download_readable key s : in_readable (state_of (download_archive key) s) = in_readable s.
Proof.
  pose proof (corpus_run s) as Hc. unfold download_archive, corpus_call, next_corpus, state_of.
  destruct s as [? ? ? ? repo ? ? ? [|[] ?] ? ?]; unfold mbind, prog_bind, gets, id; simpl; try done;
    by destruct (repo !! key).
Qed.

Lemma untouched_download key : preserves untouched (download_archive key).
Proof.
  unfold download_archive, corpus_call. preserves_auto. apply untouched_corpus.
Qed.

(** A job's work under the runner's error handling. *)
Lemma failing_cases {A} (m : backup A) (done : A → BackupJob → BackupJob) id s r s' :
  (∀ a j, bj_id (done a j) = bj_id j) →
  failing m (λ a, update_job id (done a)) (mark_failed id) s = (r, s') →
  r = Ok () ∧
  ((∃ e s1, m s = (Raise e, s1) ∧ untouched s1 s' ∧ beside s1 s' ∧
      patched id (λ j, j <| bj_status := FAILED |> <| bj_error := true |>) s1 s') ∨
   (∃ a s1, m s = (Ok a, s1) ∧ untouched s1 s' ∧ beside s1 s' ∧ patched id (done a) s1 s')).
Proof.
  intros Hid. unfold failing, mark_failed. destruct (m s) as [[a|e] s1].
  - pose proof (update_job_beside id (done a) s1) as Hb. unfold state_of in Hb.
    destruct (update_job_run id (done a) s1) as (s2 & Hrun & Hu & Hp); [done|]. rewrite Hrun in *.
    intros [= <- <-]. split; [done|]. right. by exists a, s1.
  - pose proof (update_job_beside id (λ j, j <| bj_status := FAILED |> <| bj_error := true |>) s1) as Hb.
    unfold state_of in Hb.
    destruct (update_job_run id (λ j, j <| bj_status := FAILED |> <| bj_error := true |>) s1)
      as (s2 & Hrun & Hu & Hp); [done|]. rewrite Hrun in *.
    intros [= <- <-]. split; [done|]. left. by exists e, s1.
Qed.

(** The database when a restore writes. *)
Definition database_then (s : Instance_) : Db :=
  match in_meanwhile s with [] => in_db s | f :: _ => f (in_db s) end.

Lemma interlude_db s : interlude s = (Ok (), state_of interlude s) ∧
  in_db (state_of interlude s) = database_then s ∧ in_store (state_of interlude s) = in_store s.
Proof. unfold state_of, interlude, database_then. by destruct (in_meanwhile s). Qed.

Definition refuses (plan : Plan) : bool := match plan with Refuse _ => true | _ => false end.

(** The rows a restore loads under a plan. *)
Definition staged (plan : Plan) (m : Manifest) (a : TarArchive) : option Db :=
  match plan with
  | MigrateForward =>
      migrate (default "" (mf_schema_revision m))
        ((λ t, (t, default [] (ar_tables a !! t))) <$> _tables_for_scopes (mf_scopes m))
  | _ => Some (ar_tables a)
  end.

(** What became of the files: all of the file table's are written back, if the
    archive has any. *)
Definition files_restored (a : TarArchive) (before : Store) (db : Db) (restored : nat)
    (missing : list string) (after : Store) : Prop :=
  (restored, missing, after) =
    match ar_files a with
    | Some dirs =>
        foldl (λ acc row, restore_file UPLOAD_DIR provider dirs row acc) (0%nat, [], before) (rows db "file")
    | None => (0%nat, [], before)
    end.

(** A restore passed every check and loaded the archive in one transaction. *)
Record loaded (workdir : string) (a : TarArchive) (acting : string) (s : Instance_) (report : Report)
    (s' : Instance_) (m : Manifest) (archived : Db) : Prop := mkLoaded {
  ld_manifest : read_manifest a = Ok m;
  ld_scopes : unknown_scopes (mf_scopes m) = [];
  ld_plan : assess_compatibility script (mf_schema_revision m) (in_revision s) = rp_plan report;
  ld_proceeds : refuses (rp_plan report) = false;
  ld_empty : occupied (scope_occupancy (mf_scopes m) acting (in_db s)) = [];
  ld_members : Forall (λ member, safe_member workdir member = true) (ar_members a);
  ld_staged : staged (rp_plan report) m a = Some archived;
  ld_rows : load_tables dialect bind_scalar archived acting (_tables_for_scopes (mf_scopes m))
              (database_then s) = Some (in_db s', rp_tables report, rp_skipped report);
  ld_files : files_restored a (in_store s) (in_db s') (rp_restored report) (rp_missing report) (in_store s')
}.

Lemma extract_run workdir a s :
  (∃ e, _extract workdir a s = (Raise e, s)) ∨
  (_extract workdir a s = (Ok (), s) ∧ Forall (λ m, safe_member workdir m = true) (ar_members a)).
Proof.
  unfold _extract.
  destruct (head (filter (λ m, safe_member workdir m = false) (ar_members a))) as [m|] eqn:Hm; [left; by eexists|].
  right. split; [done|]. apply Forall_forall. intros m Hin. apply not_false_iff_true. intros Hu.
  assert (m ∈ filter (λ m, safe_member workdir m = false) (ar_members a)) as Hf
    by (by apply list_elem_of_filter).
  destruct (filter _ _); [by apply not_elem_of_nil in Hf|done].
Qed.

Lemma restore_files_run a s :
  (in_readable s = false ∧ is_Some (ar_files a) ∧
   _restore_files UPLOAD_DIR provider (ar_files a) s = (Raise Unexpected, s)) ∨
  ∃ restored missing s',
    _restore_files UPLOAD_DIR provider (ar_files a) s = (Ok (restored, missing), s') ∧
    in_db s' = in_db s ∧ in_jobs s' = in_jobs s ∧
    files_restored a (in_store s) (in_db s) restored missing (in_store s').
Proof.
  unfold _restore_files, files_restored. destruct (ar_files a) as [dirs|]; [|right; by eexists _, _, _].
  destruct (in_readable s); [right|by left].
  destruct (foldl _ _ _) as [[restored missing] store]. by eexists _, _, _.
Qed.

Lemma in_write_run archived tables acting s :
  match _write_rows_into_live dialect bind_scalar archived tables acting s with
  | (Raise _, s') => untouched s s' ∧ in_jobs s' = in_jobs s
  | (Ok (l, k), s') =>
      load_tables dialect bind_scalar archived acting tables (database_then s) = Some (in_db s', l, k) ∧
      in_jobs s' = in_jobs s ∧ in_store s' = in_store s ∧ in_readable s' = in_readable s
  end.
Proof.
  destruct (interlude_db s) as (Hi & Hdb & Hstore). pose proof (untouched_interlude s) as Hu.
  assert (in_jobs (state_of interlude s) = in_jobs s ∧ in_readable (state_of interlude s) = in_readable s)
    as [Hjobs Hread] by (unfold state_of, interlude; by destruct (in_meanwhile s)).
  unfold _write_rows_into_live. rewrite run_bind, Hi, run_gets_bind. unfold id.
  set (s1 := state_of interlude s) in *. rewrite Hdb.
  destruct (load_tables dialect bind_scalar archived acting tables (database_then s)) as [[[db l] k]|]; [|done].
  rewrite run_bind. unfold next_commit. destruct (in_commits s1) as [|[] rest]; [done|done|].
  simpl. split; [|done]. etrans; [exact Hu|]. split; [by exists []|done].
Qed.

(** The archive's rows were loaded, all of them, over what others had written. *)
Definition all_loaded (a : TarArchive) (acting : string) (s s' : Instance_) : Prop :=
  ∃ m archived tables skipped, read_manifest a = Ok m ∧
    staged (assess_compatibility script (mf_schema_revision m) (in_revision s)) m a = Some archived ∧
    load_tables dialect bind_scalar archived acting (_tables_for_scopes (mf_scopes m)) (database_then s) =
      Some (in_db s', tables, skipped).

(** What [run_restore] comes to: nothing was touched, or everything was loaded; it also
    raises when it cannot read the file rows then, and no blob is written. *)
Definition restored_or_not (workdir : string) (a : TarArchive) (acting : string) (s : Instance_)
    (out : result BackupExn Report * Instance_) : Prop :=
  in_jobs out.2 = in_jobs s ∧
  match out.1 with
  | Raise _ =>
      untouched s out.2 ∨
      (in_readable s = false ∧ is_Some (ar_files a) ∧ in_store out.2 = in_store s ∧ all_loaded a acting s out.2)
  | Ok report => ∃ m archived, loaded workdir a acting s report out.2 m archived
  end.

Lemma refused workdir a acting s e : restored_or_not workdir a acting s (Raise e, s).
Proof. split; [done|]. left. simpl. reflexivity. Qed.
Local Hint Resolve refused : core.

Lemma rows_by_table_run plan m a s :
  (rows_by_table migrate plan m a s = (Raise Unexpected, s)) ∨
  ∃ archived, rows_by_table migrate plan m a s = (Ok archived, s) ∧ staged plan m a = Some archived.
Proof.
  unfold rows_by_table, _migrate_archive_forward, staged.
  destruct plan; [right; by eexists| |right; by eexists].
  destruct (migrate _ _); [right; by eexists|by left].
Qed.

Lemma load_archive_cases workdir m a acting s :
  let plan := assess_compatibility script (mf_schema_revision m) (in_revision s) in
  read_manifest a = Ok m → unknown_scopes (mf_scopes m) = [] → refuses plan = false →
  occupied (scope_occupancy (mf_scopes m) acting (in_db s)) = [] →
  restored_or_not workdir a acting s
    (load_archive dialect UPLOAD_DIR provider bind_scalar migrate workdir plan m a acting s).
Proof.
  intros plan Hm Hknown Hplan Hempty. unfold load_archive. rewrite run_bind.
  destruct (extract_run workdir a s) as [[e ->]|[-> Hsafe]]; [done|]. rewrite run_bind.
  destruct (rows_by_table_run plan m a s) as [->|(archived & -> & Hstaged)]; [done|].
  rewrite run_bind. pose proof (in_write_run archived (_tables_for_scopes (mf_scopes m)) acting s) as Hw.
  destruct (_write_rows_into_live _ _ _ _ _ s) as [[[l k]|e] s1]; [|destruct Hw; split; [done|by left]].
  destruct Hw as (Hload & Hjobs & Hstore & Hread). rewrite run_bind.
  destruct (restore_files_run a s1) as [(Hr & Ha & ->)|(restored & missing & s2 & -> & Hdb & Hjobs2 & Hfiles)].
  { split; [done|]. right. split_and!; [congruence|done|done|]. by exists m, archived, l, k. }
  split; [by simpl; rewrite Hjobs2|]. exists m, archived. rewrite <- Hdb in Hload.
  rewrite <- Hdb, Hstore in Hfiles. by constructor.
Qed.

Lemma run_restore_cases workdir a acting s :
  restored_or_not workdir a acting s
    (run_restore dialect UPLOAD_DIR provider script bind_scalar migrate workdir a acting s).
Proof.
  unfold run_restore. rewrite run_bind. destruct (read_manifest a) as [m|e] eqn:Hm; [|apply refused].
  cbn [lift mret prog_ret]. destruct (decide (unknown_scopes (mf_scopes m) ≠ [])) as [|Hknown];
    [apply refused|].
  apply dec_stable in Hknown. rewrite run_gets_bind. unfold id.
  pose proof (load_archive_cases workdir m a acting s Hm Hknown) as Hload.
  destruct (assess_compatibility script (mf_schema_revision m) (in_revision s)) eqn:Hplan; [| |apply refused];
    (case_decide as Hocc; [apply refused|]; by apply Hload).
Qed.

(** An archive that fits, for which every check passes, is loaded. *)
Lemma write_fits archived tables acting s db l k :
  in_meanwhile s = [] → head (in_commits s) ≠ Some false →
  load_tables dialect bind_scalar archived acting tables (in_db s) = Some (db, l, k) →
  ∃ s', _write_rows_into_live dialect bind_scalar archived tables acting s = (Ok (l, k), s').
Proof.
  intros Hquiet Hcommit Hload. unfold _write_rows_into_live. rewrite run_bind.
  unfold interlude. rewrite Hquiet, run_gets_bind. unfold id. rewrite Hload, run_bind.
  unfold next_commit. destruct (in_commits s) as [|[] rest]; [..|done]; by eexists.
Qed.

Lemma run_restore_fits workdir a acting s m :
  read_manifest a = Ok m → unknown_scopes (mf_scopes m) = [] →
  mf_schema_revision m = in_revision s → is_Some (in_revision s) →
  occupied (scope_occupancy (mf_scopes m) acting (in_db s)) = [] →
  Forall (λ member, safe_member workdir member = true) (ar_members a) →
  in_meanwhile s = [] → head (in_commits s) ≠ Some false →
  in_readable s = true →
  archive_fits dialect acting (ar_tables a) (in_db s) (_tables_for_scopes (mf_scopes m)) = true →
  ∃ report s',
    run_restore dialect UPLOAD_DIR provider script bind_scalar migrate workdir a acting s = (Ok report, s').
Proof.
  intros Hm Hknown Hrev [r Hr] Hempty Hsafe Hquiet Hcommit Hread Hfits.
  unfold run_restore. rewrite run_bind, Hm. cbn [lift mret prog_ret].
  rewrite decide_False by (intros Hn; by apply Hn). rewrite run_gets_bind. unfold id.
  assert (assess_compatibility script (mf_schema_revision m) (in_revision s) = Direct) as ->.
  { rewrite Hrev, Hr. simpl. by rewrite decide_True. }
  rewrite decide_False by (intros Hn; by apply Hn). unfold load_archive. rewrite run_bind.
  assert (_extract workdir a s = (Ok (), s)) as ->.
  { unfold _extract. rewrite filter_none; [done|]. intros member Hin.
    rewrite Forall_forall in Hsafe. by rewrite (Hsafe member Hin). }
  rewrite run_bind. cbn [rows_by_table mret prog_ret].
  destruct (fitting_archive_loads dialect bind_scalar acting (ar_tables a) (in_db s)
              (_tables_for_scopes (mf_scopes m))) as (db & k & Hload & _); [apply tables_nodup|done|].
  destruct (write_fits _ _ _ _ _ _ _ Hquiet Hcommit Hload) as [s1 Hw]. rewrite run_bind, Hw, run_bind.
  pose proof (in_write_run (ar_tables a) (_tables_for_scopes (mf_scopes m)) acting s) as Hspec. rewrite Hw in Hspec.
  destruct Hspec as (_ & _ & _ & Hread1).
  destruct (restore_files_run a s1) as [(Hno & _)|(x & y & s2 & -> & _)]; [congruence|by eexists _, _].
Qed.
(** What the tables hold after it. *)
Lemma run_restore_rows workdir a acting s m :
  read_manifest a = Ok m → unknown_scopes (mf_scopes m) = [] →
  mf_schema_revision m = in_revision s → is_Some (in_revision s) →
  occupied (scope_occupancy (mf_scopes m) acting (in_db s)) = [] →
  Forall (λ member, safe_member workdir member = true) (ar_members a) →
  in_meanwhile s = [] → head (in_commits s) ≠ Some false →
  in_readable s = true →
  archive_fits dialect acting (ar_tables a) (in_db s) (_tables_for_scopes (mf_scopes m)) = true →
  ∃ report s',
    run_restore dialect UPLOAD_DIR provider script bind_scalar migrate workdir a acting s = (Ok report, s') ∧
    (∀ t, t ∈ _tables_for_scopes (mf_scopes m) →
      rows (in_db s') t = rows (in_db s) t ++ kept acting (ar_tables a) t) ∧
    (∀ t, t ∉ _tables_for_scopes (mf_scopes m) → in_db s' !! t = in_db s !! t) ∧
    rp_tables report =
      (λ t, (t, length (kept acting (ar_tables a) t))) <$> _tables_for_scopes (mf_scopes m) ∧
    files_restored a (in_store s) (in_db s') (rp_restored report) (rp_missing report) (in_store s').
Proof.
  intros Hm Hknown Hrev [r Hr] Hempty Hsafe Hquiet Hcommit Hread Hfits.
  destruct (run_restore_fits workdir a acting s m) as (report & s' & Hrun); try done.
  exists report, s'. split; [done|].
  destruct (run_restore_cases workdir a acting s) as [_ Hcase]. rewrite Hrun in Hcase.
  destruct Hcase as (m' & archived & [Hm' _ Hplan _ _ _ Hst Hload Hfiles]).
  assert (m' = m) as -> by congruence. rewrite Hrev, Hr in Hplan. simpl in Hplan.
  rewrite decide_True in Hplan by done. rewrite <- Hplan in Hst. injection Hst as <-.
  destruct (fitting_archive_loads dialect bind_scalar acting (ar_tables a) (in_db s)
              (_tables_for_scopes (mf_scopes m))) as (db & k & Hload' & Hin & Hout);
    [apply tables_nodup|done|].
  unfold database_then in Hload. rewrite Hquiet, Hload' in Hload. injection Hload as -> Htab _.
  by rewrite <- Htab.
Qed.
End facts.
