(* ===== verification/BackupContract.v ===== *)
(** The contract of backups and restores: a restore gives back what a backup took,
    loads all or nothing, and starts only where every check has passed; a
    job that reads completed has its archive in the repository. *)

From Stdlib Require Import Ascii.
From stdpp Require Import gmap.
From S2P Require Import Prelude Data Accounts Archive Backups BackupLoad BackupFacts.

(** What a backup needs of the rows it takes. *)
Definition dumpable (scopes : list string) (db : Db) : bool :=
  forallb (λ t, match table_schema t with
                | Some ts => forallb (well_typed ts) (rows db t)
                | None => false
                end) (_tables_for_scopes scopes) &&
  plain_files (rows db "file").

Lemma occupied_nil scopes acting db :
  occupied (scope_occupancy scopes acting db) = [] →
  ∀ t row, t ∈ _tables_for_scopes scopes → row ∈ rows db t → own_row t acting row = true.
Proof.
  intros Hempty t row Ht Hrow. apply not_false_iff_true. intros Hown.
  assert ((t, length (filter (λ r, own_row t acting r = false) (rows db t)))
            ∈ occupied (scope_occupancy scopes acting db)) as Hin; [|by rewrite Hempty in Hin; apply not_elem_of_nil in Hin].
  apply list_elem_of_filter. simpl. split.
  - intros Hlen%length_zero_iff_nil.
    assert (row ∈ filter (λ r, own_row t acting r = false) (rows db t)) as Hf
      by (by apply list_elem_of_filter).
    rewrite Hlen in Hf. by apply not_elem_of_nil in Hf.
  - unfold scope_occupancy. apply list_elem_of_fmap. by exists t.
Qed.

Lemma fits_ext d acting a1 a2 db tables :
  (∀ t, t ∈ tables → default [] (a1 !! t) = default [] (a2 !! t)) →
  archive_fits d acting a1 db tables = archive_fits d acting a2 db tables.
Proof.
  intros Heq. unfold archive_fits.
  assert (∀ t, t ∈ tables → kept acting a1 t = kept acting a2 t) as Hkept
    by (intros t Ht; unfold kept; by rewrite Heq).
  clear Heq. f_equal.
  - induction tables as [|t tables IH]; [done|]. simpl.
    rewrite Hkept, IH by set_solver. done.
  - f_equal. generalize (∅ : Db). induction tables as [|t tables IH]; [done|]. intros db0. simpl.
    rewrite Hkept, IH by set_solver. done.
Qed.

Section contract.
Context (dialect : Dialect) (UPLOAD_DIR : string) (provider : Provider) (uuid4 : nat → string).
Context (script : ScriptDirectory) (bind_scalar : Json → option Json).
Context (migrate : string → list (string * list Row) → option (gmap string (list Row))).

Abbreviation restore :=
  (run_restore dialect UPLOAD_DIR provider script bind_scalar migrate).

(** An instance a backup of [db] at [revision] can be restored into. *)
Definition ready_for (scopes : list string) (acting revision : string) (db : Db) (t : Instance_) : Prop :=
  in_revision t = Some revision ∧ in_meanwhile t = [] ∧ head (in_commits t) ≠ Some false ∧ in_readable t = true ∧
  occupied (scope_occupancy scopes acting (in_db t)) = [] ∧
  archive_fits dialect acting db (in_db t) (_tables_for_scopes scopes) = true.

(** A backup and its restore, with what becomes of the files. *)
Lemma round_trip scopes created_by s revision :
  in_revision s = Some revision → in_meanwhile s = [] →
  Forall (λ n, n ∈ scope_names) scopes → dumpable scopes (in_db s) = true →
  ∃ a m s', build_archive UPLOAD_DIR provider scopes created_by s = (Ok (a, m), s') ∧
    ar_files a = (if wants_files scopes
                  then Some (copied UPLOAD_DIR provider (rows (in_db s) "file") (in_store s)).1.2 else None) ∧
    ∀ workdir acting t, ready_for scopes acting revision (in_db s) t →
      ∃ report t', restore workdir a acting t = (Ok report, t') ∧
        (∀ table, table ∈ _tables_for_scopes scopes →
          rows (in_db t') table =
            rows (in_db t) table ++
            filter (λ r, own_row table acting r = false) (rows (in_db s) table)) ∧
        (∀ table, table ∉ _tables_for_scopes scopes → in_db t' !! table = in_db t !! table) ∧
        rp_tables report =
          (λ table, (table, length (filter (λ r, own_row table acting r = false)
                                     (rows (in_db s) table)))) <$> _tables_for_scopes scopes ∧
        files_restored UPLOAD_DIR provider a (in_store t) (in_db t')
          (rp_restored report) (rp_missing report) (in_store t').
Proof.
  intros Hrev Hquiet Hscopes [Htyped Hfiles]%andb_true_iff.
  destruct (build_quiet UPLOAD_DIR provider scopes created_by s revision)
    as (a & m & s' & Hbuild & Hm & Hmrev & Hmscopes & Htables & Hmembers & Har); [done..|].
  exists a, m, s'. split; [done|]. split; [done|]. intros workdir acting t (Htrev & Htquiet & Hcommit & Hread & Hempty & Hfits).
  assert (∀ table, table ∈ _tables_for_scopes scopes →
    default [] (ar_tables a !! table) = rows (in_db s) table) as Hrows.
  { intros table Ht. rewrite Htables by done. simpl. rewrite forallb_forall in Htyped.
    specialize (Htyped table (proj1 (list_elem_of_In _ _) Ht)).
    destruct (table_schema table) as [ts|] eqn:Hts; [|done]. by apply (dumped_well_typed _ _ ts). }
  assert (archive_fits dialect acting (ar_tables a) (in_db t) (_tables_for_scopes (mf_scopes m)) = true) as Hfit
    by (rewrite Hmscopes, <- Hfits; by apply fits_ext).
  destruct (run_restore_rows dialect UPLOAD_DIR provider script bind_scalar migrate workdir a acting t m)
    as (report & t' & Hrun & Hin & Hout & Hreport & Hrest); try done.
  - by rewrite Hmscopes, known_scopes.
  - by rewrite Hmrev, Htrev.
  - by rewrite Hmscopes.
  - rewrite Hmembers. apply members_are_safe; [by intros; apply (selected_tables_known scopes)|].
    rewrite Har. destruct (wants_files scopes); [by apply copied_plain|done].
  - rewrite Hmscopes in *.
    assert (∀ table, table ∈ _tables_for_scopes scopes →
      kept acting (ar_tables a) table = filter (λ r, own_row table acting r = false) (rows (in_db s) table))
      as Hkept by (intros; unfold kept; by rewrite Hrows).
    exists report, t'. split_and!; [done|intros table Ht; by rewrite Hin, Hkept|done| |done].
    rewrite Hreport. apply list_fmap_ext. intros i table Hi. rewrite Hkept; [done|].
    apply list_elem_of_lookup. by exists i.
Qed.
(** C28: a restore gives back what a backup took.  The archive of an instance nobody
    writes to meanwhile, whose rows have the types of their columns and whose files
    with blobs have plain names, restores into every instance [ready_for] it: one at
    the same schema revision, which nobody writes to, whose tables of the scopes hold
    at most the acting administrator's own rows, whose keys no archived row takes,
    where the commit of the load and the query of the file rows succeed and, on
    PostgreSQL, every row refers to rows of tables that are loaded before its own.
    Each of the tables then holds, after these, exactly the archived rows, ids
    and owners included, less the administrator's; no other table has changed; and
    the report counts the rows. *)
Theorem restore_gives_back_the_backup scopes created_by s revision :
  in_revision s = Some revision → in_meanwhile s = [] →
  Forall (λ n, n ∈ scope_names) scopes → dumpable scopes (in_db s) = true →
  ∃ a m s', build_archive UPLOAD_DIR provider scopes created_by s = (Ok (a, m), s') ∧
    ∀ workdir acting t, ready_for scopes acting revision (in_db s) t →
      ∃ report t', restore workdir a acting t = (Ok report, t') ∧
        (∀ table, table ∈ _tables_for_scopes scopes →
          rows (in_db t') table =
            rows (in_db t) table ++
            filter (λ r, own_row table acting r = false) (rows (in_db s) table)) ∧
        (∀ table, table ∉ _tables_for_scopes scopes → in_db t' !! table = in_db t !! table) ∧
        rp_tables report =
          (λ table, (table, length (filter (λ r, own_row table acting r = false)
                                     (rows (in_db s) table)))) <$> _tables_for_scopes scopes.
Proof.
  intros Hrev Hquiet Hscopes Hdump.
  destruct (round_trip scopes created_by s revision) as (a & m & s' & Hbuild & _ & Hrestore); [done..|].
  exists a, m, s'. split; [done|]. intros workdir acting t Hready.
  destruct (Hrestore workdir acting t Hready) as (report & t' & Hrun & Hin & Hout & Hreport & _).
  by exists report, t'.
Qed.

(** ** What a restore may do *)

(** A restore that reports anything at all passed every check: the archive's
    format is this build's, its revision is the database's or a known ancestor of
    it, its scopes are known, their tables held at most the administrator's own
    rows, and every member stays inside the scratch directory.  It then loaded the
    archive in one transaction, which touched the tables of its scopes only. *)
Theorem restore_is_guarded workdir a acting s report s' :
  restore workdir a acting s = (Ok report, s') →
  ∃ m, read_manifest a = Ok m ∧ mf_format_version m = BACKUP_FORMAT_VERSION ∧
    (∃ revision, mf_schema_revision m = Some revision ∧
      (in_revision s = Some revision ∨
       ∃ current, in_revision s = Some current ∧ revision ∈ sd_known script ∧
         revision ∈ sd_ancestry script current)) ∧
    Forall (λ n, n ∈ scope_names) (mf_scopes m) ∧
    (∀ t row, t ∈ _tables_for_scopes (mf_scopes m) → row ∈ rows (in_db s) t → own_row t acting row = true) ∧
    Forall (λ member, safe_member workdir member = true) (ar_members a) ∧
    ∀ t, t ∉ _tables_for_scopes (mf_scopes m) → in_db s' !! t = database_then s !! t.
Proof.
  intros Hrun.
  destruct (run_restore_cases dialect UPLOAD_DIR provider script bind_scalar migrate workdir a acting s)
    as [_ Hcase]. rewrite Hrun in Hcase. destruct Hcase as
    (m & archived & [Hm Hscopes Hplan Hproceeds Hempty Hmembers _ Hrows _]). exists m. split_and!.
  - done.
  - unfold read_manifest in Hm. repeat case_match; by simplify_eq.
  - unfold assess_compatibility in Hplan. rewrite <- Hplan in Hproceeds.
    destruct (mf_schema_revision m) as [r|]; [|done]. exists r. split; [done|].
    case_decide as Hcur; [by left|]. case_decide as Hknown; [done|].
    destruct (in_revision s) as [c|]; [|done]. destruct (_is_ancestor script r c) eqn:Hanc; [|done].
    right. exists c. by apply bool_decide_eq_true in Hanc.
  - by apply known_scopes.
  - by apply occupied_nil.
  - done.
  - intros t. by apply (load_tables_frame _ _ _ _ _ _ _ _ _ _ Hrows).
Qed.

Lemma restore_job_body workdir key acting s r s' :
  (a ← download_archive key; restore workdir a acting) s = (r, s') →
  in_jobs s' = in_jobs s ∧
  match r with
  | Raise e =>
      untouched s s' ∨
      (in_readable s = false ∧ in_store s' = in_store s ∧ ∃ a s1, untouched s s1 ∧ all_loaded dialect script bind_scalar migrate a acting s1 s')
  | Ok _ => ∃ a s1, untouched s s1 ∧ all_loaded dialect script bind_scalar migrate a acting s1 s'
  end.
Proof.
  intros Hrun. rewrite run_bind in Hrun.
  pose proof (untouched_download key s) as Hu. pose proof (download_jobs key s) as Hj.
  pose proof (download_readable key s) as Hd. unfold state_of in *.
  destruct (download_archive key s) as [[a|e] s1]; simpl in *; [|simplify_eq; auto].
  destruct (run_restore_cases dialect UPLOAD_DIR provider script bind_scalar migrate workdir a acting s1)
    as [Hjobs Hcase]. rewrite Hrun in *. simpl in *. rewrite <- Hj. split; [done|].
  destruct r as [report|e].
  - exists a, s1. split; [done|]. destruct Hcase as (m & archived & [Hm _ Hplan _ _ _ Hst Hrows _]).
    exists m, archived, (rp_tables report), (rp_skipped report). by rewrite Hplan.
  - destruct Hcase as [Hs|(Hread & _ & Hstore & Hall)]; [left; by etrans|right].
    split_and!; [congruence| |by exists a, s1]. destruct Hu as (_ & Hst & _). congruence.
Qed.

(** C29: a restore loads all or nothing, and the runner of its job never raises.
    Whatever refuses the restore or stops it, and at whatever point, either the
    database holds what it held and what others wrote meanwhile, and no blob was
    written, or every row of the archive's scopes was loaded in one transaction.
    A job that the runner marks failed loaded nothing, unless the one query of the
    file rows after the load is what failed: then no blob was written.  A job that
    it marks completed loaded everything. *)
Theorem a_restore_loads_all_or_nothing workdir job_id s job r s' :
  find_row job_id (in_jobs s) = Some job → bj_status job = PENDING →
  run_restore_job dialect UPLOAD_DIR provider script bind_scalar migrate workdir job_id s = (r, s') →
  let everything := ∃ a s1, untouched s s1 ∧ all_loaded dialect script bind_scalar migrate a (bj_user_id job) s1 s' in
  r = Ok () ∧ (untouched s s' ∨ everything) ∧
  ∀ job', find_row job_id (in_jobs s') = Some job' →
    (bj_status job' = FAILED → untouched s s' ∨ (in_readable s = false ∧ in_store s' = in_store s)) ∧
    (bj_status job' = COMPLETED → everything).
Proof.
  intros Hjob Hstatus Hrun everything. unfold run_restore_job in Hrun. rewrite run_gets_bind in Hrun.
  unfold BackupJobs.get_job_by_id in Hrun. rewrite Hjob, run_bind in Hrun.
  destruct (update_job_run job_id (λ j, j <| bj_status := RUNNING |>) s) as (s1 & H1 & Hu1 & Hj1); [done|].
  pose proof (update_job_beside job_id (λ j, j <| bj_status := RUNNING |>) s) as (_ & _ & _ & Hd1). unfold state_of in Hd1.
  rewrite H1 in Hrun, Hd1. simpl in Hd1. clear H1.
  assert (∀ s2, (∃ a s3, untouched s1 s3 ∧ all_loaded dialect script bind_scalar migrate a (bj_user_id job) s3 s2) →
    beside s2 s' → everything) as Hthrough.
  { intros s2 (a & s3 & Hu & m & archived & tables & skipped & Hall) (Hdb & _).
    exists a, s3. split; [by etrans|]. exists m, archived, tables, skipped. by rewrite Hdb. }
  assert (∀ s2, in_jobs s2 = in_jobs s1 → (bj_status <$> find_row job_id (in_jobs s2)) ∈ [Some PENDING; Some RUNNING]) as Hopen.
  { intros s2 ->. destruct Hj1 as [->|[now ->]]; rewrite Hjob; simpl; rewrite ?Hstatus; set_solver. }
  apply failing_cases in Hrun as [-> Hrun]; [|done]. split; [done|].
  destruct Hrun as [(e & s2 & Hrun & Hu2 & Hb & Hj2)|(report & s2 & Hrun & Hu2 & Hb & Hj2)];
    apply restore_job_body in Hrun as [Hjobs Hcase]; specialize (Hopen s2 Hjobs).
  - assert ((untouched s s' ∨ everything) ∧ (untouched s s' ∨ (in_readable s = false ∧ in_store s' = in_store s)))
      as [Hall Hfailed].
    { destruct Hcase as [Hs|(Hread & Hst & Hall)]; [split; left; by do 2 etrans|].
      split; right; [by apply (Hthrough s2)|]. destruct Hu1 as (_ & Hst1 & _), Hb as (_ & _ & Hst2 & _).
      split; congruence. }
    split; [exact Hall|]. intros job' Hjob'. split; [auto|]. intros Hdone. exfalso.
    destruct Hj2 as [Hj2|[now Hj2]]; rewrite Hjob' in Hj2; [rewrite <- Hj2 in Hopen; simpl in Hopen|].
    + rewrite Hdone in Hopen. set_solver.
    + destruct (find_row job_id (in_jobs s2)); by simplify_eq/=.
  - assert everything as Hall by (by apply (Hthrough s2)).
    split; [by right|]. intros job' Hjob'. split; [|done]. intros Hfailed. exfalso.
    destruct Hj2 as [Hj2|[now Hj2]]; rewrite Hjob' in Hj2; [rewrite <- Hj2 in Hopen; simpl in Hopen|].
    + rewrite Hfailed in Hopen. set_solver.
    + destruct (find_row job_id (in_jobs s2)); by simplify_eq/=.
Qed.

(** ** Jobs *)

(** A backup job that reads completed has its archive in the repository, under
    the key the job names: an archive of the job's scopes, in this build's format,
    stamped with the revision the database was at.  The job runner never raises. *)
Theorem completed_backup_is_sealed job_id s job r s' :
  find_row job_id (in_jobs s) = Some job → bj_status job ≠ COMPLETED →
  run_backup_job UPLOAD_DIR provider uuid4 job_id s = (r, s') →
  r = Ok () ∧ ∀ job', find_row job_id (in_jobs s') = Some job' → bj_status job' = COMPLETED →
    ∃ a m, bj_archive_path job' = Some (object_key job) ∧ is_Some (bj_archive_commit job') ∧
      in_repo s' !! object_key job = Some a ∧ read_manifest a = Ok m ∧
      mf_scopes m = bj_scopes job ∧ is_Some (in_revision s) ∧
      mf_schema_revision m = in_revision s ∧ bj_schema_revision job' = in_revision s.
Proof.
  intros Hjob Hstatus Hrun. unfold run_backup_job in Hrun. rewrite run_gets_bind in Hrun.
  unfold BackupJobs.get_job_by_id in Hrun. rewrite Hjob, run_bind in Hrun.
  destruct (update_job_run job_id (λ j, j <| bj_status := RUNNING |>) s)
    as (s1 & H1 & (_ & _ & Hrev1 & _) & Hj1); [done|].
  rewrite H1 in Hrun. clear H1. pose proof (find_row_key _ _ _ Hjob : bj_id job = job_id) as Hid.
  apply failing_cases in Hrun as [-> Hrun]; [|done]. split; [done|]. intros job' Hjob' Hdone.
  destruct Hrun as [(e & s2 & Hrun & Hu & _ & Hp)|([commit m] & s2 & Hrun & (_ & _ & _ & Hrepo) & _ & Hp)].
  - exfalso. apply seal_jobs in Hrun. rewrite Hid in Hrun.
    assert (bj_status <$> find_row job_id (in_jobs s2) ≠ Some COMPLETED) as Hs2.
    { rewrite Hrun. destruct Hj1 as [->|[now ->]]; rewrite Hjob; simpl; congruence. }
    destruct Hp as [Hp|[now Hp]]; rewrite Hjob' in Hp.
    + apply Hs2. by rewrite <- Hp, <- Hdone.
    + destruct (find_row job_id (in_jobs s2)); by simplify_eq/=.
  - apply seal_Ok in Hrun as (a & Ha & Hm & Hscopes & Hstamped & Hrev & Hprogress).
    rewrite Hrev1 in *. exists a, m. rewrite Hid in Hprogress.
    destruct Hp as [Hp|[now Hp]]; rewrite Hjob' in Hp.
    + exfalso. destruct Hprogress as [Hq|[now Hq]], Hj1 as [Hj|[now' Hj]];
        rewrite Hj, Hjob in Hq; rewrite Hq in Hp; simpl in Hp; simplify_eq; by simpl in Hdone.
    + destruct (find_row job_id (in_jobs s2)); simplify_eq/=. rewrite Hrepo. by split_and!.
Qed.

(** ** References *)

Lemma tables_append tables l : ∃ k, foldl add_table tables l = tables ++ k.
Proof.
  revert tables. induction l as [|t l IH]; intros tables; simpl; [exists []; by rewrite app_nil_r|].
  destruct (IH (add_table tables t)) as [k ->]. unfold add_table. case_decide; [by exists k|].
  exists (t :: k). by rewrite <- app_assoc.
Qed.

(** In every selection with knowledge bases, their links come before the files. *)
Lemma tables_with_knowledge requested scopes :
  resolve_scopes requested = Ok scopes → "knowledge" ∈ scopes →
  ∃ before after, _tables_for_scopes scopes = before ++ "knowledge_file" :: after ∧ "file" ∉ before.
Proof.
  intros Hres Hin.
  assert (∃ first rest, scopes = first ++ "knowledge" :: rest ∧
    first ∈ [[]; ["users"]; ["chats"]; ["users"; "chats"]]) as (first & rest & -> & Hfirst).
  { unfold resolve_scopes in Hres.
    destruct requested as [[|r l]|].
    - injection Hres as <-. exists ["users"; "chats"]. eexists. split; [reflexivity|]. set_solver.
    - destruct (decide _) in Hres; [done|]. injection Hres as <-. revert Hin.
      set (P := λ s, s ∈ r :: l). unfold scope_names. cbn [fmap list_fmap SCOPES sc_name].
      rewrite list_elem_of_filter. intros [Hk _].
      rewrite !(filter_cons P "users"), !(filter_cons P "chats"), (filter_cons_True P "knowledge") by done.
      destruct (decide (P "users")), (decide (P "chats"));
        [exists ["users"; "chats"]|exists ["users"]|exists ["chats"]|exists []];
        (eexists; split; [reflexivity|set_solver]).
    - injection Hres as <-. exists ["users"; "chats"]. eexists. split; [reflexivity|]. set_solver. }
  unfold _tables_for_scopes. rewrite bind_app, foldl_app. cbn [mbind list_bind].
  rewrite foldl_app. destruct (tables_append
    (foldl add_table (foldl add_table [] (first ≫= tables_of)) (tables_of "knowledge"))
    (rest ≫= tables_of)) as [k Hk]. rewrite Hk.
  exists (foldl add_table [] (first ≫= tables_of) ++ ["knowledge"]), k.
  repeat (apply elem_of_cons in Hfirst as [->|Hfirst]; [split; [reflexivity|by_decision]|]).
  by apply not_elem_of_nil in Hfirst.
Qed.

(** On PostgreSQL no archive with a knowledge base that has a file can be
    restored.  In whatever selection a backup took, the links of knowledge bases
    to files are loaded before the files; with no file in the database the first
    link refers to nothing, the insert fails, and the whole restore with it. *)
Theorem linked_files_cannot_be_restored workdir a acting s m requested file_id l1 row l2 :
  dialect = PostgreSQL → in_meanwhile s = [] →
  read_manifest a = Ok m → mf_schema_revision m = in_revision s →
  resolve_scopes requested = Ok (mf_scopes m) → "knowledge" ∈ mf_scopes m →
  rows (in_db s) "file" = [] →
  ar_tables a !! "knowledge_file" = Some (l1 ++ row :: l2) →
  dict_lookup "file_id" row = Some (JStr file_id) →
  ∃ e s', restore workdir a acting s = (Raise e, s') ∧ untouched s s'.
Proof.
  intros Hd Hquiet Hm Hrev Hres Hknow Hfiles Hlinks Hrow.
  destruct (run_restore_cases dialect UPLOAD_DIR provider script bind_scalar migrate workdir a acting s)
    as [_ Hcase].
  assert (∀ archived tables db l k,
    staged migrate (assess_compatibility script (mf_schema_revision m) (in_revision s)) m a = Some archived →
    tables = _tables_for_scopes (mf_scopes m) →
    load_tables dialect bind_scalar archived acting tables (database_then s) ≠ Some (db, l, k)) as Hstops.
  { intros archived tables db l k Hst ->.
    assert (archived = ar_tables a) as ->.
    { rewrite Hrev in Hst. unfold assess_compatibility in Hst.
      destruct (in_revision s); [rewrite decide_True in Hst by done|]; by injection Hst. }
    destruct (tables_with_knowledge requested (mf_scopes m)) as (before & after & Htables & Hbefore); [done..|].
    rewrite Htables. unfold database_then. rewrite Hquiet.
    rewrite (load_stops dialect bind_scalar (ar_tables a) acting before "knowledge_file" after "file");
      [done|done|done|]. intros db' Hempty. rewrite Hlinks.
    rewrite (filter_all (λ r, own_row "knowledge_file" acting r = false)) by done.
    apply (dangling_row_stops _ _ _ knowledge_file_table row "file_id" "file" "id"); try done.
    - by rewrite Hd.
    - by_decision.
    - by_decision.
    - by exists file_id. }
  destruct (restore workdir a acting s) as [[report|e] s'] eqn:Hrun; simpl in Hcase.
  - exfalso. destruct Hcase as (m' & archived & [Hm' _ Hplan _ _ _ Hst Hload _]).
    assert (m' = m) as -> by congruence. rewrite <- Hplan in Hst. by eapply Hstops.
  - exists e, s'. split; [done|]. destruct Hcase as [|(_ & _ & _ & m' & archived & l & k & Hm' & Hst & Hload)]; [done|exfalso].
    assert (m' = m) as -> by congruence. by eapply Hstops.
Qed.
End contract.

(** ** At startup *)

(** No job stays behind.  At startup every job a dead process left pending or
    running is failed, with an error, in one pass; every other job is left as it
    is. *)
Theorem no_job_stays_interrupted s :
  NoDup (keys (in_jobs s)) → in_commits s = [] →
  ∃ s', fail_interrupted_jobs s = (Ok (), s') ∧
    in_jobs s' =
      (λ j, if bool_decide (bj_status j ∈ [PENDING; RUNNING])
            then j <| bj_status := FAILED |> <| bj_error := true |> <| bj_updated_at := in_now s |>
            else j) <$> in_jobs s ∧
    BackupJobs.get_interrupted_jobs (in_jobs s') = [].
Proof.
  intros Hnd Hcommits.
  assert (∀ l s, in_commits s = [] → ∃ s', fail_each l s = (Ok (), s') ∧
    in_jobs s' = foldl (λ t j, update_row (row_key j)
      (λ j, j <| bj_status := FAILED |> <| bj_error := true |> <| bj_updated_at := in_now s |>) t)
      (in_jobs s) l) as Heach.
  { clear. induction l as [|j l IH]; intros s Hcommits; [by exists s|]. cbn [fail_each].
    rewrite run_bind. unfold mark_failed, update_job. rewrite run_bind. unfold next_commit.
    rewrite Hcommits. unfold modify. destruct (IH (s <| in_jobs := (BackupJobs.update_job true (in_now s)
      (bj_id j) (λ j, j <| bj_status := FAILED |> <| bj_error := true |>) (in_jobs s)).2 |>))
      as (s' & -> & Hs'); [done|]. by exists s'. }
  unfold fail_interrupted_jobs. rewrite run_gets_bind.
  destruct (Heach (BackupJobs.get_interrupted_jobs (in_jobs s)) s Hcommits) as (s' & -> & Hs').
  exists s'. split; [done|].
  rewrite (update_selected _ (λ j, bj_status j ∈ [PENDING; RUNNING])) in Hs' by done.
  split; [done|]. rewrite Hs'. apply filter_none. intros j (i & -> & Hi)%list_elem_of_fmap.
  case_bool_decide; [|done]. simpl. set_solver.
Qed.
