(* ===== verification/BackupFiles.v ===== *)
(** The files of a backup, on local storage: what the archive holds of them, and
    that a restore puts each blob back where its row expects it. *)

From Stdlib Require Import Ascii.
From stdpp Require Import gmap.
From S2P Require Import Prelude Data Accounts Archive Backups BackupLoad BackupFacts BackupContract.

Section files.
Context (UPLOAD_DIR : string).
Implicit Types (row : Row) (store : Store).

Definition file_id row : string := default "" (row_text row "id").
Definition file_path row : option string := truthy (row_text row "path").

(** A stored path the restore would write to again. *)
Definition canonical (path : string) : bool :=
  let '(subdirectory, filename) := _split_stored_path UPLOAD_DIR path in
  bool_decide (filename ≠ "") &&
  bool_decide (UPLOAD_DIR +:+ "/" +:+ storage_key filename subdirectory = path).

(** A blob that can be copied and written: there, and not empty. *)
Definition blob store (path : string) : option string :=
  contents ← sto_local store !! path; if decide (contents = "") then None else Some contents.

(** The file's directory in the archive. *)
Definition file_entry store row : option (string * list (string * string)) :=
  path ← file_path row;
  Some (file_id row,
        match sto_local store !! path with Some contents => [(basename path, contents)] | None => [] end).

(** The files a restore reports as missing. *)
Definition lost store row : option string :=
  path ← file_path row; match blob store path with Some _ => None | None => Some (file_id row) end.

Lemma copied_local files store :
  (copied UPLOAD_DIR LocalStorage files store).1.2 = omap (file_entry store) files.
Proof.
  unfold copied. enough (∀ counts dirs,
    (foldl (λ acc row, copy_file UPLOAD_DIR LocalStorage row acc) (counts, dirs, store) files).1.2 =
    dirs ++ omap (file_entry store) files) as Hall by apply (Hall no_files []).
  induction files as [|row files IH]; intros counts dirs; [by rewrite app_nil_r|].
  cbn [foldl copy_file omap list_omap]. unfold file_entry at 1, file_path, file_id.
  destruct (truthy (row_text row "path")) as [path|]; simpl; [|by rewrite IH].
  destruct (sto_local store !! path); rewrite IH, <- app_assoc; done.
Qed.

(** With an id for each row, a row's directory is found by its id. *)
Lemma find_entry store files row e :
  NoDup (file_id <$> files) → row ∈ files → file_entry store row = Some e →
  find (λ d, bool_decide (d.1 = file_id row)) (omap (file_entry store) files) = Some e.
Proof.
  intros Hnd Hrow He. induction files as [|r files IH]; [by apply not_elem_of_nil in Hrow|].
  apply NoDup_cons in Hnd as [Hr Hnd]. cbn [omap list_omap].
  assert (∀ r e, file_entry store r = Some e → e.1 = file_id r) as Hid.
  { intros r' e'. unfold file_entry. destruct (file_path r'); simpl; [|done]. by intros [= <-]. }
  apply elem_of_cons in Hrow as [<-|Hrow].
  - rewrite He. cbn [find]. by rewrite bool_decide_true by (by apply Hid).
  - destruct (file_entry store r) as [e'|] eqn:He'; [|by apply IH].
    cbn [find]. rewrite bool_decide_false; [by apply IH|]. rewrite (Hid r e') by done.
    intros Heq. apply Hr. rewrite Heq. by apply list_elem_of_fmap_2.
Qed.

(** One row: its blob is written to its path, or it is reported. *)
Lemma restore_one dirs store row restored missing st :
  (∀ e, file_entry store row = Some e →
    find (λ d, bool_decide (d.1 = file_id row)) dirs = Some e) →
  (∀ path, file_path row = Some path → canonical path = true) →
  ∃ restored' st',
    restore_file UPLOAD_DIR LocalStorage dirs row (restored, missing, st) =
      (restored', missing ++ option_list (lost store row), st') ∧
    ∀ q, sto_local st' !! q =
      if decide (file_path row = Some q) then
        match blob store q with Some contents => Some contents | None => sto_local st !! q end
      else sto_local st !! q.
Proof.
  unfold restore_file, lost, file_entry. fold (file_path row) (file_id row).
  destruct (file_path row) as [path|]; intros Hfind Hcanon; simpl.
  2: { exists restored, st. split; [by rewrite app_nil_r|]. intros q. by try case_decide. }
  rewrite (Hfind _ eq_refl). specialize (Hcanon path eq_refl). simpl.
  assert (∀ q, Some path = Some q ↔ path = q) as Hsome by (intros; split; [by intros [=]|by intros ->]).
  unfold blob. destruct (sto_local store !! path) as [contents|] eqn:Hblob; simpl.
  2: { eexists _, _. split; [done|]. intros q. case_decide as Hq; [|done].
       apply Hsome in Hq as <-. by rewrite Hblob. }
  unfold canonical in Hcanon. destruct (_split_stored_path UPLOAD_DIR path) as [subdirectory filename].
  apply andb_true_iff in Hcanon as [Hname%bool_decide_eq_true Hkey%bool_decide_eq_true].
  unfold upload_file. destruct (decide (contents = "")) as [->|Hne]; simpl.
  - eexists _, _. split; [done|]. intros q. case_decide as Hq; [|done].
    apply Hsome in Hq as <-. by rewrite Hblob.
  - rewrite decide_False by tauto. eexists _, _. split; [by rewrite app_nil_r|]. intros q. simpl.
    rewrite Hkey. case_decide as Hq.
    + apply Hsome in Hq as <-. rewrite lookup_insert_eq, Hblob. simpl. by rewrite decide_False.
    + rewrite lookup_insert_ne; [done|]. intros ->. by apply Hq.
Qed.

Lemma restore_all dirs store files restored missing st :
  (∀ row e, row ∈ files → file_entry store row = Some e →
    find (λ d, bool_decide (d.1 = file_id row)) dirs = Some e) →
  (∀ row path, row ∈ files → file_path row = Some path → canonical path = true) →
  ∃ restored' st',
    foldl (λ acc row, restore_file UPLOAD_DIR LocalStorage dirs row acc) (restored, missing, st) files =
      (restored', missing ++ omap (lost store) files, st') ∧
    (∀ q contents, blob store q = Some contents →
      sto_local st !! q = Some contents ∨ Some q ∈ file_path <$> files →
      sto_local st' !! q = Some contents) ∧
    (∀ q, blob store q = None ∨ Some q ∉ file_path <$> files → sto_local st' !! q = sto_local st !! q).
Proof.
  revert restored missing st. induction files as [|row files IH]; intros restored missing st Hfind Hcanon.
  { exists restored, st. split; [by rewrite app_nil_r|]. split; [|done].
    intros q contents _ [?|H]; [done|by apply not_elem_of_nil in H]. }
  destruct (restore_one dirs store row restored missing st) as (restored1 & st1 & Hone & Hlook1);
    [intros; apply Hfind; [left|done]|intros; apply (Hcanon row); [left|done]|].
  destruct (IH restored1 (missing ++ option_list (lost store row)) st1) as (restored' & st' & Hall & Hput & Hkeep);
    [intros; apply Hfind; [by right|done]|intros; apply (Hcanon row0); [by right|done]|].
  exists restored', st'. cbn [foldl]. rewrite Hone, Hall. split_and!.
  - rewrite <- app_assoc. cbn [omap list_omap]. by destruct (lost store row).
  - intros q contents Hq Hin. apply Hput; [done|]. rewrite Hlook1, Hq. csimpl in Hin.
    rewrite elem_of_cons in Hin. case_decide as Hp; [by left|]. destruct Hin as [?|[?|?]]; [by left| |by right].
    by destruct Hp.
  - intros q Hq. csimpl in Hq. rewrite not_elem_of_cons in Hq. rewrite Hkeep, Hlook1 by tauto.
    case_decide as Hp; [|done]. destruct Hq as [->|[Hne _]]; [done|]. by destruct Hne.
Qed.
End files.

Section roundtrip.
Context (dialect : Dialect) (UPLOAD_DIR : string).
Context (script : ScriptDirectory) (bind_scalar : Json → option Json).
Context (migrate : string → list (string * list Row) → option (gmap string (list Row))).

(** A restore puts every blob back where its row expects it.  On local storage,
    for files stored below the upload directory, a backup that takes the files and
    its restore elsewhere leave every readable, non-empty file of the source at its
    path; the report names exactly the files that were unreadable or empty; and
    nothing else on the disk changes. *)
Theorem restored_files_are_where_expected scopes created_by s revision :
  in_revision s = Some revision → in_meanwhile s = [] →
  Forall (λ n, n ∈ scope_names) scopes → dumpable scopes (in_db s) = true → "files" ∈ scopes →
  NoDup (file_id <$> rows (in_db s) "file") →
  Forall (λ row, ∀ path, file_path row = Some path → canonical UPLOAD_DIR path = true)
    (rows (in_db s) "file") →
  ∃ a m s', build_archive UPLOAD_DIR LocalStorage scopes created_by s = (Ok (a, m), s') ∧
    ∀ workdir acting t, ready_for dialect scopes acting revision (in_db s) t →
      ∃ report t',
        run_restore dialect UPLOAD_DIR LocalStorage script bind_scalar migrate workdir a acting t
          = (Ok report, t') ∧
        (∀ row path contents, row ∈ rows (in_db s) "file" → file_path row = Some path →
          sto_local (in_store s) !! path = Some contents → contents ≠ "" →
          sto_local (in_store t') !! path = Some contents) ∧
        rp_missing report = omap (lost (in_store s)) (rows (in_db s) "file") ∧
        ∀ path, Some path ∉ file_path <$> rows (in_db s) "file" →
          sto_local (in_store t') !! path = sto_local (in_store t) !! path.
Proof.
  intros Hrev Hquiet Hscopes Hdump Hfiles Hids Hcanon.
  destruct (round_trip dialect UPLOAD_DIR LocalStorage script bind_scalar migrate scopes created_by s revision)
    as (a & m & s' & Hbuild & Har & Hrestore); [done..|].
  exists a, m, s'. split; [done|]. intros workdir acting t Hready.
  destruct (Hrestore workdir acting t Hready) as (report & t' & Hrun & Hin & _ & _ & Hrest).
  exists report, t'. split; [done|].
  assert ("file" ∈ _tables_for_scopes scopes) as Htable
    by (apply elem_of_tables, list_elem_of_bind; exists "files"; split; [left|done]).
  assert (wants_files scopes = true) as Hwants
    by (apply existsb_exists; exists "files"; split; [by apply list_elem_of_In|done]).
  assert (rows (in_db t') "file" = rows (in_db s) "file") as Hrows.
  { rewrite Hin by done. destruct Hready as (_ & _ & _ & _ & Hempty & _).
    assert (rows (in_db t) "file" = []) as ->.
    { apply elem_of_nil_inv. intros row Hrow.
      by pose proof (occupied_nil _ _ _ Hempty _ _ Htable Hrow). }
    by apply (filter_all (λ r, own_row "file" acting r = false)). }
  unfold files_restored in Hrest. rewrite Har, Hwants, copied_local, Hrows in Hrest.
  destruct (restore_all UPLOAD_DIR (omap (file_entry (in_store s)) (rows (in_db s) "file")) (in_store s)
    (rows (in_db s) "file") 0 [] (in_store t)) as (restored & st & Hall & Hput & Hkeep).
  - intros row e Hrow. by apply find_entry.
  - intros row path Hrow. rewrite Forall_forall in Hcanon. by apply Hcanon.
  - rewrite Hall in Hrest. injection Hrest as _ Hmissing Hstore. subst st. split_and!; [|done|].
    + intros row path contents Hrow Hpath Hblob Hne. apply Hput.
      * unfold blob. rewrite Hblob. simpl. by rewrite decide_False.
      * right. rewrite <- Hpath. by apply list_elem_of_fmap_2.
    + intros path Hpath. apply Hkeep. by right.
Qed.
End roundtrip.

From stdpp Require Import pretty.
From S2P Require Import Prelude.

(** Backups and restores at concrete instances: the contract's theorems applied, and
    runs that show where the code does less than its comments say. *)
Module BackupRuns.

(** ** An instance *)

Definition row_of (ts : TableSchema) (values : Row) : Row :=
  (λ c, (c, default JNull (dict_lookup c values))) <$> ts_columns ts.

Definition account (id email : string) : Row :=
  row_of user_table [("id", JStr id); ("name", JStr id); ("email", JStr email); ("role", JStr "admin")].
Definition login (id email : string) : Row :=
  row_of auth_table [("id", JStr id); ("email", JStr email); ("password", JStr "hash")].
Definition stored_file (id path : string) : Row :=
  row_of file_table [("id", JStr id); ("user_id", JStr "u1"); ("path", JStr path);
    ("meta", JDict [("name", JStr "report")])].
Definition base (id : string) : Row :=
  row_of knowledge_table [("id", JStr id); ("user_id", JStr "u1"); ("name", JStr "base")].
Definition link (knowledge file : string) : Row :=
  row_of knowledge_file_table [("knowledge_id", JStr knowledge); ("file_id", JStr file)].

Definition uploads : string := "/app/data/uploads".
Definition uuid (n : nat) : string := "id-" +:+ pretty n.
Definition revisions : ScriptDirectory :=
  mkScriptDirectory ["r1"; "r2"] ["r2"] (λ r, if decide (r = "r2") then ["r2"; "r1"] else [r]).
Definition no_scalars (_ : Json) : option Json := None.
Definition no_migration (_ : string) (_ : list (string * list Row)) : option Db := None.

Definition source_db : Db :=
  list_to_map [("user", [account "u0" "root@x"; account "u1" "ann@x"]);
    ("auth", [login "u0" "root@x"; login "u1" "ann@x"]);
    ("knowledge", [base "k1"]); ("knowledge_file", [link "k1" "f1"]);
    ("file", [stored_file "f1" (uploads +:+ "/k1/report.txt"); stored_file "f2" (uploads +:+ "/lost.txt")])].

Definition report_path : string := uploads +:+ "/k1/report.txt".

Definition queued_job (id kind : string) (status : BackupStatus) (path : option string) : BackupJob :=
  mkBackupJob id "u0" kind status ["users"; "knowledge"; "files"] None path None None None false 7 7.

Definition source : Instance_ :=
  mkInstance source_db (Some "r2") (mkStore {[report_path := "text"]} ∅)
    [queued_job "j1" "backup" PENDING None; queued_job "j0" "backup" COMPLETED None] ∅ 100 0 [] [] [] true.

Definition target_db : Db :=
  list_to_map [("user", [account "u0" "root@x"]); ("auth", [login "u0" "root@x"]);
    ("prompt", [row_of prompt_table [("command", JStr "/a")]])].
Definition target : Instance_ :=
  mkInstance target_db (Some "r2") (mkStore ∅ ∅) [] ∅ 200 0 [] [] [] true.

Definition taken : list string := ["users"; "knowledge"; "files"].

(** ** The round trip *)

Lemma restore_gives_back_the_backup_witness :
  dumpable taken source_db = true ∧ ready_for SQLite taken "u0" "r2" source_db target ∧
  ∃ a report t',
    run_restore SQLite uploads LocalStorage revisions no_scalars no_migration "/tmp/w" a "u0" target = (Ok report, t') ∧
    rows (in_db t') "user" = [account "u0" "root@x"; account "u1" "ann@x"] ∧
    in_db t' !! "prompt" = target_db !! "prompt" ∧
    rp_tables report = [("user", 1); ("auth", 1); ("group", 0); ("knowledge", 1); ("knowledge_file", 1); ("file", 2)]%nat.
Proof.
  assert (dumpable taken source_db = true) as Hdump by (vm_compute; reflexivity).
  assert (ready_for SQLite taken "u0" "r2" source_db target) as Hready
    by (split_and!; [reflexivity|reflexivity|discriminate|reflexivity|vm_compute; reflexivity|vm_compute; reflexivity]).
  split; [exact Hdump|]. split; [exact Hready|].
  destruct (restore_gives_back_the_backup SQLite uploads LocalStorage revisions no_scalars no_migration
    taken "u0" source "r2" eq_refl eq_refl ltac:(by_decision) Hdump) as (a & m & s' & _ & Hrestore).
  destruct (Hrestore "/tmp/w" "u0" target Hready) as (report & t' & Hrun & Hin & Hout & Hreport).
  exists a, report, t'. split; [exact Hrun|]. split; [|split].
  - rewrite (Hin "user") by by_decision. vm_compute. reflexivity.
  - rewrite Hout by by_decision. reflexivity.
  - rewrite Hreport. vm_compute. reflexivity.
Defined.

Lemma restored_files_are_where_expected_witness :
  ∃ a report t',
    run_restore SQLite uploads LocalStorage revisions no_scalars no_migration "/tmp/w" a "u0" target = (Ok report, t') ∧
    sto_local (in_store t') !! report_path = Some "text" ∧ rp_missing report = ["f2"].
Proof.
  destruct (restored_files_are_where_expected SQLite uploads revisions no_scalars no_migration
    taken "u0" source "r2" eq_refl eq_refl ltac:(by_decision) ltac:(vm_compute; reflexivity)
    ltac:(by_decision) ltac:(by_decision)) as (a & m & s' & _ & Hrestore).
  { repeat constructor; intros path Hpath; vm_compute in Hpath; injection Hpath as <-; vm_compute; reflexivity. }
  destruct (Hrestore "/tmp/w" "u0" target) as (report & t' & Hrun & Hblobs & Hmissing & _).
  { split_and!; [reflexivity|reflexivity|discriminate|reflexivity|vm_compute; reflexivity|vm_compute; reflexivity]. }
  exists a, report, t'. split; [exact Hrun|]. split.
  - apply (Hblobs (stored_file "f1" report_path)); [left|vm_compute; reflexivity|vm_compute; reflexivity|discriminate].
  - rewrite Hmissing. vm_compute. reflexivity.
Defined.

(** ** Archives to restore *)

Definition archive_of (scopes : list string) (s : Instance_) : TarArchive :=
  match (build_archive uploads LocalStorage scopes "u0" s).1 with
  | Ok (a, _) => a
  | Raise _ => mkTarArchive NoMember [] ∅ None
  end.

Abbreviation restored dialect a acting t :=
  (run_restore dialect uploads LocalStorage revisions no_scalars no_migration "/tmp/w" a acting t).

Lemma restore_is_guarded_witness :
  ∃ report m, (restored SQLite (archive_of taken source) "u0" target).1 = Ok report ∧
    read_manifest (archive_of taken source) = Ok m ∧ mf_schema_revision m = Some "r2" ∧
    Forall (λ n, n ∈ scope_names) (mf_scopes m).
Proof.
  destruct (restored SQLite (archive_of taken source) "u0" target) as [r s'] eqn:Hrun.
  assert (r = (restored SQLite (archive_of taken source) "u0" target).1) as Hr by (by rewrite Hrun).
  vm_compute in Hr. subst r.
  destruct (restore_is_guarded SQLite uploads LocalStorage revisions no_scalars no_migration "/tmp/w"
    (archive_of taken source) "u0" target _ s' Hrun) as (m & Hm & _ & (r & Hr & _) & Hscopes & _).
  eexists _, m. split; [reflexivity|]. split; [exact Hm|]. split; [|exact Hscopes].
  rewrite Hr. vm_compute in Hm. injection Hm as <-. simpl in Hr. injection Hr as <-. reflexivity.
Defined.

(** The target with the archive in its repository and a restore job for it. *)
Definition with_job (a : TarArchive) (t : Instance_) : Instance_ :=
  t <| in_repo := {["k" := a]} |> <| in_jobs := [queued_job "r1" "restore" PENDING (Some "k")] |>.

Definition run_job (a : TarArchive) (t : Instance_) : result BackupExn unit * Instance_ :=
  run_restore_job SQLite uploads LocalStorage revisions no_scalars no_migration "/tmp/w" "r1" (with_job a t).

(** A prompt of the scopes is already there. *)
Definition prompts : list string := ["prompts"].

Lemma a_restore_loads_all_or_nothing_witness :
  (bj_status <$> in_jobs (run_job (archive_of prompts source) target).2) = [FAILED] ∧
  untouched (with_job (archive_of prompts source) target) (run_job (archive_of prompts source) target).2.
Proof.
  split; [vm_compute; reflexivity|].
  destruct (run_job (archive_of prompts source) target) as [r s'] eqn:Hrun.
  assert (in_jobs s' = in_jobs (run_job (archive_of prompts source) target).2) as Hjobs by (by rewrite Hrun).
  destruct (a_restore_loads_all_or_nothing SQLite uploads LocalStorage revisions no_scalars no_migration "/tmp/w"
    "r1" (with_job (archive_of prompts source) target) (queued_job "r1" "restore" PENDING (Some "k")) r s'
    eq_refl eq_refl Hrun) as (_ & _ & Hjob).
  edestruct Hjob as [Hfailed _]; [rewrite Hjobs; vm_compute; reflexivity|].
  destruct (Hfailed eq_refl) as [Hs|[Hno _]]; [exact Hs|discriminate Hno].
Defined.

(** A restore that loaded everything, whose job then reads failed: the file rows could not
    be read; or the status could not be written, and the startup fails every job that was
    left running. *)
Example a_loaded_restore_reads_failed :
  let a := archive_of taken source in
  let unread := (run_job a (target <| in_readable := false |>)).2 in
  let unwritten := (run_job a (target <| in_commits := [true; true; false] |>)).2 in
  let started := (fail_interrupted_jobs unwritten).2 in
  (bj_status <$> in_jobs unread, length (rows (in_db unread) "user")) = ([FAILED], 2%nat) ∧
  (bj_status <$> in_jobs unwritten, length (rows (in_db unwritten) "user")) = ([RUNNING], 2%nat) ∧
  (bj_status <$> in_jobs started, length (rows (in_db started) "user")) = ([FAILED], 2%nat).
Proof. by vm_compute. Qed.

Lemma completed_backup_is_sealed_witness :
  let s' := (run_backup_job uploads LocalStorage uuid "j1" source).2 in
  (bj_status <$> in_jobs s') = [COMPLETED; COMPLETED] ∧ ∃ a, in_repo s' !! "7-j1.tar.gz" = Some a.
Proof.
  intros s'. split; [vm_compute; reflexivity|].
  destruct (run_backup_job uploads LocalStorage uuid "j1" source) as [r s1] eqn:Hrun.
  assert (in_jobs s1 = in_jobs (run_backup_job uploads LocalStorage uuid "j1" source).2) as Hjobs
    by (by rewrite Hrun).
  destruct (completed_backup_is_sealed uploads LocalStorage uuid "j1" source
    (queued_job "j1" "backup" PENDING None) r s1 eq_refl ltac:(discriminate) Hrun) as [_ Hsealed].
  edestruct Hsealed as (a & m & _ & _ & Ha & _);
    [rewrite Hjobs; vm_compute; reflexivity|reflexivity|].
  exists a. exact Ha.
Defined.

Lemma no_job_stays_interrupted_witness :
  ∃ s', fail_interrupted_jobs source = (Ok (), s') ∧ (bj_status <$> in_jobs s') = [FAILED; COMPLETED].
Proof.
  destruct (no_job_stays_interrupted source ltac:(by_decision) eq_refl) as (s' & Hrun & Hjobs & _).
  exists s'. split; [exact Hrun|]. rewrite Hjobs. vm_compute. reflexivity.
Defined.

Lemma linked_files_cannot_be_restored_witness :
  ∃ e s', restored PostgreSQL (archive_of taken source) "u0" target = (Raise e, s') ∧ untouched target s'.
Proof.
  destruct (read_manifest (archive_of taken source)) as [m|] eqn:Hm; [|vm_compute in Hm; discriminate Hm].
  assert (mf_scopes m = taken ∧ mf_schema_revision m = Some "r2") as [Hscopes Hrev]
    by (vm_compute in Hm; injection Hm as <-; split; reflexivity).
  apply (linked_files_cannot_be_restored PostgreSQL uploads LocalStorage revisions no_scalars no_migration
    "/tmp/w" (archive_of taken source) "u0" target m (Some taken) "f1" [] (link "k1" "f1") []);
    [reflexivity|reflexivity|exact Hm|exact Hrev|rewrite Hscopes; vm_compute; reflexivity
    |rewrite Hscopes; by_decision|reflexivity|vm_compute; reflexivity|reflexivity].
Defined.

(** ** What the comments do not say *)

(** The scope "knowledge" takes the blobs of its bases' files and not their rows:
    restored, the link refers to no file and the blob is not written back. *)
Example knowledge_scope_leaves_its_files_behind :
  let a := archive_of ["knowledge"] source in
  ar_tables a !! "file" = None ∧
  (match ar_files a with Some ds => ds | None => [] end) = [("f1", [("report.txt", "text")]); ("f2", [])] ∧
  let t := (restored SQLite a "u0" target).2 in
  rows (in_db t) "knowledge_file" = [link "k1" "f1"] ∧ rows (in_db t) "file" = [] ∧
  sto_local (in_store t) !! report_path = None.
Proof. vm_compute. split_and!; reflexivity. Qed.

(** An administrator of the fresh instance with an address the archive has too: two
    accounts, and two logins, with one address. *)
Example restore_duplicates_an_address :
  let fresh := target <| in_db := list_to_map [("user", [account "new" "ann@x"]); ("auth", [login "new" "ann@x"])] |> in
  let t := (restored SQLite (archive_of ["users"] source) "new" fresh).2 in
  ((λ r, cell r "email") <$> rows (in_db t) "user") = [JStr "ann@x"; JStr "root@x"; JStr "ann@x"].
Proof. vm_compute. reflexivity. Qed.

(** Of a file in the bucket below a knowledge base, a restore keeps the last segment
    only, and a backup cannot read it. *)
Example nested_keys_are_not_understood :
  let s := mkStore ∅ {["k1/report.txt" := "text"]} in
  _split_stored_path uploads "s3://bucket/k1/report.txt" = (None, "report.txt") ∧
  get_file uploads (S3Storage "bucket") "s3://bucket/k1/report.txt" s = None.
Proof. vm_compute. split_and!; reflexivity. Qed.

(** Restoring a scope that carries files writes over the blobs of files that are in
    none of the restored scopes. *)
Example restore_overwrites_live_blobs :
  let live := target <| in_db := list_to_map [("file", [stored_file "f1" report_path])] |>
                     <| in_store := mkStore {[report_path := "newer text"]} ∅ |> in
  let t := (restored SQLite (archive_of ["voices"] source) "u0" live).2 in
  sto_local (in_store t) !! report_path = Some "text".
Proof. vm_compute. reflexivity. Qed.

(** A file deleted between the dump of the links and that of the files: the archive
    links a knowledge base to a file it does not have. *)
Example backup_is_no_snapshot :
  let quiet := λ db : Db, db in
  let busy := source <| in_meanwhile :=
    [quiet; quiet; quiet; quiet; quiet; λ db, <["file" := []]> (<["knowledge_file" := []]> db)] |> in
  let a := archive_of taken busy in
  ar_tables a !! "knowledge_file" = Some [link "k1" "f1"] ∧ ar_tables a !! "file" = Some [].
Proof. vm_compute. split_and!; reflexivity. Qed.

End BackupRuns.
