(* ===== verification/Chats.v ===== *)
(** Conversations: the tables of [models/chats.py], [models/tags.py] and
    [models/folders.py], one definition per method.

    A method is a program over a [ChatSite]: the three tables, the clock and the
    outcomes of the coming commits.  The metadata of a chat is its tags and the
    rest; its tags are texts, none and an empty list being the same. *)

From Stdlib Require Import Ascii.
From stdpp Require Import pretty.
From S2P Require Import Prelude Data Accounts.

(** ** Rows *)

Record Chat := mkChat {
  ch_id : string;
  ch_user_id : string;
  ch_title : string;
  ch_chat : json_dict;
  ch_created_at : Z;
  ch_updated_at : Z;
  ch_share_id : option string;
  ch_archived : bool;
  ch_pinned : option bool;
  ch_tags : list string;
  ch_meta : json_dict;
  ch_folder_id : option string;
  ch_kind : option string
}.

#[export] Instance Chat_eta : Eta Chat := λ c,
  mkChat (ch_id c) (ch_user_id c) (ch_title c) (ch_chat c) (ch_created_at c) (ch_updated_at c)
    (ch_share_id c) (ch_archived c) (ch_pinned c) (ch_tags c) (ch_meta c) (ch_folder_id c) (ch_kind c).
#[export] Instance Chat_keyed : Keyed Chat := ch_id.

Record Tag := mkTag {
  tg_id : string;
  tg_user_id : string;
  tg_name : string
}.

Record Folder := mkFolder {
  fo_id : string;
  fo_parent_id : option string;
  fo_user_id : string;
  fo_name : string;
  fo_items : option json_dict;
  fo_meta : option json_dict;
  fo_is_expanded : bool;
  fo_created_at : Z;
  fo_updated_at : Z
}.

#[export] Instance Folder_eta : Eta Folder := λ f,
  mkFolder (fo_id f) (fo_parent_id f) (fo_user_id f) (fo_name f) (fo_items f) (fo_meta f)
    (fo_is_expanded f) (fo_created_at f) (fo_updated_at f).
#[export] Instance Folder_keyed : Keyed Folder := fo_id.

Definition KNOWN_CHAT_KINDS : list string := ["tokenization"].

(** [ChatImportForm], the tags of its metadata apart. *)
Record ChatImportForm := mkChatImportForm {
  im_chat : json_dict;
  im_meta : option (list string * json_dict);
  im_pinned : option bool;
  im_folder_id : option string
}.

(** ** State and errors *)

Record ChatSite := mkChatSite {
  cs_chats : list Chat;
  cs_tags : list Tag;
  cs_folders : list Folder;
  cs_now : Z;
  cs_minted : nat;
  cs_commits : list bool
}.

#[export] Instance ChatSite_eta : Eta ChatSite := λ s,
  mkChatSite (cs_chats s) (cs_tags s) (cs_folders s) (cs_now s) (cs_minted s) (cs_commits s).

Abbreviation chatp A := (prog ChatSite ApiExn A).

Definition next_commit : chatp bool := λ s,
  match cs_commits s with
  | [] => (Ok true, s)
  | ok :: rest => (Ok ok, s <| cs_commits := rest |>)
  end.

(** The statements of a transaction and its commit. *)
Definition write (f : ChatSite → ChatSite) : chatp unit :=
  ok ← next_commit; if ok : bool then modify f else raise Uncaught.

Definition write_chats (f : list Chat → list Chat) : chatp unit :=
  write (λ s, s <| cs_chats := f (cs_chats s) |>).
Definition write_tags (f : list Tag → list Tag) : chatp unit :=
  write (λ s, s <| cs_tags := f (cs_tags s) |>).
Definition write_folders (f : list Folder → list Folder) : chatp unit :=
  write (λ s, s <| cs_folders := f (cs_folders s) |>).

Lemma write_run f s : cs_commits s = [] → write f s = (Ok (), f s).
Proof. intros Hc. unfold write. rewrite run_bind. unfold next_commit. by rewrite Hc. Qed.

Lemma preserves_write R `{!PreOrder R} f :
  (∀ s l, R s (s <| cs_commits := l |>)) → (∀ s, R s (f s)) → preserves R (write f).
Proof.
  intros Hl Hf. apply preserves_bind; [apply _|..].
  - intros s. unfold next_commit, state_of. destruct (cs_commits s); [apply reflexivity|apply Hl].
  - intros [|]; [by apply preserves_modify|by apply preserves_raise].
Qed.

Definition fresh : chatp nat := λ s, (Ok (cs_minted s), s <| cs_minted := S (cs_minted s) |>).

(** [order_by(updated_at.desc())] *)
Definition latest (l : list Chat) : list Chat := sort_by (λ c, - ch_updated_at c) l.

(** [name.replace(" ", "_").lower()] *)
Fixpoint underscored (s : string) : string :=
  match s with
  | EmptyString => EmptyString
  | String c s' => String (if decide (c = " "%char) then "_"%char else c) (underscored s')
  end.

Definition tag_id_of (name : string) : string := lower (underscored name).

(** [chat["title"] if "title" in chat else "New Chat"]; [None] when it is no text. *)
Definition title_of (chat : json_dict) : option string :=
  match dict_lookup "title" chat with
  | None => Some "New Chat"
  | Some (JStr title) => Some title
  | Some _ => None
  end.

(** ** Tags *)

Module Tags.

Definition is_tag (id user_id : string) (t : Tag) : Prop := tg_id t = id ∧ tg_user_id t = user_id.

#[global] Instance is_tag_dec id user_id t : Decision (is_tag id user_id t).
Proof. apply and_dec; apply _. Defined.

Definition get_tag_by_name_and_user_id (name user_id : string) (t : list Tag) : option Tag :=
  head (filter (is_tag (tag_id_of name) user_id) t).

Definition insert_new_tag (name user_id : string) : chatp (option Tag) :=
  let tag := mkTag (tag_id_of name) user_id name in
  attempt
    (t ← gets cs_tags;
     if decide (Exists (is_tag (tag_id_of name) user_id) t) then raise Uncaught
     else write_tags (λ t, t ++ [tag]);; mret (Some tag))
    None.

Definition get_tags_by_user_id (user_id : string) (t : list Tag) : list Tag :=
  filter (λ g, tg_user_id g = user_id) t.

Definition get_tags_by_ids_and_user_id (ids : list string) (user_id : string) (t : list Tag) : list Tag :=
  filter (λ g, tg_id g ∈ ids ∧ tg_user_id g = user_id) t.

Definition delete_tag_by_name_and_user_id (name user_id : string) : chatp bool :=
  attempt (write_tags (filter (λ g, ¬ is_tag (tag_id_of name) user_id g));; mret true) false.

End Tags.

(** ** Chats *)

Module Chats.
Section chats.
Context (uuid4 : nat → string).
(** [list(set(l))]: the elements in some order. *)
Context (as_list : list string → list string).

Definition get_chat_by_id (id : string) (t : list Chat) : option Chat := find_row id t.

(** [db.get(Chat, id)], and a first use of it: [None] raises. *)
Definition db_get (id : string) : chatp Chat :=
  t ← gets cs_chats; match find_row id t with Some c => mret c | None => raise Uncaught end.

Definition get_chat_by_id_and_user_id (id user_id : string) (t : list Chat) : option Chat :=
  head (filter (λ c, ch_id c = id ∧ ch_user_id c = user_id) t).

(** [db.add(chat)] and the commit; the id is the primary key, the share id unique. *)
Definition insert_chat (c : Chat) : chatp unit :=
  t ← gets cs_chats;
  if decide (ch_id c ∈ keys t) then raise Uncaught else write_chats (λ t, t ++ [c]).

Definition new_chat (now : Z) (id user_id title : string) (chat : json_dict) (kind : option string) : Chat :=
  mkChat id user_id title chat now now None false (Some false) [] [] None kind.

Definition insert_new_chat (user_id : string) (chat : json_dict) (kind : option string) : chatp Chat :=
  n ← fresh;
  now ← gets cs_now;
  match title_of chat with
  | None => raise Uncaught
  | Some title =>
      let c := new_chat now (uuid4 n) user_id title chat kind in
      insert_chat c;; mret c
  end.

Definition import_chat (user_id : string) (form : ChatImportForm) : chatp Chat :=
  n ← fresh;
  now ← gets cs_now;
  match title_of (im_chat form), im_meta form with
  | Some title, Some (tags, meta) =>
      let c := mkChat (uuid4 n) user_id title (im_chat form) now now None false (im_pinned form)
                 tags meta (im_folder_id form) None in
      insert_chat c;; mret c
  | _, _ => raise Uncaught
  end.

(** Fetch a row, change it, commit, read it back. *)
Definition patch (id : string) (f : Z → Chat → Chat) : chatp (option Chat) :=
  attempt
    (db_get id;;
     now ← gets cs_now;
     write_chats (update_row id (f now));;
     c ← db_get id; mret (Some c))
    None.

Definition update_chat_by_id (id : string) (chat : json_dict) : chatp (option Chat) :=
  match title_of chat with
  | None => mret None
  | Some title =>
      patch id (λ now c, c <| ch_chat := chat |> <| ch_title := title |> <| ch_updated_at := now |>)
  end.

Definition update_chat_title_by_id (id title : string) : chatp (option Chat) :=
  t ← gets cs_chats;
  match get_chat_by_id id t with
  | None => mret None
  | Some c => update_chat_by_id id (dict_set "title" (JStr title) (ch_chat c))
  end.

Definition get_chat_title_by_id (id : string) (t : list Chat) : option Json :=
  c ← get_chat_by_id id t; Some (default (JStr "New Chat") (dict_lookup "title" (ch_chat c))).

(** *** Messages *)

(** The history of a chat with a message set in it; [None] when the code raises. *)
Definition upserted (message_id : string) (message : json_dict) (chat : json_dict) : option json_dict :=
  match default (JDict []) (dict_lookup "history" chat) with
  | JDict history =>
      known ← py_in message_id (default (JDict []) (dict_lookup "messages" history));
      messages ← match dict_lookup "messages" history with
                 | Some (JDict messages) => Some messages
                 | _ => None
                 end;
      entry ← (if known : bool
               then match dict_lookup message_id messages with
                    | Some (JDict old) => Some (dict_update old message)
                    | _ => None
                    end
               else Some message);
      let history := dict_set "messages" (JDict (dict_set message_id (JDict entry) messages)) history in
      Some (dict_set "history" (JDict (dict_set "currentId" (JStr message_id) history)) chat)
  | _ => None
  end.

Definition upsert_message_to_chat_by_id_and_message_id (id message_id : string) (message : json_dict)
    : chatp (option Chat) :=
  t ← gets cs_chats;
  match get_chat_by_id id t with
  | None => mret None
  | Some c =>
      match upserted message_id message (ch_chat c) with
      | None => raise Uncaught
      | Some chat => update_chat_by_id id chat
      end
  end.

Definition with_status (message_id : string) (status : json_dict) (chat : json_dict) : option json_dict :=
  match default (JDict []) (dict_lookup "history" chat) with
  | JDict history =>
      known ← py_in message_id (default (JDict []) (dict_lookup "messages" history));
      history ←
        (if known : bool
         then match dict_lookup "messages" history with
              | Some (JDict messages) =>
                  match dict_lookup message_id messages with
                  | Some (JDict message) =>
                      match default (JList []) (dict_lookup "statusHistory" message) with
                      | JList l =>
                          let message := dict_set "statusHistory" (JList (l ++ [JDict status])) message in
                          Some (dict_set "messages" (JDict (dict_set message_id (JDict message) messages)) history)
                      | _ => None
                      end
                  | _ => None
                  end
              | _ => None
              end
         else Some history);
      Some (dict_set "history" (JDict history) chat)
  | _ => None
  end.

Definition add_message_status_to_chat_by_id_and_message_id (id message_id : string) (status : json_dict)
    : chatp (option Chat) :=
  t ← gets cs_chats;
  match get_chat_by_id id t with
  | None => mret None
  | Some c =>
      match with_status message_id status (ch_chat c) with
      | None => raise Uncaught
      | Some chat => update_chat_by_id id chat
      end
  end.

(** *** Sharing *)

Definition shared_owner (chat_id : string) : string := "shared-" +:+ chat_id.

Definition share_taken (share_id : string) (t : list Chat) : Prop :=
  Exists (λ c, ch_share_id c = Some share_id) t.

Definition insert_shared_chat_by_chat_id (chat_id : string) : chatp (option Chat) :=
  c ← db_get chat_id;
  match truthy (ch_share_id c) with
  | Some share_id => t ← gets cs_chats; mret (get_chat_by_id_and_user_id share_id "shared" t)
  | None =>
      n ← fresh;
      now ← gets cs_now;
      let shared := mkChat (uuid4 n) (shared_owner chat_id) (ch_title c) (ch_chat c) (ch_created_at c) now
                      None false (Some false) [] [] None None in
      insert_chat shared;;
      t ← gets cs_chats;
      if decide (share_taken (uuid4 n) t) then raise Uncaught
      else
        write_chats (update_row chat_id (λ c, c <| ch_share_id := Some (uuid4 n) |>));;
        mret (Some shared)
  end.

Definition update_shared_chat_by_chat_id (chat_id : string) : chatp (option Chat) :=
  attempt
    (t ← gets cs_chats;
     match head (filter (λ c, ch_user_id c = shared_owner chat_id) t) with
     | None => insert_shared_chat_by_chat_id chat_id
     | Some shared =>
         c ← db_get chat_id;
         now ← gets cs_now;
         write_chats (update_row (ch_id shared)
           (λ r, r <| ch_title := ch_title c |> <| ch_chat := ch_chat c |> <| ch_updated_at := now |>));;
         shared ← db_get (ch_id shared); mret (Some shared)
     end)
    None.

Definition delete_shared_chat_by_chat_id (chat_id : string) : chatp bool :=
  attempt (write_chats (filter (λ c, ch_user_id c ≠ shared_owner chat_id));; mret true) false.

Definition update_chat_share_id_by_id (id : string) (share_id : option string) : chatp (option Chat) :=
  patch id (λ _ c, c <| ch_share_id := share_id |>).

Definition get_chat_by_share_id (id : string) (t : list Chat) : option Chat :=
  if decide (share_taken id t) then get_chat_by_id id t else None.

(** *** Pinning, archiving, filing *)

Definition is_pinned (c : Chat) : bool := default false (ch_pinned c).

Definition toggle_chat_pinned_by_id (id : string) : chatp (option Chat) :=
  patch id (λ now c, c <| ch_pinned := Some (negb (is_pinned c)) |> <| ch_updated_at := now |>).

Definition toggle_chat_archive_by_id (id : string) : chatp (option Chat) :=
  patch id (λ now c, c <| ch_archived := negb (ch_archived c) |> <| ch_updated_at := now |>).

Definition archive_all_chats_by_user_id (user_id : string) : chatp bool :=
  attempt
    (write_chats (update_where (λ c, bool_decide (ch_user_id c = user_id)) (λ c, c <| ch_archived := true |>));;
     mret true) false.

Definition update_chat_folder_id_by_id_and_user_id (id user_id : string) (folder_id : option string)
    : chatp (option Chat) :=
  patch id (λ now c, c <| ch_folder_id := folder_id |> <| ch_updated_at := now |> <| ch_pinned := Some false |>).

(** *** Lists *)

(** [offset] and [limit], each left out when falsy; PostgreSQL refuses negative ones,
    SQLite takes a negative offset for none and a negative limit for no limit. *)
Definition page_of {A} (dialect : Dialect) (skip limit : option Z) (l : list A) : option (list A) :=
  let skip := default 0 skip in
  let limit := default 0 limit in
  match dialect with
  | PostgreSQL =>
      if decide (skip < 0 ∨ limit < 0) then None
      else Some (let l := drop (Z.to_nat skip) l in if decide (limit = 0) then l else take (Z.to_nat limit) l)
  | SQLite =>
      Some (let l := drop (Z.to_nat skip) l in if decide (limit ≤ 0) then l else take (Z.to_nat limit) l)
  end.

Definition get_archived_chat_list_by_user_id (user_id : string) (t : list Chat) : list Chat :=
  latest (filter (λ c, ch_user_id c = user_id ∧ ch_archived c = true) t).

Definition get_chat_list_by_user_id (user_id : string) (include_archived : bool) (t : list Chat) : list Chat :=
  latest (filter (λ c, ch_user_id c = user_id ∧ ch_folder_id c = None ∧ ch_kind c = None ∧
                       (include_archived = true ∨ ch_archived c = false)) t).

Definition get_chat_list_by_user_id_and_kind (user_id kind : string) (include_archived : bool) (t : list Chat)
    : list Chat :=
  latest (filter (λ c, ch_user_id c = user_id ∧ ch_folder_id c = None ∧ ch_kind c = Some kind ∧
                       (include_archived = true ∨ ch_archived c = false)) t).

Definition get_chat_title_id_list_by_user_id (user_id : string) (include_archived : bool) (t : list Chat)
    : list Chat :=
  latest (filter (λ c, ch_user_id c = user_id ∧ ch_folder_id c = None ∧ ch_kind c = None ∧
                       is_pinned c = false ∧ (include_archived = true ∨ ch_archived c = false)) t).

Definition get_chat_list_by_chat_ids (ids : list string) (t : list Chat) : list Chat :=
  latest (filter (λ c, ch_id c ∈ ids ∧ ch_archived c = false) t).

Definition get_chats (t : list Chat) : list Chat := latest t.

Definition get_chats_by_user_id (user_id : string) (t : list Chat) : list Chat :=
  latest (filter (λ c, ch_user_id c = user_id) t).

Definition get_pinned_chats_by_user_id (user_id : string) (t : list Chat) : list Chat :=
  latest (filter (λ c, ch_user_id c = user_id ∧ is_pinned c = true ∧ ch_archived c = false) t).

Definition get_archived_chats_by_user_id (user_id : string) (t : list Chat) : list Chat :=
  latest (filter (λ c, ch_user_id c = user_id ∧ ch_archived c = true) t).

Definition get_chats_by_folder_id_and_user_id (folder_id user_id : string) (t : list Chat) : list Chat :=
  latest (filter (λ c, ch_folder_id c = Some folder_id ∧ ch_user_id c = user_id ∧
                       is_pinned c = false ∧ ch_archived c = false) t).

Definition get_chats_by_folder_ids_and_user_id (folder_ids : list string) (user_id : string) (t : list Chat)
    : list Chat :=
  latest (filter (λ c, ch_user_id c = user_id ∧ Exists (λ f, ch_folder_id c = Some f) folder_ids ∧
                       is_pinned c = false ∧ ch_archived c = false) t).

(** *** Tags of chats *)

Definition get_chat_list_by_user_id_and_tag_name (user_id tag_name : string) (t : list Chat) : list Chat :=
  filter (λ c, ch_user_id c = user_id ∧ tag_id_of tag_name ∈ ch_tags c) t.

Definition count_chats_by_tag_name_and_user_id (tag_name user_id : string) (t : list Chat) : nat :=
  length (filter (λ c, ch_user_id c = user_id ∧ ch_archived c = false ∧ tag_id_of tag_name ∈ ch_tags c) t).

Definition add_chat_tag_by_id_and_user_id_and_tag_name (id user_id tag_name : string) : chatp (option Chat) :=
  tags ← gets cs_tags;
  tag ← match Tags.get_tag_by_name_and_user_id tag_name user_id tags with
        | Some tag => mret (Some tag)
        | None => Tags.insert_new_tag tag_name user_id
        end;
  match tag with
  | None => mret None
  | Some tag =>
      patch id (λ _ c, if decide (tg_id tag ∈ ch_tags c) then c
                       else c <| ch_tags := as_list (ch_tags c ++ [tg_id tag]) |>)
  end.

Definition delete_tag_by_id_and_user_id_and_tag_name (id user_id tag_name : string) : chatp bool :=
  attempt
    (db_get id;;
     write_chats (update_row id
       (λ c, c <| ch_tags := as_list (filter (λ g, g ≠ tag_id_of tag_name) (ch_tags c)) |>));;
     mret true) false.

Definition delete_all_tags_by_id_and_user_id (id user_id : string) : chatp bool :=
  attempt (db_get id;; write_chats (update_row id (λ c, c <| ch_tags := [] |>));; mret true) false.

(** [for tag in tags: if the count of its chats is n: delete the tag] *)
Definition drop_tags_counted (n : nat) (user_id : string) (tags : list string) : chatp unit :=
  for_each (λ tag,
    t ← gets cs_chats;
    if decide (count_chats_by_tag_name_and_user_id tag user_id t = n)
    then Tags.delete_tag_by_name_and_user_id tag user_id;; mret tt
    else mret tt) tags.

Definition update_chat_tags_by_id (id : string) (tags : list string) (user_id : string) : chatp (option Chat) :=
  t ← gets cs_chats;
  match get_chat_by_id id t with
  | None => mret None
  | Some c =>
      delete_all_tags_by_id_and_user_id id user_id;;
      drop_tags_counted 0 user_id (ch_tags c);;
      for_each (λ tag_name,
        if decide (lower tag_name = "none") then mret tt
        else add_chat_tag_by_id_and_user_id_and_tag_name id user_id tag_name;; mret tt) tags;;
      t ← gets cs_chats; mret (get_chat_by_id id t)
  end.

(** *** Deletion *)

Definition delete_chat_by_id (id : string) : chatp bool :=
  attempt (write_chats (delete_row id);; delete_shared_chat_by_chat_id id) false.

Definition delete_chat_by_id_and_user_id (id user_id : string) : chatp bool :=
  attempt
    (write_chats (filter (λ c, ¬ (ch_id c = id ∧ ch_user_id c = user_id)));;
     delete_shared_chat_by_chat_id id) false.

Definition delete_shared_chats_by_user_id (user_id : string) : chatp bool :=
  attempt
    (t ← gets cs_chats;
     let owners := shared_owner ∘ ch_id <$> filter (λ c, ch_user_id c = user_id) t in
     write_chats (filter (λ c, ch_user_id c ∉ owners));; mret true) false.

Definition delete_chats_by_user_id (user_id : string) : chatp bool :=
  attempt
    (delete_shared_chats_by_user_id user_id;;
     write_chats (filter (λ c, ch_user_id c ≠ user_id));; mret true) false.

Definition delete_chats_by_user_id_and_folder_id (user_id folder_id : string) : chatp bool :=
  attempt
    (write_chats (filter (λ c, ¬ (ch_user_id c = user_id ∧ ch_folder_id c = Some folder_id)));;
     mret true) false.

End chats.
End Chats.

(** ** Folders *)

(** [ilike]: SQLAlchemy folds both sides on SQLite. *)
Definition ilike (dialect : Dialect) (pattern s : string) : bool := sql_like dialect (lower pattern) (lower s).

Module Folders.
Section folders.
Context (uuid4 : nat → string).
(** How deep the interpreter lets a function call itself. *)
Context (recursion_limit : nat).

Definition insert_new_folder (user_id name : string) (parent_id : option string) : chatp (option Folder) :=
  n ← fresh;
  now ← gets cs_now;
  let f := mkFolder (uuid4 n) parent_id user_id name None None false now now in
  attempt
    (t ← gets cs_folders;
     if decide (fo_id f ∈ keys t) then raise Uncaught
     else write_folders (λ t, t ++ [f]);; mret (Some f))
    None.

Definition get_folder_by_id_and_user_id (id user_id : string) (t : list Folder) : option Folder :=
  head (filter (λ f, fo_id f = id ∧ fo_user_id f = user_id) t).

Definition get_folders_by_parent_id_and_user_id (parent_id : option string) (user_id : string)
    (t : list Folder) : list Folder :=
  filter (λ f, fo_parent_id f = parent_id ∧ fo_user_id f = user_id) t.

(** [get_children]: [None] is the [RecursionError]. *)
Fixpoint get_children (fuel : nat) (user_id : string) (t : list Folder) (id : string) : option (list Folder) :=
  match fuel with
  | O => None
  | S fuel =>
      below ← mapM (λ c, l ← get_children fuel user_id t (fo_id c); Some (l ++ [c]))
                (get_folders_by_parent_id_and_user_id (Some id) user_id t);
      Some (concat below)
  end.

Definition get_children_folders_by_id_and_user_id (id user_id : string) (t : list Folder) : option (list Folder) :=
  f ← get_folder_by_id_and_user_id id user_id t; get_children recursion_limit user_id t (fo_id f).

Definition get_folders_by_user_id (user_id : string) (t : list Folder) : list Folder :=
  filter (λ f, fo_user_id f = user_id) t.

Definition get_folder_by_parent_id_and_user_id_and_name (dialect : Dialect) (parent_id : option string)
    (user_id name : string) (t : list Folder) : option Folder :=
  head (filter (λ f, fo_parent_id f = parent_id ∧ fo_user_id f = user_id ∧ ilike dialect name (fo_name f) = true) t).

(** Fetch the user's folder, change it, commit. *)
Definition change (id user_id : string) (f : Z → Folder → Folder) : chatp (option Folder) :=
  attempt
    (t ← gets cs_folders;
     match get_folder_by_id_and_user_id id user_id t with
     | None => mret None
     | Some row =>
         now ← gets cs_now;
         write_folders (update_row id (f now));; mret (Some (f now row))
     end)
    None.

Definition update_folder_parent_id_by_id_and_user_id (id user_id : string) (parent_id : option string)
    : chatp (option Folder) :=
  change id user_id (λ now f, f <| fo_parent_id := parent_id |> <| fo_updated_at := now |>).

Definition update_folder_name_by_id_and_user_id (id user_id name : string) : chatp (option Folder) :=
  attempt
    (t ← gets cs_folders;
     match get_folder_by_id_and_user_id id user_id t with
     | None => mret None
     | Some row =>
         if decide (Exists (λ f, fo_name f = name ∧ fo_parent_id f = fo_parent_id row ∧ fo_user_id f = user_id) t)
         then mret None
         else change id user_id (λ now f, f <| fo_name := name |> <| fo_updated_at := now |>)
     end)
    None.

Definition update_folder_is_expanded_by_id_and_user_id (id user_id : string) (is_expanded : bool)
    : chatp (option Folder) :=
  change id user_id (λ now f, f <| fo_is_expanded := is_expanded |> <| fo_updated_at := now |>).

Definition update_folder_meta_by_id_and_user_id (id user_id : string) (meta : json_dict) : chatp (option Folder) :=
  change id user_id
    (λ now f, f <| fo_meta := Some (dict_update (default [] (fo_meta f)) meta) |> <| fo_updated_at := now |>).

(** [db.query(Folder).filter_by(id=id).first()], deleted and committed. *)
Definition delete_folder_row (id : string) : chatp unit :=
  t ← gets cs_folders;
  match find_row id t with
  | None => raise Uncaught
  | Some _ => write_folders (delete_row id)
  end.

Fixpoint delete_children (fuel : nat) (user_id : string) (id : string) : chatp unit :=
  match fuel with
  | O => raise Uncaught
  | S fuel =>
      children ← gets (λ s, get_folders_by_parent_id_and_user_id (Some id) user_id (cs_folders s));
      for_each (λ child,
        Chats.delete_chats_by_user_id_and_folder_id user_id (fo_id child);;
        delete_children fuel user_id (fo_id child);;
        delete_folder_row (fo_id child)) children
  end.

Definition delete_folder_by_id_and_user_id (id user_id : string) : chatp bool :=
  attempt
    (t ← gets cs_folders;
     match get_folder_by_id_and_user_id id user_id t with
     | None => mret false
     | Some f =>
         Chats.delete_chats_by_user_id_and_folder_id user_id (fo_id f);;
         delete_children recursion_limit user_id (fo_id f);;
         write_folders (delete_row (fo_id f));;
         mret true
     end)
    false.

End folders.
End Folders.
