(* ===== verification/ChatApi.v ===== *)
(** The endpoints of [routers/chats.py] and [routers/folders.py], with the preset
    references of [utils/folder_presets.py].

    A handler runs for a verified user.  The search over message texts is not
    modelled. *)

From Stdlib Require Import Ascii.
From S2P Require Import Prelude Data Accounts AccessControl Chats.

(** ** Presets *)

(** A model, a tool or a knowledge base: what the access gate reads of it. *)
Record Owned := mkOwned {
  ow_id : string;
  ow_user_id : string;
  ow_access_control : option json_dict
}.
#[export] Instance Owned_keyed : Keyed Owned := ow_id.

(** [FolderPresetModel]; the fields nobody named are carried along. *)
Record FolderPreset := mkFolderPreset {
  fp_default_model_id : option string;
  fp_tool_ids : option (list string);
  fp_knowledge_ids : option (list string);
  fp_extra : json_dict
}.

Definition PRESET_FIELDS : list string := ["default_model_id"; "tool_ids"; "knowledge_ids"].

Definition text_list (l : list Json) : option (list string) := mapM (λ j, json_str (Some j)) l.

Definition optional_texts (j : option Json) : option (option (list string)) :=
  match j with
  | None | Some JNull => Some None
  | Some (JList l) => Some <$> text_list l
  | Some _ => None
  end.

(** The preset among the extra fields of a form; [None] is the [ValidationError]. *)
Definition preset_of (extra : json_dict) : option FolderPreset :=
  model ← optional_text (dict_lookup "default_model_id" extra);
  tools ← optional_texts (dict_lookup "tool_ids" extra);
  knowledge ← optional_texts (dict_lookup "knowledge_ids" extra);
  Some (mkFolderPreset model tools knowledge (filter (λ kv, kv.1 ∉ PRESET_FIELDS) extra)).

Definition texts_json (l : option (list string)) : Json :=
  match l with Some l => JList (JStr <$> l) | None => JNull end.

(** [model_dump()] *)
Definition preset_dump (p : FolderPreset) : json_dict :=
  [("default_model_id", match fp_default_model_id p with Some m => JStr m | None => JNull end);
   ("tool_ids", texts_json (fp_tool_ids p));
   ("knowledge_ids", texts_json (fp_knowledge_ids p))] ++ fp_extra p.

Inductive RefKind := REF_MODEL | REF_TOOL | REF_KNOWLEDGE.

Definition BUILTIN_TOOL_IDS : list string := ["web_search"].

Section api.
Context (dialect : Dialect) (uuid4 : nat → string) (as_list : list string → list string).
Context (recursion_limit : nat).
(** The tables the handlers read, and the settings. *)
Context (groups : list Group) (models tools knowledge : list Owned).
Context (USER_PERMISSIONS : json_dict) (ENABLE_ADMIN_CHAT_ACCESS ENABLE_ADMIN_EXPORT : bool).
Context (ENABLE_RAG_WEB_SEARCH : bool).

Implicit Types (user : User).

(** [None] when the access control has a shape the gate raises on. *)
Definition _record_accessible (record : option Owned) user (permission : string) : option bool :=
  match record with
  | None => Some false
  | Some r =>
      if decide (us_role user = "admin") then Some true
      else if decide (ow_user_id r = us_id user) then Some true
      else has_access dialect groups (us_id user) permission (ow_access_control r)
  end.

Definition resolve_model_ref (id : string) user (permission : string) : option bool :=
  _record_accessible (find_row id models) user permission.

Definition resolve_tool_ref (id : string) user (permission : string) : option bool :=
  match find_row id tools with
  | Some r => _record_accessible (Some r) user permission
  | None => Some (bool_decide (id ∈ BUILTIN_TOOL_IDS) && ENABLE_RAG_WEB_SEARCH)
  end.

Definition resolve_knowledge_ref (id : string) user (permission : string) : option bool :=
  _record_accessible (find_row id knowledge) user permission.

Fixpoint unresolved (kind : RefKind) (resolves : string → option bool) (ids : list string)
    : option (list (RefKind * string)) :=
  match ids with
  | [] => Some []
  | id :: rest =>
      ok ← resolves id;
      more ← unresolved kind resolves rest;
      Some (if ok : bool then more else (kind, id) :: more)
  end.

Definition unresolved_preset_references (p : FolderPreset) user : option (list (RefKind * string)) :=
  m ← unresolved REF_MODEL (λ id, resolve_model_ref id user "read") (option_list (fp_default_model_id p));
  t ← unresolved REF_TOOL (λ id, resolve_tool_ref id user "read") (default [] (fp_tool_ids p));
  k ← unresolved REF_KNOWLEDGE (λ id, resolve_knowledge_ref id user "read") (default [] (fp_knowledge_ids p));
  Some (m ++ t ++ k).

(** ** Folders *)

(** The user's folder, or 404. *)
Definition own_folder (id : string) user : chatp Folder :=
  t ← gets cs_folders; answer 404 (Folders.get_folder_by_id_and_user_id id (us_id user) t).

(** Nothing else there has the name, or 400. *)
Definition name_free (parent_id : option string) user (name : string) : chatp unit :=
  t ← gets cs_folders;
  match Folders.get_folder_by_parent_id_and_user_id_and_name dialect parent_id (us_id user) name t with
  | Some _ => raise (Http 400)
  | None => mret tt
  end.

Definition get_folders user : chatp (list (Folder * list Chat)) :=
  s ← gets (λ s, s);
  mret ((λ f, (f, Chats.get_chats_by_folder_id_and_user_id (fo_id f) (us_id user) (cs_chats s))) <$>
          Folders.get_folders_by_user_id (us_id user) (cs_folders s)).

Definition create_folder user (name : string) : chatp (option Folder) :=
  name_free None user name;;
  Folders.insert_new_folder uuid4 (us_id user) name None.

Definition get_folder_by_id user (id : string) : chatp Folder := own_folder id user.

Definition rename_step user (id name : string) (folder : Folder) : chatp (option Folder) :=
  if decide (name = fo_name folder) then mret (Some folder)
  else
    name_free (fo_parent_id folder) user name;;
    Folders.update_folder_name_by_id_and_user_id id (us_id user) name.

(** [update_folder_name_by_id]: [extra] is what the form carries besides the name. *)
Definition update_folder_name_by_id user (id name : string) (extra : json_dict) : chatp (option Folder) :=
  folder ← own_folder id user;
  if existsb (λ field, has_key field extra) PRESET_FIELDS then
    preset ← match preset_of extra with Some p => mret p | None => raise Uncaught end;
    missing ← match unresolved_preset_references preset user with Some l => mret l | None => raise Uncaught end;
    if decide (missing ≠ []) then raise (Http 400)
    else
      renamed ← rename_step user id name folder;
      updated ← Folders.update_folder_meta_by_id_and_user_id id (us_id user)
                  [("preset", JDict (preset_dump preset))];
      mret match updated with Some f => Some f | None => renamed end
  else rename_step user id name folder.

Definition update_folder_parent_id_by_id user (id : string) (parent_id : option string)
    : chatp (option Folder) :=
  folder ← own_folder id user;
  name_free parent_id user (fo_name folder);;
  Folders.update_folder_parent_id_by_id_and_user_id id (us_id user) parent_id.

Definition update_folder_is_expanded_by_id user (id : string) (is_expanded : bool) : chatp (option Folder) :=
  own_folder id user;;
  Folders.update_folder_is_expanded_by_id_and_user_id id (us_id user) is_expanded.

Definition delete_folder_by_id user (id : string) : chatp bool :=
  own_folder id user;;
  deleted ← Folders.delete_folder_by_id_and_user_id recursion_limit id (us_id user);
  if deleted : bool then mret true else raise (Http 400).

(** ** Chats *)

(** The user's chat, or 401. *)
Definition own_chat (id : string) user : chatp Chat :=
  t ← gets cs_chats; answer 401 (Chats.get_chat_by_id_and_user_id id (us_id user) t).

(** [try: m except Exception: raise a 400] *)
Definition or_400 {A} (m : chatp A) : chatp A := λ s,
  match m s with (Raise _, s') => (Raise (Http 400), s') | r => r end.

Definition may_delete user : bool :=
  has_permission dialect groups (us_id user) "chat.delete" USER_PERMISSIONS.

Definition get_session_user_chat_list user (page : option Z) : chatp (list Chat) :=
  t ← gets cs_chats;
  let l := Chats.get_chat_title_id_list_by_user_id (us_id user) false t in
  match page with
  | None => mret l
  | Some page => responded (Chats.page_of dialect (Some ((page - 1) * 60)) (Some 60) l)
  end.

Definition delete_all_user_chats user : chatp bool :=
  if decide (us_role user = "user" ∧ may_delete user = false) then raise (Http 401)
  else Chats.delete_chats_by_user_id (us_id user).

Definition get_user_chat_list_by_user_id (user_id : string) (skip limit : Z) : chatp (list Chat) :=
  if negb ENABLE_ADMIN_CHAT_ACCESS then raise (Http 401)
  else
    t ← gets cs_chats;
    responded (Chats.page_of dialect (Some skip) (Some limit) (Chats.get_chat_list_by_user_id user_id true t)).

(** [ChatForm]'s validator refuses an unknown kind before the handler runs. *)
Definition known_kind (kind : option string) : bool :=
  match kind with None => true | Some k => bool_decide (k ∈ KNOWN_CHAT_KINDS) end.

Definition create_new_chat user (chat : json_dict) (kind : option string) : chatp Chat :=
  if known_kind kind then or_400 (Chats.insert_new_chat uuid4 (us_id user) chat kind)
  else raise (Http 422).

(** [" ".join(word.capitalize() for word in tag_id.split("_"))] *)
Definition upper_char (c : ascii) : ascii :=
  let n := nat_of_ascii c in
  if decide ((97 ≤ n)%nat ∧ (n ≤ 122)%nat) then ascii_of_nat (n - 32) else c.

Definition capitalize (s : string) : string :=
  match s with EmptyString => EmptyString | String c s' => String (upper_char c) (lower s') end.

Definition tag_name_of (tag_id : string) : string := join " " (capitalize <$> split_on "_"%char tag_id).

Definition import_tag user (tag : string) : chatp unit :=
  let tag_name := tag_name_of (tag_id_of tag) in
  tags ← gets cs_tags;
  if decide (tag_id_of tag ≠ "none" ∧ Tags.get_tag_by_name_and_user_id tag_name (us_id user) tags = None)
  then Tags.insert_new_tag tag_name (us_id user);; mret tt
  else mret tt.

Definition import_chat user (form : ChatImportForm) : chatp Chat :=
  or_400 (c ← Chats.import_chat uuid4 (us_id user) form; for_each (import_tag user) (ch_tags c);; mret c).

Definition get_chats_by_folder_id user (folder_id : string) : chatp (list Chat) :=
  s ← gets (λ s, s);
  let children :=
    default [] (Folders.get_children_folders_by_id_and_user_id recursion_limit folder_id (us_id user) (cs_folders s)) in
  mret (Chats.get_chats_by_folder_ids_and_user_id (folder_id :: (fo_id <$> children)) (us_id user) (cs_chats s)).

Definition get_user_pinned_chats user : chatp (list Chat) :=
  gets (λ s, Chats.get_pinned_chats_by_user_id (us_id user) (cs_chats s)).

Definition get_user_chats user : chatp (list Chat) :=
  gets (λ s, Chats.get_chats_by_user_id (us_id user) (cs_chats s)).

Definition get_user_archived_chats user : chatp (list Chat) :=
  gets (λ s, Chats.get_archived_chats_by_user_id (us_id user) (cs_chats s)).

Definition get_all_user_tags user : chatp (list Tag) :=
  gets (λ s, Tags.get_tags_by_user_id (us_id user) (cs_tags s)).

Definition get_all_user_chats_in_db : chatp (list Chat) :=
  if negb ENABLE_ADMIN_EXPORT then raise (Http 401) else gets (λ s, Chats.get_chats (cs_chats s)).

Definition get_archived_session_user_chat_list user : chatp (list Chat) :=
  gets (λ s, Chats.get_archived_chat_list_by_user_id (us_id user) (cs_chats s)).

Definition archive_all_chats user : chatp bool := Chats.archive_all_chats_by_user_id (us_id user).

Definition get_shared_chat_by_id user (share_id : string) : chatp Chat :=
  t ← gets cs_chats;
  if decide (us_role user = "pending") then raise (Http 401)
  else if decide (us_role user = "user" ∨ (us_role user = "admin" ∧ ENABLE_ADMIN_CHAT_ACCESS = false))
  then answer 401 (Chats.get_chat_by_share_id share_id t)
  else if decide (us_role user = "admin") then answer 401 (Chats.get_chat_by_id share_id t)
  else raise Uncaught.

Definition get_user_chat_list_by_tag_name user (name : string) : chatp (list Chat) :=
  t ← gets cs_chats;
  let chats := Chats.get_chat_list_by_user_id_and_tag_name (us_id user) name t in
  if decide (chats = []) then Tags.delete_tag_by_name_and_user_id name (us_id user);; mret chats
  else mret chats.

Definition get_chat_by_id user (id : string) : chatp Chat := own_chat id user.

Definition update_chat_by_id user (id : string) (chat : json_dict) : chatp Chat :=
  c ← own_chat id user;
  updated ← Chats.update_chat_by_id id (dict_update (ch_chat c) chat);
  responded updated.

Definition delete_chat_by_id user (id : string) : chatp bool :=
  if decide (us_role user ≠ "admin" ∧ may_delete user = false) then raise (Http 401)
  else
    t ← gets cs_chats;
    c ← responded (Chats.get_chat_by_id id t);
    Chats.drop_tags_counted 1 (us_id user) (ch_tags c);;
    if decide (us_role user = "admin") then Chats.delete_chat_by_id id
    else Chats.delete_chat_by_id_and_user_id id (us_id user).

Definition get_pinned_status_by_id user (id : string) : chatp (option bool) :=
  c ← own_chat id user; mret (ch_pinned c).

Definition pin_chat_by_id user (id : string) : chatp (option Chat) :=
  own_chat id user;; Chats.toggle_chat_pinned_by_id id.

(** The body of a clone; [None] when the chat has no current message. *)
Definition clone_body (c : Chat) : option json_dict :=
  history ← match dict_lookup "history" (ch_chat c) with Some (JDict h) => Some h | _ => None end;
  current ← dict_lookup "currentId" history;
  Some (dict_update (ch_chat c)
          [("originalChatId", JStr (ch_id c)); ("branchPointMessageId", current);
           ("title", JStr ("Clone of " +:+ ch_title c))]).

Definition clone_chat_by_id user (id : string) : chatp Chat :=
  c ← own_chat id user;
  body ← responded (clone_body c);
  Chats.insert_new_chat uuid4 (us_id user) body None.

Definition clone_shared_chat_by_id user (id : string) : chatp Chat :=
  t ← gets cs_chats;
  c ← answer 401 (Chats.get_chat_by_share_id id t);
  body ← responded (clone_body c);
  Chats.insert_new_chat uuid4 (us_id user) body None.

Definition restore_tag user (tag_id : string) : chatp unit :=
  tags ← gets cs_tags;
  match Tags.get_tag_by_name_and_user_id tag_id (us_id user) tags with
  | Some _ => mret tt
  | None => Tags.insert_new_tag tag_id (us_id user);; mret tt
  end.

Definition archive_chat_by_id user (id : string) : chatp Chat :=
  own_chat id user;;
  toggled ← Chats.toggle_chat_archive_by_id id;
  c ← responded toggled;
  (if ch_archived c then Chats.drop_tags_counted 0 (us_id user) (ch_tags c)
   else for_each (restore_tag user) (ch_tags c));;
  mret c.

Definition share_chat_by_id user (id : string) : chatp Chat :=
  c ← own_chat id user;
  match truthy (ch_share_id c) with
  | Some _ => shared ← Chats.update_shared_chat_by_chat_id uuid4 (ch_id c); responded shared
  | None => shared ← Chats.insert_shared_chat_by_chat_id uuid4 (ch_id c); answer 500 shared
  end.

Definition delete_shared_chat_by_id user (id : string) : chatp bool :=
  c ← own_chat id user;
  match truthy (ch_share_id c) with
  | None => mret false
  | Some _ =>
      result ← Chats.delete_shared_chat_by_chat_id id;
      updated ← Chats.update_chat_share_id_by_id id None;
      mret (result && bool_decide (updated ≠ None))
  end.

Definition update_chat_folder_id_by_id user (id : string) (folder_id : option string) : chatp Chat :=
  own_chat id user;;
  moved ← Chats.update_chat_folder_id_by_id_and_user_id id (us_id user) folder_id;
  responded moved.

(** The tags of the chat as they now are. *)
Definition own_tags user (id : string) : chatp (list Tag) :=
  s ← gets (λ s, s);
  c ← responded (Chats.get_chat_by_id_and_user_id id (us_id user) (cs_chats s));
  mret (Tags.get_tags_by_ids_and_user_id (ch_tags c) (us_id user) (cs_tags s)).

Definition get_chat_tags_by_id user (id : string) : chatp (list Tag) :=
  own_chat id user;; own_tags user id.

Definition add_tag_by_id_and_tag_name user (id name : string) : chatp (list Tag) :=
  c ← own_chat id user;
  if decide (tag_id_of name = "none") then raise (Http 400)
  else
    (if decide (tag_id_of name ∈ ch_tags c) then mret tt
     else Chats.add_chat_tag_by_id_and_user_id_and_tag_name as_list id (us_id user) name;; mret tt);;
    own_tags user id.

Definition delete_tag_by_id_and_tag_name user (id name : string) : chatp (list Tag) :=
  own_chat id user;;
  Chats.delete_tag_by_id_and_user_id_and_tag_name as_list id (us_id user) name;;
  Chats.drop_tags_counted 0 (us_id user) [name];;
  own_tags user id.

Definition delete_all_tags_by_id user (id : string) : chatp bool :=
  c ← own_chat id user;
  Chats.delete_all_tags_by_id_and_user_id id (us_id user);;
  Chats.drop_tags_counted 0 (us_id user) (ch_tags c);;
  mret true.

(** ** A request by a user *)

Inductive ChatCall :=
| CreateChat (chat : json_dict) (kind : option string)
| ImportChat (form : ChatImportForm)
| UpdateChat (id : string) (chat : json_dict)
| DeleteChat (id : string)
| DeleteAllChats
| PinChat (id : string)
| CloneChat (id : string)
| CloneShared (id : string)
| ArchiveChat (id : string)
| ArchiveAll
| ShareChat (id : string)
| UnshareChat (id : string)
| FileChat (id : string) (folder_id : option string)
| AddTag (id name : string)
| DeleteTag (id name : string)
| DeleteTags (id : string)
| ListByTag (name : string)
| CreateFolder (name : string)
| UpdateFolder (id name : string) (extra : json_dict)
| MoveFolder (id : string) (parent_id : option string)
| ExpandFolder (id : string) (is_expanded : bool)
| DeleteFolder (id : string).

(** The handlers that write. *)
Definition handle user (c : ChatCall) : chatp unit :=
  match c with
  | CreateChat chat kind => void (create_new_chat user chat kind)
  | ImportChat form => void (import_chat user form)
  | UpdateChat id chat => void (update_chat_by_id user id chat)
  | DeleteChat id => void (delete_chat_by_id user id)
  | DeleteAllChats => void (delete_all_user_chats user)
  | PinChat id => void (pin_chat_by_id user id)
  | CloneChat id => void (clone_chat_by_id user id)
  | CloneShared id => void (clone_shared_chat_by_id user id)
  | ArchiveChat id => void (archive_chat_by_id user id)
  | ArchiveAll => void (archive_all_chats user)
  | ShareChat id => void (share_chat_by_id user id)
  | UnshareChat id => void (delete_shared_chat_by_id user id)
  | FileChat id folder_id => void (update_chat_folder_id_by_id user id folder_id)
  | AddTag id name => void (add_tag_by_id_and_tag_name user id name)
  | DeleteTag id name => void (delete_tag_by_id_and_tag_name user id name)
  | DeleteTags id => void (delete_all_tags_by_id user id)
  | ListByTag name => void (get_user_chat_list_by_tag_name user name)
  | CreateFolder name => void (create_folder user name)
  | UpdateFolder id name extra => void (update_folder_name_by_id user id name extra)
  | MoveFolder id parent_id => void (update_folder_parent_id_by_id user id parent_id)
  | ExpandFolder id is_expanded => void (update_folder_is_expanded_by_id user id is_expanded)
  | DeleteFolder id => void (delete_folder_by_id user id)
  end.
End api.
