(* ===== verification/FolderTree.v ===== *)
(** The folders of a user as a graph: an edge from a folder to each of its children.
    What listing and deleting a folder's children come to, on trees and on cycles. *)

From stdpp Require Import relations.
From S2P Require Import Prelude Data Accounts Chats.

(** ** The graph *)

(** [y] is a child of [x] among the folders [user_id] has in [t]. *)
Definition child (t : list Folder) (user_id x y : string) : Prop :=
  ∃ f, f ∈ t ∧ fo_id f = y ∧ fo_parent_id f = Some x ∧ fo_user_id f = user_id.

Definition descendant (t : list Folder) (user_id : string) : relation string := tc (child t user_id).

(** No chain of [n] folders starts below [x]. *)
Definition shallow (t : list Folder) (user_id : string) (n : nat) (x : string) : Prop :=
  ∀ y, ¬ nsteps (child t user_id) n x y.

Section tree.
Context (user_id : string).
Implicit Types (t : list Folder) (x y z : string).

Lemma elem_of_children t x f :
  f ∈ Folders.get_folders_by_parent_id_and_user_id (Some x) user_id t ↔
  f ∈ t ∧ fo_parent_id f = Some x ∧ fo_user_id f = user_id.
Proof. unfold Folders.get_folders_by_parent_id_and_user_id. rewrite list_elem_of_filter. tauto. Qed.

Lemma child_row t x y :
  child t user_id x y ↔
  ∃ f, f ∈ Folders.get_folders_by_parent_id_and_user_id (Some x) user_id t ∧ fo_id f = y.
Proof. unfold child. setoid_rewrite elem_of_children. naive_solver. Qed.

Lemma shallow_child t n x y : shallow t user_id (S n) x → child t user_id x y → shallow t user_id n y.
Proof. intros Hx Hy z Hz. apply (Hx z). by apply (nsteps_l _ _ _ y). Qed.

Lemma shallow_zero t x : ¬ shallow t user_id 0 x.
Proof. intros Hx. apply (Hx x). constructor. Qed.

(** A folder with one parent: who it is below. *)
Lemma child_parent t x x' y :
  NoDup (keys t) → child t user_id x y → child t user_id x' y → x = x'.
Proof.
  intros Hnd (f & Hf & Hy & Hx & _) (f' & Hf' & Hy' & Hx' & _).
  change (row_key f = y) in Hy. change (row_key f' = y) in Hy'. subst y.
  pose proof (find_row_elem t f Hnd Hf). pose proof (find_row_elem t f' Hnd Hf'). congruence.
Qed.

Lemma descendant_inv t x z :
  descendant t user_id x z ↔
  child t user_id x z ∨ ∃ y, child t user_id x y ∧ descendant t user_id y z.
Proof.
  unfold descendant. split; [|intros [H|(y & H & Hz)]; [by apply tc_once|by apply (tc_l _ _ y)]].
  destruct 1 as [x z Hz|x y z Hy Hz]; [by left|right; by exists y].
Qed.

Lemma descendant_chain t x y z :
  descendant t user_id x y → y = z ∨ descendant t user_id y z → descendant t user_id x z.
Proof. intros Hx [<-|Hz]; [done|]. by eapply tc_trans. Qed.

(** The last step of the way down. *)
Lemma descendant_last t x z :
  descendant t user_id x z → ∃ y, (y = x ∨ descendant t user_id x y) ∧ child t user_id y z.
Proof.
  induction 1 as [x z Hz|x y z Hy _ (w & Hw & Hz)]; [exists x; eauto|]. exists w. split; [right|done].
  destruct Hw as [->|Hw]; [by apply tc_once|by apply (tc_l _ _ y)].
Qed.

(** Chains of every length start on a cycle. *)
Lemma cycle_chains t x : descendant t user_id x x → ∀ n, ∃ y, nsteps (child t user_id) n x y.
Proof.
  intros Hx n. induction n as [|n IH]; [exists x; constructor|].
  assert (∀ m y, nsteps (child t user_id) m x y →
    ∀ k, (k ≤ m)%nat → ∃ z, nsteps (child t user_id) k x z) as Hprefix.
  { intros m. generalize x. induction m as [|m IHm]; intros x' y Hy k Hk.
    - assert (k = 0)%nat as -> by lia. exists x'. constructor.
    - destruct k as [|k]; [exists x'; constructor|]. inversion Hy as [|?? x1 ? H1 Hm]; subst.
      destruct (IHm x1 y Hm k) as [z Hz]; [lia|]. exists z. by apply (nsteps_l _ _ _ x1). }
  apply tc_nsteps in Hx as (m & Hm & Hx).
  assert (∀ j, nsteps (child t user_id) (j * m) x x) as Hloops.
  { induction j as [|j IHj]; [constructor|]. by apply (nsteps_trans _ _ _ x). }
  apply (Hprefix (S n * m)%nat x); [by apply Hloops|]. nia.
Qed.

Lemma shallow_acyclic t n x : shallow t user_id n x → ¬ descendant t user_id x x.
Proof. intros Hx Hc. destruct (cycle_chains t x Hc n) as [y Hy]. by apply (Hx y). Qed.

(** ** Listing *)

(** The listing answers exactly when the tree is less deep than the interpreter's
    recursion, with exactly the folders below. *)
Lemma get_children_shallow t n x :
  shallow t user_id n x →
  ∃ l, Folders.get_children n user_id t x = Some l ∧
    ∀ f, f ∈ l ↔ f ∈ t ∧ fo_user_id f = user_id ∧
      ∃ y, (y = x ∨ descendant t user_id x y) ∧ fo_parent_id f = Some y.
Proof.
  revert x. induction n as [|n IH]; intros x Hx; [by apply shallow_zero in Hx|].
  cbn [Folders.get_children].
  assert (∀ cs, (∀ c, c ∈ cs → c ∈ Folders.get_folders_by_parent_id_and_user_id (Some x) user_id t) →
    ∃ ls, mapM (λ c, l ← Folders.get_children n user_id t (fo_id c); Some (l ++ [c])) cs = Some ls ∧
      ∀ f, f ∈ concat ls ↔ ∃ c, c ∈ cs ∧ (f = c ∨ (f ∈ t ∧ fo_user_id f = user_id ∧
        ∃ y, (y = fo_id c ∨ descendant t user_id (fo_id c) y) ∧ fo_parent_id f = Some y))) as Hall.
  { induction cs as [|c cs IHcs]; intros Hcs.
    { exists []. split; [done|]. intros f. simpl. split; [by intros ?%not_elem_of_nil|].
      by intros (? & ?%not_elem_of_nil & _). }
    destruct IHcs as (ls & Hls & Hin); [intros; apply Hcs; by right|].
    destruct (IH (fo_id c)) as (l & Hl & Hlin).
    { apply (shallow_child t n x); [done|]. apply child_row. exists c. split; [apply Hcs; left|done]. }
    exists ((l ++ [c]) :: ls). simpl. rewrite Hl. simpl. rewrite Hls. split; [done|]. intros f.
    rewrite !elem_of_app, list_elem_of_singleton, Hlin, Hin. setoid_rewrite elem_of_cons. naive_solver. }
  destruct (Hall (Folders.get_folders_by_parent_id_and_user_id (Some x) user_id t)) as (ls & -> & Hin); [done|].
  exists (concat ls). split; [done|]. intros f. rewrite Hin. setoid_rewrite elem_of_children. split.
  - intros (c & (Hc & Hp & Hu) & [->|(Hf & Hfu & y & Hy & Hpar)]); split_and!; try done.
    + exists x. split; [by left|done].
    + exists y. split; [right|done].
      assert (child t user_id x (fo_id c)) as Hchild by (by exists c).
      destruct Hy as [->|Hy]; [by apply tc_once|by apply (tc_l _ _ (fo_id c))].
  - intros (Hf & Hfu & y & [->|Hy] & Hpar).
    + exists f. split; [done|by left].
    + apply descendant_inv in Hy as [(c & Hc & <- & Hcp & Hcu)|(z & (c & Hc & <- & Hcp & Hcu) & Hz)].
      * exists c. split; [done|]. right. split_and!; try done. exists (fo_id c). split; [by left|done].
      * exists c. split; [done|]. right. split_and!; try done. exists y. split; [by right|done].
Qed.

Lemma get_children_answers t n x l :
  Folders.get_children n user_id t x = Some l → shallow t user_id n x.
Proof.
  revert x l. induction n as [|n IH]; intros x l; [done|]. cbn [Folders.get_children].
  destruct (mapM _ _) as [ls|] eqn:Hls; [|done]. intros _ y Hy.
  inversion Hy as [|? ? z ? Hxz Hz]; subst. destruct Hxz as (f & Hf & <- & Hp & Hu).
  assert (f ∈ Folders.get_folders_by_parent_id_and_user_id (Some x) user_id t) as Hin
    by (by apply elem_of_children).
  apply list_elem_of_lookup in Hin as [i Hi]. apply mapM_Some in Hls.
  destruct (Forall2_lookup_l _ _ _ _ _ Hls Hi) as (l' & _ & Hl'). simpl in Hl'.
  destruct (Folders.get_children n user_id t (fo_id f)) as [l0|] eqn:Hl0; [|done]. by apply (IH _ _ Hl0 y).
Qed.

(** ** Deleting *)

(** The chats of the user in none of the folders [l]. *)
Definition chats_outside (l : list string) (chats : list Chat) : list Chat :=
  filter (λ c, ¬ (ch_user_id c = user_id ∧ Exists (λ id, ch_folder_id c = Some id) l)) chats.

Definition folders_outside (l : list string) t : list Folder := filter (λ f, fo_id f ∉ l) t.

(** [s'] is [s] without the folders [l] and the chats in [l'], all commits having
    succeeded. *)
Definition without (l l' : list string) (s s' : ChatSite) : Prop :=
  s' = s <| cs_folders := folders_outside l (cs_folders s) |>
         <| cs_chats := chats_outside l' (cs_chats s) |>.

Lemma folders_outside_app l l' t :
  folders_outside l' (folders_outside l t) = folders_outside (l ++ l') t.
Proof.
  unfold folders_outside. rewrite list_filter_filter. apply list_filter_iff. intros f. set_solver.
Qed.

Lemma chats_outside_app l l' chats :
  chats_outside l' (chats_outside l chats) = chats_outside (l ++ l') chats.
Proof.
  unfold chats_outside. rewrite list_filter_filter. apply list_filter_iff. intros c.
  rewrite Exists_app. tauto.
Qed.

Lemma without_trans l1 l1' l2 l2' s1 s2 s3 :
  without l1 l1' s1 s2 → without l2 l2' s2 s3 → without (l1 ++ l2) (l1' ++ l2') s1 s3.
Proof.
  unfold without. intros -> ->. destruct s1. simpl.
  by rewrite folders_outside_app, chats_outside_app.
Qed.

Lemma folders_outside_none l t : (∀ f, f ∈ t → fo_id f ∉ l) → folders_outside l t = t.
Proof.
  intros Ht. unfold folders_outside. induction t as [|f t IH]; [done|].
  rewrite filter_cons_True by (apply Ht; left). f_equal. apply IH. intros g Hg. apply Ht. by right.
Qed.

Lemma without_refl s : without [] [] s s.
Proof.
  unfold without. destruct s as [chats tags folders]. cbn -[folders_outside chats_outside].
  rewrite folders_outside_none by set_solver. unfold chats_outside.
  rewrite filter_all; [done|]. intros c [_ H]. by inversion H.
Qed.

Lemma without_same l1 l1' l2 l2' s s' :
  (∀ y, y ∈ l1 ↔ y ∈ l2) → (∀ y, y ∈ l1' ↔ y ∈ l2') → without l1 l1' s s' → without l2 l2' s s'.
Proof.
  unfold without, folders_outside, chats_outside. intros H1 H2 ->. destruct s. cbn. f_equal.
  - apply list_filter_iff. intros c. rewrite !Exists_exists. setoid_rewrite H2. done.
  - apply list_filter_iff. intros f. by rewrite H1.
Qed.

Lemma delete_chats_run folder_id s :
  cs_commits s = [] →
  ∃ s', Chats.delete_chats_by_user_id_and_folder_id user_id folder_id s = (Ok true, s') ∧
    without [] [folder_id] s s'.
Proof.
  intros Hc. unfold Chats.delete_chats_by_user_id_and_folder_id, write_chats, attempt.
  rewrite run_bind, write_run by done. eexists. split; [reflexivity|].
  unfold without. destruct s as [chats tags folders]. cbn -[folders_outside chats_outside].
  rewrite folders_outside_none by set_solver. f_equal. unfold chats_outside.
  apply list_filter_iff. intros c. rewrite Exists_cons, Exists_nil. tauto.
Qed.

Lemma delete_row_run id s :
  cs_commits s = [] → id ∈ keys (cs_folders s) →
  ∃ s', Folders.delete_folder_row id s = (Ok (), s') ∧ without [id] [] s s'.
Proof.
  intros Hc Hid. unfold Folders.delete_folder_row. rewrite run_gets_bind.
  apply find_row_is_Some in Hid as [f ->]. unfold write_folders. rewrite write_run by done.
  eexists. split; [reflexivity|].
  unfold without, chats_outside, folders_outside, delete_row. destruct s as [chats tags folders]. cbn. f_equal.
  - symmetry. apply filter_all. intros c [_ H]. by inversion H.
  - apply list_filter_iff. intros g. change (row_key g) with (fo_id g). set_solver.
Qed.

Lemma child_outside t l a b : child (folders_outside l t) user_id a b ↔ child t user_id a b ∧ b ∉ l.
Proof. unfold child, folders_outside. setoid_rewrite list_elem_of_filter. naive_solver. Qed.

Lemma shallow_outside t l n x : shallow t user_id n x → shallow (folders_outside l t) user_id n x.
Proof.
  intros Hx y Hy. apply (Hx y). clear Hx. induction Hy as [x|n x y z Hxy Hyz IH]; [constructor|].
  apply child_outside in Hxy as [Hxy _]. by apply (nsteps_l _ _ _ y).
Qed.

Lemma outside_descendant t l y z :
  descendant (folders_outside l t) user_id y z → descendant t user_id y z.
Proof.
  induction 1 as [a b [Hab _]%child_outside|a b c [Hab _]%child_outside _ IH];
    [by apply tc_once|by apply (tc_l _ _ b)].
Qed.

Definition closed_below t (l : list string) : Prop := ∀ a b, a ∈ l → child t user_id a b → b ∈ l.

Lemma closed_descendant t l a b : closed_below t l → a ∈ l → descendant t user_id a b → b ∈ l.
Proof. intros Hl Ha Hd. induction Hd as [a b Hab|a b c Hab _ IH]; [by eapply Hl|]. apply IH. by eapply Hl. Qed.

(** What is below a folder once [l] is gone: the same, less [l]. *)
Lemma descendant_outside t l y z :
  closed_below t l → descendant t user_id y z → z ∈ l ∨ descendant (folders_outside l t) user_id y z.
Proof.
  intros Hl Hd. induction Hd as [a b Hab|a b c Hab Hbc IH].
  - destruct (decide (b ∈ l)); [by left|right]. apply tc_once. by rewrite child_outside.
  - destruct (decide (b ∈ l)) as [Hb|Hb]; [left; by eapply closed_descendant|].
    destruct IH as [?|IH]; [by left|right]. apply (tc_l _ _ b); [|done]. by rewrite child_outside.
Qed.

(** [without] the folders below [x], rows and chats alike. *)
Definition without_below (P : string → Prop) (s s' : ChatSite) : Prop :=
  ∃ l, (∀ y, y ∈ l ↔ P y) ∧ without l l s s'.

Lemma without_below_step c t s s1 s2 s3 :
  t = cs_folders s → without [] [c] s s1 → without_below (descendant t user_id c) s1 s2 → without [c] [] s2 s3 →
  without_below (λ y, y = c ∨ descendant t user_id c y) s s3.
Proof.
  intros -> H1 (l & Hl & H2) H3. exists (c :: l). split.
  - intros y. rewrite elem_of_cons, Hl. done.
  - pose proof (without_trans _ _ _ _ _ _ _ (without_trans _ _ _ _ _ _ _ H1 H2) H3) as H.
    revert H. apply without_same; intros y; set_solver.
Qed.

Lemma without_commits l l' s s' : without l l' s s' → cs_commits s' = cs_commits s.
Proof. by intros ->. Qed.

Lemma without_folders l l' s s' : without l l' s s' → cs_folders s' = folders_outside l (cs_folders s).
Proof. by intros ->. Qed.

Lemma keys_outside l t : NoDup (keys t) → NoDup (keys (folders_outside l t)).
Proof. intros Hnd. by eapply (keys_selected (λ f, fo_id f ∉ l)). Qed.

(** One child, then the others. *)
Lemma descendants_split t c (cs : list Folder) l y :
  (∀ z, z ∈ l ↔ z = c ∨ descendant t user_id c z) →
  (y ∈ l ∨ ∃ c', c' ∈ cs ∧ (y = fo_id c' ∨ descendant (folders_outside l t) user_id (fo_id c') y)) ↔
  ((y = c ∨ descendant t user_id c y) ∨ ∃ c', c' ∈ cs ∧ (y = fo_id c' ∨ descendant t user_id (fo_id c') y)).
Proof.
  intros Hl. assert (closed_below t l) as Hclosed.
  { intros a b Ha Hab. rewrite Hl in Ha |- *. right.
    destruct Ha as [->|Ha]; [by apply tc_once|]. eapply tc_trans; [done|by apply tc_once]. }
  split.
  - intros [Hy|(c' & Hc' & [->|Hy%outside_descendant])]; [left; by apply Hl|right; eauto..].
  - intros [Hy|(c' & Hc' & [->|Hy])]; [left; by apply Hl|right; eauto|].
    destruct (descendant_outside t l (fo_id c') y Hclosed Hy); [by left|right; eauto].
Qed.

Section delete.
Context (n : nat).
Context (IH : ∀ x s, cs_commits s = [] → NoDup (keys (cs_folders s)) → shallow (cs_folders s) user_id n x →
  ∃ s', Folders.delete_children n user_id x s = (Ok (), s') ∧
    without_below (descendant (cs_folders s) user_id x) s s').

(** The body of the loop for one child. *)
Lemma delete_child_run c s :
  cs_commits s = [] → NoDup (keys (cs_folders s)) → shallow (cs_folders s) user_id n c →
  c ∈ keys (cs_folders s) →
  ∃ s', (Chats.delete_chats_by_user_id_and_folder_id user_id c;;
         Folders.delete_children n user_id c;; Folders.delete_folder_row c) s = (Ok (), s') ∧
    without_below (λ y, y = c ∨ descendant (cs_folders s) user_id c y) s s'.
Proof.
  intros Hc Hnd Hsh Hin. rewrite run_bind.
  destruct (delete_chats_run c s Hc) as (s1 & -> & H1).
  assert (cs_folders s1 = cs_folders s) as Hf1.
  { rewrite (without_folders _ _ _ _ H1). apply folders_outside_none. set_solver. }
  rewrite run_bind. destruct (IH c s1) as (s2 & -> & H2); [|by rewrite Hf1..|].
  { by rewrite (without_commits _ _ _ _ H1). }
  rewrite Hf1 in H2. destruct H2 as (l & Hl & H2).
  destruct (delete_row_run c s2) as (s3 & -> & H3).
  - rewrite (without_commits _ _ _ _ H2), (without_commits _ _ _ _ H1). done.
  - rewrite (without_folders _ _ _ _ H2), Hf1. unfold keys, folders_outside.
    apply list_elem_of_fmap in Hin as (f & -> & Hf). apply list_elem_of_fmap_2, list_elem_of_filter.
    split; [|done]. rewrite Hl. intros Hd. by apply (shallow_acyclic _ _ _ Hsh).
  - exists s3. split; [done|]. eapply without_below_step; [done..|by exists l|done].
Qed.

Lemma delete_loop x cs s :
  cs_commits s = [] → NoDup (keys (cs_folders s)) → shallow (cs_folders s) user_id (S n) x →
  NoDup (fo_id <$> cs) →
  (∀ c, c ∈ cs → c ∈ Folders.get_folders_by_parent_id_and_user_id (Some x) user_id (cs_folders s)) →
  ∃ s', for_each (λ child,
          Chats.delete_chats_by_user_id_and_folder_id user_id (fo_id child);;
          Folders.delete_children n user_id (fo_id child);;
          Folders.delete_folder_row (fo_id child)) cs s = (Ok (), s') ∧
    without_below (λ y, ∃ c, c ∈ cs ∧ (y = fo_id c ∨ descendant (cs_folders s) user_id (fo_id c) y)) s s'.
Proof.
  revert s. induction cs as [|c cs IHcs]; intros s Hc Hnd Hsh Hids Hcs.
  { exists s. split; [done|]. exists []. split; [|apply without_refl]. set_solver. }
  csimpl in Hids. apply NoDup_cons in Hids as [Hnew Hids].
  assert (c ∈ cs_folders s ∧ fo_parent_id c = Some x ∧ fo_user_id c = user_id) as (Hcin & Hcp & Hcu).
  { apply elem_of_children, Hcs. left. }
  assert (child (cs_folders s) user_id x (fo_id c)) as Hchild by (by exists c).
  destruct (delete_child_run (fo_id c) s Hc Hnd) as (s1 & Hs1 & l & Hl & H1).
  { by eapply shallow_child. }
  { by apply list_elem_of_fmap_2. }
  cbn [for_each]. rewrite run_bind, Hs1. pose proof (without_folders _ _ _ _ H1) as Hf1.
  destruct (IHcs s1) as (s2 & Hs2 & l2 & Hl2 & H2).
  - rewrite (without_commits _ _ _ _ H1). done.
  - rewrite Hf1. by apply keys_outside.
  - rewrite Hf1. by apply shallow_outside.
  - done.
  - intros c' Hc'. rewrite elem_of_children, Hf1. unfold folders_outside. rewrite list_elem_of_filter.
    assert (c' ∈ cs_folders s ∧ fo_parent_id c' = Some x ∧ fo_user_id c' = user_id) as (Hin' & Hp' & Hu').
    { apply elem_of_children, Hcs. by right. }
    split_and!; [|done..]. rewrite Hl. intros [He|Hd].
    + apply Hnew. rewrite <- He. by apply list_elem_of_fmap_2.
    + apply (shallow_acyclic _ _ _ Hsh).
      apply descendant_chain with (fo_id c); [by apply tc_once|].
      apply descendant_last in Hd as (w & Hw & Hwc).
      assert (w = x) as -> by (by apply (child_parent (cs_folders s) w x (fo_id c')); [| |exists c']). naive_solver.
  - rewrite Hf1 in Hl2. exists s2. split; [done|]. exists (l ++ l2). split; [|by eapply without_trans].
    intros y. rewrite elem_of_app, Hl2, (descendants_split (cs_folders s) (fo_id c) cs l y Hl).
    setoid_rewrite elem_of_cons. naive_solver.
Qed.
End delete.

Lemma delete_children_run n x s :
  cs_commits s = [] → NoDup (keys (cs_folders s)) → shallow (cs_folders s) user_id n x →
  ∃ s', Folders.delete_children n user_id x s = (Ok (), s') ∧
    without_below (descendant (cs_folders s) user_id x) s s'.
Proof.
  revert x s. induction n as [|n IH]; intros x s Hc Hnd Hsh; [by apply shallow_zero in Hsh|].
  cbn [Folders.delete_children]. rewrite run_gets_bind.
  destruct (delete_loop n IH x (Folders.get_folders_by_parent_id_and_user_id (Some x) user_id (cs_folders s)) s)
    as (s' & -> & l & Hl & Hs'); [done..| |done|].
  { change (NoDup (keys (Folders.get_folders_by_parent_id_and_user_id (Some x) user_id (cs_folders s)))).
    by eapply (keys_selected (λ f, fo_parent_id f = Some x ∧ fo_user_id f = user_id)). }
  exists s'. split; [done|]. exists l. split; [|done]. intros y. rewrite Hl, descendant_inv.
  split.
  - intros (c & Hc' & [->|Hd]); [left|right; exists (fo_id c); split; [|done]]; apply child_row; eauto.
  - intros [(c & Hcc & <-)%child_row|(z & (c & Hcc & <-)%child_row & Hd)]; eauto.
Qed.

(** ** Cycles *)

(** The rows of [t0] whose folder is in [C] are among [t]. *)
Definition holds (C : string → Prop) (t0 t : list Folder) : Prop := ∀ f, f ∈ t0 → C (fo_id f) → f ∈ t.

Section cycle.
Context (C : string → Prop) (t0 : list Folder).
(** Every folder of [C] has a child in [C]. *)
Context (HC : ∀ x, C x → ∃ f, f ∈ t0 ∧ fo_parent_id f = Some x ∧ fo_user_id f = user_id ∧ C (fo_id f)).

(** The rows of [C] that were there are still there. *)
#[local] Notation kept := (stable (λ s, holds C t0 (cs_folders s))).

Lemma delete_chats_keeps folder_id :
  preserves kept (Chats.delete_chats_by_user_id_and_folder_id user_id folder_id).
Proof.
  apply preserves_attempt, preserves_bind; [apply _|apply preserves_write; [apply _|intros s l Hs; exact Hs|intros s Hs; exact Hs]|intros _; apply preserves_ret, _].
Qed.

Lemma delete_row_keeps id : ¬ C id → preserves kept (Folders.delete_folder_row id).
Proof.
  intros Hid. apply preserves_bind; [apply _|apply preserves_gets, _|]. intros t.
  destruct (find_row id t); [|apply preserves_raise, _]. apply preserves_write; [apply _|intros s l Hs; exact Hs|]. intros s Hs g Hg HCg.
  apply list_elem_of_filter. split; [|by apply Hs]. by intros <-.
Qed.

(** Deleting below a folder of [C] never comes to an end, and takes no row of [C]. *)
Definition stuck (m : chatp unit) (x : string) (s : ChatSite) : Prop :=
  C x → ∃ e, result_of m s = Raise e.

Section loop.
Context (del : string → chatp unit).
Context (Hkeeps : ∀ x, preserves kept (del x)).
Context (Hstuck : ∀ x s, holds C t0 (cs_folders s) → stuck (del x) x s).

Definition body (child : Folder) : chatp unit :=
  Chats.delete_chats_by_user_id_and_folder_id user_id (fo_id child);;
  del (fo_id child);;
  Folders.delete_folder_row (fo_id child).

Lemma body_keeps c s :
  holds C t0 (cs_folders s) →
  holds C t0 (cs_folders (state_of (body c) s)) ∧ stuck (body c) (fo_id c) s.
Proof.
  intros Hs. unfold body, stuck, result_of, state_of. rewrite run_bind.
  pose proof (delete_chats_keeps (fo_id c) s Hs) as H1. unfold state_of in H1.
  destruct (Chats.delete_chats_by_user_id_and_folder_id user_id (fo_id c) s) as [[b|e] s1]; simpl in *; [|eauto].
  rewrite run_bind. pose proof (Hkeeps (fo_id c) s1 H1) as H2. pose proof (Hstuck (fo_id c) s1 H1) as Hx.
  unfold stuck, state_of, result_of in *. destruct (del (fo_id c) s1) as [[[]|e] s2]; simpl in *; [|eauto].
  assert (¬ C (fo_id c)) as Hc by (intros [? [=]]%Hx).
  split; [by apply (delete_row_keeps _ Hc s2)|done].
Qed.

Lemma loop_keeps cs s :
  holds C t0 (cs_folders s) →
  holds C t0 (cs_folders (state_of (for_each body cs) s)) ∧
  (Exists (λ c, C (fo_id c)) cs → ∃ e, result_of (for_each body cs) s = Raise e).
Proof.
  revert s. induction cs as [|c cs IH]; intros s Hs; [split; [done|by intros ?%Exists_nil]|].
  cbn [for_each]. destruct (body_keeps c s Hs) as [Hb Hx]. unfold stuck, state_of, result_of in *.
  rewrite run_bind. destruct (body c s) as [[[]|e] s1]; simpl in *; [|eauto].
  destruct (IH s1 Hb) as [Hk Hr]. split; [done|]. rewrite Exists_cons.
  intros [[? [=]]%Hx|Hex]; by apply Hr.
Qed.
End loop.

Lemma delete_children_cycle n x s :
  holds C t0 (cs_folders s) →
  holds C t0 (cs_folders (state_of (Folders.delete_children n user_id x) s)) ∧
  stuck (Folders.delete_children n user_id x) x s.
Proof.
  revert x s. induction n as [|n IH]; intros x s Hs; [unfold stuck; cbn; eauto|].
  cbn [Folders.delete_children]. unfold stuck, result_of, state_of. rewrite run_gets_bind.
  destruct (loop_keeps (Folders.delete_children n user_id)) with
    (cs := Folders.get_folders_by_parent_id_and_user_id (Some x) user_id (cs_folders s)) (s := s)
    as [Hk Hr]; [intros y s' Hy; by apply IH|intros y s' Hy; by apply IH|done|].
  split; [exact Hk|]. intros (f & Hf & Hp & Hu & HCf)%HC. apply Hr, Exists_exists. exists f.
  split; [|done]. apply elem_of_children. auto.
Qed.
End cycle.

(** ** The whole deletion *)

Definition deletion (limit : nat) (id : string) : chatp bool :=
  Chats.delete_chats_by_user_id_and_folder_id user_id id;;
  Folders.delete_children limit user_id id;;
  write_folders (delete_row id);;
  mret true.

Lemma delete_folder_start limit id s f :
  Folders.get_folder_by_id_and_user_id id user_id (cs_folders s) = Some f →
  Folders.delete_folder_by_id_and_user_id limit id user_id s = attempt (deletion limit id) false s.
Proof.
  intros Hf. unfold Folders.delete_folder_by_id_and_user_id, attempt. rewrite run_gets_bind, Hf.
  by apply head_Some_elem_of, list_elem_of_filter in Hf as [[<- _] _].
Qed.

Lemma deletion_run limit id s :
  cs_commits s = [] → NoDup (keys (cs_folders s)) → shallow (cs_folders s) user_id limit id →
  ∃ s', deletion limit id s = (Ok true, s') ∧
    without_below (λ y, y = id ∨ descendant (cs_folders s) user_id id y) s s'.
Proof.
  intros Hl Hnd Hsh. unfold deletion. rewrite run_bind.
  destruct (delete_chats_run id s Hl) as (s1 & -> & H1). rewrite run_bind.
  assert (cs_folders s1 = cs_folders s) as Hf1.
  { rewrite (without_folders _ _ _ _ H1). apply folders_outside_none. set_solver. }
  pose proof (without_commits _ _ _ _ H1) as Hl1.
  destruct (delete_children_run limit id s1) as (s2 & -> & H2); [by rewrite ?Hl1, ?Hf1..|].
  rewrite Hf1 in H2. pose proof H2 as (l & _ & Hl2%without_commits). unfold write_folders.
  rewrite run_bind, write_run by (by rewrite Hl2, Hl1). eexists. split; [reflexivity|].
  eapply without_below_step; [done..|]. unfold without, chats_outside, folders_outside, delete_row.
  destruct s2 as [chats tags folders]. cbn. f_equal.
  - symmetry. apply filter_all. intros c [_ H]. by inversion H.
  - apply list_filter_iff. intros g. change (row_key g) with (fo_id g). set_solver.
Qed.

(** The folders on a common cycle with [x]. *)
Definition on_cycle t x y : Prop := descendant t user_id x y ∧ descendant t user_id y x.

Lemma on_cycle_child t x y :
  on_cycle t x y → ∃ f, f ∈ t ∧ fo_parent_id f = Some y ∧ fo_user_id f = user_id ∧ on_cycle t x (fo_id f).
Proof.
  intros [Hxy Hyx]. assert (descendant t user_id x x) as Hxx by (by eapply tc_trans).
  apply descendant_inv in Hyx as [(f & Hf & <- & Hp & Hu)|(z & (f & Hf & <- & Hp & Hu) & Hz)];
    exists f; split_and!; try done.
  split; [|done]. eapply tc_r; [exact Hxy|by exists f].
Qed.

(** No program of the deletion adds a chat. *)
Definition no_new_chat (s s' : ChatSite) : Prop := ∀ c, c ∈ cs_chats s' → c ∈ cs_chats s.
#[export] Instance no_new_chat_preorder : PreOrder no_new_chat.
Proof. unfold no_new_chat. split; [intros s c; auto|intros s1 s2 s3; auto]. Qed.

Lemma delete_children_no_new_chat n x : preserves no_new_chat (Folders.delete_children n user_id x).
Proof.
  revert x. induction n as [|n IH]; intros x; [by intros s c|]. cbn [Folders.delete_children].
  apply preserves_bind; [apply _|apply preserves_gets, _|intros cs]. apply preserves_for_each; [apply _|].
  intros c _. apply preserves_bind; [apply _| |intros _; apply preserves_bind; [apply _|apply IH|intros _]].
  - apply preserves_attempt, preserves_bind; [apply _| |intros _; apply preserves_ret, _].
    apply preserves_write; [apply _|by intros s l d|]. intros s d. cbn. by intros [_ ?]%list_elem_of_filter.
  - apply preserves_bind; [apply _|apply preserves_gets, _|intros t].
    destruct (find_row _ t); [|apply preserves_raise, _].
    apply preserves_write; [apply _|by intros s l d|by intros s d].
Qed.

Lemma deletion_on_cycle limit id s :
  cs_commits s = [] → descendant (cs_folders s) user_id id id →
  ∃ e s', deletion limit id s = (Raise e, s') ∧
    holds (on_cycle (cs_folders s) id) (cs_folders s) (cs_folders s') ∧
    ∀ c, c ∈ cs_chats s' → ¬ (ch_user_id c = user_id ∧ ch_folder_id c = Some id).
Proof.
  intros Hl Hcycle. unfold deletion. rewrite run_bind.
  destruct (delete_chats_run id s Hl) as (s1 & -> & H1). rewrite run_bind.
  assert (holds (on_cycle (cs_folders s) id) (cs_folders s) (cs_folders s1)) as Hhold.
  { rewrite (without_folders _ _ _ _ H1), folders_outside_none by set_solver. by intros g. }
  destruct (delete_children_cycle _ _ (on_cycle_child (cs_folders s) id) limit id s1 Hhold) as [Hkeep Hstuck].
  destruct (Hstuck (conj Hcycle Hcycle)) as [e He].
  pose proof (delete_children_no_new_chat limit id s1) as Hno. unfold result_of, state_of in *.
  destruct (Folders.delete_children limit user_id id s1) as [r s2]. simpl in *. subst r.
  exists e, s2. split_and!; [done..|]. intros c Hc%Hno Hin. rewrite H1 in Hc. cbn in Hc.
  unfold chats_outside in Hc. apply list_elem_of_filter in Hc as [Hc _]. apply Hc. split; [apply Hin|].
  apply Exists_cons. left. apply Hin.
Qed.
End tree.
