(* ===== verification/ChatFacts.v ===== *)
(** What a request of one user can reach: the lemmas on the rows of the others. *)

From S2P Require Import Prelude Data Accounts AccessControl Chats ChatApi.

(** A chat of another user; the shared copies have an owner of their own. *)
Definition foreign (user_id : string) (c : Chat) : Prop :=
  ch_user_id c ≠ user_id ∧ ∀ id, ch_user_id c ≠ Chats.shared_owner id.

Section apart.
Context (user_id : string) (s0 : ChatSite).

(** The rows of the others are those of [s0]. *)
Definition apart (s : ChatSite) : Prop :=
  NoDup (keys (cs_chats s)) ∧ NoDup (keys (cs_folders s)) ∧
  (∀ c, foreign user_id c → c ∈ cs_chats s ↔ c ∈ cs_chats s0) ∧
  (∀ g, tg_user_id g ≠ user_id → g ∈ cs_tags s ↔ g ∈ cs_tags s0) ∧
  (∀ f, fo_user_id f ≠ user_id → f ∈ cs_folders s ↔ f ∈ cs_folders s0).

(** No row of another user has the identifier. *)
Definition own (id : string) : Prop := ∀ c, c ∈ cs_chats s0 → foreign user_id c → ch_id c ≠ id.
Definition own_file (id : string) : Prop :=
  ∀ f, f ∈ cs_folders s0 → fo_user_id f ≠ user_id → fo_id f ≠ id.

#[local] Notation keeps := (preserves (stable apart)).

Lemma own_row s c : apart s → c ∈ cs_chats s → ¬ foreign user_id c → own (ch_id c).
Proof.
  intros (Hnd & _ & Hc & _) Hin Hno c' Hc' Hf Heq. apply Hc in Hc'; [|done].
  apply (find_row_elem _ _ Hnd) in Hin, Hc'. change (row_key c' = row_key c) in Heq. congruence.
Qed.

Lemma own_chat_row s c : apart s → c ∈ cs_chats s → ch_user_id c = user_id → own (ch_id c).
Proof. intros Hs Hc Hu. apply (own_row s c Hs Hc). by intros []. Qed.

Lemma shared_row s c id : apart s → c ∈ cs_chats s → ch_user_id c = Chats.shared_owner id → own (ch_id c).
Proof. intros Hs Hc Hu. apply (own_row s c Hs Hc). intros [_ H]. by apply (H id). Qed.

Lemma own_folder_row s f : apart s → f ∈ cs_folders s → fo_user_id f = user_id → own_file (fo_id f).
Proof.
  intros (_ & Hnd & _ & _ & Hf) Hin Hu f' Hf' Hn Heq. apply Hf in Hf'; [|done].
  apply (find_row_elem _ _ Hnd) in Hin, Hf'. change (row_key f' = row_key f) in Heq. congruence.
Qed.

(** ** Statements *)

Lemma keeps_write f : (∀ s, apart s → apart (f s)) → keeps (write f).
Proof. intros Hf. apply preserves_write; [apply _|by intros s l Hs|exact Hf]. Qed.

Lemma keeps_write_chats f :
  (∀ t, NoDup (keys t) → NoDup (keys (f t))) →
  (∀ s t, apart s → t = cs_chats s → ∀ c, foreign user_id c → c ∈ f t ↔ c ∈ t) →
  keeps (write_chats f).
Proof.
  intros Hnd Hf. apply keeps_write. intros s Hs. pose proof Hs as (Hc & ? & Hcs & ? & ?).
  split_and!; try done; [by apply Hnd|]. intros c Hno. rewrite <- Hcs by done. by apply (Hf s).
Qed.

Lemma NoDup_keys_filter {A} `{Keyed A} (P : A → Prop) `{∀ x, Decision (P x)} (t : list A) :
  NoDup (keys t) → NoDup (keys (filter P t)).
Proof. intros Hnd. by eapply (keys_selected P). Qed.

Lemma keeps_chat_filter (P : Chat → Prop) `{∀ c, Decision (P c)} :
  (∀ c, foreign user_id c → own (ch_id c) ∨ P c) → keeps (write_chats (filter P)).
Proof.
  intros HP. apply keeps_write_chats; [intros t; apply NoDup_keys_filter|].
  intros s t Hs -> c Hno. rewrite list_elem_of_filter. split; [by intros []|]. intros Hc. split; [|done].
  destruct (HP c Hno) as [Ho|?]; [|done]. exfalso. apply (Ho c); [|done..]. by apply Hs.
Qed.

(** The owner of a chat is what no statement rewrites. *)
Definition keeps_owner (f : Chat → Chat) : Prop :=
  ∀ c, ch_id (f c) = ch_id c ∧ ch_user_id (f c) = ch_user_id c.

Lemma keeps_chat_where p f :
  keeps_owner f → (∀ c, p c = true → foreign user_id c → own (ch_id c)) →
  keeps (write_chats (update_where p f)).
Proof.
  intros Hf Hp. apply keeps_write_chats.
  - intros t Hnd. rewrite keys_update_where; [done|]. intros c. by apply Hf.
  - intros s t Hs -> c Hno. unfold update_where. rewrite list_elem_of_fmap.
    assert (∀ c', c' ∈ cs_chats s → foreign user_id c' → p c' = false) as Hsame.
    { intros c' Hc' Hno'. apply not_true_is_false. intros Hpc.
      apply (Hp c' Hpc Hno' c'); [by apply Hs|done..]. }
    split.
    + intros (c' & -> & Hc'). destruct (p c') eqn:Hpc; [|done]. exfalso.
      assert (foreign user_id c') as Hno'.
      { unfold foreign in *. destruct (Hf c') as [_ Hu]. by rewrite Hu in Hno. }
      by rewrite Hsame in Hpc.
    + intros Hc. exists c. by rewrite Hsame.
Qed.

Lemma keeps_update_row id f : keeps_owner f → own id → keeps (write_chats (update_row id f)).
Proof.
  intros Hf Ho. apply keeps_chat_where; [done|]. intros c Hc _. apply bool_decide_eq_true in Hc.
  change (ch_id c = id) in Hc. by subst id.
Qed.

Lemma keeps_insert c : ¬ foreign user_id c → keeps (Chats.insert_chat c).
Proof.
  intros Hno s Hs. unfold Chats.insert_chat, state_of. rewrite run_gets_bind. case_decide as Hin; [done|].
  assert (∀ s', cs_chats s' = cs_chats s → apart s' → apart (s' <| cs_chats := cs_chats s' ++ [c] |>)) as Hadd.
  { intros s' Hs' (Hnd & Hndf & Hc & Ht & Hf). split_and!; try done.
    - cbn. unfold keys. rewrite fmap_app. apply NoDup_app. split_and!; [done| |apply NoDup_singleton].
      intros k Hk ->%list_elem_of_singleton. rewrite Hs' in Hk. done.
    - intros c' Hc'. cbn. rewrite elem_of_app, Hc by done. split; [intros [?| ->%list_elem_of_singleton]|]; tauto. }
  unfold write_chats, write. rewrite run_bind. unfold next_commit.
  destruct (cs_commits s) as [|[] rest]; simpl.
  - exact (Hadd s eq_refl Hs).
  - exact (Hadd (s <| cs_commits := rest |>) eq_refl Hs).
  - exact Hs.
Qed.

Lemma keeps_fresh : keeps fresh.
Proof. by intros s Hs. Qed.

Lemma keeps_db_get id : keeps (Chats.db_get id).
Proof. unfold Chats.db_get. preserves_auto. Qed.

Lemma keeps_write_tags f :
  (∀ t g, tg_user_id g ≠ user_id → g ∈ f t ↔ g ∈ t) → keeps (write_tags f).
Proof.
  intros Hf. apply keeps_write. intros s (? & ? & ? & Ht & ?). split_and!; try done.
  intros g Hg. cbn. by rewrite Hf, Ht.
Qed.

(** ** The tables *)

Context (uuid4 : nat → string) (as_list : list string → list string).

Create HintDb apart.
#[local] Hint Resolve keeps_write_chats keeps_fresh keeps_db_get : apart.

(** One structural step, or a fact of the component. *)
Ltac keeps_auto := repeat (preserves_step; eauto with apart).

Lemma keeps_patch id f : (∀ now, keeps_owner (f now)) → own id → keeps (Chats.patch id f).
Proof. intros Hf Ho. unfold Chats.patch. keeps_auto. by apply keeps_update_row. Qed.

Lemma keeps_insert_tag name : keeps (Tags.insert_new_tag name user_id).
Proof.
  unfold Tags.insert_new_tag. keeps_auto. apply keeps_write_tags. intros l g Hg.
  rewrite elem_of_app. split; [intros [?| ->%list_elem_of_singleton]|]; [done|done|by left].
Qed.

Lemma keeps_delete_tag name : keeps (Tags.delete_tag_by_name_and_user_id name user_id).
Proof.
  unfold Tags.delete_tag_by_name_and_user_id. keeps_auto. apply keeps_write_tags. intros l g Hg.
  rewrite list_elem_of_filter. unfold Tags.is_tag. tauto.
Qed.
#[local] Hint Resolve keeps_patch keeps_insert_tag keeps_delete_tag : apart.

Lemma keeps_update_chat id chat : own id → keeps (Chats.update_chat_by_id id chat).
Proof. intros Ho. unfold Chats.update_chat_by_id. keeps_auto. by apply keeps_patch. Qed.

Lemma keeps_insert_shared id : own id → keeps (Chats.insert_shared_chat_by_chat_id uuid4 id).
Proof.
  intros Ho. unfold Chats.insert_shared_chat_by_chat_id. keeps_auto.
  - apply keeps_insert. intros [_ H]. by apply (H id).
  - by apply keeps_update_row.
Qed.

Lemma keeps_gets_bind {A B} (f : ChatSite → A) (k : A → chatp B) :
  (∀ s, apart s → stable apart s (state_of (k (f s)) s)) → keeps (gets f ≫= k).
Proof. intros Hk s Hs. unfold state_of. rewrite run_gets_bind. by apply Hk. Qed.

Lemma keeps_attempt {A} (m : chatp A) d : keeps m → keeps (attempt m d).
Proof. apply preserves_attempt. Qed.

Lemma keeps_update_shared id : own id → keeps (Chats.update_shared_chat_by_chat_id uuid4 id).
Proof.
  intros Ho. apply keeps_attempt, keeps_gets_bind. intros s Hs.
  destruct (head _) as [shared|] eqn:Hsh; [|by apply keeps_insert_shared].
  assert (own (ch_id shared)) as Hos.
  { apply head_Some_elem_of, list_elem_of_filter in Hsh as [Hu Hin]. by eapply shared_row. }
  match goal with |- stable apart s (state_of ?m s) => enough (keeps m) as Hm by apply Hm end.
  keeps_auto. by apply keeps_update_row.
Qed.

Lemma keeps_delete_shared id : keeps (Chats.delete_shared_chat_by_chat_id id).
Proof.
  unfold Chats.delete_shared_chat_by_chat_id. keeps_auto. apply keeps_chat_filter. intros c [_ Hc]. right. apply Hc.
Qed.
#[local] Hint Resolve keeps_update_chat keeps_insert_shared keeps_update_shared keeps_delete_shared : apart.

Lemma keeps_drop_tags n tags : keeps (Chats.drop_tags_counted n user_id tags).
Proof. unfold Chats.drop_tags_counted. apply preserves_for_each; [apply _|]. intros x _. keeps_auto. Qed.

Lemma keeps_add_tag id name :
  own id → keeps (Chats.add_chat_tag_by_id_and_user_id_and_tag_name as_list id user_id name).
Proof.
  intros Ho. unfold Chats.add_chat_tag_by_id_and_user_id_and_tag_name. keeps_auto.
  apply keeps_patch; [|done]. intros _ c. by case_decide.
Qed.

Lemma keeps_remove_tag id name :
  own id → keeps (Chats.delete_tag_by_id_and_user_id_and_tag_name as_list id user_id name).
Proof.
  intros Ho. unfold Chats.delete_tag_by_id_and_user_id_and_tag_name. keeps_auto. by apply keeps_update_row.
Qed.

Lemma keeps_remove_tags id : own id → keeps (Chats.delete_all_tags_by_id_and_user_id id user_id).
Proof.
  intros Ho. unfold Chats.delete_all_tags_by_id_and_user_id. keeps_auto. by apply keeps_update_row.
Qed.

Lemma keeps_delete_own id : keeps (Chats.delete_chat_by_id_and_user_id id user_id).
Proof.
  unfold Chats.delete_chat_by_id_and_user_id. keeps_auto. apply keeps_chat_filter. intros c [Hc _].
  right. by intros [_ ?].
Qed.

Lemma keeps_delete_all : keeps (Chats.delete_chats_by_user_id user_id).
Proof.
  unfold Chats.delete_chats_by_user_id, Chats.delete_shared_chats_by_user_id. keeps_auto.
  - apply keeps_chat_filter. intros c [_ Hc]. right. intros (c' & Hc' & _)%list_elem_of_fmap.
    by apply (Hc (ch_id c')).
  - apply keeps_chat_filter. intros c [Hc _]. by right.
Qed.

Lemma keeps_archive_all : keeps (Chats.archive_all_chats_by_user_id user_id).
Proof.
  unfold Chats.archive_all_chats_by_user_id. keeps_auto. apply keeps_chat_where; [done|].
  intros c Hc%bool_decide_eq_true [Hno _]. done.
Qed.

Lemma keeps_empty_folder folder_id : keeps (Chats.delete_chats_by_user_id_and_folder_id user_id folder_id).
Proof.
  unfold Chats.delete_chats_by_user_id_and_folder_id. keeps_auto. apply keeps_chat_filter.
  intros c [Hc _]. right. by intros [? _].
Qed.
#[local] Hint Resolve keeps_drop_tags keeps_add_tag keeps_remove_tag keeps_remove_tags keeps_delete_own
  keeps_delete_all keeps_archive_all keeps_empty_folder : apart.

(** ** Folders *)

Lemma keeps_write_folders f :
  (∀ s, apart s →
    NoDup (keys (f (cs_folders s))) ∧
    ∀ g, fo_user_id g ≠ user_id → g ∈ f (cs_folders s) ↔ g ∈ cs_folders s) →
  keeps (write_folders f).
Proof.
  intros Hf. apply keeps_write. intros s Hs. destruct (Hf s Hs) as [Hnd Hin].
  destruct Hs as (? & ? & ? & ? & Hfo). split_and!; try done. intros g Hg. cbn. by rewrite Hin, Hfo.
Qed.

Lemma keeps_delete_folders id : own_file id → keeps (write_folders (delete_row id)).
Proof.
  intros Ho. apply keeps_write_folders. intros s Hs. split; [apply NoDup_keys_filter, Hs|].
  intros g Hg. unfold delete_row. rewrite list_elem_of_filter. split; [by intros []|]. intros Hin.
  split; [|done]. apply (Ho g); [by apply Hs|done].
Qed.

Lemma keeps_update_folder id f :
  own_file id → (∀ g, fo_id (f g) = fo_id g ∧ fo_user_id (f g) = fo_user_id g) →
  keeps (write_folders (update_row id f)).
Proof.
  intros Ho Hf. apply keeps_write_folders. intros s Hs.
  assert (keeps_key f) as Hk by (intros g; apply Hf).
  split; [rewrite keys_update_row; [apply Hs|done]|]. intros g Hg.
  rewrite (elem_of_update_row id f) by (done || apply Hs). split.
  - intros [[? _]|(g0 & Hg0 & ->)]; [done|]. exfalso. apply find_row_Some in Hg0 as [Hin Hid].
    destruct (Hf g0) as [_ Hu]. rewrite Hu in Hg. apply (Ho g0); [by apply Hs|done..].
  - intros Hin. left. split; [done|]. apply (Ho g); [by apply Hs|done].
Qed.

Lemma own_folder_found s id f :
  apart s → Folders.get_folder_by_id_and_user_id id user_id (cs_folders s) = Some f →
  fo_id f = id ∧ own_file id.
Proof.
  intros Hs [[<- Hu] Hin]%head_Some_elem_of%list_elem_of_filter. split; [done|]. by eapply own_folder_row.
Qed.

(** A program that goes on with what it read, as a program of its own. *)
Lemma keeps_at {A} (m : chatp A) s : keeps m → stable apart s (state_of m s).
Proof. intros Hm. apply Hm. Qed.

Lemma keeps_change id f :
  (∀ now g, fo_id (f now g) = fo_id g ∧ fo_user_id (f now g) = fo_user_id g) →
  keeps (Folders.change id user_id f).
Proof.
  intros Hf. apply keeps_attempt, keeps_gets_bind. intros s Hs.
  destruct (Folders.get_folder_by_id_and_user_id _ _ _) as [row|] eqn:Hrow; [|done].
  destruct (own_folder_found s id row Hs Hrow) as [_ Ho]. apply keeps_at. keeps_auto.
  by apply keeps_update_folder.
Qed.

Lemma keeps_insert_folder name parent_id : keeps (Folders.insert_new_folder uuid4 user_id name parent_id).
Proof.
  apply preserves_bind; [apply _|apply keeps_fresh|intros n].
  apply preserves_bind; [apply _|apply preserves_gets, _|intros now]. apply keeps_attempt.
  intros s Hs. unfold state_of. rewrite run_gets_bind. case_decide as Hin; [done|].
  set (f := mkFolder _ _ _ _ _ _ _ _ _) in *. rewrite run_bind.
  assert (∀ l, apart (s <| cs_commits := l |> <| cs_folders := cs_folders s ++ [f] |>)) as Hadd.
  { intros l. destruct Hs as (? & Hnd & ? & ? & Hf). split_and!; try done.
    - cbn. unfold keys. rewrite fmap_app. apply NoDup_app. split_and!; [done| |apply NoDup_singleton].
      intros k Hk ->%list_elem_of_singleton. done.
    - intros g Hg. cbn. rewrite elem_of_app, Hf by done.
      split; [intros [?| ->%list_elem_of_singleton]|]; [done|by destruct Hg|by left]. }
  unfold write_folders, write. rewrite run_bind. unfold next_commit.
  destruct (cs_commits s) as [|[] rest] eqn:Hl; simpl.
  - pose proof (Hadd []) as H. destruct s. cbn in Hl. by subst.
  - exact (Hadd rest).
  - exact Hs.
Qed.

Lemma keeps_delete_row id : own_file id → keeps (Folders.delete_folder_row id).
Proof. intros Ho. unfold Folders.delete_folder_row. keeps_auto. by apply keeps_delete_folders. Qed.

Lemma keeps_delete_children n id : keeps (Folders.delete_children n user_id id).
Proof.
  revert id. induction n as [|n IH]; intros id; [by intros s|]. apply keeps_gets_bind. intros s Hs. apply keeps_at.
  apply preserves_for_each; [apply _|]. intros c Hc. keeps_auto. apply keeps_delete_row.
  apply list_elem_of_filter in Hc as [[_ Hu] Hin]. by eapply own_folder_row.
Qed.
#[local] Hint Resolve keeps_change keeps_insert_folder keeps_delete_children : apart.

Lemma keeps_delete_folder limit id : keeps (Folders.delete_folder_by_id_and_user_id limit id user_id).
Proof.
  apply keeps_attempt, keeps_gets_bind. intros s Hs.
  destruct (Folders.get_folder_by_id_and_user_id _ _ _) as [f|] eqn:Hf; [|done].
  destruct (own_folder_found s id f Hs Hf) as [-> Ho]. apply keeps_at. keeps_auto. by apply keeps_delete_folders.
Qed.
End apart.

(** ** Requests *)

Section requests.
Context (dialect : Dialect) (uuid4 : nat → string) (as_list : list string → list string).
Context (recursion_limit : nat) (groups : list Group) (models tools knowledge : list Owned).
Context (USER_PERMISSIONS : json_dict) (ENABLE_RAG_WEB_SEARCH : bool).
Context (user : User) (s0 : ChatSite).

#[local] Notation keeps := (preserves (stable (apart (us_id user) s0))).
#[local] Notation own := (own (us_id user) s0).

#[local] Hint Resolve keeps_patch keeps_insert_tag keeps_delete_tag keeps_fresh keeps_db_get keeps_insert
  keeps_update_chat keeps_insert_shared keeps_update_shared keeps_delete_shared
  keeps_drop_tags keeps_add_tag keeps_remove_tag keeps_remove_tags keeps_delete_own
  keeps_delete_all keeps_archive_all keeps_change keeps_insert_folder keeps_delete_folder : apart.

Ltac keeps_auto := repeat (preserves_step; eauto with apart).

Lemma keeps_own_chat {A} id (f : Chat → chatp A) :
  (∀ c, ch_id c = id → own id → keeps (f c)) → keeps (c ← own_chat id user; f c).
Proof.
  intros Hf s Hs. unfold own_chat, state_of. rewrite run_bind, run_gets_bind.
  unfold Chats.get_chat_by_id_and_user_id.
  destruct (head _) as [c|] eqn:Hc; [|done]. simpl.
  apply head_Some_elem_of, list_elem_of_filter in Hc as [[Hid Hu] Hin].
  apply (Hf c); [done| |done]. rewrite <- Hid. by eapply own_chat_row.
Qed.

Lemma keeps_or_400 {A} (m : chatp A) : keeps m → keeps (or_400 m).
Proof. intros Hm s Hs. specialize (Hm s Hs). unfold or_400, state_of in *. by destruct (m s) as [[a|e] s']. Qed.

Lemma keeps_own_folder id : keeps (own_folder id user).
Proof. unfold own_folder, answer. keeps_auto. Qed.

Lemma keeps_name_free parent_id name : keeps (name_free dialect parent_id user name).
Proof. unfold name_free. keeps_auto. Qed.

Lemma keeps_own_tags id : keeps (own_tags user id).
Proof. unfold own_tags, responded. keeps_auto. Qed.
#[local] Hint Resolve keeps_own_folder keeps_name_free keeps_own_tags : apart.

Lemma keeps_insert_new chat kind : keeps (Chats.insert_new_chat uuid4 (us_id user) chat kind).
Proof. unfold Chats.insert_new_chat. keeps_auto. apply keeps_insert. by intros []. Qed.
#[local] Hint Resolve keeps_insert_new : apart.

Lemma keeps_import form : keeps (import_chat uuid4 user form).
Proof.
  apply keeps_or_400. unfold Chats.import_chat. keeps_auto.
  - apply keeps_insert. by intros [].
  - apply preserves_for_each; [apply _|]. intros tag _. unfold import_tag. keeps_auto.
Qed.

Lemma keeps_rename id name folder : keeps (rename_step dialect user id name folder).
Proof. unfold rename_step, Folders.update_folder_name_by_id_and_user_id. keeps_auto; apply keeps_change; done. Qed.
#[local] Hint Resolve keeps_rename : apart.

Lemma keeps_update_folder_name id name extra :
  keeps (update_folder_name_by_id dialect groups models tools knowledge ENABLE_RAG_WEB_SEARCH user id name extra).
Proof.
  unfold update_folder_name_by_id, Folders.update_folder_meta_by_id_and_user_id. keeps_auto; by apply keeps_change.
Qed.

Lemma keeps_archive id : keeps (archive_chat_by_id user id).
Proof.
  apply keeps_own_chat. intros _ _ Ho. unfold Chats.toggle_chat_archive_by_id, responded. keeps_auto.
  - by apply keeps_patch.
  - apply preserves_for_each; [apply _|]. intros tag _. unfold restore_tag. keeps_auto.
Qed.

Lemma keeps_share id : keeps (share_chat_by_id uuid4 user id).
Proof. apply keeps_own_chat. intros c <- Ho. unfold responded, answer. keeps_auto. Qed.

Lemma keeps_unshare id : keeps (delete_shared_chat_by_id user id).
Proof.
  apply keeps_own_chat. intros c <- Ho. unfold Chats.update_chat_share_id_by_id. keeps_auto. by apply keeps_patch.
Qed.
#[local] Hint Resolve keeps_import keeps_update_folder_name keeps_archive keeps_share keeps_unshare : apart.

Lemma keeps_chat_delete id :
  us_role user ≠ "admin" → keeps (delete_chat_by_id dialect groups USER_PERMISSIONS user id).
Proof. intros Hrole. unfold delete_chat_by_id, responded. keeps_auto. done. Qed.

Lemma keeps_chat_tags id name :
  keeps (add_tag_by_id_and_tag_name as_list user id name) ∧
  keeps (delete_tag_by_id_and_tag_name as_list user id name) ∧
  keeps (delete_all_tags_by_id user id).
Proof.
  split_and!; apply keeps_own_chat; intros c <- Ho; keeps_auto.
Qed.

Lemma handle_keeps call :
  us_role user ≠ "admin" →
  keeps (handle dialect uuid4 as_list recursion_limit groups models tools knowledge USER_PERMISSIONS
           ENABLE_RAG_WEB_SEARCH user call).
Proof.
  intros Hrole. destruct call; cbn [handle]; apply preserves_bind; try apply _; intros; try apply preserves_ret, _;
    eauto using keeps_chat_delete with apart.
  - unfold create_new_chat. keeps_auto. by apply keeps_or_400, keeps_insert_new.
  - apply keeps_own_chat. intros c _ Ho. unfold responded. keeps_auto.
  - unfold delete_all_user_chats. keeps_auto.
  - apply keeps_own_chat. intros c _ Ho. by apply keeps_patch.
  - apply keeps_own_chat. intros c _ Ho. unfold responded. keeps_auto.
  - unfold clone_shared_chat_by_id, answer, responded. keeps_auto.
  - apply keeps_own_chat. intros c _ Ho. unfold responded. keeps_auto. by apply keeps_patch.
  - apply keeps_chat_tags.
  - apply (keeps_chat_tags _ name).
  - by apply (keeps_chat_tags _ "").
  - unfold get_user_chat_list_by_tag_name. keeps_auto.
  - unfold create_folder. keeps_auto.
  - unfold update_folder_parent_id_by_id. keeps_auto. by apply keeps_change.
  - unfold update_folder_is_expanded_by_id. keeps_auto. by apply keeps_change.
  - unfold delete_folder_by_id. keeps_auto.
Qed.
End requests.

Lemma own_folder_run id user s f :
  Folders.get_folder_by_id_and_user_id id (us_id user) (cs_folders s) = Some f →
  own_folder id user s = (Ok f, s).
Proof. intros Hf. unfold own_folder. by rewrite run_gets_bind, Hf. Qed.

(** ** Sharing *)

Lemma db_get_run id s c : find_row id (cs_chats s) = Some c → Chats.db_get id s = (Ok c, s).
Proof. intros Hc. unfold Chats.db_get. by rewrite run_gets_bind, Hc. Qed.

Lemma patch_run id f s c :
  cs_commits s = [] → find_row id (cs_chats s) = Some c → (∀ now, keeps_key (f now)) →
  Chats.patch id f s = (Ok (Some (f (cs_now s) c)), s <| cs_chats := update_row id (f (cs_now s)) (cs_chats s) |>).
Proof.
  intros Hl Hc Hf. unfold Chats.patch, attempt. rewrite run_bind, (db_get_run id s c Hc), run_gets_bind.
  rewrite run_bind. unfold write_chats. rewrite write_run by done. rewrite run_bind.
  rewrite (db_get_run id _ (f (cs_now s) c)); [done|]. cbn. by rewrite find_update_row_eq, Hc by apply Hf.
Qed.

Lemma find_own id user_id (t : list Chat) c :
  NoDup (keys t) → find_row id t = Some c → ch_user_id c = user_id →
  Chats.get_chat_by_id_and_user_id id user_id t = Some c.
Proof.
  intros Hnd Hc <-. unfold Chats.get_chat_by_id_and_user_id.
  induction t as [|d t IH]; [done|]. unfold keys in Hnd. csimpl in *. apply NoDup_cons in Hnd as [Hd Hnd].
  rewrite filter_cons. change (row_key d) with (ch_id d) in *. case_decide as Hid; simplify_eq.
  - by rewrite decide_True.
  - rewrite decide_False by naive_solver. by apply IH.
Qed.

Lemma own_chat_run id user s c :
  NoDup (keys (cs_chats s)) → find_row id (cs_chats s) = Some c → ch_user_id c = us_id user →
  own_chat id user s = (Ok c, s).
Proof. intros. unfold own_chat. rewrite run_gets_bind. by erewrite find_own. Qed.

Lemma found_own id user_id (t : list Chat) c :
  NoDup (keys t) → Chats.get_chat_by_id_and_user_id id user_id t = Some c →
  find_row id t = Some c ∧ ch_user_id c = user_id.
Proof.
  intros Hnd [[<- Hu] Hin]%head_Some_elem_of%list_elem_of_filter. split; [|done].
  by apply (find_row_elem t c).
Qed.

Lemma delete_shared_run id s :
  cs_commits s = [] →
  Chats.delete_shared_chat_by_chat_id id s =
    (Ok true, s <| cs_chats := filter (λ c, ch_user_id c ≠ Chats.shared_owner id) (cs_chats s) |>).
Proof.
  intros Hl. unfold Chats.delete_shared_chat_by_chat_id, attempt, write_chats.
  by rewrite run_bind, write_run.
Qed.

Section shared.
Context (uuid4 : nat → string) (id link : string) (user : User) (shared : Chat).

(** The link shows [shared], and is the chat's. *)
Record linked (s : ChatSite) : Prop := {
  linked_rows : NoDup (keys (cs_chats s));
  linked_commits : cs_commits s = [];
  linked_copy : find_row link (cs_chats s) = Some shared;
  linked_chat : ∃ c, find_row id (cs_chats s) = Some c ∧ ch_user_id c = us_id user ∧ ch_share_id c = Some link;
  linked_only : ∀ c, c ∈ cs_chats s → ch_share_id c = Some link → ch_id c = id
}.

Lemma linked_shows s : linked s → Chats.get_chat_by_share_id link (cs_chats s) = Some shared.
Proof.
  intros [_ _ Hcopy (c & Hc & _ & Hs) _]. unfold Chats.get_chat_by_share_id. rewrite decide_True; [done|].
  apply Exists_exists. exists c. split; [|done]. by apply find_row_Some in Hc as [? _].
Qed.

(** What rewrites the chat and keeps its owner and its link. *)
Lemma linked_update f s :
  link ≠ id → (∀ c, ch_id (f c) = ch_id c ∧ ch_user_id (f c) = ch_user_id c ∧ ch_share_id (f c) = ch_share_id c) →
  linked s → linked (s <| cs_chats := update_row id f (cs_chats s) |>).
Proof.
  intros Hne Hf [Hnd Hl Hcopy (c & Hc & Hu & Hs) Honly].
  assert (keeps_key f) as Hk by (intros x; apply Hf). split; cbn -[update_row keys].
  - by rewrite keys_update_row.
  - done.
  - by rewrite find_update_row_ne.
  - exists (f c). rewrite find_update_row_eq, Hc by done. destruct (Hf c) as (_ & -> & ->). done.
  - intros x. rewrite elem_of_update_row by done. intros [[Hx _]|(x0 & Hx0 & ->)]; [by apply Honly|].
    destruct (Hf x0) as (-> & _ & ->). apply Honly. by apply find_row_Some in Hx0 as [? _].
Qed.

Lemma update_linked s chat : link ≠ id → linked s → linked (state_of (void (update_chat_by_id user id chat)) s).
Proof.
  intros Hne Hs. pose proof Hs as [Hnd Hl _ (c & Hc & Hu & _) _].
  unfold void, update_chat_by_id, state_of. rewrite !run_bind, (own_chat_run id user s c) by done. rewrite run_bind.
  unfold Chats.update_chat_by_id. destruct (title_of _) as [title|]; [|done].
  rewrite (patch_run _ _ _ c) by done. simpl. by apply linked_update.
Qed.

Lemma updates_linked s chats :
  link ≠ id → linked s → linked (state_of (for_each (λ chat, void (update_chat_by_id user id chat)) chats) s).
Proof.
  intros Hne Hs. apply (preserves_for_each (stable linked)); [|done]. intros chat _ s' Hs'. by apply update_linked.
Qed.

Lemma unshare_linked s :
  link ≠ id → link ≠ "" → us_id user ≠ Chats.shared_owner id → linked s →
  ∃ s', delete_shared_chat_by_id user id s = (Ok true, s') ∧
    Chats.get_chat_by_share_id link (cs_chats s') = None.
Proof.
  intros Hne Hempty Hno [Hnd Hl Hcopy (c & Hc & Hu & Hs) Honly].
  unfold delete_shared_chat_by_id. rewrite run_bind, (own_chat_run id user s c) by done. rewrite Hs.
  assert (truthy (Some link) = Some link) as -> by (by destruct link).
  rewrite run_bind, delete_shared_run, run_bind by done. unfold Chats.update_chat_share_id_by_id.
  assert (find_row id (filter (λ c, ch_user_id c ≠ Chats.shared_owner id) (cs_chats s)) = Some c) as Hc'.
  { rewrite (find_selected (λ c, ch_user_id c ≠ Chats.shared_owner id) _ (cs_chats s)), Hc by done. simpl.
    rewrite decide_True; [done|]. by rewrite Hu. }
  erewrite patch_run; [|done|exact Hc'|done]. eexists. split; [reflexivity|].
  unfold Chats.get_chat_by_share_id. rewrite decide_False; [done|]. cbn -[update_row].
  intros (x & Hx & Hsx)%Exists_exists. apply elem_of_update_row in Hx; [|by apply NoDup_keys_filter|done].
  destruct Hx as [[[_ Hx]%list_elem_of_filter Hid]|(x0 & _ & ->)]; [|done]. by apply Hid, Honly.
Qed.
End shared.

Lemma insert_chat_run s c :
  cs_commits s = [] → ch_id c ∉ keys (cs_chats s) →
  Chats.insert_chat c s = (Ok (), s <| cs_chats := cs_chats s ++ [c] |>).
Proof.
  intros Hl Hc. unfold Chats.insert_chat, write_chats.
  by rewrite run_gets_bind, decide_False, write_run.
Qed.

Definition shared_copy (uuid4 : nat → string) (s : ChatSite) (c : Chat) : Chat :=
  mkChat (uuid4 (cs_minted s)) (Chats.shared_owner (ch_id c)) (ch_title c) (ch_chat c) (ch_created_at c) (cs_now s)
    None false (Some false) [] [] None None.

(** Sharing a chat that is not shared yet. *)
Lemma share_linked uuid4 user s c :
  NoDup (keys (cs_chats s)) → cs_commits s = [] → c ∈ cs_chats s → ch_user_id c = us_id user →
  ch_share_id c = None → uuid4 (cs_minted s) ∉ keys (cs_chats s) →
  ¬ Chats.share_taken (uuid4 (cs_minted s)) (cs_chats s) →
  ∃ s', share_chat_by_id uuid4 user (ch_id c) s = (Ok (shared_copy uuid4 s c), s') ∧
    linked (ch_id c) (uuid4 (cs_minted s)) user (shared_copy uuid4 s c) s'.
Proof.
  intros Hnd Hl Hc Hu Hs Hnew Hfree. apply (find_row_elem _ _ Hnd) in Hc. change (row_key c) with (ch_id c) in Hc.
  unfold share_chat_by_id. rewrite run_bind, (own_chat_run _ _ _ c) by done. rewrite Hs. cbn [truthy].
  unfold Chats.insert_shared_chat_by_chat_id. rewrite !run_bind, (db_get_run _ _ c), Hs by done. cbn [truthy].
  rewrite run_bind. cbn [fresh]. rewrite run_gets_bind, run_bind.
  change (cs_now (s <| cs_minted := S (cs_minted s) |>)) with (cs_now s).
  fold (shared_copy uuid4 s c). rewrite insert_chat_run by done. rewrite run_gets_bind.
  assert (¬ Chats.share_taken (uuid4 (cs_minted s)) (cs_chats s ++ [shared_copy uuid4 s c])) as Hfree'.
  { unfold Chats.share_taken. rewrite Exists_app, Exists_cons, Exists_nil. by intros [?|[?|[]]]. }
  rewrite decide_False by done. rewrite run_bind. unfold write_chats. rewrite write_run by done.
  eexists. split; [reflexivity|]. cbn -[update_row keys].
  set (t := cs_chats s ++ [shared_copy uuid4 s c]).
  assert (NoDup (keys t)) as Hndt.
  { unfold keys, t. rewrite fmap_app. apply NoDup_app. split_and!; [done| |apply NoDup_singleton].
    intros k Hk ->%list_elem_of_singleton. done. }
  assert (ch_id c ≠ uuid4 (cs_minted s)) as Hne.
  { intros He. apply Hnew. rewrite <- He. by apply find_row_is_Some; eauto. }
  split; cbn -[update_row keys]; fold t.
  - by rewrite keys_update_row.
  - done.
  - rewrite find_update_row_ne by done. unfold t. rewrite find_row_app.
    apply find_row_None in Hnew. rewrite Hnew. cbn. by rewrite decide_True.
  - exists (c <| ch_share_id := Some (uuid4 (cs_minted s)) |>). rewrite find_update_row_eq by done.
    unfold t. by rewrite find_row_app, Hc.
  - intros x. rewrite elem_of_update_row by done. intros [[Hx _]|(x0 & Hx0 & ->)] Hsx.
    + exfalso. apply Hfree'. apply Exists_exists. by exists x.
    + by apply find_row_key in Hx0.
Qed.
