(* ===== verification/ChatContract.v ===== *)
(** What the conversation endpoints promise: whose rows a request can reach, where a
    chat is shown, what a shared link shows, what a folder's deletion takes along and
    what a preset may name. *)

From stdpp Require Import relations pretty.
From S2P Require Import Prelude Data Accounts AccessControl Chats ChatApi FolderTree ChatFacts.

Implicit Types (s : ChatSite) (user : User).

(** ** A small site *)

Definition chat_ids (n : nat) : string := "c" +:+ pretty n.

Definition person (id role : string) : User :=
  mkUser id id (id +:+ "@host") role "" 0 0 0 None None None None.

Definition empty_site : ChatSite := mkChatSite [] [] [] 7 0 [].

(** ** The rows of the others *)

Section isolation.
Context (dialect : Dialect) (uuid4 : nat → string) (as_list : list string → list string).
Context (recursion_limit : nat) (groups : list Group) (models tools knowledge : list Owned).
Context (USER_PERMISSIONS : json_dict) (ENABLE_RAG_WEB_SEARCH : bool).

#[local] Notation handle := (handle dialect uuid4 as_list recursion_limit groups models tools knowledge
  USER_PERMISSIONS ENABLE_RAG_WEB_SEARCH).

(** C30: A request of a user who is not an administrator, whatever it names and however it
    ends, leaves the chats, the tags and the folders of every other user as they were;
    the shared copies, which belong to nobody, are the only rows of others it can reach. *)
Theorem requests_touch_only_own_rows user call s :
  us_role user ≠ "admin" →
  NoDup (keys (cs_chats s)) → NoDup (keys (cs_folders s)) →
  let s' := state_of (handle user call) s in
  (∀ c, foreign (us_id user) c → c ∈ cs_chats s' ↔ c ∈ cs_chats s) ∧
  (∀ g, tg_user_id g ≠ us_id user → g ∈ cs_tags s' ↔ g ∈ cs_tags s) ∧
  (∀ f, fo_user_id f ≠ us_id user → f ∈ cs_folders s' ↔ f ∈ cs_folders s).
Proof.
  intros Hrole Hc Hf s'. assert (apart (us_id user) s s') as (_ & _ & H); [|exact H].
  by apply handle_keeps.
Qed.
End isolation.

Definition plain_chat (id owner : string) (folder : option string) : Chat :=
  mkChat id owner "T" [("title", JStr "T")] 1 1 None false (Some false) [] [] folder None.
Definition plain_folder (id owner : string) (parent : option string) : Folder :=
  mkFolder id parent owner id None None false 1 1.

(** Two users, one of them with folders [f] > [g] > [h] and a chat in [h]. *)
Definition two_users : ChatSite :=
  mkChatSite [plain_chat "x" "ann" (Some "h"); plain_chat "y" "bob" None; plain_chat "z" "ann" None]
    [mkTag "t" "bob" "T"]
    [plain_folder "f" "ann" None; plain_folder "g" "ann" (Some "f"); plain_folder "h" "ann" (Some "g");
     plain_folder "k" "bob" (Some "f")] 7 0 [].

Lemma requests_touch_only_own_rows_witness :
  let s' := state_of (handle SQLite chat_ids remove_dups 9 [] [] [] [] [] false (person "ann" "user")
                        (DeleteFolder "f")) two_users in
  plain_chat "y" "bob" None ∈ cs_chats s' ∧ plain_folder "k" "bob" (Some "f") ∈ cs_folders s' ∧
  "x" ∉ keys (cs_chats s').
Proof.
  destruct (requests_touch_only_own_rows SQLite chat_ids remove_dups 9 [] [] [] [] [] false
              (person "ann" "user") (DeleteFolder "f") two_users) as (Hc & _ & Hf);
    [done|by_decision|by_decision|]. intros s'. split_and!.
  - apply Hc; [split; [done|intros id; done]|]. do 1 right. left.
  - apply Hf; [done|]. do 3 right. left.
  - unfold s'. by_decision.
Defined.

(** ** Where a chat is shown *)

Inductive Place := InSidebar | InPinned | InArchive | InFolder (id : string).

(** The list a page asks for. *)
Definition shown (p : Place) (user_id : string) (t : list Chat) : list Chat :=
  match p with
  | InSidebar => Chats.get_chat_title_id_list_by_user_id user_id false t
  | InPinned => Chats.get_pinned_chats_by_user_id user_id t
  | InArchive => Chats.get_archived_chats_by_user_id user_id t
  | InFolder id => Chats.get_chats_by_folder_id_and_user_id id user_id t
  end.

Lemma elem_of_latest_chat c (l : list Chat) : c ∈ Chats.latest l ↔ c ∈ l.
Proof. apply sort_by_elem_of. Qed.

(** Every conversation of a user is shown to them in exactly one place: the sidebar,
    the pinned ones, the archive or one folder; none is shown twice and none is lost.  A
    session of a kind of its own, when it is neither pinned, archived nor filed, is in
    none of these places. *)
Theorem a_chat_is_shown_in_one_place c (t : list Chat) :
  c ∈ t →
  (ch_kind c = None → exists! p, c ∈ shown p (ch_user_id c) t) ∧
  (∀ k, ch_kind c = Some k → ch_archived c = false → Chats.is_pinned c = false → ch_folder_id c = None →
   ∀ p, c ∉ shown p (ch_user_id c) t).
Proof.
  intros Hc. split.
  - intros Hkind.
    assert (∀ p, c ∈ shown p (ch_user_id c) t ↔ p =
      if ch_archived c then InArchive else if Chats.is_pinned c then InPinned
      else match ch_folder_id c with Some id => InFolder id | None => InSidebar end) as Hshown.
    { intros p. unfold shown, Chats.get_chat_title_id_list_by_user_id, Chats.get_pinned_chats_by_user_id,
        Chats.get_archived_chats_by_user_id, Chats.get_chats_by_folder_id_and_user_id.
      destruct p; rewrite elem_of_latest_chat, list_elem_of_filter;
        destruct (ch_archived c), (Chats.is_pinned c), (ch_folder_id c) as [id'|];
        (split; [intros [? _]; destruct_and?; destruct_or?; congruence|intros [=]; subst; split_and!; auto]). }
    eexists. split; [by apply Hshown|]. intros p Hp%Hshown. done.
  - intros k Hk Ha Hp Hf p. destruct p; simpl;
      unfold Chats.get_chat_title_id_list_by_user_id, Chats.get_pinned_chats_by_user_id,
        Chats.get_archived_chats_by_user_id, Chats.get_chats_by_folder_id_and_user_id;
      rewrite elem_of_latest_chat, list_elem_of_filter; intros [? _]; destruct_and?; congruence.
Qed.

Lemma a_chat_is_shown_in_one_place_witness :
  exists! p, plain_chat "x" "ann" (Some "h") ∈ shown p "ann" (cs_chats two_users).
Proof. apply (a_chat_is_shown_in_one_place (plain_chat "x" "ann" (Some "h"))); [left|done]. Defined.

(** ** Sharing *)

(** C35: Sharing a chat makes a link that shows, to every user, the title and the messages
    the chat had at that time; no later edit of the chat changes what it shows, and once
    the chat is unshared the link shows nothing. *)
Theorem a_link_shows_the_chat_as_it_was_shared uuid4 user reader c s edits :
  NoDup (keys (cs_chats s)) → cs_commits s = [] →
  c ∈ cs_chats s → ch_user_id c = us_id user → ch_share_id c = None →
  uuid4 (cs_minted s) ∉ keys (cs_chats s) → uuid4 (cs_minted s) ≠ "" →
  ¬ Chats.share_taken (uuid4 (cs_minted s)) (cs_chats s) →
  us_id user ≠ Chats.shared_owner (ch_id c) →
  us_role reader = "user" →
  let link := uuid4 (cs_minted s) in
  let s1 := state_of (share_chat_by_id uuid4 user (ch_id c)) s in
  let s2 := state_of (for_each (λ chat, void (update_chat_by_id user (ch_id c) chat)) edits) s1 in
  let s3 := state_of (delete_shared_chat_by_id user (ch_id c)) s2 in
  (∃ shown, result_of (get_shared_chat_by_id true reader link) s2 = Ok shown ∧
     ch_title shown = ch_title c ∧ ch_chat shown = ch_chat c) ∧
  result_of (get_shared_chat_by_id true reader link) s3 = Raise (Http 401).
Proof.
  intros Hnd Hl Hc Hu Hs Hnew Hempty Hfree Hno Hrole link s1 s2 s3.
  destruct (share_linked uuid4 user s c) as (s1' & Hs1 & Hlinked); [done..|].
  assert (s1 = s1') as <- by (unfold s1, state_of; by rewrite Hs1). fold link in Hlinked.
  assert (link ≠ ch_id c) as Hne.
  { intros He. apply Hnew. fold link. rewrite He. by apply list_elem_of_fmap_2. }
  apply (updates_linked _ _ _ _ _ edits Hne) in Hlinked. fold s2 in Hlinked.
  destruct (unshare_linked _ _ _ _ s2 Hne Hempty Hno Hlinked) as (s3' & Hs3 & Hgone).
  assert (s3 = s3') as <- by (unfold s3, state_of; by rewrite Hs3).
  unfold result_of, get_shared_chat_by_id. rewrite !run_gets_bind, Hrole.
  rewrite !(decide_False (P := "user" = "pending")), !decide_True by auto.
  rewrite Hgone. split; [|done]. apply linked_shows in Hlinked. rewrite Hlinked. eauto.
Qed.

Lemma a_link_shows_the_chat_as_it_was_shared_witness :
  let s1 := state_of (share_chat_by_id chat_ids (person "bob" "user") "y") two_users in
  let s2 := state_of (for_each (λ chat, void (update_chat_by_id (person "bob" "user") "y" chat))
                        [[("title", JStr "new")]]) s1 in
  (∃ shown, result_of (get_shared_chat_by_id true (person "ann" "user") "c0") s2 = Ok shown ∧
     ch_title shown = "T" ∧ ch_chat shown = [("title", JStr "T")]) ∧
  (ch_title <$> find_row "y" (cs_chats s2)) = Some "new".
Proof.
  intros s1 s2. split; [|by vm_compute].
  apply (a_link_shows_the_chat_as_it_was_shared chat_ids (person "bob" "user") (person "ann" "user")
    (plain_chat "y" "bob" None) two_users [[("title", JStr "new")]]); try done; try by_decision.
  right. left.
Defined.

(** ** Folders *)

(** C31: When every commit succeeds and what lies below a folder of the caller's is a tree,
    less deep than the interpreter recurses, deleting the folder takes exactly the folder, the folders below it at any depth and
    the owner's chats in any of these, and changes nothing else. *)
Theorem deleting_a_folder_takes_its_tree recursion_limit user id s f :
  cs_commits s = [] → NoDup (keys (cs_folders s)) →
  Folders.get_folder_by_id_and_user_id id (us_id user) (cs_folders s) = Some f →
  shallow (cs_folders s) (us_id user) recursion_limit id →
  ∃ s' l, delete_folder_by_id recursion_limit user id s = (Ok true, s') ∧
    (∀ y, y ∈ l ↔ y = id ∨ descendant (cs_folders s) (us_id user) id y) ∧
    s' = s <| cs_folders := folders_outside l (cs_folders s) |>
           <| cs_chats := chats_outside (us_id user) l (cs_chats s) |>.
Proof.
  intros Hl Hnd Hf Hsh. unfold delete_folder_by_id.
  rewrite run_bind, (own_folder_run _ _ _ f Hf), run_bind, (delete_folder_start _ _ _ _ f Hf).
  destruct (deletion_run (us_id user) recursion_limit id s Hl Hnd Hsh) as (s' & Hs' & l & Hin & Hwithout).
  unfold attempt. rewrite Hs'. by exists s', l.
Qed.

Lemma deleting_a_folder_takes_its_tree_witness :
  ∃ s' (l : list string), delete_folder_by_id 9 (person "ann" "user") "f" two_users = (Ok true, s') ∧
    (∀ y, y ∈ l ↔ y = "f" ∨ descendant (cs_folders two_users) "ann" "f" y) ∧
    fo_id <$> cs_folders s' = ["k"] ∧ ch_id <$> cs_chats s' = ["y"; "z"].
Proof.
  destruct (deleting_a_folder_takes_its_tree 9 (person "ann" "user") "f" two_users
              (plain_folder "f" "ann" None)) as (s' & l & Hs' & Hl & Heq); [done|by_decision|done| |].
  { eapply get_children_answers. by vm_compute. }
  exists s', l. split_and!; [done..| |].
  - assert (state_of (delete_folder_by_id 9 (person "ann" "user") "f") two_users = s') as <-
      by (unfold state_of; by rewrite Hs'). by vm_compute.
  - assert (state_of (delete_folder_by_id 9 (person "ann" "user") "f") two_users = s') as <-
      by (unfold state_of; by rewrite Hs'). by vm_compute.
Defined.

(** A folder that lies below itself cannot be deleted, however deep the interpreter
    recurses: the request ends in an error and every folder of the cycle is still there,
    but the chats in the folder are gone. *)
Theorem a_cycle_of_folders_loses_its_chats recursion_limit user id s f :
  cs_commits s = [] →
  Folders.get_folder_by_id_and_user_id id (us_id user) (cs_folders s) = Some f →
  descendant (cs_folders s) (us_id user) id id →
  ∃ s', delete_folder_by_id recursion_limit user id s = (Raise (Http 400), s') ∧
    (∀ g, g ∈ cs_folders s → descendant (cs_folders s) (us_id user) id (fo_id g) →
       descendant (cs_folders s) (us_id user) (fo_id g) id → g ∈ cs_folders s') ∧
    ∀ c, c ∈ cs_chats s' → ¬ (ch_user_id c = us_id user ∧ ch_folder_id c = Some id).
Proof.
  intros Hl Hf Hcycle. unfold delete_folder_by_id.
  rewrite run_bind, (own_folder_run _ _ _ f Hf), run_bind, (delete_folder_start _ _ _ _ f Hf).
  destruct (deletion_on_cycle (us_id user) recursion_limit id s Hl Hcycle) as (e & s' & Hs' & Hhold & Hgone).
  unfold attempt. rewrite Hs'. exists s'. split_and!; [done| |done].
  intros g Hg Hdown Hup. by apply Hhold.
Qed.

(** Moving the folder [f] below itself, then deleting it. *)
Definition after_move : ChatSite :=
  state_of (handle SQLite chat_ids remove_dups 9 [] [] [] [] [] false (person "ann" "user")
              (MoveFolder "f" (Some "f")))
    (two_users <| cs_chats := [plain_chat "x" "ann" (Some "f")] |>).

Lemma a_cycle_of_folders_loses_its_chats_witness :
  ch_id <$> cs_chats after_move = ["x"] ∧
  ∃ s', delete_folder_by_id 9 (person "ann" "user") "f" after_move = (Raise (Http 400), s') ∧
    cs_folders s' ≠ [] ∧ cs_chats s' = [].
Proof.
  split; [by vm_compute|].
  destruct (a_cycle_of_folders_loses_its_chats 9 (person "ann" "user") "f" after_move
              ((plain_folder "f" "ann" (Some "f")) <| fo_updated_at := 7 |>)) as (s' & Hs' & Hkeep & _);
    [done|by vm_compute| |].
  { apply tc_once. eexists. split_and!; [left|by vm_compute..]. }
  exists s'. assert (state_of (delete_folder_by_id 9 (person "ann" "user") "f") after_move = s') as <-
    by (unfold state_of; by rewrite Hs'). split; [exact Hs'|]. split; [by vm_compute|by vm_compute].
Defined.

(** ** Presets *)

Section presets.
Context (dialect : Dialect) (groups : list Group) (ENABLE_RAG_WEB_SEARCH : bool) (user : User).

(** What the user can read of a table. *)
Definition readable (r : Owned) : Prop := _record_accessible dialect groups (Some r) user "read" = Some true.
#[local] Instance readable_dec r : Decision (readable r).
Proof. unfold readable. apply _. Defined.
Definition visible (l : list Owned) : list Owned := filter readable l.

(** No access control of the table has a shape the gate raises on. *)
Definition well_formed (l : list Owned) : Prop :=
  ∀ r, r ∈ l → is_Some (_record_accessible dialect groups (Some r) user "read").

Lemma find_visible id l : NoDup (keys l) →
  find_row id (visible l) = (r ← find_row id l; if decide (readable r) then Some r else None).
Proof. intros Hnd. by apply (find_selected readable). Qed.

Lemma accessible_visible id l :
  NoDup (keys l) → well_formed l →
  _record_accessible dialect groups (find_row id (visible l)) user "read" =
  _record_accessible dialect groups (find_row id l) user "read".
Proof.
  intros Hnd Hwf. rewrite find_visible by done. destruct (find_row id l) as [r|] eqn:Hr; [|done]. cbn [mbind option_bind].
  case_decide as Hread; [done|]. destruct (Hwf r) as [b Hb]; [by apply find_row_Some in Hr as [? _]|].
  unfold readable in Hread. rewrite Hb in Hread |- *. by destruct b.
Qed.

Lemma unresolved_ext kind (f g : string → option bool) ids :
  (∀ id, f id = g id) → unresolved kind f ids = unresolved kind g ids.
Proof. intros Hfg. induction ids as [|id ids IH]; [done|]. simpl. by rewrite Hfg, IH. Qed.

Lemma resolve_tool_visible tools id :
  NoDup (keys tools) → well_formed tools → (∀ r, r ∈ tools → ow_id r ∉ BUILTIN_TOOL_IDS) →
  resolve_tool_ref dialect groups (visible tools) ENABLE_RAG_WEB_SEARCH id user "read" =
  resolve_tool_ref dialect groups tools ENABLE_RAG_WEB_SEARCH id user "read".
Proof.
  intros Hnd Hwf Hbuiltin. unfold resolve_tool_ref. rewrite find_visible by done.
  destruct (find_row id tools) as [r|] eqn:Hr; [|done]. cbn [mbind option_bind].
  case_decide as Hread; [done|].
  apply find_row_Some in Hr as [Hin <-]. change (row_key r) with (ow_id r).
  rewrite bool_decide_false by (by apply Hbuiltin). destruct (Hwf r Hin) as [b Hb].
  unfold readable in Hread. rewrite Hb in Hread |- *. by destruct b.
Qed.

(** A folder's preset tells nobody what exists: renaming a folder with a preset answers
    and writes exactly as it would on a server from whose models, tools and knowledge bases
    everything the caller cannot read had been removed. *)
Theorem presets_see_only_what_is_readable models tools knowledge id name extra s :
  NoDup (keys models) → NoDup (keys tools) → NoDup (keys knowledge) →
  well_formed models → well_formed tools → well_formed knowledge →
  (∀ r, r ∈ tools → ow_id r ∉ BUILTIN_TOOL_IDS) →
  update_folder_name_by_id dialect groups models tools knowledge ENABLE_RAG_WEB_SEARCH user id name extra s =
  update_folder_name_by_id dialect groups (visible models) (visible tools) (visible knowledge)
    ENABLE_RAG_WEB_SEARCH user id name extra s.
Proof.
  intros Hm Ht Hk Hwm Hwt Hwk Hbuiltin.
  assert (∀ p, unresolved_preset_references dialect groups models tools knowledge ENABLE_RAG_WEB_SEARCH p user =
    unresolved_preset_references dialect groups (visible models) (visible tools) (visible knowledge)
      ENABLE_RAG_WEB_SEARCH p user) as Hrefs.
  { intros p. unfold unresolved_preset_references, resolve_model_ref, resolve_knowledge_ref.
    apply option_bind_ext; [intros m|apply unresolved_ext; intros; by rewrite accessible_visible].
    apply option_bind_ext; [intros t|apply unresolved_ext; intros; by rewrite resolve_tool_visible].
    apply option_bind_ext; [done|apply unresolved_ext; intros; by rewrite accessible_visible]. }
  unfold update_folder_name_by_id. rewrite !run_bind. destruct (own_folder id user s) as [[f|e] s']; [|done].
  destruct (existsb _ _); [|done]. rewrite !run_bind. destruct (preset_of extra) as [p|]; [|done].
  simpl. by rewrite Hrefs.
Qed.
End presets.

(** The model [m] is another user's and private. *)
Lemma presets_see_only_what_is_readable_witness :
  let private := mkOwned "m" "bob" (Some []) in
  let ask models := update_folder_name_by_id SQLite [] models [] [] false (person "ann" "user") "f" "f"
                      [("default_model_id", JStr "m")] two_users in
  ask [private] = ask [] ∧ (ask []).1 = Raise (Http 400).
Proof.
  intros private ask. split; [|by vm_compute].
  assert (visible SQLite [] (person "ann" "user") [private] = []) as Hnone by by vm_compute.
  unfold ask. rewrite <- Hnone at 2.
  apply (presets_see_only_what_is_readable SQLite [] false (person "ann" "user") [private] [] []).
  1-3: by_decision.
  - intros r ->%list_elem_of_singleton. by eexists.
  - intros r Hr. by apply elem_of_nil in Hr.
  - intros r Hr. by apply elem_of_nil in Hr.
  - intros r Hr. by apply elem_of_nil in Hr.
Defined.

(** Runs of the conversation endpoints on concrete sites: cases in which they do not do
    what they are for. *)
Module ChatRuns.

(** Every user may delete chats. *)
Definition may_delete_chats : json_dict := [("chat", JDict [("delete", JBool true)])].

Definition serve (owner role : string) (call : ChatCall) (s : ChatSite) : result ApiExn unit * ChatSite :=
  handle SQLite chat_ids remove_dups 9 [] [] [] [] may_delete_chats false (person owner role) call s.

Definition serve_all (calls : list (string * ChatCall)) (s : ChatSite) : ChatSite :=
  foldl (λ s oc, (serve oc.1 "user" oc.2 s).2) s calls.

(** ** Deleting what is another's *)

(** Bob names Ann's chat: the chat stays, but the copy behind her link is gone, and she
    cannot share the chat again. *)
Definition shared_by_ann : ChatSite := serve_all [("ann", ShareChat "x")] two_users.

Example deleting_anothers_chat_breaks_its_link :
  let s := serve_all [("bob", DeleteChat "x")] shared_by_ann in
  keys (cs_chats shared_by_ann) = ["x"; "y"; "z"; "c0"] ∧
  keys (cs_chats s) = ["x"; "y"; "z"] ∧
  (find_row "x" (cs_chats s) ≫= ch_share_id) = Some "c0" ∧
  result_of (get_shared_chat_by_id true (person "ann" "user") "c0") s = Raise (Http 401) ∧
  (serve "ann" "user" (ShareChat "x") s).1 ≠ Ok ().
Proof. vm_compute. repeat split; discriminate. Qed.

(** ** Tags *)

Definition tagged : ChatSite :=
  serve_all [("ann", AddTag "x" "work"); ("ann", AddTag "z" "work"); ("ann", ArchiveChat "z")] two_users.

(** Deleting an archived chat drops a tag another chat still has. *)
Example deleting_an_archived_chat_drops_a_used_tag :
  let s := serve_all [("ann", DeleteChat "z")] tagged in
  tg_id <$> Tags.get_tags_by_user_id "ann" (cs_tags tagged) = ["work"] ∧
  Tags.get_tags_by_user_id "ann" (cs_tags s) = [] ∧
  (ch_tags <$> find_row "x" (cs_chats s)) = Some ["work"].
Proof. by vm_compute. Qed.

(** ** Folders *)

(** The chats of a deleted folder are gone, the copies their links show are not. *)
Example deleting_a_folder_leaves_the_links :
  let s := serve_all [("ann", DeleteFolder "f")] shared_by_ann in
  keys (cs_chats s) = ["y"; "z"; "c0"] ∧
  ch_user_id <$> Chats.get_chat_by_id "c0" (cs_chats s) = Some "shared-x".
Proof. by vm_compute. Qed.

(** A chat filed in a folder that does not exist is shown in no folder of the user's,
    nor anywhere else. *)
Example a_chat_filed_nowhere_is_not_shown :
  let s := serve_all [("ann", FileChat "z" (Some "nowhere"))] two_users in
  (find_row "z" (cs_chats s) ≫= ch_folder_id) = Some "nowhere" ∧
  forallb (λ p, bool_decide ("z" ∉ ch_id <$> shown p "ann" (cs_chats s)))
    (InSidebar :: InPinned :: InArchive :: (InFolder ∘ fo_id <$> cs_folders s)) = true.
Proof. by vm_compute. Qed.

(** A name with an underscore is taken when a name of the same length matches it. *)
Example an_underscore_matches_any_letter :
  (serve "ann" "user" (CreateFolder "_") two_users).1 = Raise (Http 400) ∧
  (serve "ann" "user" (CreateFolder "x") two_users).1 = Ok ().
Proof. by vm_compute. Qed.

(** A preset that could not be stored is reported as stored. *)
Example a_lost_preset_is_reported_as_stored :
  let s := two_users <| cs_commits := [false] |> in
  let r := update_folder_name_by_id SQLite [] [] [] [] false (person "ann" "user") "f" "f"
             [("tool_ids", JList [])] s in
  (∃ f, r.1 = Ok (Some f) ∧ fo_meta f = None).
Proof. vm_compute. eexists. split; reflexivity. Qed.

(** ** Lists *)

(** A session pinned like a chat is among the pinned chats. *)
Example a_pinned_session_is_among_the_chats :
  let s := serve_all [("ann", CreateChat [] (Some "tokenization")); ("ann", PinChat "c0")] two_users in
  ch_id <$> shown InPinned "ann" (cs_chats s) = ["c0"] ∧
  (find_row "c0" (cs_chats s) ≫= ch_kind) = Some "tokenization".
Proof. by vm_compute. Qed.

(** Page 0 is an error on PostgreSQL and everything on SQLite. *)
Example page_zero :
  result_of (get_session_user_chat_list PostgreSQL (person "bob" "user") (Some 0)) two_users = Raise Uncaught ∧
  (∃ c, result_of (get_session_user_chat_list SQLite (person "bob" "user") (Some 0)) two_users = Ok [c]).
Proof. vm_compute. split; [done|]. by eexists. Qed.

End ChatRuns.
