(* ===== verification/JobApi.v ===== *)
(** The training courses and the endpoints of [routers/training.py], with the scheduled
    dispatch the queue calls there.

    A handler is a program over a [JobSite]: the [QWorld] of the queue with its job
    tables and clock, the course table, the evaluation tokens, the outcomes of the coming
    commits, the answers of the coming remote calls and a trace of those made.  An awaited
    call lets other writers in: its answer says how long it took and what became of the
    world meanwhile.  The texts remote services answer an error with are left out. *)

From Stdlib Require Import Ascii.
From stdpp Require Import gmap.
From S2P Require Import Prelude Data Accounts AccessControl Session Jobs Queue.

(** ** Rows *)

Record TrainingCourse := mkTrainingCourse {
  tc_id : string;
  tc_user_id : string;
  tc_name : string;
  tc_description : string;
  tc_data : option json_dict;
  tc_meta : option json_dict;
  tc_access_control : option json_dict;
  tc_created_at : Z;
  tc_updated_at : Z
}.
#[export] Instance TrainingCourse_keyed : Keyed TrainingCourse := tc_id.

Record TrainingCourseForm := mkTrainingCourseForm {
  tf_name : string;
  tf_description : string;
  tf_data : option json_dict;
  tf_meta : option json_dict;
  tf_access_control : option json_dict
}.

(** What a dispatch reads of a knowledge base, and of a file attached to one: its path
    and, when that exists, what reading it gives. *)
Record Dataset := mkDataset {
  ds_id : string;
  ds_name : string;
  ds_data : option json_dict
}.
#[export] Instance Dataset_keyed : Keyed Dataset := ds_id.

Record LocalFile := mkLocalFile {
  lf_path : option string;
  lf_content : option (option string)
}.

(** ** Remote calls *)

(** A value of a training configuration; a floating-point number by its text. *)
Inductive CfgVal :=
| CJson (j : Json)
| CFloat (text : string)
| CDatasets (l : list json_dict).

Inductive Call :=
| HubInfo (hf_path : Json)
| PostDataset (url name content : string)
| PostHeretic (url model_id : string)
| PostJob (url : string) (config : list (string * CfgVal))
| ApproveRemote (url : string) (id : option string)
| GetHeretic (url id : string)
| GetRemoteJob (url id : string)
| DeleteRemoteJob (url id : string)
| DeleteEval (url id : string)
| CuratorCall (url verb : string).

(** The call raised, or was answered: the status and the JSON body, if it is one. *)
Inductive Reply :=
| NoReply
| Replied (code : Z) (body : option Json).

Record Answer (C : Type) := mkAnswer {
  an_seconds : Z;
  an_meanwhile : QWorld C → QWorld C;
  an_reply : Reply
}.
Arguments mkAnswer {C}.
Arguments an_seconds {C}.
Arguments an_meanwhile {C}.
Arguments an_reply {C}.

(** ** State *)

Record JobSite (C : Type) := mkJobSite {
  jb_world : QWorld C;
  jb_courses : list TrainingCourse;
  jb_tokens : eval_tokens;
  jb_minted : nat;
  jb_commits : list bool;
  jb_answers : list (Answer C);
  jb_calls : list Call
}.
Arguments mkJobSite {C}.
Arguments jb_world {C}.
Arguments jb_courses {C}.
Arguments jb_tokens {C}.
Arguments jb_minted {C}.
Arguments jb_commits {C}.
Arguments jb_answers {C}.
Arguments jb_calls {C}.

#[export] Instance JobSite_eta C : Eta (JobSite C) := λ s,
  mkJobSite (jb_world s) (jb_courses s) (jb_tokens s) (jb_minted s) (jb_commits s) (jb_answers s) (jb_calls s).

Abbreviation jobp C A := (prog (JobSite C) ApiExn A).

Section steps.
Context {C : Type}.
Implicit Types (s : JobSite C) (w : QWorld C).

Definition next_commit : jobp C bool := λ s,
  match jb_commits s with
  | [] => (Ok true, s)
  | ok :: rest => (Ok ok, s <| jb_commits := rest |>)
  end.

Definition fresh : jobp C nat := λ s, (Ok (jb_minted s), s <| jb_minted := S (jb_minted s) |>).

Definition now : jobp C Z := gets (λ s, q_now (jb_world s)).
Definition world : jobp C (QWorld C) := gets jb_world.

(** [try: update; commit; return self.get_by_id(id) except: return None] *)
Definition write_job {A} (f : QWorld C → QWorld C) (read : QWorld C → option A) : jobp C (option A) :=
  ok ← next_commit;
  if ok : bool then modify (λ s, s <| jb_world := f (jb_world s) |>);; w ← world; mret (read w)
  else mret None.

(** [try: delete; commit; return True except: return False] *)
Definition delete_job (f : QWorld C → QWorld C) : jobp C bool :=
  ok ← next_commit;
  if ok : bool then modify (λ s, s <| jb_world := f (jb_world s) |>);; mret true else mret false.

Definition on_training (f : Z → list TrainingJob → list TrainingJob) w : QWorld C :=
  w <| q_training := f (q_now w) (q_training w) |>.
Definition on_eval (f : Z → list EvalJob → list EvalJob) w : QWorld C := w <| q_eval := f (q_now w) (q_eval w) |>.
Definition on_curator (f : Z → list CuratorJob → list CuratorJob) w : QWorld C :=
  w <| q_curator := f (q_now w) (q_curator w) |>.
Definition on_publish (f : Z → list PublishJob → list PublishJob) w : QWorld C :=
  w <| q_publish := f (q_now w) (q_publish w) |>.

(** An awaited request. *)
Definition ask (c : Call) : jobp C Reply := λ s,
  let s := s <| jb_calls := jb_calls s ++ [c] |> in
  match jb_answers s with
  | [] => (Ok NoReply, s)
  | a :: rest =>
      let w := an_meanwhile a (jb_world s) in
      (Ok (an_reply a),
       s <| jb_answers := rest |> <| jb_world := w <| q_now := q_now w + Z.max 0 (an_seconds a) |> |>)
  end.

End steps.

(** ** Courses *)

Module TrainingCourses.
Section courses.
Context {C : Type}.

Definition new_course (now : Z) (id user_id : string) (f : TrainingCourseForm) : TrainingCourse :=
  mkTrainingCourse id user_id (tf_name f) (tf_description f) (tf_data f) (tf_meta f) (tf_access_control f) now now.

Definition form_row (now : Z) (f : TrainingCourseForm) (c : TrainingCourse) : TrainingCourse :=
  mkTrainingCourse (tc_id c) (tc_user_id c) (tf_name f) (tf_description f) (tf_data f) (tf_meta f)
    (tf_access_control f) (tc_created_at c) now.

Definition write_courses {A} (f : list TrainingCourse → list TrainingCourse)
    (read : list TrainingCourse → A) (failed : A) : jobp C A :=
  ok ← next_commit;
  if ok : bool then modify (λ s, s <| jb_courses := f (jb_courses s) |>);; t ← gets jb_courses; mret (read t)
  else mret failed.

Definition insert_new_course (uuid4 : nat → string) (user_id : string) (f : TrainingCourseForm)
    : jobp C (option TrainingCourse) :=
  n ← fresh;
  t ← now;
  let c := new_course t (uuid4 n) user_id f in
  write_courses (λ l, l ++ [c]) (λ _, Some c) None.

(** [ORDER BY updated_at DESC] *)
Definition get_all_courses (t : list TrainingCourse) : list TrainingCourse := sort_by (λ c, - tc_updated_at c) t.

Definition get_course_by_id (id : string) (t : list TrainingCourse) : option TrainingCourse := find_row id t.

Definition update_course_by_id (id : string) (f : TrainingCourseForm) : jobp C (option TrainingCourse) :=
  t ← now;
  write_courses (update_row id (form_row t f)) (find_row id) None.

Definition delete_course_by_id (id : string) : jobp C bool := write_courses (delete_row id) (λ _, true) false.

End courses.
End TrainingCourses.

(** ** Datasets *)

(** The shape of a HuggingFace dataset, from what the datasets server says of it; [None]
    where the code raises, on its way to the same fallback. *)
Definition hf_fallback : json_dict := [("type", JStr "chat_template"); ("field_messages", JStr "messages")].

Definition as_dict (j : Json) : option json_dict := match j with JDict d => Some d | _ => None end.

Definition hf_features (data : Json) : option json_dict :=
  data ← as_dict data;
  match default (JDict []) (dict_lookup "dataset_info" data) with
  | JDict info =>
      match dict_lookup "features" info with
      | Some features => as_dict features
      | None =>
          match filter (λ d, has_key "features" d = true) (omap (λ kv, as_dict kv.2) info) with
          | d :: _ => features ← dict_lookup "features" d; as_dict features
          | [] => Some []
          end
      end
  | _ => Some []
  end.

Definition holds_keys (l : list string) (d : json_dict) : bool := forallb (λ k, has_key k d) l.

Fixpoint sequence_format (features : json_dict) : option (option json_dict) :=
  match features with
  | [] => Some None
  | (name, JDict info) :: rest =>
      if decide (dict_lookup "_type" info = Some (JStr "Sequence")) then
        item ← as_dict (default (JDict []) (dict_lookup "feature" info));
        if holds_keys ["role"; "content"] item
        then Some (Some [("type", JStr "chat_template"); ("field_messages", JStr name)])
        else if holds_keys ["from"; "value"] item
        then Some (Some [("type", JStr "sharegpt"); ("field", JStr name)])
        else sequence_format rest
      else sequence_format rest
  | _ :: rest => sequence_format rest
  end.

Definition detect_format (data : Json) : option json_dict :=
  features ← hf_features data;
  found ← sequence_format features;
  Some match found with
       | Some d => d
       | None =>
           if holds_keys ["instruction"; "output"] features then [("type", JStr "alpaca")]
           else if has_key "text" features then [("type", JStr "completion"); ("field", JStr "text")]
           else hf_fallback
       end.

(** ** The endpoints *)

Definition DEEPSPEED_CONFIGS : list (string * string) :=
  [("optimizer", "/workspace/training/deepspeed_configs/zero2_no_nvcc.json");
   ("full", "/workspace/training/deepspeed_configs/zero3_bf16_cpuoffload_all.json")].

(** [advanced_config.get(key, default)] *)
Definition advanced (config : json_dict) (key : string) (d : CfgVal) : CfgVal :=
  match dict_lookup key config with Some j => CJson j | None => d end.

Fixpoint replace_char (a b : ascii) (s : string) : string :=
  match s with
  | EmptyString => EmptyString
  | String c s' => String (if decide (c = a) then b else c) (replace_char a b s')
  end.

(** The DeepSpeed configuration; the outer [None] is the [TypeError] of an unhashable
    key, the inner one an unknown key. *)
Definition deepspeed (config : json_dict) : option Json :=
  match default (JStr "optimizer") (dict_lookup "offload" config) with
  | JStr k => Some match list_find (λ kv, kv.1 = k) DEEPSPEED_CONFIGS with
                   | Some (_, kv) => JStr kv.2
                   | None => JNull
                   end
  | JList _ | JDict _ => None
  | _ => Some JNull
  end.

(** [v is not None] *)
Definition is_set (v : CfgVal) : bool := match v with CJson JNull => false | _ => true end.

Definition training_config (model_id : string) (course : TrainingCourse) (config : json_dict)
    (datasets : list json_dict) : option (list (string * CfgVal)) :=
  ds ← deepspeed config;
  Some (filter (λ kv, is_set kv.2 = true)
    [("base_model", CJson (JStr model_id));
     ("datasets", CDatasets datasets);
     ("val_set_size", advanced config "val_set_size" (CFloat "0.05"));
     ("output_dir", CJson (JStr ("./outputs/" +:+
        String.substring 0 40 (lower (replace_char " "%char "-"%char (tc_name course))))));
     ("sequence_len", CJson (JInt 2048));
     ("sample_packing", CJson (JBool true));
     ("adapter", advanced config "adapter" (CJson (JStr "lora")));
     ("lora_r", advanced config "lora_r" (CJson (JInt 32)));
     ("lora_alpha", advanced config "lora_alpha" (CJson (JInt 16)));
     ("lora_dropout", advanced config "lora_dropout" (CFloat "0.05"));
     ("lora_target_linear", CJson (JBool true));
     ("load_in_4bit", CJson (JBool true));
     ("load_in_8bit", CJson (JBool false));
     ("gradient_accumulation_steps", CJson (JInt 4));
     ("micro_batch_size", CJson (JInt 2));
     ("num_epochs", CJson (JInt 1));
     ("optimizer", CJson (JStr "adamw_torch"));
     ("lr_scheduler", advanced config "lr_scheduler" (CJson (JStr "cosine")));
     ("learning_rate", advanced config "learning_rate" (CFloat "0.0002"));
     ("warmup_ratio", advanced config "warmup_ratio" (CFloat "0.1"));
     ("weight_decay", advanced config "weight_decay" (CFloat "0.0"));
     ("bf16", advanced config "bf16" (CJson (JStr "auto")));
     ("tf32", CJson (JBool false));
     ("gradient_checkpointing", CJson (JBool true));
     ("flash_attention", CJson (JBool false));
     ("deepspeed", CJson ds);
     ("logging_steps", CJson (JInt 1));
     ("eval_batch_size", CJson (JInt 1));
     ("evals_per_epoch", advanced config "evals_per_epoch" (CJson (JInt 4)));
     ("saves_per_epoch", advanced config "saves_per_epoch" (CJson (JInt 1)))]).

Section training.
Context {C : Type} (cfg : QConfig) (uuid4 : nat → string) (dialect : Dialect).
(** The tables the handlers read, and the settings. *)
Context (groups : list Group) (USER_PERMISSIONS : json_dict).
Context (datasets : list Dataset) (dataset_files : string → list LocalFile).

Implicit Types (user : User) (s : JobSite C).

(** The gate of a course: [user.role == "admin" or owner or has_access(...)]. *)
Definition course_access (type : string) user (c : TrainingCourse) : option bool :=
  allowed dialect groups user type (tc_user_id c) (tc_access_control c).

(** The gate, or 401. *)
Definition readable_course user (c : TrainingCourse) : jobp C unit :=
  match course_access "read" user c with
  | Some true => mret tt
  | Some false => raise (Http 401)
  | None => raise Uncaught
  end.

(** *** Courses *)

Definition list_courses (type : string) user : jobp C (list TrainingCourse) :=
  t ← gets jb_courses;
  let all := TrainingCourses.get_all_courses t in
  if decide (us_role user = "admin") then mret all
  else responded (those_allowed (course_access type user) all).

Definition get_courses user := list_courses "read" user.
Definition list_writable_courses user := list_courses "write" user.

Definition create_course user (f : TrainingCourseForm) : jobp C TrainingCourse :=
  if may dialect groups USER_PERMISSIONS user "studio.training"
  then c ← TrainingCourses.insert_new_course uuid4 (us_id user) f; answer 400 c
  else raise (Http 401).

Definition get_course_by_id user (id : string) : jobp C TrainingCourse :=
  t ← gets jb_courses;
  c ← answer 404 (TrainingCourses.get_course_by_id id t);
  readable_course user c;; mret c.

(** The course, for its owner or an administrator. *)
Definition own_course user (id : string) : jobp C TrainingCourse :=
  t ← gets jb_courses;
  c ← answer 404 (TrainingCourses.get_course_by_id id t);
  if decide (tc_user_id c ≠ us_id user ∧ us_role user ≠ "admin") then raise (Http 401) else mret c.

Definition update_course_by_id user (id : string) (f : TrainingCourseForm) : jobp C TrainingCourse :=
  own_course user id;;
  c ← TrainingCourses.update_course_by_id id f; answer 400 c.

Definition delete_course_by_id user (id : string) : jobp C bool :=
  own_course user id;; TrainingCourses.delete_course_by_id id.

(** *** Jobs *)

Definition find_training (id : string) : jobp C TrainingJob :=
  w ← world; answer 404 (find_row id (q_training w)).

(** The job, for its owner or an administrator. *)
Definition own_training user (id : string) : jobp C TrainingJob :=
  j ← find_training id;
  if decide (tr_user_id j ≠ us_id user ∧ us_role user ≠ "admin") then raise (Http 401) else mret j.

Definition set_status (id : string) (st : JobStatus) (remote : option string) (idx : option nat)
    (err : option string) : jobp C (option TrainingJob) :=
  write_job (on_training (λ t, TrainingJobs.update_job_status t id st remote idx err))
    (λ w, find_row id (q_training w)).

Definition newest_first {A} (created_at : A → Z) (t : list A) : list A := sort_by (λ j, - created_at j) t.

Definition get_jobs user : jobp C (list TrainingJob) :=
  w ← world;
  let all := newest_first tr_created_at (q_training w) in
  mret (if decide (us_role user = "admin") then all else filter (λ j, tr_user_id j = us_id user) all).

Definition HERETIC : string := "heretic".

Definition create_job user (course_id model_id : string) (scheduled_for : option Z) : jobp C TrainingJob :=
  (if decide (course_id = HERETIC) then mret tt
   else get_course_by_id user course_id;; mret tt);;
  n ← fresh;
  job ← write_job
          (on_training (λ t, TrainingJobs.insert_new_job t (uuid4 n) (us_id user) course_id model_id scheduled_for))
          (λ w, find_row (uuid4 n) (q_training w));
  answer 400 job.

Definition get_job_by_id user (id : string) : jobp C TrainingJob := own_training user id.

Definition cancellable (st : JobStatus) : bool :=
  match st with PENDING | SCHEDULED | QUEUED | RUNNING => true | _ => false end.
Definition waiting (st : JobStatus) : bool := match st with PENDING | SCHEDULED => true | _ => false end.

Definition cancel_job user (id : string) : jobp C (option TrainingJob) :=
  job ← own_training user id;
  if decide (tr_status job = CANCELLED) then mret (Some job)
  else if negb (cancellable (tr_status job)) then raise (Http 400)
  else
    match truthy (tr_llamolotl_job_id job), tr_llamolotl_url_idx job with
    | Some remote, Some idx =>
        match LLAMOLOTL_CONTROL_BASE_URLS cfg !! idx with
        | Some url => ask (DeleteRemoteJob url remote);; mret tt
        | None => mret tt
        end
    | _, _ => mret tt
    end;;
    set_status id CANCELLED None None None.

(** The body of an answer that must be 200 or 201, any JSON or a dict; [None] is the 502. *)
Definition created_json (r : Reply) : option Json :=
  match r with
  | Replied code body => if decide (code = 200 ∨ code = 201) then body else None
  | NoReply => None
  end.
Definition created (r : Reply) : option json_dict :=
  match created_json r with Some body => as_dict body | None => None end.

(** [kb.name or kb.id] *)
Definition dataset_name (d : Dataset) : string := default (ds_id d) (truthy (Some (ds_name d))).

(** What is read of a file: a .json or .jsonl that exists, can be read and is not blank. *)
Definition jsonl_content (f : LocalFile) : option string :=
  path ← truthy (lf_path f);
  content ← lf_content f;
  if ends_with ".jsonl" path || ends_with ".json" path then
    text ← content;
    if decide (strip text = "") then None else Some text
  else None.

Fixpoint upload_files (url name : string) (kb_data : json_dict) (files : list LocalFile) : jobp C (list json_dict) :=
  match files with
  | [] => mret []
  | f :: rest =>
      match jsonl_content f with
      | None => upload_files url name kb_data rest
      | Some content =>
          r ← ask (PostDataset url name content);
          uploaded ← answer 502 (created_json r);
          path ← responded match as_dict uploaded with Some d => dict_lookup "path" d | None => None end;
          let entry := [("path", path); ("type", default (JStr "completion") (dict_lookup "type" kb_data))] in
          let entry := match dict_lookup "field" kb_data with
                       | Some field => if json_truthy field then entry ++ [("field", field)] else entry
                       | None => entry
                       end in
          more ← upload_files url name kb_data rest;
          mret (entry :: more)
      end
  end.

Definition _upload_local_dataset (kb : Dataset) (url : string) : jobp C (list json_dict) :=
  upload_files url (dataset_name kb) (default [] (ds_data kb)) (dataset_files (ds_id kb)).

Definition _detect_hf_dataset_format (hf_path : Json) : jobp C json_dict :=
  r ← ask (HubInfo hf_path);
  mret match r with
       | Replied 200 (Some data) => default hf_fallback (detect_format data)
       | _ => hf_fallback
       end.

(** [d[key] = e[key]] when it is truthy. *)
Definition override (key : string) (e d : json_dict) : json_dict :=
  match dict_lookup key e with
  | Some j => if json_truthy j then dict_set key j d else d
  | None => d
  end.

(** A curated dataset: what was uploaded of it, and the failure when nothing was. *)
Definition local_dataset (kb : Dataset) (url : string) : jobp C (list json_dict * list string) :=
  uploaded ← _upload_local_dataset kb url;
  mret (uploaded,
        match uploaded with
        | [] => [dataset_name kb +:+ ": no valid local dataset files found (expected a curated .json/.jsonl file attached to this Knowledge)"]
        | _ => []
        end).

Definition _resolve_dataset (url : string) (id : Json) : jobp C (list json_dict * list string) :=
  let name := match id with JStr id => id | _ => "" end in
  match match id with JStr id => find_row id datasets | _ => None end with
  | None => mret ([], [name +:+ ": dataset not found (it may have been deleted)"])
  | Some kb =>
      let kb_data := default [] (ds_data kb) in
      match dict_lookup "hf_path" kb_data with
      | Some hf_path =>
          if json_truthy hf_path then
            detected ← _detect_hf_dataset_format hf_path;
            let detected := override "field_messages" kb_data (override "type" kb_data detected) in
            mret ([dict_update [("path", hf_path)] detected], [])
          else local_dataset kb url
      | None => local_dataset kb url
      end
  end.

Fixpoint resolve_all (url : string) (ids : list Json) : jobp C (list json_dict * list string) :=
  match ids with
  | [] => mret ([], [])
  | id :: rest =>
      '(ds, fs) ← _resolve_dataset url id;
      '(ds', fs') ← resolve_all url rest;
      mret (ds ++ ds', fs ++ fs')
  end.

Definition dataset_ids (data : json_dict) : Json := default (JList []) (dict_lookup "dataset_ids" data).

Definition _resolve_course_datasets (data : json_dict) (url : string) : jobp C (list json_dict * list string) :=
  ids ← responded (py_iter (dataset_ids data)); resolve_all url ids.

Definition _no_valid_datasets_detail (ids : Json) (failures : list string) : string :=
  if json_truthy ids then "Course has no valid datasets configured: " +:+ join "; " failures
  else "Course has no datasets attached — attach at least one Dataset in the course editor.".

Definition advanced_config (data : json_dict) : option json_dict :=
  as_dict (default (JDict []) (dict_lookup "advanced_config" data)).

Definition course_config (model_id : string) (course : TrainingCourse) (data : json_dict) (ds : list json_dict)
    : option (list (string * CfgVal)) :=
  match advanced_config data with Some a => training_config model_id course a ds | None => None end.

Definition approve_heretic (url : string) (job : TrainingJob) : jobp C (option TrainingJob) :=
  r ← ask (PostHeretic url (tr_model_id job));
  task ← answer 502 (created r);
  remote ← responded (optional_text (dict_lookup "task_id" task));
  set_status (tr_id job) RUNNING remote (Some 0%nat) None.

Definition approve_standard (url : string) (job : TrainingJob) : jobp C (option TrainingJob) :=
  t ← gets jb_courses;
  course ← answer 404 (TrainingCourses.get_course_by_id (tr_course_id job) t);
  let data := default [] (tc_data course) in
  '(ds, _) ← _resolve_course_datasets data url;
  if decide (ds = []) then raise (Http 400)
  else
    config ← responded (course_config (tr_model_id job) course data ds);
    r ← ask (PostJob url config);
    remote_job ← answer 502 (created r);
    let remote := dict_lookup "job_id" remote_job in
    ask (ApproveRemote url (json_str remote));;
    remote ← responded (optional_text remote);
    set_status (tr_id job) QUEUED remote (Some 0%nat) None.

Definition approve_job (id : string) : jobp C (option TrainingJob) :=
  job ← find_training id;
  if negb (waiting (tr_status job)) then raise (Http 400)
  else
    url ← answer 503 (head (LLAMOLOTL_CONTROL_BASE_URLS cfg));
    if decide (tr_course_id job = HERETIC) then approve_heretic url job else approve_standard url job.

Definition reject_job (id : string) : jobp C (option TrainingJob) :=
  job ← find_training id;
  if negb (waiting (tr_status job)) then raise (Http 400)
  else set_status id CANCELLED None None (Some "Rejected by administrator").

Definition delete_job_by_id (id : string) : jobp C bool :=
  find_training id;; delete_job (on_training (λ _, delete_row id)).

(** [status_map.get(remote status, job.status)]; [None] for a key that is no text, when
    it cannot be hashed. *)
Definition mapped_status (m : list (string * JobStatus)) (j : Json) (st : JobStatus) : option JobStatus :=
  match j with
  | JStr k => Some match list_find (λ kv, kv.1 = k) m with Some (_, kv) => kv.2 | None => st end
  | JList _ | JDict _ => None
  | _ => Some st
  end.

Definition HERETIC_STATUS : list (string * JobStatus) :=
  [("running", RUNNING); ("completed", COMPLETED); ("failed", FAILED)].
Definition JOB_STATUS : list (string * JobStatus) :=
  [("pending", QUEUED); ("running", RUNNING); ("completed", COMPLETED); ("failed", FAILED); ("cancelled", CANCELLED)].

(** The answer of a status poll, or 404 or 502; one that is no dict raises later. *)
Definition polled (r : Reply) : jobp C json_dict :=
  match r with
  | Replied code body =>
      if decide (code = 404) then raise (Http 404)
      else if decide (400 ≤ code) then raise (Http 502)
      else match body with
           | None => raise (Http 502)
           | Some (JDict d) => mret d
           | Some _ => raise Uncaught
           end
  | NoReply => raise (Http 502)
  end.

Definition sync_job_status (id : string) : jobp C (option TrainingJob) :=
  job ← find_training id;
  if terminal (tr_status job) then mret (Some job)
  else
    match truthy (tr_llamolotl_job_id job), tr_llamolotl_url_idx job with
    | Some remote, Some idx =>
        url ← answer 503 (LLAMOLOTL_CONTROL_BASE_URLS cfg !! idx);
        let heretic := bool_decide (tr_course_id job = HERETIC) in
        r ← ask (if heretic then GetHeretic url remote else GetRemoteJob url remote);
        body ← polled r;
        st ← responded (mapped_status (if heretic then HERETIC_STATUS else JOB_STATUS)
                          (default (JStr "") (dict_lookup "status" body)) (tr_status job));
        err ← responded (optional_text (dict_lookup "error_message" body));
        set_status id st None None err
    | _, _ => raise (Http 400)
    end.

Definition set_schedule (id : string) (at_ : option Z) : jobp C (option TrainingJob) :=
  write_job (on_training (λ t, TrainingJobs.update_job_scheduled_for t id at_)) (λ w, find_row id (q_training w)).

Definition schedule_job (id : string) (scheduled_for : Z) : jobp C (option TrainingJob) :=
  job ← find_training id;
  if negb (waiting (tr_status job)) then raise (Http 400)
  else
    t ← now;
    if decide (scheduled_for < t) then raise (Http 400) else set_schedule id (Some scheduled_for).

Definition unschedule_job (id : string) : jobp C (option TrainingJob) :=
  job ← find_training id;
  if decide (tr_status job ≠ SCHEDULED) then raise (Http 400) else set_schedule id None.

(** *** The scheduled dispatch *)

Definition fail_job (id why : string) : jobp C unit := set_status id FAILED None None (Some why);; mret tt.

(** [try: m except Exception: ...] *)
Definition tried {A} (m : jobp C A) : jobp C (option A) := λ s,
  match m s with
  | (Ok a, s') => (Ok (Some a), s')
  | (Raise _, s') => (Ok None, s')
  end.

Definition _dispatch_scheduled_job (job : TrainingJob) : jobp C unit :=
  if negb (app_ready cfg) then mret tt
  else
    t ← gets jb_courses;
    match TrainingCourses.get_course_by_id (tr_course_id job) t, head (LLAMOLOTL_CONTROL_BASE_URLS cfg) with
    | None, _ => fail_job (tr_id job) "Training course not found"
    | Some _, None => fail_job (tr_id job) "No Llamolotl nodes configured"
    | Some course, Some url =>
        let data := default [] (tc_data course) in
        resolved ← tried (_resolve_course_datasets data url);
        match resolved with
        | None => fail_job (tr_id job) "Failed to prepare local dataset"
        | Some ([], failures) => fail_job (tr_id job) (_no_valid_datasets_detail (dataset_ids data) failures)
        | Some (ds, _) =>
            config ← responded (course_config (tr_model_id job) course data ds);
            r ← ask (PostJob url config);
            match created r with
            | None =>
                fail_job (tr_id job)
                  match r with
                  | Replied code _ => if decide (code = 200 ∨ code = 201) then "Failed to dispatch to Llamolotl"
                                      else "Llamolotl rejected the job"
                  | NoReply => "Failed to dispatch to Llamolotl"
                  end
            | Some remote_job =>
                let id := dict_lookup "job_id" remote_job in
                ask (ApproveRemote url (json_str id));;
                remote ← responded (optional_text id);
                set_status (tr_id job) RUNNING remote (Some 0%nat) None;; mret tt
            end
        end
    end.

End training.
