(* ===== verification/QueueApi.v ===== *)
(** The job endpoints of [routers/evaluations.py], [routers/curator.py],
    [routers/queue.py], [routers/windows.py] and [routers/benchmarks.py], over the
    [JobSite] of [JobApi], and the requests of all job routers as one handler. *)

From Stdlib Require Import Ascii.
From stdpp Require Import gmap.
From S2P Require Import Prelude Data Accounts AccessControl Session Jobs Queue JobApi.

(** ** Forms and configuration *)

Record QueueCuratorJobForm := mkQueueCuratorJobForm {
  qf_pipeline_id : string;
  qf_pipeline_config : json_dict;
  qf_scheduled_for : option Z;
  qf_priority : string
}.

(** [JobWindowForm]; a slot is its id, if it has one, and its three fields. *)
Record JobWindowForm := mkJobWindowForm {
  wf_id : option string;
  wf_name : string;
  wf_start_at : Z;
  wf_end_at : Z;
  wf_preferred_job_type : string;
  wf_enabled : bool;
  wf_slots : list (option string * string * Z * Z)
}.

Record CuratorConfig := mkCuratorConfig {
  ENABLE_CURATOR_API : option bool;
  CURATOR_URLS : list string;
  CURATOR_API_CONFIGS : json_dict
}.

(** [update_config]: [for url in urls: if url not in configs: configs.pop(url, None)] *)
Definition update_config (f : CuratorConfig) : CuratorConfig :=
  mkCuratorConfig (ENABLE_CURATOR_API f) (CURATOR_URLS f)
    (foldl (λ d url, if has_key url (CURATOR_API_CONFIGS f) then d else filter (λ kv, kv.1 ≠ url) d)
       (CURATOR_API_CONFIGS f) (CURATOR_URLS f)).

(** ** The queue monitor *)

Record QueueItem := mkQueueItem {
  qi_id : string;
  qi_job_type : string;
  qi_priority : string;
  qi_status : JobStatus;
  qi_created_at : Z;
  qi_label : string;
  qi_model_id : option string;
  qi_status_detail : option string
}.

Definition _training_to_item (j : TrainingJob) : QueueItem :=
  mkQueueItem (tr_id j) "training" (tr_priority j) (tr_status j) (tr_created_at j)
    ("Course " +:+ tr_course_id j) (Some (tr_model_id j)) (tr_error_message j).

Definition _eval_to_item (j : EvalJob) : QueueItem :=
  mkQueueItem (ev_id j) (ev_eval_type j) (ev_priority j) (ev_status j) (ev_created_at j)
    (ev_benchmark j) (Some (ev_model_id j)) (ev_error_message j).

Definition _curator_to_item (j : CuratorJob) : QueueItem :=
  mkQueueItem (cu_id j) "curator" (cu_priority j) (cu_status j) (cu_created_at j)
    ("Pipeline " +:+ cu_pipeline_id j) None (cu_error_message j).

Definition _publish_to_item (j : PublishJob) : QueueItem :=
  mkQueueItem (pb_id j) "publish" (pb_priority j) (pb_status j) (pb_created_at j)
    ("Publish " +:+ default (pb_line_id j) (truthy (pb_output_name j))) None
    match truthy (pb_error_message j) with Some e => Some e | None => pb_waiting_reason j end.

(** No row has the fourth status the code asks for, "paused". *)
Definition ACTIVE_STATUSES : list JobStatus := [PENDING; QUEUED; RUNNING].

Definition items_with {C} (w : QWorld C) (st : JobStatus) : list QueueItem :=
  (_training_to_item <$> filter (λ j, tr_status j = st) (q_training w)) ++
  (_eval_to_item <$> filter (λ j, ev_status j = st) (q_eval w)) ++
  (_curator_to_item <$> filter (λ j, cu_status j = st) (q_curator w)) ++
  (_publish_to_item <$> filter (λ j, pb_status j = st) (q_publish w)).

Definition get_queue {C} (w : QWorld C) : list QueueItem :=
  sort_by qi_created_at (ACTIVE_STATUSES ≫= items_with w).

Definition JOB_TYPES : list string := ["training"; "language-eval"; "code-eval"; "curator"; "publish"].

Section endpoints.
Context {C : Type} (cfg : QConfig) (uuid4 : nat → string) (dialect : Dialect).
Context (groups : list Group) (users : list User) (USER_PERMISSIONS : json_dict).
Context (CODE_EVAL_API_URL LANGUAGE_EVAL_API_URL : string).

Implicit Types (user : User) (s : JobSite C).

(** ** Evaluation jobs *)

Definition find_eval (id : string) : jobp C EvalJob := w ← world; answer 404 (find_row id (q_eval w)).

Definition own_eval user (id : string) : jobp C EvalJob :=
  j ← find_eval id;
  if decide (ev_user_id j ≠ us_id user ∧ us_role user ≠ "admin") then raise (Http 401) else mret j.

Definition set_eval_status (id : string) (st : JobStatus) (err : option string) : jobp C (option EvalJob) :=
  write_job (on_eval (λ t, EvalJobs.update_job_status t id st err)) (λ w, find_row id (q_eval w)).

Definition get_eval_jobs user : jobp C (list EvalJob) :=
  w ← world;
  let all := newest_first ev_created_at (q_eval w) in
  mret (if decide (us_role user = "admin") then all else filter (λ j, ev_user_id j = us_id user) all).

Definition create_eval_job user (form : EvalJobForm) : jobp C EvalJob :=
  if may dialect groups USER_PERMISSIONS user "studio.evaluations" then
    n ← fresh;
    job ← write_job (on_eval (λ t, EvalJobs.insert_new_job t (uuid4 n) (us_id user) form))
            (λ w, find_row (uuid4 n) (q_eval w));
    answer 400 job
  else raise (Http 401).

(** The remote run of a job, and the harness it is at. *)
Definition remote_eval (job : EvalJob) : option (string * string) :=
  if decide (ev_status job = RUNNING) then
    if decide (ev_eval_type job = "language-eval")
    then id ← truthy (language_eval_job_id (ev_meta job)); url ← truthy (Some LANGUAGE_EVAL_API_URL); Some (url, id)
    else if decide (ev_eval_type job = "code-eval")
    then id ← truthy (code_eval_job_id (ev_meta job)); url ← truthy (Some CODE_EVAL_API_URL); Some (url, id)
    else None
  else None.

Definition revoke_tokens (id : string) : jobp C unit :=
  modify (λ s, s <| jb_tokens := revoke_eval_tokens_for_job id (jb_tokens s) |>).

Definition cancel_eval_job user (id : string) : jobp C (option EvalJob) :=
  job ← own_eval user id;
  if decide (ev_status job = CANCELLED) then mret (Some job)
  else if negb (cancellable (ev_status job)) then raise (Http 400)
  else
    match remote_eval job with
    | Some (url, remote) => ask (DeleteEval url remote);; mret tt
    | None => mret tt
    end;;
    revoke_tokens id;;
    set_eval_status id CANCELLED None.

Definition delete_eval_job (id : string) : jobp C bool :=
  find_eval id;; delete_job (on_eval (λ _, delete_row id)).

Definition approve_eval_job (id : string) : jobp C (option EvalJob) :=
  job ← find_eval id;
  if negb (waiting (ev_status job)) then raise (Http 400)
  else if decide ((u ← find_row (ev_user_id job) users; truthy (us_api_key u)) = None) then raise (Http 400)
  else set_eval_status id QUEUED None.

Definition reject_eval_job (id : string) : jobp C (option EvalJob) :=
  job ← find_eval id;
  if negb (waiting (ev_status job)) then raise (Http 400)
  else set_eval_status id CANCELLED (Some "Rejected by administrator").

Definition set_eval_schedule (id : string) (at_ : option Z) : jobp C (option EvalJob) :=
  write_job (on_eval (λ t, EvalJobs.update_job_scheduled_for t id at_)) (λ w, find_row id (q_eval w)).

Definition schedule_eval_job (id : string) (scheduled_for : Z) : jobp C (option EvalJob) :=
  job ← find_eval id;
  if negb (waiting (ev_status job)) then raise (Http 400)
  else
    t ← now;
    if decide (scheduled_for < t) then raise (Http 400) else set_eval_schedule id (Some scheduled_for).

Definition unschedule_eval_job (id : string) : jobp C (option EvalJob) :=
  job ← find_eval id;
  if decide (ev_status job ≠ SCHEDULED) then raise (Http 400) else set_eval_schedule id None.

(** ** Curation *)

Definition VALID_JOB_PRIORITIES : list string := ["normal"; "high"; "run_now"].
Definition WINDOW_BYPASSING_PRIORITIES : list string := ["run_now"].

(** A commit whose failure is raised. *)
Definition commit : jobp C unit := ok ← next_commit; if ok : bool then mret tt else raise Uncaught.

Definition on_world (f : QWorld C → QWorld C) : jobp C unit := modify (λ s, s <| jb_world := f (jb_world s) |>).

Definition queue_curator_job user (form : QueueCuratorJobForm) : jobp C (option CuratorJob) :=
  let priority := strip (default "normal" (truthy (Some (qf_priority form)))) in
  if decide (priority ∉ VALID_JOB_PRIORITIES) then raise (Http 400)
  else if decide (priority ∈ WINDOW_BYPASSING_PRIORITIES ∧ us_role user ≠ "admin") then raise (Http 403)
  else
    n ← fresh;
    commit;;
    on_world (on_curator (λ t, CuratorJobs.insert_new_job t (uuid4 n) (us_id user) (qf_pipeline_id form) priority
                                (qf_scheduled_for form)));;
    write_job (on_curator (λ t, CuratorJobs.update_job_meta t (uuid4 n) (bool_decide (qf_pipeline_config form ≠ []))))
      (λ w, find_row (uuid4 n) (q_curator w));;
    w ← world; mret (find_row (uuid4 n) (q_curator w)).

Definition get_curator_url (url_idx : option nat) : jobp C string :=
  match CURATOR_BASE_URLS cfg with
  | [] => raise (Http 500)
  | urls => url ← answer 400 (urls !! default 0%nat url_idx); mret (rstrip_slash url)
  end.

(** [send_get_request], [send_post_request], [send_delete_request] with
    [raise_on_error]. *)
Definition send_request (verb url : string) : jobp C Json :=
  r ← ask (CuratorCall url verb);
  match r with
  | Replied code (Some body) => if decide (400 ≤ code) then raise (Http code) else mret body
  | _ => raise (Http 500)
  end.

Definition proxy (verb path : string) : jobp C Json := url ← get_curator_url None; send_request verb (url +:+ path).

Definition require_curator_window : jobp C unit :=
  w ← world;
  match JobWindows.get_active_window (q_now w) (Some (q_windows w, q_slots w)) with
  | Some ws => if decide (Exists (λ sl, js_job_type sl = "curator") (ws_slots ws)) then mret tt else raise (Http 409)
  | None => raise (Http 409)
  end.

(** [Depends(get_admin_user)] *)
Definition as_admin {A} user (m : jobp C A) : jobp C A :=
  if decide (us_role user = "admin") then m else raise (Http 401).

Inductive CuratorRoute :=
| ListTextCategories
| ListCustomStages
| GetCustomStage (id : string)
| CreateCustomStage
| DeleteCustomStage (id : string)
| ListCategoryStages (category : string)
| GetStageDetail (category id : string)
| CreateCuratorJob
| ListCuratorJobs
| GetCuratorJob (id : string)
| GetCuratorJobLogs (id : string)
| CancelCuratorJob (id : string)
| ScheduleCuratorJob (id : string)
| UnscheduleCuratorJob (id : string)
| ApproveCuratorJob (id : string)
| CancelCuratorJobPost (id : string)
| ListData.

Definition curator_jobs (id : string) : string := "/api/jobs/" +:+ id.

(** The proxies of [routers/curator.py]. *)
Definition curator_proxy user (r : CuratorRoute) : jobp C Json :=
  match r with
  | ListTextCategories => proxy "GET" "/api/text"
  | ListCustomStages => proxy "GET" "/api/text/custom/stages"
  | GetCustomStage id => proxy "GET" ("/api/text/custom/stages/" +:+ id)
  | CreateCustomStage => as_admin user (proxy "POST" "/api/text/custom/stages")
  | DeleteCustomStage id => as_admin user (proxy "DELETE" ("/api/text/custom/stages/" +:+ id))
  | ListCategoryStages category => proxy "GET" ("/api/text/" +:+ category +:+ "/stages")
  | GetStageDetail category id => proxy "GET" ("/api/text/" +:+ category +:+ "/stages/" +:+ id)
  | CreateCuratorJob => as_admin user (proxy "POST" "/api/jobs")
  | ListCuratorJobs => proxy "GET" "/api/jobs"
  | GetCuratorJob id => proxy "GET" (curator_jobs id)
  | GetCuratorJobLogs id => proxy "GET" (curator_jobs id +:+ "/logs")
  | CancelCuratorJob id => proxy "DELETE" (curator_jobs id)
  | ScheduleCuratorJob id => as_admin user (proxy "POST" (curator_jobs id +:+ "/schedule"))
  | UnscheduleCuratorJob id => as_admin user (proxy "POST" (curator_jobs id +:+ "/unschedule"))
  | ApproveCuratorJob id => as_admin user (require_curator_window;; proxy "POST" (curator_jobs id +:+ "/approve"))
  | CancelCuratorJobPost id => proxy "POST" (curator_jobs id +:+ "/cancel")
  | ListData => proxy "GET" "/api/data"
  end.

(** ** The queue *)

(** [_get_job_and_table]: the status and the priority of the job. *)
Definition _get_job_and_table (job_type id : string) : jobp C (JobStatus * string) :=
  w ← world;
  if decide (job_type = "training")
  then j ← answer 404 (find_row id (q_training w)); mret (tr_status j, tr_priority j)
  else if decide (job_type ∈ ["language-eval"; "code-eval"])
  then j ← answer 404 (find_row id (q_eval w)); mret (ev_status j, ev_priority j)
  else if decide (job_type = "curator")
  then j ← answer 404 (find_row id (q_curator w)); mret (cu_status j, cu_priority j)
  else if decide (job_type = "publish")
  then j ← answer 404 (find_row id (q_publish w)); mret (pb_status j, pb_priority j)
  else raise (Http 400).

(** The columns both updates write: the priority, and the status when one is given. *)
Definition priority_training (t : Z) (prio : string) (st : option JobStatus) (j : TrainingJob) : TrainingJob :=
  Eval simpl in
  j <| tr_priority := prio |> <| tr_status := default (tr_status j) st |> <| tr_updated_at := t |>.
Definition priority_eval (t : Z) (prio : string) (st : option JobStatus) (j : EvalJob) : EvalJob :=
  Eval simpl in
  j <| ev_priority := prio |> <| ev_status := default (ev_status j) st |> <| ev_updated_at := t |>.
Definition priority_curator (t : Z) (prio : string) (st : option JobStatus) (j : CuratorJob) : CuratorJob :=
  Eval simpl in
  j <| cu_priority := prio |> <| cu_status := default (cu_status j) st |> <| cu_updated_at := t |>.
Definition priority_publish (t : Z) (prio : string) (st : option JobStatus) (j : PublishJob) : PublishJob :=
  Eval simpl in
  j <| pb_priority := prio |> <| pb_status := default (pb_status j) st |> <| pb_updated_at := t |>.

Definition update_priority (job_type id prio : string) (st : option JobStatus) (w : QWorld C) : QWorld C :=
  if decide (job_type = "training") then on_training (λ t, update_row id (priority_training t prio st)) w
  else if decide (job_type ∈ ["language-eval"; "code-eval"]) then on_eval (λ t, update_row id (priority_eval t prio st)) w
  else if decide (job_type = "curator") then on_curator (λ t, update_row id (priority_curator t prio st)) w
  else if decide (job_type = "publish") then on_publish (λ t, update_row id (priority_publish t prio st)) w
  else w.

Definition _update_priority (job_type id prio : string) : jobp C unit :=
  commit;; on_world (update_priority job_type id prio None).

Definition _update_status_and_priority (job_type id prio : string) (st : JobStatus) : jobp C unit :=
  commit;; on_world (update_priority job_type id prio (Some st)).

Definition run_now (job_type id : string) : jobp C unit :=
  '(st, _) ← _get_job_and_table job_type id;
  if terminal st then raise (Http 400) else _update_status_and_priority job_type id "run_now" QUEUED.

Definition promote (job_type id : string) : jobp C unit :=
  '(st, prio) ← _get_job_and_table job_type id;
  if terminal st then raise (Http 400)
  else if decide (prio = "run_now") then raise (Http 400)
  else _update_priority job_type id "high".

(** ** Windows *)

Definition window_tables (w : QWorld C) : JobWindows.tables := (q_windows w, q_slots w).

Definition set_tables (t : JobWindows.tables) : jobp C unit :=
  on_world (λ w, w <| q_windows := t.1 |> <| q_slots := t.2 |>).

(** [slot.id or uuid4()], slot after slot. *)
Fixpoint with_ids (l : list (option string * string * Z * Z)) : jobp C (list (string * string * Z * Z)) :=
  match l with
  | [] => mret []
  | (id, job_type, max_concurrent, min_remaining) :: l' =>
      id ← match truthy id with Some id => mret id | None => n ← fresh; mret (uuid4 n) end;
      rest ← with_ids l';
      mret ((id, job_type, max_concurrent, min_remaining) :: rest)
  end.

Definition find_window (id : string) : jobp C JobWindowWithSlots :=
  w ← world; answer 404 (JobWindows.get_window_by_id (q_now w) id (q_windows w) (q_slots w)).

Definition list_windows : jobp C (list JobWindowWithSlots) :=
  w ← world; mret (JobWindows.get_all_windows (q_now w) (q_windows w) (q_slots w)).

(** The key of a window is its id; a second one under it fails the commit. *)
Definition create_window (f : JobWindowForm) : jobp C JobWindowWithSlots :=
  if decide (wf_end_at f ≤ wf_start_at f) then raise (Http 400)
  else
    id ← match truthy (wf_id f) with Some id => mret id | None => n ← fresh; mret (uuid4 n) end;
    slots ← with_ids (wf_slots f);
    ok ← next_commit;
    w ← world;
    let row := mkJobWindow id (wf_name f) (wf_start_at f) (wf_end_at f) (wf_preferred_job_type f) (wf_enabled f) in
    let '(created, t) := JobWindows.insert_new_window (ok && bool_decide (id ∉ keys (q_windows w))) (q_now w) row slots
                           (window_tables w) in
    set_tables t;; answer 500 created.

Definition update_window (id : string) (f : JobWindowForm) : jobp C JobWindowWithSlots :=
  find_window id;;
  if decide (wf_end_at f ≤ wf_start_at f) then raise (Http 400)
  else
    slots ← with_ids (wf_slots f);
    ok ← next_commit;
    w ← world;
    let u := JobWindows.mkWindowUpdate (Some (wf_name f)) (Some (wf_start_at f)) (Some (wf_end_at f))
               (Some (wf_preferred_job_type f)) (Some (wf_enabled f)) (Some slots) in
    let '(updated, t) := JobWindows.update_window ok (q_now w) id u (window_tables w) in
    set_tables t;; answer 500 updated.

Definition delete_window (id : string) : jobp C unit :=
  ws ← find_window id;
  t ← now;
  if decide (jw_start_at (ws_window ws) ≤ t ∧ t ≤ jw_end_at (ws_window ws) ∧ jw_enabled (ws_window ws) = true)
  then raise (Http 409)
  else
    ok ← next_commit;
    w ← world;
    let '(success, t) := JobWindows.delete_window ok id (window_tables w) in
    set_tables t;; if success : bool then mret tt else raise (Http 500).

(** ** Benchmark durations *)

Definition list_benchmarks : jobp C (list BenchmarkConfig) := w ← world; mret (BenchmarkConfigs.get_all (q_benchmarks w)).

Definition update_benchmark (id : string) (minutes : Z) (notes : option string) : jobp C BenchmarkConfig :=
  c ← write_job (λ w, w <| q_benchmarks := BenchmarkConfigs.update (q_now w) id minutes notes (q_benchmarks w) |>)
        (λ w, BenchmarkConfigs.get_by_id id (q_benchmarks w));
  answer 404 c.

End endpoints.

(** ** A request by a user *)

Inductive JobCall :=
| CreateCourse (f : TrainingCourseForm)
| UpdateCourse (id : string) (f : TrainingCourseForm)
| DeleteCourse (id : string)
| CreateTraining (course_id model_id : string) (scheduled_for : option Z)
| CancelTraining (id : string)
| ApproveTraining (id : string)
| RejectTraining (id : string)
| DeleteTraining (id : string)
| SyncTraining (id : string)
| ScheduleTraining (id : string) (scheduled_for : Z)
| UnscheduleTraining (id : string)
| CreateEval (f : EvalJobForm)
| CancelEval (id : string)
| DeleteEvalJob (id : string)
| ApproveEval (id : string)
| RejectEval (id : string)
| ScheduleEval (id : string) (scheduled_for : Z)
| UnscheduleEval (id : string)
| QueueCurator (f : QueueCuratorJobForm)
| CuratorProxy (r : CuratorRoute)
| RunNow (job_type id : string)
| Promote (job_type id : string)
| CreateWindow (f : JobWindowForm)
| UpdateWindow (id : string) (f : JobWindowForm)
| DeleteWindow (id : string)
| UpdateBenchmark (id : string) (minutes : Z) (notes : option string).

(** What the endpoints depend on. *)
Record JobEnv := mkJobEnv {
  je_cfg : QConfig;
  je_uuid4 : nat → string;
  je_dialect : Dialect;
  je_groups : list Group;
  je_users : list User;
  je_permissions : json_dict;
  je_datasets : list Dataset;
  je_dataset_files : string → list LocalFile;
  je_code_eval_url : string;
  je_language_eval_url : string
}.

Definition handle_job {C} (e : JobEnv) (user : User) (c : JobCall) : jobp C unit :=
  let cfg := je_cfg e in
  match c with
  | CreateCourse f => void (create_course (je_uuid4 e) (je_dialect e) (je_groups e) (je_permissions e) user f)
  | UpdateCourse id f => void (update_course_by_id user id f)
  | DeleteCourse id => void (delete_course_by_id user id)
  | CreateTraining course_id model_id at_ =>
      void (create_job (je_uuid4 e) (je_dialect e) (je_groups e) user course_id model_id at_)
  | CancelTraining id => void (cancel_job cfg user id)
  | ApproveTraining id => as_admin user (void (approve_job cfg (je_datasets e) (je_dataset_files e) id))
  | RejectTraining id => as_admin user (void (reject_job id))
  | DeleteTraining id => as_admin user (void (delete_job_by_id id))
  | SyncTraining id => as_admin user (void (sync_job_status cfg id))
  | ScheduleTraining id at_ => as_admin user (void (schedule_job id at_))
  | UnscheduleTraining id => as_admin user (void (unschedule_job id))
  | CreateEval f => void (create_eval_job (je_uuid4 e) (je_dialect e) (je_groups e) (je_permissions e) user f)
  | CancelEval id => void (cancel_eval_job (je_code_eval_url e) (je_language_eval_url e) user id)
  | DeleteEvalJob id => as_admin user (void (delete_eval_job id))
  | ApproveEval id => as_admin user (void (approve_eval_job (je_users e) id))
  | RejectEval id => as_admin user (void (reject_eval_job id))
  | ScheduleEval id at_ => as_admin user (void (schedule_eval_job id at_))
  | UnscheduleEval id => as_admin user (void (unschedule_eval_job id))
  | QueueCurator f => void (queue_curator_job (je_uuid4 e) user f)
  | CuratorProxy r => void (curator_proxy cfg user r)
  | RunNow job_type id => as_admin user (run_now job_type id)
  | Promote job_type id => as_admin user (promote job_type id)
  | CreateWindow f => as_admin user (void (create_window (je_uuid4 e) f))
  | UpdateWindow id f => as_admin user (void (update_window (je_uuid4 e) id f))
  | DeleteWindow id => as_admin user (delete_window id)
  | UpdateBenchmark id minutes notes => as_admin user (void (update_benchmark id minutes notes))
  end.

From stdpp Require Import relations.
From S2P Require Import Prelude.

(** The life of a job as its endpoints may change it, abstractly: rows are added
    waiting, changed while they are not settled, and removed; and the endpoints of
    [JobApi] and [QueueApi] refine it. *)
Module JobLifecycle.

(** ** The abstract table *)

Class JobOwner (A : Type) := job_owner : A → string.
#[export] Instance TrainingJob_owner : JobOwner TrainingJob := tr_user_id.
#[export] Instance EvalJob_owner : JobOwner EvalJob := ev_user_id.
#[export] Instance CuratorJob_owner : JobOwner CuratorJob := cu_user_id.
#[export] Instance PublishJob_owner : JobOwner PublishJob := pb_user_id.

Section lifecycle.
Context {A : Type} `{!Keyed A, !JobRow A, !JobOwner A}.
(** Who asks: whether as an administrator, whether to remove, and who. *)
Context (admin remove : bool) (u : string).
Implicit Types (t : list A).

Definition keeps_identity (f : A → A) : Prop := ∀ j, row_key (f j) = row_key j ∧ job_owner (f j) = job_owner j.

(** What others than an administrator may do to a job: cancel it, or leave its status. *)
Definition own_change (f : A → A) (j : A) : Prop :=
  job_owner j = u ∧ (job_status (f j) = CANCELLED ∨ job_status (f j) = job_status j).

Inductive lifecycle : relation (list A) :=
| job_added t j :
    job_owner j = u → waiting (job_status j) = true → row_key j ∉ keys t → lifecycle t (t ++ [j])
| job_changed t id j f :
    find_row id t = Some j → terminal (job_status j) = false → keeps_identity f →
    admin = true ∨ own_change f j →
    lifecycle t (update_row id f t)
| job_removed t id :
    admin = true → remove = true → lifecycle t (delete_row id t).

Lemma identity_key f : keeps_identity f → keeps_key f.
Proof. intros Hf j. apply Hf. Qed.

Lemma lifecycle_keys t t' : rtc lifecycle t t' → NoDup (keys t) → NoDup (keys t').
Proof.
  induction 1 as [|t t1 t' Hstep _ IH]; [done|]. intros Hnd. apply IH. clear IH.
  destruct Hstep as [t j _ _ Hnew|t id j f _ _ Hf _|t id _ _].
  - unfold keys. rewrite fmap_app. apply NoDup_app. split_and!; [done| |apply NoDup_singleton].
    intros k Hk ->%list_elem_of_singleton. done.
  - rewrite keys_update_row; [done|by apply identity_key].
  - by eapply (keys_selected (λ r, row_key r ≠ id)).
Qed.

(** A settled job stays as it is. *)
Lemma lifecycle_settled t t' j :
  remove = false → rtc lifecycle t t' → NoDup (keys t) → j ∈ t → terminal (job_status j) = true → j ∈ t'.
Proof.
  intros Hrm Hsteps. induction Hsteps as [|t t1 t' Hstep _ IH]; [done|]. intros Hnd Hj Hst.
  apply IH; [by eapply lifecycle_keys; [eapply rtc_once|]| |done].
  destruct Hstep as [t j' _ _ _|t id j' f Hfind Hopen Hf _|t id _ Hr]; [set_solver| |congruence].
  apply elem_of_update_row; [done|by apply identity_key|]. left. split; [done|]. intros <-.
  rewrite (find_row_elem t j) in Hfind by done. congruence.
Qed.

(** Without being an administrator: what is another's stays, and what is one's own is
    waiting, cancelled or in the state it was in. *)
Lemma lifecycle_others t t' :
  admin = false → rtc lifecycle t t' → NoDup (keys t) →
  ∀ j, job_owner j ≠ u → j ∈ t' ↔ j ∈ t.
Proof.
  intros Hadmin. induction 1 as [|t t1 t' Hstep Hrest IH]; [done|]. intros Hnd j Hj.
  rewrite IH by (done || by eapply lifecycle_keys; [eapply rtc_once|]).
  destruct Hstep as [t j' Hu _ _|t id j' f Hfind _ Hf [?|[Hu _]]|t id Ha _]; [|congruence| |congruence].
  - rewrite elem_of_app, list_elem_of_singleton. split; [intros [?| ->]|]; [done|by destruct Hj|by left].
  - rewrite elem_of_update_row by (done || by apply identity_key). apply find_row_Some in Hfind as [Hin Hid].
    split.
    + intros [[? _]|(r & Hr & ->)]; [done|]. apply find_row_Some in Hr as [Hr Hrid].
      destruct (Hf r) as [_ Ho]. rewrite Ho in Hj.
      assert (find_row (row_key r) t = find_row (row_key j') t) as He by congruence.
      rewrite !find_row_elem in He by done. congruence.
    + intros Hjt. left. split; [done|]. intros He.
      assert (find_row (row_key j) t = find_row (row_key j') t) as He' by congruence.
      rewrite !find_row_elem in He' by done. congruence.
Qed.

Lemma lifecycle_own t t' :
  admin = false → rtc lifecycle t t' → NoDup (keys t) →
  ∀ j', j' ∈ t' → job_owner j' = u →
  waiting (job_status j') = true ∨ job_status j' = CANCELLED ∨
  ∃ j, j ∈ t ∧ row_key j = row_key j' ∧ job_status j = job_status j'.
Proof.
  intros Hadmin. induction 1 as [t|t t1 t' Hstep Hrest IH]; [intros; right; right; eauto|]. intros Hnd j' Hj' Hu.
  destruct (IH (lifecycle_keys _ _ (rtc_once _ _ Hstep) Hnd) j' Hj' Hu) as [?|[?|(j1 & Hj1 & Hk & Hs)]]; [auto..|].
  destruct Hstep as [t j _ Hw _|t id j f Hfind _ Hf [?|[_ Hst]]|t id Ha _]; [|congruence| |congruence].
  - apply elem_of_app in Hj1 as [Hj1| ->%list_elem_of_singleton]; [right; right; eauto|].
    left. by rewrite <- Hs.
  - apply elem_of_update_row in Hj1; [|done|by apply identity_key].
    destruct Hj1 as [[Hj1 _]|(r & Hr & ->)]; [right; right; eauto|].
    assert (r = j) as -> by congruence. destruct (Hf j) as [Hkj _].
    destruct Hst as [Hc|Hsame]; [right; left; congruence|right; right].
    exists j. apply find_row_Some in Hfind as [Hin _]. split_and!; [done|congruence..].
Qed.
End lifecycle.

End JobLifecycle.
