(* ===== verification/JobApiFacts.v ===== *)
(** The job endpoints refine the abstract life of a job: what each of them does to the
    four tables is a sequence of the steps of [JobLifecycle], made in the caller's name. *)

From stdpp Require Import gmap relations.
From S2P Require Import Prelude Data Accounts AccessControl Session Jobs Queue JobApi QueueApi.
Import JobLifecycle.

Section refinement.
Context {C : Type} (uuid4 : nat → string) `{!Inj (=) (=) uuid4}.
Context (admin remove : bool) (u : string).
Implicit Types (w : QWorld C) (s : JobSite C).

#[local] Notation lifecycle := (lifecycle admin remove u).

(** ** The relations *)

(** The same tables; the clock may have moved. *)
Definition same w w' : Prop :=
  q_training w' = q_training w ∧ q_eval w' = q_eval w ∧ q_curator w' = q_curator w ∧ q_publish w' = q_publish w ∧
  q_windows w' = q_windows w ∧ q_slots w' = q_slots w ∧ q_benchmarks w' = q_benchmarks w.

Record tables_step w w' : Prop := {
  step_training : rtc lifecycle (q_training w) (q_training w');
  step_eval : rtc lifecycle (q_eval w) (q_eval w');
  step_curator : rtc lifecycle (q_curator w) (q_curator w');
  step_publish : rtc lifecycle (q_publish w) (q_publish w');
  step_windows : admin = false →
    q_windows w' = q_windows w ∧ q_slots w' = q_slots w ∧ q_benchmarks w' = q_benchmarks w
}.

Lemma same_step w w' : same w w' → tables_step w w'.
Proof. intros (Ht & He & Hc & Hp & ? & ? & ?). split; try done; by rewrite ?Ht, ?He, ?Hc, ?Hp. Qed.

(** No other writer comes in between, and the identifiers to come are unused. *)
Record calm s : Prop := {
  calm_answers : Forall (λ a, ∀ w, an_meanwhile a w = w) (jb_answers s);
  calm_fresh n : (jb_minted s ≤ n)%nat →
    uuid4 n ∉ keys (q_training (jb_world s)) ∧ uuid4 n ∉ keys (q_eval (jb_world s)) ∧
    uuid4 n ∉ keys (q_curator (jb_world s))
}.

Definition quiet s s' : Prop := calm s → calm s' ∧ same (jb_world s) (jb_world s').
Definition refines s s' : Prop := calm s → calm s' ∧ tables_step (jb_world s) (jb_world s').

#[export] Instance quiet_preorder : PreOrder quiet.
Proof.
  split; [intros s Hs; by repeat split; try apply Hs|].
  intros s1 s2 s3 H12 H23 H1. destruct (H12 H1) as [H2 Ha], (H23 H2) as [H3 Hb]. split; [done|].
  unfold same in *. destruct_and!. split_and!; congruence.
Qed.

#[export] Instance refines_preorder : PreOrder refines.
Proof.
  split; [intros s Hs; split; [done|]; by apply same_step|].
  intros s1 s2 s3 H12 H23 H1. destruct (H12 H1) as [H2 [T1 E1 C1 P1 W1]], (H23 H2) as [H3 [T2 E2 C2 P2 W2]].
  split; [done|]. split; [by etransitivity..|]. intros Ha. destruct (W1 Ha) as (? & ? & ?), (W2 Ha) as (? & ? & ?).
  split_and!; congruence.
Qed.

Lemma quiet_refines s s' : quiet s s' → refines s s'.
Proof. intros Hq Hs. destruct (Hq Hs). split; [done|by apply same_step]. Qed.

(** ** Quiet programs *)

Lemma calm_same s s' :
  calm s → jb_answers s' = jb_answers s → (jb_minted s ≤ jb_minted s')%nat → same (jb_world s) (jb_world s') → calm s'.
Proof.
  intros [Ha Hf] Heq Hm (Ht & He & Hc & _). split; [by rewrite Heq|]. intros n Hn.
  rewrite Ht, He, Hc. apply Hf. lia.
Qed.

Lemma quiet_same s s' :
  jb_answers s' = jb_answers s → (jb_minted s ≤ jb_minted s')%nat → same (jb_world s) (jb_world s') → quiet s s'.
Proof. intros Ha Hm Hw Hs. split; [by eapply calm_same|done]. Qed.

Lemma same_refl w : same w w.
Proof. by repeat split. Qed.
#[local] Hint Resolve same_refl : quiet.

Lemma job_quiet_commit : preserves quiet (next_commit : jobp C bool).
Proof. intros s. unfold next_commit, state_of. destruct (jb_commits s); apply quiet_same; auto with quiet. Qed.

Lemma job_quiet_fresh : preserves quiet (fresh : jobp C nat).
Proof. intros s. apply quiet_same; [done|simpl; lia|apply same_refl]. Qed.

Lemma quiet_ask c : preserves quiet (ask c : jobp C Reply).
Proof.
  intros s Hs. unfold ask, state_of. cbn. pose proof Hs as [Ha Hf].
  destruct (jb_answers s) as [|a rest] eqn:Heq.
  - split; [|apply same_refl]. by eapply calm_same; [exact Hs|..].
  - apply Forall_cons in Ha as [Ha Hrest]. simpl. rewrite Ha.
    assert (same (jb_world s) ((jb_world s) <| q_now := q_now (jb_world s) + Z.max 0 (an_seconds a) |>)) as Hsame
      by by repeat split.
    split; [|exact Hsame]. split; [exact Hrest|exact Hf].
Qed.

Lemma job_quiet_modify f :
  (∀ s, jb_answers (f s) = jb_answers s ∧ jb_minted (f s) = jb_minted s ∧ jb_world (f s) = jb_world s) →
  preserves quiet (modify f : jobp C unit).
Proof.
  intros Hf s. destruct (Hf s) as (Ha & Hm & Hw). unfold state_of. simpl.
  apply quiet_same; [done|lia|]. rewrite Hw. apply same_refl.
Qed.

Lemma job_quiet_answer {A} status (o : option A) : preserves quiet (answer status o : jobp C A).
Proof. destruct o; [apply preserves_ret|apply preserves_raise]; apply _. Qed.
Lemma job_quiet_responded {A} (o : option A) : preserves quiet (responded o : jobp C A).
Proof. destruct o; [apply preserves_ret|apply preserves_raise]; apply _. Qed.

#[local] Hint Resolve job_quiet_commit job_quiet_fresh quiet_ask job_quiet_answer job_quiet_responded : quiet.
Ltac quiet_auto := eauto with quiet; repeat (preserves_step; eauto with quiet).

Lemma quiet_courses {A} f (read : list TrainingCourse → A) failed :
  preserves quiet (TrainingCourses.write_courses f read failed : jobp C A).
Proof. unfold TrainingCourses.write_courses. quiet_auto. by apply job_quiet_modify. Qed.

Lemma quiet_tokens id : preserves quiet (revoke_tokens id : jobp C unit).
Proof. by apply job_quiet_modify. Qed.
#[local] Hint Resolve quiet_courses quiet_tokens : quiet.

(** ** Writes *)

(** Going on after a quiet program, with the tables it left as they were. *)
Lemma quiet_then {A B} (m : jobp C A) (k : A → jobp C B) s :
  preserves quiet m →
  (∀ a s', calm s' → same (jb_world s) (jb_world s') → refines s' (state_of (k a) s')) →
  refines s (state_of (m ≫= k) s).
Proof.
  intros Hm Hk Hs. unfold state_of. rewrite run_bind. destruct (Hm s Hs) as [Hc Hw].
  unfold state_of in Hc, Hw. destruct (m s) as [[a|e] s'] eqn:Hms; simpl in *.
  - destruct (Hk a s' Hc Hw Hc) as [Hc' Hstep]. unfold state_of in *. split; [done|].
    destruct (quiet_refines s s' (λ _, conj Hc Hw) Hs) as [_ Hq].
    destruct Hq as [T1 E1 C1 P1 W1], Hstep as [T2 E2 C2 P2 W2]. split; [by etransitivity..|].
    intros Ha. destruct (W1 Ha) as (? & ? & ?), (W2 Ha) as (? & ? & ?). split_and!; congruence.
  - split; [done|]. by apply same_step.
Qed.

Lemma quiet_at {A} (m : jobp C A) s : preserves quiet m → refines s (state_of m s).
Proof. intros Hm. apply quiet_refines, Hm. Qed.

(** A write of the world, as it is after a commit. *)
Definition may_apply (f : QWorld C → QWorld C) s : Prop := refines s (s <| jb_world := f (jb_world s) |>).

Lemma allowed_commits f s :
  may_apply f s → ∀ cs, refines s (s <| jb_commits := cs |> <| jb_world := f (jb_world s) |>).
Proof.
  intros Hf cs Hs. destruct (Hf Hs) as [[Ha Hfr] Hstep]. split; [split; [exact Ha|exact Hfr]|exact Hstep].
Qed.

Lemma write_job_refines {A} f (read : QWorld C → option A) s :
  may_apply f s → refines s (state_of (write_job f read) s).
Proof.
  intros Hf. unfold write_job, state_of. rewrite run_bind. unfold next_commit.
  destruct (jb_commits s) as [|[] cs] eqn:Hc; simpl.
  - exact Hf.
  - apply (allowed_commits f s Hf cs).
  - intros Hs. split; [|by apply same_step]. by eapply calm_same; [exact Hs|..].
Qed.

Lemma delete_job_refines f s : may_apply f s → refines s (state_of (delete_job f) s).
Proof.
  intros Hf. unfold delete_job, state_of. rewrite run_bind. unfold next_commit.
  destruct (jb_commits s) as [|[] cs] eqn:Hc; simpl.
  - exact Hf.
  - apply (allowed_commits f s Hf cs).
  - intros Hs. split; [|by apply same_step]. by eapply calm_same; [exact Hs|..].
Qed.

(** ** What may be written *)

Lemma fresh_then {B} (k : nat → jobp C B) s :
  (∀ n s', calm s' → same (jb_world s) (jb_world s') →
     uuid4 n ∉ keys (q_training (jb_world s')) ∧ uuid4 n ∉ keys (q_eval (jb_world s')) ∧
       uuid4 n ∉ keys (q_curator (jb_world s')) →
     (n < jb_minted s')%nat → refines s' (state_of (k n) s')) →
  refines s (state_of (n ← fresh; k n) s).
Proof.
  intros Hk Hs. pose proof (job_quiet_fresh s Hs) as [Hc Hw]. unfold state_of, fresh in *. simpl in Hc, Hw.
  rewrite run_bind. pose proof Hs as [_ Hf].
  destruct (Hk (jb_minted s) _ Hc Hw) as [Hc' Hstep];
    [by apply Hf|simpl; lia|done|]. by split.
Qed.

Section write.
Context {A : Type} `{!Keyed A, !JobRow A, !JobOwner A}.
Implicit Types (t : list A).

Definition may_change (f : A → A) (j : A) : Prop :=
  terminal (job_status j) = false ∧ keeps_identity f ∧ (admin = true ∨ own_change u f j).

Lemma change_step t id f j :
  find_row id t = Some j → may_change f j → rtc lifecycle t (update_row id f t) ∧ keys (update_row id f t) = keys t.
Proof.
  intros Hj (Ht & Hf & Hwho). split; [|by apply keys_update_row, identity_key].
  by apply rtc_once, job_changed with j.
Qed.

Lemma removed_keys id t k : k ∉ keys t → k ∉ keys (delete_row id t).
Proof. intros Hk (r & -> & [_ Hr]%list_elem_of_filter)%list_elem_of_fmap. by apply Hk, list_elem_of_fmap_2. Qed.

Lemma added_keys t j k : k ∉ keys t → k ≠ row_key j → k ∉ keys (t ++ [j]).
Proof. intros Hk Hne. unfold keys. rewrite fmap_app, elem_of_app. by intros [?|?%list_elem_of_singleton]. Qed.
End write.

(** A write that takes each table by steps and makes no key of an identifier to come. *)
Lemma allowed_step f s :
  (calm s → tables_step (jb_world s) (f (jb_world s))) →
  (∀ n, (jb_minted s ≤ n)%nat →
    (uuid4 n ∉ keys (q_training (jb_world s)) → uuid4 n ∉ keys (q_training (f (jb_world s)))) ∧
    (uuid4 n ∉ keys (q_eval (jb_world s)) → uuid4 n ∉ keys (q_eval (f (jb_world s)))) ∧
    (uuid4 n ∉ keys (q_curator (jb_world s)) → uuid4 n ∉ keys (q_curator (f (jb_world s))))) →
  may_apply f s.
Proof.
  intros Hstep Hkeys Hs. split; [|by apply Hstep]. destruct Hs as [Ha Hf]. split; [exact Ha|].
  intros n Hn. destruct (Hkeys n Hn) as (? & ? & ?), (Hf n Hn) as (? & ? & ?). simpl. auto.
Qed.

Lemma allowed_training f s :
  rtc lifecycle (q_training (jb_world s)) (f (q_now (jb_world s)) (q_training (jb_world s))) →
  (∀ n, (jb_minted s ≤ n)%nat → uuid4 n ∉ keys (q_training (jb_world s)) →
     uuid4 n ∉ keys (f (q_now (jb_world s)) (q_training (jb_world s)))) →
  may_apply (on_training f) s.
Proof. intros Hf Hk. apply allowed_step; [by split|]. intros n Hn. split_and!; simpl; auto. Qed.

Lemma allowed_eval f s :
  rtc lifecycle (q_eval (jb_world s)) (f (q_now (jb_world s)) (q_eval (jb_world s))) →
  (∀ n, (jb_minted s ≤ n)%nat → uuid4 n ∉ keys (q_eval (jb_world s)) →
     uuid4 n ∉ keys (f (q_now (jb_world s)) (q_eval (jb_world s)))) →
  may_apply (on_eval f) s.
Proof. intros Hf Hk. apply allowed_step; [by split|]. intros n Hn. split_and!; simpl; auto. Qed.

Lemma allowed_curator f s :
  rtc lifecycle (q_curator (jb_world s)) (f (q_now (jb_world s)) (q_curator (jb_world s))) →
  (∀ n, (jb_minted s ≤ n)%nat → uuid4 n ∉ keys (q_curator (jb_world s)) →
     uuid4 n ∉ keys (f (q_now (jb_world s)) (q_curator (jb_world s)))) →
  may_apply (on_curator f) s.
Proof. intros Hf Hk. apply allowed_step; [by split|]. intros n Hn. split_and!; simpl; auto. Qed.

Lemma allowed_publish f s :
  rtc lifecycle (q_publish (jb_world s)) (f (q_now (jb_world s)) (q_publish (jb_world s))) →
  may_apply (on_publish f) s.
Proof. intros Hf. apply allowed_step; [by split|]. intros n Hn. split_and!; simpl; auto. Qed.

Lemma change_training id (g : Z → TrainingJob → TrainingJob) s j :
  find_row id (q_training (jb_world s)) = Some j → (∀ now, may_change (g now) j) →
  may_apply (on_training (λ t, update_row id (g t))) s.
Proof.
  intros Hj Hg. destruct (change_step _ id (g (q_now (jb_world s))) j Hj (Hg _)) as [Hs Hk].
  apply allowed_training; [exact Hs|]. intros n _ Hn. by rewrite Hk.
Qed.

Lemma change_eval id (g : Z → EvalJob → EvalJob) s j :
  find_row id (q_eval (jb_world s)) = Some j → (∀ now, may_change (g now) j) →
  may_apply (on_eval (λ t, update_row id (g t))) s.
Proof.
  intros Hj Hg. destruct (change_step _ id (g (q_now (jb_world s))) j Hj (Hg _)) as [Hs Hk].
  apply allowed_eval; [exact Hs|]. intros n _ Hn. by rewrite Hk.
Qed.

Lemma change_curator id (g : Z → CuratorJob → CuratorJob) s j :
  find_row id (q_curator (jb_world s)) = Some j → (∀ now, may_change (g now) j) →
  may_apply (on_curator (λ t, update_row id (g t))) s.
Proof.
  intros Hj Hg. destruct (change_step _ id (g (q_now (jb_world s))) j Hj (Hg _)) as [Hs Hk].
  apply allowed_curator; [exact Hs|]. intros n _ Hn. by rewrite Hk.
Qed.

Lemma change_publish id (g : Z → PublishJob → PublishJob) s j :
  find_row id (q_publish (jb_world s)) = Some j → (∀ now, may_change (g now) j) →
  may_apply (on_publish (λ t, update_row id (g t))) s.
Proof. intros Hj Hg. apply allowed_publish. by destruct (change_step _ id (g (q_now (jb_world s))) j Hj (Hg _)). Qed.

(** The windows and the benchmark durations are the administrators'. *)
Lemma allowed_windows f s :
  admin = true →
  (∀ w, q_training (f w) = q_training w ∧ q_eval (f w) = q_eval w ∧ q_curator (f w) = q_curator w ∧
        q_publish (f w) = q_publish w) →
  may_apply f s.
Proof.
  intros Ha Hf. destruct (Hf (jb_world s)) as (Ht & He & Hc & Hp). apply allowed_step.
  - intros _. split; rewrite ?Ht, ?He, ?Hc, ?Hp; [done..|congruence].
  - intros n _. by rewrite Ht, He, Hc.
Qed.

Lemma on_world_refines f s : may_apply f s → refines s (state_of (on_world f) s).
Proof. intros Hf. exact Hf. Qed.

(** A commit whose failure is raised, then the write. *)
Lemma commit_refines f s : may_apply f s → refines s (state_of (commit;; on_world f) s).
Proof.
  intros Hf. unfold commit, state_of. rewrite !run_bind. unfold next_commit.
  destruct (jb_commits s) as [|[] cs] eqn:Hc; simpl.
  - exact Hf.
  - apply (allowed_commits f s Hf cs).
  - intros Hs. split; [|by apply same_step]. by eapply calm_same; [exact Hs|..].
Qed.
End refinement.

(** ** The handlers *)

Section handlers.
Context {C : Type} (e : JobEnv) `{!Inj (=) (=) (je_uuid4 e)} (user : User) (remove : bool).
Implicit Types (s : JobSite C).

#[local] Notation admin := (bool_decide (us_role user = "admin")).
#[local] Notation refines := (refines (je_uuid4 e) admin remove (us_id user)).
#[local] Notation quiet := (quiet (je_uuid4 e)).
#[local] Notation may_change := (may_change admin (us_id user)).

#[local] Hint Resolve job_quiet_commit job_quiet_fresh quiet_ask job_quiet_answer job_quiet_responded quiet_courses
  quiet_tokens : quiet.
Ltac quiet_auto := eauto with quiet; repeat (preserves_step; eauto with quiet).

(** *** Reading *)

Lemma quiet_find_training id : preserves quiet (find_training id : jobp C TrainingJob).
Proof. unfold find_training, world. quiet_auto. Qed.
Lemma quiet_find_eval id : preserves quiet (find_eval id : jobp C EvalJob).
Proof. unfold find_eval, world. quiet_auto. Qed.
#[local] Hint Resolve quiet_find_training quiet_find_eval : quiet.

Lemma found_training {A} id (k : TrainingJob → jobp C A) s :
  (∀ j, find_row id (q_training (jb_world s)) = Some j → refines s (state_of (k j) s)) →
  refines s (state_of (j ← find_training id; k j) s).
Proof.
  intros Hk. unfold state_of, find_training, world. rewrite run_bind, run_gets_bind.
  destruct (find_row id (q_training (jb_world s))) as [j|]; [by apply Hk|]. simpl. reflexivity.
Qed.

Lemma found_eval {A} id (k : EvalJob → jobp C A) s :
  (∀ j, find_row id (q_eval (jb_world s)) = Some j → refines s (state_of (k j) s)) →
  refines s (state_of (j ← find_eval id; k j) s).
Proof.
  intros Hk. unfold state_of, find_eval, world. rewrite run_bind, run_gets_bind.
  destruct (find_row id (q_eval (jb_world s))) as [j|]; [by apply Hk|]. simpl. reflexivity.
Qed.

(** An administrator's, or one's own. *)
Definition mine (owner : string) : Prop := admin = true ∨ owner = us_id user.

Lemma owned_training {A} id (k : TrainingJob → jobp C A) s :
  (∀ j, find_row id (q_training (jb_world s)) = Some j → mine (tr_user_id j) → refines s (state_of (k j) s)) →
  refines s (state_of (j ← own_training user id; k j) s).
Proof.
  intros Hk. unfold own_training, state_of. rewrite run_bind. unfold find_training, world.
  rewrite run_bind, run_bind. simpl. destruct (find_row id (q_training (jb_world s))) as [j|] eqn:Hj; simpl; [|reflexivity].
  destruct (decide (tr_user_id j ≠ us_id user ∧ us_role user ≠ "admin")) as [Hd|Hd]; [reflexivity|]. apply Hk; [done|]. unfold mine. rewrite bool_decide_eq_true.
  destruct (decide (us_role user = "admin")); [by left|right]. destruct (decide (tr_user_id j = us_id user)); [done|].
  by destruct Hd.
Qed.

Lemma owned_eval {A} id (k : EvalJob → jobp C A) s :
  (∀ j, find_row id (q_eval (jb_world s)) = Some j → mine (ev_user_id j) → refines s (state_of (k j) s)) →
  refines s (state_of (j ← own_eval user id; k j) s).
Proof.
  intros Hk. unfold own_eval, state_of. rewrite run_bind. unfold find_eval, world.
  rewrite run_bind, run_bind. simpl. destruct (find_row id (q_eval (jb_world s))) as [j|] eqn:Hj; simpl; [|reflexivity].
  destruct (decide (ev_user_id j ≠ us_id user ∧ us_role user ≠ "admin")) as [Hd|Hd]; [reflexivity|]. apply Hk; [done|]. unfold mine. rewrite bool_decide_eq_true.
  destruct (decide (us_role user = "admin")); [by left|right]. destruct (decide (ev_user_id j = us_id user)); [done|].
  by destruct Hd.
Qed.

Lemma refines_raise {A} x s : refines s (state_of (raise x : jobp C A) s).
Proof. change (refines s s). reflexivity. Qed.
Lemma refines_ret {A} (a : A) s : refines s (state_of (mret a : jobp C A) s).
Proof. change (refines s s). reflexivity. Qed.

Lemma refines_void {A} (m : jobp C A) s : refines s (state_of m s) → refines s (state_of (void m) s).
Proof. unfold void, state_of. rewrite run_bind. by destruct (m s) as [[a|x] s']. Qed.

Lemma refines_as_admin {A} (m : jobp C A) s :
  (admin = true → refines s (state_of m s)) → refines s (state_of (as_admin user m) s).
Proof. intros Hm. unfold as_admin. destruct (decide (us_role user = "admin")).
  - apply Hm. by apply bool_decide_eq_true.
  - apply refines_raise. Qed.

(** *** Writing one job *)

Lemma open_waiting st : waiting st = true → terminal st = false.
Proof. by destruct st. Qed.
Lemma open_cancellable st : cancellable st = true → terminal st = false.
Proof. by destruct st. Qed.

Lemma set_status_refines id st remote idx err s j :
  find_row id (q_training (jb_world s)) = Some j → terminal (tr_status j) = false →
  admin = true ∨ (tr_user_id j = us_id user ∧ st = CANCELLED) →
  refines s (state_of (set_status id st remote idx err) s).
Proof.
  intros Hj Ht Hwho. apply write_job_refines, (change_training _ _ _ _ _ _ _ j Hj).
  intros t. split_and!; [done|by intros r|]. destruct Hwho as [?|[? ->]]; [by left|right; by split; [|left]].
Qed.

Lemma set_eval_status_refines id st err s j :
  find_row id (q_eval (jb_world s)) = Some j → terminal (ev_status j) = false →
  admin = true ∨ (ev_user_id j = us_id user ∧ st = CANCELLED) →
  refines s (state_of (set_eval_status id st err) s).
Proof.
  intros Hj Ht Hwho. apply write_job_refines, (change_eval _ _ _ _ _ _ _ j Hj).
  intros t. split_and!; [done|by intros r|]. destruct Hwho as [?|[? ->]]; [by left|right; by split; [|left]].
Qed.

Lemma set_schedule_refines id at_ s j :
  find_row id (q_training (jb_world s)) = Some j → terminal (tr_status j) = false → admin = true →
  refines s (state_of (set_schedule id at_) s).
Proof.
  intros Hj Ht Ha. apply write_job_refines, (change_training _ _ _ _ _ _ _ j Hj).
  intros t. split_and!; [done|by intros r|by left].
Qed.

Lemma set_eval_schedule_refines id at_ s j :
  find_row id (q_eval (jb_world s)) = Some j → terminal (ev_status j) = false → admin = true →
  refines s (state_of (set_eval_schedule id at_) s).
Proof.
  intros Hj Ht Ha. apply write_job_refines, (change_eval _ _ _ _ _ _ _ j Hj).
  intros t. split_and!; [done|by intros r|by left].
Qed.

(** *** Training *)

Lemma mine_cancel owner : mine owner → admin = true ∨ (owner = us_id user ∧ CANCELLED = CANCELLED).
Proof. intros [?| ->]; [by left|by right]. Qed.

Lemma cancel_job_refines id s : refines s (state_of (cancel_job (je_cfg e) user id) s).
Proof.
  apply owned_training. intros j Hj Hmine. destruct (decide (tr_status j = CANCELLED)); [apply refines_ret|].
  destruct (cancellable (tr_status j)) eqn:Hopen; [|apply refines_raise]. simpl negb. cbv iota.
  apply quiet_then; [quiet_auto|]. intros _ s' _ (Ht & _).
  apply set_status_refines with j; [by rewrite Ht|by apply open_cancellable|by apply mine_cancel].
Qed.

Lemma quiet_course_gate id : preserves quiet (get_course_by_id (je_dialect e) (je_groups e) user id : jobp C TrainingCourse).
Proof. unfold get_course_by_id, readable_course. quiet_auto. Qed.

Lemma write_then {A B} (m : jobp C A) (k : A → jobp C B) s :
  refines s (state_of m s) → (∀ a, preserves quiet (k a)) → refines s (state_of (m ≫= k) s).
Proof.
  intros Hm Hk. unfold state_of in *. rewrite run_bind. destruct (m s) as [[a|x] s']; simpl in *; [|done].
  etransitivity; [exact Hm|]. apply quiet_refines. apply Hk.
Qed.

Lemma fresh_key n m k s :
  (n < jb_minted s)%nat → (jb_minted s ≤ m)%nat → k = je_uuid4 e n → je_uuid4 e m ≠ k.
Proof. intros Hn Hm -> Heq%(inj (je_uuid4 e)). lia. Qed.

Lemma create_job_refines course_id model_id at_ s :
  refines s (state_of (create_job (je_uuid4 e) (je_dialect e) (je_groups e) user course_id model_id at_) s).
Proof.
  apply quiet_then.
  { destruct (decide (course_id = HERETIC)); [quiet_auto|].
    apply preserves_bind; [apply _|apply quiet_course_gate|intros; quiet_auto]. }
  intros _ s1 _ _. apply fresh_then. intros n s2 _ _ (Hnew & _) Hlt.
  refine (write_then _ _ _ _ _); [|intros; apply job_quiet_answer]. apply write_job_refines, allowed_training.
  - apply rtc_once, job_added; [done|by destruct at_ as [[]|]|done].
  - intros m Hm Hk. apply added_keys; [done|]. by eapply fresh_key.
Qed.

(** *** Datasets are only read *)

Lemma quiet_upload url name kb_data files : preserves quiet (upload_files url name kb_data files : jobp C _).
Proof.
  induction files as [|f files IH]; cbn [upload_files]; [apply preserves_ret, _|].
  destruct (jsonl_content f); [|done]. quiet_auto.
Qed.

Lemma quiet_dataset url id :
  preserves quiet (_resolve_dataset (je_datasets e) (je_dataset_files e) url id : jobp C _).
Proof.
  unfold _resolve_dataset, local_dataset, _upload_local_dataset, _detect_hf_dataset_format.
  quiet_auto; apply quiet_upload.
Qed.

Lemma quiet_resolve data url :
  preserves quiet (_resolve_course_datasets (je_datasets e) (je_dataset_files e) data url : jobp C _).
Proof.
  apply preserves_bind; [apply _|apply job_quiet_responded|]. intros ids.
  induction ids as [|id ids IH]; cbn [resolve_all]; [apply preserves_ret, _|].
  apply preserves_bind; [apply _|apply quiet_dataset|]. intros [ds fs]. quiet_auto.
Qed.
#[local] Hint Resolve quiet_resolve : quiet.

(** Going on with a job that is still there. *)
Definition training_is (j : TrainingJob) (s : JobSite C) : Prop :=
  find_row (tr_id j) (q_training (jb_world s)) = Some j.

Lemma training_then {A B} j (m : jobp C A) (k : A → jobp C B) s :
  training_is j s → preserves quiet m → (∀ a s', training_is j s' → refines s' (state_of (k a) s')) →
  refines s (state_of (m ≫= k) s).
Proof.
  intros Hj Hm Hk. apply quiet_then; [done|]. intros a s' _ (Ht & _). apply Hk. unfold training_is.
  by rewrite Ht.
Qed.

Lemma training_found id j s : find_row id (q_training (jb_world s)) = Some j → tr_id j = id ∧ training_is j s.
Proof. intros Hj. pose proof (find_row_key _ _ _ Hj) as Hid. split; [done|]. unfold training_is. by rewrite <- Hj, <- Hid. Qed.

(** Quiet statements up to the write of the job. *)
Ltac to_the_write j :=
  repeat lazymatch goal with
  | |- context [state_of (raise _) _] => apply refines_raise
  | |- context [state_of (mret _) _] => apply refines_ret
  | |- context [state_of (_ ≫= _) _] => apply (training_then j); [assumption|solve [quiet_auto]|intros ? ? ?]
  end.

Lemma approve_job_refines id s :
  admin = true → refines s (state_of (approve_job (je_cfg e) (je_datasets e) (je_dataset_files e) id) s).
Proof.
  intros Ha. apply found_training. intros j Hj. destruct (waiting (tr_status j)) eqn:Hw; [|apply refines_raise].
  apply training_found in Hj as [<- Hj]. apply open_waiting in Hw. simpl negb. cbv iota. to_the_write j.
  destruct (decide (tr_course_id j = HERETIC)).
  - unfold approve_heretic. to_the_write j. eapply set_status_refines; [done..|by left].
  - unfold approve_standard. to_the_write j. destruct a2 as [ds fs].
    destruct (decide (ds = [])); [apply refines_raise|]. to_the_write j.
    eapply set_status_refines; [done..|by left].
Qed.

Lemma reject_job_refines id s : admin = true → refines s (state_of (reject_job id) s).
Proof.
  intros Ha. apply found_training. intros j Hj. destruct (waiting (tr_status j)) eqn:Hw; [|apply refines_raise].
  eapply set_status_refines; [done|by apply open_waiting|by left].
Qed.

Lemma sync_job_refines id s : admin = true → refines s (state_of (sync_job_status (je_cfg e) id) s).
Proof.
  intros Ha. apply found_training. intros j Hj. destruct (terminal (tr_status j)) eqn:Ht; [apply refines_ret|].
  apply training_found in Hj as [<- Hj].
  destruct (truthy _) as [remote|]; [|apply refines_raise].
  destruct (tr_llamolotl_url_idx j) as [idx|]; [|apply refines_raise].
  unfold polled. to_the_write j. eapply set_status_refines; [done..|by left].
Qed.

Lemma schedule_job_refines id at_ s : admin = true → refines s (state_of (schedule_job id at_) s).
Proof.
  intros Ha. apply found_training. intros j Hj. destruct (waiting (tr_status j)) eqn:Hw; [|apply refines_raise].
  apply training_found in Hj as [<- Hj]. simpl negb. cbv iota. unfold now. to_the_write j.
  destruct (decide _); [apply refines_raise|]. by eapply set_schedule_refines; [|apply open_waiting|].
Qed.

Lemma unschedule_job_refines id s : admin = true → refines s (state_of (unschedule_job id) s).
Proof.
  intros Ha. apply found_training. intros j Hj. destruct (decide (tr_status j ≠ SCHEDULED)) as [|Hst]; [apply refines_raise|].
  apply dec_stable in Hst. eapply set_schedule_refines; [done|by rewrite Hst|done].
Qed.

Lemma delete_training_refines id s :
  admin = true → remove = true → refines s (state_of (delete_job_by_id id) s).
Proof.
  intros Ha Hr. apply found_training. intros j _. apply delete_job_refines, allowed_training.
  - by apply rtc_once, job_removed.
  - intros n _. apply removed_keys.
Qed.

(** *** Courses are no jobs *)

Lemma quiet_new_course f :
  preserves quiet (create_course (je_uuid4 e) (je_dialect e) (je_groups e) (je_permissions e) user f : jobp C _).
Proof. unfold create_course, TrainingCourses.insert_new_course, now. quiet_auto. Qed.

Lemma quiet_change_course id f : preserves quiet (update_course_by_id user id f : jobp C _).
Proof. unfold update_course_by_id, own_course, TrainingCourses.update_course_by_id, now. quiet_auto. Qed.

Lemma quiet_drop_course id : preserves quiet (delete_course_by_id user id : jobp C _).
Proof. unfold delete_course_by_id, own_course, TrainingCourses.delete_course_by_id. quiet_auto. Qed.

(** *** Evaluation *)

Lemma create_eval_refines f s :
  refines s (state_of (create_eval_job (je_uuid4 e) (je_dialect e) (je_groups e) (je_permissions e) user f) s).
Proof.
  unfold create_eval_job. destruct (may _ _ _ _ _); [|apply refines_raise].
  apply fresh_then. intros n s2 _ _ (_ & Hnew & _) Hlt.
  refine (write_then _ _ _ _ _); [|intros; apply job_quiet_answer]. apply write_job_refines, allowed_eval.
  - by apply rtc_once, job_added.
  - intros m Hm Hk. apply added_keys; [done|]. by eapply fresh_key.
Qed.

Lemma cancel_eval_refines url1 url2 id s : refines s (state_of (cancel_eval_job url1 url2 user id) s).
Proof.
  apply owned_eval. intros j Hj Hmine. destruct (decide (ev_status j = CANCELLED)); [apply refines_ret|].
  destruct (cancellable (ev_status j)) eqn:Hopen; [|apply refines_raise]. simpl negb. cbv iota.
  apply quiet_then; [quiet_auto|]. intros _ s' _ (_ & He & _).
  apply quiet_then; [apply quiet_tokens|]. intros _ s2 _ (_ & He2 & _).
  apply set_eval_status_refines with j; [by rewrite He2, He|by apply open_cancellable|by apply mine_cancel].
Qed.

Lemma delete_eval_refines id s :
  admin = true → remove = true → refines s (state_of (delete_eval_job id) s).
Proof.
  intros Ha Hr. apply found_eval. intros j _. apply delete_job_refines, allowed_eval.
  - by apply rtc_once, job_removed.
  - intros n _. apply removed_keys.
Qed.

(** What an administrator does to a job that waits. *)
Lemma waiting_eval id (k : EvalJob → jobp C (option EvalJob)) s :
  (∀ j, find_row id (q_eval (jb_world s)) = Some j → terminal (ev_status j) = false →
     refines s (state_of (k j) s)) →
  refines s (state_of (j ← find_eval id; if negb (waiting (ev_status j)) then raise (Http 400) else k j) s).
Proof.
  intros Hk. apply found_eval. intros j Hj. destruct (waiting (ev_status j)) eqn:Hw; [|apply refines_raise].
  by apply Hk; [|apply open_waiting].
Qed.

Lemma approve_eval_refines id s : admin = true → refines s (state_of (approve_eval_job (je_users e) id) s).
Proof.
  intros Ha. apply waiting_eval. intros j Hj Ht. destruct (decide _); [apply refines_raise|].
  eapply set_eval_status_refines; [done..|by left].
Qed.

Lemma reject_eval_refines id s : admin = true → refines s (state_of (reject_eval_job id) s).
Proof. intros Ha. apply waiting_eval. intros j Hj Ht. eapply set_eval_status_refines; [done..|by left]. Qed.

Lemma schedule_eval_refines id at_ s : admin = true → refines s (state_of (schedule_eval_job id at_) s).
Proof.
  intros Ha. apply waiting_eval. intros j Hj Ht. apply quiet_then; [apply preserves_gets, _|].
  intros t s' _ (_ & He & _). destruct (decide (at_ < t)); [apply refines_raise|].
  eapply set_eval_schedule_refines; [by rewrite He|done..].
Qed.

Lemma unschedule_eval_refines id s : admin = true → refines s (state_of (unschedule_eval_job id) s).
Proof.
  intros Ha. apply found_eval. intros j Hj. destruct (decide (ev_status j ≠ SCHEDULED)) as [|Hst]; [apply refines_raise|].
  apply dec_stable in Hst. eapply set_eval_schedule_refines; [done|by rewrite Hst|done].
Qed.

(** *** Curation *)

Lemma find_added {A} `{Keyed A} (t : list A) j k :
  k ∉ keys t → row_key j = k → find_row k (t ++ [j]) = Some j.
Proof.
  intros Hj <-. apply find_row_None in Hj. rewrite find_row_app, Hj. cbn. by rewrite decide_True.
Qed.

Lemma commit_then {B} (k : unit → jobp C B) s :
  (∀ s', jb_world s' = jb_world s → jb_minted s' = jb_minted s → refines s' (state_of (k tt) s')) →
  refines s (state_of (commit ≫= k) s).
Proof.
  intros Hk. unfold commit, state_of. rewrite !run_bind. unfold next_commit.
  assert (∀ cs, refines s (s <| jb_commits := cs |>)) as Hq.
  { intros cs. by apply quiet_refines, quiet_same; [|simpl; lia|apply same_refl]. }
  destruct (jb_commits s) as [|[] cs]; simpl; [by apply Hk| |apply Hq].
  etransitivity; [apply Hq|]. by apply Hk.
Qed.

Lemma refines_bind {A B} (m : jobp C A) (k : A → jobp C B) s :
  refines s (state_of m s) → (∀ a s', m s = (Ok a, s') → refines s' (state_of (k a) s')) →
  refines s (state_of (m ≫= k) s).
Proof.
  intros Hm Hk. unfold state_of in *. rewrite run_bind. destruct (m s) as [[a|x] s'] eqn:Hr; simpl in *; [|done].
  etransitivity; [exact Hm|]. by apply Hk.
Qed.

Lemma queue_curator_refines f s : refines s (state_of (queue_curator_job (je_uuid4 e) user f) s).
Proof.
  unfold queue_curator_job. do 2 (destruct (decide _); [apply refines_raise|]).
  apply fresh_then. intros i s1 _ _ (_ & _ & Hnew) Hlt. apply commit_then. intros s2 Hw Hm.
  apply refines_bind.
  - apply on_world_refines, allowed_curator; rewrite Hw.
    + by apply rtc_once, job_added; [|destruct (qf_scheduled_for f) as [[]|]|].
    + intros m Hm' Hk. apply added_keys; [done|]. apply (fresh_key i m _ s2); [by rewrite Hm|done..].
  - intros a s3 Hs3. unfold on_world, modify in Hs3. injection Hs3 as _ <-.
    refine (write_then _ _ _ _ _); [|intros; unfold world; quiet_auto].
    apply write_job_refines. eapply change_curator.
    + simpl. rewrite Hw. unfold CuratorJobs.insert_new_job. by apply find_added.
    + intros t. split_and!; [by destruct (qf_scheduled_for f) as [[]|]|by intros r|]. right. by split; [|right].
Qed.

Lemma quiet_proxy verb path : preserves quiet (proxy (je_cfg e) verb path : jobp C Json).
Proof. unfold proxy, get_curator_url, send_request. quiet_auto. Qed.

Lemma curator_proxy_refines r s : refines s (state_of (curator_proxy (je_cfg e) user r) s).
Proof.
  destruct r; cbn [curator_proxy]; try (apply refines_as_admin; intros _); apply quiet_at; try apply quiet_proxy.
  apply preserves_bind; [apply _|unfold require_curator_window, world; quiet_auto|intros _; apply quiet_proxy].
Qed.

(** *** The queue *)

Lemma priority_refines job_type id prio st0 st s :
  admin = true → _get_job_and_table job_type id s = (Ok st0, s) → terminal st0.1 = false →
  refines s (state_of (commit;; on_world (update_priority job_type id prio st)) s).
Proof.
  intros Ha Hget Ht. apply commit_refines.
  unfold _get_job_and_table, world in Hget. rewrite run_gets_bind in Hget. unfold update_priority, may_apply.
  destruct (decide (job_type = "training")); [|destruct (decide (job_type ∈ ["language-eval"; "code-eval"]));
    [|destruct (decide (job_type = "curator")); [|destruct (decide (job_type = "publish")); [|done]]]].
  - destruct (find_row id (q_training (jb_world s))) as [j|] eqn:Hj; [|done]. injection Hget as <-.
    apply (change_training _ _ _ _ id (λ t, priority_training t prio st) s j Hj).
    intros t. split_and!; [done|by intros r|by left].
  - destruct (find_row id (q_eval (jb_world s))) as [j|] eqn:Hj; [|done]. injection Hget as <-.
    apply (change_eval _ _ _ _ id (λ t, priority_eval t prio st) s j Hj).
    intros t. split_and!; [done|by intros r|by left].
  - destruct (find_row id (q_curator (jb_world s))) as [j|] eqn:Hj; [|done]. injection Hget as <-.
    apply (change_curator _ _ _ _ id (λ t, priority_curator t prio st) s j Hj).
    intros t. split_and!; [done|by intros r|by left].
  - destruct (find_row id (q_publish (jb_world s))) as [j|] eqn:Hj; [|done]. injection Hget as <-.
    apply (change_publish _ _ _ _ id (λ t, priority_publish t prio st) s j Hj).
    intros t. split_and!; [done|by intros r|by left].
Qed.

Lemma get_job_same job_type id s : (_get_job_and_table job_type id s).2 = s.
Proof.
  unfold _get_job_and_table, world, answer. rewrite run_gets_bind.
  repeat case_decide; try done; by destruct (find_row _ _).
Qed.

Lemma got_job {A} job_type id (k : JobStatus * string → jobp C A) s :
  (∀ st, _get_job_and_table job_type id s = (Ok st, s) → refines s (state_of (k st) s)) →
  refines s (state_of (_get_job_and_table job_type id ≫= k) s).
Proof.
  intros Hk. pose proof (get_job_same job_type id s) as Hs. unfold state_of. rewrite run_bind.
  destruct (_get_job_and_table job_type id s) as [[st|x] s'] eqn:Hget; simpl in *; subst s'; [by apply Hk|reflexivity].
Qed.

Lemma run_now_refines job_type id s : admin = true → refines s (state_of (run_now job_type id) s).
Proof.
  intros Ha. apply got_job. intros [st prio] Hget. destruct (terminal st) eqn:Ht; [apply refines_raise|].
  by eapply priority_refines.
Qed.

Lemma promote_refines job_type id s : admin = true → refines s (state_of (promote job_type id) s).
Proof.
  intros Ha. apply got_job. intros [st prio] Hget. destruct (terminal st) eqn:Ht; [apply refines_raise|].
  destruct (decide (prio = "run_now")); [apply refines_raise|]. by eapply priority_refines.
Qed.

(** *** Windows and benchmarks *)

Lemma quiet_with_ids l : preserves quiet (with_ids (je_uuid4 e) l : jobp C _).
Proof.
  induction l as [|[[[id jt] mc] mr] l IH]; cbn [with_ids]; [apply preserves_ret, _|]. quiet_auto.
Qed.
#[local] Hint Resolve quiet_with_ids : quiet.

Lemma set_tables_refines t s : admin = true → refines s (state_of (set_tables t) s).
Proof. intros Ha. by apply on_world_refines, allowed_windows. Qed.

Lemma create_window_refines f s : admin = true → refines s (state_of (create_window (je_uuid4 e) f) s).
Proof.
  intros Ha. unfold create_window. destruct (decide _); [apply refines_raise|].
  apply quiet_then; [quiet_auto|]. intros id s1 _ _. apply quiet_then; [quiet_auto|]. intros slots s2 _ _.
  apply quiet_then; [quiet_auto|]. intros ok s3 _ _. apply quiet_then; [unfold world; quiet_auto|]. intros w s4 _ _.
  destruct (JobWindows.insert_new_window _ _ _ _ _) as [created t].
  refine (write_then _ _ _ _ _); [by apply set_tables_refines|intros; apply job_quiet_answer].
Qed.

Lemma quiet_find_window id : preserves quiet (find_window id : jobp C _).
Proof. unfold find_window, world. quiet_auto. Qed.
#[local] Hint Resolve quiet_find_window : quiet.

Lemma update_window_refines id f s : admin = true → refines s (state_of (update_window (je_uuid4 e) id f) s).
Proof.
  intros Ha. apply quiet_then; [quiet_auto|]. intros _ s1 _ _. destruct (decide _); [apply refines_raise|].
  apply quiet_then; [quiet_auto|]. intros slots s2 _ _. apply quiet_then; [quiet_auto|]. intros ok s3 _ _.
  apply quiet_then; [unfold world; quiet_auto|]. intros w s4 _ _.
  cbv zeta. destruct (JobWindows.update_window _ _ _ _ _) as [updated t].
  refine (write_then _ _ _ _ _); [by apply set_tables_refines|intros; apply job_quiet_answer].
Qed.

Lemma delete_window_refines id s : admin = true → refines s (state_of (delete_window id) s).
Proof.
  intros Ha. apply quiet_then; [quiet_auto|]. intros ws s1 _ _. apply quiet_then; [unfold now; quiet_auto|].
  intros t s2 _ _. destruct (decide _); [apply refines_raise|]. apply quiet_then; [quiet_auto|]. intros ok s3 _ _.
  apply quiet_then; [unfold world; quiet_auto|]. intros w s4 _ _.
  destruct (JobWindows.delete_window _ _ _) as [success tables].
  refine (write_then _ _ _ _ _); [by apply set_tables_refines|intros; quiet_auto].
Qed.

Lemma benchmark_refines id minutes notes s : admin = true → refines s (state_of (update_benchmark id minutes notes) s).
Proof.
  intros Ha. refine (write_then _ _ _ _ _); [|intros; apply job_quiet_answer].
  by apply write_job_refines, allowed_windows.
Qed.
End handlers.

(** Whether a request removes a job. *)
Definition removes (c : JobCall) : bool :=
  match c with DeleteTraining _ | DeleteEvalJob _ => true | _ => false end.

Lemma handle_job_refines {C} (e : JobEnv) `{!Inj (=) (=) (je_uuid4 e)} (user : User) (call : JobCall) (s : JobSite C) :
  refines (je_uuid4 e) (bool_decide (us_role user = "admin")) (removes call) (us_id user) s
    (state_of (handle_job e user call) s).
Proof.
  destruct call; cbn [handle_job removes]; try (apply refines_as_admin; intros Ha); try apply refines_void;
    eauto using create_job_refines, cancel_job_refines, approve_job_refines, reject_job_refines, sync_job_refines,
      schedule_job_refines, unschedule_job_refines, delete_training_refines, create_eval_refines, cancel_eval_refines,
      delete_eval_refines, approve_eval_refines, reject_eval_refines, schedule_eval_refines, unschedule_eval_refines,
      queue_curator_refines, curator_proxy_refines, run_now_refines, promote_refines, create_window_refines,
      update_window_refines, delete_window_refines, benchmark_refines, quiet_at, quiet_new_course,
      quiet_change_course, quiet_drop_course.
Qed.

(** The two ways a training job is dispatched, an administrator's approval and the
    queue's scheduled dispatch: written twice in [routers/training.py], they are one
    procedure up to the status they record. *)
Module JobDispatch.

Section dispatch.
Context {C : Type} (cfg : QConfig) (datasets : list Dataset) (dataset_files : string → list LocalFile).
Implicit Types (s : JobSite C).

(** The state with the job's status set to running. *)
Definition as_running (id : string) s : JobSite C :=
  s <| jb_world := (jb_world s) <| q_training :=
    update_row id (λ j, j <| tr_status := RUNNING |>) (q_training (jb_world s)) |> |>.

Lemma status_row_restate now remote idx err id (t : list TrainingJob) :
  TrainingJobs.update_job_status now id RUNNING remote idx err t =
  update_row id (λ j, j <| tr_status := RUNNING |>) (TrainingJobs.update_job_status now id QUEUED remote idx err t).
Proof.
  unfold TrainingJobs.update_job_status, update_row, update_where. rewrite <- list_fmap_compose.
  apply list_fmap_ext. intros _ j _. simpl. case_bool_decide as Hj; simpl; [|by rewrite bool_decide_false].
  by rewrite bool_decide_true.
Qed.

Lemma run_write_job {A} f (read : QWorld C → option A) s :
  write_job f read s =
    match next_commit s with
    | (Ok true, s') => (Ok (read (f (jb_world s'))), s' <| jb_world := f (jb_world s') |>)
    | (Ok false, s') => (Ok None, s')
    | (Raise e, s') => (Raise e, s')
    end.
Proof. unfold write_job. rewrite run_bind. by destruct (next_commit s) as [[[]|] s']. Qed.

(** Recording the dispatch: the two statuses apart, the same. *)
Lemma recorded_alike id remote idx err s :
  ∃ r s',
    set_status id QUEUED remote idx err s = (Ok r, s') ∧
    (set_status id RUNNING remote idx err;; mret tt) s =
      (Ok tt, match r with Some _ => as_running id s' | None => s' end).
Proof.
  unfold set_status. rewrite run_bind, !run_write_job. unfold next_commit.
  destruct (jb_commits s) as [|[] rest]; [|..|by exists None; eexists].
  all: eexists _, _; split; [reflexivity|]; unfold as_running, on_training; simpl; rewrite status_row_restate.
  all: destruct (find_row id _) as [j|] eqn:Hj; [done|].
  all: by rewrite (update_row_absent _ _ _ Hj).
Qed.

Lemma ask_answered c s : ∃ r s', ask c s = (Ok r, s').
Proof. unfold ask. cbn. destruct (jb_answers s); eauto. Qed.

Abbreviation approve := (approve_job cfg datasets dataset_files).
Abbreviation dispatch := (_dispatch_scheduled_job cfg datasets dataset_files).

(** C36: Approving a job and dispatching it on schedule are one procedure.  For a waiting
    job of a course, whatever the remote services answer, whatever other writers do
    meanwhile and whichever commits fail, the two make the same calls and leave the same
    state, where the dispatch records a running job and the approval a queued one; where
    the approval refuses, the dispatch goes on from the very same state to fail the job,
    and an answer of an unexpected shape is the only thing that may escape both. *)
Theorem approval_and_schedule_dispatch_alike job s :
  find_row (tr_id job) (q_training (jb_world s)) = Some job → waiting (tr_status job) = true →
  tr_course_id job ≠ HERETIC → app_ready cfg = true →
  let '(a, sa) := approve (tr_id job) s in
  match a with
  | Ok (Some _) => dispatch job s = (Ok tt, as_running (tr_id job) sa)
  | Ok None => dispatch job s = (Ok tt, sa)
  | Raise (Http _) => ∃ why, dispatch job s = fail_job (tr_id job) why sa
  | Raise Uncaught => dispatch job s = (Raise Uncaught, sa) ∨ ∃ why, dispatch job s = fail_job (tr_id job) why sa
  end.
Proof.
  intros Hfind Hw Hh Hready. unfold approve_job, find_training, world.
  rewrite run_bind, run_gets_bind, Hfind. cbn [mret prog_ret answer]. rewrite Hw. cbn [negb].
  unfold _dispatch_scheduled_job. rewrite Hready. cbn [negb]. rewrite run_answer_bind, run_gets_bind.
  destruct (head (LLAMOLOTL_CONTROL_BASE_URLS cfg)) as [url|]; [|by destruct (TrainingCourses.get_course_by_id _ _); eexists].
  rewrite decide_False by done. unfold approve_standard. rewrite run_gets_bind, run_answer_bind.
  destruct (TrainingCourses.get_course_by_id _ _) as [course|]; [|by eexists].
  rewrite !run_bind. unfold tried.
  destruct (_resolve_course_datasets _ _ _ _ s) as [[[ds failures]|[|status]] s1]; [|by right; eexists|by eexists].
  destruct ds as [|d ds]; [by eexists|]. rewrite decide_False by done. rewrite !run_responded_bind.
  destruct (course_config _ _ _ _) as [config|]; [|by left]. rewrite !run_bind.
  destruct (ask_answered (PostJob url config) s1) as (r & s2 & ->). rewrite run_answer_bind.
  destruct (created r) as [remote_job|]; [|by eexists]. rewrite !run_bind.
  destruct (ask_answered (ApproveRemote url (json_str (dict_lookup "job_id" remote_job))) s2) as (? & s3 & ->).
  rewrite !run_responded_bind. destruct (optional_text _) as [remote|]; [|by left].
  destruct (recorded_alike (tr_id job) remote (Some 0%nat) None s3) as (o & s4 & -> & ->). by destruct o.
Qed.
End dispatch.

End JobDispatch.
