(* ===== verification/JobApiContract.v ===== *)
(** What the job endpoints promise: they refine the abstract life of a job, an ordinary
    user can start nothing and reach nobody else's jobs, a settled job stays settled
    whatever requests and cycles of the queue follow, and the two ways of dispatching a
    training job are one. *)

From stdpp Require Import gmap relations.
From S2P Require Import Prelude Data Accounts AccessControl Session Jobs Queue QueueFacts.
From S2P Require Import JobApi QueueApi JobApiFacts.
Import JobLifecycle.

Section contract.
Context {C : Type} (e : JobEnv) `{!Inj (=) (=) (je_uuid4 e)}.
Implicit Types (s : JobSite C) (w : QWorld C) (user : User).

(** C11: Every request of the job routers refines the abstract life of a job: with no other
    writer in between at its awaits and unused ids to mint, what it does to each of the four job tables is a sequence of steps
    made in the caller's name - a new job that waits, a change of a job that is not
    settled, which for anyone but an administrator is their own and can only be
    cancelled, or an administrator's removal - and windows and benchmark durations
    change for administrators only. *)
Theorem requests_refine_the_life_of_a_job user call s :
  calm (je_uuid4 e) s →
  let s' := state_of (handle_job e user call) s in
  tables_step (bool_decide (us_role user = "admin")) (removes call) (us_id user) (jb_world s) (jb_world s') ∧
  calm (je_uuid4 e) s'.
Proof. intros Hs s'. by destruct (handle_job_refines e user call s Hs). Qed.

(** The rows a request left alone, and what became of the caller's own. *)
Definition only_own {A} `{Keyed A, !JobRow A, !JobOwner A} (u : string) (t t' : list A) : Prop :=
  (∀ j, job_owner j ≠ u → j ∈ t' ↔ j ∈ t) ∧
  (∀ j', j' ∈ t' → job_owner j' = u →
     waiting (job_status j') = true ∨ job_status j' = CANCELLED ∨
     ∃ j, j ∈ t ∧ row_key j = row_key j' ∧ job_status j = job_status j').

Lemma own_only {A} `{Keyed A, !JobRow A, !JobOwner A} remove u (t t' : list A) :
  rtc (lifecycle false remove u) t t' → NoDup (keys t) → only_own u t t'.
Proof. intros Hst Hnd. split; [by eapply lifecycle_others|by eapply lifecycle_own]. Qed.

(** C12: A user who is not an administrator cannot start anything: no request of theirs
    brings a job of theirs into any state but waiting or cancelled, touches anybody
    else's job in any of the four tables, or opens, moves or closes a window; again with no
    other writer in between at its awaits, and ids that are unused or distinct. *)
Theorem only_administrators_start_jobs user call s :
  us_role user ≠ "admin" →
  calm (je_uuid4 e) s → wf (jb_world s) →
  let w := jb_world s in
  let w' := jb_world (state_of (handle_job e user call) s) in
  only_own (us_id user) (q_training w) (q_training w') ∧ only_own (us_id user) (q_eval w) (q_eval w') ∧
  only_own (us_id user) (q_curator w) (q_curator w') ∧ only_own (us_id user) (q_publish w) (q_publish w') ∧
  q_windows w' = q_windows w ∧ q_slots w' = q_slots w ∧ q_benchmarks w' = q_benchmarks w.
Proof.
  intros Hrole Hs (Ht & He & Hc & Hp) w w'. destruct (handle_job_refines e user call s Hs) as [_ [T E1 C1 P W]].
  rewrite bool_decide_false in T, E1, C1, P, W by done. split_and!; try (by eapply own_only); by apply W.
Qed.

(** *** Runs of requests and cycles *)

Inductive SiteStep :=
| Request (user : User) (call : JobCall)
| Cycle (lock : bool).

(** The queue reads the courses as they are. *)
Definition cycle_cfg (s : JobSite C) : QConfig :=
  let c := je_cfg e in
  mkQConfig (app_ready c) (LLAMOLOTL_BASE_URLS c) (LLAMOLOTL_CONTROL_BASE_URLS c) (LANGUAGE_EVAL_BASE_URLS c)
    (CODE_EVAL_BASE_URLS c) (CURATOR_BASE_URLS c) (CURATOR_ENFORCE_WINDOW_END c)
    (λ id, bool_decide (id ∈ keys (jb_courses s))) (input_on_volume c).

Context `{!CardBroker C}.

Definition site_step (s : JobSite C) (x : SiteStep) : JobSite C :=
  match x with
  | Request user call => state_of (handle_job e user call) s
  | Cycle lock => s <| jb_world := state_of (cycle (cycle_cfg s) lock) (jb_world s) |>
  end.

Definition site_run (xs : list SiteStep) (s : JobSite C) : JobSite C := foldl site_step s xs.

Definition keeps_jobs (x : SiteStep) : bool :=
  match x with Request _ call => negb (removes call) | Cycle _ => true end.

(** The settled jobs of [t] are in [t']. *)
Definition settled_in {A} `{Keyed A, !JobRow A} (t t' : list A) : Prop :=
  ∀ j, j ∈ t → terminal (job_status j) = true → j ∈ t'.

Definition all_settled_in w w' : Prop :=
  settled_in (q_training w) (q_training w') ∧ settled_in (q_eval w) (q_eval w') ∧
  settled_in (q_curator w) (q_curator w') ∧ settled_in (q_publish w) (q_publish w').

Lemma shape_keys w w' :
  shape w' = shape w →
  keys (q_training w') = keys (q_training w) ∧ keys (q_eval w') = keys (q_eval w) ∧
  keys (q_curator w') = keys (q_curator w).
Proof.
  intros Hs. rewrite (keys_eval w), (keys_eval w'). unfold shape in Hs. injection Hs as Ht He Hc _ _ _ _.
  rewrite He. split_and!; [|done|].
  - change ((tr_id <$> q_training w') = (tr_id <$> q_training w)). by rewrite Ht.
  - change ((cu_id <$> q_curator w') = (cu_id <$> q_curator w)). by rewrite Hc.
Qed.

Lemma kept_settled {A} `{Keyed A, !JobRow A} (t t' : list A) :
  NoDup (keys t) → rows_kept t t' → settled_in t t'.
Proof.
  intros Hnd Hk j Hj Ht. assert (find_row (row_key j) t' = Some j) as Hf; [|by apply find_row_Some in Hf as [? _]].
  apply Hk; [by apply find_row_elem|done].
Qed.

Lemma site_step_settled x s :
  keeps_jobs x = true → calm (je_uuid4 e) s → wf (jb_world s) →
  let s' := site_step s x in
  calm (je_uuid4 e) s' ∧ wf (jb_world s') ∧ all_settled_in (jb_world s) (jb_world s').
Proof.
  intros Hx Hs Hwf. pose proof Hwf as (Ht & He & Hc & Hp). destruct x as [user call|lock]; simpl in Hx |- *.
  - apply negb_true_iff in Hx. destruct (handle_job_refines e user call s Hs) as [Hs' [T E1 C1 P _]].
    rewrite Hx in *. split; [done|]. split.
    + split_and!; by eapply lifecycle_keys.
    + split_and!; intros j Hj Hst.
      all: eapply lifecycle_settled; [reflexivity|eassumption..].
  - destruct (cycle_settled (cycle_cfg s) lock (jb_world s)) as [Hshape Hkept].
    destruct (Hkept Hwf) as (KT & KE & KC & KP). destruct (shape_keys _ _ Hshape) as (S1 & S2 & S3).
    split; [|split; [by apply (shape_wf (jb_world s))|split_and!; by apply kept_settled]].
    destruct Hs as [Ha Hf]. split; [exact Ha|]. intros n Hn. simpl. rewrite S1, S2, S3. by apply Hf.
Qed.

(** C13: A settled job is final: whatever requests, of administrators and of others, and
    whatever cycles of the queue follow, in any order, a job that was completed, failed
    or cancelled is afterwards exactly as it was, unless an administrator removes a job,
    and as long as requests and cycles follow one another: no other writer comes in
    between at the awaits of a request, and ids are unused or distinct.  With another writer
    there, an approval or a synchronisation can revive a cancelled job. *)
Theorem settled_jobs_are_final xs s :
  forallb keeps_jobs xs = true →
  calm (je_uuid4 e) s → wf (jb_world s) →
  all_settled_in (jb_world s) (jb_world (site_run xs s)).
Proof.
  revert s. induction xs as [|x xs IH]; intros s Hxs Hs Hwf; [by split_and!; intros j|].
  simpl in Hxs. apply andb_true_iff in Hxs as [Hx Hxs].
  destruct (site_step_settled x s Hx Hs Hwf) as (Hs' & Hwf' & T & E1 & C1 & P).
  destruct (IH (site_step s x) Hxs Hs' Hwf') as (T' & E2 & C2 & P'). simpl.
  split_and!; intros j Hj Hst; eauto.
Qed.
End contract.

From stdpp Require Import pretty.
From S2P Require Import Prelude Leases Reaper Broker Card.
Import QueueRuns JobDispatch.

(** Concrete runs of the job endpoints and the queue: the theorems of [JobApiContract] and
    [JobDispatch] at inputs where their hypotheses hold, and closed runs in which the
    endpoints do not do what they are for. *)
Module JobApiRuns.

Import QueueRuns.Deployment.

(** ** A site *)

Definition job_ids (n : nat) : string := "j" +:+ pretty n.
#[local] Instance job_ids_inj : Inj (=) (=) job_ids.
Proof. unfold job_ids. intros n m Heq. simplify_eq. by apply (inj pretty). Qed.

Definition one (role id : string) : User :=
  mkUser id id (id +:+ "@example.org") role "" 0 0 0 (Some "sk-key") None None None.
Definition root : User := one "admin" "root".
Definition bob : User := one "user" "bob".

(** A course with one dataset of the hub, which [bob] may read. *)
Definition course : TrainingCourse :=
  mkTrainingCourse "c" "root" "Nightly" "" (Some [("dataset_ids", JList [JStr "d"])]) None None 0 0.
Definition hub_dataset : Dataset := mkDataset "d" "hub" (Some [("hf_path", JStr "org/set")]).

Definition env : JobEnv :=
  mkJobEnv (config false) job_ids SQLite [] [root; bob] [("studio", JDict [("evaluations", JBool true)])]
    [hub_dataset] (λ _, []) "http://ceval" "http://leval".

Definition training (id owner course_id : string) (st : JobStatus) (remote : option string) : TrainingJob :=
  mkTrainingJob id course_id owner "qwen" st "normal" None remote
    (match remote with Some _ => Some 0%nat | None => None end) None 500 500.

Definition site (jobs : list TrainingJob) (evals : list EvalJob) (answers : list Reply) : JobSite Card :=
  mkJobSite ((queue_of evals [] [] free_card []) <| q_training := jobs |>) [course] ∅ 0 []
    ((λ r, mkAnswer 1 (λ w, w) r) <$> answers) [].

Definition serve (user : User) (call : JobCall) (s : JobSite Card) : result ApiExn unit * JobSite Card :=
  handle_job env user call s.

Definition statuses (s : JobSite Card) : list (string * JobStatus) :=
  (λ j, (tr_id j, tr_status j)) <$> q_training (jb_world s).

Definition ok_with (body : json_dict) : Reply := Replied 200 (Some (JDict body)).
(** The hub's answer, the new job's and its approval's. *)
Definition accepted : list Reply := [NoReply; ok_with [("job_id", JStr "r1")]; ok_with []].

(** Five minutes of the queue with a window for training open, the answers to it given. *)
Definition then_cycle (script : list Remote) (s : JobSite Card) : JobSite Card :=
  site_step env (s <| jb_world := (with_window "training" 1 (jb_world s)) <| q_script := (λ r, (1, r)) <$> script |> |>)
    (Cycle true).

Definition datasets_and (r : Remote) : list Remote := [RemHttp 200 empty_body; r; RemFail].

Definition training_submissions (id : string) (s : JobSite Card) : nat := submissions id (q_trace (jb_world s)).

Definition pending_there : Remote := RemHttp 200 (mkRemoteBody "pending" None None None [] []).

(** How many jobs were posted to the inference server. *)
Definition posted_jobs (s : JobSite Card) : nat :=
  length (filter (λ c, match c with PostJob _ _ => true | _ => false end = true) (jb_calls s)).

(** ** The contract at work *)

(** A job of bob's that waits, one that is done, an evaluation of root's. *)
Definition busy : JobSite Card :=
  site [training "t" "bob" "c" PENDING None; training "z" "bob" "c" COMPLETED (Some "r0")]
    [(eval_job "e" "normal" PENDING 1 false) <| ev_user_id := "root" |>] accepted.

Lemma busy_calm : calm job_ids busy.
Proof.
  split; [repeat constructor|]. intros n _. split_and!; simpl; unfold keys; csimpl.
  all: repeat (apply not_elem_of_cons; split; [by intros [=]|]); apply not_elem_of_nil.
Qed.

Lemma busy_wf : wf (jb_world busy).
Proof. split_and!; by_decision. Qed.

Lemma requests_refine_the_life_of_a_job_witness :
  let s' := (serve root (RejectTraining "t") busy).2 in
  calm job_ids busy ∧ calm job_ids s' ∧
  tables_step true false "root" (jb_world busy) (jb_world s') ∧
  statuses s' = [("t", CANCELLED); ("z", COMPLETED)].
Proof.
  pose proof busy_calm as Hs.
  destruct (requests_refine_the_life_of_a_job env root (RejectTraining "t") busy Hs) as [Ht Hc].
  split_and!; [exact Hs|exact Hc|exact Ht|vm_compute; reflexivity].
Defined.

(** [bob] cancels his own job, and nothing of [root]'s. *)
Lemma only_administrators_start_jobs_witness :
  us_role bob ≠ "admin" ∧ calm job_ids busy ∧ wf (jb_world busy) ∧
  only_own "bob" (q_training (jb_world busy)) (q_training (jb_world (serve bob (CancelTraining "t") busy).2)) ∧
  statuses (serve bob (CancelTraining "t") busy).2 = [("t", CANCELLED); ("z", COMPLETED)].
Proof.
  assert (us_role bob ≠ "admin") as Hr by (vm_compute; discriminate).
  destruct (only_administrators_start_jobs env bob (CancelTraining "t") busy Hr busy_calm busy_wf) as (Ht & _).
  split_and!; [exact Hr|exact busy_calm|exact busy_wf|exact Ht|vm_compute; reflexivity].
Defined.

Definition an_evening : list SiteStep :=
  [Request root (ApproveTraining "t"); Cycle true; Request bob (CancelTraining "z"); Request root (RunNow "training" "z");
   Request root (SyncTraining "z"); Cycle true].

Lemma settled_jobs_are_final_witness :
  forallb keeps_jobs an_evening = true ∧ calm job_ids busy ∧ wf (jb_world busy) ∧
  training "z" "bob" "c" COMPLETED (Some "r0") ∈ q_training (jb_world (site_run env an_evening busy)).
Proof.
  split_and!; [vm_compute; reflexivity|exact busy_calm|exact busy_wf|].
  destruct (settled_jobs_are_final env an_evening busy eq_refl busy_calm busy_wf) as (Ht & _).
  apply Ht; [right; left|reflexivity].
Defined.

Definition waiting_job : TrainingJob := training "t" "bob" "c" PENDING None.
Abbreviation approved := (approve_job (config false) [hub_dataset] (λ _, []) (tr_id waiting_job) busy).

Lemma approval_succeeds :
  match approved.1 with Ok (Some j) => tr_status j = QUEUED | _ => False end ∧
  statuses (as_running (tr_id waiting_job) approved.2) = [("t", RUNNING); ("z", COMPLETED)].
Proof. vm_compute. split; reflexivity. Qed.

Lemma approval_and_schedule_dispatch_alike_witness :
  find_row (tr_id waiting_job) (q_training (jb_world busy)) = Some waiting_job ∧
  waiting (tr_status waiting_job) = true ∧ tr_course_id waiting_job ≠ HERETIC ∧ app_ready (config false) = true ∧
  _dispatch_scheduled_job (config false) [hub_dataset] (λ _, []) waiting_job busy =
    (Ok tt, as_running (tr_id waiting_job) approved.2) ∧
  statuses (as_running (tr_id waiting_job) approved.2) = [("t", RUNNING); ("z", COMPLETED)].
Proof.
  assert (tr_course_id waiting_job ≠ HERETIC) as Hh by (vm_compute; discriminate).
  pose proof (approval_and_schedule_dispatch_alike (config false) [hub_dataset] (λ _, [])
    waiting_job busy eq_refl eq_refl Hh eq_refl) as H.
  destruct approval_succeeds as [Ha Hs]. split_and!; [reflexivity..|exact Hh|reflexivity| |exact Hs].
  clear Hs. revert Ha H. generalize approved. intros [[[j|]|[|]] s'] Ha H; [exact H|contradiction..].
Defined.

(** ** Dispatch *)

(** An approved job has been submitted and stays queued: while the server reports it
    pending, an open window submits it again. *)
Definition waiting_site : JobSite Card := site [training "t" "bob" "c" PENDING None] [] accepted.

Example an_approved_job_is_submitted_twice :
  let s := (serve root (ApproveTraining "t") waiting_site).2 in
  let s' := then_cycle (pending_there :: datasets_and (started "r2")) s in
  statuses s = [("t", QUEUED)] ∧ posted_jobs s = 1%nat ∧
  statuses s' = [("t", RUNNING)] ∧ training_submissions "t" s' = 1%nat ∧
  (tr_llamolotl_job_id <$> q_training (jb_world s)) = [Some "r1"] ∧
  (tr_llamolotl_job_id <$> q_training (jb_world s')) = [Some "r2"].
Proof. by vm_compute. Qed.

(** Run now takes a running job for a waiting one: unless the next poll of its run is
    answered, it is submitted a second time and the first run is forgotten. *)
Example run_now_submits_a_running_job_again :
  let s := (serve root (RunNow "training" "t") (site [training "t" "bob" "c" RUNNING (Some "r1")] [] [])).2 in
  let s' := then_cycle (RemFail :: datasets_and (started "r2")) s in
  statuses s = [("t", QUEUED)] ∧ training_submissions "t" s' = 1%nat ∧
  (tr_llamolotl_job_id <$> q_training (jb_world s')) = [Some "r2"].
Proof. by vm_compute. Qed.

(** Promoting a job that is to run now is refused, not passed over. *)
Example promoting_a_run_now_job_is_refused :
  let s := (serve root (RunNow "training" "t") waiting_site).2 in
  (serve root (Promote "training" "t") s).1 = Raise (Http 400).
Proof. by vm_compute. Qed.

(** A job nobody approved is started all the same, for a user who may not train. *)
Example a_job_starts_without_approval :
  let '(r, s) := serve bob (CreateTraining "c" "qwen" None) (site [] [] []) in
  let s' := then_cycle (datasets_and (started "r1")) s in
  r = Ok () ∧ may SQLite [] (je_permissions env) bob "studio.training" = false ∧
  statuses s = [("j0", PENDING)] ∧ statuses s' = [("j0", RUNNING)].
Proof. by vm_compute. Qed.

(** An approval asks for the key of the evaluation's owner; the queue promotes the job
    without one. *)
Example an_evaluation_starts_without_a_key :
  let ann := mkUser "ann" "ann" "a@x" "user" "" 0 0 0 None None None None in
  let s := site [] [(eval_job "e" "normal" PENDING 1 false) <| ev_user_id := "ann" |>] [] in
  let e := mkJobEnv (je_cfg env) job_ids SQLite [] [root; ann] [] [] (λ _, []) "" "" in
  (handle_job e root (ApproveEval "e") s).1 = Raise (Http 400) ∧
  ev_status <$> q_eval (jb_world (site_step e s (Cycle true))) = [QUEUED].
Proof. by vm_compute. Qed.

(** A model-editing job has no course: the queue fails it. *)
Example a_promoted_heretic_job_fails :
  let s := then_cycle [] (site [training "t" "bob" HERETIC PENDING None] [] []) in
  (λ j, (tr_status j, tr_error_message j)) <$> q_training (jb_world s) =
    [(FAILED, Some "Training course not found")].
Proof. by vm_compute. Qed.

(** ** Other writers during a call *)

(** The owner cancels while the approval waits for its first answer: the approval then
    queues the job again. *)
Definition cancelled_meanwhile (w : QWorld Card) : QWorld Card :=
  w <| q_training := TrainingJobs.update_job_status (q_now w) "t" CANCELLED None None None (q_training w) |>.

Example approval_revives_a_cancelled_job :
  let s := waiting_site <| jb_answers :=
    [mkAnswer 1 cancelled_meanwhile NoReply; mkAnswer 1 (λ w, w) (ok_with [("job_id", JStr "r1")]);
     mkAnswer 1 (λ w, w) (ok_with [])] |> in
  statuses (serve root (ApproveTraining "t") s).2 = [("t", QUEUED)].
Proof. by vm_compute. Qed.

Example a_sync_revives_a_cancelled_job :
  let s := (site [training "t" "bob" "c" RUNNING (Some "r1")] [] []) <| jb_answers :=
    [mkAnswer 1 cancelled_meanwhile (ok_with [("status", JStr "running")])] |> in
  statuses (serve root (SyncTraining "t") s).2 = [("t", RUNNING)].
Proof. by vm_compute. Qed.

(** ** Remote runs left over *)

(** Cancelling a model-editing run asks the wrong endpoint of the server, and deleting a
    running job asks none. *)
Example a_heretic_run_is_cancelled_as_a_job :
  jb_calls (serve bob (CancelTraining "t") (site [training "t" "bob" HERETIC RUNNING (Some "task")] [] [])).2 =
    [DeleteRemoteJob "http://llamolotl:ctl" "task"].
Proof. by vm_compute. Qed.

Example a_deleted_job_keeps_running :
  let '(r, s) := serve root (DeleteTraining "t") (site [training "t" "bob" "c" RUNNING (Some "r1")] [] []) in
  r = Ok () ∧ statuses s = [] ∧ jb_calls s = [].
Proof. by vm_compute. Qed.

(** ** Configuration *)

(** The clean-up of [update_config] goes over the addresses it keeps, not over those it
    would have to drop, and removes nothing. *)
Example update_config_cleans_nothing_up f : CURATOR_API_CONFIGS (update_config f) = CURATOR_API_CONFIGS f.
Proof.
  simpl. assert (∀ d, CURATOR_API_CONFIGS f = d → foldl (λ d url, if has_key url (CURATOR_API_CONFIGS f) then d
    else filter (λ kv, kv.1 ≠ url) d) d (CURATOR_URLS f) = d) as Hf; [|by apply Hf].
  induction (CURATOR_URLS f) as [|url urls IH]; intros d <-; [done|]. simpl.
  destruct (has_key url (CURATOR_API_CONFIGS f)) eqn:Hk; [by apply IH|].
  rewrite (filter_keep (λ kv, kv.1 ≠ url)); [by apply IH|].
  apply Forall_forall. intros [k v] Hkv Heq. simpl in Heq. subst k.
  apply bool_decide_eq_false in Hk. apply Hk, list_elem_of_fmap. by exists (url, v).
Qed.

End JobApiRuns.
