(* ===== verification/VersionApi.v ===== *)
(** The endpoints of [routers/model_versions.py]: the gates of lines and versions over
    the service of [VersionService]. *)

From S2P Require Import Prelude Data Accounts AccessControl Jobs Versions VersionService.

Abbreviation linep A := (prog VWorld ApiExn A).

(** A step of the service whose refusals are answered with a status, [None] being one
    the endpoint does not catch. *)
Definition served {A} (status : VersionError → option Z) (m : service A) : linep A := λ w,
  match m w with
  | (Ok a, w') => (Ok a, w')
  | (Raise e, w') => (Raise match status e with Some code => Http code | None => Uncaught end, w')
  end.

(** [except ModelVersionError], its two subclasses with it. *)
Definition model_version_error (code : Z) (e : VersionError) : option Z :=
  match e with SelfCorpusError | MergeRequestFailed | PythonTypeError => None | _ => Some code end.

Definition provenance_broken (e : VersionError) : option Z :=
  match e with ProvenanceBroken _ => Some 409 | _ => None end.

Definition version_unresolvable (e : VersionError) : option Z :=
  match e with VersionUnresolvable _ => Some 409 | _ => None end.

Record PublishPreview := mkPublishPreview {
  pp_base_version_id : string;
  pp_adapter_version_ids : list string;
  pp_publishable : bool
}.

Section endpoints.
Context (uuid4 : nat → string) (dialect : Dialect) (groups : list Group) (USER_PERMISSIONS : json_dict).
Context (ENABLE_SELF_CORPUS : bool).
Implicit Types (user : User) (id : string).

Definition require_corpus : linep unit := if ENABLE_SELF_CORPUS then mret tt else raise (Http 503).

Definition _readable (line : ModelLine) user : option bool :=
  allowed dialect groups user "read" (ml_user_id line) (ml_access_control line).
Definition _writable (line : ModelLine) user : option bool :=
  allowed dialect groups user "write" (ml_user_id line) (ml_access_control line).

Definition _line_or_404 (line_id : string) : linep ModelLine :=
  t ← gets v_tables; answer 404 (ModelLines.get_line_by_id line_id (t_lines t)).

(** [if not gate: raise 401] *)
Definition require_line (gate : option bool) : linep unit :=
  ok ← responded gate; if ok : bool then mret tt else raise (Http 401).

Definition readable_line user id : linep ModelLine :=
  line ← _line_or_404 id; require_line (_readable line user);; mret line.
Definition writable_line user id : linep ModelLine :=
  line ← _line_or_404 id; require_line (_writable line user);; mret line.

Definition get_model_lines user : linep (list ModelLine) :=
  require_corpus;;
  t ← gets v_tables;
  responded (those_allowed (λ line, _readable line user) (ModelLines.get_lines (t_lines t))).

(** What is answered must be a line. *)
Definition create_model_line user (form : ModelLineForm) : linep ModelLine :=
  require_corpus;;
  if may dialect groups USER_PERMISSIONS user "studio.models" then
    line ← served (λ _, None) (insert_new_line uuid4 (us_id user) form);
    line ← answer 400 line;
    match truthy (ml_corpus_repo line) with
    | Some _ => mret line
    | None =>
        served (λ _, None) (update_corpus_repo uuid4 (ml_id line) (repo_id_for_model_line (ml_id line)));;
        t ← gets v_tables;
        responded (ModelLines.get_line_by_id (ml_id line) (t_lines t))
    end
  else raise (Http 401).

Definition get_model_line_by_id user id : linep (ModelLine * list ModelVersion) :=
  require_corpus;;
  line ← readable_line user id;
  t ← gets v_tables;
  mret (line, ModelVersions.get_versions_by_line (ml_id line) (t_versions t)).

Definition set_current_version_of user id (version_id : string) : linep ModelLine :=
  require_corpus;;
  line ← writable_line user id;
  served (model_version_error 400) (revert_line uuid4 (ml_id line) version_id (Some (us_id user))).

Definition delete_line (line_id : string) : service bool :=
  writes uuid4 (WDeleteLine line_id) (λ ok now t,
    (ModelLines.delete_line_by_id ok line_id (ModelVersions.get_versions_by_line line_id (t_versions t)) (t_lines t)).1).

Definition delete_model_line user id : linep bool :=
  require_corpus;;
  line ← writable_line user id;
  served (model_version_error 409) (delete_line (ml_id line)).

(** A version whose line the user may read. *)
Definition readable_version user id : linep ModelVersion :=
  t ← gets v_tables;
  version ← answer 404 (ModelVersions.get_version_by_id id (t_versions t));
  readable_line user (mv_line_id version);; mret version.

Definition get_version_by_id user id : linep ModelVersion := require_corpus;; readable_version user id.

Definition get_version_provenance user id : linep (list ModelVersion) :=
  require_corpus;;
  readable_version user id;;
  t ← gets v_tables;
  served provenance_broken (looked_up (walk_provenance id (t_versions t))).

Definition resolve_version_by_id user id : linep ResolvedVersion :=
  require_corpus;;
  readable_version user id;;
  t ← gets v_tables;
  served version_unresolvable (looked_up (resolve_version id None (t_lines t) (t_versions t))).

Definition preview_publish user id : linep PublishPreview :=
  require_corpus;;
  line ← readable_line user id;
  t ← gets v_tables;
  '(base, adapters) ← served (model_version_error 409)
                        (looked_up (current_base_and_adapters (ml_id line) (t_lines t) (t_versions t)));
  mret (mkPublishPreview (mv_id base) (mv_id <$> adapters) (bool_decide (adapters ≠ []))).

Definition publish_model_line user id (form : PublishJobs.PublishJobForm) : linep PublishJob :=
  require_corpus;;
  line ← writable_line user id;
  if may dialect groups USER_PERMISSIONS user "studio.publish"
  then served (model_version_error 409) (create_publish_job uuid4 (ml_id line) (us_id user) form)
  else raise (Http 401).

Definition get_publish_jobs user id : linep (list PublishJob) :=
  require_corpus;;
  line ← readable_line user id;
  jobs ← gets v_jobs;
  mret (PublishJobs.get_jobs_by_line (ml_id line) jobs).

End endpoints.

(** ** A request *)

Inductive LineCall :=
| GetLines
| CreateLine (form : ModelLineForm)
| GetLine (id : string)
| SetCurrentVersion (id version_id : string)
| DeleteLine (id : string)
| GetVersion (id : string)
| GetProvenance (id : string)
| ResolveVersion (id : string)
| PreviewPublish (id : string)
| Publish (id : string) (form : PublishJobs.PublishJobForm)
| GetPublishJobs (id : string).

Definition handle_line (uuid4 : nat → string) (dialect : Dialect) (groups : list Group)
    (USER_PERMISSIONS : json_dict) (enabled : bool) (user : User) (c : LineCall) : linep unit :=
  match c with
  | GetLines => void (get_model_lines dialect groups enabled user)
  | CreateLine form => void (create_model_line uuid4 dialect groups USER_PERMISSIONS enabled user form)
  | GetLine id => void (get_model_line_by_id dialect groups enabled user id)
  | SetCurrentVersion id version_id => void (set_current_version_of uuid4 dialect groups enabled user id version_id)
  | DeleteLine id => void (delete_model_line uuid4 dialect groups enabled user id)
  | GetVersion id => void (get_version_by_id dialect groups enabled user id)
  | GetProvenance id => void (get_version_provenance dialect groups enabled user id)
  | ResolveVersion id => void (resolve_version_by_id dialect groups enabled user id)
  | PreviewPublish id => void (preview_publish dialect groups enabled user id)
  | Publish id form => void (publish_model_line uuid4 dialect groups USER_PERMISSIONS enabled user id form)
  | GetPublishJobs id => void (get_publish_jobs dialect groups enabled user id)
  end.
