(* ===== verification/VersionApiContract.v ===== *)
(** What the endpoints of [VersionApi] promise. *)

From S2P Require Import Prelude Data Accounts AccessControl Jobs Versions VersionService VersionFacts VersionApi VersionPublish.
Import VersionRuns.

Section contract.
Context (uuid4 : nat → string) `{!Inj (=) (=) uuid4}.
Context (dialect : Dialect) (groups : list Group) (USER_PERMISSIONS : json_dict) (enabled : bool) (user : User).
Implicit Types (w : VWorld).

#[local] Notation writable := (λ line, _writable dialect groups line user).

(** What a request of [user] may have changed. *)
Record within_rights w w' : Prop := {
  wr_lines id line :
    find_row id (t_lines (v_tables w)) = Some line → writable line ≠ Some true →
    find_row id (t_lines (v_tables w')) = Some line;
  wr_new_lines id line :
    find_row id (t_lines (v_tables w')) = Some line → find_row id (t_lines (v_tables w)) = None →
    ml_user_id line = us_id user ∧ may dialect groups USER_PERMISSIONS user "studio.models" = true;
  wr_versions : t_versions (v_tables w') = t_versions (v_tables w);
  wr_jobs :
    v_jobs w' = v_jobs w ∨
    ∃ job line, v_jobs w' = v_jobs w ++ [job] ∧ pb_user_id job = us_id user ∧
      (pb_status job = QUEUED ∨ pb_status job = SCHEDULED) ∧
      find_row (pb_line_id job) (t_lines (v_tables w)) = Some line ∧ writable line = Some true ∧
      may dialect groups USER_PERMISSIONS user "studio.publish" = true
}.

#[local] Notation api f := (f dialect groups enabled user).

Lemma within_rights_refl w : within_rights w w.
Proof. split; [done|congruence|done|by left]. Qed.

(** After a program that writes nothing. *)
Lemma reads_then {A B} (m : linep A) (k : A → linep B) w :
  preserves (=) m → (∀ a, m w = (Ok a, w) → within_rights w (state_of (k a) w)) →
  within_rights w (state_of (m ≫= k) w).
Proof.
  intros Hm Hk. specialize (Hm w). unfold state_of in *. rewrite run_bind.
  destruct (m w) as [[a|e] w'] eqn:Hr; simpl in Hm; subst w'; [by apply Hk|apply within_rights_refl].
Qed.

Lemma reads {A} (m : linep A) w : preserves (=) m → within_rights w (state_of m w).
Proof. intros Hm. specialize (Hm w). rewrite <- Hm. apply within_rights_refl. Qed.

Lemma served_state {A} status (m : service A) w : state_of (served status m) w = state_of m w.
Proof. unfold state_of, served. by destruct (m w) as [[a|e] w']. Qed.

(** *** What only reads *)

Lemma reads_answer {A} code (o : option A) : preserves (=) (answer code o : linep A).
Proof. by destruct o. Qed.
Lemma reads_responded {A} (o : option A) : preserves (=) (responded o : linep A).
Proof. by destruct o. Qed.
Lemma reads_corpus : preserves (=) (require_corpus enabled).
Proof. unfold require_corpus. by destruct enabled. Qed.
Lemma reads_looked_up {A} status (r : option (result VersionError A)) : preserves (=) (served status (looked_up r)).
Proof. intros w. rewrite served_state. by destruct r as [[a|e]|]. Qed.
#[local] Hint Resolve reads_answer reads_responded reads_corpus reads_looked_up : s2db.

Lemma reads_line_or_404 id : preserves (=) (_line_or_404 id).
Proof. unfold _line_or_404. preserves_auto. Qed.
Lemma reads_require_line gate : preserves (=) (require_line gate).
Proof. unfold require_line. preserves_auto. Qed.
#[local] Hint Resolve reads_line_or_404 reads_require_line : s2db.

Lemma reads_readable_line id : preserves (=) (readable_line dialect groups user id).
Proof. unfold readable_line. preserves_auto. Qed.
Lemma reads_writable_line id : preserves (=) (writable_line dialect groups user id).
Proof. unfold writable_line. preserves_auto. Qed.
#[local] Hint Resolve reads_readable_line reads_writable_line : s2db.

Lemma reads_readable_version id : preserves (=) (readable_version dialect groups user id).
Proof. unfold readable_version. preserves_auto. Qed.
#[local] Hint Resolve reads_readable_version : s2db.

(** The gate of the writing endpoints. *)
Lemma writable_line_gate id w line w' :
  writable_line dialect groups user id w = (Ok line, w') →
  find_row id (t_lines (v_tables w)) = Some line ∧ ml_id line = id ∧ writable line = Some true.
Proof.
  unfold writable_line, _line_or_404, require_line. rewrite run_bind, run_gets_bind.
  unfold ModelLines.get_line_by_id. destruct (find_row id _) as [l|] eqn:Hl; [|done]. simpl.
  rewrite run_bind, run_responded_bind. destruct (_writable _ _ l user) as [[]|] eqn:Hw; try done.
  intros [= -> _]. split; [done|]. split; [by apply find_row_key in Hl|done].
Qed.

(** *** What writes one line *)

(** The write of one line the user may write. *)
Lemma writes_own_line w w' id line :
  find_row id (t_lines (v_tables w)) = Some line → writable line = Some true →
  (∀ k, k ≠ id → find_row k (t_lines (v_tables w')) = find_row k (t_lines (v_tables w))) →
  t_versions (v_tables w') = t_versions (v_tables w) → v_jobs w' = v_jobs w →
  within_rights w w'.
Proof.
  intros Hl Hw Hother Hv Hj. split; [| |done|by left].
  - intros k l Hk Hnw. rewrite Hother; [done|]. intros ->. congruence.
  - intros k l Hk Hnone. rewrite Hother in Hk; [congruence|]. intros ->. congruence.
Qed.

Lemma commit_only w : ∃ ok w1, next_commit w = (Ok ok, w1) ∧ v_tables w1 = v_tables w ∧ v_jobs w1 = v_jobs w.
Proof. unfold next_commit. destruct (v_commits w); eexists _, _; split_and!; reflexivity. Qed.

Lemma writes_state {A} op (returns : bool → Z → Tables → result VersionError A) w :
  ∃ ok now w1, state_of (writes uuid4 op returns) w = w1 <| v_tables := run_write uuid4 (v_tables w) (ok, now, op) |> ∧
    v_jobs w1 = v_jobs w.
Proof.
  unfold state_of, writes. rewrite run_bind. destruct (commit_only w) as (ok & w1 & -> & Ht & Hj).
  exists ok, (v_now w1), w1. unfold acting. simpl. by rewrite Ht.
Qed.

(** Going on after a write only to answer. *)
Lemma then_answers {A B} (m : service A) (k : A → service B) w :
  (∀ a, preserves (=) (k a)) → state_of (m ≫= k) w = state_of m w.
Proof.
  intros Hk. unfold state_of. rewrite run_bind. destruct (m w) as [[a|e] w'] eqn:Hm; [|done].
  symmetry. apply (Hk a w').
Qed.

Lemma move_rights w id version_id by_ line :
  find_row id (t_lines (v_tables w)) = Some line → writable line = Some true →
  within_rights w (state_of (revert_line uuid4 id version_id by_) w).
Proof.
  intros Hl Hw. unfold revert_line. rewrite then_answers by (intros []; preserves_auto).
  destruct (writes_state (WSetCurrent id version_id by_) (λ ok now t,
    (ModelLines.set_current_version ok now id version_id by_ (t_versions t) (t_lines t)).1) w)
    as (ok & now & w1 & Hst & Hj).
  unfold set_current_version. rewrite Hst. eapply writes_own_line; [done..| |done|done].
  intros k Hk. simpl. unfold ModelLines.set_current_version.
  destruct (find_row version_id _) as [v|]; [|done]. case_decide; [done|].
  destruct (ModelLines.get_line_by_id _ _) as [l|]; [|done].
  destruct (ModelLines.list_or_empty _) as [h|]; [|done]. destruct ok; [|done]. by apply find_update_row_ne.
Qed.

Lemma delete_rights w id line :
  find_row id (t_lines (v_tables w)) = Some line → writable line = Some true →
  within_rights w (state_of (delete_line uuid4 id) w).
Proof.
  intros Hl Hw. unfold delete_line.
  destruct (writes_state (WDeleteLine id) (λ ok now t, (ModelLines.delete_line_by_id ok id
    (ModelVersions.get_versions_by_line id (t_versions t)) (t_lines t)).1) w) as (ok & now & w1 & Hst & Hj).
  rewrite Hst. eapply writes_own_line; [done..| |done|done].
  intros k Hk. simpl. unfold ModelLines.delete_line_by_id. case_decide; [|done]. destruct ok; [|done].
  by apply find_delete_row_ne.
Qed.

Lemma publish_rights w id form line :
  find_row id (t_lines (v_tables w)) = Some line → writable line = Some true →
  may dialect groups USER_PERMISSIONS user "studio.publish" = true →
  within_rights w (state_of (create_publish_job uuid4 id (us_id user) form) w).
Proof.
  intros Hl Hw Hmay. unfold create_publish_job, state_of. rewrite run_gets_bind.
  unfold ModelLines.get_line_by_id. rewrite Hl.
  destruct (truthy (ml_corpus_repo line)) as [repo|]; [|apply within_rights_refl].
  rewrite run_bind. destruct (current_base_and_adapters _ _ _) as [[[base adapters]|e]|]; simpl.
  2, 3: apply within_rights_refl.
  case_decide; [apply within_rights_refl|]. unfold insert_new_job. rewrite run_bind.
  destruct (commit_only w) as (ok & w1 & -> & Ht & Hj). unfold acting. destruct ok; simpl.
  - split; simpl; rewrite ?Ht; try done; [congruence|]. right. rewrite Hj. unfold PublishJobs.insert_new_job.
    eexists _, line. split_and!; try done. simpl. destruct (PublishJobs.pf_scheduled_for form) as [[]|]; auto.
  - split; simpl; rewrite ?Ht; try done; [congruence|by left].
Qed.

(** The lines with one of the caller's added, as it is after [f]. *)
Lemma added_line w w' now form f :
  find_row (uuid4 (t_minted (v_tables w))) (t_lines (v_tables w)) = None →
  may dialect groups USER_PERMISSIONS user "studio.models" = true →
  keeps_key f → (∀ l, ml_user_id (f l) = ml_user_id l) →
  t_lines (v_tables w') = t_lines (v_tables w) ∨
  t_lines (v_tables w') =
    update_row (uuid4 (t_minted (v_tables w))) f
      (t_lines (v_tables w) ++ [ModelLines.new_line now (uuid4 (t_minted (v_tables w))) (us_id user) form]) →
  t_versions (v_tables w') = t_versions (v_tables w) → v_jobs w' = v_jobs w → within_rights w w'.
Proof.
  intros Hnew Hmay Hf Hu [Hl|Hl] Hv Hj; split; rewrite ?Hl; try done; try (by left); [congruence|..].
  - intros k l Hk _. rewrite find_update_row_ne by (done || congruence). by rewrite find_row_app, Hk.
  - intros k l Hk Hnone. split; [|done].
    destruct (decide (k = uuid4 (t_minted (v_tables w)))) as [->|Hne].
    + rewrite find_update_row_eq in Hk by done. rewrite find_row_app, Hnone in Hk. simpl in Hk.
      rewrite decide_True in Hk by done. simplify_eq/=. by rewrite Hu.
    + rewrite find_update_row_ne in Hk by done. rewrite find_row_app, Hnone in Hk. simpl in Hk.
      by rewrite decide_False in Hk.
Qed.

Lemma create_rights w form :
  tables_ok uuid4 (v_tables w) →
  within_rights w (state_of (create_model_line uuid4 dialect groups USER_PERMISSIONS enabled user form) w).
Proof.
  intros Hok. unfold create_model_line. apply reads_then; [auto with s2db|]. intros _ _.
  destruct (may _ _ _ _ _) eqn:Hmay; [|apply within_rights_refl].
  assert (find_row (uuid4 (t_minted (v_tables w))) (t_lines (v_tables w)) = None) as Hnew.
  { apply find_row_None, not_minted_keys; [done|]. apply Hok. }
  unfold state_of, insert_new_line, writes. rewrite run_bind. unfold served at 1. rewrite run_bind.
  destruct (commit_only w) as (ok & w1 & -> & Ht & Hj). unfold acting. simpl. rewrite Ht.
  destruct ok; simpl; [|by eapply (added_line _ _ 0 form id); auto].
  assert (∀ w', t_lines (v_tables w') = t_lines (v_tables w) ++ [ModelLines.new_line (v_now w1)
      (uuid4 (t_minted (v_tables w))) (us_id user) form] →
    t_versions (v_tables w') = t_versions (v_tables w) → v_jobs w' = v_jobs w → within_rights w w') as Hadded.
  { intros w' Hl ? ?. eapply (added_line _ _ (v_now w1) form id); try done. right. by rewrite update_row_id. }
  rewrite run_bind. simpl. destruct (truthy (lf_corpus_repo form)); [by apply Hadded|].
  rewrite run_bind. unfold served, update_corpus_repo, writes. rewrite run_bind.
  edestruct commit_only as (ok & w2 & -> & Ht2 & Hj2). simpl in Ht2, Hj2. unfold acting. simpl.
  rewrite run_gets_bind. match goal with |- within_rights w (_ ?w').2 => assert (within_rights w w') as Hw' end.
  - destruct ok; simpl; [|by apply Hadded; simpl; rewrite ?Ht2, ?Hj2].
    eapply (added_line _ _ (v_now w1) form (ModelLines.repo_row _ _)); try done; simpl; rewrite ?Ht2; [|done|congruence].
    by right.
  - by destruct (ModelLines.get_line_by_id _ _).
Qed.

(** C26: A request on model lines stays within the caller's rights.  Switched off, the whole
    surface answers 503 and changes nothing.  Otherwise a line the caller may not write -
    being neither administrator nor owner nor named by its access control - is what it
    was; a line that is new is the caller's, who may create models; no version is ever
    touched; and at most one publish job is added, in the caller's name, waiting for the
    queue, for a line the caller may write, by a caller who may publish. *)
Theorem line_requests_stay_within_rights w call :
  tables_ok uuid4 (v_tables w) →
  let r := handle_line uuid4 dialect groups USER_PERMISSIONS enabled user call w in
  within_rights w r.2 ∧ (enabled = false → r = (Raise (Http 503), w)).
Proof.
  intros Hok r. split; [|by intros ->; subst r; destruct call].
  subst r. change (within_rights w (state_of (handle_line uuid4 dialect groups USER_PERMISSIONS enabled user call) w)).
  destruct call as [|form|id|id version_id|id|id|id|id|id|id form|id]; simpl; rewrite void_state.
  2: by apply create_rights.
  3: {
    unfold set_current_version_of. apply reads_then; [auto with s2db|]. intros _ _.
    apply reads_then; [auto with s2db|]. intros line (Hl & <- & Hw)%writable_line_gate.
    rewrite served_state. by eapply move_rights. }
  3: {
    unfold delete_model_line. apply reads_then; [auto with s2db|]. intros _ _.
    apply reads_then; [auto with s2db|]. intros line (Hl & <- & Hw)%writable_line_gate.
    rewrite served_state. by eapply delete_rights. }
  7: {
    unfold publish_model_line. apply reads_then; [auto with s2db|]. intros _ _.
    apply reads_then; [auto with s2db|]. intros line (Hl & <- & Hw)%writable_line_gate.
    destruct (may _ _ _ _ _) eqn:Hmay; [|apply within_rights_refl]. rewrite served_state. by eapply publish_rights. }
  all: apply reads; unfold get_model_lines, get_model_line_by_id, get_version_by_id, get_version_provenance,
         resolve_version_by_id, preview_publish, get_publish_jobs; preserves_auto.
Qed.

End contract.

(** ** Requests on the line of [VersionRuns.History] *)

Import VersionRuns.History.

Definition someone (role name : string) : User :=
  mkUser name name (name +:+ "@example.org") role "" 0 0 0 None None None None.

(** Models and publishing are allowed to everybody. *)
Definition studio : json_dict := [("studio", JDict [("models", JBool true); ("publish", JBool true)])].

Definition ask_line (user : User) (call : LineCall) (w : VWorld) : result ApiExn unit * VWorld :=
  handle_line uuid4 SQLite [] studio true user call w.

Definition published_form (priority : string) : PublishJobs.PublishJobForm :=
  PublishJobs.mkPublishJobForm None None priority None.

Lemma line_requests_stay_within_rights_witness :
  let r := ask_line (someone "user" "eve") (DeleteLine "v0") (world [] []) in
  tables_ok uuid4 (v_tables (world [] [])) ∧ r.1 = Raise (Http 401) ∧
  find_row "v0" (t_lines (v_tables r.2)) = find_row "v0" (t_lines tables).
Proof.
  pose proof history_ok as Hok. split_and!; [exact Hok|vm_compute; reflexivity|].
  destruct (line_requests_stay_within_rights uuid4 SQLite [] studio true (someone "user" "eve") (world [] [])
    (DeleteLine "v0") Hok) as [[Hl _ _ _] _].
  assert (∃ line, find_row "v0" (t_lines tables) = Some line ∧
    _writable SQLite [] line (someone "user" "eve") ≠ Some true) as (line & Hline & Hw).
  { eexists. split; [vm_compute; reflexivity|vm_compute; discriminate]. }
  rewrite Hline. exact (Hl "v0" line Hline Hw).
Defined.

(** Jobs that are to run now do so outside every window, which is for administrators; a
    publisher asks for it in the form. *)
Example a_publisher_bypasses_the_window :
  let '(r, w) := ask_line (someone "user" "u") (Publish "v0" (published_form "run_now")) (world [] []) in
  r = Ok () ∧ (λ j, (pb_user_id j, pb_priority j, pb_status j)) <$> last (v_jobs w) = Some ("u", "run_now", QUEUED).
Proof. by vm_compute. Qed.

(** The lines' metadata is the caller's, the trail of moves among it: a value that is no
    list breaks every later move. *)
Example metadata_breaks_the_moves :
  let u := someone "user" "u" in
  let form := mkModelLineForm "n" None None (Some [("version_moves", JInt 1)]) in
  let w := (ask_line u (CreateLine form) (world [] [])).2 in
  let id := uuid4 (t_minted tables) in
  let w := state_of (insert_new_version uuid4 id (History.form "base" "c" None None)) w in
  (ask_line u (SetCurrentVersion id (uuid4 (S (t_minted tables)))) w).1 = Raise Uncaught.
Proof. by vm_compute. Qed.
