(* ===== verification/Studio.v ===== *)
(** The workspace tables: prompts, tools, models, knowledge bases with their files, as
    [models/prompts.py], [models/tools.py], [models/models.py], [models/knowledge.py] and
    [models/files.py] keep them, the modules of loaded tools, and the uploaded files on
    the local disk.

    Rows are those the code can read back, so that a lookup that finds one returns it.  A
    model's metadata and parameters are what dumping the checked form gives. *)

From Stdlib Require Import Ascii.
From stdpp Require Import sorting.
From S2P Require Import Prelude Data Accounts AccessControl Archive.

(** ** Rows *)

Record Prompt := mkPrompt {
  pr_command : string;
  pr_user_id : string;
  pr_title : string;
  pr_content : string;
  pr_timestamp : Z;
  pr_access_control : option json_dict
}.
#[export] Instance Prompt_keyed : Keyed Prompt := pr_command.

Record PromptForm := mkPromptForm {
  pf_command : string;
  pf_title : string;
  pf_content : string;
  pf_access_control : option json_dict
}.

Record ToolMeta := mkToolMeta {
  tm_description : option string;
  tm_manifest : option json_dict
}.

Record Tool := mkTool {
  tl_id : string;
  tl_user_id : string;
  tl_name : string;
  tl_content : string;
  tl_specs : list json_dict;
  tl_meta : ToolMeta;
  tl_valves : option json_dict;
  tl_access_control : option json_dict;
  tl_updated_at : Z;
  tl_created_at : Z
}.
#[export] Instance Tool_eta : Eta Tool := λ t,
  mkTool (tl_id t) (tl_user_id t) (tl_name t) (tl_content t) (tl_specs t) (tl_meta t) (tl_valves t)
    (tl_access_control t) (tl_updated_at t) (tl_created_at t).
#[export] Instance Tool_keyed : Keyed Tool := tl_id.

Record ToolForm := mkToolForm {
  to_id : string;
  to_name : string;
  to_content : string;
  to_meta : ToolMeta;
  to_access_control : option json_dict
}.

Record Model := mkModel {
  mo_id : string;
  mo_user_id : string;
  mo_base_model_id : option string;
  mo_name : string;
  mo_params : json_dict;
  mo_meta : json_dict;
  mo_access_control : option json_dict;
  mo_is_active : bool;
  mo_updated_at : Z;
  mo_created_at : Z
}.
#[export] Instance Model_eta : Eta Model := λ m,
  mkModel (mo_id m) (mo_user_id m) (mo_base_model_id m) (mo_name m) (mo_params m) (mo_meta m)
    (mo_access_control m) (mo_is_active m) (mo_updated_at m) (mo_created_at m).
#[export] Instance Model_keyed : Keyed Model := mo_id.

Record ModelForm := mkModelForm {
  mf_id : string;
  mf_base_model_id : option string;
  mf_name : string;
  mf_meta : json_dict;
  mf_params : json_dict;
  mf_access_control : option json_dict;
  mf_is_active : bool
}.

Record Knowledge := mkKnowledge {
  kn_id : string;
  kn_user_id : string;
  kn_name : string;
  kn_description : string;
  kn_data : option json_dict;
  kn_meta : option json_dict;
  kn_access_control : option json_dict;
  kn_created_at : Z;
  kn_updated_at : Z
}.
#[export] Instance Knowledge_eta : Eta Knowledge := λ k,
  mkKnowledge (kn_id k) (kn_user_id k) (kn_name k) (kn_description k) (kn_data k) (kn_meta k)
    (kn_access_control k) (kn_created_at k) (kn_updated_at k).
#[export] Instance Knowledge_keyed : Keyed Knowledge := kn_id.

Record KnowledgeForm := mkKnowledgeForm {
  nf_name : string;
  nf_description : string;
  nf_data : option json_dict;
  nf_meta : option json_dict;
  nf_access_control : option json_dict
}.

Record KnowledgeFile := mkKnowledgeFile {
  kf_knowledge_id : string;
  kf_file_id : string;
  kf_created_at : Z
}.

Record File := mkFile {
  fi_id : string;
  fi_user_id : string;
  fi_hash : option string;
  fi_filename : string;
  fi_path : option string;
  fi_data : option json_dict;
  fi_meta : option json_dict;
  fi_updated_at : Z
}.
#[export] Instance File_eta : Eta File := λ f,
  mkFile (fi_id f) (fi_user_id f) (fi_hash f) (fi_filename f) (fi_path f) (fi_data f) (fi_meta f) (fi_updated_at f).
#[export] Instance File_keyed : Keyed File := fi_id.

(** What the access gates read of a row. *)
Class Resource (A : Type) := { res_owner : A → string; res_access : A → option json_dict }.
#[export] Instance Prompt_resource : Resource Prompt := {| res_owner := pr_user_id; res_access := pr_access_control |}.
#[export] Instance Tool_resource : Resource Tool := {| res_owner := tl_user_id; res_access := tl_access_control |}.
#[export] Instance Model_resource : Resource Model := {| res_owner := mo_user_id; res_access := mo_access_control |}.
#[export] Instance Knowledge_resource : Resource Knowledge :=
  {| res_owner := kn_user_id; res_access := kn_access_control |}.

(** ** Tool modules *)

(** A settings class a tool declares: its schema, and the checked settings it makes of a
    form, [None] when it raises. *)
Record ValvesClass := mkValvesClass {
  vc_schema : json_dict;
  vc_make : json_dict → option json_dict
}.

(** What executing a tool's source leaves of it; [None] for specifications that cannot be
    made. *)
Record ToolModule := mkToolModule {
  md_specs : option (list json_dict);
  md_valves : option ValvesClass;
  md_user_valves : option ValvesClass
}.

(** ** State *)

(** A call of another service. *)
Inductive StudioCall :=
| CreateRepository (repo : string)
| DeleteRepository (repo : Json)
| DeleteVectors (collection file_id : string)
| DeleteCollection (collection : string).

Record Studio := mkStudio {
  sd_prompts : list Prompt;
  sd_tools : list Tool;
  sd_models : list Model;
  sd_knowledge : list Knowledge;
  sd_kfiles : list KnowledgeFile;
  sd_files : list File;
  sd_users : list User;
  (** [app.state.TOOLS], paths on the disk, and the vectors of a file in a collection *)
  sd_TOOLS : list (string * ToolModule);
  sd_disk : list string;
  sd_vectors : list (string * string);
  sd_now : Z;
  sd_minted : nat;
  sd_commits : list bool;
  sd_answers : list bool;
  sd_calls : list StudioCall
}.

#[export] Instance Studio_eta : Eta Studio := λ s,
  mkStudio (sd_prompts s) (sd_tools s) (sd_models s) (sd_knowledge s) (sd_kfiles s) (sd_files s) (sd_users s)
    (sd_TOOLS s) (sd_disk s) (sd_vectors s) (sd_now s) (sd_minted s) (sd_commits s) (sd_answers s) (sd_calls s).

Abbreviation studio A := (prog Studio ApiExn A).

Definition next_commit : studio bool := λ s,
  match sd_commits s with
  | [] => (Ok true, s)
  | ok :: rest => (Ok ok, s <| sd_commits := rest |>)
  end.

Definition now : studio Z := gets sd_now.
Definition mint : studio nat := λ s, (Ok (sd_minted s), s <| sd_minted := S (sd_minted s) |>).

(** A request to another service; whether it succeeded. *)
Definition remote (c : StudioCall) : studio bool := λ s,
  let s := s <| sd_calls := sd_calls s ++ [c] |> in
  match sd_answers s with
  | [] => (Ok true, s)
  | ok :: rest => (Ok ok, s <| sd_answers := rest |>)
  end.

(** [try: write; db.commit(); return ... except: return failed]; [possible] is whether the
    write violates no key. *)
Definition write {A} (possible : Studio → bool) (f : Studio → Studio) (read : Studio → A) (failed : A) : studio A :=
  ok ← next_commit;
  fits ← gets possible;
  if ok && fits then modify f;; gets read else mret failed.

Definition always (s : Studio) : bool := true.

Definition absent {A} `{Keyed A} (t : Studio → list A) (key : string) (s : Studio) : bool :=
  bool_decide (key ∉ keys (t s)).
Definition present {A} `{Keyed A} (t : Studio → list A) (key : string) (s : Studio) : bool :=
  bool_decide (key ∈ keys (t s)).

(** ** The tables *)

Definition newest {A} (at_ : A → Z) (t : list A) : list A := sort_by (λ a, - at_ a) t.

Module Prompts.

Definition put (f : list Prompt → list Prompt) (s : Studio) : Studio := s <| sd_prompts := f (sd_prompts s) |>.

Definition get_prompt_by_command (command : string) (s : Studio) : option Prompt := find_row command (sd_prompts s).

Definition get_prompts (s : Studio) : list Prompt := newest pr_timestamp (sd_prompts s).

Definition new_prompt (now : Z) (user_id : string) (f : PromptForm) : Prompt :=
  mkPrompt (pf_command f) user_id (pf_title f) (pf_content f) now (pf_access_control f).

Definition insert_new_prompt (user_id : string) (f : PromptForm) : studio (option Prompt) :=
  t ← now;
  let p := new_prompt t user_id f in
  write (absent sd_prompts (pf_command f)) (put (λ l, l ++ [p])) (λ _, Some p) None.

Definition form_row (now : Z) (f : PromptForm) (p : Prompt) : Prompt :=
  mkPrompt (pr_command p) (pr_user_id p) (pf_title f) (pf_content f) now (pf_access_control f).

Definition update_prompt_by_command (command : string) (f : PromptForm) : studio (option Prompt) :=
  t ← now;
  write (present sd_prompts command) (put (update_row command (form_row t f))) (get_prompt_by_command command) None.

Definition delete_prompt_by_command (command : string) : studio bool :=
  write always (put (delete_row command)) (λ _, true) false.

End Prompts.

Module Tools.

Definition put (f : list Tool → list Tool) (s : Studio) : Studio := s <| sd_tools := f (sd_tools s) |>.

Definition get_tool_by_id (id : string) (s : Studio) : option Tool := find_row id (sd_tools s).

Definition get_tools (s : Studio) : list Tool := newest tl_updated_at (sd_tools s).

Definition new_tool (now : Z) (user_id : string) (f : ToolForm) (specs : list json_dict) : Tool :=
  mkTool (to_id f) user_id (to_name f) (to_content f) specs (to_meta f) None (to_access_control f) now now.

Definition insert_new_tool (user_id : string) (f : ToolForm) (specs : list json_dict) : studio (option Tool) :=
  t ← now;
  let tool := new_tool t user_id f specs in
  write (absent sd_tools (to_id f)) (put (λ l, l ++ [tool])) (λ _, Some tool) None.

(** [tool.valves if tool.valves else {}] *)
Definition get_tool_valves_by_id (id : string) (s : Studio) : option json_dict :=
  (λ t, default [] (tl_valves t)) <$> find_row id (sd_tools s).

Definition update_tool_by_id (id : string) (f : Tool → Tool) : studio (option Tool) :=
  t ← now;
  write (present sd_tools id) (put (update_row id (λ r, (f r) <| tl_updated_at := t |>))) (get_tool_by_id id) None.

Definition update_tool_valves_by_id (id : string) (valves : json_dict) : studio (option Tool) :=
  t ← now;
  write always (put (update_row id (λ r, r <| tl_valves := Some valves |> <| tl_updated_at := t |>)))
    (get_tool_by_id id) None.

Definition delete_tool_by_id (id : string) : studio bool := write always (put (delete_row id)) (λ _, true) false.

End Tools.

Module Models.

Definition put (f : list Model → list Model) (s : Studio) : Studio := s <| sd_models := f (sd_models s) |>.

Definition get_model_by_id (id : string) (s : Studio) : option Model := find_row id (sd_models s).

(** Models built on another one, and the others. *)
Definition get_models (s : Studio) : list Model := filter (λ m, mo_base_model_id m ≠ None) (sd_models s).
Definition get_base_models (s : Studio) : list Model := filter (λ m, mo_base_model_id m = None) (sd_models s).

Definition new_model (now : Z) (user_id : string) (f : ModelForm) : Model :=
  mkModel (mf_id f) user_id (mf_base_model_id f) (mf_name f) (mf_params f) (mf_meta f) (mf_access_control f)
    (mf_is_active f) now now.

Definition insert_new_model (f : ModelForm) (user_id : string) : studio (option Model) :=
  t ← now;
  let m := new_model t user_id f in
  write (absent sd_models (mf_id f)) (put (λ l, l ++ [m])) (λ _, Some m) None.

Definition toggle_model_by_id (id : string) : studio (option Model) :=
  t ← now;
  write (present sd_models id)
    (put (update_row id (λ m, m <| mo_is_active := negb (mo_is_active m) |> <| mo_updated_at := t |>)))
    (get_model_by_id id) None.

(** The dump of the form without its id; [updated_at] is no field of it. *)
Definition form_row (f : ModelForm) (m : Model) : Model :=
  mkModel (mo_id m) (mo_user_id m) (mf_base_model_id f) (mf_name f) (mf_params f) (mf_meta f) (mf_access_control f)
    (mf_is_active f) (mo_updated_at m) (mo_created_at m).

Definition update_model_by_id (id : string) (f : ModelForm) : studio (option Model) :=
  write (present sd_models id) (put (update_row id (form_row f))) (get_model_by_id id) None.

Definition delete_model_by_id (id : string) : studio bool := write always (put (delete_row id)) (λ _, true) false.

Definition delete_all_models : studio bool := write always (put (λ _, [])) (λ _, true) false.

End Models.

Module Knowledges.

Definition put (f : list Knowledge → list Knowledge) (s : Studio) : Studio :=
  s <| sd_knowledge := f (sd_knowledge s) |>.

Definition get_knowledge_by_id (id : string) (s : Studio) : option Knowledge := find_row id (sd_knowledge s).

Definition get_knowledge_bases (s : Studio) : list Knowledge := newest kn_updated_at (sd_knowledge s).

Definition new_knowledge (now : Z) (id user_id : string) (f : KnowledgeForm) : Knowledge :=
  mkKnowledge id user_id (nf_name f) (nf_description f) (nf_data f) (nf_meta f) (nf_access_control f) now now.

Definition insert_new_knowledge (uuid4 : nat → string) (user_id : string) (f : KnowledgeForm)
    : studio (option Knowledge) :=
  n ← mint;
  t ← now;
  let k := new_knowledge t (uuid4 n) user_id f in
  write (absent sd_knowledge (uuid4 n)) (put (λ l, l ++ [k])) (λ _, Some k) None.

Definition form_row (now : Z) (f : KnowledgeForm) (k : Knowledge) : Knowledge :=
  mkKnowledge (kn_id k) (kn_user_id k) (nf_name f) (nf_description f) (nf_data f) (nf_meta f) (nf_access_control f)
    (kn_created_at k) now.

(** The three updates: of the form's columns, the data, the metadata. *)
Definition update_row_by_id (id : string) (f : Z → Knowledge → Knowledge) : studio (option Knowledge) :=
  t ← now; write always (put (update_row id (f t))) (get_knowledge_by_id id) None.

Definition update_knowledge_by_id (id : string) (f : KnowledgeForm) : studio (option Knowledge) :=
  update_row_by_id id (λ t, form_row t f).
Definition update_knowledge_data_by_id (id : string) (data : json_dict) : studio (option Knowledge) :=
  update_row_by_id id (λ t k, k <| kn_data := Some data |> <| kn_updated_at := t |>).
Definition update_knowledge_meta_by_id (id : string) (meta : json_dict) : studio (option Knowledge) :=
  update_row_by_id id (λ t k, k <| kn_meta := Some meta |> <| kn_updated_at := t |>).

(** A database that enforces foreign keys deletes the file associations with it. *)
Definition delete_knowledge_by_id (cascades : bool) (id : string) : studio bool :=
  write always
    (λ s, let s := put (delete_row id) s in
          if cascades then s <| sd_kfiles := filter (λ kf, kf_knowledge_id kf ≠ id) (sd_kfiles s) |> else s)
    (λ _, true) false.

End Knowledges.

Module KnowledgeFiles.

Definition put (f : list KnowledgeFile → list KnowledgeFile) (s : Studio) : Studio :=
  s <| sd_kfiles := f (sd_kfiles s) |>.

Definition is_in (knowledge_id file_id : string) (kf : KnowledgeFile) : Prop :=
  kf_knowledge_id kf = knowledge_id ∧ kf_file_id kf = file_id.
#[export] Instance is_in_dec knowledge_id file_id kf : Decision (is_in knowledge_id file_id kf).
Proof. unfold is_in. apply _. Defined.

Definition add_file_to_knowledge (knowledge_id file_id : string) : studio bool :=
  l ← gets sd_kfiles;
  if decide (Exists (is_in knowledge_id file_id) l) then mret true
  else t ← now; write always (put (λ l, l ++ [mkKnowledgeFile knowledge_id file_id t])) (λ _, true) false.

Definition remove_file_from_knowledge (knowledge_id file_id : string) : studio bool :=
  write always (put (filter (λ kf, ¬ is_in knowledge_id file_id kf))) (λ _, true) false.

Definition remove_all_files_from_knowledge (knowledge_id : string) : studio bool :=
  write always (put (filter (λ kf, kf_knowledge_id kf ≠ knowledge_id))) (λ _, true) false.

Definition of_knowledge (knowledge_id : string) (s : Studio) : list KnowledgeFile :=
  filter (λ kf, kf_knowledge_id kf = knowledge_id) (sd_kfiles s).

Definition get_file_ids_by_knowledge_id (knowledge_id : string) (s : Studio) : list string :=
  kf_file_id <$> newest kf_created_at (of_knowledge knowledge_id s).

Definition get_knowledge_id_for_file (file_id : string) (s : Studio) : option string :=
  kf_knowledge_id <$> head (filter (λ kf, kf_file_id kf = file_id) (sd_kfiles s)).

(** The order of file ids, by their characters, and a query for the next [size] files
    after [last]. *)
Definition id_le (f g : File) : Prop := String.le (fi_id f) (fi_id g).
#[export] Instance id_le_dec f g : Decision (id_le f g).
Proof. unfold id_le. apply _. Defined.
Definition order_by_id (l : list File) : list File := merge_sort id_le l.

Definition after (last : string) (f : File) : Prop := String.le last (fi_id f) ∧ fi_id f ≠ last.
#[export] Instance after_dec last f : Decision (after last f).
Proof. unfold after. apply _. Defined.

Definition joined (knowledge_id : string) (s : Studio) : list File :=
  filter (λ f, Exists (is_in knowledge_id (fi_id f)) (sd_kfiles s)) (sd_files s).

Definition next_batch (size : nat) (knowledge_id last : string) (s : Studio) : list File :=
  take size (order_by_id (filter (after last) (joined knowledge_id s))).

(** [iter_files_by_knowledge_id], its batches in order; [fuel] bounds how many there may
    be. *)
Fixpoint batches (fuel : nat) (size : nat) (knowledge_id last_id : string) (s : Studio) : option (list (list File)) :=
  match fuel with
  | O => None
  | S fuel =>
      let batch := next_batch size knowledge_id last_id s in
      match last batch with
      | None => Some []
      | Some f => rest ← batches fuel size knowledge_id (fi_id f) s; Some (batch :: rest)
      end
  end.

Definition iter_files_by_knowledge_id (size : nat) (knowledge_id : string) (s : Studio) : option (list (list File)) :=
  batches (S (length (sd_files s))) size knowledge_id "" s.

End KnowledgeFiles.

Module Files.

Definition put (f : list File → list File) (s : Studio) : Studio := s <| sd_files := f (sd_files s) |>.

Definition get_file_by_id (id : string) (s : Studio) : option File := find_row id (sd_files s).

Definition get_files_by_ids (ids : list string) (s : Studio) : list File :=
  newest fi_updated_at (filter (λ f, fi_id f ∈ ids) (sd_files s)).

(** [try: file = ...first(); set fields; db.commit() except: return None] *)
Definition update_file (id : string) (f : File → File) : studio (option File) :=
  write (present sd_files id) (put (update_row id f)) (get_file_by_id id) None.

Definition update_file_hash_by_id (id hash : string) : studio (option File) :=
  update_file id (λ f, f <| fi_hash := Some hash |>).

(** [{**(old if old else {}), **new}] *)
Definition merged (new : json_dict) (old : option json_dict) : option json_dict :=
  Some (dict_update (default [] old) new).

Definition update_file_data_by_id (id : string) (data : json_dict) : studio (option File) :=
  update_file id (λ f, f <| fi_data := merged data (fi_data f) |>).

Definition update_file_path_by_id (id path : string) : studio (option File) :=
  t ← now; update_file id (λ f, f <| fi_path := Some path |> <| fi_updated_at := t |>).

Definition update_file_metadata_by_id (id : string) (meta : json_dict) : studio (option File) :=
  update_file id (λ f, f <| fi_meta := merged meta (fi_meta f) |>).

End Files.
