(* ===== verification/Plugin.v ===== *)
(** [utils/plugin.py] as far as tools go: the frontmatter of a source, the rewriting of
    its imports, and loading it; executing a source and installing what it requires are
    parameters. *)

From Stdlib Require Import Ascii.
From S2P Require Import Prelude Data Accounts AccessControl Studio.

(** ** The frontmatter *)

Definition quotes : string := String "034" (String "034" (String "034" EmptyString)).

Definition is_key_char (c : ascii) : bool :=
  let n := nat_of_ascii c in
  bool_decide ((65 ≤ n)%nat ∧ (n ≤ 90)%nat ∨ (97 ≤ n)%nat ∧ (n ≤ 122)%nat ∨ n = 95%nat).

(** The pattern of a line: blanks, a key of letters and underscores, a colon, and the
    value. *)
Fixpoint key_value (key : string) (s : string) : option (string * string) :=
  match s with
  | String c s' =>
      if is_key_char c then key_value (key +:+ String c EmptyString) s'
      else if decide (c = ":"%char ∧ key ≠ "") then Some (key, strip s') else None
  | EmptyString => None
  end.

Definition frontmatter_line (line : string) : option (string * string) := key_value "" (lstrip line).

Fixpoint frontmatter_lines (lines : list string) (d : json_dict) : json_dict :=
  match lines with
  | [] => d
  | line :: rest =>
      if contains quotes line then d
      else frontmatter_lines rest
             match frontmatter_line line with Some (k, v) => dict_set k (JStr v) d | None => d end
  end.

Definition extract_frontmatter (content : string) : json_dict :=
  match splitlines content with
  | first :: rest => if decide (strip first = quotes) then frontmatter_lines rest [] else []
  | [] => []
  end.

(** ** Imports *)

Definition REPLACEMENTS : list (string * string) :=
  [("from utils", "from selfai_ui.utils"); ("from apps", "from selfai_ui.apps");
   ("from main", "from selfai_ui.main"); ("from config", "from selfai_ui.config")].

Definition replace_imports (content : string) : string :=
  foldl (λ content r, replace r.1 r.2 content) content REPLACEMENTS.

(** ** Loading *)

(** [req.strip() for req in requirements.split(",")] *)
Definition requirements (frontmatter : json_dict) : list string :=
  match truthy (json_str (dict_lookup "requirements" frontmatter)) with
  | Some r => strip <$> split_on ","%char r
  | None => []
  end.

Section load.
(** What executing a source leaves as its [Tools], if it does, and which requirements can
    be installed. *)
Context (execute : string → option ToolModule) (installs : string → bool).

Definition install_frontmatter_requirements (frontmatter : json_dict) : bool :=
  forallb installs (requirements frontmatter).

(** Loading a given source; [None] when something is raised. *)
Definition load_source (content : string) : option (ToolModule * json_dict) :=
  if install_frontmatter_requirements (extract_frontmatter content)
  then m ← execute content; Some (m, extract_frontmatter content)
  else None.

(** Loading the source that is stored, and storing it with its imports rewritten. *)
Definition load_stored (id : string) : studio ToolModule :=
  tool ← gets (Tools.get_tool_by_id id);
  tool ← responded tool;
  let content := replace_imports (tl_content tool) in
  Tools.update_tool_by_id id (λ t, t <| tl_content := content |>);;
  responded (execute content).

(** [TOOLS[id] if id in TOOLS else load_tools_module_by_id(id)] *)
Definition cached (id : string) (s : Studio) : option ToolModule :=
  snd <$> (list_find (λ im, im.1 = id) (sd_TOOLS s) ≫= λ r, Some r.2).

Definition cache (id : string) (m : ToolModule) (s : Studio) : Studio :=
  s <| sd_TOOLS := (id, m) :: filter (λ im, im.1 ≠ id) (sd_TOOLS s) |>.
Definition uncache (id : string) (s : Studio) : Studio :=
  s <| sd_TOOLS := filter (λ im, im.1 ≠ id) (sd_TOOLS s) |>.

Definition tool_module (id : string) : studio ToolModule :=
  c ← gets (cached id);
  match c with
  | Some m => mret m
  | None => m ← load_stored id; modify (cache id m);; mret m
  end.

End load.

(** ** A user's own settings of a tool *)

(** [user_settings["tools"]["valves"]], the two dicts made where they are missing; [None]
    when one of them is no dict. *)
Definition user_valves (settings : json_dict) : option (json_dict * json_dict * json_dict) :=
  let settings := if has_key "tools" settings then settings else dict_set "tools" (JDict []) settings in
  match dict_lookup "tools" settings with
  | Some (JDict tools) =>
      let tools := if has_key "valves" tools then tools else dict_set "valves" (JDict []) tools in
      match dict_lookup "valves" tools with
      | Some (JDict valves) => Some (settings, tools, valves)
      | _ => None
      end
  | _ => None
  end.

(** [user.settings.model_dump()]: the declared field first. *)
Definition settings_dump (d : json_dict) : json_dict :=
  ("ui", default (JDict []) (dict_lookup "ui" d)) :: filter (λ kv, kv.1 ≠ "ui") d.

Definition settings_of (user_id : string) (s : Studio) : option json_dict :=
  u ← find_row user_id (sd_users s);
  Some match us_settings u with Some d => settings_dump d | None => [] end.

Definition get_user_valves_by_id_and_user_id (id user_id : string) (s : Studio) : option Json :=
  settings ← settings_of user_id s;
  '(_, _, valves) ← user_valves settings;
  Some (default (JDict []) (dict_lookup id valves)).

(** The outcome of the write is not looked at. *)
Definition update_user_valves_by_id_and_user_id (id user_id : string) (v : json_dict) : studio unit :=
  settings ← gets (settings_of user_id);
  match (settings ← settings; user_valves settings) with
  | Some (settings, tools, valves) =>
      let settings := dict_set "tools" (JDict (dict_set "valves" (JDict (dict_set id (JDict v) valves)) tools)) settings in
      ok ← next_commit;
      modify (λ s, s <| sd_users := (Users.update_user_by_id ok user_id (λ u, u <| us_settings := Some settings |>) (sd_users s)).2 |>)
  | None => mret tt
  end.
