(* ===== verification/StudioApi.v ===== *)
(** The endpoints of [routers/prompts.py], [routers/models.py], [routers/tools.py] and
    [routers/knowledge.py] over the state of [Studio].

    A request runs alone.  The vector database is a parameter, as are the execution of
    tools and the installation of what they require. *)

From Stdlib Require Import Ascii.
From S2P Require Import Prelude Data Accounts AccessControl Archive VersionService Studio Plugin.

(** [str.isidentifier] on ASCII text *)
Definition is_digit_char (c : ascii) : bool :=
  let n := nat_of_ascii c in bool_decide ((48 ≤ n)%nat ∧ (n ≤ 57)%nat).
Definition isidentifier (s : string) : bool :=
  match s with
  | String c s' => is_key_char c && all_chars (λ c, is_key_char c || is_digit_char c) s'
  | EmptyString => false
  end.

Definition repo_id_for_kb (kb_id : string) : string := SELFAI_REPO_PREFIX +:+ kb_id.

(** [(meta or {}).get("self_corpus", {}).get("repo")]; [None] when an attribute is
    missing. *)
Definition linked_repo (meta : option json_dict) : option (option Json) :=
  match default (JDict []) (dict_lookup "self_corpus" (default [] meta)) with
  | JDict d => Some (dict_lookup "repo" d)
  | _ => None
  end.

(** [if linked_repo: ...] *)
Definition is_linked (repo : option Json) : bool := match repo with Some j => json_truthy j | None => false end.

Definition link_to (repo : string) (meta : option json_dict) : json_dict :=
  dict_set "self_corpus" (JDict [("repo", JStr repo)]) (default [] meta).

(** [try: m except Exception: raise a 400] *)
Definition or_400 {A} (m : studio A) : studio A := λ s,
  match m s with (Raise _, s') => (Raise (Http 400), s') | r => r end.

Section endpoints.
Context (uuid4 : nat → string) (dialect : Dialect) (groups : list Group) (USER_PERMISSIONS : json_dict).
Context (execute : string → option ToolModule) (installs : string → bool).
Context (UPLOAD_DIR : string) (ENABLE_SELF_CORPUS cascades : bool).
(** The hexadecimal digest of a text. *)
Context (sha256_hex : string → string).
(** [VECTOR_DB_CLIENT.query] of a file's own collection: whether it holds documents of the
    file; [None] when it raises. *)
Context (already_embedded : string → Studio → option bool).
(** [save_docs_to_vector_db] of documents made of the files, with the hash that is checked
    against what the collection holds: what it answers, [None] when it raises, and the
    vectors there are then. *)
Context (save_docs : string → list string → option string → Studio → option bool * list (string * string)).
Implicit Types (user : User) (id : string).

(** ** Gates *)

Definition gate {A} `{Resource A} (type : string) user (a : A) : option bool :=
  allowed dialect groups user type (res_owner a) (res_access a).

Definition list_for {A} `{Resource A} (type : string) user (all : list A) : studio (list A) :=
  if decide (us_role user = "admin") then mret all else responded (those_allowed (gate type user) all).

(** A row that must exist, handed out if it may be read; without an answer otherwise. *)
Definition shown {A} `{Resource A} user (found : Studio → option A) : studio (option A) :=
  a ← gets found;
  a ← answer 401 a;
  ok ← responded (gate "read" user a);
  mret (if ok : bool then Some a else None).

(** A row that must exist, for its owner or an administrator. *)
Definition owned {A} `{Resource A} (missing prohibited : Z) user (found : Studio → option A) : studio A :=
  a ← gets found;
  a ← answer missing a;
  if decide (res_owner a ≠ us_id user ∧ us_role user ≠ "admin") then raise (Http prohibited) else mret a.

Definition permitted user (permission : string) : studio unit :=
  if may dialect groups USER_PERMISSIONS user permission then mret tt else raise (Http 401).

Definition as_admin {A} user (m : studio A) : studio A :=
  if decide (us_role user = "admin") then m else raise (Http 401).

(** ** Prompts *)

Definition get_prompts user : studio (list Prompt) := all ← gets Prompts.get_prompts; list_for "read" user all.
Definition get_prompt_list user : studio (list Prompt) := all ← gets Prompts.get_prompts; list_for "write" user all.

Definition create_new_prompt user (f : PromptForm) : studio Prompt :=
  permitted user "studio.prompts";;
  taken ← gets (Prompts.get_prompt_by_command (pf_command f));
  match taken with
  | None => p ← Prompts.insert_new_prompt (us_id user) f; answer 400 p
  | Some _ => raise (Http 400)
  end.

Definition get_prompt_by_command user (command : string) : studio (option Prompt) :=
  shown user (Prompts.get_prompt_by_command ("/" +:+ command)).

Definition update_prompt_by_command user (command : string) (f : PromptForm) : studio Prompt :=
  owned 401 401 user (Prompts.get_prompt_by_command ("/" +:+ command));;
  p ← Prompts.update_prompt_by_command ("/" +:+ command) f; answer 401 p.

Definition delete_prompt_by_command user (command : string) : studio bool :=
  owned 401 401 user (Prompts.get_prompt_by_command ("/" +:+ command));;
  Prompts.delete_prompt_by_command ("/" +:+ command).

(** ** Models *)

Definition get_models user : studio (list Model) := all ← gets Models.get_models; list_for "write" user all.
Definition get_base_models user : studio (list Model) := as_admin user (gets Models.get_base_models).

Definition create_new_model user (f : ModelForm) : studio Model :=
  permitted user "studio.models";;
  taken ← gets (Models.get_model_by_id (mf_id f));
  match taken with
  | None => m ← Models.insert_new_model f (us_id user); answer 401 m
  | Some _ => raise (Http 401)
  end.

Definition get_model_by_id user id : studio (option Model) := shown user (Models.get_model_by_id id).

Definition toggle_model_by_id user id : studio Model :=
  m ← gets (Models.get_model_by_id id);
  m ← answer 401 m;
  ok ← responded (gate "write" user m);
  if ok : bool then m ← Models.toggle_model_by_id id; answer 400 m else raise (Http 401).

(** The user is not looked at. *)
Definition update_model_by_id user id (f : ModelForm) : studio (option Model) :=
  m ← gets (Models.get_model_by_id id);
  answer 401 m;;
  Models.update_model_by_id id f.

Definition delete_model_by_id user id : studio bool :=
  owned 401 401 user (Models.get_model_by_id id);; Models.delete_model_by_id id.

Definition delete_all_models user : studio bool := as_admin user Models.delete_all_models.

(** ** Tools *)

Definition get_tools user : studio (list Tool) := all ← gets Tools.get_tools; list_for "read" user all.
Definition get_tool_list user : studio (list Tool) := all ← gets Tools.get_tools; list_for "write" user all.
Definition export_tools user : studio (list Tool) := as_admin user (gets Tools.get_tools).

(** The source as it is stored, its module put in place of what was cached, and its
    specifications. *)
Definition load_into id (f : ToolForm) : studio (ToolForm * list json_dict) :=
  let content := replace_imports (to_content f) in
  '(m, manifest) ← responded (load_source execute installs content);
  let f := mkToolForm (to_id f) (to_name f) content (mkToolMeta (tm_description (to_meta f)) (Some manifest))
             (to_access_control f) in
  modify (cache id m);;
  specs ← responded (md_specs m);
  mret (f, specs).

Definition create_new_tools user (f : ToolForm) : studio Tool :=
  permitted user "studio.tools";;
  if negb (isidentifier (to_id f)) then raise (Http 400)
  else
    let id := lower (to_id f) in
    taken ← gets (Tools.get_tool_by_id id);
    match taken with
    | None =>
        or_400 ('(f, specs) ← load_into id (mkToolForm id (to_name f) (to_content f) (to_meta f) (to_access_control f));
                t ← Tools.insert_new_tool (us_id user) f specs;
                answer 400 t)
    | Some _ => raise (Http 400)
    end.

Definition get_tools_by_id user id : studio (option Tool) := shown user (Tools.get_tool_by_id id).

Definition form_tool (f : ToolForm) (specs : list json_dict) (t : Tool) : Tool :=
  mkTool (tl_id t) (tl_user_id t) (to_name f) (to_content f) specs (to_meta f) (tl_valves t) (to_access_control f)
    (tl_updated_at t) (tl_created_at t).

Definition update_tools_by_id user id (f : ToolForm) : studio Tool :=
  owned 401 401 user (Tools.get_tool_by_id id);;
  or_400 ('(f, specs) ← load_into id f;
          t ← Tools.update_tool_by_id id (form_tool f specs);
          answer 400 t).

Definition delete_tools_by_id user id : studio bool :=
  owned 401 401 user (Tools.get_tool_by_id id);;
  result ← Tools.delete_tool_by_id id;
  (if result : bool then modify (uncache id) else mret tt);;
  mret result.

(** A tool that must exist; nothing else is asked for. *)
Definition any_tool id : studio Tool := t ← gets (Tools.get_tool_by_id id); answer 401 t.

Definition get_tools_valves_by_id user id : studio (option json_dict) :=
  any_tool id;; gets (Tools.get_tool_valves_by_id id).

Definition valves_spec (class : ToolModule → option ValvesClass) id : studio (option json_dict) :=
  any_tool id;; m ← tool_module execute id; mret (vc_schema <$> class m).

Definition get_tools_valves_spec_by_id user id := valves_spec md_valves id.
Definition get_tools_user_valves_spec_by_id user id := valves_spec md_user_valves id.

Definition is_given (j : Json) : bool := match j with JNull => false | _ => true end.

(** The checked settings of a form without its nulls. *)
Definition made_valves (class : ToolModule → option ValvesClass) id (form : json_dict) : studio json_dict :=
  any_tool id;;
  m ← tool_module execute id;
  c ← answer 401 (class m);
  answer 400 (vc_make c (filter (λ kv, is_given kv.2 = true) form)).

Definition update_tools_valves_by_id user id (form : json_dict) : studio json_dict :=
  v ← made_valves md_valves id form; Tools.update_tool_valves_by_id id v;; mret v.

Definition get_tools_user_valves_by_id user id : studio (option Json) :=
  any_tool id;; gets (get_user_valves_by_id_and_user_id id (us_id user)).

Definition update_tools_user_valves_by_id user id (form : json_dict) : studio json_dict :=
  v ← made_valves md_user_valves id form; update_user_valves_by_id_and_user_id id (us_id user) v;; mret v.

(** ** Knowledge *)

(** A knowledge base with the files in it. *)
Definition with_files (k : Knowledge) (s : Studio) : Knowledge * list File :=
  (k, Files.get_files_by_ids (KnowledgeFiles.get_file_ids_by_knowledge_id (kn_id k) s) s).

Definition knowledge_for (type : string) user : studio (list (Knowledge * list File)) :=
  all ← gets Knowledges.get_knowledge_bases;
  l ← list_for type user all;
  gets (λ s, (λ k, with_files k s) <$> l).
Definition get_knowledge user := knowledge_for "read" user.
Definition get_knowledge_list user := knowledge_for "write" user.

Definition create_new_knowledge user (f : KnowledgeForm) : studio Knowledge :=
  permitted user "studio.knowledge";;
  k ← Knowledges.insert_new_knowledge uuid4 (us_id user) f;
  k ← answer 400 k;
  if ENABLE_SELF_CORPUS && bool_decide (kn_access_control k = None) then
    let repo := repo_id_for_kb (kn_id k) in
    created ← remote (CreateRepository repo);
    if created : bool then
      updated ← Knowledges.update_knowledge_meta_by_id (kn_id k) (link_to repo (kn_meta k));
      mret (default k updated)
    else mret k
  else mret k.

(** What became of one knowledge base: nothing, or whether its repository was created. *)
Definition backfill_one (k : Knowledge) : studio (option bool) :=
  match kn_access_control k with
  | Some _ => mret None
  | None =>
      repo ← responded (linked_repo (kn_meta k));
      if is_linked repo then mret None
      else
        let repo := repo_id_for_kb (kn_id k) in
        ok ← remote (CreateRepository repo);
        (if ok : bool then void (Knowledges.update_knowledge_meta_by_id (kn_id k) (link_to repo (kn_meta k)))
         else mret tt);;
        mret (Some ok)
  end.

(** Those created and those that failed. *)
Fixpoint backfill (l : list Knowledge) : studio (list string * list string) :=
  match l with
  | [] => mret ([], [])
  | k :: rest =>
      done_ ← backfill_one k;
      '(created, failed) ← backfill rest;
      mret match done_ with
           | Some true => (kn_id k :: created, failed)
           | Some false => (created, kn_id k :: failed)
           | None => (created, failed)
           end
  end.

Definition backfill_self_corpus_repos user : studio (list string * list string) :=
  as_admin user (if ENABLE_SELF_CORPUS then l ← gets Knowledges.get_knowledge_bases; backfill l else raise (Http 400)).

Definition get_knowledge_by_id user id : studio (option (Knowledge * list File)) :=
  k ← shown user (Knowledges.get_knowledge_by_id id);
  match k with Some k => r ← gets (with_files k); mret (Some r) | None => mret None end.

Definition own_knowledge user id : studio Knowledge := owned 400 400 user (Knowledges.get_knowledge_by_id id).

Definition update_knowledge_by_id user id (f : KnowledgeForm) : studio (Knowledge * list File) :=
  own_knowledge user id;;
  k ← Knowledges.update_knowledge_by_id id f;
  k ← answer 400 k;
  gets (with_files k).

(** [Storage.move_file] on the local disk; what it raises is logged by its caller. *)
Definition move_file (path subdirectory : string) : studio (option string) :=
  let new_path := UPLOAD_DIR +:+ "/" +:+ subdirectory +:+ "/" +:+ basename path in
  there ← gets sd_disk;
  if decide (path = new_path) then mret (Some new_path)
  else if decide (path ∈ there)
  then modify (λ s, s <| sd_disk := new_path :: filter (λ p, p ≠ path ∧ p ≠ new_path) there |>);; mret (Some new_path)
  else mret None.

Definition _move_file_to_kb (file : File) (knowledge_id : string) : studio unit :=
  match truthy (fi_path file) with
  | None => mret tt
  | Some path =>
      if starts_with (UPLOAD_DIR +:+ "/" +:+ knowledge_id +:+ "/") path ||
         contains ("/" +:+ knowledge_id +:+ "/") path
      then mret tt
      else if decide (dirname path ≠ UPLOAD_DIR ∧ basename (dirname path) ≠ knowledge_id) then raise (Http 400)
      else
        new_path ← move_file path knowledge_id;
        match new_path with
        | Some new_path => Files.update_file_path_by_id (fi_id file) new_path;; mret tt
        | None => mret tt
        end
  end.

Definition any_file id : studio File := f ← gets (Files.get_file_by_id id); answer 400 f.

(** [file.data.get("content", "")]; [None] without data. *)
Definition text_content (f : File) : option Json :=
  d ← fi_data f; Some (default (JStr "") (dict_lookup "content" d)).

Definition save_docs_to_vector_db (collection : string) (file_ids : list string) (hash : option string) : studio (option bool) :=
  r ← gets (save_docs collection file_ids hash);
  modify (λ s, s <| sd_vectors := r.2 |>);;
  mret r.1.

(** The document made of a file's own content: its page is a text, its metadata a
    dictionary. *)
Definition document (f : File) : option string :=
  match text_content f, fi_meta f with Some (JStr text), Some _ => Some text | _, _ => None end.

(** [len(text_content)] of the log. *)
Definition has_len (j : Json) : bool := match j with JStr _ | JList _ | JDict _ => true | _ => false end.

(** [process_file] into a knowledge base: the file is already processed or its content
    makes a document; its content is written back, then its hash, and when it is in the
    collection that is noted. *)
Definition process_file (file_id collection : string) : studio unit :=
  file ← gets (Files.get_file_by_id file_id);
  file ← answer 400 file;
  embedded ← gets (already_embedded (fi_id file));
  embedded ← answer 400 embedded;
  (if embedded : bool then mret tt else void (answer 400 (document file)));;
  content ← answer 400 (text_content file);
  if has_len content then
    Files.update_file_data_by_id (fi_id file) [("content", content)];;
    match content with
    | JStr text =>
        let hash := sha256_hex text in
        Files.update_file_hash_by_id (fi_id file) hash;;
        saved ← save_docs_to_vector_db collection [fi_id file] (Some hash);
        saved ← answer 400 saved;
        if saved : bool
        then void (Files.update_file_metadata_by_id (fi_id file) [("collection_name", JStr collection)])
        else mret tt
    | _ => raise (Http 400)
    end
  else raise (Http 400).

(** A file is processed unless it is a pipeline. *)
Definition processed (file : File) (collection : string) : studio unit :=
  if ends_with "_pipeline.json" (fi_filename file) then mret tt else process_file (fi_id file) collection.

Definition add_file_to_knowledge_by_id user id (file_id : string) : studio (Knowledge * list File) :=
  k ← own_knowledge user id;
  file ← any_file file_id;
  if decide (default [] (fi_data file) = []) then raise (Http 400)
  else
    _move_file_to_kb file id;;
    processed file id;;
    added ← KnowledgeFiles.add_file_to_knowledge id file_id;
    if added : bool then gets (with_files k) else raise (Http 400).

(** [VECTOR_DB_CLIENT.delete]; it may raise. *)
Definition delete_vectors (collection file_id : string) : studio unit :=
  ok ← remote (DeleteVectors collection file_id);
  if ok : bool then modify (λ s, s <| sd_vectors := filter (λ v, v ≠ (collection, file_id)) (sd_vectors s) |>)
  else raise Uncaught.

Definition update_file_from_knowledge_by_id user id (file_id : string) : studio (Knowledge * list File) :=
  k ← own_knowledge user id;
  file ← any_file file_id;
  delete_vectors (kn_id k) file_id;;
  processed file id;;
  gets (with_files k).

Definition remove_file_from_knowledge_by_id user id (file_id : string) : studio (Knowledge * list File) :=
  k ← own_knowledge user id;
  file ← any_file file_id;
  (if ends_with "_pipeline.json" (fi_filename file) then mret tt else delete_vectors (kn_id k) file_id);;
  KnowledgeFiles.remove_file_from_knowledge id file_id;;
  gets (with_files k).

(** [delete_collection], whose failure is ignored, and [Storage.delete_subdirectory]. *)
Definition clear_collection id : studio unit :=
  ok ← remote (DeleteCollection id);
  (if ok : bool then modify (λ s, s <| sd_vectors := filter (λ v, v.1 ≠ id) (sd_vectors s) |>) else mret tt);;
  modify (λ s, s <| sd_disk := filter (λ p, starts_with (UPLOAD_DIR +:+ "/" +:+ id +:+ "/") p = false) (sd_disk s) |>).

Definition delete_knowledge_by_id user id : studio bool :=
  k ← own_knowledge user id;
  clear_collection id;;
  repo ← responded (linked_repo (kn_meta k));
  (match repo with
   | Some j => if json_truthy j then remote (DeleteRepository j);; mret tt else mret tt
   | None => mret tt
   end);;
  Knowledges.delete_knowledge_by_id cascades id.

Definition reset_knowledge_by_id user id : studio (option Knowledge) :=
  own_knowledge user id;;
  clear_collection id;;
  KnowledgeFiles.remove_all_files_from_knowledge id;;
  Knowledges.update_knowledge_data_by_id id [("file_ids", JList [])].

(** The files as they are read, again once they were moved. *)
Fixpoint moved_files id (file_ids : list string) : studio (list (option File)) :=
  match file_ids with
  | [] => mret []
  | file_id :: rest =>
      file ← any_file file_id;
      file ← match truthy (fi_path file) with
             | Some _ => _move_file_to_kb file id;; gets (Files.get_file_by_id file_id)
             | None => mret (Some file)
             end;
      files ← moved_files id rest;
      mret (file :: files)
  end.

(** The files of a batch whose documents are prepared: their hash and content are written. *)
Fixpoint prepared (files : list File) : studio (list string) :=
  match files with
  | [] => mret []
  | file :: rest =>
      match document file with
      | Some text =>
          Files.update_file_hash_by_id (fi_id file) (sha256_hex text);;
          Files.update_file_data_by_id (fi_id file) [("content", JStr text)];;
          ids ← prepared rest;
          mret (fi_id file :: ids)
      | None => prepared rest
      end
  end.

(** The files that were completed: all that were prepared, or none. *)
Definition process_files_batch (files : list File) (collection : string) : studio (list string) :=
  ids ← prepared files;
  match ids with
  | [] => mret []
  | _ =>
      saved ← save_docs_to_vector_db collection ids None;
      match saved with
      | Some _ =>
          for_each (λ file_id, void (Files.update_file_metadata_by_id file_id [("collection_name", JStr collection)])) ids;;
          mret ids
      | None => mret []
      end
  end.

(** What the errors of a batch say is left out. *)
Definition add_files_to_knowledge_batch user id (file_ids : list string) : studio (Knowledge * list File) :=
  own_knowledge user id;;
  files ← moved_files id file_ids;
  files ← answer 400 (mapM (λ f, f) files);
  completed ← process_files_batch files id;
  for_each (λ file_id, KnowledgeFiles.add_file_to_knowledge id file_id;; mret tt) completed;;
  k ← gets (Knowledges.get_knowledge_by_id id);
  k ← responded k;
  gets (with_files k).

(** The record of a file that is exported: its id, its content and its name. *)
Definition exported (f : File) : option (string * Json * string) :=
  if ends_with "_pipeline.json" (fi_filename f) then None
  else
    content ← dict_lookup "content" (default [] (fi_data f));
    if json_truthy content then Some (fi_id f, content, fi_filename f) else None.

(** The user is not looked at. *)
Definition prepare_curator_input (batch_size : nat) (ICEBERG_BASE_URL : string) user id
    : studio (list (string * Json * string)) :=
  k ← gets (Knowledges.get_knowledge_by_id id);
  answer 400 k;;
  if decide (ICEBERG_BASE_URL ≠ "") then raise (Http 501)
  else
    b ← gets (KnowledgeFiles.iter_files_by_knowledge_id batch_size id);
    b ← responded b;
    mret (omap exported (concat b)).

End endpoints.

(** ** A request *)

Inductive StudioRequest :=
| CreatePrompt (f : PromptForm)
| UpdatePrompt (command : string) (f : PromptForm)
| DeletePrompt (command : string)
| CreateModel (f : ModelForm)
| ToggleModel (id : string)
| UpdateModel (id : string) (f : ModelForm)
| DeleteModel (id : string)
| DeleteAllModels
| CreateTool (f : ToolForm)
| UpdateTool (id : string) (f : ToolForm)
| DeleteTool (id : string)
| ToolSpec (id : string)
| UserToolSpec (id : string)
| UpdateValves (id : string) (form : json_dict)
| UpdateUserValves (id : string) (form : json_dict)
| CreateKnowledge (f : KnowledgeForm)
| BackfillRepos
| UpdateKnowledge (id : string) (f : KnowledgeForm)
| AddFile (id file_id : string)
| UpdateFile (id file_id : string)
| RemoveFile (id file_id : string)
| DeleteKnowledge (id : string)
| ResetKnowledge (id : string)
| AddFiles (id : string) (file_ids : list string).

(** What the endpoints depend on. *)
Record StudioEnv := mkStudioEnv {
  se_uuid4 : nat → string;
  se_dialect : Dialect;
  se_groups : list Group;
  se_permissions : json_dict;
  se_execute : string → option ToolModule;
  se_installs : string → bool;
  se_upload_dir : string;
  se_corpus : bool;
  se_cascades : bool;
  se_sha256 : string → string;
  se_embedded : string → Studio → option bool;
  se_save : string → list string → option string → Studio → option bool * list (string * string)
}.

Definition handle_studio (e : StudioEnv) (user : User) (r : StudioRequest) : studio unit :=
  let d := se_dialect e in let g := se_groups e in let p := se_permissions e in
  let x := se_execute e in let i := se_installs e in let u := se_upload_dir e in
  match r with
  | CreatePrompt f => void (create_new_prompt d g p user f)
  | UpdatePrompt command f => void (update_prompt_by_command user command f)
  | DeletePrompt command => void (delete_prompt_by_command user command)
  | CreateModel f => void (create_new_model d g p user f)
  | ToggleModel id => void (toggle_model_by_id d g user id)
  | UpdateModel id f => void (update_model_by_id user id f)
  | DeleteModel id => void (delete_model_by_id user id)
  | DeleteAllModels => void (delete_all_models user)
  | CreateTool f => void (create_new_tools d g p x i user f)
  | UpdateTool id f => void (update_tools_by_id x i user id f)
  | DeleteTool id => void (delete_tools_by_id user id)
  | ToolSpec id => void (get_tools_valves_spec_by_id x user id)
  | UserToolSpec id => void (get_tools_user_valves_spec_by_id x user id)
  | UpdateValves id form => void (update_tools_valves_by_id x user id form)
  | UpdateUserValves id form => void (update_tools_user_valves_by_id x user id form)
  | CreateKnowledge f => void (create_new_knowledge (se_uuid4 e) d g p (se_corpus e) user f)
  | BackfillRepos => void (backfill_self_corpus_repos (se_corpus e) user)
  | UpdateKnowledge id f => void (update_knowledge_by_id user id f)
  | AddFile id file_id => void (add_file_to_knowledge_by_id u (se_sha256 e) (se_embedded e) (se_save e) user id file_id)
  | UpdateFile id file_id => void (update_file_from_knowledge_by_id (se_sha256 e) (se_embedded e) (se_save e) user id file_id)
  | RemoveFile id file_id => void (remove_file_from_knowledge_by_id user id file_id)
  | DeleteKnowledge id => void (delete_knowledge_by_id u (se_cascades e) user id)
  | ResetKnowledge id => void (reset_knowledge_by_id u user id)
  | AddFiles id file_ids => void (add_files_to_knowledge_batch u (se_sha256 e) (se_save e) user id file_ids)
  end.
