(* ===== verification/StudioFacts.v ===== *)
(** What the workspace endpoints may change of what is not the caller's. *)

From S2P Require Import Prelude Data Accounts AccessControl Archive Studio Plugin StudioApi.

(** ** Tables of owned rows *)

Section tables.
Context {A : Type} `{!Keyed A} (owner : A → string) (u : string).
(** What may become of a row that is another's. *)
Context (sim : relation A) `{!PreOrder sim} (sim_owner : ∀ r r', sim r r' → owner r' = owner r).
Implicit Types (t : list A) (k : string).

Record table_respects t t' : Prop := {
  tr_kept k r : find_row k t = Some r → owner r ≠ u → ∃ r', find_row k t' = Some r' ∧ sim r r';
  tr_after k r' : find_row k t' = Some r' → owner r' = u ∨ ∃ r, find_row k t = Some r ∧ sim r r'
}.

Lemma table_respects_preorder : PreOrder table_respects.
Proof.
  split.
  - intros t. split; [intros k r Hr _; exists r; by split|intros k r Hr; right; exists r; by split].
  - intros t1 t2 t3 [K1 A1] [K2 A2]. split.
    + intros k r Hr Hu. destruct (K1 k r Hr Hu) as (r2 & H2 & S2).
      destruct (K2 k r2 H2) as (r3 & H3 & S3); [by rewrite (sim_owner _ _ S2)|].
      exists r3. split; [done|by etransitivity].
    + intros k r3 H3. destruct (A2 k r3 H3) as [?|(r2 & H2 & S2)]; [by left|].
      destruct (A1 k r2 H2) as [Hu|(r & Hr & S)]; [left; by rewrite (sim_owner _ _ S2)|].
      right. exists r. split; [done|by etransitivity].
Qed.

Lemma respects_insert t r : owner r = u → row_key r ∉ keys t → table_respects t (t ++ [r]).
Proof.
  intros Hu Hnew. apply find_row_None in Hnew. split.
  - intros k r0 Hr _. exists r0. split; [by rewrite find_row_app, Hr|done].
  - intros k r' Hr'. rewrite find_row_app in Hr'.
    destruct (find_row k t) as [r0|]; [simplify_eq; right; exists r'; by split|].
    simpl in Hr'. case_decide; simplify_eq. by left.
Qed.

Lemma respects_delete t id : (∀ r, find_row id t = Some r → owner r = u) → table_respects t (delete_row id t).
Proof.
  intros Hu. split.
  - intros k r0 Hr Hne. exists r0. split; [|done]. rewrite find_delete_row_ne; [done|]. intros ->. by apply Hne, Hu.
  - intros k r' Hr'. right. exists r'. split; [|done].
    destruct (decide (k = id)) as [->|Hne]; [|by rewrite find_delete_row_ne in Hr'].
    apply find_row_Some in Hr' as [Hin Hk]. by apply list_elem_of_filter in Hin as [? _].
Qed.

(** A row of one's own written, or another's as it may be. *)
Lemma respects_update t id f :
  keeps_key f → (∀ r, find_row id t = Some r → (owner r = u ∧ owner (f r) = u) ∨ sim r (f r)) →
  table_respects t (update_row id f t).
Proof.
  intros Hf Hr. split.
  - intros k r Hk Hu. rewrite find_update_row, Hk by done. case_decide as Heq; [|exists r; by split].
    subst k. exists (f r). split; [done|]. by destruct (Hr r Hk) as [[? _]|?].
  - intros k r' Hk. rewrite find_update_row in Hk by done. case_decide as Heq; [|right; exists r'; by split].
    subst k. destruct (find_row id t) as [r|] eqn:Hid; [|done]. simpl in Hk. injection Hk as <-.
    destruct (Hr r eq_refl) as [[_ ?]|?]; [by left|]. right. by exists r.
Qed.
End tables.

(** ** The whole state *)

(** Another's tool keeps everything but its settings, the imports of its source as they
    are rewritten, and when it was touched. *)
Record same_tool (t t' : Tool) : Prop := {
  st_fields : (tl_id t', tl_user_id t', tl_name t', tl_specs t', tl_meta t', tl_access_control t') =
              (tl_id t, tl_user_id t, tl_name t, tl_specs t, tl_meta t, tl_access_control t);
  st_content : ∃ n, tl_content t' = Nat.iter n replace_imports (tl_content t)
}.

#[export] Instance same_tool_preorder : PreOrder same_tool.
Proof.
  split; [intros t; split; [done|by exists 0%nat]|].
  intros t1 t2 t3 [F1 [n N1]] [F2 [m N2]]. split; [congruence|]. exists (m + n)%nat.
  by rewrite N2, N1, Nat.iter_add.
Qed.

Lemma filter_other (Q : KnowledgeFile → Prop) `{∀ kf, Decision (Q kf)} id' (l : list KnowledgeFile) :
  (∀ kf, kf_knowledge_id kf = id' → Q kf) →
  filter (λ kf, kf_knowledge_id kf = id') (filter Q l) = filter (λ kf, kf_knowledge_id kf = id') l.
Proof.
  intros HQ. rewrite list_filter_filter. apply list_filter_iff. intros kf. naive_solver.
Qed.


(** What a file says, the empty text without data. *)
Definition content (f : File) : Json := default (JStr "") (text_content f).

(** A file keeps its id, owner and name, what it says and the rest of its data, its
    metadata but for the collection it was last put in; its hash is kept or that of what
    it says.  Its path and when it was touched may change. *)
Record same_file (sha256_hex : string → string) (f f' : File) : Prop := {
  sf_row : (fi_id f', fi_user_id f', fi_filename f') = (fi_id f, fi_user_id f, fi_filename f);
  sf_content : content f' = content f;
  sf_data key : key ≠ "content" → dict_lookup key (default [] (fi_data f')) = dict_lookup key (default [] (fi_data f));
  sf_meta key : key ≠ "collection_name" →
    dict_lookup key (default [] (fi_meta f')) = dict_lookup key (default [] (fi_meta f));
  sf_hash : fi_hash f' = fi_hash f ∨ ∃ text, content f = JStr text ∧ fi_hash f' = Some (sha256_hex text)
}.

#[export] Instance same_file_preorder sha256_hex : PreOrder (same_file sha256_hex).
Proof.
  split; [intros f; split; auto|]. intros f1 f2 f3 [R1 C1 D1 M1 H1] [R2 C2 D2 M2 H2]. split; try congruence.
  - intros key Hk. rewrite D2 by done. by apply D1.
  - intros key Hk. rewrite M2 by done. by apply M1.
  - destruct H2 as [->|(text & Ht & Hh)]; [done|]. right. exists text. split; [congruence|done].
Qed.

Section respects.
Context (sha256_hex : string → string) (dialect : Dialect) (groups : list Group) (user : User).
Context (Hrole : us_role user ≠ "admin").
Implicit Types (s : Studio).

#[local] Notation u := (us_id user).

(** Another's model keeps everything, but that it may be switched on and off by those its
    access control lets write. *)
Record same_model (m m' : Model) : Prop := {
  sm_fields : m' = m <| mo_is_active := mo_is_active m' |> <| mo_updated_at := mo_updated_at m' |>;
  sm_kept : has_access dialect groups u "write" (mo_access_control m) ≠ Some true → m' = m
}.

#[export] Instance same_model_preorder : PreOrder same_model.
Proof.
  split; [intros []; by split|]. intros m1 m2 m3 [F1 K1] [F2 K2]. split.
  - rewrite F2. rewrite F1. by destruct m1.
  - intros Ha. pose proof (K1 Ha) as ->. by apply K2.
Qed.

Record respects s s' : Prop := {
  re_prompts : table_respects pr_user_id u eq (sd_prompts s) (sd_prompts s');
  re_models : table_respects mo_user_id u same_model (sd_models s) (sd_models s');
  re_tools : table_respects tl_user_id u same_tool (sd_tools s) (sd_tools s');
  re_knowledge : table_respects kn_user_id u eq (sd_knowledge s) (sd_knowledge s');
  re_users k r : find_row k (sd_users s) = Some r → k ≠ u → find_row k (sd_users s') = Some r;
  (** The files in another's knowledge base, and every file. *)
  re_kfiles id k : find_row id (sd_knowledge s) = Some k → kn_user_id k ≠ u →
    KnowledgeFiles.of_knowledge id s' = KnowledgeFiles.of_knowledge id s;
  re_files : Forall2 (same_file sha256_hex) (sd_files s) (sd_files s')
}.

Lemma prompts_preorder : PreOrder (table_respects pr_user_id u (@eq Prompt)).
Proof. apply table_respects_preorder; [apply _|by intros r ? <-]. Qed.
Lemma models_preorder : PreOrder (table_respects mo_user_id u same_model).
Proof. apply table_respects_preorder; [apply _|]. by intros r r' [-> _]. Qed.
Lemma tools_preorder : PreOrder (table_respects tl_user_id u same_tool).
Proof. apply table_respects_preorder; [apply _|]. intros r r' [[=] _]. congruence. Qed.
Lemma knowledge_preorder : PreOrder (table_respects kn_user_id u (@eq Knowledge)).
Proof. apply table_respects_preorder; [apply _|by intros r ? <-]. Qed.
#[local] Existing Instances prompts_preorder models_preorder tools_preorder knowledge_preorder.

#[export] Instance respects_preorder : PreOrder respects.
Proof.
  split.
  - intros s. split; try reflexivity. done.
  - intros s1 s2 s3 [P1 M1 T1 K1 U1 F1 L1] [P2 M2 T2 K2 U2 F2 L2]. split; try congruence.
    + etransitivity; [exact P1|exact P2].
    + etransitivity; [exact M1|exact M2].
    + etransitivity; [exact T1|exact T2].
    + etransitivity; [exact K1|exact K2].
    + auto.
    + intros id k Hk Hu. destruct K1 as [Kept _]. destruct (Kept id k Hk Hu) as (k' & Hk' & <-).
      rewrite (F2 id k Hk' Hu). by eapply F1.
    + etransitivity; [exact L1|exact L2].
Qed.

(** *** Programs that write no table *)

Definition same_tables s s' : Prop :=
  sd_prompts s' = sd_prompts s ∧ sd_models s' = sd_models s ∧ sd_tools s' = sd_tools s ∧
  sd_knowledge s' = sd_knowledge s ∧ sd_users s' = sd_users s ∧ sd_kfiles s' = sd_kfiles s ∧ sd_files s' = sd_files s.

#[export] Instance same_tables_preorder : PreOrder same_tables.
Proof.
  split; [by intros s|]. unfold same_tables. intros s1 s2 s3 H12 H23. destruct_and!. split_and!; congruence.
Qed.

Lemma same_respects s s' : same_tables s s' → respects s s'.
Proof.
  intros (Hp & Hm & Ht & Hk & Hu & Hf & Hl). split; rewrite ?Hp, ?Hm, ?Ht, ?Hk, ?Hu, ?Hl; try reflexivity; [done|].
  intros id k _ _. unfold KnowledgeFiles.of_knowledge. by rewrite Hf.
Qed.

#[local] Notation quiet := (preserves same_tables).

Lemma studio_quiet_answer {A} code (o : option A) : quiet (answer code o : studio A).
Proof. destruct o; [apply preserves_ret|apply preserves_raise]; apply _. Qed.
Lemma studio_quiet_responded {A} (o : option A) : quiet (responded o : studio A).
Proof. destruct o; [apply preserves_ret|apply preserves_raise]; apply _. Qed.
Lemma studio_quiet_commit : quiet next_commit.
Proof. intros s. unfold next_commit, state_of. destruct (sd_commits s); by repeat split. Qed.
Lemma quiet_remote c : quiet (remote c).
Proof. intros s. unfold remote, state_of. simpl. destruct (sd_answers s); by repeat split. Qed.
Lemma quiet_mint : quiet mint.
Proof. intros s. by repeat split. Qed.
Lemma quiet_now : quiet now.
Proof. apply preserves_gets, _. Qed.
Lemma studio_quiet_modify f : (∀ s, same_tables s (f s)) → quiet (modify f : studio unit).
Proof. intros Hf s. apply Hf. Qed.
#[local] Hint Resolve studio_quiet_answer studio_quiet_responded studio_quiet_commit quiet_remote quiet_mint quiet_now : quiet.

(** *** Programs that write, given a fact about the tables *)

Section under.
Context (P : Studio → Prop) (HP : ∀ s s', same_tables s s' → P s → P s').

Definition under s s' : Prop := P s → respects s s' ∧ P s'.

#[export] Instance under_preorder : PreOrder under.
Proof.
  split; [intros s Hs; by split|]. intros s1 s2 s3 H12 H23 H1. destruct (H12 H1) as [R1 H2], (H23 H2) as [R2 H3].
  split; [by etransitivity|done].
Qed.

Lemma quiet_under {A} (m : studio A) : quiet m → preserves under m.
Proof. intros Hm s Hs. split; [apply same_respects, Hm|eapply HP; [apply Hm|done]]. Qed.

Lemma write_under {A} possible f (read : Studio → A) failed :
  (∀ s, P s → possible s = true → respects s (f s) ∧ P (f s)) →
  preserves under (write possible f read failed).
Proof.
  intros Hf. unfold write. apply preserves_bind; [apply _|apply quiet_under, studio_quiet_commit|]. intros ok s Hs.
  unfold state_of. rewrite run_gets_bind. destruct ok; [|by split]. simpl.
  destruct (possible s) eqn:Hp; [|by split]. by apply Hf.
Qed.

Lemma from_under {A} (m : studio A) s : P s → preserves under m → respects s (state_of m s).
Proof. intros Hs Hm. by apply Hm. Qed.
End under.

(** *** The gates *)

Lemma owned_then {A B} `{Resource A} missing prohibited (found : Studio → option A) (k : A → studio B) s :
  (∀ a, found s = Some a → res_owner a = u → respects s (state_of (k a) s)) →
  respects s (state_of (owned missing prohibited user found ≫= k) s).
Proof.
  intros Hk. unfold owned, state_of. rewrite run_bind, run_gets_bind. destruct (found s) as [a|]; [|reflexivity].
  simpl. rewrite run_bind. simpl. destruct (decide _) as [?|Hno]; simpl; [reflexivity|].
  apply Hk; [done|]. destruct (decide (res_owner a = u)); [done|]. by destruct Hno.
Qed.

Lemma or_400_state {A} (m : studio A) s : state_of (or_400 m) s = state_of m s.
Proof. unfold or_400, state_of. by destruct (m s) as [[]]. Qed.

Lemma or_400_preserves {A} (R : relation Studio) (m : studio A) : preserves R m → preserves R (or_400 m).
Proof. intros Hm s. rewrite or_400_state. apply Hm. Qed.

(** *** Writing one table *)

Lemma put_prompts s f :
  table_respects pr_user_id u eq (sd_prompts s) (f (sd_prompts s)) → respects s (Prompts.put f s).
Proof. intros Hf. split; simpl; try reflexivity; [exact Hf|done]. Qed.

Lemma put_models s f :
  table_respects mo_user_id u same_model (sd_models s) (f (sd_models s)) → respects s (Models.put f s).
Proof. intros Hf. split; simpl; try reflexivity; [exact Hf|done]. Qed.

Lemma put_tools s f :
  table_respects tl_user_id u same_tool (sd_tools s) (f (sd_tools s)) → respects s (Tools.put f s).
Proof. intros Hf. split; simpl; try reflexivity; [exact Hf|done]. Qed.

Lemma put_knowledge s f :
  table_respects kn_user_id u eq (sd_knowledge s) (f (sd_knowledge s)) → respects s (Knowledges.put f s).
Proof. intros Hf. split; simpl; try reflexivity; [exact Hf|done]. Qed.

(** The knowledge base is the user's, if there is one. *)
Definition owns id s : Prop := ∀ k, find_row id (sd_knowledge s) = Some k → kn_user_id k = u.

(** And the files that were read say what is stored, under keys that are unique. *)
Record ready id (read : list File) s : Prop := {
  rd_owns : owns id s;
  rd_keys : NoDup (keys (sd_files s));
  rd_read f f' : f ∈ read → f' ∈ sd_files s → fi_id f' = fi_id f → content f' = content f
}.

Lemma ready_same id read s s' : same_tables s s' → ready id read s → ready id read s'.
Proof. intros (_ & _ & _ & Hk & _ & _ & Hf) [Ho Hn Hr]. split; [unfold owns|..]; rewrite ?Hk, ?Hf; done. Qed.

Lemma same_files_keys l l' : Forall2 (same_file sha256_hex) l l' → keys l' = keys l.
Proof.
  intros Hf. symmetry. unfold keys. apply list_eq_Forall2, Forall2_fmap. eapply Forall2_impl; [exact Hf|].
  intros x y [Hrow _ _ _ _]. simpl in Hrow. change (fi_id x = fi_id y). congruence.
Qed.

Lemma ready_files id read s f :
  Forall2 (same_file sha256_hex) (sd_files s) (f (sd_files s)) → ready id read s → ready id read (Files.put f s).
Proof.
  intros Hf [Ho Hn Hr]. split; [exact Ho| |]; simpl.
  - by rewrite (same_files_keys _ _ Hf).
  - intros x y Hx Hy Hid. apply list_elem_of_lookup in Hy as [i Hi].
    destruct (Forall2_lookup_r _ _ _ _ _ Hf Hi) as (z & Hz & [Hrow Hc _ _ _]). rewrite Hc.
    apply Hr; [done|by eapply list_elem_of_lookup_2|congruence].
Qed.

Lemma ready_read id read s file_id f :
  ready id read s → Files.get_file_by_id file_id s = Some f → ready id (f :: read) s.
Proof.
  intros [Ho Hn Hr] Hf. split; [done|done|]. intros x y Hx Hy Hid. apply elem_of_cons in Hx as [->|Hx]; [|by eapply Hr].
  pose proof (find_row_key _ _ _ Hf) as Hk. pose proof (find_row_elem _ _ Hn Hy) as Hy'.
  unfold Files.get_file_by_id in Hf. change (row_key f) with (fi_id f) in Hk. change (row_key y) with (fi_id y) in Hy'.
  rewrite Hid, Hk in Hy'. congruence.
Qed.

Lemma put_kfiles s f id :
  owns id s → (∀ id', id' ≠ id → filter (λ kf, kf_knowledge_id kf = id') (f (sd_kfiles s)) =
                                 filter (λ kf, kf_knowledge_id kf = id') (sd_kfiles s)) →
  respects s (KnowledgeFiles.put f s).
Proof.
  intros Ho Hf. split; simpl; try reflexivity; [done|]. intros id' k Hk Hu. apply Hf. intros ->. by apply Hu, Ho.
Qed.

#[local] Notation knows id read := (preserves (under (ready id read))).

Lemma quiet_knows {A} id read (m : studio A) : quiet m → knows id read m.
Proof. apply quiet_under, ready_same. Qed.

Lemma knows_update_row id read f :
  (∀ t k, kn_id (f t k) = kn_id k ∧ kn_user_id (f t k) = kn_user_id k) → knows id read (Knowledges.update_row_by_id id f).
Proof.
  intros Hf. unfold Knowledges.update_row_by_id. apply preserves_bind; [apply _|apply quiet_knows, quiet_now|]. intros t.
  apply write_under; [apply ready_same|]. intros s [Ho Hn Hr] _.
  assert (keeps_key (f t)) as Hk by (intros k; apply Hf). split.
  - apply put_knowledge, respects_update; [apply _|exact Hk|]. intros k Hid. left. rewrite (proj2 (Hf t k)). auto.
  - split; [|done|done]. intros k. simpl. rewrite find_update_row_eq by done.
    destruct (find_row id (sd_knowledge s)) as [k0|] eqn:Hid; [|done].
    intros [= <-]. rewrite (proj2 (Hf t k0)). by apply Ho.
Qed.

Lemma knows_kfiles {A} id read possible f (g : Studio → A) failed :
  (∀ id' l, id' ≠ id → filter (λ kf, kf_knowledge_id kf = id') (f l) = filter (λ kf, kf_knowledge_id kf = id') l) →
  knows id read (write possible (KnowledgeFiles.put f) g failed).
Proof.
  intros Hf. apply write_under; [apply ready_same|]. intros s [Ho Hn Hr] _. split; [|by split].
  eapply put_kfiles; [exact Ho|]. intros id' Hne. by apply Hf.
Qed.

Lemma knows_add_file id read file_id : knows id read (KnowledgeFiles.add_file_to_knowledge id file_id).
Proof.
  unfold KnowledgeFiles.add_file_to_knowledge. preserves_step; [apply preserves_gets, _|].
  preserves_step; [apply preserves_ret, _|]. preserves_step; [apply quiet_knows, quiet_now|].
  apply knows_kfiles. intros id' l Hne. rewrite filter_app, filter_cons_False by (simpl; congruence).
  by rewrite filter_nil, app_nil_r.
Qed.

Lemma knows_remove_file id read file_id : knows id read (KnowledgeFiles.remove_file_from_knowledge id file_id).
Proof.
  apply knows_kfiles. intros id' l Hne. apply filter_other. intros kf Hk [Hk' _]. congruence.
Qed.

Lemma knows_remove_all id read : knows id read (KnowledgeFiles.remove_all_files_from_knowledge id).
Proof. apply knows_kfiles. intros id' l Hne. apply filter_other. intros kf Hk Hk'. congruence. Qed.

Lemma knows_delete cascades id read : knows id read (Knowledges.delete_knowledge_by_id cascades id).
Proof.
  apply write_under; [apply ready_same|]. intros s [Ho Hn Hr] _.
  assert (respects s (Knowledges.put (delete_row id) s)) as Hres
    by (apply put_knowledge, respects_delete; [apply _|exact Ho]).
  assert (owns id (Knowledges.put (delete_row id) s)) as Ho'.
  { intros k Hk. simpl in Hk. apply find_row_Some in Hk as [Hin Hid].
    apply list_elem_of_filter in Hin as [Hne _]. by destruct Hne. }
  destruct cascades; [|by split; [exact Hres|split]]. split; [|by split].
  destruct Hres as [P M T K U F L]. split; try done. intros id' k Hk Hu. simpl.
  rewrite <- (F id' k Hk Hu). apply filter_other. intros kf Hkf Hid. apply Hu, Ho. by rewrite <- Hid, Hkf.
Qed.

(** A write to the file of that id that keeps what every such row is. *)
Lemma knows_update_file id read file_id f :
  (∀ r, fi_id r = file_id → (∀ k, k ∈ read → fi_id k = file_id → content r = content k) → same_file sha256_hex r (f r)) →
  knows id read (Files.update_file file_id f).
Proof.
  intros Hf. apply write_under; [apply ready_same|]. intros s Hs _.
  assert (Forall2 (same_file sha256_hex) (sd_files s) (update_row file_id f (sd_files s))) as Hall.
  { unfold update_row, update_where. apply Forall2_fmap_r, Forall_Forall2_diag, Forall_forall. intros r Hr.
    simpl. case_bool_decide as Hid; [|reflexivity]. change (row_key r) with (fi_id r) in Hid. apply Hf; [done|].
    intros k Hk Hidk. apply (rd_read _ _ _ Hs k r Hk Hr). congruence. }
  split; [|by apply ready_files]. split; simpl; try reflexivity; [done|exact Hall].
Qed.

Lemma knows_file_path id read file_id path : knows id read (Files.update_file_path_by_id file_id path).
Proof.
  unfold Files.update_file_path_by_id. preserves_step; [apply quiet_knows, quiet_now|].
  apply knows_update_file. intros r _ _. by split; auto.
Qed.

Lemma knows_file_meta id read file_id v :
  knows id read (Files.update_file_metadata_by_id file_id [("collection_name", v)]).
Proof.
  apply knows_update_file. intros r _ _. split; auto. intros key Hk. unfold Files.merged, dict_update. simpl.
  by apply dict_lookup_set_ne.
Qed.

Lemma knows_file_hash id read file text :
  file ∈ read → content file = JStr text → knows id read (Files.update_file_hash_by_id (fi_id file) (sha256_hex text)).
Proof.
  intros Hin Hc. apply knows_update_file. intros r _ Hr. split; auto. right. exists text. split; [|done].
  by rewrite (Hr file Hin).
Qed.

(** Writing back what was read. *)
Lemma knows_file_content id read file :
  file ∈ read → knows id read (Files.update_file_data_by_id (fi_id file) [("content", content file)]).
Proof.
  intros Hin. apply knows_update_file. intros r _ Hr. split; auto.
  - rewrite (Hr file) by done. unfold content at 1, text_content, Files.merged, dict_update. simpl.
    by rewrite dict_lookup_set.
  - intros key Hk. unfold Files.merged, dict_update. simpl. by apply dict_lookup_set_ne.
Qed.

(** *** Knowledge *)

Ltac knows_auto :=
  repeat (preserves_step; eauto using preserves_ret, preserves_raise, preserves_gets, quiet_knows with quiet typeclass_instances).

Lemma studio_quiet_gets {A} (f : Studio → A) : quiet (gets f : studio A).
Proof. apply preserves_gets, _. Qed.
#[local] Hint Resolve studio_quiet_gets : quiet.

Lemma quiet_any_file id : quiet (any_file id).
Proof. unfold any_file. preserves_step; auto with quiet. Qed.
#[local] Hint Resolve quiet_any_file : quiet.

Lemma quiet_move_file dir path sub : quiet (move_file dir path sub).
Proof.
  unfold move_file. preserves_step; [auto with quiet|]. case_decide; [apply preserves_ret, _|].
  case_decide; [|apply preserves_ret, _]. preserves_step; [by apply studio_quiet_modify|apply preserves_ret, _].
Qed.

Lemma knows_move_to_kb dir file id read : knows id read (_move_file_to_kb dir file id).
Proof.
  unfold _move_file_to_kb. destruct (truthy (fi_path file)) as [path|]; [|apply preserves_ret, _].
  destruct (_ || _); [apply preserves_ret, _|]. case_decide; [apply preserves_raise, _|].
  preserves_step; [apply quiet_knows, quiet_move_file|]. destruct a as [new_path|]; [|apply preserves_ret, _].
  preserves_step; [apply knows_file_path|apply preserves_ret, _].
Qed.

(** *** Processing *)

Lemma document_content file text : document file = Some text → content file = JStr text.
Proof.
  unfold document, content. destruct (text_content file) as [[]|], (fi_meta file); simpl; congruence.
Qed.

Lemma quiet_save save collection ids hash : quiet (save_docs_to_vector_db save collection ids hash).
Proof.
  unfold save_docs_to_vector_db. preserves_step; [auto with quiet|].
  preserves_step; [by apply studio_quiet_modify|apply preserves_ret, _].
Qed.

(** What is read is known from then on. *)
Lemma knows_reading {B} id read file_id (k : option File → studio B) :
  (∀ o, knows id (default [] ((λ f, [f]) <$> o) ++ read) (k o)) → knows id read (gets (Files.get_file_by_id file_id) ≫= k).
Proof.
  intros Hk s Hs. unfold state_of. rewrite run_gets_bind. destruct (Files.get_file_by_id file_id s) as [f|] eqn:Hf.
  - destruct (Hk (Some f) s) as [Hr [Ho Hn Hl]]; [by eapply ready_read|]. split; [exact Hr|].
    split; [done|done|]. intros x y Hx. apply Hl. by apply elem_of_cons; right.
  - by apply (Hk None s).
Qed.

Lemma knows_answer {A B} id read code (o : option A) (k : A → studio B) :
  (∀ a, o = Some a → knows id read (k a)) → knows id read (answer code o ≫= k).
Proof.
  destruct o as [a|]; intros Hk; intros s Hs; unfold state_of; rewrite run_answer_bind; [by apply (Hk a)|by split].
Qed.

Lemma knows_process_file embedded save file_id collection id read :
  knows id read (process_file sha256_hex embedded save file_id collection).
Proof.
  unfold process_file. apply knows_reading. intros o. apply knows_answer. intros file ->. simpl.
  preserves_step; [apply quiet_knows; auto with quiet|]. preserves_step; [apply quiet_knows; auto with quiet|].
  preserves_step.
  { preserves_step; [apply preserves_ret, _|]. apply quiet_knows. unfold void. preserves_step; [auto with quiet|apply preserves_ret, _]. }
  apply knows_answer. intros j Hj. assert (content file = j) as <- by (unfold content; by rewrite Hj).
  preserves_step; [|apply preserves_raise, _]. preserves_step; [apply knows_file_content; constructor|].
  preserves_step; try (apply preserves_raise, _). preserves_step; [apply knows_file_hash; [constructor|done]|].
  preserves_step; [apply quiet_knows, quiet_save|]. preserves_step; [apply quiet_knows; auto with quiet|].
  preserves_step; [|apply preserves_ret, _]. unfold void. preserves_step; [apply knows_file_meta|apply preserves_ret, _].
Qed.

Lemma knows_processed embedded save file collection id read :
  knows id read (processed sha256_hex embedded save file collection).
Proof. unfold processed. preserves_step; [apply preserves_ret, _|apply knows_process_file]. Qed.

Lemma knows_prepared id files read : (∀ f, f ∈ files → f ∈ read) → knows id read (prepared sha256_hex files).
Proof.
  induction files as [|f files IH]; intros Hin; [apply preserves_ret, _|]. simpl.
  assert (knows id read (prepared sha256_hex files)) as Hrest by (apply IH; intros x Hx; apply Hin; by constructor).
  destruct (document f) as [text|] eqn:Ht; [|exact Hrest]. apply document_content in Ht.
  assert (f ∈ read) as Hf by (apply Hin; constructor).
  preserves_step; [by apply knows_file_hash|]. preserves_step; [rewrite <- Ht; by apply knows_file_content|].
  preserves_step; [exact Hrest|apply preserves_ret, _].
Qed.

Lemma knows_batch save id files read collection :
  (∀ f, f ∈ files → f ∈ read) → knows id read (process_files_batch sha256_hex save files collection).
Proof.
  intros Hin. unfold process_files_batch. preserves_step; [by apply knows_prepared|].
  preserves_step; [apply preserves_ret, _|]. preserves_step; [apply quiet_knows, quiet_save|].
  preserves_step; [|apply preserves_ret, _]. preserves_step; [|apply preserves_ret, _].
  apply preserves_for_each; [apply _|]. intros x _. unfold void. preserves_step; [apply knows_file_meta|apply preserves_ret, _].
Qed.


Lemma quiet_delete_vectors collection file_id : quiet (delete_vectors collection file_id).
Proof.
  unfold delete_vectors. preserves_step; [auto with quiet|]. preserves_step; [by apply studio_quiet_modify|apply preserves_raise, _].
Qed.

Lemma quiet_clear dir id : quiet (clear_collection dir id).
Proof.
  unfold clear_collection. preserves_step; [auto with quiet|]. preserves_step; [|by apply studio_quiet_modify].
  destruct a; [by apply studio_quiet_modify|apply preserves_ret, _].
Qed.
#[local] Hint Resolve quiet_delete_vectors quiet_clear : quiet.

(** A program after which what it names is known to be stored. *)
Definition learns {A} id read (m : studio A) (known : A → list File) : Prop :=
  ∀ s, ready id read s → respects s (state_of m s) ∧ ∀ a, (m s).1 = Ok a → ready id (known a) (state_of m s).

Lemma knows_learns {A} id read (m : studio A) : knows id read m → learns id read m (λ _, read).
Proof. intros Hm s Hs. destruct (Hm s Hs) as [Hr Hk]. by split. Qed.

Lemma learns_bind {A B} id read (m : studio A) (k : A → studio B) mid known :
  learns id read m mid → (∀ a, learns id (mid a) (k a) known) → learns id read (m ≫= k) known.
Proof.
  intros Hm Hk s Hs. destruct (Hm s Hs) as [Hr Ha]. unfold state_of in *. rewrite run_bind.
  destruct (m s) as [[a|x] s1]; [|by split]. destruct (Hk a s1) as [Hr' Hb]; [by apply Ha|].
  split; [by etransitivity|exact Hb].
Qed.

Lemma ready_fewer id read read' s : (∀ f, f ∈ read' → f ∈ read) → ready id read s → ready id read' s.
Proof. intros Hin [Ho Hn Hr]. split; [done|done|]. intros f f' Hf. by apply Hr, Hin. Qed.

Lemma learns_fewer {A} id read (m : studio A) known known' :
  (∀ a f, f ∈ known' a → f ∈ known a) → learns id read m known → learns id read m known'.
Proof.
  intros Hin Hm s Hs. destruct (Hm s Hs) as [Hr Ha]. split; [exact Hr|]. intros a Hok.
  eapply ready_fewer; [apply Hin|by apply Ha].
Qed.

Lemma learns_ret {A} id read (a : A) (known : A → list File) :
  (∀ f, f ∈ known a → f ∈ read) → learns id read (mret a) known.
Proof. intros Hin s Hs. split; [reflexivity|]. intros b [= <-]. by eapply ready_fewer. Qed.

Lemma learns_get id read file_id :
  learns id read (gets (Files.get_file_by_id file_id)) (λ o, omap (λ o, o) [o] ++ read).
Proof.
  intros s Hs. split; [reflexivity|]. intros o [= <-]. change (state_of _ s) with s.
  destruct (Files.get_file_by_id file_id s) as [g|] eqn:Hf; [by eapply ready_read|exact Hs].
Qed.

Lemma learns_any_file id read file_id : learns id read (any_file file_id) (λ f, f :: read).
Proof.
  eapply learns_bind; [apply learns_get|]. intros [f|]; [by apply learns_ret|]. intros s Hs. split; [reflexivity|done].
Qed.

Lemma learns_moved_files dir id ids read :
  learns id read (moved_files dir id ids) (λ l, omap (λ o, o) l ++ read).
Proof.
  revert read. induction ids as [|file_id ids IH]; intros read; simpl; [by apply learns_ret|].
  eapply learns_bind; [apply learns_any_file|]. intros f.
  eapply (learns_bind _ _ _ _ (λ o, omap (λ o, o) [o] ++ read)).
  - destruct (truthy (fi_path f)); [|by apply learns_ret].
    eapply learns_bind; [apply knows_learns, knows_move_to_kb|]. intros ?.
    eapply learns_fewer; [|apply learns_get].
    intros o x. rewrite !elem_of_app. simpl. rewrite elem_of_cons. tauto.
  - intros o. eapply learns_bind; [apply IH|]. intros l. apply learns_ret. intros x.
    destruct o; simpl; rewrite ?elem_of_cons, ?elem_of_app; simpl; rewrite ?elem_of_cons; tauto.
Qed.

Lemma mapM_omap {A} (l : list (option A)) (l' : list A) x :
  mapM (λ o, o) l = Some l' → x ∈ l' → x ∈ omap (λ o, o) l.
Proof.
  intros Hl Hx. apply mapM_Some in Hl. apply list_elem_of_lookup in Hx as [i Hi].
  destruct (Forall2_lookup_r _ _ _ _ _ Hl Hi) as (o & Ho & ->). apply list_elem_of_omap.
  exists (Some x). split; [by eapply list_elem_of_lookup_2|done].
Qed.

Lemma own_knowledge_then {B} id (k : Knowledge → studio B) s :
  NoDup (keys (sd_files s)) → (∀ a, learns id [] (k a) (λ _, [])) →
  respects s (state_of (own_knowledge user id ≫= k) s).
Proof.
  intros Hn Hk. apply owned_then. intros a Ha Hu. apply Hk. split; [|exact Hn|by intros x y Hx%not_elem_of_nil].
  intros a' Ha'. unfold Knowledges.get_knowledge_by_id in Ha. rewrite Ha in Ha'. injection Ha' as <-. exact Hu.
Qed.

Lemma knowledge_requests_respect dir cascades embedded save id file_id file_ids f s :
  NoDup (keys (sd_files s)) →
  respects s (state_of (update_knowledge_by_id user id f) s) ∧
  respects s (state_of (add_file_to_knowledge_by_id dir sha256_hex embedded save user id file_id) s) ∧
  respects s (state_of (update_file_from_knowledge_by_id sha256_hex embedded save user id file_id) s) ∧
  respects s (state_of (remove_file_from_knowledge_by_id user id file_id) s) ∧
  respects s (state_of (delete_knowledge_by_id dir cascades user id) s) ∧
  respects s (state_of (reset_knowledge_by_id dir user id) s) ∧
  respects s (state_of (add_files_to_knowledge_batch dir sha256_hex save user id file_ids) s).
Proof.
  intros Hn. split_and!; apply own_knowledge_then; try done; intros k; [apply knows_learns..|].
  - preserves_step; [by apply knows_update_row|]. preserves_step; apply quiet_knows; auto with quiet.
  - preserves_step; [apply quiet_knows; auto with quiet|]. case_decide; [apply preserves_raise, _|].
    preserves_step; [apply knows_move_to_kb|]. preserves_step; [apply knows_processed|].
    preserves_step; [apply knows_add_file|]. preserves_step; [apply quiet_knows; auto with quiet|apply preserves_raise, _].
  - do 2 (preserves_step; [apply quiet_knows; auto with quiet|]). preserves_step; [apply knows_processed|].
    apply quiet_knows; auto with quiet.
  - preserves_step; [apply quiet_knows; auto with quiet|]. preserves_step.
    { destruct (ends_with _ _); [apply preserves_ret, _|apply quiet_knows; auto with quiet]. }
    preserves_step; [apply knows_remove_file|]. apply quiet_knows; auto with quiet.
  - preserves_step; [apply quiet_knows; auto with quiet|]. preserves_step; [apply quiet_knows; auto with quiet|].
    preserves_step; [|apply knows_delete].
    destruct a0 as [j|]; [|apply preserves_ret, _]. destruct (json_truthy j); [|apply preserves_ret, _].
    preserves_step; [apply quiet_knows; auto with quiet|apply preserves_ret, _].
  - preserves_step; [apply quiet_knows; auto with quiet|]. preserves_step; [apply knows_remove_all|].
    by apply knows_update_row.
  - eapply learns_bind; [apply learns_moved_files|]. intros l. eapply learns_fewer; [|apply knows_learns].
    { intros ? x Hx. by apply not_elem_of_nil in Hx. }
    apply knows_answer. intros files Hfiles. rewrite app_nil_r.
    preserves_step; [apply knows_batch; intros x Hx; by eapply mapM_omap|]. preserves_step.
    { apply preserves_for_each; [apply _|]. intros x _. preserves_step; [apply knows_add_file|apply preserves_ret, _]. }
    repeat (preserves_step; [apply quiet_knows; auto with quiet|]). apply quiet_knows; auto with quiet.
Qed.

(** *** Prompts, models and tools *)

Lemma write_at {A} possible f (read : Studio → A) failed s :
  (∀ s1, same_tables s s1 → possible s1 = true → respects s1 (f s1)) →
  respects s (state_of (write possible f read failed) s).
Proof.
  intros Hf. unfold write, state_of. rewrite run_bind. pose proof (studio_quiet_commit s) as Hq. unfold state_of in Hq.
  destruct (next_commit s) as [[ok|e] s1]; simpl in Hq |- *; [|by apply same_respects].
  rewrite run_gets_bind. destruct ok; [|by apply same_respects]. destruct (possible s1) eqn:Hp; [|by apply same_respects].
  simpl. etransitivity; [by apply same_respects|by apply Hf].
Qed.

(** Going on after a program that respects others only to answer. *)
Lemma then_quiet {A B} (m : studio A) (k : A → studio B) s :
  respects s (state_of m s) → (∀ a, quiet (k a)) → respects s (state_of (m ≫= k) s).
Proof.
  intros Hm Hk. unfold state_of in *. rewrite run_bind. destruct (m s) as [[a|e] s1]; [|done].
  etransitivity; [exact Hm|]. apply same_respects, Hk.
Qed.

(** Going on after one that writes no table. *)
Lemma quiet_first {A B} (m : studio A) (k : A → studio B) s :
  quiet m → (∀ a s1, same_tables s s1 → respects s1 (state_of (k a) s1)) → respects s (state_of (m ≫= k) s).
Proof.
  intros Hm Hk. specialize (Hm s). unfold state_of in *. rewrite run_bind. destruct (m s) as [[a|e] s1]; simpl in *.
  - etransitivity; [by apply same_respects|by apply Hk].
  - by apply same_respects.
Qed.

Lemma own_prompt_rows s s1 command p f :
  find_row command (sd_prompts s) = Some p → pr_user_id p = u → same_tables s s1 →
  (∀ p, pr_command (f p) = pr_command p ∧ pr_user_id (f p) = pr_user_id p) →
  respects s1 (Prompts.put (update_row command f) s1) ∧ respects s1 (Prompts.put (delete_row command) s1).
Proof.
  intros Hp Hu (Hs & _) Hf. split; apply put_prompts; rewrite Hs.
  - apply respects_update; [apply _|by intros r; apply Hf|]. intros r Hr. left. rewrite (proj2 (Hf r)). split; congruence.
  - apply respects_delete; [apply _|]. intros r Hr. congruence.
Qed.

Lemma prompt_requests_respect command f s :
  respects s (state_of (update_prompt_by_command user command f) s) ∧
  respects s (state_of (delete_prompt_by_command user command) s).
Proof.
  split; apply owned_then; intros p Hp Hu.
  - apply then_quiet; [|intros; auto with quiet]. apply quiet_first; [auto with quiet|]. intros t s1 Hs1.
    apply write_at. intros s2 Hs2 _. eapply own_prompt_rows; [exact Hp|exact Hu|by etransitivity|done].
  - apply write_at. intros s1 Hs1 _. by eapply (own_prompt_rows s s1 _ p id).
Qed.

Lemma absent_row {A} `{Keyed A} (t : Studio → list A) key s : absent t key s = true → key ∉ keys (t s).
Proof. apply bool_decide_eq_true. Qed.

Lemma create_prompt_respects USER_PERMISSIONS f s :
  respects s (state_of (create_new_prompt dialect groups USER_PERMISSIONS user f) s).
Proof.
  unfold create_new_prompt. apply quiet_first; [unfold permitted; preserves_step; [apply preserves_ret|apply preserves_raise]; apply _|].
  intros _ s1 _. apply quiet_first; [auto with quiet|]. intros [p|] s2 _; [reflexivity|].
  apply then_quiet; [|intros; auto with quiet]. apply quiet_first; [auto with quiet|]. intros t s3 _.
  apply write_at. intros s4 _ Hnew%absent_row. by apply put_prompts, respects_insert; [apply _|..].
Qed.

Lemma model_requests_respect USER_PERMISSIONS f id s :
  respects s (state_of (create_new_model dialect groups USER_PERMISSIONS user f) s) ∧
  respects s (state_of (toggle_model_by_id dialect groups user id) s) ∧
  respects s (state_of (delete_model_by_id user id) s) ∧
  respects s (state_of (delete_all_models user) s).
Proof.
  split_and!.
  - unfold create_new_model. apply quiet_first; [unfold permitted; preserves_step; [apply preserves_ret|apply preserves_raise]; apply _|].
    intros _ s1 _. apply quiet_first; [auto with quiet|]. intros [m|] s2 _; [reflexivity|].
    apply then_quiet; [|intros; auto with quiet]. apply quiet_first; [auto with quiet|]. intros t s3 _.
    apply write_at. intros s4 _ Hnew%absent_row. by apply put_models, respects_insert; [apply _|..].
  - unfold toggle_model_by_id, state_of. rewrite run_gets_bind, run_answer_bind.
    unfold Models.get_model_by_id. destruct (find_row id (sd_models s)) as [m|] eqn:Hm; [|reflexivity].
    rewrite run_responded_bind. destruct (gate _ _ _ _ _) as [[]|] eqn:Hg; [|reflexivity..].
    apply (then_quiet _ _ s); [|intros; auto with quiet]. apply quiet_first; [auto with quiet|]. intros t s1 Hs1.
    apply write_at. intros s2 Hs2 _. apply put_models, respects_update; [apply _|by intros []|]. intros m' Hm'.
    assert (m' = m) as ->.
    { destruct Hs1 as (_ & E1 & _), Hs2 as (_ & E2 & _). rewrite E2, E1, Hm in Hm'. by injection Hm'. }
    destruct (decide (mo_user_id m = u)) as [Hu|Hu]; [by left|]. right. split; [by destruct m|].
    intros Ha. destruct Ha. unfold gate, allowed in Hg. simpl in Hg. by rewrite !decide_False in Hg.
  - apply owned_then. intros m Hm Hu. apply write_at. intros s1 (_ & E & _) _.
    apply put_models, respects_delete; [apply _|]. intros r Hr. rewrite E in Hr. unfold Models.get_model_by_id in Hm.
    rewrite Hm in Hr. by injection Hr as <-.
  - unfold delete_all_models, as_admin. rewrite decide_False by done. reflexivity.
Qed.

Lemma quiet_permitted USER_PERMISSIONS p : quiet (permitted dialect groups USER_PERMISSIONS user p).
Proof. unfold permitted. preserves_step; [apply preserves_ret|apply preserves_raise]; apply _. Qed.

Lemma quiet_load execute installs id f : quiet (load_into execute installs id f).
Proof.
  unfold load_into. preserves_step; [auto with quiet|]. destruct a as [m manifest].
  preserves_step; [by apply studio_quiet_modify|]. preserves_step; [auto with quiet|apply preserves_ret, _].
Qed.

(** A tool of one's own rewritten or deleted. *)
Lemma own_tool_rows s s1 id t f :
  find_row id (sd_tools s) = Some t → tl_user_id t = u → same_tables s s1 →
  (∀ t, tl_id (f t) = tl_id t ∧ tl_user_id (f t) = tl_user_id t) →
  respects s1 (Tools.put (update_row id f) s1) ∧ respects s1 (Tools.put (delete_row id) s1).
Proof.
  intros Ht Hu (_ & _ & Hs & _) Hf. split; apply put_tools; rewrite Hs.
  - apply respects_update; [apply _|by intros r; apply Hf|]. intros r Hr. left. rewrite (proj2 (Hf r)). split; congruence.
  - apply respects_delete; [apply _|]. intros r Hr. congruence.
Qed.

Lemma tool_requests_respect USER_PERMISSIONS execute installs id f s :
  respects s (state_of (create_new_tools dialect groups USER_PERMISSIONS execute installs user f) s) ∧
  respects s (state_of (update_tools_by_id execute installs user id f) s) ∧
  respects s (state_of (delete_tools_by_id user id) s).
Proof.
  split_and!.
  - unfold create_new_tools. apply quiet_first; [apply quiet_permitted|]. intros _ s1 _.
    destruct (negb _); [reflexivity|]. apply quiet_first; [auto with quiet|]. intros [t|] s2 _; [reflexivity|].
    rewrite or_400_state. apply quiet_first; [apply quiet_load|]. intros [f' specs] s3 _.
    apply then_quiet; [|intros; auto with quiet]. apply quiet_first; [auto with quiet|]. intros t s4 _.
    apply write_at. intros s5 _ Hnew%absent_row. by apply put_tools, respects_insert; [apply _|..].
  - apply owned_then. intros t Ht Hu. rewrite or_400_state. apply quiet_first; [apply quiet_load|]. intros [f' specs] s1 Hs1.
    apply then_quiet; [|intros; auto with quiet]. apply quiet_first; [auto with quiet|]. intros now s2 Hs2.
    apply write_at. intros s3 Hs3 _. eapply own_tool_rows; [exact Ht|exact Hu| |done]. by etransitivity; [|etransitivity].
  - apply owned_then. intros t Ht Hu. apply then_quiet.
    + apply write_at. intros s1 Hs1 _. by eapply (own_tool_rows s s1 _ t (λ t, t)).
    + intros result. preserves_step; [|apply preserves_ret, _]. destruct result; [by apply studio_quiet_modify|apply preserves_ret, _].
Qed.

(** Loading a stored tool rewrites its imports, whoever asks. *)
Lemma tool_module_respects execute id s : respects s (state_of (tool_module execute id) s).
Proof.
  unfold tool_module. apply quiet_first; [auto with quiet|]. intros [m|] s1 _; [reflexivity|].
  apply then_quiet; [|intros a; preserves_step; [by apply studio_quiet_modify|apply preserves_ret, _]].
  unfold load_stored, state_of. rewrite run_gets_bind, run_responded_bind. unfold Tools.get_tool_by_id.
  destruct (find_row id (sd_tools s1)) as [t|] eqn:Ht; [|reflexivity].
  apply then_quiet; [|intros a; auto with quiet]. apply quiet_first; [auto with quiet|]. intros now s2 Hs2.
  apply write_at. intros s3 Hs3 _. apply put_tools, respects_update; [apply _|done|]. intros t' Ht'. right.
  assert (t' = t) as ->.
  { destruct Hs2 as (_ & _ & E2 & _), Hs3 as (_ & _ & E3 & _). rewrite E3, E2, Ht in Ht'. by injection Ht'. }
  split; [done|]. by exists 1%nat.
Qed.

Lemma any_tool_first {B} id (k : Tool → studio B) s :
  (∀ t s1, respects s1 (state_of (k t) s1)) → respects s (state_of (any_tool id ≫= k) s).
Proof.
  intros Hk. apply quiet_first; [|intros t s1 _; apply Hk]. unfold any_tool. preserves_step; auto with quiet.
Qed.

Lemma respects_bind {A B} (m : studio A) (k : A → studio B) s :
  respects s (state_of m s) → (∀ a s1, respects s1 (state_of (k a) s1)) → respects s (state_of (m ≫= k) s).
Proof.
  intros Hm Hk. unfold state_of in *. rewrite run_bind. destruct (m s) as [[a|e] s1]; [|done].
  etransitivity; [exact Hm|apply Hk].
Qed.

Lemma made_valves_respects execute class id form s : respects s (state_of (made_valves execute class id form) s).
Proof.
  apply any_tool_first. intros _ s1. apply then_quiet; [apply tool_module_respects|]. intros m.
  preserves_step; auto with quiet.
Qed.

Lemma valves_requests_respect execute id form s :
  respects s (state_of (get_tools_valves_spec_by_id execute user id) s) ∧
  respects s (state_of (get_tools_user_valves_spec_by_id execute user id) s) ∧
  respects s (state_of (update_tools_valves_by_id execute user id form) s) ∧
  respects s (state_of (update_tools_user_valves_by_id execute user id form) s).
Proof.
  split_and!.
  1, 2: apply any_tool_first; intros _ s1; apply then_quiet; [apply tool_module_respects|intros m; apply preserves_ret, _].
  - apply respects_bind; [apply made_valves_respects|]. intros v s1. apply then_quiet; [|intros; apply preserves_ret, _].
    apply quiet_first; [auto with quiet|]. intros now s2 _. apply write_at. intros s3 _ _.
    apply put_tools, respects_update; [apply _|done|]. intros t _. right. split; [done|by exists 0%nat].
  - apply respects_bind; [apply made_valves_respects|]. intros v s1. apply then_quiet; [|intros; apply preserves_ret, _].
    unfold update_user_valves_by_id_and_user_id. apply quiet_first; [auto with quiet|]. intros settings s2 _.
    destruct (settings ≫= user_valves) as [[[settings' tools] valves]|]; [|reflexivity].
    apply quiet_first; [auto with quiet|]. intros ok s3 _. split; simpl; try reflexivity.
    intros k r Hk Hu. destruct ok; [|done]. simpl. by rewrite find_update_row_ne.
Qed.

Lemma insert_knowledge_outcome uuid4 f s :
  let r := Knowledges.insert_new_knowledge uuid4 u f s in
  respects s r.2 ∧ ∀ k, r.1 = Ok (Some k) → owns (kn_id k) r.2.
Proof.
  unfold Knowledges.insert_new_knowledge, mint, now, write. cbv zeta. rewrite run_bind, run_gets_bind, run_bind.
  match goal with |- context [next_commit ?s1] => set (s0 := s1) end.
  pose proof (studio_quiet_commit s0) as Hq. unfold state_of in Hq. assert (same_tables s s0) as H0 by by repeat split.
  destruct (next_commit s0) as [[ok|e] s1]; simpl in Hq |- *.
  2: split; [apply same_respects; by etransitivity|done].
  rewrite run_gets_bind. destruct (ok && _) eqn:Hok; simpl; [|split; [apply same_respects; by etransitivity|done]].
  apply andb_true_iff in Hok as [_ Hnew%absent_row]. split.
  - transitivity s1; [apply same_respects; by etransitivity|].
    apply (put_knowledge s1 (λ l, l ++ [_])), respects_insert; [apply _|done|exact Hnew].
  - intros k [= <-] k' Hk'. simpl in Hk'. rewrite find_row_app in Hk'. apply find_row_None in Hnew.
    rewrite Hnew in Hk'. simpl in Hk'. rewrite decide_True in Hk' by done. by injection Hk' as <-.
Qed.

Lemma create_knowledge_respects uuid4 USER_PERMISSIONS corpus f s :
  NoDup (keys (sd_files s)) →
  respects s (state_of (create_new_knowledge uuid4 dialect groups USER_PERMISSIONS corpus user f) s).
Proof.
  intros Hn. unfold create_new_knowledge. apply quiet_first; [apply quiet_permitted|]. intros _ s1 (_ & _ & _ & _ & _ & _ & Hl).
  unfold state_of. rewrite run_bind. destruct (insert_knowledge_outcome uuid4 f s1) as [Hr Ho].
  destruct (Knowledges.insert_new_knowledge uuid4 u f s1) as [[[k|]|e] s2]; simpl in Hr, Ho; [|exact Hr..].
  etransitivity; [exact Hr|]. rewrite run_answer_bind. specialize (Ho k eq_refl).
  assert (ready (kn_id k) [] s2) as Hs2.
  { split; [exact Ho| |by intros x y Hx%not_elem_of_nil]. by rewrite (same_files_keys _ _ (re_files _ _ Hr)), Hl. }
  destruct (_ && _); [|reflexivity]. eapply (from_under (ready (kn_id k) [])); [exact Hs2|].
  preserves_step; [apply quiet_knows; auto with quiet|]. preserves_step; [|apply preserves_ret, _].
  preserves_step; [by apply knows_update_row|apply preserves_ret, _].
Qed.

End respects.

From stdpp Require Import sorting sets.
From S2P Require Import Prelude.

(** The pages of a knowledge base: reading it batch after batch, each starting after the
    last file of the one before, is reading it once. *)
Module Paging.

Import KnowledgeFiles.

#[export] Instance id_le_trans : RelationClasses.Transitive id_le.
Proof. intros f g h. unfold id_le. apply (transitivity (R := String.le)). Qed.
#[export] Instance id_le_total : Total id_le.
Proof. intros f g. apply (total String.le). Qed.

Lemma order_sorted l : StronglySorted id_le (order_by_id l).
Proof. apply sorting.Sorted_StronglySorted; [apply _|]. apply Sorted_merge_sort, _. Qed.

Lemma order_perm l : order_by_id l ≡ₚ l.
Proof. apply merge_sort_Permutation. Qed.

Lemma StronglySorted_filter {A} (R : relation A) (P : A → Prop) `{∀ x, Decision (P x)} (l : list A) :
  StronglySorted R l → StronglySorted R (filter P l).
Proof. apply StronglySorted_sublist, sublist_filter. Qed.

Lemma keyed_file (l : list File) f g : NoDup (keys l) → f ∈ l → g ∈ l → fi_id f = fi_id g → f = g.
Proof.
  intros Hnd Hf Hg Heq. pose proof (find_row_elem l f Hnd Hf) as E1. pose proof (find_row_elem l g Hnd Hg) as E2.
  change (row_key f) with (fi_id f) in E1. change (row_key g) with (fi_id g) in E2. congruence.
Qed.

(** A query that selects and then orders is the ordered whole, selected. *)
Lemma order_filter (P : File → Prop) `{∀ f, Decision (P f)} l :
  NoDup (keys l) → order_by_id (filter P l) = filter P (order_by_id l).
Proof.
  intros Hnd. apply (StronglySorted_unique_strong id_le).
  - intros f g Hf Hg Hfg Hgf. rewrite order_perm in Hf. rewrite list_elem_of_filter, order_perm in Hg.
    apply list_elem_of_filter in Hf as [_ Hf]. destruct Hg as [_ Hg].
    apply (keyed_file l); [done..|]. by apply (anti_symm String.le).
  - apply order_sorted.
  - apply StronglySorted_filter, order_sorted.
  - rewrite order_perm. by rewrite (order_perm l).
Qed.

Lemma after_trans a f g : after a f → after (fi_id f) g → after a g.
Proof.
  intros [Haf Hf] [Hfg Hg]. split; [by transitivity (fi_id f)|]. intros <-. apply Hf.
  by apply (anti_symm String.le).
Qed.

(** What is after the last file of a first part of an ordered list is the rest of it. *)
Lemma after_part k1 f k2 :
  StronglySorted id_le (k1 ++ f :: k2) → NoDup (fi_id <$> k1 ++ f :: k2) →
  filter (after (fi_id f)) (k1 ++ f :: k2) = k2.
Proof.
  intros Hs Hnd. rewrite fmap_app, fmap_cons in Hnd. apply NoDup_app in Hnd as (_ & Hd & Hnd).
  apply NoDup_cons in Hnd as [Hf _]. apply StronglySorted_app in Hs as (H12 & _ & Hs).
  apply StronglySorted_cons in Hs as [Hf2 _].
  rewrite filter_app, (filter_none _ k1), filter_cons_False; simpl.
  - rewrite Forall_forall in Hf2. induction k2 as [|g k2 IH]; [done|].
    rewrite filter_cons_True.
    + f_equal. apply IH; set_solver.
    + split; [apply Hf2; left|]. intros Heq. apply Hf. rewrite <- Heq. csimpl. left.
  - intros [_ Hne]. done.
  - intros g Hg [Hle Hne]. apply Hne. apply (anti_symm String.le); [|exact Hle].
    apply (H12 g f); [exact Hg|left].
Qed.

Section pages.
Context (size : nat) (Hsize : (0 < size)%nat) (id : string) (s : Studio).
Context (Hnd : NoDup (keys (sd_files s))).

#[local] Notation whole := (order_by_id (joined id s)).

Lemma joined_nodup : NoDup (keys (joined id s)).
Proof. unfold joined. by eapply keys_selected. Qed.

Lemma whole_nodup (P : File → Prop) `{∀ f, Decision (P f)} : NoDup (fi_id <$> filter P whole).
Proof.
  change (NoDup (keys (filter P whole))). eapply (keys_selected P); [|reflexivity].
  unfold keys. rewrite order_perm. apply joined_nodup.
Qed.

Lemma next_batch_take last : next_batch size id last s = take size (filter (after last) whole).
Proof. unfold next_batch. by rewrite order_filter by apply joined_nodup. Qed.

Lemma batches_pages fuel last :
  (length (filter (after last) whole) < fuel)%nat →
  ∃ bs, batches fuel size id last s = Some bs ∧ concat bs = filter (after last) whole ∧
        Forall (λ b, 0 < length b ∧ length b ≤ size)%nat bs.
Proof.
  revert last. induction fuel as [|fuel IH]; intros start Hlen; [lia|]. simpl. rewrite next_batch_take.
  set (r := filter (after start) whole) in *. destruct (last (take size r)) as [f|] eqn:Hf.
  - apply last_Some in Hf as [k1 Hk]. assert (r = k1 ++ f :: drop size r) as Hr.
    { transitivity (take size r ++ drop size r); [by rewrite take_drop|]. rewrite Hk. by rewrite <- app_assoc. }
    assert (filter (after (fi_id f)) whole = drop size r) as Hrest.
    { transitivity (filter (after (fi_id f)) r).
      - unfold r. rewrite list_filter_filter. apply list_filter_iff. intros g. split; [|naive_solver].
        intros Hg. split; [done|]. eapply after_trans; [|exact Hg].
        assert (f ∈ r) as Hin by (rewrite Hr; set_solver). by apply list_elem_of_filter in Hin as [? _].
      - rewrite Hr at 1. apply after_part; rewrite <- Hr; [|apply whole_nodup].
        apply StronglySorted_filter, order_sorted. }
    destruct (IH (fi_id f)) as (bs & -> & Hc & Hall).
    { rewrite Hrest, length_drop. assert (0 < length r)%nat by (rewrite Hr, length_app; simpl; lia). lia. }
    eexists. split; [reflexivity|]. split; [simpl; rewrite Hc, Hrest; apply take_drop|].
    constructor; [|done]. rewrite length_take. assert (0 < length r)%nat by (rewrite Hr, length_app; simpl; lia). lia.
  - exists []. split_and!; [done| |constructor]. apply last_None in Hf. destruct r as [|g r]; [done|].
    destruct size; [lia|done].
Qed.
End pages.

End Paging.
