(* ===== verification/StudioContract.v ===== *)
(** What the workspace promises: others' rows are respected by every request but one, the
    loaded tools are those that are stored, the pages of an export are the knowledge base,
    and a reset empties one. *)

From stdpp Require Import sorting sets.
From S2P Require Import Prelude Data Accounts AccessControl Archive Studio Plugin StudioApi StudioFacts.
Import Paging.
Import (hints) KnowledgeFiles.

(** ** Whose rows a request may change *)

Section requests.
Context (e : StudioEnv).
Implicit Types (s : Studio) (user : User).

(** C14: The workspace requests of a user who is no administrator respect what is another's,
    saving a model apart.  Another's prompt or knowledge base is what it was, its files
    included; another's model can at most be switched on or off by those its access
    control lets write; another's tool keeps its name, source up to the rewriting of its
    imports, specifications and access control, and no other account's settings change;
    every new row is the caller's.  No file changes its owner, its name, what it says or
    the rest of its data: processing a file into a knowledge base writes its content back,
    sets its hash to that of the content and notes the collection, and its path may
    change, nothing else.  The files are keyed by their ids and a request runs alone. *)
Theorem workspace_requests_respect_others user r s :
  us_role user ≠ "admin" → NoDup (keys (sd_files s)) → (∀ id f, r ≠ UpdateModel id f) →
  respects (se_sha256 e) (se_dialect e) (se_groups e) user s (state_of (handle_studio e user r) s).
Proof.
  intros Hrole Hn Hr.
  pose proof (λ c f, prompt_requests_respect (se_sha256 e) (se_dialect e) (se_groups e) user Hrole c f s) as Hp.
  pose proof (λ f id, model_requests_respect (se_sha256 e) (se_dialect e) (se_groups e) user Hrole (se_permissions e) f id s) as Hm.
  pose proof (λ id f, tool_requests_respect (se_sha256 e) (se_dialect e) (se_groups e) user Hrole (se_permissions e) (se_execute e)
    (se_installs e) id f s) as Ht.
  pose proof (λ id form, valves_requests_respect (se_sha256 e) (se_dialect e) (se_groups e) user (se_execute e) id form s) as Hv.
  pose proof (λ id file_id file_ids f, knowledge_requests_respect (se_sha256 e) (se_dialect e) (se_groups e) user Hrole
    (se_upload_dir e) (se_cascades e) (se_embedded e) (se_save e) id file_id file_ids f s Hn) as Hk.
  pose proof (mkPromptForm "" "" "" None) as p0. pose proof (mkModelForm "" None "" [] [] None true) as m0.
  pose proof (mkToolForm "" "" "" (mkToolMeta None None) None) as t0. pose proof (mkKnowledgeForm "" "" None None None) as k0.
  destruct r as [f|command f|command|f|id|id f|id| |f|id f|id|id|id|id form|id form|f| |id f|id file_id|id file_id|id file_id|id|id|id file_ids];
    simpl; rewrite void_state.
  - by apply create_prompt_respects.
  - apply Hp.
  - by apply (Hp command p0).
  - by apply (Hm f "").
  - by apply (Hm m0 id).
  - by destruct (Hr id f).
  - by apply (Hm m0 id).
  - by apply (Hm m0 "").
  - by apply (Ht "" f).
  - by apply (Ht id f).
  - by apply (Ht id t0).
  - by apply (Hv id []).
  - by apply (Hv id []).
  - by apply (Hv id form).
  - by apply (Hv id form).
  - by apply create_knowledge_respects.
  - unfold backfill_self_corpus_repos, as_admin. by rewrite decide_False.
  - by apply (Hk id "" [] f).
  - by apply (Hk id file_id [] k0).
  - by apply (Hk id file_id [] k0).
  - by apply (Hk id file_id [] k0).
  - by apply (Hk id "" [] k0).
  - by apply (Hk id "" [] k0).
  - by apply (Hk id "" file_ids k0).
Qed.
End requests.

(** Saving a model asks nobody: its outcome and what it leaves do not depend on the user,
    so that whoever is signed in replaces any model, its access control included. *)
Lemma saving_a_model_asks_nobody (e : StudioEnv) user user' id f s :
  handle_studio e user (UpdateModel id f) s = handle_studio e user' (UpdateModel id f) s.
Proof. reflexivity. Qed.

(** ** Exports *)

(** An export reads every file of the knowledge base exactly once and ends: with a batch
    size that is not zero, the pages the query yields, each but a bounded part of the
    files and none empty, are together the files in the base in the order of their ids;
    and what is written for the curator is made of them. *)
Theorem an_export_reads_every_file_once size user id s :
  (0 < size)%nat → NoDup (keys (sd_files s)) → "" ∉ keys (sd_files s) →
  let whole := KnowledgeFiles.order_by_id (KnowledgeFiles.joined id s) in
  (∃ pages, KnowledgeFiles.iter_files_by_knowledge_id size id s = Some pages ∧ concat pages = whole ∧
     Forall (λ page, 0 < length page ∧ length page ≤ size)%nat pages) ∧
  whole ≡ₚ KnowledgeFiles.joined id s ∧
  (present sd_knowledge id s = true →
   prepare_curator_input size "" user id s = (Ok (omap exported whole), s)).
Proof.
  intros Hsize Hnd Hempty whole.
  assert (filter (KnowledgeFiles.after "") whole = whole) as Hall.
  { apply filter_keep, Forall_forall. intros f Hf. unfold whole in Hf. rewrite order_perm in Hf.
    apply list_elem_of_filter in Hf as [_ Hf]. split; [by destruct (fi_id f)|]. intros He. apply Hempty.
    rewrite <- He. by apply (list_elem_of_fmap_2 row_key). }
  destruct (batches_pages size Hsize id s Hnd (S (length (sd_files s))) "") as (pages & Hp & Hc & Hs).
  { fold whole. rewrite Hall. unfold whole. rewrite order_perm. unfold KnowledgeFiles.joined.
    pose proof (length_filter (λ f, Exists (KnowledgeFiles.is_in id (fi_id f)) (sd_kfiles s)) (sd_files s)). lia. }
  fold whole in Hc. rewrite Hall in Hc. split_and!; [by exists pages|apply order_perm|]. intros Hk.
  unfold prepare_curator_input. rewrite run_gets_bind, run_answer_bind. unfold Knowledges.get_knowledge_by_id.
  destruct (find_row id (sd_knowledge s)) as [k|] eqn:Hf;
    [|by apply find_row_None in Hf; apply bool_decide_eq_true in Hk]. simpl.
  rewrite run_gets_bind. unfold KnowledgeFiles.iter_files_by_knowledge_id. rewrite Hp, run_responded_bind, Hc. done.
Qed.

(** ** Resetting *)

(** A clean-up, as one step. *)
Definition cleared (dir id : string) s : Studio :=
  s <| sd_answers := tail (sd_answers s) |> <| sd_calls := sd_calls s ++ [DeleteCollection id] |>
    <| sd_vectors := if default true (head (sd_answers s)) then filter (λ v, v.1 ≠ id) (sd_vectors s) else sd_vectors s |>
    <| sd_disk := filter (λ p, starts_with (dir +:+ "/" +:+ id +:+ "/") p = false) (sd_disk s) |>.

Lemma run_clear dir id s : clear_collection dir id s = (Ok tt, cleared dir id s).
Proof.
  unfold clear_collection, cleared. rewrite run_bind. unfold remote. simpl.
  destruct (sd_answers s) as [|[] rest]; reflexivity.
Qed.

(** A write whose commit succeeds. *)
Lemma run_write {A} f (read : Studio → A) failed s :
  sd_commits s = [] → write always f read failed s = (Ok (read (f s)), f s).
Proof. intros Hc. unfold write. rewrite run_bind. unfold next_commit. by rewrite Hc. Qed.

Lemma run_owned {A} `{Resource A} missing prohibited user (found : Studio → option A) s a :
  found s = Some a → res_owner a = us_id user ∨ us_role user = "admin" →
  owned missing prohibited user found s = (Ok a, s).
Proof.
  intros Ha Hu. unfold owned. rewrite run_gets_bind, run_answer_bind, Ha. rewrite decide_False; [done|].
  intros [? ?]. naive_solver.
Qed.

(** Resetting a knowledge base empties that one and no other.  Its row stays, its data
    says it has no files, no file is associated with it, none of its files is left on the
    disk and, when the vector database answered, none of its vectors; everything of the
    other knowledge bases - rows, files, vectors and what is on the disk - stays. *)
Theorem a_reset_empties_one_knowledge_base dir user id s k :
  find_row id (sd_knowledge s) = Some k → (kn_user_id k = us_id user ∨ us_role user = "admin") →
  sd_commits s = [] →
  let r := reset_knowledge_by_id dir user id s in
  let s' := r.2 in
  let answered := default true (head (sd_answers s)) in
  let k' := k <| kn_data := Some [("file_ids", JList [])] |> <| kn_updated_at := sd_now s |> in
  r.1 = Ok (Some k') ∧ find_row id (sd_knowledge s') = Some k' ∧
  with_files k' s' = (k', []) ∧
  sd_vectors s' = (if answered then filter (λ v, v.1 ≠ id) (sd_vectors s) else sd_vectors s) ∧
  sd_disk s' = filter (λ p, starts_with (dir +:+ "/" +:+ id +:+ "/") p = false) (sd_disk s) ∧
  sd_files s' = sd_files s ∧
  (∀ id', id' ≠ id → find_row id' (sd_knowledge s') = find_row id' (sd_knowledge s) ∧
                     KnowledgeFiles.of_knowledge id' s' = KnowledgeFiles.of_knowledge id' s).
Proof.
  intros Hk Hmine Hc r s' answered k'.
  pose (t := cleared dir id s). pose (set_data := λ k : Knowledge, k <| kn_data := Some [("file_ids", JList [])] |> <| kn_updated_at := sd_now s |>).
  pose (t' := Knowledges.put (update_row id set_data)
    (KnowledgeFiles.put (filter (λ kf, kf_knowledge_id kf ≠ id)) t)).
  assert (find_row id (sd_knowledge t') = Some k') as Hk'.
  { simpl. rewrite find_update_row_eq by done. by rewrite Hk. }
  assert (r = (Ok (Some k'), t')) as Hr.
  { subst r. unfold reset_knowledge_by_id, own_knowledge. rewrite run_bind, (run_owned _ _ _ _ s k) by done.
    rewrite run_bind, run_clear, run_bind. unfold KnowledgeFiles.remove_all_files_from_knowledge. rewrite run_write by done.
    unfold Knowledges.update_knowledge_data_by_id, Knowledges.update_row_by_id, now. rewrite run_gets_bind, run_write by done.
    unfold Knowledges.get_knowledge_by_id. by rewrite <- Hk'. }
  subst s'. rewrite Hr. split_and!; try done.
  - unfold with_files. f_equal. unfold KnowledgeFiles.get_file_ids_by_knowledge_id, KnowledgeFiles.of_knowledge. simpl.
    rewrite (filter_none _ (filter _ _)); [|intros kf [Hne _]%list_elem_of_filter Heq; simpl in Heq; by apply find_row_key in Hk; naive_solver].
    simpl. unfold Files.get_files_by_ids. rewrite filter_none; [done|]. intros f _ Hf. by apply not_elem_of_nil in Hf.
  - intros id' Hne. split; [by apply find_update_row_ne|]. apply filter_other. intros kf Hkf Hid. congruence.
Qed.
