(* ===== verification/ToolCache.v ===== *)
(** The loaded tools: as long as commits succeed, every module the process keeps is the
    one its tool's stored source gives. *)

From S2P Require Import Prelude Data Accounts AccessControl Archive Studio Plugin StudioApi.

Section cache.
Context (e : StudioEnv).
Implicit Types (s : Studio).

#[local] Notation execute := (se_execute e).

Definition coherent s : Prop :=
  ∀ id m, cached id s = Some m → ∃ t, find_row id (sd_tools s) = Some t ∧ execute (tl_content t) = Some m.

(** *** Programs that leave the tools alone *)

Definition tools_kept s s' : Prop :=
  sd_commits s = [] → sd_commits s' = [] ∧ sd_tools s' = sd_tools s ∧ sd_TOOLS s' = sd_TOOLS s.

#[export] Instance tools_kept_preorder : PreOrder tools_kept.
Proof.
  split; [by intros s Hc|]. intros s1 s2 s3 H12 H23 H1. destruct (H12 H1) as (H2 & T & O), (H23 H2) as (H3 & T' & O').
  split_and!; congruence.
Qed.

#[local] Notation kept := (preserves tools_kept).

Lemma kept_modify f :
  (∀ s, sd_commits (f s) = sd_commits s ∧ sd_tools (f s) = sd_tools s ∧ sd_TOOLS (f s) = sd_TOOLS s) →
  kept (modify f : studio unit).
Proof. intros Hf s Hc. unfold state_of. simpl. destruct (Hf s) as (-> & -> & ->). done. Qed.

Lemma kept_commit : kept next_commit.
Proof. intros s Hc. unfold next_commit, state_of. by rewrite Hc. Qed.

Lemma kept_write {A} possible f (read : Studio → A) failed :
  (∀ s, sd_commits (f s) = sd_commits s ∧ sd_tools (f s) = sd_tools s ∧ sd_TOOLS (f s) = sd_TOOLS s) →
  kept (write possible f read failed).
Proof.
  intros Hf. unfold write. preserves_step; [apply kept_commit|]. preserves_step; [apply preserves_gets, _|].
  preserves_step; [|apply preserves_ret, _]. preserves_step; [by apply kept_modify|apply preserves_gets, _].
Qed.

Lemma kept_answer {A} code (o : option A) : kept (answer code o : studio A).
Proof. destruct o; [apply preserves_ret|apply preserves_raise]; apply _. Qed.
Lemma kept_responded {A} (o : option A) : kept (responded o : studio A).
Proof. destruct o; [apply preserves_ret|apply preserves_raise]; apply _. Qed.
Lemma kept_remote c : kept (remote c).
Proof. intros s Hc. unfold remote, state_of. simpl. by destruct (sd_answers s). Qed.
Lemma kept_mint : kept mint.
Proof. by intros s Hc. Qed.
Lemma kept_now : kept now.
Proof. apply preserves_gets, _. Qed.
Lemma kept_delete (b : bool) id s :
  let f := λ s, let s := Knowledges.put (delete_row id) s in
     if b then s <| sd_kfiles := filter (λ kf, kf_knowledge_id kf ≠ id) (sd_kfiles s) |> else s in
  sd_commits (f s) = sd_commits s ∧ sd_tools (f s) = sd_tools s ∧ sd_TOOLS (f s) = sd_TOOLS s.
Proof. by destruct b. Qed.
#[local] Hint Resolve kept_commit kept_answer kept_responded kept_remote kept_mint kept_now kept_delete : kept.

Ltac kept_step :=
  first [ progress auto with kept nocore
        | apply kept_write; [intros ?; first [by repeat split|apply kept_delete]]
        | apply kept_modify; [intros ?; by repeat split]
        | apply preserves_for_each; [apply _|intros ? _]
        | preserves_step ].
Ltac kept_auto := repeat kept_step.

Lemma kept_owned {A} `{Resource A} missing prohibited user (found : Studio → option A) :
  kept (owned missing prohibited user found).
Proof. unfold owned. kept_auto. Qed.
Lemma kept_permitted user p : kept (permitted (se_dialect e) (se_groups e) (se_permissions e) user p).
Proof. unfold permitted. kept_auto. Qed.
#[local] Hint Resolve kept_owned kept_permitted : kept.

Lemma kept_prompts user command f :
  kept (create_new_prompt (se_dialect e) (se_groups e) (se_permissions e) user f) ∧
  kept (update_prompt_by_command user command f) ∧ kept (delete_prompt_by_command user command).
Proof.
  unfold create_new_prompt, update_prompt_by_command, delete_prompt_by_command, Prompts.insert_new_prompt,
    Prompts.update_prompt_by_command, Prompts.delete_prompt_by_command. split_and!; kept_auto.
Qed.

Lemma kept_models user id f :
  kept (create_new_model (se_dialect e) (se_groups e) (se_permissions e) user f) ∧
  kept (toggle_model_by_id (se_dialect e) (se_groups e) user id) ∧ kept (update_model_by_id user id f) ∧
  kept (delete_model_by_id user id) ∧ kept (delete_all_models user).
Proof.
  unfold create_new_model, toggle_model_by_id, update_model_by_id, delete_model_by_id, delete_all_models, as_admin,
    Models.insert_new_model, Models.toggle_model_by_id, Models.update_model_by_id, Models.delete_model_by_id,
    Models.delete_all_models. split_and!; kept_auto.
Qed.

Lemma kept_move dir file id : kept (_move_file_to_kb dir file id).
Proof. unfold _move_file_to_kb, move_file, Files.update_file_path_by_id, Files.update_file. kept_auto. Qed.
#[local] Hint Resolve kept_move : kept.

Lemma kept_moved dir id ids : kept (moved_files dir id ids).
Proof. induction ids as [|file_id ids IH]; simpl; unfold any_file; kept_auto; exact IH. Qed.

Lemma kept_backfill l : kept (backfill l).
Proof.
  induction l as [|k l IH]; simpl; [kept_auto|]. preserves_step; [|preserves_step; [exact IH|kept_auto]].
  unfold backfill_one, void, Knowledges.update_knowledge_meta_by_id, Knowledges.update_row_by_id. kept_auto.
Qed.
#[local] Hint Resolve kept_moved kept_backfill : kept.

Lemma kept_add_file id file_id : kept (KnowledgeFiles.add_file_to_knowledge id file_id).
Proof. unfold KnowledgeFiles.add_file_to_knowledge. kept_auto. Qed.
Lemma kept_delete_vectors id file_id : kept (delete_vectors id file_id).
Proof. unfold delete_vectors. kept_auto. Qed.
Lemma kept_clear dir id : kept (clear_collection dir id).
Proof. unfold clear_collection. kept_auto. Qed.
Lemma kept_processed sha embedded save file id : kept (processed sha embedded save file id).
Proof.
  unfold processed, process_file, save_docs_to_vector_db, void, Files.update_file_hash_by_id,
    Files.update_file_data_by_id, Files.update_file_metadata_by_id, Files.update_file. kept_auto.
Qed.
Lemma kept_prepared sha files : kept (prepared sha files).
Proof.
  induction files as [|f files IH]; simpl; unfold Files.update_file_hash_by_id, Files.update_file_data_by_id,
    Files.update_file; kept_auto; exact IH.
Qed.
Lemma kept_batch sha save files id : kept (process_files_batch sha save files id).
Proof.
  unfold process_files_batch, save_docs_to_vector_db, void, Files.update_file_metadata_by_id, Files.update_file.
  preserves_step; [apply kept_prepared|]. kept_auto.
Qed.
Lemma kept_update_row id f : kept (Knowledges.update_row_by_id id f).
Proof. unfold Knowledges.update_row_by_id. kept_auto. Qed.
#[local] Hint Resolve kept_add_file kept_delete_vectors kept_clear kept_processed kept_batch kept_update_row : kept.

Lemma kept_knowledge user id file_id file_ids f :
  kept (create_new_knowledge (se_uuid4 e) (se_dialect e) (se_groups e) (se_permissions e) (se_corpus e) user f) ∧
  kept (backfill_self_corpus_repos (se_corpus e) user) ∧
  kept (update_knowledge_by_id user id f) ∧
  kept (add_file_to_knowledge_by_id (se_upload_dir e) (se_sha256 e) (se_embedded e) (se_save e) user id file_id) ∧
  kept (update_file_from_knowledge_by_id (se_sha256 e) (se_embedded e) (se_save e) user id file_id) ∧
  kept (remove_file_from_knowledge_by_id user id file_id) ∧
  kept (delete_knowledge_by_id (se_upload_dir e) (se_cascades e) user id) ∧
  kept (reset_knowledge_by_id (se_upload_dir e) user id) ∧
  kept (add_files_to_knowledge_batch (se_upload_dir e) (se_sha256 e) (se_save e) user id file_ids).
Proof.
  unfold create_new_knowledge, backfill_self_corpus_repos, update_knowledge_by_id, add_file_to_knowledge_by_id,
    update_file_from_knowledge_by_id, remove_file_from_knowledge_by_id, delete_knowledge_by_id, reset_knowledge_by_id,
    add_files_to_knowledge_batch, as_admin, own_knowledge, any_file, Knowledges.insert_new_knowledge,
    Knowledges.update_knowledge_by_id, Knowledges.update_knowledge_data_by_id, Knowledges.update_knowledge_meta_by_id,
    Knowledges.delete_knowledge_by_id, KnowledgeFiles.remove_file_from_knowledge,
    KnowledgeFiles.remove_all_files_from_knowledge.
  split_and!; kept_auto.
Qed.

(** *** Programs that load and store tools *)

Definition in_step s : Prop := coherent s ∧ sd_commits s = [].

Lemma kept_in_step s s' : tools_kept s s' → in_step s → in_step s'.
Proof.
  intros Hk [Hc Hnil]. destruct (Hk Hnil) as (Hnil' & Ht & HT). split; [|done].
  intros id m Hm. rewrite Ht. apply Hc. unfold cached in *. by rewrite <- HT.
Qed.

Lemma cached_cache id id' m s : cached id' (cache id m s) = if decide (id' = id) then Some m else cached id' s.
Proof.
  unfold cached, cache. simpl. case_decide as Hid.
  - subst. by rewrite decide_True.
  - rewrite decide_False by congruence. simpl.
    induction (sd_TOOLS s) as [|[k v] l IH]; [done|]. rewrite filter_cons. simpl. destruct (decide (k = id)) as [->|Hk].
    + rewrite decide_False by auto. rewrite (decide_False (P := id = id')) by congruence. rewrite IH.
      by destruct (list_find _ l) as [[]|].
    + rewrite decide_True by done. simpl. case_decide; [done|].
      revert IH. destruct (list_find _ (filter _ l)) as [[]|], (list_find _ l) as [[]|]; simpl; congruence.
Qed.

Lemma cached_uncache id id' s m : cached id' (uncache id s) = Some m → id' ≠ id ∧ cached id' s = Some m.
Proof.
  unfold cached, uncache. simpl. induction (sd_TOOLS s) as [|[k v] l IH]; [done|].
  rewrite filter_cons. simpl. destruct (decide (k ≠ id)) as [Hk|Hk]; simpl.
  - destruct (decide (k = id')) as [<-|Hne]; [done|]. revert IH.
    destruct (list_find _ (filter _ l)) as [[]|], (list_find _ l) as [[]|]; simpl; naive_solver.
  - intros H. destruct (IH H) as [Hne H']. split; [done|]. rewrite decide_False by (apply dec_stable in Hk; congruence).
    revert H'. by destruct (list_find _ l) as [[]|].
Qed.

(** What a program establishes: whatever it raises, the cache is in step. *)
#[local] Notation ends P m Q := (triple P m Q (λ _, in_step)).

Lemma ends_gets {A B} P R (f : Studio → A) (k : A → studio B) :
  (∀ a, ends (λ s, P s ∧ f s = a) (k a) R) → ends P (gets f ≫= k) R.
Proof. intros Hk s HP. rewrite run_gets_bind. by apply Hk. Qed.

Lemma tools_answer {A} P Q code (o : option A) :
  (∀ s, P s → in_step s) → (∀ a s, o = Some a → P s → Q a s) → ends P (answer code o) Q.
Proof. intros Hi HQ s HP. destruct o as [a|]; [by apply HQ|by apply Hi]. Qed.
Lemma tools_responded {A} P Q (o : option A) :
  (∀ s, P s → in_step s) → (∀ a s, o = Some a → P s → Q a s) → ends P (responded o) Q.
Proof. intros Hi HQ s HP. destruct o as [a|]; [by apply HQ|by apply Hi]. Qed.

Lemma ends_kept {A} (P : Studio → Prop) (m : studio A) :
  (∀ s s', tools_kept s s' → P s → P s') → (∀ s, P s → in_step s) → kept m → ends P m (λ _, P).
Proof.
  intros HP Hi Hm s H. specialize (Hm s). unfold state_of in Hm. destruct (m s) as [[a|x] s']; simpl in Hm.
  - by apply (HP s).
  - by apply (kept_in_step s); [|apply Hi].
Qed.

Lemma tools_write {A} (P : Studio → Prop) (Q : A → Studio → Prop) (possible : Studio → bool) (f : Studio → Studio) (read : Studio → A) failed :
  (∀ s, P s → sd_commits s = []) →
  (∀ s, P s → if possible s then Q (read (f s)) (f s) else Q failed s) → ends P (write possible f read failed) Q.
Proof.
  intros Hc HQ s HP. specialize (HQ s HP). unfold write. rewrite run_bind. unfold next_commit. rewrite (Hc s HP).
  rewrite run_gets_bind. simpl. by destruct (possible s).
Qed.

Lemma tools_state {A} (m : studio A) s : ends in_step m (λ _, in_step) → in_step s → in_step (state_of m s).
Proof. intros Hm Hs. specialize (Hm s Hs). unfold state_of. by destruct (m s) as [[a|x] s']. Qed.

(** A tool just loaded: the cache is in step but for it. *)
Record loaded id (m : ToolModule) s : Prop := {
  loaded_commits : sd_commits s = [];
  loaded_module : cached id s = Some m;
  loaded_others : ∀ id' m', id' ≠ id → cached id' s = Some m' →
    ∃ t, find_row id' (sd_tools s) = Some t ∧ execute (tl_content t) = Some m'
}.

Lemma loaded_cache id m s : in_step s → loaded id m (cache id m s).
Proof.
  intros [Hs Hc]. split; [done|by rewrite cached_cache, decide_True|]. intros id' m' Hne Hm.
  rewrite cached_cache, decide_False in Hm by done. by apply Hs.
Qed.

Lemma loaded_in_step id m s t :
  loaded id m s → find_row id (sd_tools s) = Some t → execute (tl_content t) = Some m → in_step s.
Proof.
  intros [Hc Hm Ho] Ht Hx. split; [|done]. intros id' m' Hm'. destruct (decide (id' = id)) as [->|Hne]; [|by apply Ho].
  exists t. naive_solver.
Qed.

Lemma loaded_tools id m f s :
  loaded id m s → (∀ id', id' ≠ id → find_row id' (f (sd_tools s)) = find_row id' (sd_tools s)) →
  loaded id m (Tools.put f s).
Proof. intros [Hc Hm Ho] Hf. split; [done..|]. intros id' m' Hne Hm'. simpl. rewrite Hf by done. by apply Ho. Qed.

Hypothesis specified : ∀ content m, execute content = Some m → md_specs m ≠ None.

Lemma load_source_executes content m manifest :
  load_source execute (se_installs e) content = Some (m, manifest) → execute content = Some m.
Proof. unfold load_source. destruct (install_frontmatter_requirements _ _); [|done]. by destruct (execute content); intros [= -> _]. Qed.

Lemma ends_load id f (o : option Tool) :
  ends (λ s, in_step s ∧ find_row id (sd_tools s) = o) (load_into execute (se_installs e) id f)
    (λ r s, ∃ m, loaded id m s ∧ execute (to_content r.1) = Some m ∧ find_row id (sd_tools s) = o ∧ to_id r.1 = to_id f).
Proof.
  intros s [Hs Ho]. unfold load_into. rewrite run_bind.
  destruct (load_source _ _ _) as [[m manifest]|] eqn:Hm; [|done]. apply load_source_executes in Hm. simpl.
  rewrite run_bind. simpl. rewrite run_bind. destruct (md_specs m) as [specs|] eqn:Hspecs; [|by apply specified in Hm].
  simpl. exists m. split_and!; [by apply loaded_cache|done..].
Qed.

Lemma in_step_create user f :
  ends in_step (create_new_tools (se_dialect e) (se_groups e) (se_permissions e) execute (se_installs e) user f)
    (λ _, in_step).
Proof.
  unfold create_new_tools. apply (triple_bind _ _ _ (λ _, in_step)).
  { apply (ends_kept in_step); [by intros s s' ?; apply kept_in_step|done|apply kept_permitted]. }
  intros _. destruct (negb _); [by intros s|]. apply ends_gets. intros [t|]; [by intros s []|].
  intros s [Hs Ho]. unfold or_400. pose proof (ends_load (lower (to_id f))
    (mkToolForm (lower (to_id f)) (to_name f) (to_content f) (to_meta f) (to_access_control f)) None s (conj Hs Ho)) as Hl.
  rewrite run_bind. destruct (load_into _ _ _ _ s) as [[[f' specs]|x] s1]; [|done].
  destruct Hl as (m & Hm & Hx & Hnone & Hid). simpl in Hx, Hid. pose proof Hnone as Hnew. apply find_row_None in Hnew.
  unfold Tools.insert_new_tool. rewrite run_bind. unfold now. rewrite run_gets_bind. unfold write. rewrite run_bind.
  unfold next_commit. rewrite (loaded_commits _ _ _ Hm), run_gets_bind. unfold absent. rewrite Hid.
  rewrite bool_decide_eq_true_2 by done. simpl.
  set (r := Tools.new_tool _ _ _ _). assert (tl_id r = lower (to_id f)) as Hr by exact Hid.
  apply (loaded_in_step (lower (to_id f)) m _ r); [|simpl; by rewrite find_row_app, Hnone; simpl; rewrite decide_True|done].
  apply loaded_tools; [exact Hm|]. intros id' Hne. rewrite find_row_app. simpl. rewrite decide_False by (change (tl_id r ≠ id'); congruence).
  by destruct (find_row id' _).
Qed.

(** Writing one tool that is there, and going on. *)
Lemma tools_update (P : Studio → Prop) (Q : option Tool → Studio → Prop) id (f : Tool → Tool) :
  (∀ s, P s → sd_commits s = [] ∧ find_row id (sd_tools s) ≠ None) →
  (∀ s now, P s → let s' := Tools.put (update_row id (λ r, (f r) <| tl_updated_at := now |>)) s in
     Q (Tools.get_tool_by_id id s') s') →
  ends P (Tools.update_tool_by_id id f) Q.
Proof.
  intros HP HQ s Hs. unfold Tools.update_tool_by_id, now. rewrite run_gets_bind. destruct (HP s Hs) as [Hc Hf].
  unfold write. rewrite run_bind. unfold next_commit. rewrite Hc, run_gets_bind. unfold present.
  rewrite bool_decide_eq_true_2; [by apply HQ|]. apply dec_stable. by rewrite <- find_row_None.
Qed.

Lemma in_step_update user id f :
  ends in_step (update_tools_by_id execute (se_installs e) user id f) (λ _, in_step).
Proof.
  unfold update_tools_by_id. intros s Hs. rewrite run_bind. unfold owned. rewrite run_gets_bind, run_answer_bind.
  unfold Tools.get_tool_by_id. destruct (find_row id (sd_tools s)) as [t|] eqn:Ht; [|done].
  destruct (decide (res_owner t ≠ _ ∧ _)); [done|]. unfold or_400. simpl. rewrite run_bind.
  pose proof (ends_load id f (Some t) s (conj Hs Ht)) as Hl.
  destruct (load_into _ _ _ _ s) as [[[f' specs]|x] s1]; [|done]. destruct Hl as (m & Hm & Hx & Hrow & _). simpl in Hx.
  rewrite run_bind. pose proof (tools_update (λ s', s' = s1) (λ o s', o ≠ None ∧ in_step s') id (form_tool f' specs)) as Hu.
  specialize (Hu ltac:(intros s' ->; split; [by apply (loaded_commits id m)|congruence])).
  refine (_ (Hu _ s1 eq_refl)).
  - destruct (Tools.update_tool_by_id _ _ s1) as [[[t'|]|x] s2]; simpl; naive_solver.
  - intros s' now -> s2. assert (find_row id (sd_tools s2) = Some (form_tool f' specs t <| tl_updated_at := now |>)) as Hs2.
    { simpl. rewrite find_update_row_eq by done. by rewrite Hrow. }
    unfold Tools.get_tool_by_id. split; [by rewrite Hs2|]. eapply (loaded_in_step id m); [|exact Hs2|done].
    apply loaded_tools; [done|]. intros id' Hne. by apply find_update_row_ne.
Qed.

Lemma in_step_delete user id : ends in_step (delete_tools_by_id user id) (λ _, in_step).
Proof.
  unfold delete_tools_by_id. apply (triple_bind _ _ _ (λ _, in_step)).
  { apply (ends_kept in_step); [by intros s s' ?; apply kept_in_step|done|apply kept_owned]. }
  intros t s [Hs Hc]. rewrite run_bind. unfold Tools.delete_tool_by_id, write. rewrite run_bind. unfold next_commit.
  rewrite Hc, run_gets_bind. simpl. split; [|done]. intros id' m Hm%cached_uncache. destruct Hm as [Hne Hm].
  destruct (Hs id' m Hm) as (t' & Ht & Hx). exists t'. simpl. by rewrite find_delete_row_ne.
Qed.

(** Loading a stored tool. *)
Lemma in_step_module id : ends in_step (tool_module execute id) (λ _, in_step).
Proof.
  intros s Hs. unfold tool_module. rewrite run_gets_bind. destruct (cached id s) as [m|] eqn:Hm; [done|].
  rewrite run_bind. unfold load_stored. rewrite run_gets_bind, run_responded_bind. unfold Tools.get_tool_by_id.
  destruct (find_row id (sd_tools s)) as [t|] eqn:Ht; [|done]. rewrite run_bind.
  set (content := replace_imports _). set (f := λ t, t <| tl_content := content |>).
  pose proof (tools_update (λ s', s' = s)
    (λ _ s', sd_commits s' = [] ∧ sd_TOOLS s' = sd_TOOLS s ∧ (∃ t, find_row id (sd_tools s') = Some t ∧ tl_content t = content) ∧
             ∀ id', id' ≠ id → find_row id' (sd_tools s') = find_row id' (sd_tools s)) id f) as Hu.
  specialize (Hu ltac:(intros s' ->; split; [apply Hs|congruence])). refine (_ (Hu _ s eq_refl)); clear Hu.
  - intros Hu. destruct (Tools.update_tool_by_id _ _ s) as [[o|x] s1]; [|done].
    destruct Hu as (Hc & HT & (t1 & Ht1 & Hct) & Ho).
    assert (in_step s1) as Hs1.
    { split; [|done]. intros id' m' Hm'. assert (cached id' s = Some m') as Hm0 by (unfold cached in *; by rewrite <- HT).
      rewrite Ho by congruence. by apply Hs. }
    simpl. destruct (execute content) as [m|] eqn:Hx; [|done]. simpl.
    apply (loaded_in_step id m _ t1); [by apply loaded_cache|done|congruence].
  - intros s' now -> s2. split_and!; [apply Hs|done| |].
    + exists (f t <| tl_updated_at := now |>). simpl. rewrite find_update_row_eq by done. by rewrite Ht.
    + intros id' Hne. by apply find_update_row_ne.
Qed.

Lemma ends_frame {A} (m : studio A) : kept m → ends in_step m (λ _, in_step).
Proof. apply ends_kept; [by intros s s' ?; apply kept_in_step|done]. Qed.

Lemma kept_any_tool id : kept (any_tool id).
Proof. unfold any_tool. kept_auto. Qed.
#[local] Hint Resolve kept_any_tool : kept.

Lemma in_step_made class id form : ends in_step (made_valves execute class id form) (λ _, in_step).
Proof.
  unfold made_valves. apply (triple_bind _ _ _ (λ _, in_step)); [apply ends_frame; kept_auto|]. intros _.
  apply (triple_bind _ _ _ (λ _, in_step)); [apply in_step_module|]. intros m. apply ends_frame. kept_auto.
Qed.

(** A write that leaves the sources alone. *)
Lemma in_step_valves id v : ends in_step (Tools.update_tool_valves_by_id id v) (λ _, in_step).
Proof.
  unfold Tools.update_tool_valves_by_id, now. intros s Hs. rewrite run_gets_bind. revert s Hs. intros s Hs.
  refine (tools_write (λ s', s' = s) (λ _, in_step) _ _ _ _ _ _ s eq_refl); [intros s' ->; apply Hs|].
  intros s' ->. simpl. destruct Hs as [Hs Hc]. split; [|done]. intros id' m Hm. destruct (Hs id' m Hm) as (t & Ht & Hx).
  simpl. rewrite find_update_row, Ht by done. case_decide; [|by exists t]. eexists. split; [done|]. done.
Qed.

Lemma in_step_spec class id : ends in_step (valves_spec execute class id) (λ _, in_step).
Proof.
  unfold valves_spec. apply (triple_bind _ _ _ (λ _, in_step)); [apply ends_frame; kept_auto|]. intros _.
  apply (triple_bind _ _ _ (λ _, in_step)); [apply in_step_module|]. intros m. apply ends_frame. kept_auto.
Qed.

Lemma kept_user_valves id user_id v : kept (update_user_valves_by_id_and_user_id id user_id v).
Proof. unfold update_user_valves_by_id_and_user_id. kept_auto. Qed.

Lemma in_step_user_valves user id v :
  ends in_step (update_user_valves_by_id_and_user_id id (us_id user) v) (λ _, in_step).
Proof. apply ends_frame, kept_user_valves. Qed.

(** C37: As long as commits succeed and every source that executes has specifications, the
    modules the process keeps are those of the stored tools: whatever request is answered,
    and however, a cached module is what executing its tool's stored source gives, and the
    tool is there. *)
Theorem cached_tools_are_the_stored_ones user r s :
  coherent s → sd_commits s = [] → coherent (state_of (handle_studio e user r) s).
Proof.
  intros Hs Hc. assert (in_step s) as Hin by done. cut (in_step (state_of (handle_studio e user r) s)); [by intros []|].
  pose proof (mkPromptForm "" "" "" None) as p0. pose proof (mkModelForm "" None "" [] [] None true) as m0.
  pose proof (mkKnowledgeForm "" "" None None None) as k0.
  pose proof (kept_prompts user) as Hp. pose proof (kept_models user) as Hm. pose proof (kept_knowledge user) as Hk.
  destruct r as [f|command f|command|f|id|id f|id| |f|id f|id|id|id|id form|id form|f| |id f|id file_id|id file_id|id file_id|id|id|id file_ids];
    simpl; rewrite void_state;
    try (refine (tools_state _ _ _ Hin);
      first [ apply in_step_create | apply in_step_update | apply in_step_delete | apply in_step_spec
            | apply (triple_bind _ _ _ (λ _, in_step)); [apply in_step_made|]; intros v;
              apply (triple_bind _ _ _ (λ _, in_step)); [first [apply in_step_valves|apply in_step_user_valves]|];
              intros ?; by apply triple_ret ]);
    refine (kept_in_step _ _ _ Hin).
  - by apply (Hp "" f).
  - by apply (Hp command f).
  - by apply (Hp command p0).
  - by apply (Hm "" f).
  - by apply (Hm id m0).
  - by apply (Hm id f).
  - by apply (Hm id m0).
  - by apply (Hm "" m0).
  - by apply (Hk "" "" [] f).
  - by apply (Hk "" "" [] k0).
  - by apply (Hk id "" [] f).
  - by apply (Hk id file_id [] k0).
  - by apply (Hk id file_id [] k0).
  - by apply (Hk id file_id [] k0).
  - by apply (Hk id "" [] k0).
  - by apply (Hk id "" [] k0).
  - by apply (Hk id "" file_ids k0).
Qed.
End cache.

From stdpp Require Import sorting sets.
From S2P Require Import Prelude StudioFacts StudioContract.
Import Paging.

(** Concrete runs of the workspace endpoints: the theorems of [StudioContract] and
    [ToolCache] at inputs where their hypotheses hold, and closed runs in which the
    endpoints do not do what they are for. *)
Module StudioRuns.

(** ** A site *)

Definition person (role id : string) : User :=
  mkUser id id (id +:+ "@example.org") role "" 0 0 0 None None None None.
Definition root : User := person "admin" "root".
Definition ann : User := person "user" "ann".
Definition bob : User := person "user" "bob".

Definition private : option json_dict := Some [].

Definition studio_permissions : json_dict :=
  [("studio", JDict [("prompts", JBool true); ("tools", JBool true); ("models", JBool true); ("knowledge", JBool true)])].

(** A settings class that keeps what it is given. *)
Definition any_valves : ValvesClass := mkValvesClass [("title", JStr "Valves")] Some.

(** Two sources run: one that imports from the package, and one whose specifications
    cannot be made. *)
Definition weather : string := "from selfai_ui.utils import fetch".
Definition weather_as_written : string := "from utils import fetch".
Definition unspecified : string := "class Tools: broken".
Definition weather_module : ToolModule := mkToolModule (Some [[("name", JStr "forecast")]]) (Some any_valves) (Some any_valves).

Definition run_source (content : string) : option ToolModule :=
  if decide (content = weather) then Some weather_module
  else if decide (content = unspecified) then Some (mkToolModule None None None) else None.
Definition run_specified (content : string) : option ToolModule :=
  if decide (content = weather) then Some weather_module else None.

(** No file has a collection of its own; documents are saved, but not a file the collection
    holds. *)
Definition unprocessed (file_id : string) (s : Studio) : option bool := Some false.
Definition into_vectors (collection : string) (ids : list string) (hash : option string) (s : Studio) :
    option bool * list (string * string) :=
  if decide (Exists (λ id, (collection, id) ∈ sd_vectors s) ids) then (None, sd_vectors s)
  else (Some true, ((λ id, (collection, id)) <$> ids) ++ sd_vectors s).
Definition digest (text : string) : string := "sha256 of " +:+ text.

Definition env (execute : string → option ToolModule) (cascades : bool) : StudioEnv :=
  mkStudioEnv (λ _, "k9") SQLite [] studio_permissions execute (λ _, true) "/data" true cascades
    digest unprocessed into_vectors.

Definition tool (id owner content : string) : Tool :=
  mkTool id owner "Weather" content [] (mkToolMeta None None) (Some [("key", JStr "ann's key")]) private 1 1.
Definition model (id owner : string) : Model := mkModel id owner (Some "qwen") "Tutor" [] [] private true 1 1.
Definition base (id owner : string) (data meta : option json_dict) : Knowledge :=
  mkKnowledge id owner "Notes" "" data meta private 1 1.
Definition file (id owner path : string) : File :=
  mkFile id owner None (id +:+ ".txt") (Some path) (Some [("content", JStr ("text of " +:+ id))])
    (Some [("name", JStr (id +:+ ".txt"))]) 1.

(** Ann's tool, model, file and knowledge base, and bob's knowledge base. *)
Definition site : Studio :=
  mkStudio [mkPrompt "/hi" "ann" "Hi" "Hello" 1 private] [tool "weather" "ann" weather_as_written] [model "tutor" "ann"]
    [base "ka" "ann" None None; base "kb" "bob" None None]
    [mkKnowledgeFile "ka" "f2" 5; mkKnowledgeFile "ka" "f1" 6; mkKnowledgeFile "kb" "f3" 7]
    [file "f3" "bob" "/data/kb/f3.txt"; file "f2" "ann" "/data/ka/f2.txt"; file "f1" "ann" "/data/ka/f1.txt";
     file "f4" "ann" "/data/f4.txt"]
    [root; ann; bob] []
    ["/data/ka/f1.txt"; "/data/ka/f2.txt"; "/data/kb/f3.txt"; "/data/f4.txt"]
    [("ka", "f1"); ("ka", "f2"); ("kb", "f3")] 100 0 [] [] [].

Definition deployed : StudioEnv := env run_source true.
Definition serve (user : User) (r : StudioRequest) (s : Studio) : result ApiExn unit * Studio :=
  handle_studio deployed user r s.
Definition left_by (user : User) (r : StudioRequest) (s : Studio) : Studio := (serve user r s).2.

Definition answers {A} (r : result ApiExn A * Studio) : bool := match r.1 with Ok _ => true | Raise _ => false end.

(** ** The contract at work *)

Lemma workspace_requests_respect_others_witness :
  us_role bob ≠ "admin" ∧ NoDup (keys (sd_files site)) ∧
  respects digest SQLite [] bob site (state_of (handle_studio deployed bob (AddFiles "kb" ["f4"])) site) ∧
  (λ f, (fi_hash f, fi_meta f)) <$> find_row "f4" (sd_files (left_by bob (AddFiles "kb" ["f4"]) site)) =
    Some (Some "sha256 of text of f4", Some [("name", JStr "f4.txt"); ("collection_name", JStr "kb")]).
Proof.
  assert (NoDup (keys (sd_files site))) as Hnd by by_decision. split; [done|]. split; [exact Hnd|]. split; [|by vm_compute].
  refine (workspace_requests_respect_others deployed bob (AddFiles "kb" ["f4"]) site _ Hnd _); [done|discriminate].
Defined.

Lemma an_export_reads_every_file_once_witness :
  KnowledgeFiles.iter_files_by_knowledge_id 1 "ka" site ≠ None ∧
  fi_id <$> KnowledgeFiles.order_by_id (KnowledgeFiles.joined "ka" site) = ["f1"; "f2"].
Proof.
  assert (NoDup (keys (sd_files site))) as Hnd by by_decision.
  assert ("" ∉ keys (sd_files site)) as Hne by by_decision.
  destruct (an_export_reads_every_file_once 1 bob "ka" site ltac:(lia) Hnd Hne) as [(pages & Hp & _) _].
  split; [by rewrite Hp|by vm_compute].
Defined.

Lemma a_reset_empties_one_knowledge_base_witness :
  sd_vectors (reset_knowledge_by_id "/data" ann "ka" site).2 = [("kb", "f3")].
Proof.
  destruct (a_reset_empties_one_knowledge_base "/data" ann "ka" site (base "ka" "ann" None None)
    eq_refl (or_introl eq_refl) eq_refl) as (_ & _ & _ & Hv & _).
  rewrite Hv. reflexivity.
Defined.

Lemma cached_tools_are_the_stored_ones_witness :
  coherent (env run_specified true)
    (state_of (handle_studio (env run_specified true) ann (ToolSpec "weather")) site).
Proof.
  apply (cached_tools_are_the_stored_ones (env run_specified true)).
  - simpl. unfold run_specified. intros content m. case_decide; [|done]. intros [= <-]. discriminate.
  - intros id m Hm. discriminate Hm.
  - reflexivity.
Defined.

(** The tool is then cached, and its stored source rewritten. *)
Example a_spec_loads_the_tool :
  let s := state_of (handle_studio (env run_specified true) ann (ToolSpec "weather")) site in
  cached "weather" s = Some weather_module ∧ tl_content <$> find_row "weather" (sd_tools s) = Some weather.
Proof. by vm_compute. Qed.

(** ** Where the endpoints fall short *)

Definition taken_over : ModelForm := mkModelForm "tutor" None "Mine" [] [] None false.

(** Bob rewrites ann's private model and opens it to everybody. *)
Example anybody_saves_a_model :
  option_map (λ m, (mo_user_id m, mo_name m, mo_access_control m))
    (find_row "tutor" (sd_models (left_by bob (UpdateModel "tutor" taken_over) site))) = Some ("ann", "Mine", None).
Proof. by vm_compute. Qed.

(** Bob, who may not read ann's tool, reads and replaces its settings. *)
Example anybody_reads_and_sets_the_settings_of_a_tool :
  (get_tools_by_id SQLite [] bob "weather" site).1 = Ok None ∧
  (get_tools_valves_by_id bob "weather" site).1 = Ok (Some [("key", JStr "ann's key")]) ∧
  tl_valves <$> find_row "weather" (sd_tools (left_by bob (UpdateValves "weather" [("key", JStr "bob's")]) site)) =
    Some (Some [("key", JStr "bob's")]).
Proof. by vm_compute. Qed.

Definition tool_form (id content : string) : ToolForm := mkToolForm id "New" content (mkToolMeta None None) None.

(** A refused creation leaves its module, which no deletion removes as there is no row. *)
Example a_refused_tool_stays_loaded :
  let '(r, s) := serve ann (CreateTool (tool_form "draft" unspecified)) site in
  r = Raise (Http 400) ∧ find_row "draft" (sd_tools s) = None ∧ cached "draft" s ≠ None ∧
  (serve ann (DeleteTool "draft") s).1 = Raise (Http 401).
Proof. by vm_compute. Qed.

(** An update that cannot be stored is refused, and yet its source is what runs. *)
Example a_refused_update_runs :
  let s0 := site <| sd_tools := [tool "weather" "ann" "old"] |> <| sd_commits := [false] |> in
  let '(r, s) := serve ann (UpdateTool "weather" (tool_form "weather" weather)) s0 in
  r = Raise (Http 400) ∧ tl_content <$> find_row "weather" (sd_tools s) = Some "old" ∧
  cached "weather" s = Some weather_module.
Proof. by vm_compute. Qed.

(** Bob takes ann's private file into his knowledge base: the answer shows it to him, the
    file moves, and deleting the knowledge base deletes it from the disk while its row goes
    on naming a path. *)
Example anybody_takes_a_file :
  let '(r, s) := add_file_to_knowledge_by_id "/data" digest unprocessed into_vectors bob "kb" "f4" site in
  (∃ k files, r = Ok (k, files) ∧ Some [("content", JStr "text of f4")] ∈ (fi_data <$> files)) ∧
  fi_path <$> find_row "f4" (sd_files s) = Some (Some "/data/kb/f4.txt") ∧
  let s' := left_by bob (DeleteKnowledge "kb") s in
  fi_path <$> find_row "f4" (sd_files s') = Some (Some "/data/kb/f4.txt") ∧ "/data/kb/f4.txt" ∉ sd_disk s'.
Proof.
  vm_compute. split_and!; [|done|done|].
  - eexists _, _. split; [done|]. repeat (try left; right).
  - apply (bool_decide_unpack ("/data/kb/f4.txt" ∉ ["/data/ka/f1.txt"; "/data/ka/f2.txt"])). by vm_compute.
Qed.

(** A file that is stored in a bucket is never in [UPLOAD_DIR]: it cannot be added. *)
Example a_file_in_a_bucket_is_refused :
  let s := site <| sd_files := [file "f5" "bob" "s3://bucket/f5.txt"] |> in
  (serve bob (AddFile "kb" "f5") s).1 = Raise (Http 400).
Proof. by vm_compute. Qed.

(** Anybody exports anybody's private knowledge base. *)
Example anybody_exports :
  (prepare_curator_input 1 "" bob "ka" site).1 =
    Ok [("f1", JStr "text of f1", "f1.txt"); ("f2", JStr "text of f2", "f2.txt")] ∧
  (get_knowledge_by_id SQLite [] bob "ka" site).1 = Ok None.
Proof. by vm_compute. Qed.

Definition linked (repo : Json) : option json_dict := Some [("self_corpus", JDict [("repo", repo)])].

(** Deleting a knowledge base deletes whatever repository its owner wrote in its metadata. *)
Example deleting_a_knowledge_base_deletes_any_repository :
  let s := left_by bob (UpdateKnowledge "kb" (mkKnowledgeForm "Notes" "" None (linked (JStr "selfai-somebody")) None)) site in
  sd_calls (left_by bob (DeleteKnowledge "kb") s) = [DeleteCollection "kb"; DeleteRepository (JStr "selfai-somebody")].
Proof. by vm_compute. Qed.

(** With metadata of another shape it cannot be deleted, its files being gone. *)
Example a_knowledge_base_that_cannot_be_deleted :
  let s := left_by bob (UpdateKnowledge "kb"
             (mkKnowledgeForm "Notes" "" None (Some [("self_corpus", JStr "on")]) None)) site in
  let '(r, s') := serve bob (DeleteKnowledge "kb") s in
  r = Raise Uncaught ∧ is_Some (find_row "kb" (sd_knowledge s')) ∧
  sd_disk s' = ["/data/ka/f1.txt"; "/data/ka/f2.txt"; "/data/f4.txt"] ∧ length (sd_files s') = 4%nat.
Proof. vm_compute. split_and!; [done|by eexists|done..]. Qed.

(** Saving a public knowledge base without its metadata forgets its repository, which its
    deletion then leaves. *)
Example a_saved_knowledge_base_forgets_its_repository :
  let public := mkKnowledgeForm "Notes" "" None None None in
  let s := left_by bob (CreateKnowledge public) site in
  kn_meta <$> find_row "k9" (sd_knowledge s) = Some (linked (JStr "selfai-k9")) ∧
  sd_calls (left_by bob (DeleteKnowledge "k9") (left_by bob (UpdateKnowledge "k9" public) s)) =
    [CreateRepository "selfai-k9"; DeleteCollection "k9"].
Proof. by vm_compute. Qed.

(** The list of what a user may write shows rows the updates refuse to them. *)
Example writable_is_not_enough :
  let s := site <| sd_prompts := [mkPrompt "/hi" "ann" "Hi" "Hello" 1
             (Some [("write", JDict [("group_ids", JList []); ("user_ids", JList [JStr "bob"])])])] |> in
  (get_prompt_list SQLite [] bob s).1 = Ok (sd_prompts s) ∧
  (serve bob (UpdatePrompt "hi" (mkPromptForm "/hi" "" "" None)) s).1 = Raise (Http 401).
Proof. by vm_compute. Qed.

(** Without cascades the files of a deleted knowledge base stay associated with it. *)
Example associations_outlive_a_knowledge_base :
  let s := state_of (handle_studio (env run_source false) ann (DeleteKnowledge "ka")) site in
  find_row "ka" (sd_knowledge s) = None ∧
  KnowledgeFiles.get_knowledge_id_for_file "f1" s = Some "ka".
Proof. by vm_compute. Qed.

(** A reset whose vectors could not be deleted says it succeeded; they stay searchable. *)
Example a_reset_may_leave_vectors :
  let '(r, s) := serve ann (ResetKnowledge "ka") (site <| sd_answers := [false] |>) in
  r = Ok tt ∧ ("ka", "f1") ∈ sd_vectors s.
Proof. vm_compute. split; [done|left]. Qed.

End StudioRuns.
