(* ===== verification/EvalTemplate.v ===== *)
(** Task configurations and names of registered evaluations: the validation of
    [models/custom_evals.py], the rendering of [utils/eval_task_template.py] and the
    sanitizing of [routers/evaluations.py].

    [yaml.safe_dump] is a parameter.  Texts are ASCII. *)

From Stdlib Require Import Ascii.
From S2P Require Import Prelude Data.

(** ** Names and kinds *)

Inductive EvalKind := KIND_HF_TASK | KIND_RAW_YAML | KIND_CODE_LANGUAGE.
#[export] Instance EvalKind_eq_dec : EqDecision EvalKind.
Proof. solve_decision. Defined.

Definition kind_text (k : EvalKind) : string :=
  match k with KIND_HF_TASK => "hf_task" | KIND_RAW_YAML => "raw_yaml" | KIND_CODE_LANGUAGE => "code_language" end.
Definition KINDS : list EvalKind := [KIND_HF_TASK; KIND_RAW_YAML; KIND_CODE_LANGUAGE].

Definition KINDS_BY_EVAL_TYPE : list (string * list EvalKind) :=
  [("language-eval", [KIND_HF_TASK; KIND_RAW_YAML]); ("code-eval", [KIND_CODE_LANGUAGE])].

Definition kinds_of (eval_type : string) : option (list EvalKind) :=
  snd <$> find (λ tk, bool_decide (tk.1 = eval_type)) KINDS_BY_EVAL_TYPE.

Definition _NAME_MAX : nat := 96.

Definition is_lower (c : ascii) : bool := let n := nat_of_ascii c in bool_decide ((97 ≤ n)%nat ∧ (n ≤ 122)%nat).
Definition is_upper (c : ascii) : bool := let n := nat_of_ascii c in bool_decide ((65 ≤ n)%nat ∧ (n ≤ 90)%nat).
Definition is_digit (c : ascii) : bool := let n := nat_of_ascii c in bool_decide ((48 ≤ n)%nat ∧ (n ≤ 57)%nat).
Definition is_alnum (c : ascii) : bool := is_lower c || is_upper c || is_digit c.

(** Whether the name is refused. *)
Definition validate_name (name : string) : bool :=
  match name with
  | EmptyString => true
  | String c _ =>
      bool_decide (_NAME_MAX < String.length name)%nat ||
      negb (all_chars (λ c, is_alnum c || bool_decide (c ∈ ["-"; "_"; "."]%char)) name) ||
      negb (is_alnum c) ||
      bool_decide (name ≠ lower name)
  end.

(** The kind that was meant; [None] when it is refused. *)
Definition validate_kind (kind eval_type : string) : option EvalKind :=
  k ← find (λ k, bool_decide (kind_text k = kind)) KINDS;
  allowed ← kinds_of eval_type;
  if decide (k ∈ allowed) then Some k else None.

(** ** Rendering *)

Definition OUTPUT_TYPES : list string := ["multiple_choice"; "generate_until"].

Definition DEFAULT_METRICS (output_type : string) : list Json :=
  if decide (output_type = "multiple_choice") then
    [JDict [("metric", JStr "acc"); ("aggregation", JStr "mean"); ("higher_is_better", JBool true)];
     JDict [("metric", JStr "acc_norm"); ("aggregation", JStr "mean"); ("higher_is_better", JBool true)]]
  else
    [JDict [("metric", JStr "exact_match"); ("aggregation", JStr "mean"); ("higher_is_better", JBool true);
            ("ignore_case", JBool true); ("ignore_punctuation", JBool false)]].

Definition SPLIT_KEYS : list string := ["training_split"; "validation_split"; "test_split"; "fewshot_split"].

(** [TemplateError], by what it says, and what else is raised. *)
Inductive TemplateExn :=
| NoDatasetPath
| BadOutputType
| NoDocToText
| NoDocToTarget
| NoDocToChoice
| NoSplit
| BadMetricList
| BadMetric
| NoYaml
| NotRendered
| Unhashable.

(** [definition.get(key)], where it is truthy. *)
Definition given (key : string) (d : json_dict) : option Json :=
  v ← dict_lookup key d; if json_truthy v then Some v else None.

(** [output_type in OUTPUT_TYPES] *)
Definition output_type_of (d : json_dict) : result TemplateExn string :=
  match dict_lookup "output_type" d with
  | Some (JStr s) => if decide (s ∈ OUTPUT_TYPES) then Ok s else Raise BadOutputType
  | Some (JList _) | Some (JDict _) => Raise Unhashable
  | _ => Raise BadOutputType
  end.

Definition is_metric (m : Json) : bool :=
  match m with JDict d => bool_decide (given "metric" d ≠ None) | _ => false end.

(** The metrics of a definition that checks, [None] for the default ones. *)
Definition metrics_of (d : json_dict) : result TemplateExn (option (list Json)) :=
  match dict_lookup "metric_list" d with
  | None | Some JNull => Ok None
  | Some (JList (m :: l)) => if forallb is_metric (m :: l) then Ok (Some (m :: l)) else Raise BadMetric
  | Some _ => Raise BadMetricList
  end.

Definition json_or_null_or_empty (j : option Json) : bool :=
  match j with None | Some JNull | Some (JStr EmptyString) => true | _ => false end.

(** What a definition is rendered from: its dataset, output type and metrics. *)
Definition validate_hf_task_definition (d : json_dict) : result TemplateExn (string * string * option (list Json)) :=
  match truthy (json_str (dict_lookup "dataset_path" d)) with
  | None => Raise NoDatasetPath
  | Some path =>
      match output_type_of d with
      | Raise e => Raise e
      | Ok output =>
          if decide (given "doc_to_text" d = None) then Raise NoDocToText
          else if json_or_null_or_empty (dict_lookup "doc_to_target" d) then Raise NoDocToTarget
          else if decide (output = "multiple_choice" ∧ given "doc_to_choice" d = None) then Raise NoDocToChoice
          else if decide (given "test_split" d = None ∧ given "validation_split" d = None) then Raise NoSplit
          else match metrics_of d with Raise e => Raise e | Ok m => Ok (path, output, m) end
      end
  end.

(** [config[key] = ...] where there is something to put. *)
Definition put_given (key : string) (v : option Json) (config : json_dict) : json_dict :=
  match v with Some v => dict_set key v config | None => config end.

Definition metadata (description : option string) : json_dict :=
  dict_set "source" (JStr "self.ai custom evaluation")
    (put_given "description" (JStr <$> truthy description) [("version", JFloat true)]).

Definition not_null (j : option Json) : option Json := match j with Some JNull => None | _ => j end.

Definition hf_task_config (name : string) (d : json_dict) (description : option string) (path output : string)
    (metrics : option (list Json)) : json_dict :=
  let config := [("task", JStr name); ("dataset_path", JStr path); ("output_type", JStr output)] in
  let config := dict_set "dataset_name" (default JNull (given "dataset_name" d)) config in
  let config := foldl (λ config key, put_given key (given key d) config) config SPLIT_KEYS in
  let config := put_given "doc_to_text" (dict_lookup "doc_to_text" d) config in
  let config := put_given "doc_to_target" (dict_lookup "doc_to_target" d) config in
  let config := if decide (output = "multiple_choice") then put_given "doc_to_choice" (dict_lookup "doc_to_choice" d) config
                else config in
  let config := put_given "num_fewshot" (not_null (dict_lookup "num_fewshot" d)) config in
  let config := put_given "generation_kwargs" (given "generation_kwargs" d) config in
  let config := dict_set "metric_list" (JList (default (DEFAULT_METRICS output) metrics)) config in
  dict_set "metadata" (JDict (metadata description)) config.

Section render.
Context (safe_dump : json_dict → string).

Definition render_hf_task_yaml (name : string) (d : json_dict) (description : option string) : result TemplateExn string :=
  match validate_hf_task_definition d with
  | Raise e => Raise e
  | Ok (path, output, metrics) => Ok (safe_dump (hf_task_config name d description path output metrics))
  end.

Definition render_definition (kind : EvalKind) (name : string) (d : json_dict) (description : option string)
    : result TemplateExn string :=
  match kind with
  | KIND_RAW_YAML =>
      match truthy (json_str (dict_lookup "yaml" d)) with Some raw => Ok raw | None => Raise NoYaml end
  | KIND_HF_TASK => render_hf_task_yaml name d description
  | KIND_CODE_LANGUAGE => Raise NotRendered
  end.
End render.

(** ** Sanitizing *)

Definition is_control (c : ascii) : bool :=
  let n := nat_of_ascii c in
  bool_decide ((n ≤ 8)%nat ∨ n = 11%nat ∨ n = 12%nat ∨ (14 ≤ n)%nat ∧ (n ≤ 31)%nat ∨ n = 127%nat).

Fixpoint filter_chars (p : ascii → bool) (s : string) : string :=
  match s with
  | EmptyString => EmptyString
  | String c s' => if p c then String c (filter_chars p s') else filter_chars p s'
  end.

(** [html.escape(s, quote=True)] *)
Definition escape_char (c : ascii) : string :=
  let n := nat_of_ascii c in
  if decide (n = 38%nat) then "&amp;" else if decide (n = 60%nat) then "&lt;"
  else if decide (n = 62%nat) then "&gt;" else if decide (n = 34%nat) then "&quot;"
  else if decide (n = 39%nat) then "&#x27;" else String c EmptyString.

Fixpoint escape (s : string) : string :=
  match s with EmptyString => EmptyString | String c s' => escape_char c +:+ escape s' end.

Definition _MAX_STRING_LEN : N := 512 * 1024.

(** [s[:n]], and whether something was cut off. *)
Fixpoint cut (n : N) (s : string) : string * bool :=
  match s with
  | EmptyString => (EmptyString, false)
  | String c s' =>
      if decide (n = 0%N) then (EmptyString, true) else let '(t, more) := cut (N.pred n) s' in (String c t, more)
  end.

Definition truncation_mark : string := String newline "... [truncated]".

Definition _sanitize_string (s : string) : string :=
  let '(t, more) := cut _MAX_STRING_LEN (filter_chars (λ c, negb (is_control c)) s) in
  escape (if more : bool then t +:+ truncation_mark else t).

Fixpoint _sanitize_value (j : Json) : Json :=
  match j with
  | JStr s => JStr (_sanitize_string s)
  | JDict d => JDict ((fix go d := match d with [] => [] | (k, v) :: r => (k, _sanitize_value v) :: go r end) d)
  | JList l => JList ((fix go l := match l with [] => [] | v :: r => _sanitize_value v :: go r end) l)
  | j => j
  end.
