(* ===== verification/CustomEvals.v ===== *)
(** The registered evaluations: the table of [models/custom_evals.py], the task listing
    of [routers/evaluations.py] and the endpoints of [routers/custom_evals.py].

    The harnesses are another program, given by the type class [Harness]; the network
    between is a script that says of each call how long it took, what other requests did
    to the table meanwhile, and whether it and its answer arrived.  The endpoints are
    reached by administrators only.  Of an exception's text nothing is kept. *)

From S2P Require Import Prelude Data Accounts EvalTemplate.

(** ** Rows *)

Inductive SyncStatus := SYNC_PENDING | SYNC_SYNCED | SYNC_FAILED.
#[export] Instance SyncStatus_eq_dec : EqDecision SyncStatus.
Proof. solve_decision. Defined.

(** What [_harness_detail] takes from an answer: its detail, or its status. *)
Inductive Detail := Said (detail : Json) | Status (code : Z).

(** [sync_error], by the sentence it is. *)
Inductive SyncError :=
| CouldNotReach
| CouldNotReachToWithdraw
| Refused (d : Detail)
| WithdrawalRefused (d : Detail).

Record CustomEval := mkCustomEval {
  ce_id : string;
  ce_name : string;
  ce_eval_type : string;
  ce_kind : EvalKind;
  ce_definition : json_dict;
  ce_description : option string;
  ce_sync_status : SyncStatus;
  ce_sync_error : option SyncError;
  ce_synced_at : option Z;
  ce_owner_id : string;
  ce_owner_name : option string;
  ce_created_at : Z;
  ce_updated_at : Z
}.
#[export] Instance CustomEval_eta : Eta CustomEval := λ c,
  mkCustomEval (ce_id c) (ce_name c) (ce_eval_type c) (ce_kind c) (ce_definition c) (ce_description c)
    (ce_sync_status c) (ce_sync_error c) (ce_synced_at c) (ce_owner_id c) (ce_owner_name c) (ce_created_at c)
    (ce_updated_at c).
#[export] Instance CustomEval_keyed : Keyed CustomEval := ce_id.

Record CustomEvalForm := mkCustomEvalForm {
  cf_name : string;
  cf_eval_type : string;
  cf_kind : string;
  cf_definition : json_dict;
  cf_description : option string
}.

Record CustomEvalUpdateForm := mkCustomEvalUpdateForm {
  cu_definition : option json_dict;
  cu_description : option string
}.

(** ** The harnesses *)

Inductive HarnessCall :=
| ListTasks (eval_type : string)
| ListLanguages
| PushTask (name yaml_config : string)
| WithdrawTask (name : string)
| RegisterLanguage (token : Json)
| WithdrawLanguage (token : Json).

(** A status, and the body if it is JSON. *)
Record Response := mkResponse { rs_status : Z; rs_body : option Json }.

Class Harness (H : Type) := {
  answer_to : HarnessCall → H → Response * H;
  task : H → string → option string;
  language : H → Json → bool
}.

Definition accepted (code : Z) : Prop := code = 200 ∨ code = 201.
#[export] Instance accepted_dec code : Decision (accepted code).
Proof. unfold accepted. apply _. Defined.
Definition withdrawn (code : Z) : Prop := code = 200 ∨ code = 204 ∨ code = 404.
#[export] Instance withdrawn_dec code : Decision (withdrawn code).
Proof. unfold withdrawn. apply _. Defined.

Inductive Fate := Answered | AnswerLost | NeverArrived.

(** ** State *)

Record Registry (H : Type) := mkRegistry {
  rg_rows : list CustomEval;
  rg_cache : list (string * (Z * Json));
  rg_now : Z;
  rg_harness : H
}.
Arguments mkRegistry {H}.
Arguments rg_rows {H}.
Arguments rg_cache {H}.
Arguments rg_now {H}.
Arguments rg_harness {H}.
#[export] Instance Registry_eta H : Eta (Registry H) := λ r,
  mkRegistry (rg_rows r) (rg_cache r) (rg_now r) (rg_harness r).

Record Link (H : Type) := mkLink { ln_seconds : Z; ln_meanwhile : Registry H → Registry H; ln_fate : Fate }.
Arguments mkLink {H}.
Arguments ln_seconds {H}.
Arguments ln_meanwhile {H}.
Arguments ln_fate {H}.

Record EvalSite (H : Type) := mkEvalSite {
  es_registry : Registry H;
  es_minted : nat;
  es_commits : list bool;
  es_links : list (Link H);
  es_calls : list HarnessCall
}.
Arguments mkEvalSite {H}.
Arguments es_registry {H}.
Arguments es_minted {H}.
Arguments es_commits {H}.
Arguments es_links {H}.
Arguments es_calls {H}.
#[export] Instance EvalSite_eta H : Eta (EvalSite H) := λ s,
  mkEvalSite (es_registry s) (es_minted s) (es_commits s) (es_links s) (es_calls s).

Abbreviation evalp H A := (prog (EvalSite H) ApiExn A).

Section site.
Context {H : Type} `{Harness H}.

Definition next_commit : evalp H bool := λ s,
  match es_commits s with
  | [] => (Ok true, s)
  | ok :: rest => (Ok ok, s <| es_commits := rest |>)
  end.

Definition mint : evalp H nat := λ s, (Ok (es_minted s), s <| es_minted := S (es_minted s) |>).
Definition now : evalp H Z := gets (λ s, rg_now (es_registry s)).
Definition rows : evalp H (list CustomEval) := gets (λ s, rg_rows (es_registry s)).
Definition put_rows (f : list CustomEval → list CustomEval) (s : EvalSite H) : EvalSite H :=
  s <| es_registry := (es_registry s) <| rg_rows := f (rg_rows (es_registry s)) |> |>.
Definition put_cache (f : list (string * (Z * Json)) → list (string * (Z * Json))) (s : EvalSite H) : EvalSite H :=
  s <| es_registry := (es_registry s) <| rg_cache := f (rg_cache (es_registry s)) |> |>.

(** An awaited call of a harness; [None] when no answer came. *)
Definition remote (c : HarnessCall) : evalp H (option Response) := λ s,
  let l := default (mkLink 0 (λ r, r) Answered) (head (es_links s)) in
  let r := es_registry s in
  let '(response, h) := answer_to c (rg_harness r) in
  let h := match ln_fate l with NeverArrived => rg_harness r | _ => h end in
  let r := ln_meanwhile l (r <| rg_harness := h |> <| rg_now := rg_now r + ln_seconds l |>) in
  (Ok match ln_fate l with Answered => Some response | _ => None end,
   s <| es_registry := r |> <| es_links := tail (es_links s) |> <| es_calls := es_calls s ++ [c] |>).

(** [try: write; db.commit(); return ... except: return failed] *)
Definition write {A} (possible : list CustomEval → bool) (f : list CustomEval → list CustomEval)
    (read : list CustomEval → A) (failed : A) : evalp H A :=
  ok ← next_commit;
  l ← rows;
  if ok && possible l then modify (put_rows f);; l ← rows; mret (read l) else mret failed.

End site.

(** ** The table *)

Module CustomEvals.
Section table.
Context {H : Type} (uuid4 : nat → string).

Definition get_all (l : list CustomEval) : list CustomEval := order_by_text ce_eval_type (order_by_text ce_name l).
Definition get_by_eval_type (eval_type : string) (l : list CustomEval) : list CustomEval :=
  order_by_text ce_name (filter (λ c, ce_eval_type c = eval_type) l).
Definition get_by_id (id : string) (l : list CustomEval) : option CustomEval := find_row id l.
Definition is_named (name eval_type : string) (c : CustomEval) : Prop := ce_name c = name ∧ ce_eval_type c = eval_type.
#[export] Instance is_named_dec name eval_type c : Decision (is_named name eval_type c).
Proof. unfold is_named. apply _. Defined.
Definition get_by_name (name eval_type : string) (l : list CustomEval) : option CustomEval :=
  head (filter (is_named name eval_type) l).

(** The primary key and [uq_custom_eval_name_eval_type]. *)
Definition insertable (c : CustomEval) (l : list CustomEval) : bool :=
  bool_decide (ce_id c ∉ keys l) && bool_decide (get_by_name (ce_name c) (ce_eval_type c) l = None).

Definition insert (form : CustomEvalForm) (kind : EvalKind) (owner_id : string) (owner_name : option string)
    : evalp H (option CustomEval) :=
  t ← now;
  n ← mint;
  let c := mkCustomEval (uuid4 n) (cf_name form) (cf_eval_type form) kind (cf_definition form) (cf_description form)
             SYNC_PENDING None None owner_id owner_name t t in
  write (insertable c) (λ l, l ++ [c]) (λ _, Some c) None.

Definition updated (t : Z) (u : CustomEvalUpdateForm) (c : CustomEval) : CustomEval :=
  let c := c <| ce_updated_at := t |> in
  let c := match cu_definition u with
           | Some d => c <| ce_definition := d |> <| ce_sync_status := SYNC_PENDING |> <| ce_sync_error := None |>
           | None => c
           end in
  match cu_description u with Some d => c <| ce_description := Some d |> | None => c end.

Definition update (id : string) (u : CustomEvalUpdateForm) : evalp H (option CustomEval) :=
  t ← now; write (λ _, true) (update_row id (updated t u)) (get_by_id id) None.

Definition set_sync_state (id : string) (st : SyncStatus) (error : option SyncError) : evalp H (option CustomEval) :=
  t ← now;
  write (λ _, true)
    (update_row id (λ c, c <| ce_sync_status := st |> <| ce_sync_error := error |>
                           <| ce_synced_at := if decide (st = SYNC_SYNCED) then Some t else None |>))
    (get_by_id id) None.

Definition delete (id : string) : evalp H bool := write (λ _, true) (delete_row id) (λ _, true) false.

End table.
End CustomEvals.

Section endpoints.
Context {H : Type} `{Harness H} (uuid4 : nat → string) (safe_dump : json_dict → string).

(** ** The harness' task list *)

Definition EVAL_TASKS_CACHE_TTL_SECONDS : Z := 60.

Definition cached_tasks (eval_type : string) (r : Registry H) : option (Z * Json) :=
  snd <$> find (λ e, bool_decide (e.1 = eval_type)) (rg_cache r).
Definition cache_tasks (eval_type : string) (v : Z * Json) (cache : list (string * (Z * Json))) :=
  (eval_type, v) :: filter (λ e, e.1 ≠ eval_type) cache.
Definition forget_tasks (eval_type : string) : evalp H unit := modify (put_cache (filter (λ e, e.1 ≠ eval_type))).

Definition fetch_harness_tasks (eval_type : string) : evalp H Json :=
  if decide (kinds_of eval_type = None) then raise (Http 400)
  else
    c ← gets (λ s, cached_tasks eval_type (es_registry s));
    t ← now;
    match (c ← c; if decide (t - c.1 < EVAL_TASKS_CACHE_TTL_SECONDS) then Some c.2 else None) with
    | Some tasks => mret tasks
    | None =>
        r ← remote (ListTasks eval_type);
        r ← answer 502 r;
        if decide (rs_status r ≠ 200) then raise (Http 502)
        else
          body ← responded (rs_body r);
          t ← now;
          let tasks := _sanitize_value body in
          modify (put_cache (cache_tasks eval_type (t, tasks)));;
          mret tasks
    end.

Definition get_eval_languages : evalp H Json :=
  r ← remote ListLanguages;
  r ← answer 502 r;
  if decide (rs_status r ≠ 200) then raise (Http 502) else body ← responded (rs_body r); mret (_sanitize_value body).

(** [{t.get("name") for t in tasks if isinstance(t, dict)}]; [None] when something is
    raised. *)
Fixpoint task_names (l : list Json) : option (list Json) :=
  match l with
  | [] => Some []
  | JDict d :: rest =>
      match dict_lookup "name" d with
      | Some (JList _) | Some (JDict _) => None
      | name => names ← task_names rest; Some (default JNull name :: names)
      end
  | _ :: rest => task_names rest
  end.

Definition _reject_if_shadows_builtin (name eval_type : string) : evalp H unit :=
  tasks ← fetch_harness_tasks eval_type;
  names ← responded (l ← py_iter tasks; task_names l);
  if decide (JStr name ∈ names) then raise (Http 409) else mret tt.

(** ** The endpoints *)

Definition list_custom_evals (eval_type : option string) : evalp H (list CustomEval) :=
  l ← rows;
  match eval_type with
  | Some e => if decide (kinds_of e = None) then raise (Http 400) else mret (CustomEvals.get_by_eval_type e l)
  | None => mret (CustomEvals.get_all l)
  end.

Definition create_custom_eval (owner_id : string) (owner_name : option string) (form : CustomEvalForm) : evalp H CustomEval :=
  if validate_name (cf_name form) then raise (Http 400)
  else
    kind ← answer 400 (validate_kind (cf_kind form) (cf_eval_type form));
    if decide (cf_definition form = []) then raise (Http 400)
    else
      l ← rows;
      match CustomEvals.get_by_name (cf_name form) (cf_eval_type form) l with
      | Some _ => raise (Http 409)
      | None =>
          _reject_if_shadows_builtin (cf_name form) (cf_eval_type form);;
          c ← CustomEvals.insert uuid4 form kind owner_id owner_name;
          answer 500 c
      end.

Definition get_custom_eval (id : string) : evalp H CustomEval := l ← rows; answer 404 (CustomEvals.get_by_id id l).

Definition update_custom_eval (id : string) (form : CustomEvalUpdateForm) : evalp H CustomEval :=
  get_custom_eval id;;
  if decide (cu_definition form = None ∧ cu_description form = None) then raise (Http 400)
  else if decide (cu_definition form = Some []) then raise (Http 400)
  else c ← CustomEvals.update id form; answer 500 c.

Definition _harness_detail (r : Response) : Detail :=
  match rs_body r with
  | Some (JDict d) => match given "detail" d with Some j => Said j | None => Status (rs_status r) end
  | _ => Status (rs_status r)
  end.

(** A harness is asked to drop something before a row goes. *)
Definition withdraw (id : string) (c : HarnessCall) : evalp H unit :=
  r ← remote c;
  match r with
  | None => CustomEvals.set_sync_state id SYNC_FAILED (Some CouldNotReachToWithdraw);; raise (Http 502)
  | Some r =>
      if decide (withdrawn (rs_status r)) then mret tt
      else CustomEvals.set_sync_state id SYNC_FAILED (Some (WithdrawalRefused (_harness_detail r)));; raise (Http 400)
  end.

Definition language_token (c : CustomEval) : option Json := given "language" (ce_definition c).

Definition _withdraw_code_language (c : CustomEval) : evalp H unit :=
  match language_token c with Some token => withdraw (ce_id c) (WithdrawLanguage token) | None => mret tt end.

Definition delete_custom_eval (id : string) : evalp H bool :=
  c ← get_custom_eval id;
  if decide (ce_eval_type c = "code-eval" ∧ ce_sync_status c = SYNC_SYNCED) then
    _withdraw_code_language c;; forget_tasks (ce_eval_type c);; CustomEvals.delete id
  else if decide (ce_eval_type c = "language-eval" ∧ ce_sync_status c = SYNC_SYNCED) then
    withdraw id (WithdrawTask (ce_name c));; forget_tasks (ce_eval_type c);; CustomEvals.delete id
  else CustomEvals.delete id.

Definition _render_or_400 (c : CustomEval) : evalp H string :=
  match render_definition safe_dump (ce_kind c) (ce_name c) (ce_definition c) (ce_description c) with
  | Ok y => mret y
  | Raise Unhashable => raise Uncaught
  | Raise _ => raise (Http 400)
  end.

Definition get_rendered_config (id : string) : evalp H (string * string * string) :=
  c ← get_custom_eval id; y ← _render_or_400 c; mret (ce_name c, ce_eval_type c, y).

(** Handing something to a harness and recording how that went; [refusal] is the status
    a refusal is answered with. *)
Definition deliver (c : CustomEval) (call : HarnessCall) (refusal : Z → Z) : evalp H CustomEval :=
  r ← remote call;
  match r with
  | None => CustomEvals.set_sync_state (ce_id c) SYNC_FAILED (Some CouldNotReach);; raise (Http 502)
  | Some r =>
      if decide (accepted (rs_status r)) then
        forget_tasks (ce_eval_type c);;
        c ← CustomEvals.set_sync_state (ce_id c) SYNC_SYNCED None;
        responded c
      else
        CustomEvals.set_sync_state (ce_id c) SYNC_FAILED (Some (Refused (_harness_detail r)));;
        raise (Http (refusal (rs_status r)))
  end.

Definition _sync_code_language (c : CustomEval) : evalp H CustomEval :=
  token ← answer 400 (language_token c);
  deliver c (RegisterLanguage token) (λ code, if decide (code = 503) then 503 else 400).

Definition sync_custom_eval (id : string) : evalp H CustomEval :=
  c ← get_custom_eval id;
  if decide (ce_eval_type c = "code-eval") then _sync_code_language c
  else if decide (ce_eval_type c ≠ "language-eval") then raise (Http 501)
  else y ← _render_or_400 c; deliver c (PushTask (ce_name c) y) (λ _, 400).

End endpoints.

(** ** Looking a dataset up *)

Definition sorted_keys (j : option Json) : option (list string) :=
  match j with
  | None => Some []
  | Some j => if json_truthy j then match j with JDict d => Some (order_by_text (λ k, k) d.*1) | _ => None end else Some []
  end.

(** Its configurations with their splits and columns; [None] when something is raised. *)
Fixpoint configurations (l : json_dict) : option (list (string * list string * list string)) :=
  match l with
  | [] => Some []
  | (name, JDict cfg) :: rest =>
      splits ← sorted_keys (dict_lookup "splits" cfg);
      columns ← sorted_keys (dict_lookup "features" cfg);
      others ← configurations rest;
      Some ((name, splits, columns) :: others)
  | _ :: rest => configurations rest
  end.

(** [hub] is the answer of the datasets server. *)
Definition inspect_hf_dataset (hub : string → option Response) (dataset_path : string)
    : result ApiExn (string * list (string * list string * list string)) :=
  let path := strip dataset_path in
  if decide (path = "") then Raise (Http 400)
  else
    match hub path with
    | None => Raise (Http 502)
    | Some r =>
        if decide (rs_status r ≠ 200) then Raise (Http 404)
        else
          match rs_body r with
          | Some (JDict body) =>
              let info := default (JDict []) (dict_lookup "dataset_info" body) in
              let configs := match info with JDict d => if has_key "features" d then [("default", info)] else d
                             | _ => [("default", info)] end in
              match configurations configs with Some out => Ok (path, out) | None => Raise Uncaught end
          | _ => Raise Uncaught
          end
    end.

(** ** Requests *)

Inductive EvalRequest :=
| Register (owner_id : string) (owner_name : option string) (form : CustomEvalForm)
| UpdateEval (id : string) (form : CustomEvalUpdateForm)
| Withdraw (id : string)
| Sync (id : string)
| Tasks (eval_type : string)
| Languages.

Definition handle_eval {H} `{Harness H} (uuid4 : nat → string) (safe_dump : json_dict → string) (r : EvalRequest)
    : evalp H unit :=
  match r with
  | Register owner_id owner_name form => void (create_custom_eval uuid4 owner_id owner_name form)
  | UpdateEval id form => void (update_custom_eval id form)
  | Withdraw id => void (delete_custom_eval id)
  | Sync id => void (sync_custom_eval safe_dump id)
  | Tasks eval_type => void (fetch_harness_tasks eval_type)
  | Languages => void get_eval_languages
  end.
