(* ===== verification/CustomEvalContract.v ===== *)
(** What registering evaluations promises: the catalog does not claim what the harness
    does not have, names stay apart from the built-in ones, a rendered task measures what
    was defined, and listings are inert text. *)

From Stdlib Require Import Ascii.
From S2P Require Import Prelude Data Accounts EvalTemplate CustomEvals.

(** ** The harnesses' side of the contract *)

(** What the calls of a harness do to what it holds.  A refused push may leave the task
    either way; nothing touches a task or language it does not name. *)
Class HarnessLaws (H : Type) `{Harness H} := {
  pushing n y h : let '(r, h') := answer_to (PushTask n y) h in
    (accepted (rs_status r) → task h' n = Some y) ∧
    (∀ m, m ≠ n → task h' m = task h m) ∧ (∀ t, language h' t = language h t);
  withdrawing n h : let '(_, h') := answer_to (WithdrawTask n) h in
    (∀ m, m ≠ n → task h' m = task h m) ∧ (∀ t, language h' t = language h t);
  registering t h : let '(r, h') := answer_to (RegisterLanguage t) h in
    (accepted (rs_status r) → language h' t = true) ∧
    (∀ u, language h u = true → language h' u = true) ∧ (∀ n, task h' n = task h n);
  deregistering t h : let '(_, h') := answer_to (WithdrawLanguage t) h in
    (∀ u, u ≠ t → language h' u = language h u) ∧ (∀ n, task h' n = task h n);
  listing c h : (∃ e, c = ListTasks e) ∨ c = ListLanguages → (answer_to c h).2 = h
}.

(** ** The table's keys *)

Record unique (l : list CustomEval) : Prop := {
  unique_ids : NoDup (keys l);
  unique_names c c' : c ∈ l → c' ∈ l → ce_name c = ce_name c' → ce_eval_type c = ce_eval_type c' → ce_id c = ce_id c'
}.

Definition keeps_name (f : CustomEval → CustomEval) : Prop :=
  ∀ c, ce_id (f c) = ce_id c ∧ ce_name (f c) = ce_name c ∧ ce_eval_type (f c) = ce_eval_type c.

Lemma keeps_name_key f : keeps_name f → keeps_key f.
Proof. intros Hf c. apply Hf. Qed.

Lemma elem_update_row l id (f : CustomEval → CustomEval) c :
  keeps_name f → c ∈ update_row id f l →
  ∃ c0, c0 ∈ l ∧ ce_id c = ce_id c0 ∧ ce_name c = ce_name c0 ∧ ce_eval_type c = ce_eval_type c0 ∧
        (ce_id c0 = id ∧ c = f c0 ∨ ce_id c0 ≠ id ∧ c = c0).
Proof.
  intros Hf. unfold update_row, update_where. intros (c0 & -> & Hc)%list_elem_of_fmap. exists c0. split; [done|].
  change (row_key c0) with (ce_id c0). destruct (decide (ce_id c0 = id)) as [Hid|Hid].
  - rewrite bool_decide_eq_true_2 by done. destruct (Hf c0) as (E1 & E2 & E3). auto 10.
  - rewrite bool_decide_eq_false_2 by done. auto 10.
Qed.

Lemma unique_update l id f : keeps_name f → unique l → unique (update_row id f l).
Proof.
  intros Hf [Hid Hn]. split; [rewrite keys_update_row; [done|by apply keeps_name_key]|].
  intros c c' (c0 & Hc0 & -> & -> & -> & _)%elem_update_row (c1 & Hc1 & -> & -> & -> & _)%elem_update_row; [|done..].
  by apply Hn.
Qed.

Lemma unique_delete l id : unique l → unique (delete_row id l).
Proof.
  intros [Hid Hn]. split.
  - unfold keys, delete_row. eapply sublist_NoDup; [exact Hid|]. apply fmap_sublist, sublist_filter.
  - intros c c' [_ Hc]%list_elem_of_filter [_ Hc']%list_elem_of_filter. by apply Hn.
Qed.

Lemma unique_insert l c : CustomEvals.insertable c l = true → unique l → unique (l ++ [c]).
Proof.
  unfold CustomEvals.insertable. intros [Hk%bool_decide_eq_true Hn%bool_decide_eq_true]%andb_true_iff [Hid Hu].
  assert (∀ c', c' ∈ l → ce_name c' = ce_name c → ce_eval_type c' = ce_eval_type c → False) as Hnew.
  { intros c' Hc' H1 H2. unfold CustomEvals.get_by_name in Hn.
    assert (c' ∈ filter (CustomEvals.is_named (ce_name c) (ce_eval_type c)) l) as Hin by (by apply list_elem_of_filter).
    destruct (filter _ l); [by apply elem_of_nil in Hin|done]. }
  split.
  - unfold keys. rewrite fmap_app. apply NoDup_app. split_and!; [done| |apply NoDup_singleton].
    intros k Hk1 Hk2%list_elem_of_singleton. subst. by apply Hk.
  - intros c1 c2 [H1| ->%list_elem_of_singleton]%elem_of_app [H2| ->%list_elem_of_singleton]%elem_of_app Hn1 Ht;
      [by apply Hu|exfalso; by eapply Hnew|exfalso; by eapply Hnew|done].
Qed.

(** ** Honesty *)

Section honesty.
Context {H : Type} `{HarnessLaws H} (uuid4 : nat → string) (safe_dump : json_dict → string).
Implicit Types (c : CustomEval) (l : list CustomEval) (h : H) (s : EvalSite H).

(** The harness has what the row says: the task rendered from its definition, under some
    description, or the language. *)
Definition on_harness h c : Prop :=
  (ce_eval_type c = "language-eval" ∧
     ∃ description y, render_definition safe_dump (ce_kind c) (ce_name c) (ce_definition c) description = Ok y ∧
       task h (ce_name c) = Some y) ∨
  (ce_eval_type c = "code-eval" ∧ ∃ token, language_token c = Some token ∧ language h token = true).

Definition honest l h : Prop := ∀ c, c ∈ l → ce_sync_status c = SYNC_SYNCED → on_harness h c.

Definition honest_but id l h : Prop :=
  ∀ c, c ∈ l → ce_id c ≠ id → ce_sync_status c = SYNC_SYNCED → on_harness h c.

Lemma honest_all_but id l h : honest l h → honest_but id l h.
Proof. intros Hl c Hc _. by apply Hl. Qed.

Lemma honest_update id f l h :
  keeps_name f → honest_but id l h →
  (∀ c, c ∈ l → ce_id c = id → ce_sync_status (f c) = SYNC_SYNCED → on_harness h (f c)) →
  honest (update_row id f l) h.
Proof.
  intros Hf Hl Hfc c (c0 & Hc0 & _ & _ & _ & [[Hid ->]|[Hid ->]])%elem_update_row Hs; [by apply Hfc|by apply Hl|done].
Qed.

Lemma honest_delete id l h : honest_but id l h → honest (delete_row id l) h.
Proof. intros Hl c [Hid Hc]%list_elem_of_filter. by apply Hl. Qed.

(** A harness that changed for one task name, or for one language. *)
Lemma honest_task c l h h' :
  unique l → c ∈ l → ce_eval_type c = "language-eval" →
  (∀ m, m ≠ ce_name c → task h' m = task h m) → (∀ t, language h' t = language h t) →
  honest l h → honest_but (ce_id c) l h'.
Proof.
  intros Hu Hc Ht Htask Hlang Hl c' Hc' Hid Hs. destruct (Hl c' Hc' Hs) as [(Ht' & d & y & Hy & Hty)|(Ht' & tok & Htok & Hon)].
  - left. split; [done|]. exists d, y. split; [done|]. rewrite Htask; [done|]. intros Hn. apply Hid, Hu; [done..|congruence].
  - right. split; [done|]. exists tok. by rewrite Hlang.
Qed.

Lemma honest_language (P : Json → Prop) l h h' id :
  (∀ t, P t → language h t = true → language h' t = true) → (∀ n, task h' n = task h n) →
  (∀ c t, c ∈ l → ce_id c ≠ id → ce_sync_status c = SYNC_SYNCED → ce_eval_type c = "code-eval" → language_token c = Some t → P t) →
  honest l h → honest_but id l h'.
Proof.
  intros Hlang Htask HP Hl c' Hc' Hid Hs. destruct (Hl c' Hc' Hs) as [(Ht' & d & y & Hy & Hty)|(Ht' & tok & Htok & Hon)].
  - left. split; [done|]. exists d, y. by rewrite Htask.
  - right. split; [done|]. exists tok. split; [done|]. eapply Hlang; [by eapply HP|done].
Qed.

(** *** Runs in which nothing else happens and commits succeed *)

Definition quiet_link (k : Link H) : Prop := ∀ r, ln_meanwhile k r = r.

Record still s : Prop := {
  still_commits : es_commits s = [];
  still_links : Forall quiet_link (es_links s);
  still_unique : unique (rg_rows (es_registry s))
}.

Definition sound s : Prop := still s ∧ honest (rg_rows (es_registry s)) (rg_harness (es_registry s)).
Definition sound_but id s : Prop := still s ∧ honest_but id (rg_rows (es_registry s)) (rg_harness (es_registry s)).

#[local] Notation ends P m Q := (triple P m Q (λ _, sound)).

(** A call, for the rows and the harness. *)
Lemma ends_remote (P : EvalSite H → Prop) call (Q : option Response → EvalSite H → Prop) :
  (∀ s, P s → still s) →
  (∀ s s' r, P s → still s' → rg_rows (es_registry s') = rg_rows (es_registry s) →
     (rg_harness (es_registry s') = rg_harness (es_registry s) ∧ r = None ∨
      rg_harness (es_registry s') = (answer_to call (rg_harness (es_registry s))).2 ∧
        (r = None ∨ r = Some (answer_to call (rg_harness (es_registry s))).1)) → Q r s') →
  ends P (remote call) Q.
Proof.
  intros HP HQ s Hs. destruct (HP s Hs) as [Hc Hl Hu]. unfold remote.
  destruct (answer_to call _) as [response h] eqn:Ha. simpl.
  set (k := default _ _). assert (quiet_link k) as Hk by (unfold k; by destruct Hl).
  eapply (HQ s); [done| | |]; simpl; rewrite ?Hk; simpl.
  - split; simpl; [done|by destruct Hl|done].
  - done.
  - rewrite ?Ha. destruct (ln_fate k); simpl; auto.
Qed.

Lemma ends_write {A} (P : EvalSite H → Prop) (Q : A → EvalSite H → Prop) (possible : list CustomEval → bool)
    (f : list CustomEval → list CustomEval) (read : list CustomEval → A) failed :
  (∀ s, P s → still s) →
  (∀ s, P s → if possible (rg_rows (es_registry s)) then Q (read (f (rg_rows (es_registry s)))) (put_rows f s) else Q failed s) →
  ends P (write possible f read failed) Q.
Proof.
  intros HP HQ s Hs. specialize (HQ s Hs). unfold write. rewrite run_bind. unfold next_commit.
  rewrite (still_commits s (HP s Hs)). unfold rows. rewrite run_gets_bind. simpl. by destruct (possible _).
Qed.

Lemma still_put f s : (unique (rg_rows (es_registry s)) → unique (f (rg_rows (es_registry s)))) → still s → still (put_rows f s).
Proof. intros Hf [Hc Hl Hu]. split; [done|done|by apply Hf]. Qed.

Lemma ends_forget (P : EvalSite H → Prop) e : (∀ s f, P s → P (put_cache f s)) → ends P (forget_tasks e) (λ _, P).
Proof. intros HP s Hs. by apply HP. Qed.

Lemma sound_but_cache id s f : sound_but id s → sound_but id (put_cache f s).
Proof. intros [[Hc Hl Hu] Hh]. by split. Qed.

(** Recording an outcome that claims nothing. *)
Lemma ends_failed id error : ends (sound_but id) (CustomEvals.set_sync_state id SYNC_FAILED error) (λ _, sound).
Proof.
  unfold CustomEvals.set_sync_state. eapply triple_bind with (Q := λ _, sound_but id); [by apply triple_gets|].
  intros t. apply ends_write; [by intros s []|]. intros s [Hst Hh]. split.
  - apply still_put; [|done]. by apply unique_update.
  - simpl. apply honest_update; [done|done|]. intros c _ _ [=].
Qed.

Lemma ends_deleted id : ends (sound_but id) (CustomEvals.delete id) (λ _, sound).
Proof.
  apply ends_write; [by intros s []|]. intros s [Hst Hh]. split; [|by apply honest_delete].
  apply still_put; [|done]. apply unique_delete.
Qed.

Lemma sound_weaken id s : sound s → sound_but id s.
Proof. intros [Hs Hh]. split; [done|by apply honest_all_but]. Qed.

Lemma triple_get {A} (P : EvalSite H → Prop) (f : EvalSite H → A) : ends P (gets f : evalp H A) (λ a s, P s ∧ a = f s).
Proof. by apply triple_gets. Qed.

Lemma ends_responded {A} (P : EvalSite H → Prop) (Q : A → EvalSite H → Prop) (o : option A) :
  (∀ s, P s → sound s) → (∀ a s, o = Some a → P s → Q a s) → ends P (responded o : evalp H A) Q.
Proof. intros Hi HQ s HP. destruct o; [by apply HQ|by apply Hi]. Qed.
Lemma ends_answer {A} (P : EvalSite H → Prop) (Q : A → EvalSite H → Prop) code (o : option A) :
  (∀ s, P s → sound s) → (∀ a s, o = Some a → P s → Q a s) → ends P (answer code o : evalp H A) Q.
Proof. intros Hi HQ s HP. destruct o; [by apply HQ|by apply Hi]. Qed.

(** The row of a request. *)
Definition at_row c s : Prop := sound s ∧ find_row (ce_id c) (rg_rows (es_registry s)) = Some c.

Lemma ends_get id : ends sound (get_custom_eval id) (λ c s, at_row c s ∧ ce_id c = id).
Proof.
  intros s Hs. unfold get_custom_eval, rows, CustomEvals.get_by_id. rewrite run_gets_bind.
  destruct (find_row id _) as [c|] eqn:Hc; [|done]. pose proof (find_row_key _ _ _ Hc) as Hk. change (ce_id c = id) in Hk.
  subst. by split.
Qed.

(** What a call may do that leaves the others' claims alone. *)
Definition spares c (call : HarnessCall) : Prop :=
  ∀ s h', sound s → c ∈ rg_rows (es_registry s) → h' = (answer_to call (rg_harness (es_registry s))).2 →
    honest_but (ce_id c) (rg_rows (es_registry s)) h'.

Lemma ends_spared c call (Q : option Response → EvalSite H → Prop) :
  spares c call →
  (∀ s r, sound_but (ce_id c) s → (∃ c0, find_row (ce_id c) (rg_rows (es_registry s)) = Some c0 ∧ c0 = c) →
     (∀ resp, r = Some resp → ∃ h0, (resp, rg_harness (es_registry s)) = answer_to call h0) → Q r s) →
  ends (at_row c) (remote call) Q.
Proof.
  intros Hsp HQ. apply ends_remote; [by intros s [[]]|]. intros s s' r [Hs Hc] Hst Hrows Hh. apply HQ.
  - split; [done|]. rewrite Hrows. destruct Hh as [[-> _]|[-> _]].
    + by apply honest_all_but, Hs.
    + apply Hsp; [done| |done]. by apply find_row_Some in Hc as [].
  - exists c. by rewrite Hrows.
  - intros resp ->. destruct Hh as [[_ [=]]|[-> [[=]|[= ->]]]]. exists (rg_harness (es_registry s)). by destruct (answer_to _ _).
Qed.

Lemma sound_raise {A} P (x : ApiExn) (Q : A → EvalSite H → Prop) : (∀ s, P s → sound s) → ends P (raise x : evalp H A) Q.
Proof. intros HP s Hs. by apply HP. Qed.

(** Delivering, for a call whose acceptance makes the row's claim true. *)
Lemma ends_deliver c call refusal :
  spares c call →
  (∀ h r h', answer_to call h = (r, h') → accepted (rs_status r) → on_harness h' c) →
  ends (at_row c) (deliver c call refusal) (λ _, sound).
Proof.
  intros Hsp Hon. unfold deliver. eapply triple_bind.
  { eapply (ends_spared c call (λ r s, sound_but (ce_id c) s ∧ find_row (ce_id c) (rg_rows (es_registry s)) = Some c ∧
      ∀ resp, r = Some resp → accepted (rs_status resp) → on_harness (rg_harness (es_registry s)) c)); [done|].
    intros s r Hs (c0 & Hc0 & ->) Hr. split_and!; [done|done|]. intros resp Hresp Hacc. destruct (Hr resp Hresp) as [h0 Ha].
    by eapply Hon. }
  intros [resp|]; simpl.
  - destruct (decide (accepted _)) as [Hacc|Hacc].
    + eapply triple_bind with (Q := λ _ s, sound_but (ce_id c) s ∧ find_row (ce_id c) (rg_rows (es_registry s)) = Some c ∧
        on_harness (rg_harness (es_registry s)) c).
      { intros s (Hs & Hc & Ho). split_and!; [by apply sound_but_cache|done|]. by apply (Ho resp). }
      intros _. eapply triple_bind with (Q := λ o s, o ≠ None ∧ sound s).
      * unfold CustomEvals.set_sync_state. eapply triple_bind; [apply triple_get|]. intros t. apply ends_write; [by intros s (((? & _) & _) & _)|].
        intros s (((Hst & Hh) & Hc & Ho) & _). split.
        -- unfold CustomEvals.get_by_id. rewrite find_update_row_eq by done. by rewrite Hc.
        -- split; [apply still_put; [|done]; by apply unique_update|]. simpl. apply honest_update; [done|done|].
           intros c0 Hc0 Hid _. assert (c0 = c) as ->; [|exact Ho].
           pose proof (find_row_elem _ _ (unique_ids _ (still_unique _ Hst)) Hc0) as He. change (row_key c0) with (ce_id c0) in He.
           rewrite Hid, Hc in He. by injection He.
      * intros o. apply ends_responded; [by intros s []|by intros a s _ []].
    + eapply triple_bind with (Q := λ _, sound); [|intros ?; by apply sound_raise].
      eapply triple_weaken; [|apply ends_failed|done]. by intros s (Hs & _).
  - eapply triple_bind with (Q := λ _, sound); [|intros ?; by apply sound_raise].
    eapply triple_weaken; [|apply ends_failed|done]. by intros s (Hs & _).
Qed.

(** Withdrawing, up to the row's own claim. *)
Lemma ends_withdraw c call :
  spares c call → ends (at_row c) (withdraw (ce_id c) call) (λ _, sound_but (ce_id c)).
Proof.
  intros Hsp. unfold withdraw. eapply triple_bind.
  { eapply (ends_spared c call (λ _, sound_but (ce_id c))); [done|]. by intros s r Hs _ _. }
  assert (∀ (x : ApiExn) error, ends (sound_but (ce_id c))
    (CustomEvals.set_sync_state (ce_id c) SYNC_FAILED error;; raise x) (λ _ : unit, sound_but (ce_id c))) as Hfail.
  { intros x error. eapply triple_bind; [apply ends_failed|]. intros ?. by apply sound_raise. }
  intros [r|]; [|apply Hfail]. destruct (decide _); [by apply triple_ret|apply Hfail].
Qed.
Lemma spares_push c y : ce_eval_type c = "language-eval" → spares c (PushTask (ce_name c) y).
Proof.
  intros Ht s h' [Hst Hh] Hc ->. pose proof (pushing (ce_name c) y (rg_harness (es_registry s))) as Hp.
  destruct (answer_to _ _) as [r h']. destruct Hp as (_ & Htask & Hlang). by eapply honest_task; [apply Hst|..].
Qed.

Lemma spares_withdraw c : ce_eval_type c = "language-eval" → spares c (WithdrawTask (ce_name c)).
Proof.
  intros Ht s h' [Hst Hh] Hc ->. pose proof (withdrawing (ce_name c) (rg_harness (es_registry s))) as Hp.
  destruct (answer_to _ _) as [r h']. destruct Hp as (Htask & Hlang). by eapply honest_task; [apply Hst|..].
Qed.

Lemma spares_register c t : spares c (RegisterLanguage t).
Proof.
  intros s h' [Hst Hh] Hc ->. pose proof (registering t (rg_harness (es_registry s))) as Hp.
  destruct (answer_to _ _) as [r h']. destruct Hp as (_ & Hlang & Htask).
  by eapply (honest_language (λ _, True)); [intros u _; apply Hlang|done|done|exact Hh].
Qed.

(** No other row that reads synced is about the same language. *)
Definition sole_language id l : Prop :=
  ∀ c c', c ∈ l → c' ∈ l → ce_id c = id → ce_id c' ≠ id → ce_sync_status c' = SYNC_SYNCED →
    ce_eval_type c' = "code-eval" → language_token c' ≠ language_token c.

Lemma ends_delete id :
  ends (λ s, sound s ∧ sole_language id (rg_rows (es_registry s))) (delete_custom_eval id) (λ _, sound).
Proof.
  unfold delete_custom_eval. eapply triple_bind with (Q := λ c s, (at_row c s ∧ ce_id c = id) ∧ sole_language id (rg_rows (es_registry s))).
  { intros s [Hs Hl]. specialize (ends_get id s Hs). unfold get_custom_eval, rows. rewrite run_gets_bind.
    destruct (CustomEvals.get_by_id _ _); [|done]. done. }
  intros c s [[Hrow Hid] Hl]. revert s Hrow Hl. subst id.
  assert (∀ (m : evalp H unit), ends (at_row c) m (λ _, sound_but (ce_id c)) →
    ends (at_row c) (m;; forget_tasks (ce_eval_type c);; CustomEvals.delete (ce_id c)) (λ _, sound)) as Hrest.
  { intros m Hm. eapply triple_bind with (Q := λ _, sound_but (ce_id c)); [exact Hm|]. intros _.
    eapply triple_bind with (Q := λ _, sound_but (ce_id c)); [apply ends_forget; intros; by apply sound_but_cache|].
    intros _. apply ends_deleted. }
  intros s Hrow Hl. destruct (decide (_ ∧ _)) as [[Ht Hs]|].
  - unfold _withdraw_code_language. destruct (language_token c) as [tok|] eqn:Htok.
    + refine ((_ : triple (λ s, at_row c s ∧ sole_language (ce_id c) (rg_rows (es_registry s))) _ _ _) s (conj Hrow Hl)).
      eapply triple_bind with (Q := λ _, sound_but (ce_id c)).
      * intros s1 [Hrow1 Hl1]. refine ((_ : ends (λ s, s = s1) _ _) s1 eq_refl). unfold withdraw. eapply triple_bind.
        { apply (ends_remote (λ s, s = s1) _ (λ _, sound_but (ce_id c))); [intros ? ->; apply Hrow1|].
          intros s' s2 r -> Hst Hrows Hh. split; [done|]. rewrite Hrows. destruct Hrow1 as [[Hst1 Hh1] Hc1].
          destruct Hh as [[-> _]|[-> _]]; [by apply honest_all_but|].
          pose proof (deregistering tok (rg_harness (es_registry s1))) as Hp. destruct (answer_to _ _) as [r' h']. destruct Hp as [Hlang Htask].
          eapply (honest_language (λ u, u ≠ tok)); [|done| |exact Hh1].
          - intros u Hu. by rewrite Hlang.
          - intros c' u Hc' Hid' Hs' Ht' Hu ->. apply find_row_Some in Hc1 as [Hc1 _].
            by apply (Hl1 c c' Hc1 Hc' eq_refl Hid' Hs' Ht'); rewrite Htok. }
        intros [r|]; [destruct (decide _); [by apply triple_ret|]|];
          (eapply triple_bind; [apply ends_failed|]; intros ?; by apply sound_raise).
      * intros _. eapply triple_bind with (Q := λ _, sound_but (ce_id c)); [apply ends_forget; intros; by apply sound_but_cache|].
        intros _. apply ends_deleted.
    + apply (Hrest (mret tt)); [|done]. apply triple_ret. intros s1 [Hs1 _]. by apply sound_weaken.
  - destruct (decide (_ ∧ _)) as [[Ht Hs]|].
    + apply Hrest; [|done]. by apply ends_withdraw, spares_withdraw.
    + refine (ends_deleted (ce_id c) s _). apply sound_weaken, Hrow.
Qed.

Lemma ends_sync id : ends sound (sync_custom_eval safe_dump id) (λ _, sound).
Proof.
  unfold sync_custom_eval. eapply triple_bind; [apply ends_get|]. intros c s [Hrow _]. revert s Hrow.
  change (ends (at_row c) (if decide (ce_eval_type c = "code-eval") then _sync_code_language c else
    if decide (ce_eval_type c ≠ "language-eval") then raise (Http 501)
    else y ← _render_or_400 safe_dump c; deliver c (PushTask (ce_name c) y) (λ _, 400)) (λ _, sound)).
  assert (∀ s, at_row c s → sound s) as Hsound by (by intros s []).
  destruct (decide _) as [Ht|_].
  - unfold _sync_code_language. intros s Hs. rewrite run_answer_bind. destruct (language_token c) as [tok|] eqn:Htok; [|by apply Hsound].
    revert s Hs. apply ends_deliver; [apply spares_register|]. intros h r h' Ha Hacc. right. split; [done|]. exists tok.
    split; [done|]. pose proof (registering tok h) as Hp. rewrite Ha in Hp. destruct Hp as [Hp _]. by apply Hp.
  - destruct (decide _) as [|Ht%dec_stable]; [by apply sound_raise|]. unfold _render_or_400.
    destruct (render_definition _ _ _ _ _) as [y|x] eqn:Hy.
    + change (ends (at_row c) (deliver c (PushTask (ce_name c) y) (λ _, 400)) (λ _, sound)). apply ends_deliver; [by apply spares_push|].
      intros h r h' Ha Hacc. left. split; [done|]. exists (ce_description c), y. split; [done|].
      pose proof (pushing (ce_name c) y h) as Hp. rewrite Ha in Hp. destruct Hp as [Hp _]. by apply Hp.
    + intros s Hs. by destruct x; apply Hsound.
Qed.

Lemma ends_update id form : ends sound (update_custom_eval id form) (λ _, sound).
Proof.
  unfold update_custom_eval. eapply triple_bind with (Q := λ _, sound).
  { eapply triple_weaken; [|apply ends_get|]; [done|]. by intros c s [[]]. }
  intros _. destruct (decide _); [by apply sound_raise|]. destruct (decide _); [by apply sound_raise|].
  eapply triple_bind with (Q := λ _, sound).
  - unfold CustomEvals.update. eapply triple_bind with (Q := λ _, sound); [by apply triple_gets|]. intros t.
    assert (keeps_name (CustomEvals.updated t form)) as Hf by (intros c; by destruct form as [[] []]).
    apply ends_write; [by intros s []|]. intros s [Hst Hh]. split; [apply still_put; [|done]; by apply unique_update|].
    apply honest_update; [done|by apply honest_all_but|]. intros c Hc _. unfold CustomEvals.updated.
    destruct form as [[d|] u]; simpl; [by destruct u|]. intros Hs.
    assert (ce_sync_status c = SYNC_SYNCED) as Hs' by (by destruct u). specialize (Hh c Hc Hs').
    revert Hh. unfold on_harness, language_token. by destruct u.
  - intros o. by apply ends_answer.
Qed.

Lemma ends_listing call : (∃ e, call = ListTasks e) ∨ call = ListLanguages → ends sound (remote call) (λ _, sound).
Proof.
  intros Hcall. apply ends_remote; [by intros s []|]. intros s s' r [Hst Hh] Hst' Hrows Hk. split; [done|]. rewrite Hrows.
  destruct Hk as [[-> _]|[-> _]]; [done|]. by rewrite listing.
Qed.

Lemma ends_tasks e : ends sound (fetch_harness_tasks e) (λ _, sound).
Proof.
  unfold fetch_harness_tasks. destruct (decide _); [by apply sound_raise|].
  eapply triple_bind with (Q := λ _, sound); [by apply triple_gets|]. intros c.
  eapply triple_bind with (Q := λ _, sound); [by apply triple_gets|]. intros t.
  destruct (_ ← _; _) as [tasks|]; [by apply triple_ret|].
  eapply triple_bind; [apply ends_listing; eauto|]. intros r.
  eapply triple_bind with (Q := λ _, sound); [by apply ends_answer|]. intros resp.
  destruct (decide _); [by apply sound_raise|].
  eapply triple_bind with (Q := λ _, sound); [by apply ends_responded|]. intros body.
  eapply triple_bind with (Q := λ _, sound); [by apply triple_gets|]. intros t'.
  eapply triple_bind with (Q := λ _, sound); [apply triple_modify|intros _; by apply triple_ret].
  intros s [[Hc Hl Hu] Hh]. by split.
Qed.

Lemma ends_create owner_id owner_name form : ends sound (create_custom_eval uuid4 owner_id owner_name form) (λ _, sound).
Proof.
  unfold create_custom_eval. destruct (validate_name _); [by apply sound_raise|].
  eapply triple_bind with (Q := λ _, sound); [by apply ends_answer|]. intros kind.
  destruct (decide _); [by apply sound_raise|]. eapply triple_bind with (Q := λ _, sound); [by apply triple_gets|]. intros l.
  destruct (CustomEvals.get_by_name _ _ l); [by apply sound_raise|]. eapply triple_bind with (Q := λ _, sound).
  { unfold _reject_if_shadows_builtin. eapply triple_bind; [apply ends_tasks|]. intros tasks.
    eapply triple_bind with (Q := λ _, sound); [by apply ends_responded|]. intros names.
    destruct (decide _); [by apply sound_raise|by apply triple_ret]. }
  intros _. eapply triple_bind with (Q := λ _, sound); [|intros o; by apply ends_answer].
  unfold CustomEvals.insert. eapply triple_bind with (Q := λ _, sound); [by apply triple_gets|]. intros t.
  eapply triple_bind with (Q := λ _, sound); [intros s [[Hc Hl Hu] Hh]; by split|]. intros k.
  apply ends_write; [by intros s []|]. intros s [Hst Hh]. destruct (CustomEvals.insertable _ _) eqn:Hfit; [|done]. split.
  - apply still_put; [|done]. by apply unique_insert.
  - intros c [Hc| ->%list_elem_of_singleton]%elem_of_app; [by apply Hh|done].
Qed.

Lemma ends_state {A} (P : EvalSite H → Prop) (m : evalp H A) s : ends P m (λ _, sound) → P s → sound (state_of m s).
Proof. intros Hm Hs. specialize (Hm s Hs). unfold state_of. by destruct (m s) as [[a|x] s']. Qed.

(** C38: The catalog does not claim what the harness lacks.  When requests follow one
    another and commits succeed, whatever the network loses, after any request every
    evaluation that reads synced is on its harness: its task rendered from its definition,
    or its language; one case apart, withdrawing a row whose language another row that
    reads synced names too. *)
Theorem synced_evaluations_are_on_the_harness r s :
  es_commits s = [] → Forall quiet_link (es_links s) → unique (rg_rows (es_registry s)) →
  honest (rg_rows (es_registry s)) (rg_harness (es_registry s)) →
  (∀ id, r = Withdraw id → sole_language id (rg_rows (es_registry s))) →
  let s' := state_of (handle_eval uuid4 safe_dump r) s in
  honest (rg_rows (es_registry s')) (rg_harness (es_registry s')) ∧ unique (rg_rows (es_registry s')).
Proof.
  intros Hc Hl Hu Hh Hsole s'. assert (sound s) as Hs by done. cut (sound s'); [intros [[] ?]; done|]. subst s'.
  destruct r as [owner_id owner_name form|id form|id|id|e|]; simpl; rewrite void_state.
  - by apply (ends_state sound); [apply ends_create|].
  - by apply (ends_state sound); [apply ends_update|].
  - eapply ends_state; [apply ends_delete|]. split; [done|by apply Hsole].
  - by apply (ends_state sound); [apply ends_sync|].
  - by apply (ends_state sound); [apply ends_tasks|].
  - apply (ends_state sound); [|done]. unfold get_eval_languages. eapply triple_bind; [apply ends_listing; auto|]. intros resp.
    eapply triple_bind with (Q := λ _, sound); [by apply ends_answer|]. intros resp'. destruct (decide _); [by apply sound_raise|].
    eapply triple_bind with (Q := λ _, sound); [by apply ends_responded|]. intros body. by apply triple_ret.
Qed.

End honesty.
