(* ===== verification/CatalogContract.v ===== *)
(** What registering, rendering and listing evaluations promise one by one, whatever other
    requests do meanwhile. *)

From Stdlib Require Import Ascii.
From S2P Require Import Prelude Data Accounts EvalTemplate CustomEvals.

(** ** Registering *)

Section register.
Context {H : Type} `{Harness H} (uuid4 : nat → string).
Implicit Types (s : EvalSite H).

(** The listing a registration is checked against: one not older than the cache allows,
    or the harness' own answer. *)
Inductive consulted (eval_type : string) s : Json → Prop :=
| from_cache t tasks :
    cached_tasks eval_type (es_registry s) = Some (t, tasks) →
    rg_now (es_registry s) - t < EVAL_TASKS_CACHE_TTL_SECONDS → consulted eval_type s tasks
| from_harness body :
    (answer_to (ListTasks eval_type) (rg_harness (es_registry s))).1 = mkResponse 200 (Some body) →
    consulted eval_type s (_sanitize_value body).

Lemma fetched eval_type s tasks s' :
  fetch_harness_tasks eval_type s = (Ok tasks, s') → consulted eval_type s tasks.
Proof.
  unfold fetch_harness_tasks. destruct (decide _); [done|]. rewrite run_gets_bind. unfold now. rewrite run_gets_bind.
  assert (∀ s0 : EvalSite H, es_registry s0 = es_registry s → ∀ r,
    (r ← remote (ListTasks eval_type);
     r ← answer 502 r;
     if decide (rs_status r ≠ 200) then raise (Http 502)
     else body ← responded (rs_body r); t ← now;
          modify (put_cache (cache_tasks eval_type (t, _sanitize_value body)));; mret (_sanitize_value body)) s0 = (Ok tasks, r) →
    consulted eval_type s tasks) as Hask.
  { intros s0 Hs0 r. rewrite run_bind. unfold remote. rewrite Hs0. destruct (answer_to _ _) as [[code body] h] eqn:Ha. cbn.
    rewrite run_answer_bind. destruct (ln_fate _); [|done..]. cbn. case_decide as Hok; [done|]. subst.
    rewrite run_responded_bind. destruct body as [body|]; [|done]. cbn. intros [= <- _]. apply from_harness. by rewrite Ha. }
  destruct (cached_tasks eval_type _) as [[t cached]|] eqn:Hc; cbn; [|by apply Hask].
  case_decide as Hage; [intros [= <- _]; by eapply from_cache|by apply Hask].
Qed.

(** A name is registered only when it is free.  However the requests interleave, an
    evaluation that was registered has a well-formed name, a kind its harness knows and a
    definition that is not empty; it waits to be delivered, is the only one of its name
    with its harness, and the harness' listing, the cached one being less than a minute
    old, had no task of that name. *)
Theorem registered_names_are_free owner_id owner_name form s c s' :
  create_custom_eval uuid4 owner_id owner_name form s = (Ok c, s') →
  (validate_name (ce_name c) = false ∧ validate_kind (cf_kind form) (ce_eval_type c) = Some (ce_kind c) ∧
   ce_definition c ≠ [] ∧ ce_sync_status c = SYNC_PENDING ∧ ce_owner_id c = owner_id) ∧
  (ce_name c, ce_eval_type c, ce_definition c) = (cf_name form, cf_eval_type form, cf_definition form) ∧
  c ∈ rg_rows (es_registry s') ∧
  (∀ c', c' ∈ rg_rows (es_registry s') → CustomEvals.is_named (ce_name c) (ce_eval_type c) c' ∨ ce_id c' = ce_id c → c' = c) ∧
  ∃ tasks names, consulted (ce_eval_type c) s tasks ∧ (l ← py_iter tasks; task_names l) = Some names ∧
    JStr (ce_name c) ∉ names.
Proof.
  unfold create_custom_eval. destruct (validate_name _) eqn:Hname; [done|]. rewrite run_answer_bind.
  destruct (validate_kind _ _) as [kind|] eqn:Hkind; [|done]. destruct (decide _) as [|Hdef]; [done|].
  unfold rows. rewrite run_gets_bind. destruct (CustomEvals.get_by_name _ _ _); [done|]. rewrite run_bind.
  destruct (_reject_if_shadows_builtin _ _ s) as [[[]|x] s1] eqn:Hrej; [|done]. rewrite run_bind.
  unfold CustomEvals.insert, now. rewrite run_gets_bind, run_bind. unfold mint. simpl. unfold write.
  rewrite run_bind. set (c0 := mkCustomEval _ _ _ _ _ _ _ _ _ _ _ _ _).
  destruct (next_commit _) as [[ok|] s3]; [|done]. unfold rows. rewrite run_gets_bind.
  destruct (ok && _) eqn:Hok; [|done]. apply andb_true_iff in Hok as [_ Hfit]. simpl. intros [= <- <-].
  unfold _reject_if_shadows_builtin in Hrej. apply run_bind_Ok in Hrej as (tasks & s4 & Hf & Hrej). apply fetched in Hf.
  rewrite run_responded_bind in Hrej. destruct (l ← py_iter tasks; task_names l) as [names|] eqn:Hnames; [|done].
  destruct (decide _) as [|Hfree]; [done|]. apply andb_true_iff in Hfit as [Hid%bool_decide_eq_true Hn%bool_decide_eq_true].
  split_and!; [done..| | |by exists tasks, names].
  - simpl. apply elem_of_app. right. by apply list_elem_of_singleton.
  - intros c' [Hc'| ->%list_elem_of_singleton]%elem_of_app Hsame; [exfalso|done]. destruct Hsame as [Hsame|Hsame].
    + unfold CustomEvals.get_by_name in Hn.
      assert (c' ∈ filter (CustomEvals.is_named (ce_name c0) (ce_eval_type c0)) (rg_rows (es_registry s3))) as Hin by (by apply list_elem_of_filter).
      destruct (filter _ _); [by apply elem_of_nil in Hin|done].
    + apply Hid. rewrite <- Hsame. by apply (list_elem_of_fmap_2 row_key).
Qed.
End register.

(** ** Rendering *)

Lemma put_given_eq key v d : dict_lookup key d = None → dict_lookup key (put_given key v d) = v.
Proof. intros Hd. destruct v as [v|]; [apply dict_lookup_set|done]. Qed.
Lemma put_given_ne key k v d : k ≠ key → dict_lookup k (put_given key v d) = dict_lookup k d.
Proof. intros Hk. destruct v as [v|]; [by apply dict_lookup_set_ne|done]. Qed.

Lemma json_set_elem key v d k : k ∈ (dict_set key v d).*1 → k = key ∨ k ∈ d.*1.
Proof.
  induction d as [|[k' x] d IH]; csimpl; [intros [->|[]%elem_of_nil]%elem_of_cons; by left|].
  case_decide; csimpl; rewrite !elem_of_cons; naive_solver.
Qed.

Lemma json_set_NoDup key v d : NoDup d.*1 → NoDup (dict_set key v d).*1.
Proof.
  induction d as [|[k x] d IH]; csimpl; [intros _; apply NoDup_singleton|]. intros [Hk Hd]%NoDup_cons.
  case_decide as He; csimpl; [by constructor|]. constructor; [|by apply IH]. by intros [->|?]%json_set_elem.
Qed.

Lemma put_given_NoDup key v d : NoDup d.*1 → NoDup (put_given key v d).*1.
Proof. destruct v; [apply json_set_NoDup|done]. Qed.

Lemma given_lookup key d v : given key d = Some v → dict_lookup key d = Some v.
Proof. unfold given. destruct (dict_lookup key d) as [w|]; [|done]. simpl. destruct (json_truthy w); [|done]. by intros [= ->]. Qed.

Lemma metrics_given d m : metrics_of d = Ok (Some m) → dict_lookup "metric_list" d = Some (JList m) ∧ m ≠ [] ∧ forallb is_metric m = true.
Proof.
  unfold metrics_of. destruct (dict_lookup _ d) as [[| | | | |[|x l]|]|]; try done.
  destruct (forallb is_metric (x :: l)) eqn:Hm; [|done]. by intros [= <-].
Qed.

(** Looking a field up in what was built by setting fields one after another. *)
Ltac field :=
  repeat first
    [ rewrite dict_lookup_set_ne by discriminate | rewrite put_given_ne by discriminate
    | rewrite dict_lookup_set | rewrite put_given_eq by field ];
  try reflexivity.

Lemma config_NoDup name d description path output metrics :
  NoDup (hf_task_config name d description path output metrics).*1.
Proof.
  unfold hf_task_config. case_decide; simpl;
    repeat first [apply json_set_NoDup|apply put_given_NoDup]; by_decision.
Qed.

Lemma output_type_given d output :
  output_type_of d = Ok output → dict_lookup "output_type" d = Some (JStr output) ∧ output ∈ OUTPUT_TYPES.
Proof.
  unfold output_type_of. destruct (dict_lookup _ d) as [[]|]; try done. case_decide; [|done]. by intros [= <-].
Qed.

Section config.
Context (name : string) (d : json_dict) (description : option string) (path output : string) (metrics : option (list Json)).
#[local] Notation config := (hf_task_config name d description path output metrics).

Lemma config_fields :
  dict_lookup "task" config = Some (JStr name) ∧ dict_lookup "dataset_path" config = Some (JStr path) ∧
  dict_lookup "output_type" config = Some (JStr output) ∧
  dict_lookup "doc_to_text" config = dict_lookup "doc_to_text" d ∧
  dict_lookup "doc_to_target" config = dict_lookup "doc_to_target" d ∧
  dict_lookup "metric_list" config = Some (JList (default (DEFAULT_METRICS output) metrics)) ∧
  dict_lookup "metadata" config = Some (JDict (metadata description)).
Proof. unfold hf_task_config, SPLIT_KEYS. cbn [foldl]. case_decide; split_and!; field. Qed.

Lemma config_splits key : key ∈ SPLIT_KEYS → dict_lookup key config = given key d.
Proof.
  unfold hf_task_config, SPLIT_KEYS. cbn [foldl]. rewrite !elem_of_cons, elem_of_nil.
  case_decide; intros [->|[->|[->|[->|[]]]]]; field.
Qed.

Lemma config_choice :
  dict_lookup "doc_to_choice" config =
    if decide (output = "multiple_choice") then dict_lookup "doc_to_choice" d else None.
Proof. unfold hf_task_config, SPLIT_KEYS. cbn [foldl]. case_decide; field. Qed.
End config.

(** A rendered task measures what was defined.  When a definition renders, the
    configuration names every field once: the dataset, output type, prompt, target and
    splits are the definition's own, one split to evaluate on among them; choices are
    there for, and only for, multiple choice; the metrics are the definition's, or those
    of its output type, and each of them names one; and its origin is noted. *)
Theorem a_rendered_task_is_its_definition safe_dump name d description y :
  render_hf_task_yaml safe_dump name d description = Ok y →
  ∃ config, y = safe_dump config ∧ NoDup config.*1 ∧ dict_lookup "task" config = Some (JStr name) ∧
    (∀ key, key ∈ ["dataset_path"; "output_type"; "doc_to_text"; "doc_to_target"] →
       dict_lookup key config = dict_lookup key d ∧ dict_lookup key d ≠ None) ∧
    (∀ key, key ∈ SPLIT_KEYS → dict_lookup key config = given key d) ∧
    (∃ key v, (key = "test_split" ∨ key = "validation_split") ∧ given key d = Some v) ∧
    dict_lookup "doc_to_choice" config =
      (if decide (dict_lookup "output_type" d = Some (JStr "multiple_choice")) then given "doc_to_choice" d else None) ∧
    (∃ m, dict_lookup "metric_list" config = Some (JList m) ∧ m ≠ [] ∧ forallb is_metric m = true ∧
       (dict_lookup "metric_list" d = Some (JList m) ∨ ∃ o, dict_lookup "output_type" d = Some (JStr o) ∧ m = DEFAULT_METRICS o)) ∧
    (∃ meta, dict_lookup "metadata" config = Some (JDict meta) ∧
       dict_lookup "source" meta = Some (JStr "self.ai custom evaluation")).
Proof.
  unfold render_hf_task_yaml, validate_hf_task_definition.
  destruct (truthy (json_str (dict_lookup "dataset_path" d))) as [path|] eqn:Hpath; [|done].
  destruct (output_type_of d) as [output|] eqn:Hout; [|done].
  destruct (decide (given "doc_to_text" d = None)) as [|Htext]; [done|].
  destruct (json_or_null_or_empty _) eqn:Htarget; [done|].
  destruct (decide (output = "multiple_choice" ∧ _)) as [|Hchoice]; [done|].
  destruct (decide (given "test_split" d = None ∧ _)) as [|Hsplit]; [done|].
  destruct (metrics_of d) as [metrics|] eqn:Hmetrics; [|done]. intros [= <-].
  destruct (output_type_given d output Hout) as [Ho Hin].
  assert (dict_lookup "dataset_path" d = Some (JStr path)) as Hd.
  { revert Hpath. destruct (dict_lookup "dataset_path" d) as [[| | | |[|]| |]|]; try done. by intros [= ->]. }
  destruct (config_fields name d description path output metrics) as (F1 & F2 & F3 & F4 & F5 & F6 & F7).
  eexists. split; [done|]. split_and!; [apply config_NoDup|done| |apply config_splits| | | |].
  - intros key. rewrite !elem_of_cons, elem_of_nil. intros [->|[->|[->|[->|[]]]]]; split; try congruence.
    + intros Hn. apply Htext. unfold given. by rewrite Hn.
    + intros Hn. by rewrite Hn in Htarget.
  - destruct (given "test_split" d) as [v|] eqn:H1; [eauto|]. destruct (given "validation_split" d) as [v|] eqn:H2; [eauto|].
    by destruct Hsplit.
  - rewrite config_choice, Ho. destruct (decide (output = "multiple_choice")) as [->|Hne]; [|by rewrite decide_False by congruence].
    rewrite decide_True by done. destruct (given "doc_to_choice" d) as [v|] eqn:Hv; [by apply given_lookup|by destruct Hchoice].
  - rewrite F6. eexists. split; [done|]. destruct metrics as [m|].
    + apply metrics_given in Hmetrics as (Hm & Hne & Hall). simpl. auto.
    + simpl. unfold DEFAULT_METRICS. split_and!; [by case_decide|by case_decide|]. right. by exists output.
  - eexists. split; [done|]. unfold metadata. apply dict_lookup_set.
Qed.

(** ** Listing *)

(** A character that neither controls a terminal nor opens or closes markup. *)
Definition is_inert (c : ascii) : bool :=
  negb (is_control c) && bool_decide (nat_of_ascii c ∉ [60%nat; 62%nat; 34%nat; 39%nat]).

Definition inert_text (s : string) : Prop :=
  all_chars is_inert s = true ∧ (N.of_nat (String.length s) ≤ 6 * (_MAX_STRING_LEN + 16))%N.

(** Every text of a value, the keys of its dicts apart, is inert. *)
Fixpoint inert (j : Json) : Prop :=
  match j with
  | JStr s => inert_text s
  | JDict d => (fix go d := match d with [] => True | (_, v) :: r => inert v ∧ go r end) d
  | JList l => (fix go l := match l with [] => True | v :: r => inert v ∧ go r end) l
  | _ => True
  end.

Lemma escape_char_inert c : is_control c = false → all_chars is_inert (escape_char c) = true.
Proof. destruct c as [[] [] [] [] [] [] [] []]; vm_compute; done. Qed.

Lemma escape_inert s : all_chars (λ c, negb (is_control c)) s = true → all_chars is_inert (escape s) = true.
Proof.
  induction s as [|c s IH]; [done|]. simpl. intros [Hc Hs]%andb_true_iff. rewrite all_chars_app, IH by done.
  by rewrite escape_char_inert by (by apply negb_true_iff).
Qed.

Lemma length_append s t : String.length (s +:+ t) = (String.length s + String.length t)%nat.
Proof. induction s as [|c s IH]; simpl; [done|]. by rewrite IH. Qed.

Lemma escape_length s : (String.length (escape s) ≤ 6 * String.length s)%nat.
Proof.
  induction s as [|c s IH]; simpl; [lia|]. rewrite length_append.
  assert (String.length (escape_char c) ≤ 6)%nat; [|lia]. unfold escape_char. repeat case_decide; simpl; lia.
Qed.

Lemma filter_chars_all p s : all_chars p (filter_chars p s) = true.
Proof. induction s as [|c s IH]; simpl; [done|]. destruct (p c) eqn:Hc; simpl; [by rewrite Hc|done]. Qed.

Lemma cut_all p s n : all_chars p s = true → all_chars p (cut n s).1 = true.
Proof.
  revert n. induction s as [|c s IH]; intros n; simpl; [done|]. intros [Hc Hs]%andb_true_iff. case_decide; [done|].
  specialize (IH (N.pred n) Hs). destruct (cut _ s) as [t more]. simpl in *. by rewrite Hc, IH.
Qed.

Lemma cut_length s n : (N.of_nat (String.length (cut n s).1) ≤ n)%N.
Proof.
  revert n. induction s as [|c s IH]; intros n; simpl; [lia|]. case_decide; simpl; [lia|].
  specialize (IH (N.pred n)). destruct (cut _ s) as [t more]. simpl in *. lia.
Qed.

Lemma sanitize_inert s : inert_text (_sanitize_string s).
Proof.
  unfold inert_text, _sanitize_string. set (t := filter_chars _ s).
  pose proof (cut_length t _MAX_STRING_LEN) as Hlen.
  pose proof (cut_all (λ c, negb (is_control c)) t _MAX_STRING_LEN (filter_chars_all _ s)) as Hall.
  generalize dependent _MAX_STRING_LEN. intros max. destruct (cut max t) as [u more]. simpl. intros Hlen Hall. split.
  - apply escape_inert. destruct more; [|done]. by rewrite all_chars_app, Hall.
  - pose proof (escape_length (if more then u +:+ truncation_mark else u)) as He.
    assert (String.length truncation_mark = 16)%nat as Hm by reflexivity.
    destruct more; [rewrite length_append, Hm in He|]; lia.
Qed.

(** What a harness lists reaches the browser as inert text: whatever value it answered,
    no text in it has a control character or a bare angle bracket or quote left, and none
    is longer than six times what is kept of it. *)
Theorem listed_values_are_inert j : inert (_sanitize_value j).
Proof.
  induction j as [| | | |s|l IH|d IH] using json_nested_ind; simpl; try done.
  - apply sanitize_inert.
  - induction IH as [|v l Hv _ IHl]; simpl; done.
  - induction IH as [|[k v] d Hv _ IHd]; simpl; done.
Qed.

From S2P Require Import CustomEvalContract.

(** Concrete runs of the evaluation catalog against a harness that accepts what it is
    given: the theorems of [CustomEvalContract] and [CatalogContract] at inputs where
    their hypotheses hold, and runs in which the catalog and the harness part. *)
Module CatalogRuns.

(** ** A harness *)

Record Shelf := mkShelf { sf_tasks : list (string * string); sf_languages : list Json }.

Definition shelf_task (h : Shelf) (n : string) : option string :=
  snd <$> find (λ t, bool_decide (t.1 = n)) (sf_tasks h).

(** Pushing [refused] is refused; taking down [stuck] fails. *)
Definition shelf_answer (c : HarnessCall) (h : Shelf) : Response * Shelf :=
  match c with
  | ListTasks _ => (mkResponse 200 (Some (JList ((λ t, JDict [("name", JStr t.1)]) <$> sf_tasks h))), h)
  | ListLanguages => (mkResponse 200 (Some (JDict [("registered", JList (sf_languages h))])), h)
  | PushTask n y => if decide (n = "refused") then (mkResponse 400 (Some (JDict [("detail", JStr "custom tag")])), h)
                    else (mkResponse 201 None, mkShelf ((n, y) :: sf_tasks h) (sf_languages h))
  | WithdrawTask n => if decide (n = "stuck") then (mkResponse 500 None, h)
                      else (mkResponse 204 None, mkShelf (filter (λ t, t.1 ≠ n) (sf_tasks h)) (sf_languages h))
  | RegisterLanguage t => (mkResponse 201 None, mkShelf (sf_tasks h) (t :: sf_languages h))
  | WithdrawLanguage t => (mkResponse 204 None, mkShelf (sf_tasks h) (filter (λ u, u ≠ t) (sf_languages h)))
  end.

#[export] Instance shelf : Harness Shelf :=
  {| answer_to := shelf_answer; task := shelf_task; language h t := bool_decide (t ∈ sf_languages h) |}.

Lemma find_filter_ne (n m : string) (l : list (string * string)) :
  m ≠ n → find (λ t, bool_decide (t.1 = m)) (filter (λ t, t.1 ≠ n) l) = find (λ t, bool_decide (t.1 = m)) l.
Proof.
  intros Hne. induction l as [|[k v] l IH]; [done|]. rewrite filter_cons. simpl. destruct (decide (k ≠ n)) as [Hk|Hk]; simpl.
  - by case_bool_decide.
  - apply dec_stable in Hk. subst. by rewrite bool_decide_eq_false_2.
Qed.

#[export] Instance shelf_laws : HarnessLaws Shelf.
Proof.
  split; simpl.
  - intros n y h. case_decide; simpl; [split_and!; [by intros []|done..]|]. split_and!; [|intros m Hm|done].
    + intros _. unfold shelf_task. simpl. by rewrite bool_decide_eq_true_2.
    + unfold shelf_task. simpl. by rewrite bool_decide_eq_false_2.
  - intros n h. case_decide; simpl; [done|]. split; [|done]. intros m Hm. unfold shelf_task. simpl. by rewrite find_filter_ne.
  - intros t h. split_and!; [|intros u Hu|done].
    + intros _. apply bool_decide_eq_true. by left.
    + apply bool_decide_eq_true in Hu. apply bool_decide_eq_true. by right.
  - intros t h. split; [|done]. intros u Hu. apply bool_decide_ext. rewrite list_elem_of_filter. naive_solver.
  - intros c h [[e ->]| ->]; done.
Qed.

(** ** A catalog *)

Definition eval_ids (n : nat) : string := match n with 0 => "e9" | _ => "e10" end%nat.
(** Enough of a serialization to tell the configurations below apart. *)
Definition dumped (d : json_dict) : string :=
  default "" (json_str (dict_lookup "dataset_path" d)) +:+
  match dict_lookup "metadata" d with Some (JDict m) => default "" (json_str (dict_lookup "description" m)) | _ => "" end.

Definition hf_definition (dataset : string) : json_dict :=
  [("dataset_path", JStr dataset); ("output_type", JStr "generate_until"); ("test_split", JStr "test");
   ("doc_to_text", JStr "{{question}}"); ("doc_to_target", JStr "{{answer}}")].

Definition eval (id name type : string) (kind : EvalKind) (d : json_dict) (st : SyncStatus) : CustomEval :=
  mkCustomEval id name type kind d None st None None "root" None 0 0.
Definition hf_eval (id name : string) (st : SyncStatus) : CustomEval :=
  eval id name "language-eval" KIND_HF_TASK (hf_definition "org/set") st.
Definition lang_eval (id name : string) (st : SyncStatus) : CustomEval :=
  eval id name "code-eval" KIND_CODE_LANGUAGE [("language", JStr "zig")] st.

Definition site (rows : list CustomEval) (h : Shelf) (links : list (Link Shelf)) : EvalSite Shelf :=
  mkEvalSite (mkRegistry rows [] 1000 h) 0 [] links [].

Definition serve (r : EvalRequest) (s : EvalSite Shelf) : result ApiExn unit * EvalSite Shelf :=
  handle_eval eval_ids dumped r s.
Definition then_ (r : EvalRequest) (s : EvalSite Shelf) : EvalSite Shelf := (serve r s).2.
Definition status_of (id : string) (s : EvalSite Shelf) : option SyncStatus :=
  ce_sync_status <$> find_row id (rg_rows (es_registry s)).
Definition held (n : string) (s : EvalSite Shelf) : option string := task (rg_harness (es_registry s)) n.

(** A task that was delivered, and a language. *)
Definition stocked : Shelf := mkShelf [("mine", "org/set"); ("stuck", "org/set")] [JStr "zig"].
Definition delivered : EvalSite Shelf :=
  site [hf_eval "e1" "mine" SYNC_SYNCED; hf_eval "e2" "other" SYNC_PENDING] stocked [].

Lemma delivered_honest : honest dumped (rg_rows (es_registry delivered)) (rg_harness (es_registry delivered)).
Proof.
  intros c Hc Hs. simpl in Hc. apply elem_of_cons in Hc as [->|[->|[]%elem_of_nil]%elem_of_cons]; [|done].
  left. split; [done|]. exists None, "org/set". by vm_compute.
Qed.

Lemma delivered_unique : unique (rg_rows (es_registry delivered)).
Proof.
  split; [by_decision|]. intros c c' Hc Hc' Hn _. simpl in Hc, Hc'.
  rewrite !elem_of_cons, elem_of_nil in Hc, Hc'. destruct Hc as [->|[->|[]]], Hc' as [->|[->|[]]]; done.
Qed.

Lemma synced_evaluations_are_on_the_harness_witness :
  status_of "e2" (then_ (Sync "e2") delivered) = Some SYNC_SYNCED ∧
  honest dumped (rg_rows (es_registry (then_ (Sync "e2") delivered))) (rg_harness (es_registry (then_ (Sync "e2") delivered))).
Proof.
  split; [by vm_compute|].
  refine (proj1 (synced_evaluations_are_on_the_harness eval_ids dumped (Sync "e2") delivered eq_refl _ delivered_unique
    delivered_honest _)); [constructor|discriminate].
Defined.

Definition new_form : CustomEvalForm := mkCustomEvalForm "fresh" "language-eval" "hf_task" (hf_definition "org/set") None.

Lemma registered_names_are_free_witness :
  ∃ c s', create_custom_eval eval_ids "root" None new_form delivered = (Ok c, s') ∧ validate_name (ce_name c) = false.
Proof.
  destruct (create_custom_eval eval_ids "root" None new_form delivered) as [[c|] s'] eqn:Hr; [|discriminate (f_equal fst Hr)].
  exists c, s'. split; [reflexivity|].
  destruct (registered_names_are_free eval_ids "root" None new_form delivered c s' Hr) as ((Hn & _) & _). exact Hn.
Defined.

Lemma a_rendered_task_is_its_definition_witness :
  ∃ y, render_hf_task_yaml dumped "fresh" (hf_definition "org/set") None = Ok y ∧
  ∃ config, y = dumped config ∧ dict_lookup "test_split" config = Some (JStr "test").
Proof.
  exists "org/set". split; [reflexivity|].
  destruct (a_rendered_task_is_its_definition dumped "fresh" (hf_definition "org/set") None "org/set" eq_refl)
    as (config & Hy & _ & _ & _ & Hs & _).
  exists config. split; [exact Hy|]. rewrite Hs; [reflexivity|]. right. right. left.
Defined.

(** ** Where catalog and harness part *)

(** A new description leaves the row synced while the harness keeps the old one. *)
Example a_new_description_is_not_delivered :
  let s := then_ (UpdateEval "e1" (mkCustomEvalUpdateForm None (Some " (v2)"))) delivered in
  status_of "e1" s = Some SYNC_SYNCED ∧ held "mine" s = Some "org/set" ∧
  held "mine" (then_ (Sync "e1") s) = Some "org/set (v2)".
Proof. by vm_compute. Qed.

(** Withdrawing one of two rows about a language leaves the other one synced without it. *)
Example a_shared_language_is_lost :
  let s := then_ (Withdraw "l1") (site [lang_eval "l1" "a" SYNC_SYNCED; lang_eval "l2" "b" SYNC_SYNCED] stocked []) in
  status_of "l2" s = Some SYNC_SYNCED ∧ language (rg_harness (es_registry s)) (JStr "zig") = false.
Proof. by vm_compute. Qed.

(** Edited after its delivery and then deleted: the harness keeps a task nobody remembers. *)
Example an_edited_evaluation_leaves_its_task :
  let s := then_ (Withdraw "e1") (then_ (UpdateEval "e1" (mkCustomEvalUpdateForm (Some (hf_definition "org/new")) None)) delivered) in
  status_of "e1" s = None ∧ held "mine" s = Some "org/set" ∧ es_calls s = [].
Proof. by vm_compute. Qed.

(** A withdrawal that failed keeps the row to be retried; the retry forgets it unasked. *)
Example a_retried_withdrawal_leaves_its_task :
  let s := then_ (Withdraw "e1") (site [hf_eval "e1" "stuck" SYNC_SYNCED] stocked []) in
  status_of "e1" s = Some SYNC_FAILED ∧ held "stuck" s = Some "org/set" ∧
  let s' := then_ (Withdraw "e1") s in
  status_of "e1" s' = None ∧ held "stuck" s' = Some "org/set" ∧ es_calls s' = [WithdrawTask "stuck"].
Proof. by vm_compute. Qed.

(** Saved while its delivery is under way: it reads synced and the harness has the old one. *)
Example an_edit_during_the_delivery_is_lost :
  let edit := λ r : Registry Shelf, r <| rg_rows :=
    update_row "e1" (CustomEvals.updated 1001 (mkCustomEvalUpdateForm (Some (hf_definition "org/new")) None)) (rg_rows r) |> in
  let s := then_ (Sync "e1") (site [hf_eval "e1" "mine" SYNC_PENDING] (mkShelf [] []) [mkLink 1 edit Answered]) in
  (λ c, (ce_sync_status c, dict_lookup "dataset_path" (ce_definition c))) <$> find_row "e1" (rg_rows (es_registry s)) =
    Some (SYNC_SYNCED, Some (JStr "org/new")) ∧ held "mine" s = Some "org/set".
Proof. by vm_compute. Qed.

(** A definition whose output type is a list is registered; rendering it is a server error. *)
Example a_definition_that_breaks_rendering :
  let form := mkCustomEvalForm "odd" "language-eval" "hf_task" [("dataset_path", JStr "d"); ("output_type", JList [])] None in
  let s := then_ (Register "root" None form) delivered in
  status_of "e9" s = Some SYNC_PENDING ∧ (serve (Sync "e9") s).1 = Raise Uncaught.
Proof. by vm_compute. Qed.

(** The keys of what is listed are not sanitized. *)
Example keys_are_not_sanitized :
  _sanitize_value (JDict [("<script>", JStr "<b>")]) = JDict [("<script>", JStr "&lt;b&gt;")].
Proof. by vm_compute. Qed.

End CatalogRuns.
