(* ===== verification/Channels.v ===== *)
(** The channels with their messages and reactions: the tables of [models/channels.py] and
    [models/messages.py], and the webhooks of [utils/webhook.py].

    A commit that fails raises.  Rows are those the code can read back. *)

From S2P Require Import Prelude Data Accounts AccessControl.

(** ** Rows *)

Record Channel := mkChannel {
  cl_id : string;
  cl_user_id : string;
  cl_type : option string;
  cl_name : string;
  cl_description : option string;
  cl_data : option json_dict;
  cl_meta : option json_dict;
  cl_access_control : option json_dict;
  cl_created_at : Z;
  cl_updated_at : Z
}.
#[export] Instance Channel_eta : Eta Channel := λ c,
  mkChannel (cl_id c) (cl_user_id c) (cl_type c) (cl_name c) (cl_description c) (cl_data c) (cl_meta c)
    (cl_access_control c) (cl_created_at c) (cl_updated_at c).
#[export] Instance Channel_keyed : Keyed Channel := cl_id.

Record ChannelForm := mkChannelForm {
  hf_name : string;
  hf_description : option string;
  hf_data : option json_dict;
  hf_meta : option json_dict;
  hf_access_control : option json_dict
}.

Record Message := mkMessage {
  ms_id : string;
  ms_user_id : string;
  ms_channel_id : option string;
  ms_parent_id : option string;
  ms_content : string;
  ms_data : option json_dict;
  ms_meta : option json_dict;
  ms_created_at : Z;
  ms_updated_at : Z
}.
#[export] Instance Message_eta : Eta Message := λ m,
  mkMessage (ms_id m) (ms_user_id m) (ms_channel_id m) (ms_parent_id m) (ms_content m) (ms_data m) (ms_meta m)
    (ms_created_at m) (ms_updated_at m).
#[export] Instance Message_keyed : Keyed Message := ms_id.

Record MessageForm := mkMessageForm {
  mg_content : string;
  mg_parent_id : option string;
  mg_data : option json_dict;
  mg_meta : option json_dict
}.

Record MessageReaction := mkMessageReaction {
  rn_id : string;
  rn_user_id : string;
  rn_message_id : string;
  rn_name : string;
  rn_created_at : Z
}.
#[export] Instance MessageReaction_keyed : Keyed MessageReaction := rn_id.

Record Reactions := mkReactions { rs_name : string; rs_user_ids : list string; rs_count : nat }.

Record UserName := mkUserName { un_id : string; un_name : string; un_role : string; un_profile_image_url : string }.
Definition user_name (u : User) : UserName := mkUserName (us_id u) (us_name u) (us_role u) (us_profile_image_url u).

(** [MessageResponse] *)
Record MessageResponse := mkMessageResponse {
  mr_message : Message;
  mr_latest_reply_at : option Z;
  mr_reply_count : nat;
  mr_reactions : list Reactions
}.

(** ** State *)

(** What is emitted to the room of a channel: the message it names, what happened, the
    message as it is shown with the user shown beside it, the name of a reaction, and who
    did it. *)
Record RoomEvent := mkEvent {
  ev_room : string;
  ev_message_id : string;
  ev_type : string;
  ev_message : MessageResponse;
  ev_shown_user : UserName;
  ev_reaction : option string;
  ev_user : UserName
}.

Record Forum := mkForum {
  fm_channels : list Channel;
  fm_messages : list Message;
  fm_reactions : list MessageReaction;
  fm_users : list User;
  fm_now : Z;
  fm_minted : nat;
  fm_commits : list bool;
  fm_events : list RoomEvent;
  fm_hooks : list (Json * json_dict)
}.
#[export] Instance Forum_eta : Eta Forum := λ s,
  mkForum (fm_channels s) (fm_messages s) (fm_reactions s) (fm_users s) (fm_now s) (fm_minted s) (fm_commits s)
    (fm_events s) (fm_hooks s).

Abbreviation forum A := (prog Forum ApiExn A).

(** [db.commit()] of a change, which raises when it cannot be made. *)
Definition commit (possible : Forum → bool) (f : Forum → Forum) : forum unit := λ s,
  let '(ok, s) := match fm_commits s with [] => (true, s) | ok :: rest => (ok, s <| fm_commits := rest |>) end in
  if ok && possible s then (Ok tt, f s) else (Raise Uncaught, s).

Definition anyhow (s : Forum) : bool := true.

(** [str(uuid.uuid4())] and [time.time_ns()] *)
Definition mint (uuid4 : nat → string) : forum string := λ s, (Ok (uuid4 (fm_minted s)), s <| fm_minted := S (fm_minted s) |>).
Definition now : forum Z := gets fm_now.

(** ** The tables *)

Module Channels.

Definition put (f : list Channel → list Channel) (s : Forum) : Forum := s <| fm_channels := f (fm_channels s) |>.

Definition insert_new_channel (uuid4 : nat → string) (type : option string) (f : ChannelForm) (user_id : string) : forum Channel :=
  id ← mint uuid4;
  t ← now;
  let c := mkChannel id user_id type (lower (hf_name f)) (hf_description f) (hf_data f) (hf_meta f) (hf_access_control f) t t in
  commit (λ s, bool_decide (id ∉ keys (fm_channels s))) (put (λ l, l ++ [c]));;
  mret c.

Definition get_channels (s : Forum) : list Channel := fm_channels s.
Definition get_channel_by_id (id : string) (s : Forum) : option Channel := find_row id (fm_channels s).

(** The description is not among what is saved. *)
Definition form_row (t : Z) (f : ChannelForm) (c : Channel) : Channel :=
  mkChannel (cl_id c) (cl_user_id c) (cl_type c) (hf_name f) (cl_description c) (hf_data f) (hf_meta f)
    (hf_access_control f) (cl_created_at c) t.

Definition update_channel_by_id (id : string) (f : ChannelForm) : forum (option Channel) :=
  c ← gets (get_channel_by_id id);
  match c with
  | None => mret None
  | Some c => t ← now; commit anyhow (put (update_row id (form_row t f)));; mret (Some (form_row t f c))
  end.

Definition delete_channel_by_id (id : string) : forum bool := commit anyhow (put (delete_row id));; mret true.

End Channels.

Module Messages.

Definition put (f : list Message → list Message) (s : Forum) : Forum := s <| fm_messages := f (fm_messages s) |>.
Definition put_reactions (f : list MessageReaction → list MessageReaction) (s : Forum) : Forum :=
  s <| fm_reactions := f (fm_reactions s) |>.

Definition insert_new_message (uuid4 : nat → string) (f : MessageForm) (channel_id user_id : string) : forum Message :=
  id ← mint uuid4;
  t ← now;
  let m := mkMessage id user_id (Some channel_id) (mg_parent_id f) (mg_content f) (mg_data f) (mg_meta f) t t in
  commit (λ s, bool_decide (id ∉ keys (fm_messages s))) (put (λ l, l ++ [m]));;
  mret m.

Definition latest_messages (l : list Message) : list Message := sort_by (λ m, - ms_created_at m) l.

Definition get_replies_by_message_id (id : string) (s : Forum) : list Message :=
  latest_messages (filter (λ m, ms_parent_id m = Some id) (fm_messages s)).

Definition get_reply_user_ids_by_message_id (id : string) (s : Forum) : list string :=
  ms_user_id <$> filter (λ m, ms_parent_id m = Some id) (fm_messages s).

(** One more reaction of a name: counted with those of its name, or the first. *)
Fixpoint count_reaction (r : MessageReaction) (l : list Reactions) : list Reactions :=
  match l with
  | [] => [mkReactions (rn_name r) [rn_user_id r] 1]
  | g :: rest =>
      if decide (rs_name g = rn_name r) then mkReactions (rs_name g) (rs_user_ids g ++ [rn_user_id r]) (S (rs_count g)) :: rest
      else g :: count_reaction r rest
  end.

Definition reactions_to (id : string) (s : Forum) : list MessageReaction :=
  filter (λ r, rn_message_id r = id) (fm_reactions s).

Definition get_reactions_by_message_id (id : string) (s : Forum) : list Reactions :=
  foldl (λ l r, count_reaction r l) [] (reactions_to id s).

Definition response (m : Message) (s : Forum) : MessageResponse :=
  let replies := get_replies_by_message_id (ms_id m) s in
  mkMessageResponse m (ms_created_at <$> head replies) (length replies) (get_reactions_by_message_id (ms_id m) s).

Definition get_message_by_id (id : string) (s : Forum) : option MessageResponse :=
  (λ m, response m s) <$> find_row id (fm_messages s).

(** [OFFSET] and [LIMIT] *)
Definition paged {A} (skip limit : nat) (l : list A) : list A := take limit (drop skip l).

Definition get_messages_by_channel_id (channel_id : string) (skip limit : nat) (s : Forum) : list Message :=
  paged skip limit
    (latest_messages (filter (λ m, ms_channel_id m = Some channel_id ∧ ms_parent_id m = None) (fm_messages s))).

(** A page that is not full ends with the parent, whatever channel that is in. *)
Definition get_messages_by_parent_id (channel_id parent_id : string) (skip limit : nat) (s : Forum) : list Message :=
  match find_row parent_id (fm_messages s) with
  | None => []
  | Some m =>
      let l := paged skip limit
        (latest_messages (filter (λ m, ms_channel_id m = Some channel_id ∧ ms_parent_id m = Some parent_id) (fm_messages s))) in
      if decide (length l < limit)%nat then l ++ [m] else l
  end.

Definition form_row (t : Z) (f : MessageForm) (m : Message) : Message :=
  mkMessage (ms_id m) (ms_user_id m) (ms_channel_id m) (ms_parent_id m) (mg_content f) (mg_data f) (mg_meta f)
    (ms_created_at m) t.

Definition update_message_by_id (id : string) (f : MessageForm) : forum Message :=
  m ← gets (λ s, find_row id (fm_messages s));
  m ← responded m;
  t ← now;
  commit anyhow (put (update_row id (form_row t f)));;
  mret (form_row t f m).

Definition add_reaction_to_message (uuid4 : nat → string) (id user_id name : string) : forum unit :=
  n ← mint uuid4;
  t ← now;
  commit (λ s, bool_decide (n ∉ keys (fm_reactions s)))
    (put_reactions (λ l, l ++ [mkMessageReaction n user_id id name t])).

Definition is_reaction (id user_id name : string) (r : MessageReaction) : Prop :=
  rn_message_id r = id ∧ rn_user_id r = user_id ∧ rn_name r = name.
#[export] Instance is_reaction_dec id user_id name r : Decision (is_reaction id user_id name r).
Proof. unfold is_reaction. apply _. Defined.

Definition remove_reaction_by_id_and_user_id_and_name (id user_id name : string) : forum unit :=
  commit anyhow (put_reactions (filter (λ r, ¬ is_reaction id user_id name r))).

Definition delete_message_by_id (id : string) : forum unit :=
  commit anyhow (λ s, put_reactions (filter (λ r, rn_message_id r ≠ id)) (put (delete_row id) s)).

End Messages.

(** ** Webhooks *)

(** What is posted to a webhook for an event that names no user, [None] when something is
    raised on the way: a card of Teams parses the user as JSON text. *)
Definition webhook_payload (url : Json) (message : string) (event_data : json_dict) : option json_dict :=
  match url with
  | JStr url =>
      if contains "https://hooks.slack.com" url || contains "https://chat.googleapis.com" url
      then Some [("text", JStr message)]
      else if contains "https://discord.com/api/webhooks" url
      then Some [("content", JStr (if decide (String.length message < 2000)%nat then message
                                   else String.substring 0 (2000 - 20) message +:+ "... (truncated)"))]
      else if contains "webhook.office.com" url then None
      else Some event_data
  | _ => None
  end.
