(* ===== verification/ChannelApi.v ===== *)
(** The endpoints of [routers/channels.py] over the state of [Channels].

    A request runs alone.  Who is in a channel's room is a parameter; the notification of
    the others is sent when the answer is. *)

From S2P Require Import Prelude Data Accounts AccessControl Channels.

(** [try: m except Exception: raise a 400] *)
Definition or_400 {A} (m : forum A) : forum A := λ s,
  match m s with (Raise _, s') => (Raise (Http 400), s') | r => r end.

(** A message as it is answered: with the name of its author, or of who acted. *)
Record MessageUserResponse := mkMessageUserResponse { mu_response : MessageResponse; mu_user : UserName }.

Section endpoints.
Context (uuid4 : nat → string) (dialect : Dialect) (groups : list Group).
Context (WEBUI_URL : string) (room : string → list string).
Implicit Types (user : User) (id : string).

(** ** Gates *)

Definition as_admin {A} user (m : forum A) : forum A :=
  if decide (us_role user = "admin") then m else raise (Http 401).

Definition existing_channel id : forum Channel := c ← gets (Channels.get_channel_by_id id); answer 404 c.

(** [user.role != "admin" and not has_access(...)] *)
Definition may_read user (c : Channel) : option bool :=
  if decide (us_role user = "admin") then Some true else has_access dialect groups (us_id user) "read" (cl_access_control c).

Definition readable_channel user id : forum Channel :=
  c ← existing_channel id;
  ok ← responded (may_read user c);
  if ok : bool then mret c else raise (Http 403).

(** A message of the channel. *)
Definition message_in id (message_id : string) : forum MessageResponse :=
  m ← gets (Messages.get_message_by_id message_id);
  m ← answer 404 m;
  if decide (ms_channel_id (mr_message m) = Some id) then mret m else raise (Http 400).

(** [Users.get_user_by_id(id).model_dump()] *)
Definition author (user_id : string) : forum UserName :=
  u ← gets (λ s, Users.get_user_by_id user_id (fm_users s)); u ← responded u; mret (user_name u).

(** ** Channels *)

Definition get_channels user : forum (list Channel) :=
  all ← gets Channels.get_channels;
  if decide (us_role user = "admin") then mret all
  else responded (those_allowed (λ c, if decide (cl_user_id c = us_id user) then Some true
                                      else has_access dialect groups (us_id user) "read" (cl_access_control c)) all).

Definition create_new_channel user (f : ChannelForm) : forum Channel :=
  as_admin user (or_400 (Channels.insert_new_channel uuid4 None f (us_id user))).

Definition get_channel_by_id user id : forum Channel := readable_channel user id.

Definition update_channel_by_id user id (f : ChannelForm) : forum Channel :=
  as_admin user (existing_channel id;; or_400 (c ← Channels.update_channel_by_id id f; responded c)).

Definition delete_channel_by_id user id : forum bool :=
  as_admin user (existing_channel id;; or_400 (Channels.delete_channel_by_id id)).

(** ** Reading messages *)

Fixpoint with_authors (l : list (Message * MessageResponse)) : forum (list MessageUserResponse) :=
  match l with
  | [] => mret []
  | (m, r) :: rest => u ← author (ms_user_id m); others ← with_authors rest; mret (mkMessageUserResponse r u :: others)
  end.

Definition get_channel_messages user id (skip limit : nat) : forum (list MessageUserResponse) :=
  readable_channel user id;;
  l ← gets (λ s, (λ m, (m, Messages.response m s)) <$> Messages.get_messages_by_channel_id id skip limit s);
  with_authors l.

Definition get_channel_message user id (message_id : string) : forum MessageUserResponse :=
  readable_channel user id;;
  m ← message_in id message_id;
  u ← author (ms_user_id (mr_message m));
  mret (mkMessageUserResponse m u).

(** In a thread the replies to replies are not counted. *)
Definition in_thread (m : Message) (s : Forum) : MessageResponse :=
  mkMessageResponse m None 0 (Messages.get_reactions_by_message_id (ms_id m) s).

Definition get_channel_thread_messages user id (message_id : string) (skip limit : nat) : forum (list MessageUserResponse) :=
  readable_channel user id;;
  l ← gets (λ s, (λ m, (m, in_thread m s)) <$> Messages.get_messages_by_parent_id id message_id skip limit s);
  with_authors l.

(** ** Writing messages *)

Definition emit_to_room (id message_id type : string) (m : MessageResponse) (shown : UserName) (reaction : option string) user
    : forum unit :=
  modify (λ s, s <| fm_events := fm_events s ++
    [mkEvent ("channel:" +:+ id) message_id type m shown reaction (user_name user)] |>).

(** The event of a reply, about its parent. *)
Definition emit_reply user id (parent_id : option string) : forum unit :=
  match truthy parent_id with
  | None => mret tt
  | Some parent_id =>
      parent ← gets (Messages.get_message_by_id parent_id);
      match parent with
      | None => mret tt
      | Some p =>
          u ← author (ms_user_id (mr_message p));
          emit_to_room id (ms_id (mr_message p)) "message:reply" p u None user
      end
  end.

(** [user.settings.ui.get("notifications", {}).get("webhook_url", None)], where it is
    truthy; the outer [None] when something is raised. *)
Definition webhook_url (u : User) : option (option Json) :=
  match us_settings u with
  | None => Some None
  | Some settings =>
      match default (JDict []) (dict_lookup "ui" settings) with
      | JDict ui =>
          match default (JDict []) (dict_lookup "notifications" ui) with
          | JDict n => Some (url ← dict_lookup "webhook_url" n; if json_truthy url then Some url else None)
          | _ => None
          end
      | _ => None
      end
  end.

Definition hook_text (c : Channel) (content : string) : string :=
  "#" +:+ cl_name c +:+ " - " +:+ WEBUI_URL +:+ "/channels/" +:+ cl_id c +:+
  String newline (String newline content).
Definition hook_event (c : Channel) (content : string) : json_dict :=
  [("action", JStr "channel"); ("message", JStr content); ("title", JStr (cl_name c));
   ("url", JStr (WEBUI_URL +:+ "/channels/" +:+ cl_id c))].

(** The posts to those not in the room, up to the first user that raises. *)
Fixpoint hooks (c : Channel) (content : string) (active : list string) (users : list User) : list (Json * json_dict) :=
  match users with
  | [] => []
  | u :: rest =>
      if decide (us_id u ∈ active) then hooks c content active rest
      else
        match webhook_url u with
        | None => []
        | Some None => hooks c content active rest
        | Some (Some url) =>
            match webhook_payload url (hook_text c content) (hook_event c content) with
            | Some payload => (url, payload) :: hooks c content active rest
            | None => hooks c content active rest
            end
        end
  end.

Definition send_notification (c : Channel) (m : Message) (active : list string) : forum unit :=
  modify (λ s, s <| fm_hooks := fm_hooks s ++
    match get_users_with_access (fm_users s) groups "read" (cl_access_control c) with
    | Some users => hooks c (ms_content m) active users
    | None => []
    end |>).

Definition post_new_message user id (f : MessageForm) : forum Message :=
  c ← readable_channel user id;
  m ← or_400 (
    m ← Messages.insert_new_message uuid4 f (cl_id c) (us_id user);
    r ← gets (λ s, mkMessageResponse m None 0 (Messages.get_reactions_by_message_id (ms_id m) s));
    emit_to_room (cl_id c) (ms_id m) "message" r (user_name user) None user;;
    emit_reply user (cl_id c) (ms_parent_id m);;
    mret m);
  send_notification c m (room ("channel:" +:+ cl_id c));;
  mret m.

Definition update_message_by_id user id (message_id : string) (f : MessageForm) : forum Message :=
  c ← readable_channel user id;
  message_in id message_id;;
  or_400 (
    Messages.update_message_by_id message_id f;;
    m ← gets (Messages.get_message_by_id message_id);
    m ← responded m;
    emit_to_room (cl_id c) (ms_id (mr_message m)) "message:update" m (user_name user) None user;;
    mret (mr_message m)).

(** After a reaction was added or removed. *)
Definition emit_reaction user id (message_id type name : string) : forum bool :=
  m ← gets (Messages.get_message_by_id message_id);
  m ← responded m;
  u ← author (ms_user_id (mr_message m));
  emit_to_room id (ms_id (mr_message m)) type m u (Some name) user;;
  mret true.

Definition add_reaction_to_message user id (message_id name : string) : forum bool :=
  c ← readable_channel user id;
  message_in id message_id;;
  or_400 (
    Messages.add_reaction_to_message uuid4 message_id (us_id user) name;;
    emit_reaction user (cl_id c) message_id "message:reaction:add" name).

Definition remove_reaction_by_id_and_user_id_and_name user id (message_id name : string) : forum bool :=
  c ← readable_channel user id;
  message_in id message_id;;
  or_400 (
    Messages.remove_reaction_by_id_and_user_id_and_name message_id (us_id user) name;;
    emit_reaction user (cl_id c) message_id "message:reaction:remove" name).

Definition delete_message_by_id user id (message_id : string) : forum bool :=
  c ← readable_channel user id;
  m ← message_in id message_id;
  or_400 (
    Messages.delete_message_by_id message_id;;
    emit_to_room (cl_id c) (ms_id (mr_message m)) "message:delete" m (user_name user) None user;;
    emit_reply user (cl_id c) (ms_parent_id (mr_message m));;
    mret true).

End endpoints.

(** ** A request *)

Inductive ChannelRequest :=
| CreateChannel (f : ChannelForm)
| UpdateChannel (id : string) (f : ChannelForm)
| DeleteChannel (id : string)
| ReadMessages (id : string) (skip limit : nat)
| ReadMessage (id message_id : string)
| ReadThread (id message_id : string) (skip limit : nat)
| PostMessage (id : string) (f : MessageForm)
| UpdateMessage (id message_id : string) (f : MessageForm)
| AddReaction (id message_id name : string)
| RemoveReaction (id message_id name : string)
| DeleteMessage (id message_id : string).

(** What the endpoints depend on. *)
Record ForumEnv := mkForumEnv {
  fe_uuid4 : nat → string;
  fe_dialect : Dialect;
  fe_groups : list Group;
  fe_url : string;
  fe_room : string → list string
}.

Definition handle_channel (e : ForumEnv) (user : User) (r : ChannelRequest) : forum unit :=
  let d := fe_dialect e in let g := fe_groups e in let u := fe_uuid4 e in
  match r with
  | CreateChannel f => void (create_new_channel u user f)
  | UpdateChannel id f => void (update_channel_by_id user id f)
  | DeleteChannel id => void (delete_channel_by_id user id)
  | ReadMessages id skip limit => void (get_channel_messages d g user id skip limit)
  | ReadMessage id message_id => void (get_channel_message d g user id message_id)
  | ReadThread id message_id skip limit => void (get_channel_thread_messages d g user id message_id skip limit)
  | PostMessage id f => void (post_new_message u d g (fe_url e) (fe_room e) user id f)
  | UpdateMessage id message_id f => void (update_message_by_id d g user id message_id f)
  | AddReaction id message_id name => void (add_reaction_to_message u d g user id message_id name)
  | RemoveReaction id message_id name =>
      void (remove_reaction_by_id_and_user_id_and_name d g user id message_id name)
  | DeleteMessage id message_id => void (delete_message_by_id d g user id message_id)
  end.

(** The channel a request is about, if about one. *)
Definition channel_of (r : ChannelRequest) : option string :=
  match r with
  | CreateChannel _ => None
  | UpdateChannel id _ | DeleteChannel id | ReadMessages id _ _ | ReadMessage id _ | ReadThread id _ _ _
  | PostMessage id _ | UpdateMessage id _ _ | AddReaction id _ _ | RemoveReaction id _ _ | DeleteMessage id _ => Some id
  end.
