(* ===== verification/ChannelContract.v ===== *)
(** What the channels promise: a request stays in its channel, and reactions are counted
    each once. *)

From S2P Require Import Prelude Data Accounts AccessControl Channels ChannelApi.

(** ** Staying in the channel *)

(** What an edit leaves of a message. *)
Definition identity (m : Message) : string * string * option string * option string * Z :=
  (ms_id m, ms_user_id m, ms_channel_id m, ms_parent_id m, ms_created_at m).

Section requests.
Context (e : ForumEnv) (user : User) (id : string).
Implicit Types (s : Forum).

(** Only events of this user in the room of this channel, and notifications. *)
Record announces s s' : Prop := {
  an_channels : fm_channels s' = fm_channels s;
  an_messages : fm_messages s' = fm_messages s;
  an_reactions : fm_reactions s' = fm_reactions s;
  an_users : fm_users s' = fm_users s;
  an_events : ∃ l, fm_events s' = fm_events s ++ l ∧
    Forall (λ ev, ev_room ev = "channel:" +:+ id ∧ ev_user ev = user_name user) l
}.

#[export] Instance announces_preorder : PreOrder announces.
Proof.
  split; [intros s; split; try done; by exists []; rewrite app_nil_r|].
  intros s1 s2 s3 [C1 M1 R1 U1 (l1 & E1 & F1)] [C2 M2 R2 U2 (l2 & E2 & F2)]. split; try congruence.
  exists (l1 ++ l2). rewrite E2, E1, app_assoc. split; [done|]. by apply Forall_app.
Qed.

(** What may become of the one message a request is about. *)
Inductive may_become : option Message → option Message → Prop :=
| stays o : may_become o o
| posted m : ms_user_id m = us_id user → ms_channel_id m = Some id → may_become None (Some m)
| edited m m' : ms_channel_id m = Some id → identity m' = identity m → may_become (Some m) (Some m')
| removed m : ms_channel_id m = Some id → may_become (Some m) None.

(** One message, [k], is touched, and the reactions to it: this user's, or all of them
    with the message itself. *)
Record touches k s s' : Prop := {
  to_channels : fm_channels s' = fm_channels s;
  to_users : fm_users s' = fm_users s;
  to_others j : j ≠ k → find_row j (fm_messages s') = find_row j (fm_messages s);
  to_message : may_become (find_row k (fm_messages s)) (find_row k (fm_messages s'));
  to_reactions : filter (λ r, rn_message_id r ≠ k) (fm_reactions s') = filter (λ r, rn_message_id r ≠ k) (fm_reactions s);
  to_reaction r : rn_message_id r = k → rn_user_id r ≠ us_id user → find_row k (fm_messages s') ≠ None →
    r ∈ fm_reactions s' ↔ r ∈ fm_reactions s;
  to_events : ∃ l, fm_events s' = fm_events s ++ l ∧
    Forall (λ ev, ev_room ev = "channel:" +:+ id ∧ ev_user ev = user_name user) l
}.

Definition within s s' : Prop := ∃ k, touches k s s'.

Lemma announces_touches k s s' : announces s s' → touches k s s'.
Proof. intros [C M R U E]. split; rewrite ?M, ?R; try done. apply stays. Qed.

Lemma touches_announces k s s1 s2 : touches k s s1 → announces s1 s2 → touches k s s2.
Proof.
  intros [C U O M R1 R2 (l1 & E1 & F1)] [C' M' R' U' (l2 & E2 & F2)].
  split; rewrite ?M', ?R', ?C', ?U'; try done. exists (l1 ++ l2). rewrite E2, E1, app_assoc. split; [done|]. by apply Forall_app.
Qed.

Lemma announces_then_touches k s s1 s2 : announces s s1 → touches k s1 s2 → touches k s s2.
Proof.
  intros [C' M' R' U' (l1 & E1 & F1)] [C U O M R1 R2 (l2 & E2 & F2)]. rewrite M', ?R', ?C', ?U' in *.
  split; try done. exists (l1 ++ l2). rewrite E2, E1, app_assoc. split; [done|]. by apply Forall_app.
Qed.

#[local] Notation loud := (preserves announces).

Lemma loud_gets {A} (f : Forum → A) : loud (gets f : forum A).
Proof. apply preserves_gets, _. Qed.
Lemma loud_answer {A} code (o : option A) : loud (answer code o : forum A).
Proof. destruct o; [apply preserves_ret|apply preserves_raise]; apply _. Qed.
Lemma loud_responded {A} (o : option A) : loud (responded o : forum A).
Proof. destruct o; [apply preserves_ret|apply preserves_raise]; apply _. Qed.
Lemma loud_mint uuid4 : loud (mint uuid4).
Proof. intros s. split; try done. by exists []; rewrite app_nil_r. Qed.
Lemma loud_now : loud now.
Proof. apply preserves_gets, _. Qed.
#[local] Hint Resolve loud_gets loud_answer loud_responded loud_mint loud_now : loud.

Lemma loud_author user_id : loud (author user_id).
Proof. unfold author. preserves_step; [auto with loud|]. preserves_step; [auto with loud|apply preserves_ret, _]. Qed.

Lemma loud_emit message_id type m shown reaction : loud (emit_to_room id message_id type m shown reaction user).
Proof.
  apply preserves_modify. intros s. split; try done. eexists. split; [reflexivity|]. by repeat constructor.
Qed.
#[local] Hint Resolve loud_author loud_emit : loud.

Lemma loud_emit_reply parent : loud (emit_reply user id parent).
Proof. unfold emit_reply. repeat (preserves_step; auto with loud). Qed.
Lemma loud_emit_reaction message_id type name : loud (emit_reaction user id message_id type name).
Proof. unfold emit_reaction. repeat (preserves_step; auto with loud). Qed.
Lemma loud_notify groups url c m active : loud (send_notification groups url c m active).
Proof. apply preserves_modify. intros s. split; try done. by exists []; rewrite app_nil_r. Qed.
Lemma loud_readable dialect groups id' : loud (readable_channel dialect groups user id').
Proof. unfold readable_channel, existing_channel. repeat (preserves_step; auto with loud). Qed.
Lemma loud_message_in message_id : loud (message_in id message_id).
Proof. unfold message_in. repeat (preserves_step; auto with loud). Qed.
Lemma loud_with_authors l : loud (with_authors l).
Proof. induction l as [|[m r] l IH]; simpl; repeat (preserves_step; auto with loud). Qed.
#[local] Hint Resolve loud_emit_reply loud_emit_reaction loud_notify loud_readable loud_message_in loud_with_authors : loud.

Lemma channel_400_state {A} (m : forum A) s : state_of (or_400 m) s = state_of m s.
Proof. unfold or_400, state_of. by destruct (m s) as [[]]. Qed.

(** Going on after what touched a message, and before. *)
Lemma touch_then {A B} k (m : forum A) (f : A → forum B) s :
  touches k s (state_of m s) → (∀ a, loud (f a)) → touches k s (state_of (m ≫= f) s).
Proof.
  intros Hm Hf. unfold state_of in *. rewrite run_bind. destruct (m s) as [[a|x] s1]; [|done].
  eapply touches_announces; [exact Hm|apply Hf].
Qed.

Lemma loud_first {A B} k (m : forum A) (f : A → forum B) s :
  loud m → (∀ a s1, m s = (Ok a, s1) → touches k s1 (state_of (f a) s1)) → touches k s (state_of (m ≫= f) s).
Proof.
  intros Hm Hf. specialize (Hm s). unfold state_of in *. rewrite run_bind. destruct (m s) as [[a|x] s1] eqn:Hr; simpl in Hm.
  - eapply announces_then_touches; [exact Hm|by apply Hf].
  - by apply announces_touches.
Qed.

Lemma touch_commit k possible f s :
  (∀ s1, announces s s1 → possible s1 = true → touches k s1 (f s1)) → touches k s (state_of (commit possible f) s).
Proof.
  intros Hf. unfold commit, state_of.
  destruct (match fm_commits s with [] => _ | _ => _ end) as [ok s1] eqn:Hc.
  assert (announces s s1) as Hs by (destruct (fm_commits s); injection Hc as <- <-; [done|]; split; try done; by exists []; rewrite app_nil_r).
  destruct (ok && possible s1) eqn:Hp; simpl; [|by apply announces_touches].
  eapply announces_then_touches; [exact Hs|]. apply Hf; [done|]. by apply andb_true_iff in Hp as [_ ?].
Qed.

(** A change of the messages, or of the reactions to one. *)
Lemma touch_messages k s f :
  (∀ j, j ≠ k → find_row j (f (fm_messages s)) = find_row j (fm_messages s)) →
  may_become (find_row k (fm_messages s)) (find_row k (f (fm_messages s))) → touches k s (Messages.put f s).
Proof. intros Ho Hk. split; try done. by exists []; rewrite app_nil_r. Qed.

Lemma touch_reactions k s f :
  filter (λ r, rn_message_id r ≠ k) (f (fm_reactions s)) = filter (λ r, rn_message_id r ≠ k) (fm_reactions s) →
  (∀ r, rn_message_id r = k → rn_user_id r ≠ us_id user → r ∈ f (fm_reactions s) ↔ r ∈ fm_reactions s) →
  touches k s (Messages.put_reactions f s).
Proof. intros Ho Hk. split; try done; [apply stays|by intros r Hr Hu _; apply Hk|]. by exists []; rewrite app_nil_r. Qed.

Lemma touch_insert uuid4 f s : ∃ k, touches k s (state_of (Messages.insert_new_message uuid4 f id (us_id user)) s).
Proof.
  exists (uuid4 (fm_minted s)). unfold Messages.insert_new_message. apply loud_first; [apply loud_mint|].
  intros k s1 Hk. assert (k = uuid4 (fm_minted s)) as -> by (by injection Hk).
  apply loud_first; [auto with loud|]. intros t s2 _.
  apply touch_then; [|intros; apply preserves_ret, _]. apply touch_commit. intros s3 _ Hnew%bool_decide_eq_true.
  apply touch_messages.
  - intros j Hj. rewrite find_row_app. simpl. rewrite decide_False by (by intros [=]). by destruct (find_row j _).
  - apply find_row_None in Hnew. rewrite find_row_app, Hnew. simpl. rewrite decide_True by done. by constructor.
Qed.

Lemma touch_update k f s m :
  find_row k (fm_messages s) = Some m → ms_channel_id m = Some id → touches k s (state_of (Messages.update_message_by_id k f) s).
Proof.
  intros Hm Hid. unfold Messages.update_message_by_id. apply loud_first; [auto with loud|]. intros o s1 [= <- <-].
  rewrite Hm. apply loud_first; [auto with loud|]. intros m' s2 [= <- <-]. apply loud_first; [auto with loud|]. intros t s3 [= <- <-].
  apply touch_then; [|intros; apply preserves_ret, _]. apply touch_commit. intros s4 Hs _. apply touch_messages.
  - intros j Hj. by apply find_update_row_ne.
  - rewrite find_update_row_eq by done. rewrite (an_messages _ _ Hs), Hm. by constructor.
Qed.

Lemma touch_add uuid4 k name s : touches k s (state_of (Messages.add_reaction_to_message uuid4 k (us_id user) name) s).
Proof.
  unfold Messages.add_reaction_to_message. apply loud_first; [auto with loud|]. intros n s1 _.
  apply loud_first; [auto with loud|]. intros t s2 _. apply touch_commit. intros s3 _ _. apply touch_reactions.
  - rewrite filter_app, filter_cons. simpl. rewrite decide_False by (by intros []). by rewrite app_nil_r.
  - intros r _ Hr. rewrite elem_of_app, list_elem_of_singleton. split; [|by left]. intros [| ->]; [done|]. by destruct Hr.
Qed.

Lemma touch_remove k name s :
  touches k s (state_of (Messages.remove_reaction_by_id_and_user_id_and_name k (us_id user) name) s).
Proof.
  apply touch_commit. intros s3 _ _. apply touch_reactions.
  - rewrite list_filter_filter. apply list_filter_iff. intros r. unfold Messages.is_reaction. naive_solver.
  - intros r _ Hr. rewrite list_elem_of_filter. unfold Messages.is_reaction. naive_solver.
Qed.

Lemma touch_delete k s m :
  find_row k (fm_messages s) = Some m → ms_channel_id m = Some id → touches k s (state_of (Messages.delete_message_by_id k) s).
Proof.
  intros Hm Hid. apply touch_commit. intros s1 Hs _.
  assert (find_row k (delete_row k (fm_messages s1)) = None) as Hnone.
  { apply find_row_None. unfold keys, delete_row. intros (r & Hk & [Hne _]%list_elem_of_filter)%list_elem_of_fmap. by destruct Hne. }
  split; try done.
  - intros j Hj. by apply find_delete_row_ne.
  - simpl. rewrite Hnone, (an_messages _ _ Hs), Hm. by constructor.
  - simpl. by rewrite list_filter_filter_l by done.
  - by exists []; rewrite app_nil_r.
Qed.

(** *** The requests *)

Lemma readable_run dialect groups s :
  readable_channel dialect groups user id s =
    match find_row id (fm_channels s) with
    | None => (Raise (Http 404), s)
    | Some c =>
        match may_read dialect groups user c with
        | Some true => (Ok c, s)
        | Some false => (Raise (Http 403), s)
        | None => (Raise Uncaught, s)
        end
    end.
Proof.
  unfold readable_channel, existing_channel. rewrite run_bind, run_gets_bind. unfold Channels.get_channel_by_id.
  destruct (find_row id _) as [c|]; [|done]. simpl. rewrite run_responded_bind. by destruct (may_read _ _ _ _) as [[]|].
Qed.

Lemma message_in_row message_id s r s1 :
  message_in id message_id s = (Ok r, s1) →
  ∃ m, find_row message_id (fm_messages s) = Some m ∧ ms_channel_id m = Some id ∧ s1 = s ∧ mr_message r = m.
Proof.
  unfold message_in. rewrite run_gets_bind, run_answer_bind. unfold Messages.get_message_by_id.
  destruct (find_row message_id _) as [m|]; [|done]. simpl. case_decide as Hid; [|done]. intros [= <- <-]. by exists m.
Qed.

(** A request about a message of a readable channel. *)
Lemma about_message {A} dialect groups message_id (f : Channel → MessageResponse → forum A) s :
  (∀ c r s1 m, cl_id c = id → find_row message_id (fm_messages s1) = Some m → ms_channel_id m = Some id → mr_message r = m →
     touches message_id s1 (state_of (f c r) s1)) →
  touches message_id s (state_of (c ← readable_channel dialect groups user id; r ← message_in id message_id; f c r) s).
Proof.
  intros Hf. apply loud_first; [auto with loud|]. intros c s1 Hc. rewrite readable_run in Hc.
  destruct (find_row id (fm_channels s)) as [c0|] eqn:Hrow; [|done]. destruct (may_read _ _ _ _) as [[]|]; [|done..].
  injection Hc as <- <-. apply find_row_key in Hrow. apply loud_first; [auto with loud|]. intros r s2 Hr.
  apply message_in_row in Hr as (m & Hm & Hid & -> & Hrm). by eapply Hf.
Qed.

Lemma reading_loud dialect groups skip limit message_id :
  loud (get_channel_messages dialect groups user id skip limit) ∧ loud (get_channel_message dialect groups user id message_id) ∧
  loud (get_channel_thread_messages dialect groups user id message_id skip limit).
Proof.
  unfold get_channel_messages, get_channel_message, get_channel_thread_messages.
  split_and!; repeat (preserves_step; auto with loud).
Qed.

Lemma posting uuid4 dialect groups url room f s :
  within s (state_of (post_new_message uuid4 dialect groups url room user id f) s).
Proof.
  unfold within, post_new_message. unfold state_of. rewrite run_bind, readable_run.
  destruct (find_row id (fm_channels s)) as [c|] eqn:Hc; [|exists ""; by apply announces_touches].
  destruct (may_read _ _ _ _) as [[]|]; [|exists ""; by apply announces_touches..]. apply find_row_key in Hc. change (cl_id c = id) in Hc.
  rewrite Hc. destruct (touch_insert uuid4 f s) as [k Hk]. exists k.
  match goal with |- touches k s (?m s).2 => change (touches k s (state_of m s)) end.
  apply touch_then; [|intros; preserves_step; [auto with loud|apply preserves_ret, _]]. rewrite channel_400_state.
  apply touch_then; [exact Hk|]. intros m. repeat (preserves_step; auto with loud).
Qed.
End requests.
#[local] Hint Resolve loud_gets loud_answer loud_responded loud_now loud_author loud_emit loud_emit_reply loud_emit_reaction : loud.

(** The requests about messages, and those about the channels themselves. *)
Definition about_messages (r : ChannelRequest) : option string :=
  match r with CreateChannel _ | UpdateChannel _ _ | DeleteChannel _ => None | _ => channel_of r end.

(** C15: A request stays in its channel.  Whoever may not read it, or when there is none, is
    refused with nothing changed.  Otherwise one message at most is touched, and that is of
    the channel or a new one of the caller's there: it keeps its author, channel, parent and
    time, nobody else's reaction to it comes or goes but with it, and all that is emitted
    goes to the channel's room in the caller's name; only administrators change channels. *)
Theorem channel_requests_stay_in_their_channel e user r s :
  let '(res, s') := handle_channel e user r s in
  match about_messages r with
  | Some id =>
      within user id s s' ∧
      ((∀ c, find_row id (fm_channels s) = Some c → may_read (fe_dialect e) (fe_groups e) user c ≠ Some true) →
       s' = s ∧ ∃ x, res = Raise x)
  | None => us_role user ≠ "admin" → s' = s ∧ res = Raise (Http 401)
  end.
Proof.
  destruct (handle_channel e user r s) as [res s'] eqn:Hres.
  assert (s' = state_of (handle_channel e user r) s) as Hs' by (unfold state_of; by rewrite Hres).
  destruct r as [f|id f|id|id skip limit|id k|id k skip limit|id f|id k f|id k name|id k name|id k]; simpl in Hs', Hres |- *;
    rewrite ?void_state in Hs'.
  1-3: intros Hadmin; unfold create_new_channel, update_channel_by_id, delete_channel_by_id, as_admin in Hres;
    rewrite decide_False in Hres by done; by injection Hres as <- <-.
  all: split; [subst s'|].
  all: try (intros Hno; unfold get_channel_messages, get_channel_message, get_channel_thread_messages, post_new_message,
    update_message_by_id, add_reaction_to_message, remove_reaction_by_id_and_user_id_and_name, delete_message_by_id, void in Hres;
    rewrite run_bind in Hres; rewrite run_bind in Hres; rewrite readable_run in Hres;
    destruct (find_row id (fm_channels s)) as [c|] eqn:Hc; [specialize (Hno c eq_refl); destruct (may_read _ _ _ c) as [[]|]; try done|];
    injection Hres as <- <-; eauto; fail).
  1-3: exists ""; apply announces_touches, reading_loud; exact 0%nat || exact "".
  - apply posting.
  - exists k. apply about_message. intros c r s1 m Hid Hm Hin _. rewrite channel_400_state, Hid. apply touch_then; [by eapply touch_update|].
    intros m'. repeat (preserves_step; auto with loud).
  - exists k. apply about_message. intros c r s1 m Hid Hm Hin _. rewrite channel_400_state, Hid. apply touch_then; [apply touch_add|].
    intros m'. auto with loud.
  - exists k. apply about_message. intros c r s1 m Hid Hm Hin _. rewrite channel_400_state, Hid. apply touch_then; [apply touch_remove|].
    intros m'. auto with loud.
  - exists k. apply about_message. intros c r s1 m Hid Hm Hin _. rewrite channel_400_state, Hid. apply touch_then; [by eapply touch_delete|].
    intros m'. repeat (preserves_step; auto with loud).
Qed.

(** ** Reactions *)

Lemma count_reaction_cases r l :
  (rn_name r ∉ rs_name <$> l ∧ Messages.count_reaction r l = l ++ [mkReactions (rn_name r) [rn_user_id r] 1]) ∨
  ∃ l1 g l2, l = l1 ++ g :: l2 ∧ rs_name g = rn_name r ∧
    Messages.count_reaction r l = l1 ++ mkReactions (rs_name g) (rs_user_ids g ++ [rn_user_id r]) (S (rs_count g)) :: l2.
Proof.
  induction l as [|g l IH]; [left; split; [apply not_elem_of_nil|done]|]. simpl. case_decide as Hg.
  - right. by exists [], g, l.
  - destruct IH as [[Hn ->]|(l1 & g' & l2 & -> & Hg' & ->)].
    + left. split; [|done]. csimpl. rewrite not_elem_of_cons. split; [congruence|done].
    + right. by exists (g :: l1), g', l2.
Qed.

(** What the groups of a list of reactions are. *)
Record counted (rs : list MessageReaction) (groups : list Reactions) : Prop := {
  counted_names : NoDup (rs_name <$> groups);
  counted_group g : g ∈ groups →
    rs_user_ids g = rn_user_id <$> filter (λ r, rn_name r = rs_name g) rs ∧
    rs_count g = length (rs_user_ids g) ∧ (0 < rs_count g)%nat;
  counted_all name : name ∈ rs_name <$> groups ↔ name ∈ rn_name <$> rs;
  counted_sum : length rs = sum_list (rs_count <$> groups)
}.

Lemma filter_snoc name r (rs : list MessageReaction) :
  rn_user_id <$> filter (λ r, rn_name r = name) (rs ++ [r]) =
    (rn_user_id <$> filter (λ r, rn_name r = name) rs) ++ (if decide (rn_name r = name) then [rn_user_id r] else []).
Proof. rewrite filter_app, fmap_app. f_equal. rewrite filter_cons. by case_decide. Qed.

Lemma counted_snoc rs groups r : counted rs groups → counted (rs ++ [r]) (Messages.count_reaction r groups).
Proof.
  intros [Hn Hg Ha Hs]. destruct (count_reaction_cases r groups) as [[Hnew ->]|(l1 & g & l2 & -> & Hname & ->)].
  - split.
    + rewrite fmap_app. apply NoDup_app. split_and!; [done| |apply NoDup_singleton]. intros x Hx ->%list_elem_of_singleton. done.
    + intros g [Hin| ->%list_elem_of_singleton]%elem_of_app; rewrite filter_snoc; simpl.
      * rewrite decide_False, app_nil_r; [by apply Hg|]. intros He. apply Hnew. rewrite He. by apply list_elem_of_fmap_2.
      * rewrite decide_True by done. rewrite (filter_none _ rs); [split_and!; [done|done|simpl; lia]|]. intros x Hx He. apply Hnew, Ha.
        rewrite <- He. by apply list_elem_of_fmap_2.
    + intros name. rewrite !fmap_app, !elem_of_app, Ha. done.
    + rewrite fmap_app, length_app, sum_list_with_app || rewrite length_app, fmap_app. rewrite Hs. simpl.
      induction (rs_count <$> groups) as [|x l IH]; simpl; [done|]. lia.
  - assert (rs_name <$> l1 ++ mkReactions (rs_name g) (rs_user_ids g ++ [rn_user_id r]) (S (rs_count g)) :: l2 =
            rs_name <$> l1 ++ g :: l2) as Hsame by (by rewrite !fmap_app).
    rewrite fmap_app in Hn. csimpl in Hn. apply NoDup_app in Hn as (Hn1 & Hn2 & Hn3). split.
    + rewrite Hsame, fmap_app. csimpl. by apply NoDup_app.
    + intros g' Hin. rewrite filter_snoc. rewrite elem_of_app, elem_of_cons in Hin. apply NoDup_cons in Hn3 as [Hn3 _].
      destruct Hin as [Hin|[->|Hin]]; simpl.
      * rewrite decide_False, app_nil_r; [apply Hg, elem_of_app; by left|]. intros He. apply (Hn2 (rs_name g')).
        -- by apply list_elem_of_fmap_2.
        -- rewrite elem_of_cons. left. congruence.
      * rewrite decide_True by done. destruct (Hg g) as (-> & Hc & _); [apply elem_of_app; right; by left|].
        split_and!; [done| |lia]. rewrite Hc, length_app. simpl. lia.
      * rewrite decide_False, app_nil_r; [apply Hg, elem_of_app; right; by right|]. intros He. apply Hn3. rewrite Hname, He.
        by apply list_elem_of_fmap_2.
    + intros name. rewrite Hsame, (fmap_app rn_name), elem_of_app, <- (Ha name). simpl. rewrite list_elem_of_singleton. split; [by left|].
      intros [| ->]; [done|]. rewrite <- Hname. apply list_elem_of_fmap_2, elem_of_app. right. by left.
    + rewrite length_app, Hs, !fmap_app. csimpl. induction (rs_count <$> l1) as [|x l IH]; simpl; lia.
Qed.

Lemma counted_fold rs : counted rs (foldl (λ l r, Messages.count_reaction r l) [] rs).
Proof.
  induction rs as [|r rs IH] using rev_ind.
  - split; simpl; [constructor|by intros g ?%elem_of_nil|done|done].
  - rewrite foldl_snoc. by apply counted_snoc.
Qed.

(** Every reaction is counted once: the groups a message is shown with are of different
    names, in the order the names first occur, and each lists, in order, the users of all
    reactions of its name, its count being how many they are; a name is there if and only
    if somebody reacted with it. *)
Theorem reactions_are_counted_once id s :
  let groups := Messages.get_reactions_by_message_id id s in
  let reactions := Messages.reactions_to id s in
  NoDup (rs_name <$> groups) ∧
  (∀ g, g ∈ groups → rs_user_ids g = rn_user_id <$> filter (λ r, rn_name r = rs_name g) reactions ∧
                     rs_count g = length (rs_user_ids g) ∧ (0 < rs_count g)%nat) ∧
  (∀ name, name ∈ rs_name <$> groups ↔ name ∈ rn_name <$> reactions) ∧
  length reactions = sum_list (rs_count <$> groups).
Proof. intros groups reactions. destruct (counted_fold reactions) as [Hn Hg Ha Hs]. done. Qed.

(** Concrete runs of the channel endpoints: the theorem of [ChannelContract] at work, and
    closed runs in which the endpoints do not do what they are for. *)
Module ChannelRuns.

(** ** Two channels *)

Definition person (role id : string) : User :=
  mkUser id id (id +:+ "@example.org") role "" 0 0 0 None None None None.
Definition root : User := person "admin" "root".
Definition ann : User := person "user" "ann".
Definition bob : User := person "user" "bob".

(** A rule that lets one user read. *)
Definition only (user_id : string) : option json_dict :=
  Some [("read", JDict [("group_ids", JList []); ("user_ids", JList [JStr user_id])])].

Definition channel (id owner : string) (rule : option json_dict) : Channel :=
  mkChannel id owner None id (Some "old") None None rule 1 1.
Definition message (id user_id channel_id : string) (parent : option string) (t : Z) : Message :=
  mkMessage id user_id (Some channel_id) parent ("text of " +:+ id) None None t t.

(** [hall] is everybody's, [den] ann's alone; ann wrote in both. *)
Definition building : Forum :=
  mkForum [channel "hall" "root" None; channel "den" "bob" (only "ann")]
    [message "m1" "ann" "hall" None 1; message "m2" "bob" "hall" (Some "m1") 2; message "secret" "ann" "den" None 3]
    [mkMessageReaction "r1" "bob" "m1" "+1" 1; mkMessageReaction "r2" "ann" "m1" "heart" 2;
     mkMessageReaction "r3" "bob" "m1" "+1" 3]
    [root; ann; bob] 10 0 [] [] [].

Definition env : ForumEnv := mkForumEnv (λ n, match n with 0 => "n0" | 1 => "n1" | _ => "n2" end%nat) SQLite [] "http://ui" (λ _, []).
Definition serve (user : User) (r : ChannelRequest) (s : Forum) : result ApiExn unit * Forum := handle_channel env user r s.
Definition after (user : User) (r : ChannelRequest) (s : Forum) : Forum := (serve user r s).2.
Definition said (text : string) (parent : option string) : MessageForm := mkMessageForm text parent None None.

Lemma channel_requests_stay_in_their_channel_witness :
  after bob (PostMessage "den" (said "hi" None)) building = building.
Proof.
  pose proof (channel_requests_stay_in_their_channel env bob (PostMessage "den" (said "hi" None)) building) as H.
  unfold after, serve. destruct (handle_channel env bob _ building) as [res s']. apply (proj2 H).
  intros c Hc. injection Hc as <-. vm_compute. discriminate.
Defined.

Example reactions_of_m1 :
  Messages.get_reactions_by_message_id "m1" building = [mkReactions "+1" ["bob"; "bob"] 2; mkReactions "heart" ["ann"] 1].
Proof. by vm_compute. Qed.

(** ** Where the endpoints fall short *)

(** Whoever may read a channel rewrites and deletes anybody's messages in it. *)
Example readers_edit_each_others_messages :
  (λ m, (ms_user_id m, ms_content m)) <$> find_row "m1" (fm_messages (after bob (UpdateMessage "hall" "m1" (said "sorry" None)) building)) =
    Some ("ann", "sorry") ∧
  find_row "m1" (fm_messages (after bob (DeleteMessage "hall" "m1") building)) = None.
Proof. by vm_compute. Qed.

(** The thread of a message of another channel shows that message, as nothing asks whose
    channel it is in. *)
Example a_thread_shows_a_message_of_another_channel :
  (get_channel_message SQLite [] bob "den" "secret" building).1 = Raise (Http 403) ∧
  (λ l : list MessageUserResponse, (λ r, ms_content (mr_message (mu_response r))) <$> l) <$>
    match (get_channel_thread_messages SQLite [] bob "hall" "secret" 0 50 building).1 with Ok l => Some l | _ => None end =
    Some ["text of secret"].
Proof. by vm_compute. Qed.

(** A reply to it in a channel of one's own has it sent there. *)
Example a_reply_sends_a_message_of_another_channel :
  (λ ev, (ev_room ev, ev_type ev, ms_content (mr_message (ev_message ev)))) <$>
    fm_events (after bob (PostMessage "hall" (said "look" (Some "secret"))) building) =
  [("channel:hall", "message", "look"); ("channel:hall", "message:reply", "text of secret")].
Proof. by vm_compute. Qed.

(** When an account is deleted, the channels it wrote in cannot be read any more. *)
Example a_deleted_author_closes_the_channel :
  let s := building <| fm_users := [root; bob] |> in
  (serve bob (ReadMessages "hall" 0 50) s).1 = Raise Uncaught ∧
  let '(r, s') := serve bob (PostMessage "hall" (said "hello?" (Some "m1"))) s in
  r = Raise (Http 400) ∧ length (fm_messages s') = 4%nat.
Proof. by vm_compute. Qed.

(** The replies to a deleted message stay and nothing shows them; nor do messages go with
    their channel. *)
Example orphans_stay :
  let s := after ann (DeleteMessage "hall" "m1") building in
  is_Some (find_row "m2" (fm_messages s)) ∧
  (get_channel_messages SQLite [] bob "hall" 0 50 s).1 = Ok [] ∧
  (get_channel_thread_messages SQLite [] bob "hall" "m1" 0 50 s).1 = Ok [] ∧
  length (fm_messages (after root (DeleteChannel "hall") building)) = 3%nat.
Proof. vm_compute. split_and!; [by eexists|done..]. Qed.

(** The owner of a channel sees it listed and may not open it. *)
Example an_owner_is_refused :
  cl_id <$> match (get_channels SQLite [] bob building).1 with Ok l => l | _ => [] end = ["hall"; "den"] ∧
  (get_channel_by_id SQLite [] bob "den" building).1 = Raise (Http 403).
Proof. by vm_compute. Qed.

(** A new description is not saved, and only a new channel's name is lowered. *)
Example a_description_is_not_saved :
  let f := mkChannelForm "Hall" (Some "new") None None None in
  (λ c, (cl_name c, cl_description c)) <$> find_row "hall" (fm_channels (after root (UpdateChannel "hall" f) building)) =
    Some ("Hall", Some "old") ∧
  (λ c, (cl_name c, cl_description c)) <$> find_row "n0" (fm_channels (after root (CreateChannel f) building)) =
    Some ("hall", Some "new").
Proof. by vm_compute. Qed.

(** One user with settings without their [ui] part keeps the others from being notified. *)
Example a_notification_stops_at_odd_settings :
  let hooked := bob <| us_settings := Some [("ui", JDict [("notifications", JDict [("webhook_url", JStr "http://hook")])])] |> in
  let odd := (person "user" "odd") <| us_settings := Some [("ui", JNull)] |> in
  length (fm_hooks (after ann (PostMessage "hall" (said "hi" None)) (building <| fm_users := [hooked; ann] |>))) = 1%nat ∧
  fm_hooks (after ann (PostMessage "hall" (said "hi" None)) (building <| fm_users := [odd; hooked; ann] |>)) = [].
Proof. by vm_compute. Qed.

End ChannelRuns.
