(* ===== verification/Formats.v ===== *)
(** Chat requests in the OpenAI, Ollama and Anthropic formats, and their conversions:
    [utils/payload.py], [utils/toolspec.py], [prompt_template] of [utils/task.py] and
    [add_or_update_system_message] of [utils/misc.py].

    A request is a decoded JSON value; [None] is an exception.  [json.dumps],
    [json.loads] on text ([None] is the [JSONDecodeError]) and [str()] of a value that
    is no text are parameters, and so are [float()], [int()] and the escape decoding
    of stop sequences.  Texts are ASCII. *)

From Stdlib Require Import Ascii.
From S2P Require Import Prelude Data.

Class Codec := {
  json_dumps : Json → string;
  json_loads : string → option Json;
  py_repr : Json → string
}.

Class Casts := {
  py_float : Json → option Json;
  py_int_of : Json → option Json;
  unicode_escape : string → option string
}.

(** [f"{j}"] *)
Definition fstring `{!Codec} (j : Json) : string := match j with JStr s => s | _ => py_repr j end.

(** [s.removeprefix(p)] *)
Definition removeprefix (p s : string) : string :=
  if starts_with p s then String.substring (String.length p) (String.length s) s else s.

Definition text_block (text : Json) : Json := JDict [("type", JStr "text"); ("text", text)].

(** The text of a block or part that is one. *)
Definition block_text (block : Json) : option Json :=
  if decide (item "type" block = Some (JStr "text")) then item "text" block else None.

(** ** Model parameters and system prompts *)

(** What [datetime.now()] prints as. *)
Record Clock := mkClock { formatted_date : string; formatted_time : string; formatted_weekday : string }.

Definition prompt_template (now : Clock) (template : string) (user_name user_location : option string) : string :=
  let template := replace "{{CURRENT_DATE}}" (formatted_date now) template in
  let template := replace "{{CURRENT_TIME}}" (formatted_time now) template in
  let template := replace "{{CURRENT_DATETIME}}" (formatted_date now +:+ " " +:+ formatted_time now) template in
  let template := replace "{{CURRENT_WEEKDAY}}" (formatted_weekday now) template in
  let template := replace "{{USER_NAME}}" (default "Unknown" (truthy user_name)) template in
  replace "{{USER_LOCATION}}" (default "Unknown" (truthy user_location)) template.

Definition add_or_update_system_message `{!Codec} (content : string) (messages : Json) : option Json :=
  match messages with
  | JList (first :: rest) =>
      role ← field "role" first;
      if json_is "system" role then
        old ← item "content" first;
        first ← set_item "content" (JStr (content +:+ String newline (fstring old))) first;
        Some (JList (first :: rest))
      else Some (JList (JDict [("role", JStr "system"); ("content", JStr content)] :: first :: rest))
  | JList [] => Some (JList [JDict [("role", JStr "system"); ("content", JStr content)]])
  | _ => None
  end.

Section system_prompt.
Context `{!Codec} (now : Clock).

(** [user]: the name and the location; [None] without a user. *)
Definition apply_model_system_prompt_to_body (params form_data : json_dict)
    (user : option (string * option string)) : option json_dict :=
  let system := default JNull (dict_lookup "system" params) in
  if negb (json_truthy system) then Some form_data
  else
    system ← text_of system;
    let system := match user with
                  | Some (name, location) => prompt_template now system (Some name) location
                  | None => prompt_template now system None None
                  end in
    messages ← add_or_update_system_message system (default (JList []) (dict_lookup "messages" form_data));
    Some (dict_set "messages" messages form_data).
End system_prompt.

(** The casts are applied to the parameters that are set, in the order of the mapping. *)
Fixpoint apply_mappings (mappings : list (string * (Json → option Json))) (params form_data : json_dict)
    : option json_dict :=
  match mappings with
  | [] => Some form_data
  | (key, cast_func) :: rest =>
      match dict_lookup key params with
      | None | Some JNull => apply_mappings rest params form_data
      | Some value => value ← cast_func value; apply_mappings rest params (dict_set key value form_data)
      end
  end.

Definition apply_model_params_to_body (params form_data : json_dict) (mappings : list (string * (Json → option Json)))
    : option json_dict :=
  if decide (params = []) then Some form_data else apply_mappings mappings params form_data.

Definition decode_stops `{!Casts} (x : Json) : option Json :=
  stops ← py_iter x;
  stops ← mapM (λ s, s ← text_of s; JStr <$> unicode_escape s) stops;
  Some (JList stops).

Definition openai_mappings `{!Casts} : list (string * (Json → option Json)) :=
  [("temperature", py_float); ("top_p", py_float); ("max_tokens", py_int_of); ("frequency_penalty", py_float);
   ("seed", Some); ("stop", decode_stops)].

Definition apply_model_params_to_body_openai `{!Casts} (params form_data : json_dict) : option json_dict :=
  apply_model_params_to_body params form_data openai_mappings.

Definition ollama_opts : list string :=
  ["temperature"; "top_p"; "seed"; "mirostat"; "mirostat_eta"; "mirostat_tau"; "num_ctx"; "num_batch"; "num_keep";
   "repeat_last_n"; "tfs_z"; "top_k"; "min_p"; "use_mmap"; "use_mlock"; "num_thread"; "num_gpu"].

Definition copy_param (key to : string) (params form_data : json_dict) : json_dict :=
  match dict_lookup key params with None | Some JNull => form_data | Some v => dict_set to v form_data end.

Definition apply_model_params_to_body_ollama (params form_data : json_dict) : option json_dict :=
  form_data ← apply_model_params_to_body params form_data ((λ o, (o, Some)) <$> ollama_opts);
  Some (copy_param "frequency_penalty" "repeat_penalty" params (copy_param "max_tokens" "num_predict" params form_data)).

(** ** OpenAI to Ollama *)

(** The text and the images of a list of parts, added to those before it. *)
Fixpoint ollama_parts (content : list Json) (content_text : string) (images : list Json)
    : option (string * list Json) :=
  match content with
  | [] => Some (content_text, images)
  | it :: rest =>
      type ← field "type" it;
      if json_is "text" type then
        text ← get_or "text" it (JStr "");
        text ← text_of text;
        ollama_parts rest (content_text +:+ text) images
      else if json_is "image_url" type then
        image_url ← get_or "image_url" it (JDict []);
        img_url ← get_or "url" image_url (JStr "");
        if json_truthy img_url then
          img_url ← text_of img_url;
          let img_url := if starts_with "data:" img_url then default img_url (last (split_on ","%char img_url)) else img_url in
          ollama_parts rest content_text (images ++ [JStr img_url])
        else ollama_parts rest content_text images
      else ollama_parts rest content_text images
  end.

Definition ollama_message (message : Json) : option Json :=
  role ← item "role" message;
  content ← get_or "content" message (JList []);
  match content with
  | JStr s => Some (JDict [("role", role); ("content", JStr s)])
  | _ =>
      content ← py_iter content;
      '(content_text, images) ← ollama_parts content "" [];
      let new_message := [("role", role)] in
      let new_message := if decide (content_text = "") then new_message
                         else dict_set "content" (JStr (strip content_text)) new_message in
      let new_message := if decide (images = []) then new_message else dict_set "images" (JList images) new_message in
      Some (JDict new_message)
  end.

Definition convert_messages_openai_to_ollama (messages : Json) : option (list Json) :=
  messages ← py_iter messages; mapM ollama_message messages.

(** [d[to] = payload[key]], where the payload has the key. *)
Definition move_param (payload : json_dict) (key to : string) (d : Json) : option Json :=
  match dict_lookup key payload with Some v => set_item to v d | None => Some d end.

(** The options of the request, with the parameters put into them. *)
Definition ollama_options (openai_payload : json_dict) : option Json :=
  let given := default JNull (dict_lookup "options" openai_payload) in
  let options := if json_truthy given then given else JDict [] in
  options ← move_param openai_payload "temperature" "temperature" options;
  options ← move_param openai_payload "top_p" "top_p" options;
  options ← move_param openai_payload "seed" "seed" options;
  options ← (if has_key "max_completion_tokens" openai_payload
             then move_param openai_payload "max_completion_tokens" "num_predict" options
             else move_param openai_payload "max_tokens" "num_predict" options);
  options ← move_param openai_payload "frequency_penalty" "repeat_penalty" options;
  if has_key "presence_penalty" openai_payload then
    penalty ← py_in "penalty" options;
    if penalty : bool then Some options else move_param openai_payload "presence_penalty" "new_topic_penalty" options
  else Some options.

(** The Ollama request, and the OpenAI one as the conversion leaves it: its options are
    the dict the parameters are put into. *)
Definition convert_payload_openai_to_ollama (openai_payload : json_dict) : option (json_dict * json_dict) :=
  messages ← convert_messages_openai_to_ollama (default JNull (dict_lookup "messages" openai_payload));
  let ollama_payload := [("model", default JNull (dict_lookup "model" openai_payload));
                         ("messages", JList messages);
                         ("stream", default (JBool false) (dict_lookup "stream" openai_payload))] in
  let ollama_payload := match dict_lookup "format" openai_payload with
                        | Some f => dict_set "format" f ollama_payload
                        | None => ollama_payload
                        end in
  options ← ollama_options openai_payload;
  let shared := json_truthy (default JNull (dict_lookup "options" openai_payload)) in
  Some (if json_truthy options then dict_set "options" options ollama_payload else ollama_payload,
        if shared then dict_set "options" options openai_payload else openai_payload).

(** ** Tools *)

Definition _STORED_KEYS : list string := ["name"; "description"; "input_schema"].

Definition _empty_object_schema : json_dict := [("type", JStr "object"); ("properties", JDict [])].

Definition _is_internal (key : string) : bool := starts_with "__" key.
Definition internal_entry (j : Json) : bool := match j with JStr k => _is_internal k | _ => false end.

Record ToolSpec := mkToolSpec {
  ts_name : string;
  ts_description : string;
  ts_input_schema : json_dict;
  ts_title : option string;
  ts_output_schema : option json_dict
}.

(** An unsupported key of a stored spec, and pydantic's refusal of a field. *)
Inductive SpecExn := ToolSpecError (unknown : list string) | ValidationError.

(** [ToolSpec(name=..., ...)]: the fields are validated and, where absent, defaulted. *)
Definition build_spec (fields : json_dict) : result SpecExn ToolSpec :=
  match dict_lookup "name" fields, dict_lookup "description" fields, dict_lookup "input_schema" fields with
  | Some (JStr name), None, None => Ok (mkToolSpec name "" _empty_object_schema None None)
  | Some (JStr name), None, Some (JDict schema) => Ok (mkToolSpec name "" schema None None)
  | Some (JStr name), Some (JStr description), None => Ok (mkToolSpec name description _empty_object_schema None None)
  | Some (JStr name), Some (JStr description), Some (JDict schema) => Ok (mkToolSpec name description schema None None)
  | _, _, _ => Raise ValidationError
  end.

(** [ToolSpec.from_openai]; the unsupported keys are [sorted]. *)
Definition from_openai (d : json_dict) : result SpecExn ToolSpec :=
  let mapped := filter (λ kv, kv.1 ≠ "parameters") d in
  let mapped := match dict_lookup "parameters" d with Some p => dict_set "input_schema" p mapped | None => mapped end in
  match order_by_text (λ s, s) (filter (λ k, k ∉ _STORED_KEYS) mapped.*1) with
  | [] => build_spec mapped
  | unknown => Raise (ToolSpecError unknown)
  end.

Definition to_openai (s : ToolSpec) : json_dict :=
  [("name", JStr (ts_name s)); ("description", JStr (ts_description s)); ("parameters", JDict (ts_input_schema s))].

Definition to_anthropic (s : ToolSpec) : json_dict :=
  [("name", JStr (ts_name s)); ("description", JStr (ts_description s)); ("input_schema", JDict (ts_input_schema s))].

Definition to_mcp (s : ToolSpec) : json_dict :=
  let payload := [("name", JStr (ts_name s)); ("description", JStr (ts_description s));
                  ("inputSchema", JDict (ts_input_schema s))] in
  let payload := match ts_title s with Some t => payload ++ [("title", JStr t)] | None => payload end in
  match ts_output_schema s with Some o => payload ++ [("outputSchema", JDict o)] | None => payload end.

Definition without_internal_params (s : ToolSpec) : ToolSpec :=
  let schema := ts_input_schema s in
  let schema := match dict_lookup "properties" schema with
                | Some (JDict properties) =>
                    dict_set "properties" (JDict (filter (λ kv, negb (_is_internal kv.1)) properties)) schema
                | _ => schema
                end in
  let schema := match dict_lookup "required" schema with
                | Some (JList required) =>
                    dict_set "required" (JList (filter (λ e, negb (internal_entry e)) required)) schema
                | _ => schema
                end in
  mkToolSpec (ts_name s) (ts_description s) schema (ts_title s) (ts_output_schema s).

(** [tools or []], as a [for] loop visits it. *)
Definition iter_or_empty (j : Json) : option (list Json) := py_iter (py_or j (JList [])).

(** One tool; [Some None] when it is skipped. *)
Definition anthropic_tool (tool : Json) : option (option Json) :=
  function ← get_or "function" tool tool;
  name ← field "name" function;
  if negb (json_truthy name) then Some None
  else
    description ← field "description" function;
    parameters ← field "parameters" function;
    let fields := [("name", name); ("description", py_or description (JStr ""))] in
    let fields := if json_truthy parameters then fields ++ [("input_schema", parameters)] else fields in
    match build_spec fields with Ok s => Some (Some (JDict (to_anthropic s))) | Raise _ => None end.

Definition convert_tools_openai_to_anthropic (tools : Json) : option (list Json) :=
  tools ← iter_or_empty tools; converted ← mapM anthropic_tool tools; Some (omap id converted).

(** The choice; [Some JNull] for none. *)
Definition convert_tool_choice_openai_to_anthropic (tool_choice : Json) : option Json :=
  match tool_choice with
  | JStr "none" => Some (JDict [("type", JStr "none")])
  | JStr "required" => Some (JDict [("type", JStr "any")])
  | JDict d =>
      if decide (dict_lookup "type" d = Some (JStr "function")) then
        function ← get_or "function" tool_choice (JDict []);
        name ← field "name" function;
        Some (if json_truthy name then JDict [("type", JStr "tool"); ("name", name)] else JNull)
      else Some JNull
  | _ => Some JNull
  end.

Definition openai_tool (tool : Json) : option (option Json) :=
  name ← field "name" tool;
  if negb (json_truthy name) then Some None
  else
    type ← field "type" tool;
    declared ← py_in "input_schema" tool;
    if json_truthy type && negb declared then Some None
    else
      description ← field "description" tool;
      schema ← field "input_schema" tool;
      Some (Some (JDict [("type", JStr "function");
                         ("function", JDict [("name", name); ("description", py_or description (JStr ""));
                                             ("parameters", py_or schema (JDict _empty_object_schema))])])).

Definition convert_tools_anthropic_to_openai (tools : Json) : option (list Json) :=
  tools ← iter_or_empty tools; converted ← mapM openai_tool tools; Some (omap id converted).

Definition convert_tool_choice_anthropic_to_openai (tool_choice : Json) : Json :=
  match tool_choice with
  | JDict d =>
      match dict_lookup "type" d with
      | Some (JStr "auto") => JStr "auto"
      | Some (JStr "none") => JStr "none"
      | Some (JStr "any") => JStr "required"
      | Some (JStr "tool") =>
          let name := default JNull (dict_lookup "name" d) in
          if json_truthy name
          then JDict [("type", JStr "function"); ("function", JDict [("name", name)])] else JNull
      | _ => JNull
      end
  | _ => JNull
  end.

(** ** OpenAI to Anthropic *)

Definition ANTHROPIC_NO_SAMPLING_PREFIXES : list string :=
  ["claude-fable-"; "claude-mythos-"; "claude-opus-4-7"; "claude-opus-4-8"; "claude-sonnet-5"].

(** [img_url.split(",", 1)] and the block of it; [JNull] when it is skipped. *)
Definition _anthropic_image_block (img_url : Json) : option Json :=
  if negb (json_truthy img_url) then Some JNull
  else
    url ← text_of img_url;
    if starts_with "data:" url then
      match partition_at ","%char url with
      | None => Some JNull
      | Some (header, data) =>
          let media_type := removeprefix "data:" (default "" (head (split_on ";"%char header))) in
          let media_type := default "image/png" (truthy (Some media_type)) in
          Some (JDict [("type", JStr "image");
                       ("source", JDict [("type", JStr "base64"); ("media_type", JStr media_type); ("data", JStr data)])])
      end
    else Some (JDict [("type", JStr "image"); ("source", JDict [("type", JStr "url"); ("url", JStr url)])]).

(** The blocks of one part. *)
Definition part_blocks (it : Json) : option (list Json) :=
  item_type ← field "type" it;
  if json_is "text" item_type then
    text ← get_or "text" it (JStr "");
    Some (if json_truthy text then [text_block text] else [])
  else if json_is "image_url" item_type then
    image_url ← get_or "image_url" it (JDict []);
    url ← get_or "url" image_url (JStr "");
    block ← _anthropic_image_block url;
    Some (if json_truthy block then [block] else [])
  else Some [].

Definition _anthropic_content_blocks (content : Json) : option (list Json) :=
  match content with
  | JNull => Some []
  | JStr s => Some (if decide (s = "") then [] else [text_block (JStr s)])
  | _ => parts ← py_iter content; blocks ← mapM part_blocks parts; Some (concat blocks)
  end.

(** A message of the Anthropic format, [{"role": ..., "content": [...]}]. *)
Record Turn := mkTurn { turn_role : string; turn_content : list Json }.
#[export] Instance turn_eta : Eta Turn := λ t, mkTurn (turn_role t) (turn_content t).
Definition turn_json (t : Turn) : Json :=
  JDict [("role", JStr (turn_role t)); ("content", JList (turn_content t))].

Section to_anthropic.
Context `{!Codec}.

(** The arguments of a tool call; text that does not parse gives an empty object. *)
Definition call_arguments (arguments : Json) : Json :=
  match arguments with
  | JStr s => default (JDict []) (json_loads (if decide (s = "") then "{}" else s))
  | _ => arguments
  end.

Definition tool_use_block (call : Json) : option Json :=
  function ← get_or "function" call (JDict []);
  arguments ← get_or "arguments" function (JStr "{}");
  id ← field "id" call;
  name ← field "name" function;
  Some (JDict [("type", JStr "tool_use"); ("id", id); ("name", name); ("input", call_arguments arguments)]).

Definition tool_result_block (message content : Json) : option Json :=
  tool_use_id ← field "tool_call_id" message;
  is_error ← field "is_error" message;
  let tool_content := match content with JStr s => s | _ => json_dumps content end in
  let block := [("type", JStr "tool_result"); ("tool_use_id", tool_use_id); ("content", JStr tool_content)] in
  Some (JDict (if json_truthy is_error then block ++ [("is_error", JBool true)] else block)).

Definition turn_unless_empty (role : string) (blocks : list Json) : list Turn :=
  if decide (blocks = []) then [] else [mkTurn role blocks].

(** What one message adds to the system parts and to the turns. *)
Definition convert_message (message : Json) : option (list Json * list Turn) :=
  role ← field "role" message;
  content ← field "content" message;
  if json_is "system" role then
    blocks ← _anthropic_content_blocks content;
    Some (omap (M := list) block_text blocks, [])
  else if json_is "tool" role then
    block ← tool_result_block message content;
    Some ([], [mkTurn "user" [block]])
  else if json_is "assistant" role then
    blocks ← _anthropic_content_blocks content;
    tool_calls ← field "tool_calls" message;
    calls ← iter_or_empty tool_calls;
    uses ← mapM tool_use_block calls;
    Some ([], turn_unless_empty "assistant" (blocks ++ uses))
  else
    blocks ← _anthropic_content_blocks content;
    Some ([], turn_unless_empty "user" blocks).

(** Consecutive turns of one role become one. *)
Definition merge_turn (merged : list Turn) (m : Turn) : list Turn :=
  match last merged with
  | Some t =>
      if decide (turn_role t = turn_role m)
      then removelast merged ++ [t <| turn_content := turn_content t ++ turn_content m |>]
      else merged ++ [m]
  | None => merged ++ [m]
  end.

Definition merge_turns (converted : list Turn) : list Turn := foldl merge_turn [] converted.

(** The turns and the system prompt. *)
Definition convert_messages_openai_to_anthropic (messages : Json) : option (list Turn * option string) :=
  messages ← py_iter messages;
  outputs ← mapM convert_message messages;
  let system_parts := concat (fst <$> outputs) in
  let merged := merge_turns (concat (snd <$> outputs)) in
  if decide (system_parts = []) then Some (merged, None)
  else
    texts ← mapM text_of system_parts;
    Some (merged, Some (join (String newline (String newline EmptyString)) texts)).

Definition put_if (key : string) (v : Json) (payload : json_dict) : json_dict :=
  if json_truthy v then dict_set key v payload else payload.

Definition sampling_params (openai_payload : json_dict) (rejects_sampling : bool) (payload : json_dict) : json_dict :=
  if rejects_sampling then payload
  else foldl (λ payload param, copy_param param param openai_payload payload) payload ["temperature"; "top_p"; "top_k"].

Definition stop_sequences_of (stop : Json) (payload : json_dict) : option json_dict :=
  if json_truthy stop then
    l ← (match stop with JStr s => Some [JStr s] | _ => py_iter stop end);
    Some (dict_set "stop_sequences" (JList l) payload)
  else Some payload.

Definition tools_of (openai_payload payload : json_dict) : option json_dict :=
  tools ← convert_tools_openai_to_anthropic (default JNull (dict_lookup "tools" openai_payload));
  if decide (tools = []) then Some payload
  else
    let payload := dict_set "tools" (JList tools) payload in
    tool_choice ← convert_tool_choice_openai_to_anthropic (default JNull (dict_lookup "tool_choice" openai_payload));
    Some (put_if "tool_choice" tool_choice payload).

Definition effort_of (effort : Json) (payload : json_dict) : json_dict :=
  if json_truthy effort then dict_set "output_config" (JDict [("effort", effort)]) payload else payload.

Definition convert_payload_openai_to_anthropic (openai_payload : json_dict) (default_max_tokens : Json)
    (supports_adaptive_thinking : bool) : option json_dict :=
  let get key := default JNull (dict_lookup key openai_payload) in
  '(messages, system) ← convert_messages_openai_to_anthropic (py_or (get "messages") (JList []));
  let payload := [("model", get "model"); ("messages", JList (turn_json <$> messages));
                  ("max_tokens", py_or (get "max_tokens") (py_or (get "max_completion_tokens") default_max_tokens));
                  ("stream", default (JBool false) (dict_lookup "stream" openai_payload))] in
  let payload := match truthy system with Some s => dict_set "system" (JStr s) payload | None => payload end in
  payload ← tools_of openai_payload payload;
  payload ← stop_sequences_of (get "stop") payload;
  let payload := if supports_adaptive_thinking
                 then dict_set "thinking" (JDict [("type", JStr "adaptive"); ("display", JStr "summarized")]) payload
                 else payload in
  let payload := effort_of (get "effort") payload in
  model_id ← text_of (py_or (get "model") (JStr ""));
  let rejects_sampling := existsb (λ p, starts_with p model_id) ANTHROPIC_NO_SAMPLING_PREFIXES in
  Some (sampling_params openai_payload rejects_sampling payload).
End to_anthropic.

(** ** Anthropic to OpenAI *)

Definition image_url_part (url : Json) : Json :=
  JDict [("type", JStr "image_url"); ("image_url", JDict [("url", url)])].

Section to_openai.
Context `{!Codec}.

(** The part of an image; [JNull] when it is dropped. *)
Definition _openai_image_part (source : Json) : option Json :=
  source_type ← field "type" source;
  if json_is "base64" source_type then
    data ← field "data" source;
    media_type ← field "media_type" source;
    Some (if json_truthy data
          then image_url_part (JStr ("data:" +:+ fstring (py_or media_type (JStr "image/png")) +:+ ";base64," +:+ fstring data))
          else JNull)
  else if json_is "url" source_type then
    url ← field "url" source;
    Some (if json_truthy url then image_url_part url else JNull)
  else Some JNull.

Definition _anthropic_system_text (system : Json) : option string :=
  match system with
  | JNull => Some ""
  | JStr s => Some s
  | _ =>
      blocks ← py_iter system;
      let parts := omap (λ block,
        match block with
        | JDict d =>
            let text := default JNull (dict_lookup "text" d) in
            if decide (dict_lookup "type" d = Some (JStr "text")) then
              if json_truthy text then Some text else None
            else None
        | _ => None
        end) blocks in
      join (String newline (String newline EmptyString)) <$> mapM text_of parts
  end.

Definition result_part (block : Json) : option string :=
  match block with
  | JStr s => Some s
  | JDict d =>
      if decide (dict_lookup "type" d = Some (JStr "text"))
      then text_of (py_or (default JNull (dict_lookup "text" d)) (JStr ""))
      else Some (json_dumps block)
  | _ => Some EmptyString
  end.

Definition _openai_tool_result_content (content : Json) : option string :=
  match content with
  | JNull => Some EmptyString
  | JStr s => Some s
  | _ => blocks ← py_iter content; join EmptyString <$> mapM result_part blocks
  end.

(** What a block of an assistant turn adds: texts, and tool calls. *)
Definition assistant_block (block : Json) : option (list Json * list Json) :=
  block_type ← field "type" block;
  if json_is "text" block_type then
    text ← field "text" block;
    Some (if json_truthy text then [text] else [], [])
  else if json_is "tool_use" block_type then
    id ← field "id" block;
    name ← field "name" block;
    input ← field "input" block;
    Some ([], [JDict [("id", id); ("type", JStr "function");
                      ("function", JDict [("name", name); ("arguments", JStr (json_dumps (py_or input (JDict []))))])]])
  else Some ([], []).

Definition assistant_message (content : list Json) : option (list Json) :=
  outputs ← mapM assistant_block content;
  let tool_calls := concat (snd <$> outputs) in
  texts ← mapM text_of (concat (fst <$> outputs));
  let text := join EmptyString texts in
  let assistant := [("role", JStr "assistant"); ("content", if decide (text = "") then JNull else JStr text)] in
  let assistant := if decide (tool_calls = []) then assistant else assistant ++ [("tool_calls", JList tool_calls)] in
  Some (if decide (text = "" ∧ tool_calls = []) then [] else [JDict assistant]).

(** What a block of a user turn adds: tool messages, and parts. *)
Definition user_block (block : Json) : option (list Json * list Json) :=
  block_type ← field "type" block;
  if json_is "text" block_type then
    text ← field "text" block;
    Some ([], if json_truthy text then [text_block text] else [])
  else if json_is "image" block_type then
    source ← field "source" block;
    part ← _openai_image_part (py_or source (JDict []));
    Some ([], if json_truthy part then [part] else [])
  else if json_is "tool_result" block_type then
    tool_use_id ← field "tool_use_id" block;
    content ← field "content" block;
    content ← _openai_tool_result_content content;
    Some ([JDict [("role", JStr "tool"); ("tool_call_id", tool_use_id); ("content", JStr content)]], [])
  else Some ([], []).

Definition user_messages (content : list Json) : option (list Json) :=
  outputs ← mapM user_block content;
  let tool_messages := concat (fst <$> outputs) in
  let parts := concat (snd <$> outputs) in
  if decide (parts = []) then Some tool_messages
  else
    match mapM block_text parts with
    | Some texts =>
        texts ← mapM text_of texts;
        Some (tool_messages ++ [JDict [("role", JStr "user"); ("content", JStr (join EmptyString texts))]])
    | None => Some (tool_messages ++ [JDict [("role", JStr "user"); ("content", JList parts)]])
    end.

Definition openai_messages (message : Json) : option (list Json) :=
  role ← field "role" message;
  content ← field "content" message;
  content ← (match content with
             | JStr s => Some (if decide (s = "") then [] else [text_block (JStr s)])
             | _ => iter_or_empty content
             end);
  if json_is "assistant" role then assistant_message content else user_messages content.

Definition convert_messages_anthropic_to_openai (messages system : Json) : option (list Json) :=
  system_text ← _anthropic_system_text system;
  messages ← iter_or_empty messages;
  outputs ← mapM openai_messages messages;
  Some ((if decide (system_text = "") then []
         else [JDict [("role", JStr "system"); ("content", JStr system_text)]]) ++ concat outputs).

Definition convert_payload_anthropic_to_openai (anthropic_payload : json_dict) : option json_dict :=
  let get key := default JNull (dict_lookup key anthropic_payload) in
  messages ← convert_messages_anthropic_to_openai (py_or (get "messages") (JList [])) (get "system");
  let payload := [("model", get "model"); ("messages", JList messages);
                  ("stream", JBool (json_truthy (default (JBool false) (dict_lookup "stream" anthropic_payload))))] in
  let payload := copy_param "max_tokens" "max_tokens" anthropic_payload payload in
  tools ← convert_tools_anthropic_to_openai (get "tools");
  let payload :=
    if decide (tools = []) then payload
    else
      let payload := dict_set "tools" (JList tools) payload in
      let tool_choice := convert_tool_choice_anthropic_to_openai (get "tool_choice") in
      if decide (tool_choice = JNull) then payload else dict_set "tool_choice" tool_choice payload in
  payload ← (if json_truthy (get "stop_sequences")
             then stop ← py_iter (get "stop_sequences"); Some (dict_set "stop" (JList stop) payload)
             else Some payload);
  Some (foldl (λ payload param, copy_param param param anthropic_payload payload) payload ["temperature"; "top_p"]).
End to_openai.
