(* ===== verification/Replies.v ===== *)
(** Replies of models in the OpenAI, Ollama and Anthropic formats, and their conversions,
    whole and streamed: [utils/response.py] and the templates of [utils/misc.py].

    A converter of a stream is a generator: it yields frames until it ends, returns or
    raises.  The frames are values; [openai_sse] and [anthropic_sse] are their text.
    A text is its UTF-8 encoding.  A piece of a body is text, or bytes that are decoded one
    piece at a time, with the replacement character for what is no character.  Counts of
    tokens are integers, and the rate of tokens and the source of fresh ids are
    parameters. *)

From Stdlib Require Import Ascii.
From stdpp Require Import pretty.
From S2P Require Import Prelude Data Formats.

(** ** Generators *)

(** The frames yielded, and what it ends with; [None] is an exception. *)
Definition gen (F A : Type) : Type := list F * option A.

#[export] Instance gen_ret F : MRet (gen F) := λ A x, ([], Some x).
#[export] Instance gen_bind F : MBind (gen F) := λ A B k m,
  match m.2 with
  | Some x => (m.1 ++ (k x).1, (k x).2)
  | None => (m.1, None)
  end.
Definition yield {F} (f : F) : gen F unit := ([f], Some tt).
Definition raise_unless {F A} (o : option A) : gen F A := ([], o).

(** How the handling of a line ends: the loop goes on, or the generator returns. *)
Inductive flow (St : Type) := Continue (st : St) | Return.
Arguments Continue {St} st.
Arguments Return {St}.

(** ** Pieces of a body *)

Definition in_range (r : nat * nat) (c : ascii) : bool :=
  bool_decide (r.1 ≤ nat_of_ascii c ∧ nat_of_ascii c ≤ r.2)%nat.

(** What has to follow the first byte of a character, as ranges of bytes; [None] for a byte
    no character starts with. *)
Definition following (c : ascii) : option (list (nat * nat)) :=
  let t := (128, 191)%nat in
  if in_range (0, 127)%nat c then Some []
  else if in_range (194, 223)%nat c then Some [t]
  else if in_range (224, 224)%nat c then Some [(160, 191)%nat; t]
  else if in_range (237, 237)%nat c then Some [(128, 159)%nat; t]
  else if in_range (225, 239)%nat c then Some [t; t]
  else if in_range (240, 240)%nat c then Some [(144, 191)%nat; t; t]
  else if in_range (241, 243)%nat c then Some [t; t; t]
  else if in_range (244, 244)%nat c then Some [(128, 143)%nat; t; t]
  else None.

(** U+FFFD *)
Definition replacement : string :=
  String (ascii_of_nat 239) (String (ascii_of_nat 191) (String (ascii_of_nat 189) EmptyString)).

(** [bytes.decode("utf-8", errors="replace")]: what was started of a character that does not
    go on as it has to is replaced, and decoding goes on with the byte that is in the way. *)
Fixpoint decode_from (begun : string) (expected : list (nat * nat)) (bytes : string) : string :=
  match bytes with
  | EmptyString => match expected with [] => EmptyString | _ => replacement end
  | String c rest =>
      let start :=
        match following c with
        | None => replacement +:+ decode_from EmptyString [] rest
        | Some [] => String c (decode_from EmptyString [] rest)
        | Some ranges => decode_from (String c EmptyString) ranges rest
        end in
      match expected with
      | [] => start
      | r :: ranges =>
          if in_range r c then
            match ranges with
            | [] => begun +:+ String c (decode_from EmptyString [] rest)
            | _ => decode_from (begun +:+ String c EmptyString) ranges rest
            end
          else replacement +:+ start
      end
  end.
Definition decode_replace (bytes : string) : string := decode_from EmptyString [] bytes.

(** Whole characters. *)
Fixpoint utf8_from (expected : list (nat * nat)) (bytes : string) : bool :=
  match bytes, expected with
  | EmptyString, [] => true
  | EmptyString, _ => false
  | String c rest, [] => match following c with Some ranges => utf8_from ranges rest | None => false end
  | String c rest, r :: ranges => in_range r c && utf8_from ranges rest
  end.
Definition is_utf8 (bytes : string) : bool := utf8_from [] bytes.

Lemma decode_utf8_from bytes begun expected :
  utf8_from expected bytes = true → (expected = [] → begun = EmptyString) → decode_from begun expected bytes = begun +:+ bytes.
Proof.
  revert begun expected. induction bytes as [|c bytes IH]; intros begun [|r ranges] Hu Hb; simpl in *; try done.
  - by rewrite Hb.
  - rewrite Hb by done. destruct (following c) as [[|r ranges]|]; [|by rewrite IH|done].
    by rewrite IH.
  - apply andb_true_iff in Hu as [-> Hu]. destruct ranges as [|r' ranges]; [by rewrite IH|].
    rewrite IH by done. by rewrite <- append_assoc.
Qed.

Lemma decode_utf8 bytes : is_utf8 bytes = true → decode_replace bytes = bytes.
Proof. intros Hu. by apply decode_utf8_from. Qed.

Inductive Raw := RawBytes (bytes : string) | RawText (text : string).

(** [if isinstance(raw, bytes): raw = raw.decode(...)] *)
Definition raw_text (raw : Raw) : string :=
  match raw with RawBytes bytes => decode_replace bytes | RawText text => text end.
(** What is on the wire, and whether a piece is cut between characters. *)
Definition raw_bytes (raw : Raw) : string := match raw with RawBytes bytes => bytes | RawText text => text end.
Definition is_whole (raw : Raw) : bool := match raw with RawBytes bytes => is_utf8 bytes | RawText _ => true end.

Lemma raw_whole body : Forall is_whole body → raw_text <$> body = raw_bytes <$> body.
Proof.
  intros Hw. apply list_fmap_ext. intros i [bytes|text] Hi; [|done]. apply decode_utf8, Is_true_true.
  by apply (Forall_lookup_1 _ _ _ _ Hw Hi).
Qed.

(** ** Lines of an event stream *)

Section lines.
Context {F St : Type} (handle : St → string → gen F (flow St)).

Fixpoint handle_lines (st : St) (lines : list string) : gen F (flow St) :=
  match lines with
  | [] => mret (Continue st)
  | line :: rest =>
      next ← handle st line;
      match next with Continue st => handle_lines st rest | Return => mret Return end
  end.

(** The [while] loop: the complete lines of the buffer are handled, the rest stays. *)
Definition take_lines (buffer : string) : list string * string :=
  let parts := split_on newline buffer in
  (removelast parts, List.last parts EmptyString).

Fixpoint handle_chunks (buffer : string) (st : St) (body : list Raw) : gen F (flow St) :=
  match body with
  | [] => mret (Continue st)
  | raw :: rest =>
      let '(lines, buffer) := take_lines (buffer +:+ raw_text raw) in
      next ← handle_lines st lines;
      match next with Continue st => handle_chunks buffer st rest | Return => mret Return end
  end.
End lines.

(** The payload of a [data:] line. *)
Definition data_payload (line : string) : option string :=
  let line := strip line in
  if starts_with "data:" line then truthy (Some (strip (removeprefix "data:" line))) else None.

(** ** Tables of reasons and usage *)

Definition ANTHROPIC_STOP_REASON_MAP : list (string * string) :=
  [("end_turn", "stop"); ("stop_sequence", "stop"); ("max_tokens", "length"); ("tool_use", "tool_calls");
   ("pause_turn", "stop"); ("refusal", "content_filter")].

Definition OPENAI_FINISH_REASON_MAP : list (string * string) :=
  [("stop", "end_turn"); ("length", "max_tokens"); ("tool_calls", "tool_use"); ("function_call", "tool_use");
   ("content_filter", "refusal")].

(** A key of a Python dict: [True] is [1]; lists and dicts are not hashable. *)
Definition dict_key (j : Json) : option Json :=
  match j with
  | JBool b => Some (JInt (if b then 1 else 0))
  | JList _ | JDict _ => None
  | _ => Some j
  end.

(** [table.get(reason, absent)] *)
Definition reason_of (table : list (string * string)) (absent : string) (reason : Json) : option string :=
  key ← dict_key reason;
  Some (match key with
        | JStr s => default absent (snd <$> find (λ r, bool_decide (r.1 = s)) table)
        | _ => absent
        end).

(** [usage.get(key, 0) or 0] *)
Definition tokens (key : string) (usage : json_dict) : Json :=
  py_or (default (JInt 0) (dict_lookup key usage)) (JInt 0).

Definition as_count (j : Json) : option Z :=
  match j with JInt n => Some n | JBool b => Some (if b then 1 else 0) | _ => None end.

Definition cache_fields (usage converted : json_dict) : json_dict :=
  foldl (λ converted key, match dict_lookup key usage with Some v => dict_set key v converted | None => converted end)
    converted ["cache_creation_input_tokens"; "cache_read_input_tokens"].

Definition _anthropic_usage_to_openai (usage : json_dict) : option json_dict :=
  prompt_tokens ← as_count (tokens "input_tokens" usage);
  completion_tokens ← as_count (tokens "output_tokens" usage);
  Some (cache_fields usage [("prompt_tokens", tokens "input_tokens" usage);
                            ("completion_tokens", tokens "output_tokens" usage);
                            ("total_tokens", JInt (prompt_tokens + completion_tokens))]).

Definition _openai_usage_to_anthropic (usage : json_dict) : json_dict :=
  cache_fields usage [("input_tokens", tokens "prompt_tokens" usage); ("output_tokens", tokens "completion_tokens" usage)].

(** [usage.update(other)], for a decoded dict. *)
Definition usage_update (usage : json_dict) (other : Json) : option json_dict :=
  match other with JDict d => Some (dict_update usage d) | _ => None end.

(** ** Whole replies *)

Section whole.
Context `{!Codec} (uuid4 : nat → string) (created : Z).

(** The template: an id, the model and one choice. *)
Definition openai_chat_message_template (model : Json) (choice : json_dict) (object : string) : json_dict :=
  [("id", JStr (fstring model +:+ "-" +:+ uuid4 0%nat)); ("created", JInt created); ("model", model);
   ("choices", JList [JDict choice]); ("object", JStr object)].

Definition with_usage (usage : option json_dict) (template : json_dict) : json_dict :=
  match usage with Some (u :: us) => template ++ [("usage", JDict (u :: us))] | _ => template end.

Definition openai_chat_chunk_message_template (model : Json) (message : Json) (usage : option json_dict) : json_dict :=
  with_usage usage
    (openai_chat_message_template model
       (if json_truthy message
        then [("index", JInt 0); ("logprobs", JNull); ("finish_reason", JNull); ("delta", JDict [("content", message)])]
        else [("index", JInt 0); ("logprobs", JNull); ("finish_reason", JStr "stop")])
       "chat.completion.chunk").

Definition openai_chat_completion_message_template (model : Json) (message : Json) (usage : option json_dict) : json_dict :=
  with_usage usage
    (openai_chat_message_template model
       ([("index", JInt 0); ("logprobs", JNull); ("finish_reason", JStr "stop")] ++
        match message with
        | JNull => []
        | _ => [("message", JDict [("content", message); ("role", JStr "assistant")])]
        end)
       "chat.completion").

Definition convert_response_ollama_to_openai (ollama_response : Json) : option json_dict :=
  model ← get_or "model" ollama_response (JStr "ollama");
  message ← get_or "message" ollama_response (JDict []);
  content ← get_or "content" message (JStr "");
  Some (openai_chat_completion_message_template model content None).

(** What a block adds: text, thinking, a tool call. *)
Inductive Part := PText (t : Json) | PThinking (t : Json) | PCall (call : Json).

Definition reply_part (block : Json) : option (option Part) :=
  block_type ← field "type" block;
  if json_is "text" block_type then
    text ← get_or "text" block (JStr "");
    Some (Some (PText text))
  else if json_is "thinking" block_type then
    thinking ← field "thinking" block;
    Some (if json_truthy thinking then Some (PThinking thinking) else None)
  else if json_is "tool_use" block_type then
    id ← field "id" block;
    name ← field "name" block;
    input ← get_or "input" block (JDict []);
    Some (Some (PCall (JDict [("id", id); ("type", JStr "function");
                              ("function", JDict [("name", name); ("arguments", JStr (json_dumps input))])])))
  else Some None.

Definition texts_of (parts : list Part) : list Json := omap (λ p, match p with PText t => Some t | _ => None end) parts.
Definition thinking_of (parts : list Part) : list Json := omap (λ p, match p with PThinking t => Some t | _ => None end) parts.
Definition calls_of (parts : list Part) : list Json := omap (λ p, match p with PCall c => Some c | _ => None end) parts.

(** [""] as [None]. *)
Definition text_or_null (s : string) : Json := if decide (s = "") then JNull else JStr s.

Definition reply_message (parts : list Part) : option json_dict :=
  texts ← mapM text_of (texts_of parts);
  thinking ← mapM text_of (thinking_of parts);
  let message := [("role", JStr "assistant"); ("content", text_or_null (join EmptyString texts))] in
  let message := if decide (thinking = []) then message
                 else message ++ [("reasoning_content", JStr (join EmptyString thinking))] in
  Some (if decide (calls_of parts = []) then message else message ++ [("tool_calls", JList (calls_of parts))]).

(** A fresh id is drawn even when the reply has one. *)
Definition convert_response_anthropic_to_openai (anthropic_response : Json) : option json_dict :=
  model ← get_or "model" anthropic_response (JStr "anthropic");
  content ← get_or "content" anthropic_response (JList []);
  blocks ← iter_or_empty content;
  parts ← mapM reply_part blocks;
  message ← reply_message (omap id parts);
  stop_reason ← field "stop_reason" anthropic_response;
  id ← get_or "id" anthropic_response (JStr ("chatcmpl-" +:+ uuid4 0%nat));
  finish_reason ← reason_of ANTHROPIC_STOP_REASON_MAP "stop" stop_reason;
  usage ← field "usage" anthropic_response;
  let response := [("id", id); ("object", JStr "chat.completion"); ("created", JInt created); ("model", model);
                   ("choices", JList [JDict [("index", JInt 0); ("message", JDict message); ("logprobs", JNull);
                                             ("finish_reason", JStr finish_reason)]])] in
  match usage with
  | JDict (u :: us) => usage ← _anthropic_usage_to_openai (u :: us); Some (response ++ [("usage", JDict usage)])
  | _ => if json_truthy usage then None else Some response
  end.

(** [_anthropic_message_id] *)
Definition _anthropic_message_id (openai_id : Json) : string :=
  match openai_id with
  | JStr s => if starts_with "msg_" s then s else "msg_" +:+ uuid4 0%nat
  | _ => "msg_" +:+ uuid4 0%nat
  end.

(** Text is parsed; other truthy values that are no dict raise. *)
Definition _anthropic_tool_input (arguments : Json) : option Json :=
  if is_dict arguments then Some arguments
  else if negb (json_truthy arguments) then Some (JDict [])
  else
    s ← text_of arguments;
    Some (match json_loads s with Some (JDict d) => JDict d | _ => JDict [] end).

(** The [n]-th call. *)
Definition reply_tool_use (n : nat) (call : Json) : option Json :=
  function ← field "function" call;
  let function := py_or function (JDict []) in
  id ← field "id" call;
  name ← field "name" function;
  arguments ← field "arguments" function;
  input ← _anthropic_tool_input arguments;
  Some (JDict [("type", JStr "tool_use"); ("id", py_or id (JStr ("toolu_" +:+ uuid4 n))); ("name", name); ("input", input)]).

Fixpoint reply_tool_uses (n : nat) (calls : list Json) : option (list Json) :=
  match calls with
  | [] => Some []
  | call :: rest => block ← reply_tool_use n call; blocks ← reply_tool_uses (S n) rest; Some (block :: blocks)
  end.

(** [(x.get("choices") or [{}])[0]] *)
Definition first_choice (j : Json) : option Json :=
  choices ← field "choices" j;
  if json_truthy choices then (match choices with JList l => head l | _ => None end) else Some (JDict []).

(** Every fresh id has a number of its own: the message's is [uuid4 0], that of the
    [n]-th call [uuid4 n]. *)
Definition convert_response_openai_to_anthropic (openai_response : Json) (model : option string) : option json_dict :=
  choice ← first_choice openai_response;
  message ← field "message" choice;
  let message := py_or message (JDict []) in
  text ← field "content" message;
  tool_calls ← field "tool_calls" message;
  calls ← iter_or_empty tool_calls;
  uses ← reply_tool_uses 1 calls;
  let content := (if json_truthy text then [text_block text] else []) ++ uses in
  let content := if decide (content = []) then [text_block (JStr "")] else content in
  id ← field "id" openai_response;
  own_model ← field "model" openai_response;
  finish_reason ← field "finish_reason" choice;
  stop_reason ← reason_of OPENAI_FINISH_REASON_MAP "end_turn" finish_reason;
  usage ← field "usage" openai_response;
  usage ← (match py_or usage (JDict []) with JDict d => Some d | _ => None end);
  Some [("id", JStr (_anthropic_message_id id)); ("type", JStr "message"); ("role", JStr "assistant");
        ("model", match truthy model with Some m => JStr m | None => own_model end);
        ("content", JList content); ("stop_reason", JStr stop_reason); ("stop_sequence", JNull);
        ("usage", JDict (_openai_usage_to_anthropic usage))].
End whole.

(** ** Ollama's stream *)

Section ollama_stream.
Context `{!Codec} (uuid4 : nat → string) (created : Z) (rate : Z → Z → Json).

Definition count_of (key : string) (data : Json) : option Z :=
  n ← get_or key data (JInt 0); as_count n.

(** Tokens per second, where the duration is known. *)
Definition speed (count duration : string) (data : Json) : option Json :=
  d ← count_of duration data;
  if decide (d > 0) then n ← count_of count data; Some (rate n d) else Some (JStr "N/A").

Definition seconds_text (s : Z) : string :=
  pretty (s `div` 3600) +:+ "h" +:+ pretty (s `mod` 3600 `div` 60) +:+ "m" +:+ pretty (s `mod` 60) +:+ "s".

Definition copied_count (key : string) (data : Json) : option (string * Json) :=
  v ← get_or key data (JInt 0); Some (key, v).

Definition ollama_usage (data : Json) : option json_dict :=
  response ← speed "eval_count" "eval_duration" data;
  prompt ← speed "prompt_eval_count" "prompt_eval_duration" data;
  counts ← mapM (λ key, copied_count key data)
    ["total_duration"; "load_duration"; "prompt_eval_count"; "prompt_eval_duration"; "eval_count"; "eval_duration"];
  total ← get_or "total_duration" data (JInt 0);
  total ← as_count (py_or total (JInt 0));
  Some ([("response_token/s", response); ("prompt_token/s", prompt)] ++ counts ++
        [("approximate_total", JStr (seconds_text (total `div` 1000000000)))]).

Definition ollama_chunk (n : nat) (line : string) : option Json :=
  data ← json_loads line;
  model ← get_or "model" data (JStr "ollama");
  message ← get_or "message" data (JDict []);
  message_content ← get_or "content" message (JStr "");
  done ← get_or "done" data (JBool false);
  usage ← (if json_truthy done then Some <$> ollama_usage data else Some None);
  Some (JDict (openai_chat_chunk_message_template (λ _, uuid4 n) created model
                 (if json_truthy done then JNull else message_content) usage)).

Definition data_line (s : string) : string := "data: " +:+ s +:+ String newline (String newline EmptyString).

Fixpoint ollama_lines (n : nat) (body : list string) : gen string unit :=
  match body with
  | [] => yield (data_line "[DONE]")
  | line :: rest =>
      data ← raise_unless (ollama_chunk n line);
      yield (data_line (json_dumps data));;
      ollama_lines (S n) rest
  end.

Definition convert_streaming_response_ollama_to_openai (body : list string) : gen string unit := ollama_lines 0 body.
End ollama_stream.

(** ** Anthropic's stream as OpenAI's *)

(** The [delta] of a chunk. *)
Inductive OpenAIDelta :=
| DRole
| DContent (text : Json)
| DReasoning (thinking : Json)
| DToolStart (index : nat) (id name : Json)
| DToolArguments (index : nat) (partial : Json)
| DNone.

Record OpenAIChunk := mkOpenAIChunk {
  ck_model : Json;
  ck_delta : OpenAIDelta;
  ck_finish_reason : option string;
  ck_usage : option json_dict
}.

Inductive OpenAIFrame := Chunk (c : OpenAIChunk) | Done.

Definition delta_json (d : OpenAIDelta) : Json :=
  match d with
  | DRole => JDict [("role", JStr "assistant")]
  | DContent text => JDict [("content", text)]
  | DReasoning thinking => JDict [("reasoning_content", thinking)]
  | DToolStart index id name =>
      JDict [("tool_calls", JList [JDict [("index", JInt (Z.of_nat index)); ("id", id); ("type", JStr "function");
                                          ("function", JDict [("name", name); ("arguments", JStr "")])]])]
  | DToolArguments index partial =>
      JDict [("tool_calls", JList [JDict [("index", JInt (Z.of_nat index));
                                          ("function", JDict [("arguments", partial)])]])]
  | DNone => JDict []
  end.

Section anthropic_chunk.
Context `{!Codec} (uuid4 : nat → string) (created : nat → Z).

(** The [n]-th chunk of the stream. *)
Definition _anthropic_chunk (n : nat) (c : OpenAIChunk) : Json :=
  JDict (with_usage (ck_usage c)
    [("id", JStr ("chatcmpl-" +:+ uuid4 n)); ("object", JStr "chat.completion.chunk"); ("created", JInt (created n));
     ("model", ck_model c);
     ("choices", JList [JDict [("index", JInt 0); ("delta", delta_json (ck_delta c)); ("logprobs", JNull);
                               ("finish_reason", from_option JStr JNull (ck_finish_reason c))]])]).

Definition openai_sse (n : nat) (f : OpenAIFrame) : string :=
  match f with
  | Chunk c => data_line (json_dumps (_anthropic_chunk n c))
  | Done => data_line "[DONE]"
  end.
End anthropic_chunk.

Record ToOpenAI := mkToOpenAI {
  ao_model : Json;
  ao_usage : json_dict;
  ao_finish_reason : option string;
  tool_index_by_block : list (Json * nat);
  next_tool_index : nat
}.
#[export] Instance to_openai_eta : Eta ToOpenAI := λ s,
  mkToOpenAI (ao_model s) (ao_usage s) (ao_finish_reason s) (tool_index_by_block s) (next_tool_index s).

Definition to_openai_init : ToOpenAI := mkToOpenAI (JStr "anthropic") [] None [] 0.

Definition assoc (key : Json) (l : list (Json * nat)) : option nat :=
  snd <$> find (λ kv, bool_decide (kv.1 = key)) l.

Section anthropic_stream.
Context `{!Codec}.

Definition chunk (s : ToOpenAI) (delta : OpenAIDelta) : gen OpenAIFrame unit :=
  yield (Chunk (mkOpenAIChunk (ao_model s) delta None None)).

Definition on_message_start (s : ToOpenAI) (event : Json) : gen OpenAIFrame (flow ToOpenAI) :=
  message ← raise_unless (get_or "message" event (JDict []));
  model ← raise_unless (get_or "model" message (ao_model s));
  message_usage ← raise_unless (field "usage" message);
  let s := s <| ao_model := model |> in
  usage ← raise_unless (if json_truthy message_usage then usage_update (ao_usage s) message_usage else Some (ao_usage s));
  let s := s <| ao_usage := usage |> in
  chunk s DRole;;
  mret (Continue s).

Definition on_block_start (s : ToOpenAI) (event : Json) : gen OpenAIFrame (flow ToOpenAI) :=
  block ← raise_unless (get_or "content_block" event (JDict []));
  type ← raise_unless (field "type" block);
  if json_is "tool_use" type then
    block_index ← raise_unless (get_or "index" event (JInt 0));
    block_index ← raise_unless (dict_key block_index);
    id ← raise_unless (field "id" block);
    name ← raise_unless (field "name" block);
    chunk s (DToolStart (next_tool_index s) id name);;
    mret (Continue (s <| tool_index_by_block := (block_index, next_tool_index s) :: tool_index_by_block s |>
                      <| next_tool_index := S (next_tool_index s) |>))
  else mret (Continue s).

Definition on_block_delta (s : ToOpenAI) (event : Json) : gen OpenAIFrame (flow ToOpenAI) :=
  delta_obj ← raise_unless (get_or "delta" event (JDict []));
  delta_type ← raise_unless (field "type" delta_obj);
  (if json_is "text_delta" delta_type then
     text ← raise_unless (field "text" delta_obj);
     if json_truthy text then chunk s (DContent text) else mret tt
   else if json_is "thinking_delta" delta_type then
     thinking ← raise_unless (field "thinking" delta_obj);
     if json_truthy thinking then chunk s (DReasoning thinking) else mret tt
   else if json_is "input_json_delta" delta_type then
     block_index ← raise_unless (get_or "index" event (JInt 0));
     block_index ← raise_unless (dict_key block_index);
     match assoc block_index (tool_index_by_block s) with
     | None => mret tt
     | Some tool_index =>
         partial ← raise_unless (get_or "partial_json" delta_obj (JStr ""));
         if json_truthy partial then chunk s (DToolArguments tool_index partial) else mret tt
     end
   else mret tt);;
  mret (Continue s).

Definition on_message_delta (s : ToOpenAI) (event : Json) : gen OpenAIFrame (flow ToOpenAI) :=
  delta ← raise_unless (get_or "delta" event (JDict []));
  stop_reason ← raise_unless (field "stop_reason" delta);
  finish_reason ← raise_unless (if json_truthy stop_reason
                                then Some <$> reason_of ANTHROPIC_STOP_REASON_MAP "stop" stop_reason
                                else Some (ao_finish_reason s));
  delta_usage ← raise_unless (field "usage" event);
  usage ← raise_unless (if json_truthy delta_usage then usage_update (ao_usage s) delta_usage else Some (ao_usage s));
  mret (Continue (s <| ao_finish_reason := finish_reason |> <| ao_usage := usage |>)).

Definition stream_error_text (message : Json) : Json :=
  JStr (String newline (String newline EmptyString) +:+ "Error: " +:+ fstring message).

Definition on_error (s : ToOpenAI) (event : Json) : gen OpenAIFrame (flow ToOpenAI) :=
  error ← raise_unless (get_or "error" event (JDict []));
  message ← raise_unless (get_or "message" error (JStr "Anthropic stream error"));
  yield (Chunk (mkOpenAIChunk (ao_model s) (DContent (stream_error_text message)) (Some "stop") None));;
  yield Done;;
  mret Return.

Definition on_message_stop (s : ToOpenAI) : gen OpenAIFrame (flow ToOpenAI) :=
  usage ← raise_unless (if decide (ao_usage s = []) then Some None else Some <$> _anthropic_usage_to_openai (ao_usage s));
  yield (Chunk (mkOpenAIChunk (ao_model s) DNone (Some (default "stop" (truthy (ao_finish_reason s)))) usage));;
  mret (Continue s).

Definition on_event (s : ToOpenAI) (event : Json) : gen OpenAIFrame (flow ToOpenAI) :=
  event_type ← raise_unless (field "type" event);
  if json_is "message_start" event_type then on_message_start s event
  else if json_is "content_block_start" event_type then on_block_start s event
  else if json_is "content_block_delta" event_type then on_block_delta s event
  else if json_is "message_delta" event_type then on_message_delta s event
  else if json_is "error" event_type then on_error s event
  else if json_is "message_stop" event_type then on_message_stop s
  else mret (Continue s).

Definition anthropic_line (s : ToOpenAI) (line : string) : gen OpenAIFrame (flow ToOpenAI) :=
  match data_payload line with
  | None => mret (Continue s)
  | Some payload =>
      match json_loads payload with
      | None => mret (Continue s)
      | Some event => on_event s event
      end
  end.

Definition convert_streaming_response_anthropic_to_openai (body : list Raw) : gen OpenAIFrame unit :=
  end_ ← handle_chunks anthropic_line "" to_openai_init body;
  match end_ with
  | Continue _ => yield Done
  | Return => mret tt
  end.
End anthropic_stream.

(** ** OpenAI's stream as Anthropic's *)

Inductive AnthropicBlock := TextBlock | ToolUseBlock (id name : Json).
Inductive AnthropicDelta := TextDelta (text : Json) | InputJsonDelta (partial : Json).

Inductive AnthropicEvent :=
| MessageStart (model : Json)
| BlockStart (index : nat) (block : AnthropicBlock)
| BlockDelta (index : nat) (delta : AnthropicDelta)
| BlockStop (index : nat)
| MessageDelta (stop_reason : string) (usage : json_dict)
| MessageStop.

Definition block_json (b : AnthropicBlock) : Json :=
  match b with
  | TextBlock => text_block (JStr "")
  | ToolUseBlock id name => JDict [("type", JStr "tool_use"); ("id", id); ("name", name); ("input", JDict [])]
  end.

Definition anthropic_delta_json (d : AnthropicDelta) : Json :=
  match d with
  | TextDelta text => JDict [("type", JStr "text_delta"); ("text", text)]
  | InputJsonDelta partial => JDict [("type", JStr "input_json_delta"); ("partial_json", partial)]
  end.

Definition event_name (e : AnthropicEvent) : string :=
  match e with
  | MessageStart _ => "message_start"
  | BlockStart _ _ => "content_block_start"
  | BlockDelta _ _ => "content_block_delta"
  | BlockStop _ => "content_block_stop"
  | MessageDelta _ _ => "message_delta"
  | MessageStop => "message_stop"
  end.

(** What an event carries besides its type. *)
Definition event_fields (message_id : string) (e : AnthropicEvent) : json_dict :=
  match e with
  | MessageStart model =>
      [("message", JDict [("id", JStr message_id); ("type", JStr "message"); ("role", JStr "assistant");
                          ("model", model); ("content", JList []); ("stop_reason", JNull); ("stop_sequence", JNull);
                          ("usage", JDict [("input_tokens", JInt 0); ("output_tokens", JInt 0)])])]
  | BlockStart index block => [("index", JInt (Z.of_nat index)); ("content_block", block_json block)]
  | BlockDelta index delta => [("index", JInt (Z.of_nat index)); ("delta", anthropic_delta_json delta)]
  | BlockStop index => [("index", JInt (Z.of_nat index))]
  | MessageDelta stop_reason usage =>
      [("delta", JDict [("stop_reason", JStr stop_reason); ("stop_sequence", JNull)]); ("usage", JDict usage)]
  | MessageStop => []
  end.

Definition event_json (message_id : string) (e : AnthropicEvent) : Json :=
  JDict (("type", JStr (event_name e)) :: event_fields message_id e).

(** The text of a frame. *)
Definition _sse `{!Codec} (event_type : string) (data : Json) : string :=
  "event: " +:+ event_type +:+ String newline ("data: " +:+ json_dumps data +:+ String newline (String newline EmptyString)).
Definition anthropic_sse `{!Codec} (message_id : string) (e : AnthropicEvent) : string :=
  _sse (event_name e) (event_json message_id e).

Inductive OpenBlock := text_open | tool_use_open.
#[export] Instance OpenBlock_eq_dec : EqDecision OpenBlock.
Proof. solve_decision. Defined.

Record ToAnthropic := mkToAnthropic {
  stream_model : Json;
  started : bool;
  next_index : nat;
  open_block : option OpenBlock;
  tool_block_index : list (Json * nat);
  oa_stop_reason : string;
  oa_usage : json_dict;
  oa_ids : nat
}.
#[export] Instance to_anthropic_eta : Eta ToAnthropic := λ s,
  mkToAnthropic (stream_model s) (started s) (next_index s) (open_block s) (tool_block_index s) (oa_stop_reason s)
    (oa_usage s) (oa_ids s).

Section openai_stream.
Context `{!Codec} (uuid4 : nat → string) (model : option string).

(** [uuid4 0] is the id of the message. *)
Definition message_id : string := "msg_" +:+ uuid4 0%nat.

Definition to_anthropic_init : ToAnthropic :=
  mkToAnthropic (JStr (default "self-ai" (truthy model))) false 0 None [] "end_turn" [] 1.

Definition start_message (s : ToAnthropic) : gen AnthropicEvent unit := yield (MessageStart (stream_model s)).
Definition close_block (index : nat) : gen AnthropicEvent unit := yield (BlockStop index).

Definition on_text (s : ToAnthropic) (text : Json) : gen AnthropicEvent ToAnthropic :=
  if json_truthy text then
    s ← (if decide (open_block s = Some tool_use_open)
         then close_block (pred (next_index s));; mret (s <| open_block := None |>) else mret s);
    s ← (if decide (open_block s = None)
         then yield (BlockStart (next_index s) TextBlock);;
              mret (s <| open_block := Some text_open |> <| next_index := S (next_index s) |>)
         else mret s);
    yield (BlockDelta (pred (next_index s)) (TextDelta text));;
    mret s
  else mret s.

(** The block of a tool call, opened when it is a new one. *)
Definition tool_block (s : ToAnthropic) (call_index call function : Json) : gen AnthropicEvent (nat * ToAnthropic) :=
  match assoc call_index (tool_block_index s) with
  | Some index => mret (index, s)
  | None =>
      (if decide (open_block s = None) then mret tt else close_block (pred (next_index s)));;
      id ← raise_unless (field "id" call);
      name ← raise_unless (field "name" function);
      let '(id, ids) := if json_truthy id then (id, oa_ids s) else (JStr ("toolu_" +:+ uuid4 (oa_ids s)), S (oa_ids s)) in
      yield (BlockStart (next_index s) (ToolUseBlock id name));;
      mret (next_index s,
            s <| tool_block_index := (call_index, next_index s) :: tool_block_index s |>
              <| open_block := Some tool_use_open |> <| next_index := S (next_index s) |> <| oa_ids := ids |>)
  end.

Definition on_call (s : ToAnthropic) (call : Json) : gen AnthropicEvent ToAnthropic :=
  call_index ← raise_unless (get_or "index" call (JInt 0));
  function ← raise_unless (field "function" call);
  let function := py_or function (JDict []) in
  call_index ← raise_unless (dict_key call_index);
  '(index, s) ← tool_block s call_index call function;
  arguments ← raise_unless (field "arguments" function);
  (if json_truthy arguments then yield (BlockDelta index (InputJsonDelta arguments)) else mret tt);;
  mret s.

Fixpoint on_calls (s : ToAnthropic) (calls : list Json) : gen AnthropicEvent ToAnthropic :=
  match calls with
  | [] => mret s
  | call :: rest => s ← on_call s call; on_calls s rest
  end.

Definition update_model (s : ToAnthropic) (chunk : Json) : option ToAnthropic :=
  match model with
  | Some _ => Some s
  | None => chunk_model ← field "model" chunk; Some (s <| stream_model := py_or chunk_model (stream_model s) |>)
  end.

Definition update_usage (s : ToAnthropic) (chunk : Json) : option ToAnthropic :=
  chunk_usage ← field "usage" chunk;
  if json_truthy chunk_usage
  then usage ← usage_update (oa_usage s) chunk_usage; Some (s <| oa_usage := usage |>) else Some s.

Definition on_chunk (s : ToAnthropic) (chunk : Json) : gen AnthropicEvent ToAnthropic :=
  s ← raise_unless (update_model s chunk);
  s ← raise_unless (update_usage s chunk);
  choice ← raise_unless (first_choice chunk);
  delta ← raise_unless (field "delta" choice);
  let delta := py_or delta (JDict []) in
  s ← (if started s then mret s else start_message s;; mret (s <| started := true |>));
  text ← raise_unless (field "content" delta);
  s ← on_text s text;
  tool_calls ← raise_unless (field "tool_calls" delta);
  calls ← raise_unless (iter_or_empty tool_calls);
  s ← on_calls s calls;
  finish_reason ← raise_unless (field "finish_reason" choice);
  if json_truthy finish_reason
  then stop_reason ← raise_unless (reason_of OPENAI_FINISH_REASON_MAP "end_turn" finish_reason);
       mret (s <| oa_stop_reason := stop_reason |>)
  else mret s.

Definition openai_line (s : ToAnthropic) (line : string) : gen AnthropicEvent (flow ToAnthropic) :=
  match data_payload line with
  | None => mret (Continue s)
  | Some payload =>
      if decide (payload = "[DONE]") then mret (Continue s)
      else
        match json_loads payload with
        | None => mret (Continue s)
        | Some chunk => s ← on_chunk s chunk; mret (Continue s)
        end
  end.

Definition finish (s : ToAnthropic) : gen AnthropicEvent unit :=
  (if started s then mret tt else start_message s);;
  (if decide (open_block s = None) then mret tt else close_block (pred (next_index s)));;
  yield (MessageDelta (oa_stop_reason s) (_openai_usage_to_anthropic (oa_usage s)));;
  yield MessageStop.

Definition convert_streaming_response_openai_to_anthropic (body : list Raw) : gen AnthropicEvent unit :=
  end_ ← handle_chunks openai_line "" to_anthropic_init body;
  match end_ with
  | Continue s => finish s
  | Return => mret tt
  end.
End openai_stream.
