(* ===== verification/GenFacts.v ===== *)
(** Generators, and reading an event stream line by line: where the chunks of the body are
    cut does not matter. *)

From Stdlib Require Import Ascii.
From stdpp Require Import countable.
From S2P Require Import Prelude Data Formats Replies.

Lemma gen_eq {F A} (m m' : gen F A) : m.1 = m'.1 → m.2 = m'.2 → m = m'.
Proof. destruct m, m'. simpl. by intros -> ->. Qed.

Lemma gen_bind_ret {F A B} (x : A) (k : A → gen F B) : mret x ≫= k = k x.
Proof. by apply gen_eq. Qed.

Lemma gen_bind_assoc {F A B C} (m : gen F A) (k : A → gen F B) (h : B → gen F C) :
  (m ≫= k) ≫= h = m ≫= (λ x, k x ≫= h).
Proof.
  unfold mbind, gen_bind. destruct m as [es [x|]]; simpl; [|done]. destruct (k x) as [es' [y|]]; simpl; [|done].
  apply gen_eq; simpl; [by rewrite (assoc_L (++))|done].
Qed.

Lemma gen_bind_ext {F A B} (m : gen F A) (k h : A → gen F B) : (∀ x, k x = h x) → m ≫= k = m ≫= h.
Proof. intros Hkh. unfold mbind, gen_bind. destruct m.2; [by rewrite Hkh|done]. Qed.

Lemma gen_raise_some {F A B} (o : option A) x (k : A → gen F B) : o = Some x → raise_unless o ≫= k = k x.
Proof. intros ->. by apply gen_eq. Qed.

Lemma gen_yield {F B} (f : F) (k : unit → gen F B) : yield f ≫= k = (f :: (k tt).1, (k tt).2).
Proof. done. Qed.

(** ** Lines *)

Lemma join_cons s l : join EmptyString (s :: l) = s +:+ join EmptyString l.
Proof. destruct l as [|s' l]; [by rewrite append_nil_r|done]. Qed.

Lemma join_app l l' : join EmptyString (l ++ l') = join EmptyString l +:+ join EmptyString l'.
Proof. induction l as [|s l IH]; [done|]. simpl (_ ++ _). by rewrite !join_cons, IH, append_assoc. Qed.

Lemma last_cons {A} (x : A) l d : l ≠ [] → List.last (x :: l) d = List.last l d.
Proof. by destruct l. Qed.

Lemma removelast_cons {A} (x : A) l : l ≠ [] → removelast (x :: l) = x :: removelast l.
Proof. by destruct l. Qed.

(** Text is cut where the text so far is, and its last part goes on. *)
Lemma take_lines_app a b :
  take_lines (a +:+ b) =
    ((take_lines a).1 ++ (take_lines ((take_lines a).2 +:+ b)).1, (take_lines ((take_lines a).2 +:+ b)).2).
Proof.
  unfold take_lines. induction a as [|x a IH]; [done|]. rewrite append_cons. simpl.
  pose proof (split_on_ne newline a) as Ha. pose proof (split_on_ne newline (a +:+ b)) as Hab.
  case_decide as Hx.
  - rewrite !(removelast_cons EmptyString), !(last_cons EmptyString) by done. simpl in IH.
    injection IH as IH1 IH2. simpl. by rewrite IH1, IH2.
  - simpl in IH. injection IH as IH1 IH2.
    destruct (split_on newline a) as [|w ws]; [done|]. destruct (split_on newline (a +:+ b)) as [|v vs]; [done|].
    destruct ws as [|w' ws].
    + simpl in *. rewrite decide_False by done.
      destruct (split_on newline (w +:+ b)) as [|u us] eqn:Hu; [by apply split_on_ne in Hu|].
      destruct vs as [|v' vs], us as [|u' us]; try done.
      * simpl in IH2. by rewrite IH2.
      * rewrite (removelast_cons u) in IH1 by done. rewrite (last_cons u) in IH2 by done. injection IH1 as -> IH1.
        rewrite (removelast_cons (String x u)), (last_cons (String x u)) by done. simpl in *.
        f_equal; [f_equal; exact IH1|exact IH2].
    + rewrite !(removelast_cons _ (w' :: ws)), !(last_cons _ (w' :: ws)) in * by done. simpl in IH1.
      destruct vs as [|v' vs]; [done|]. rewrite !(removelast_cons _ (v' :: vs)), !(last_cons _ (v' :: vs)) in * by done.
      injection IH1 as -> IH1. simpl in *. f_equal; [f_equal; exact IH1|exact IH2].
Qed.

Section lines.
Context {F St : Type} (handle : St → string → gen F (flow St)).

Lemma handle_lines_app st l l' :
  handle_lines handle st (l ++ l') =
    next ← handle_lines handle st l;
    match next with Continue st => handle_lines handle st l' | Return => mret Return end.
Proof.
  revert st. induction l as [|line l IH]; intros st; simpl; [by apply gen_eq|].
  rewrite gen_bind_assoc. apply gen_bind_ext. intros [st'|]; [done|by apply gen_eq].
Qed.

(** A line that is passed over. *)
Lemma handle_lines_skip st line lines :
  handle st line = mret (Continue st) → handle_lines handle st (line :: lines) = handle_lines handle st lines.
Proof. intros Hl. cbn [handle_lines]. rewrite Hl. by apply gen_eq. Qed.

Lemma handle_lines_one st line : handle_lines handle st [line] = handle st line.
Proof.
  cbn [handle_lines]. destruct (handle st line) as [out [[st'|]|]]; apply gen_eq; simpl; by rewrite ?app_nil_r.
Qed.

(** Reading a body in chunks handles its complete lines. *)
Lemma handle_chunks_lines buffer st body :
  (take_lines buffer).1 = [] →
  handle_chunks handle buffer st body =
    handle_lines handle st (take_lines (buffer +:+ join EmptyString (raw_text <$> body))).1.
Proof.
  revert buffer st. induction body as [|raw body IH]; intros buffer st Hb; cbn [handle_chunks].
  - change (join EmptyString (raw_text <$> [])) with EmptyString. by rewrite append_nil_r, Hb.
  - rewrite fmap_cons, join_cons, append_assoc, (take_lines_app (buffer +:+ raw_text raw)). cbn [fst snd].
    rewrite handle_lines_app. destruct (take_lines (buffer +:+ raw_text raw)) as [lines rest] eqn:Hl. cbn [fst snd].
    apply gen_bind_ext. intros [st'|]; [|done]. apply IH.
    pose proof (take_lines_app (buffer +:+ raw_text raw) EmptyString) as Happ. rewrite append_nil_r, Hl in Happ.
    cbn [fst snd] in Happ. rewrite append_nil_r in Happ. injection Happ as Happ _.
    change (lines = lines ++ (take_lines rest).1) in Happ.
    apply (f_equal length) in Happ. rewrite length_app in Happ. apply length_zero_iff_nil. lia.
Qed.

(** Where a body is cut does not matter, as long as it is between characters. *)
Lemma handle_chunks_cuts st body body' :
  Forall is_whole body → Forall is_whole body' →
  join EmptyString (raw_bytes <$> body) = join EmptyString (raw_bytes <$> body') →
  handle_chunks handle EmptyString st body = handle_chunks handle EmptyString st body'.
Proof.
  intros Hb Hb' Hj. rewrite !handle_chunks_lines by done. by rewrite (raw_whole body), (raw_whole body'), Hj.
Qed.
End lines.

(** ** Frames *)

Lemma string_of_list_app l l' :
  String.string_of_list_ascii (l ++ l') = String.string_of_list_ascii l +:+ String.string_of_list_ascii l'.
Proof. induction l as [|c l IH]; [done|]. simpl. by rewrite IH. Qed.

Lemma list_of_string_app s t :
  String.list_ascii_of_string (s +:+ t) = String.list_ascii_of_string s ++ String.list_ascii_of_string t.
Proof. induction s as [|c s IH]; [done|]. rewrite append_cons. simpl. by rewrite IH. Qed.

Lemma string_rev_involutive s : string_rev (string_rev s) = s.
Proof.
  unfold string_rev.
  by rewrite String.list_ascii_of_string_of_list_ascii, rev_involutive, String.string_of_list_ascii_of_string.
Qed.

Lemma string_rev_snoc s c : string_rev (s +:+ String c EmptyString) = String c (string_rev s).
Proof. unfold string_rev. by rewrite list_of_string_app, rev_app_distr. Qed.

(** Text that starts and ends with no white space. *)
Lemma strip_plain a s b : is_space a = false → is_space b = false →
  strip (String a (s +:+ String b EmptyString)) = String a (s +:+ String b EmptyString).
Proof.
  intros Ha Hb. unfold strip. cbn [lstrip]. rewrite Ha.
  change (String a (s +:+ String b EmptyString)) with (String a s +:+ String b EmptyString).
  rewrite string_rev_snoc. cbn [lstrip]. rewrite Hb. by rewrite <- string_rev_snoc, string_rev_involutive.
Qed.

Lemma strip_space a s : is_space a = true → strip (String a s) = strip s.
Proof. intros Ha. unfold strip. cbn [lstrip]. by rewrite Ha. Qed.

(** What is relied on of the JSON module: a document reads back, and a dict is printed in
    braces on one line. *)
Class CodecLaws (codec : Codec) : Prop := {
  loads_dumps : ∀ j, json_ok j → json_loads (json_dumps j) = Some j;
  dumps_dict : ∀ d, ∃ s, json_dumps (JDict d) = String "{" (s +:+ "}") ∧
                         all_chars (λ c, bool_decide (c ≠ newline)) s = true
}.

Lemma substring_all s m : (String.length s ≤ m)%nat → String.substring 0 m s = s.
Proof.
  revert m. induction s as [|c s IH]; intros [|m] Hm; simpl in *; try done; [lia|]. rewrite IH; [done|lia].
Qed.

Lemma removeprefix_app p s : removeprefix p (p +:+ s) = s.
Proof.
  unfold removeprefix. rewrite (proj2 (starts_with_spec p (p +:+ s))) by eauto.
  assert (∀ m, (String.length s ≤ m)%nat → String.substring (String.length p) m (p +:+ s) = s) as H.
  { induction p as [|c p IH]; intros m Hm; [by apply substring_all|by apply IH]. }
  apply H. clear H. induction p as [|c p IH]; [done|]. rewrite append_cons. simpl. lia.
Qed.

Lemma data_payload_line s : data_payload ("data: " +:+ String "{" (s +:+ "}")) = Some (String "{" (s +:+ "}")).
Proof.
  unfold data_payload.
  change ("data: " +:+ String "{" (s +:+ "}")) with (String "d" (("ata: {" +:+ s) +:+ String "}" EmptyString)).
  rewrite strip_plain by done.
  change (String "d" (("ata: {" +:+ s) +:+ "}")) with ("data:" +:+ String " " (String "{" (s +:+ "}"))).
  rewrite (proj2 (starts_with_spec "data:" _)) by eauto. by rewrite removeprefix_app, strip_space, strip_plain.
Qed.

Lemma take_line_app l s :
  all_chars (λ c, bool_decide (c ≠ newline)) l = true →
  take_lines (l +:+ String newline s) = (l :: (take_lines s).1, (take_lines s).2).
Proof.
  intros Hl. unfold take_lines. rewrite split_on_app, split_on_plain by done. simpl.
  pose proof (split_on_ne newline s). by destruct (split_on newline s).
Qed.

(** The lines of a frame. *)
Definition plain_line (l : string) : Prop := all_chars (λ c, bool_decide (c ≠ newline)) l = true.

Lemma take_data_line `{!CodecLaws codec} j : is_dict j = true →
  take_lines (data_line (json_dumps j)) = (["data: " +:+ json_dumps j; EmptyString], EmptyString).
Proof.
  intros Hj. destruct j; try done. destruct (dumps_dict d) as (s & Hs & Hnl). unfold data_line.
  rewrite append_assoc, take_line_app; [done|]. rewrite Hs, !all_chars_app. simpl. by rewrite all_chars_app, Hnl.
Qed.

Lemma data_payload_dumps `{!CodecLaws codec} j : is_dict j = true →
  data_payload ("data: " +:+ json_dumps j) = Some (json_dumps j).
Proof.
  intros Hj. destruct j; try done. destruct (dumps_dict d) as (s & -> & _). apply data_payload_line.
Qed.

Lemma data_payload_blank : data_payload EmptyString = None.
Proof. done. Qed.

(** ** Lookups *)

Lemma assoc_cons k k' i l : assoc k ((k', i) :: l) = if decide (k' = k) then Some i else assoc k l.
Proof.
  unfold assoc. simpl. case_decide as Hk; [by rewrite bool_decide_true|by rewrite bool_decide_false].
Qed.

(** ** Documents *)

Ltac solve_json_ok :=
  repeat first
    [ apply json_ok_leaf; done
    | apply json_ok_list
    | apply json_ok_dict; [apply (bool_decide_unpack _); by vm_compute|]
    | apply List.Forall_nil
    | apply List.Forall_cons; simpl ].

(** ** A JSON module

    One that satisfies what is relied on: documents are printed as the digits of their number
    in an enumeration, dicts in braces. *)

Fixpoint print_positive (p : positive) : string :=
  match p with
  | xH => ""
  | xO p => String "0" (print_positive p)
  | xI p => String "1" (print_positive p)
  end.

Fixpoint parse_positive (s : string) : option positive :=
  match s with
  | EmptyString => Some xH
  | String "}" EmptyString => Some xH
  | String "0" s => xO <$> parse_positive s
  | String "1" s => xI <$> parse_positive s
  | _ => None
  end.

Definition sample_dumps (j : Json) : string :=
  let digits := print_positive (encode j) in
  if is_dict j then String "{" (digits +:+ "}") else digits.

Definition sample_loads (s : string) : option Json :=
  let digits := match s with String "{" s => s | _ => s end in
  p ← parse_positive digits; decode p.

#[export] Instance sample_codec : Codec :=
  {| json_dumps := sample_dumps; json_loads := sample_loads; py_repr := sample_dumps |}.

Lemma parse_print p : parse_positive (print_positive p) = Some p.
Proof. induction p as [p IH|p IH|]; simpl; [by rewrite IH|by rewrite IH|done]. Qed.

Lemma parse_print_brace p : parse_positive (print_positive p +:+ "}") = Some p.
Proof. induction p as [p IH|p IH|]; simpl; [by rewrite IH|by rewrite IH|done]. Qed.

Lemma print_positive_plain p : all_chars (λ c, bool_decide (c ≠ newline)) (print_positive p) = true.
Proof. by induction p. Qed.

#[export] Instance sample_codec_laws : CodecLaws sample_codec.
Proof.
  split.
  - intros j _. simpl. unfold sample_loads, sample_dumps. destruct (is_dict j).
    + by rewrite parse_print_brace; simpl; rewrite decode_encode.
    + assert (match print_positive (encode j) with String "{" s => s | _ => print_positive (encode j) end
              = print_positive (encode j)) as -> by (by destruct (encode j)).
      rewrite parse_print. simpl. by rewrite decode_encode.
  - intros d. exists (print_positive (encode (JDict d))). split; [done|apply print_positive_plain].
Qed.

#[export] Instance sample_casts : Casts := {| py_float := Some; py_int_of := Some; unicode_escape := Some |}.

Definition sample_uuid (n : nat) : string := print_positive (Pos.of_succ_nat n).
