(* ===== verification/RequestContract.v ===== *)
(** Requests: what is sent to Anthropic is a conversation it accepts, and a request in its
    format that is served through the OpenAI pipeline arrives as it was made. *)

From Stdlib Require Import Ascii.
From S2P Require Import Prelude Data Formats Replies GenFacts.

(** ** Merging turns *)

(** No two consecutive turns have the same role. *)
Fixpoint alternate (l : list Turn) : Prop :=
  match l with
  | t :: (t' :: _) as rest => turn_role t ≠ turn_role t' ∧ alternate rest
  | _ => True
  end.

(** Every block with the role it is said in. *)
Definition tagged (l : list Turn) : list (string * Json) :=
  concat ((λ t, (λ b, (turn_role t, b)) <$> turn_content t) <$> l).

Definition turn_ok (t : Turn) : Prop :=
  (turn_role t = "user" ∨ turn_role t = "assistant") ∧ turn_content t ≠ [].

Lemma alternate_snoc l t t' : alternate (l ++ [t]) → turn_role t ≠ turn_role t' → alternate (l ++ [t; t']).
Proof.
  induction l as [|x l IH]; intros Hl Hne; simpl in *; [done|].
  destruct l as [|y l]; simpl in *; [naive_solver|]. destruct Hl as [Hxy Hl]. split; [done|]. by apply IH.
Qed.

Lemma alternate_last l t t' : turn_role t = turn_role t' → alternate (l ++ [t]) → alternate (l ++ [t']).
Proof.
  intros Hr. induction l as [|x l IH]; simpl; [done|]. destruct l as [|y l]; simpl in *; [by rewrite Hr|].
  intros [Hxy Hl]. split; [done|]. by apply IH.
Qed.

Lemma merge_turn_snoc l t m :
  merge_turn (l ++ [t]) m =
    if decide (turn_role t = turn_role m)
    then l ++ [t <| turn_content := turn_content t ++ turn_content m |>] else l ++ [t; m].
Proof.
  unfold merge_turn. rewrite last_snoc. case_decide; [by rewrite removelast_last|].
  by rewrite <- (assoc_L (++)).
Qed.

Lemma merge_turn_spec merged m :
  alternate merged → Forall turn_ok merged → turn_ok m →
  alternate (merge_turn merged m) ∧ Forall turn_ok (merge_turn merged m) ∧
  tagged (merge_turn merged m) = tagged merged ++ tagged [m].
Proof.
  destruct merged as [|t l _] using rev_ind; intros Halt Hok Hm.
  { split; [done|]. split; [|done]. by apply List.Forall_cons. }
  rewrite merge_turn_snoc. apply Forall_app in Hok as [Hl [Ht _]%Forall_cons]. case_decide as Hr.
  - split; [by apply (alternate_last l t)|]. split.
    + apply Forall_app. split; [done|]. constructor; [|done]. destruct Ht as [Hrole Hc]. split; [done|].
      simpl. by destruct (turn_content t).
    + unfold tagged. rewrite !fmap_app, !concat_app. simpl. rewrite !app_nil_r, fmap_app, <- (assoc_L (++)), Hr. done.
  - split; [by apply alternate_snoc|]. split; [by apply Forall_app; split; [|apply List.Forall_cons; [|apply List.Forall_cons]]|].
    unfold tagged. rewrite !fmap_app, !concat_app. simpl. by rewrite !app_nil_r, <- (assoc_L (++)).
Qed.

Lemma merge_turns_spec converted : ∀ merged,
  alternate merged → Forall turn_ok merged → Forall turn_ok converted →
  alternate (foldl merge_turn merged converted) ∧ Forall turn_ok (foldl merge_turn merged converted) ∧
  tagged (foldl merge_turn merged converted) = tagged merged ++ tagged converted.
Proof.
  induction converted as [|m converted IH]; intros merged Halt Hok Hnew; simpl; [by rewrite app_nil_r|].
  apply Forall_cons in Hnew as [Hm Hnew]. destruct (merge_turn_spec merged m Halt Hok Hm) as (Ha & Ho & Ht).
  destruct (IH _ Ha Ho Hnew) as (Ha' & Ho' & Ht'). split; [done|]. split; [done|]. rewrite Ht', Ht.
  unfold tagged. simpl. by rewrite app_nil_r, <- (assoc_L (++)).
Qed.

(** ** What a message adds *)

Section messages.
Context {codec : Codec}.

Lemma turn_unless_empty_ok role blocks : role = "user" ∨ role = "assistant" → Forall turn_ok (turn_unless_empty role blocks).
Proof. intros Hr. unfold turn_unless_empty. case_decide; [constructor|]. by apply List.Forall_cons. Qed.

Lemma convert_message_ok m texts turns : convert_message m = Some (texts, turns) → Forall turn_ok turns.
Proof.
  unfold convert_message. destruct (field "role" m) as [role|]; simpl; [|done].
  destruct (field "content" m) as [content|]; simpl; [|done].
  destruct (json_is "system" role).
  { destruct (_anthropic_content_blocks content); simpl; [|done]. by intros [= <- <-]. }
  destruct (json_is "tool" role).
  { destruct (tool_result_block m content); simpl; [|done]. intros [= <- <-].
    apply List.Forall_cons; [|done]. split; [by left|done]. }
  destruct (_anthropic_content_blocks content) as [blocks|]; simpl; [|by destruct (json_is "assistant" role)].
  destruct (json_is "assistant" role).
  - destruct (field "tool_calls" m) as [tc|]; simpl; [|done]. destruct (iter_or_empty tc) as [calls|]; simpl; [|done].
    destruct (mapM tool_use_block calls) as [uses|]; simpl; [|done]. intros [= <- <-].
    apply turn_unless_empty_ok. by right.
  - intros [= <- <-]. apply turn_unless_empty_ok. by left.
Qed.

End messages.

(** C39: Whatever messages are converted, the conversation sent to Anthropic alternates
    between the user and the assistant, no turn of it is empty, and its blocks are those of
    the messages, each under the role it was said in, in order. *)
Theorem conversations_alternate {codec : Codec} (messages : Json) :
  match convert_messages_openai_to_anthropic messages with
  | Some (turns, _) =>
      alternate turns ∧ Forall turn_ok turns ∧
      ∃ l outputs, py_iter messages = Some l ∧ mapM convert_message l = Some outputs ∧
        tagged turns = tagged (concat (snd <$> outputs))
  | None => True
  end.
Proof.
  unfold convert_messages_openai_to_anthropic. destruct (py_iter messages) as [l|]; simpl; [|done].
  destruct (mapM convert_message l) as [outputs|] eqn:Hout; simpl; [|done].
  assert (Hok : Forall turn_ok (concat (snd <$> outputs))).
  { apply mapM_Some in Hout. induction Hout as [|m [texts turns] l outputs Hm _ IH]; [constructor|].
    apply Forall_app. split; [by eapply convert_message_ok|done]. }
  destruct (merge_turns_spec _ [] I (List.Forall_nil _) Hok) as (Ha & Ho & Ht).
  assert (H : alternate (merge_turns (concat (snd <$> outputs))) ∧
    Forall turn_ok (merge_turns (concat (snd <$> outputs))) ∧
    ∃ l' outputs', Some l = Some l' ∧ mapM convert_message l' = Some outputs' ∧
      tagged (merge_turns (concat (snd <$> outputs))) = tagged (concat (snd <$> outputs'))) by eauto 10.
  case_decide; [exact H|]. by destruct (mapM text_of _); simpl.
Qed.
