(* ===== verification/RequestRoundTrip.v ===== *)
(** A request in the Anthropic format, converted to the OpenAI format and back, is the
    request that was made. *)

From Stdlib Require Import Ascii.
From S2P Require Import Prelude Data Formats Replies GenFacts RequestContract.

(** ** Conversations *)

Inductive UserPart := UText (text : string) | UImage (media_type data : string) | UImageUrl (url : string).

(** A turn: the results of tools and then what the user says, or what the assistant says and
    then the tools it calls. *)
Inductive Say :=
| User (results : list (string * string)) (parts : list UserPart)
| Assistant (text : string) (calls : list (string * string * json_dict)).

Definition part_json (p : UserPart) : Json :=
  match p with
  | UText t => text_block (JStr t)
  | UImage m d => JDict [("type", JStr "image");
                         ("source", JDict [("type", JStr "base64"); ("media_type", JStr m); ("data", JStr d)])]
  | UImageUrl u => JDict [("type", JStr "image"); ("source", JDict [("type", JStr "url"); ("url", JStr u)])]
  end.

Definition result_json (r : string * string) : Json :=
  JDict [("type", JStr "tool_result"); ("tool_use_id", JStr r.1); ("content", JStr r.2)].

Definition call_json (c : string * string * json_dict) : Json :=
  JDict [("type", JStr "tool_use"); ("id", JStr c.1.1); ("name", JStr c.1.2); ("input", JDict c.2)].

Definition said (text : string) : list Json := if decide (text = "") then [] else [text_block (JStr text)].

Definition say_turn (s : Say) : Turn :=
  match s with
  | User results parts => mkTurn "user" ((result_json <$> results) ++ (part_json <$> parts))
  | Assistant text calls => mkTurn "assistant" (said text ++ (call_json <$> calls))
  end.

(** Conversations as clients make them: no turn is empty, no text is, several texts are not
    said side by side without an image, and the addresses of images are not data. *)
Definition part_ok (p : UserPart) : Prop :=
  match p with
  | UText t => t ≠ ""
  | UImage m d => m ≠ "" ∧ d ≠ "" ∧ all_chars (λ c, bool_decide (c ≠ ","%char)) m = true ∧
                  all_chars (λ c, bool_decide (c ≠ ";"%char)) m = true
  | UImageUrl u => u ≠ "" ∧ starts_with "data:" u = false
  end.

Definition is_image (p : UserPart) : bool := match p with UText _ => false | _ => true end.

Definition say_ok (s : Say) : Prop :=
  match s with
  | User results parts =>
      (results ≠ [] ∨ parts ≠ []) ∧ Forall part_ok parts ∧
      (existsb is_image parts = true ∨ (length parts ≤ 1)%nat)
  | Assistant text calls => (text ≠ "" ∨ calls ≠ []) ∧ Forall (λ c, json_ok (JDict c.2)) calls
  end.

(** The messages of a turn in the OpenAI format. *)
Definition openai_part (p : UserPart) : Json :=
  match p with
  | UText t => text_block (JStr t)
  | UImage m d => image_url_part (JStr ("data:" +:+ m +:+ ";base64," +:+ d))
  | UImageUrl u => image_url_part (JStr u)
  end.

Definition tool_message (r : string * string) : Json :=
  JDict [("role", JStr "tool"); ("tool_call_id", JStr r.1); ("content", JStr r.2)].

Definition parts_content (parts : list UserPart) : Json :=
  match parts with
  | [UText t] => JStr t
  | _ => JList (openai_part <$> parts)
  end.

Definition user_message (parts : list UserPart) : list Json :=
  match parts with
  | [] => []
  | _ => [JDict [("role", JStr "user"); ("content", parts_content parts)]]
  end.

Section conversation.
Context {codec : Codec} {laws : CodecLaws codec}.

Definition openai_call (c : string * string * json_dict) : Json :=
  JDict [("id", JStr c.1.1); ("type", JStr "function");
         ("function", JDict [("name", JStr c.1.2); ("arguments", JStr (json_dumps (JDict c.2)))])].

Definition assistant_said (text : string) (calls : list (string * string * json_dict)) : Json :=
  let m := [("role", JStr "assistant"); ("content", if decide (text = "") then JNull else JStr text)] in
  JDict (if decide (calls = []) then m else m ++ [("tool_calls", JList (openai_call <$> calls))]).

Definition say_messages (s : Say) : list Json :=
  match s with
  | User results parts => (tool_message <$> results) ++ user_message parts
  | Assistant text calls => [assistant_said text calls]
  end.

Lemma mapM_fmap_some {A B C} (g : A → B) (f : B → option C) (h : A → C) l :
  (∀ x, x ∈ l → f (g x) = Some (h x)) → mapM f (g <$> l) = Some (h <$> l).
Proof.
  intros H. apply mapM_Some, Forall2_fmap, Forall2_same_length_lookup. split; [done|].
  intros i x y Hx Hy. assert (x = y) as <- by congruence. apply H. by eapply list_elem_of_lookup_2.
Qed.

(** ** To the OpenAI format *)

Lemma user_block_result r : user_block (result_json r) = Some ([tool_message r], []).
Proof. by destruct r as [id c]. Qed.

Lemma user_block_part p : part_ok p → user_block (part_json p) = Some ([], [openai_part p]).
Proof.
  destruct p as [t|m d|u]; simpl.
  - intros Ht. destruct t; [done|reflexivity].
  - intros (Hm & Hd & _ & _). destruct m, d; try done. 
  - intros [Hu _]. destruct u; [done|reflexivity].
Qed.

Lemma concat_singletons {A B} (f : A → B) l : concat ((λ x, [f x]) <$> l) = f <$> l.
Proof. induction l as [|x l IH]; [done|]. csimpl. by rewrite IH. Qed.

Lemma concat_nils {A B} (l : list A) : concat ((λ _, []) <$> l) = ([] : list B).
Proof. by induction l. Qed.

Lemma block_texts_image parts : existsb is_image parts = true → mapM block_text (openai_part <$> parts) = None.
Proof.
  intros Hi. induction parts as [|p parts IH]; [done|].
  destruct p as [t|m d|u]; [|done|done].
  transitivity (y ← Some (JStr t); k ← mapM block_text (openai_part <$> parts); Some (y :: k)); [done|].
  by rewrite IH.
Qed.

Lemma user_to_openai results parts : say_ok (User results parts) →
  openai_messages (turn_json (say_turn (User results parts))) = Some (say_messages (User results parts)).
Proof.
  intros (Hne & Hok & Himg). unfold openai_messages. simpl.
  assert (iter_or_empty (JList ((result_json <$> results) ++ (part_json <$> parts))) =
    Some ((result_json <$> results) ++ (part_json <$> parts))) as ->.
  { unfold iter_or_empty, py_or. simpl. case_bool_decide as Hl; [done|].
    destruct results, parts; simpl in *; try lia. naive_solver. }
  simpl. unfold user_messages.
  assert (mapM user_block ((result_json <$> results) ++ (part_json <$> parts)) =
    Some (((λ r, ([tool_message r], [])) <$> results) ++ ((λ p, ([], [openai_part p])) <$> parts))) as ->.
  { apply mapM_Some, Forall2_app; apply mapM_Some, mapM_fmap_some.
    - intros r _. apply user_block_result.
    - intros p Hp. apply user_block_part. by rewrite Forall_forall in Hok; apply Hok. }
  simpl. rewrite !fmap_app, !concat_app, <- !list_fmap_compose. unfold compose. simpl.
  rewrite !concat_singletons, !concat_nils, app_nil_r. simpl.
  destruct parts as [|p parts]; [simpl; by rewrite app_nil_r|].
  rewrite decide_False by done. destruct Himg as [Himg|Hlen].
  - rewrite block_texts_image by done. simpl in *. by destruct p, parts.
  - destruct parts; [|simpl in Hlen; lia]. destruct p as [t|m d|u]; try done.
Qed.

Lemma assistant_block_text text : text ≠ "" → assistant_block (text_block (JStr text)) = Some ([JStr text], []).
Proof. intros Ht. by destruct text. Qed.

Lemma assistant_block_call c : assistant_block (call_json c) = Some ([], [openai_call c]).
Proof. by destruct c as [[id name] [|kv d]]. Qed.

Lemma assistant_to_openai text calls : say_ok (Assistant text calls) →
  openai_messages (turn_json (say_turn (Assistant text calls))) = Some (say_messages (Assistant text calls)).
Proof.
  intros (Hne & _). unfold openai_messages. simpl.
  assert (iter_or_empty (JList (said text ++ (call_json <$> calls))) = Some (said text ++ (call_json <$> calls))) as ->.
  { unfold iter_or_empty, py_or, said. simpl. case_bool_decide as Hl; [done|].
    case_decide; destruct calls; simpl in *; try lia. naive_solver. }
  simpl. unfold assistant_message.
  assert (mapM assistant_block (said text ++ (call_json <$> calls)) =
    Some ((if decide (text = "") then [] else [([JStr text], [])]) ++ ((λ c, ([], [openai_call c])) <$> calls))) as ->.
  { apply mapM_Some, Forall2_app; apply mapM_Some.
    - unfold said. case_decide; [done|]. apply mapM_Some. constructor; [by apply assistant_block_text|constructor].
    - apply mapM_fmap_some. intros c _. apply assistant_block_call. }
  simpl. rewrite !fmap_app, !concat_app, <- !list_fmap_compose. unfold compose. simpl.
  rewrite concat_singletons, concat_nils, app_nil_r. unfold assistant_said.
  case_decide as Ht; simpl.
  - subst text. destruct calls; [naive_solver|]. rewrite (decide_False (P := _ ∧ _)) by naive_solver. done.
  - rewrite (decide_False (P := _ ∧ _)), (decide_False (P := text = "")) by naive_solver. by destruct calls.
Qed.

Lemma say_to_openai s : say_ok s → openai_messages (turn_json (say_turn s)) = Some (say_messages s).
Proof. destruct s; [apply user_to_openai|apply assistant_to_openai]. Qed.

(** ** Back *)

Lemma partition_at_app c a b : all_chars (λ x, bool_decide (x ≠ c)) a = true → partition_at c (a +:+ String c b) = Some (a, b).
Proof.
  induction a as [|x a IH]; simpl; [by rewrite decide_True|]. intros [Hx%bool_decide_eq_true Ha]%andb_true_iff.
  rewrite decide_False by done. by rewrite IH.
Qed.

Lemma image_block_of url header first data media_type :
  starts_with "data:" url = true → partition_at ","%char url = Some (header, data) →
  head (split_on ";"%char header) = Some first → removeprefix "data:" first = media_type → media_type ≠ "" →
  _anthropic_image_block (JStr url) = Some (part_json (UImage media_type data)).
Proof.
  intros Hurl Hp Hs Hr Hm. unfold _anthropic_image_block.
  assert (json_truthy (JStr url) = true) as -> by (by destruct url). cbn [negb text_of json_str mbind option_bind].
  rewrite Hurl, Hp, Hs. simpl. rewrite Hr. by destruct media_type.
Qed.

Lemma part_back p : part_ok p → part_blocks (openai_part p) = Some [part_json p].
Proof.
  destruct p as [t|m d|u]; intros Hok.
  - destruct t; [done|reflexivity].
  - destruct Hok as (Hm & Hd & Hcomma & Hsemi).
    assert (Hb : _anthropic_image_block (JStr ("data:" +:+ m +:+ ";base64," +:+ d)) = Some (part_json (UImage m d))).
    { apply (image_block_of _ (("data:" +:+ m) +:+ ";base64") ("data:" +:+ m)); [| | |apply removeprefix_app|done].
      - apply starts_with_spec. eauto.
      - change (";base64," +:+ d) with (";base64" +:+ String "," d). rewrite (append_assoc m), (append_assoc "data:"),
          (append_assoc "data:" m).
        apply partition_at_app. rewrite !all_chars_app, Hcomma. done.
      - change (";base64") with (String ";" "base64"). rewrite split_on_app, split_on_plain; [done|].
        rewrite all_chars_app, Hsemi. done. }
    change (part_blocks (openai_part (UImage m d))) with
      (block ← _anthropic_image_block (JStr ("data:" +:+ m +:+ ";base64," +:+ d));
       Some (if json_truthy block then [block] else [])).
    by rewrite Hb.
  - destruct Hok as [Hu Hd].
    assert (Hb : _anthropic_image_block (JStr u) = Some (part_json (UImageUrl u))).
    { unfold _anthropic_image_block. assert (json_truthy (JStr u) = true) as -> by (by destruct u).
      cbn [negb text_of json_str mbind option_bind]. by rewrite Hd. }
    change (part_blocks (openai_part (UImageUrl u))) with
      (block ← _anthropic_image_block (JStr u); Some (if json_truthy block then [block] else [])).
    by rewrite Hb.
Qed.

Lemma user_message_back parts : parts ≠ [] → Forall part_ok parts →
  mapM convert_message (user_message parts) = Some [([], [mkTurn "user" (part_json <$> parts)])].
Proof.
  intros Hne Hok. apply mapM_Some.
  assert (Hc : _anthropic_content_blocks (parts_content parts) = Some (part_json <$> parts)).
  { assert (Hlist : _anthropic_content_blocks (JList (openai_part <$> parts)) = Some (part_json <$> parts)).
    { unfold _anthropic_content_blocks. simpl.
      rewrite (mapM_fmap_some _ _ (λ p, [part_json p])) by (intros p Hp; apply part_back; by rewrite Forall_forall in Hok; apply Hok).
      simpl. by rewrite concat_singletons. }
    destruct parts as [|[t|m d|u] [|p parts]]; try done. simpl.
    apply Forall_cons in Hok as [Ht _]. simpl in Ht. by rewrite decide_False. }
  destruct parts as [|p parts]; [done|]. constructor; [|constructor].
  change ((blocks ← _anthropic_content_blocks (parts_content (p :: parts));
           Some ([] : list Json, turn_unless_empty "user" blocks)) =
          Some ([], [mkTurn "user" (part_json <$> (p :: parts))])).
  by rewrite Hc.
Qed.

Lemma assistant_back text calls : say_ok (Assistant text calls) →
  convert_message (assistant_said text calls) = Some ([], [say_turn (Assistant text calls)]).
Proof.
  intros (Hne & Hok). unfold assistant_said, convert_message.
  assert (Hblocks : _anthropic_content_blocks (if decide (text = "") then JNull else JStr text) = Some (said text)).
  { unfold said. case_decide; [done|]. simpl. by rewrite decide_False. }
  assert (Hcall : ∀ c, c ∈ calls → tool_use_block (openai_call c) = Some (call_json c)).
  { intros [[id name] d] Hc. rewrite Forall_forall in Hok. specialize (Hok _ Hc). simpl in Hok.
    unfold tool_use_block. simpl. destruct (dumps_dict d) as (s & Hs & _). rewrite Hs. simpl.
    rewrite <- Hs, loads_dumps by done. done. }
  assert (Hturn : turn_unless_empty "assistant" (said text ++ (call_json <$> calls)) = [say_turn (Assistant text calls)]).
  { unfold turn_unless_empty. rewrite decide_False; [done|]. intros [Hs Hc]%app_nil. unfold said in Hs.
    apply fmap_nil_inv in Hc. case_decide; [|done]. naive_solver. }
  destruct (decide (calls = [])) as [->|Hcalls].
  - simpl. rewrite Hblocks. exact (f_equal (λ t, Some ([], t)) Hturn).
  - simpl. rewrite Hblocks. simpl.
    assert (iter_or_empty (JList (openai_call <$> calls)) = Some (openai_call <$> calls)) as ->.
    { unfold iter_or_empty, py_or. simpl. case_bool_decide as Hl; [done|]. by destruct calls. }
    simpl. rewrite (mapM_fmap_some _ _ call_json) by done.
    exact (f_equal (λ t, Some ([], t)) Hturn).
Qed.

(** The turns of a message before they are merged. *)
Definition say_runs (s : Say) : list (list Json) :=
  match s with
  | User results parts => ((λ r, [result_json r]) <$> results) ++ (if decide (parts = []) then [] else [part_json <$> parts])
  | Assistant _ _ => [turn_content (say_turn s)]
  end.
Definition say_role (s : Say) : string := match s with User _ _ => "user" | Assistant _ _ => "assistant" end.

Lemma say_runs_concat s : concat (say_runs s) = turn_content (say_turn s).
Proof.
  destruct s as [results parts|text calls]; simpl; [|by rewrite app_nil_r].
  rewrite concat_app, concat_singletons. case_decide; [by subst|]. simpl. by rewrite app_nil_r.
Qed.

Lemma say_back s : say_ok s →
  mapM convert_message (say_messages s) = Some ((λ c, ([], [mkTurn (say_role s) c])) <$> say_runs s).
Proof.
  destruct s as [results parts|text calls]; intros Hok.
  - destruct Hok as (Hne & Hok & _). simpl. apply mapM_Some. rewrite fmap_app. apply Forall2_app; apply mapM_Some.
    + rewrite <- list_fmap_compose. apply mapM_fmap_some. by intros [id c] _.
    + case_decide; [by subst|]. by apply user_message_back.
  - apply mapM_Some. constructor; [|constructor]. by apply assistant_back.
Qed.

(** A run of one role becomes one turn. *)
Lemma merge_run l r c cs :
  foldl merge_turn (l ++ [mkTurn r c]) ((λ c, mkTurn r c) <$> cs) = l ++ [mkTurn r (c ++ concat cs)].
Proof.
  revert c. induction cs as [|c' cs IH]; intros c; [by rewrite app_nil_r|]. csimpl.
  rewrite merge_turn_snoc. rewrite decide_True by done. change ((mkTurn r c) <| turn_content := _ |>) with (mkTurn r (c ++ c')).
  by rewrite IH, <- (assoc_L (++)).
Qed.

Lemma merge_new_run l r runs : runs ≠ [] → (∀ t, last l = Some t → turn_role t ≠ r) →
  foldl merge_turn l ((λ c, mkTurn r c) <$> runs) = l ++ [mkTurn r (concat runs)].
Proof.
  intros Hne Hl. destruct runs as [|c runs]; [done|]. csimpl.
  assert (merge_turn l (mkTurn r c) = l ++ [mkTurn r c]) as ->; [|apply merge_run].
  unfold merge_turn. destruct (last l) as [t|] eqn:Ht; [|done]. rewrite decide_False; [done|]. by apply Hl.
Qed.

Definition unmerged (says : list Say) : list Turn :=
  concat ((λ s, (λ c, mkTurn (say_role s) c) <$> say_runs s) <$> says).

Lemma say_turn_eq s : say_turn s = mkTurn (say_role s) (concat (say_runs s)).
Proof. rewrite say_runs_concat. by destruct s. Qed.

Lemma merge_says says : ∀ l, Forall say_ok says → alternate (say_turn <$> says) →
  (∀ t s, last l = Some t → head says = Some s → turn_role t ≠ say_role s) →
  foldl merge_turn l (unmerged says) = l ++ (say_turn <$> says).
Proof.
  induction says as [|s says IH]; intros l Hok Halt Hl; [by rewrite app_nil_r|].
  apply Forall_cons in Hok as [Hs Hok]. unfold unmerged. csimpl. rewrite foldl_app.
  rewrite merge_new_run.
  - rewrite <- say_turn_eq. rewrite IH, <- (assoc_L (++)); [done|done| |].
    + destruct says; [done|]. by destruct Halt.
    + intros t s'. rewrite last_snoc. intros [= <-] Hs'. destruct says as [|s2 says]; [done|].
      injection Hs' as ->. destruct Halt as [Hr _]. by destruct s, s'.
  - destruct s as [results parts|]; [|done]. destruct Hs as (Hne & _). simpl. case_decide; [|by destruct results].
    destruct results; [naive_solver|done].
  - intros t Ht. by eapply Hl.
Qed.

(** The messages of a conversation, there and back. *)
Definition system_message (system : option string) : list Json :=
  match system with Some t => [JDict [("role", JStr "system"); ("content", JStr t)]] | None => [] end.

Definition conversation_messages (system : option string) (says : list Say) : list Json :=
  system_message system ++ concat (say_messages <$> says).

Lemma truthy_list {A} (l : list A) (f : A → Json) : l ≠ [] → json_truthy (JList (f <$> l)) = true.
Proof. intros Hl. simpl. apply bool_decide_eq_true. by destruct l. Qed.

Lemma iter_list {A} (l : list A) (f : A → Json) : iter_or_empty (JList (f <$> l)) = Some (f <$> l).
Proof. unfold iter_or_empty, py_or. destruct (json_truthy _) eqn:Ht; [done|]. by destruct l. Qed.

Lemma messages_there system says : truthy system = system → Forall say_ok says →
  convert_messages_anthropic_to_openai (JList (turn_json <$> (say_turn <$> says))) (from_option JStr JNull system) =
    Some (conversation_messages system says).
Proof.
  intros Hs Hok. unfold convert_messages_anthropic_to_openai.
  assert (_anthropic_system_text (from_option JStr JNull system) = Some (default "" system)) as -> by (by destruct system).
  simpl. rewrite iter_list. simpl. rewrite <- list_fmap_compose.
  rewrite (mapM_fmap_some _ _ say_messages).
  - simpl. unfold conversation_messages, system_message. by destruct system as [[]|].
  - intros s Hin. apply say_to_openai. by rewrite Forall_forall in Hok; apply Hok.
Qed.

Lemma mapM_concat {A B C} (f : B → option C) (g : A → list B) (h : A → list C) l :
  (∀ x, x ∈ l → mapM f (g x) = Some (h x)) → mapM f (concat (g <$> l)) = Some (concat (h <$> l)).
Proof.
  induction l as [|x l IH]; intros H; [done|]. csimpl. apply mapM_Some, Forall2_app; apply mapM_Some.
  - apply H. by left.
  - apply IH. intros y Hy. apply H. by right.
Qed.

Lemma messages_back system says : truthy system = system → Forall say_ok says → alternate (say_turn <$> says) →
  convert_messages_openai_to_anthropic (JList (conversation_messages system says)) = Some (say_turn <$> says, system).
Proof.
  intros Hs Hok Halt. unfold convert_messages_openai_to_anthropic, conversation_messages. simpl.
  set (outs := concat ((λ s, (λ c, ([], [mkTurn (say_role s) c])) <$> say_runs s) <$> says) : list (list Json * list Turn)).
  assert (Hsays : mapM convert_message (concat (say_messages <$> says)) = Some outs).
  { apply mapM_concat. intros s Hin. apply say_back. by rewrite Forall_forall in Hok; apply Hok. }
  assert (Hsys : mapM convert_message (system_message system) =
    Some (match system with Some t => [([JStr t], [])] | None => [] end)) by (by destruct system as [[]|]).
  assert (mapM convert_message (system_message system ++ concat (say_messages <$> says)) =
    Some (match system with Some t => [([JStr t], [])] | None => [] end ++ outs)) as ->.
  { apply mapM_Some, Forall2_app; by apply mapM_Some. }
  assert (Hturns : concat (snd <$> outs) = unmerged says).
  { subst outs. unfold unmerged. clear. induction says as [|s says IH]; [done|]. csimpl.
    rewrite fmap_app, concat_app, IH, <- list_fmap_compose. f_equal. apply concat_singletons. }
  assert (Htexts : concat (fst <$> outs) = []).
  { subst outs. clear. induction says as [|s says IH]; [done|]. csimpl.
    rewrite fmap_app, concat_app, IH, <- list_fmap_compose, app_nil_r. apply concat_nils. }
  simpl. rewrite !fmap_app, !concat_app, Hturns, Htexts, app_nil_r.
  assert (Hmerge : merge_turns (unmerged says) = say_turn <$> says) by (by apply (merge_says says [])).
  destruct system as [[|c t]|]; simpl; [done| |]; by rewrite Hmerge.
Qed.
End conversation.

(** ** Requests *)

Inductive Choice := AnyTool | NoTool | ThisTool (name : string).

Record MessagesRequest := mkMessagesRequest {
  rq_model : string;
  rq_says : list Say;
  rq_max_tokens : Z;
  rq_stream : bool;
  rq_system : option string;
  rq_tools : list (string * string * json_dict);
  rq_choice : option Choice;
  rq_stop : list string;
  rq_temperature : option Json;
  rq_top_p : option Json
}.

Definition opt (key : string) (v : option Json) : json_dict := match v with Some v => [(key, v)] | None => [] end.
Definition some_list (l : list Json) : option Json := if decide (l = []) then None else Some (JList l).

Definition tool_json (t : string * string * json_dict) : Json :=
  JDict (to_anthropic (mkToolSpec t.1.1 t.1.2 t.2 None None)).
Definition openai_tool_json (t : string * string * json_dict) : Json :=
  JDict [("type", JStr "function"); ("function", JDict (to_openai (mkToolSpec t.1.1 t.1.2 t.2 None None)))].

Definition choice_json (c : Choice) : Json :=
  match c with
  | AnyTool => JDict [("type", JStr "any")]
  | NoTool => JDict [("type", JStr "none")]
  | ThisTool name => JDict [("type", JStr "tool"); ("name", JStr name)]
  end.
Definition openai_choice_json (c : Choice) : Json :=
  match c with
  | AnyTool => JStr "required"
  | NoTool => JStr "none"
  | ThisTool name => JDict [("type", JStr "function"); ("function", JDict [("name", JStr name)])]
  end.

(** The request in the format of Anthropic. *)
Definition request_json (q : MessagesRequest) : json_dict :=
  [("model", JStr (rq_model q)); ("messages", JList (turn_json <$> (say_turn <$> rq_says q)));
   ("max_tokens", JInt (rq_max_tokens q)); ("stream", JBool (rq_stream q))] ++
  opt "system" (JStr <$> rq_system q) ++ opt "tools" (some_list (tool_json <$> rq_tools q)) ++
  opt "tool_choice" (choice_json <$> rq_choice q) ++ opt "stop_sequences" (some_list (JStr <$> rq_stop q)) ++
  opt "temperature" (rq_temperature q) ++ opt "top_p" (rq_top_p q).

(** And in that of OpenAI. *)
Definition openai_request_json `{Codec} (q : MessagesRequest) : json_dict :=
  [("model", JStr (rq_model q)); ("messages", JList (conversation_messages (rq_system q) (rq_says q)));
   ("stream", JBool (rq_stream q)); ("max_tokens", JInt (rq_max_tokens q))] ++
  opt "tools" (some_list (openai_tool_json <$> rq_tools q)) ++ opt "tool_choice" (openai_choice_json <$> rq_choice q) ++
  opt "stop" (some_list (JStr <$> rq_stop q)) ++ opt "temperature" (rq_temperature q) ++ opt "top_p" (rq_top_p q).

Definition choice_ok (c : Choice) : Prop := match c with ThisTool name => name ≠ "" | _ => True end.

Record request_ok (q : MessagesRequest) : Prop := mkRequestOk {
  ok_says : Forall say_ok (rq_says q);
  ok_alternate : alternate (say_turn <$> rq_says q);
  ok_system : truthy (rq_system q) = rq_system q;
  ok_max_tokens : rq_max_tokens q ≠ 0;
  ok_tools : Forall (λ t, t.1.1 ≠ "" ∧ t.2 ≠ []) (rq_tools q);
  ok_choice : ∀ c, rq_choice q = Some c → choice_ok c ∧ rq_tools q ≠ [];
  ok_sampling : rq_temperature q ≠ Some JNull ∧ rq_top_p q ≠ Some JNull;
  ok_model : existsb (λ p, starts_with p (rq_model q)) ANTHROPIC_NO_SAMPLING_PREFIXES = false
}.

Lemma lookup_opt key k v rest :
  dict_lookup key (opt k v ++ rest) =
    if decide (k = key) then match v with Some v => Some v | None => dict_lookup key rest end else dict_lookup key rest.
Proof. destruct v as [v|]; simpl; [done|by destruct (decide (k = key))]. Qed.

Lemma lookup_opt_end key k v : dict_lookup key (opt k v) = if decide (k = key) then v else None.
Proof. by destruct v as [v|]; simpl; destruct (decide (k = key)). Qed.

Ltac lookups :=
  unfold request_json, openai_request_json; cbn [dict_lookup app];
  repeat first
    [ rewrite decide_True by done
    | rewrite decide_False by done
    | rewrite lookup_opt
    | rewrite lookup_opt_end ].

Lemma or_none {A} (o : option A) : match o with Some v => Some v | None => None end = o.
Proof. by destruct o. Qed.

Lemma dict_set_new key v d : dict_lookup key d = None → dict_set key v d = d ++ [(key, v)].
Proof.
  induction d as [|[k x] d IH]; simpl; [done|]. case_decide; [done|]. intros Hd. by rewrite IH.
Qed.

Lemma copy_param_opt key src d v : dict_lookup key src = v → v ≠ Some JNull → dict_lookup key d = None →
  copy_param key key src d = d ++ opt key v.
Proof.
  intros Hs Hv Hd. unfold copy_param. rewrite Hs. destruct v as [[]|]; simpl; rewrite ?dict_set_new; try done.
  by rewrite app_nil_r.
Qed.

Section requests.
Context {codec : Codec} {laws : CodecLaws codec} (q : MessagesRequest).
Hypothesis fine : request_ok q.

Lemma tools_there : convert_tools_anthropic_to_openai (JList (tool_json <$> rq_tools q)) = Some (openai_tool_json <$> rq_tools q).
Proof.
  unfold convert_tools_anthropic_to_openai. rewrite iter_list. simpl.
  rewrite (mapM_fmap_some _ _ (λ t, Some (openai_tool_json t))).
  - simpl. f_equal. clear. induction (rq_tools q) as [|t l IH]; [done|]. csimpl. by rewrite IH.
  - intros [[name d] schema] Ht. pose proof (ok_tools q fine) as Hok. rewrite Forall_forall in Hok.
    destruct (Hok _ Ht) as [Hn Hs]. simpl in Hn, Hs. destruct name; [done|]. destruct schema; [done|].
    destruct d; reflexivity.
Qed.

Lemma tools_back : convert_tools_openai_to_anthropic (JList (openai_tool_json <$> rq_tools q)) = Some (tool_json <$> rq_tools q).
Proof.
  unfold convert_tools_openai_to_anthropic. rewrite iter_list. simpl.
  rewrite (mapM_fmap_some _ _ (λ t, Some (tool_json t))).
  - simpl. f_equal. clear. induction (rq_tools q) as [|t l IH]; [done|]. csimpl. by rewrite IH.
  - intros [[name d] schema] Ht. pose proof (ok_tools q fine) as Hok. rewrite Forall_forall in Hok.
    destruct (Hok _ Ht) as [Hn Hs]. simpl in Hn, Hs. destruct name; [done|]. destruct schema; [done|].
    destruct d; reflexivity.
Qed.

Lemma choice_there c : choice_ok c → convert_tool_choice_anthropic_to_openai (choice_json c) = openai_choice_json c.
Proof. destruct c as [| |name]; [done|done|]. by destruct name. Qed.

Lemma choice_back c : choice_ok c → convert_tool_choice_openai_to_anthropic (openai_choice_json c) = Some (choice_json c).
Proof. destruct c as [| |name]; [done|done|]. by destruct name. Qed.

Lemma some_list_nil : some_list [] = None.
Proof. done. Qed.

Lemma some_list_cons x l : some_list (x :: l) = Some (JList (x :: l)).
Proof. unfold some_list. by rewrite decide_False. Qed.

Lemma tools_there_opt :
  convert_tools_anthropic_to_openai (default JNull (some_list (tool_json <$> rq_tools q))) = Some (openai_tool_json <$> rq_tools q).
Proof. pose proof tools_there as H. destruct (rq_tools q); [done|exact H]. Qed.

Lemma tools_back_opt :
  convert_tools_openai_to_anthropic (default JNull (some_list (openai_tool_json <$> rq_tools q))) = Some (tool_json <$> rq_tools q).
Proof. pose proof tools_back as H. destruct (rq_tools q); [done|exact H]. Qed.

Lemma py_or_list l : py_or (JList l) (JList []) = JList l.
Proof. by destruct l. Qed.

(** The tools and the choice among them are put at the end. *)
Lemma put_tool_list (tools : list Json) (choice : option Json) base :
  (choice ≠ None → tools ≠ []) → choice ≠ Some JNull →
  dict_lookup "tools" base = None → dict_lookup "tool_choice" base = None →
  (if decide (tools = []) then base
   else
     let payload := dict_set "tools" (JList tools) base in
     if decide (default JNull choice = JNull) then payload else dict_set "tool_choice" (default JNull choice) payload) =
  base ++ opt "tools" (some_list tools) ++ opt "tool_choice" choice.
Proof.
  intros Hc Hn Ht Htc. unfold some_list. case_decide as Hl.
  - destruct choice; [by destruct Hc|]. simpl. by rewrite app_nil_r.
  - cbv zeta. rewrite dict_set_new by done. destruct choice as [c|]; simpl.
    + rewrite decide_False by congruence. rewrite dict_set_new, <- (assoc_L (++)); [done|].
      rewrite dict_lookup_app, Htc. done.
    + done.
Qed.

Lemma choices_there :
  convert_tool_choice_anthropic_to_openai (default JNull (choice_json <$> rq_choice q)) =
    default JNull (openai_choice_json <$> rq_choice q).
Proof. destruct (rq_choice q) as [c|] eqn:Hc; [|done]. by apply choice_there, (ok_choice q fine). Qed.

Lemma choices_need_tools (f : Choice → Json) (g : string * string * json_dict → Json) :
  f <$> rq_choice q ≠ None → g <$> rq_tools q ≠ [].
Proof.
  destruct (rq_choice q) as [c|] eqn:Hc; [|done]. intros _. destruct (ok_choice q fine c Hc) as [_ Ht].
  by destruct (rq_tools q).
Qed.

Lemma request_there : convert_payload_anthropic_to_openai (request_json q) = Some (openai_request_json q).
Proof.
  unfold convert_payload_anthropic_to_openai.
  assert (dict_lookup "messages" (request_json q) = Some (JList (turn_json <$> (say_turn <$> rq_says q)))) as -> by (by lookups).
  assert (dict_lookup "system" (request_json q) = JStr <$> rq_system q) as -> by (lookups; apply or_none).
  assert (dict_lookup "tools" (request_json q) = some_list (tool_json <$> rq_tools q)) as -> by (lookups; apply or_none).
  assert (dict_lookup "tool_choice" (request_json q) = choice_json <$> rq_choice q) as -> by (lookups; apply or_none).
  assert (dict_lookup "stop_sequences" (request_json q) = some_list (JStr <$> rq_stop q)) as -> by (lookups; apply or_none).
  assert (dict_lookup "stream" (request_json q) = Some (JBool (rq_stream q))) as -> by (by lookups).
  assert (dict_lookup "model" (request_json q) = Some (JStr (rq_model q))) as -> by (by lookups).
  cbn [default from_option id]. rewrite py_or_list.
  assert (default JNull (JStr <$> rq_system q) = from_option JStr JNull (rq_system q)) as -> by (by destruct (rq_system q)).
  rewrite messages_there by apply fine. cbn [mbind option_bind].
  rewrite (copy_param_opt _ _ _ (Some (JInt (rq_max_tokens q)))) by (by lookups).
  rewrite tools_there_opt. cbn [mbind option_bind]. rewrite choices_there.
  rewrite put_tool_list; [|apply choices_need_tools|by destruct (rq_choice q) as [[]|]|by lookups|by lookups].
  set (stopped := _ ++ opt "tools" _ ++ opt "tool_choice" _).
  assert (Hstop : (if json_truthy (default JNull (some_list (JStr <$> rq_stop q)))
                   then stop ← py_iter (default JNull (some_list (JStr <$> rq_stop q)));
                        Some (dict_set "stop" (JList stop) stopped)
                   else Some stopped) = Some (stopped ++ opt "stop" (some_list (JStr <$> rq_stop q)))).
  { assert (dict_lookup "stop" stopped = None) by (subst stopped; rewrite dict_lookup_app; lookups; done).
    destruct (rq_stop q) as [|x l]; [simpl; by rewrite app_nil_r|].
    change (some_list (JStr <$> x :: l)) with (Some (JList (JStr <$> x :: l))).
    cbn [default from_option id]. rewrite truthy_list by done. simpl. by rewrite dict_set_new. }
  rewrite Hstop. cbn [mbind option_bind foldl]. destruct (ok_sampling q fine) as [Htemp Htop].
  rewrite (copy_param_opt "temperature" _ _ (rq_temperature q)); [|lookups; apply or_none|done|].
  2: { subst stopped. rewrite !dict_lookup_app. lookups. by repeat case_match. }
  rewrite (copy_param_opt "top_p" _ _ (rq_top_p q)); [|by lookups|done|].
  2: { subst stopped. rewrite !dict_lookup_app. lookups. by repeat case_match. }
  subst stopped. unfold openai_request_json. by rewrite <- !(assoc_L (++)).
Qed.
Lemma tools_of_back base : dict_lookup "tools" base = None → dict_lookup "tool_choice" base = None →
  tools_of (openai_request_json q) base =
    Some (base ++ opt "tools" (some_list (tool_json <$> rq_tools q)) ++ opt "tool_choice" (choice_json <$> rq_choice q)).
Proof.
  intros Ht Hc. unfold tools_of.
  assert (dict_lookup "tools" (openai_request_json q) = some_list (openai_tool_json <$> rq_tools q)) as -> by (lookups; apply or_none).
  assert (dict_lookup "tool_choice" (openai_request_json q) = openai_choice_json <$> rq_choice q) as -> by (lookups; apply or_none).
  rewrite tools_back_opt. cbn [mbind option_bind].
  rewrite <- put_tool_list; [|apply choices_need_tools|by destruct (rq_choice q) as [[]|]|done|done].
  case_decide; [done|].
  assert (convert_tool_choice_openai_to_anthropic (default JNull (openai_choice_json <$> rq_choice q)) =
    Some (default JNull (choice_json <$> rq_choice q))) as ->.
  { destruct (rq_choice q) as [c|] eqn:Hq; [|done]. by apply choice_back, (ok_choice q fine). }
  cbn [mbind option_bind]. unfold put_if. cbv zeta.
  by destruct (rq_choice q) as [[]|].
Qed.

Lemma stop_back base : dict_lookup "stop_sequences" base = None →
  stop_sequences_of (default JNull (some_list (JStr <$> rq_stop q))) base =
    Some (base ++ opt "stop_sequences" (some_list (JStr <$> rq_stop q))).
Proof.
  intros Hb. destruct (rq_stop q) as [|x l]; [simpl; by rewrite app_nil_r|].
  change (some_list (JStr <$> x :: l)) with (Some (JList (JStr <$> x :: l))). cbn [default from_option id].
  unfold stop_sequences_of. rewrite truthy_list by done. simpl. by rewrite dict_set_new.
Qed.

Lemma request_back default_max_tokens :
  convert_payload_openai_to_anthropic (openai_request_json q) default_max_tokens false = Some (request_json q).
Proof.
  unfold convert_payload_openai_to_anthropic.
  assert (dict_lookup "messages" (openai_request_json q) = Some (JList (conversation_messages (rq_system q) (rq_says q)))) as -> by (by lookups).
  assert (dict_lookup "stream" (openai_request_json q) = Some (JBool (rq_stream q))) as -> by (by lookups).
  assert (dict_lookup "model" (openai_request_json q) = Some (JStr (rq_model q))) as -> by (by lookups).
  assert (dict_lookup "max_tokens" (openai_request_json q) = Some (JInt (rq_max_tokens q))) as -> by (by lookups).
  assert (dict_lookup "stop" (openai_request_json q) = some_list (JStr <$> rq_stop q)) as -> by (lookups; apply or_none).
  assert (dict_lookup "effort" (openai_request_json q) = None) as ->.
  { lookups. by repeat case_match. }
  cbn [default from_option id]. rewrite py_or_list, messages_back by apply fine. cbn [mbind option_bind].
  assert (Hmax : ∀ x, py_or (JInt (rq_max_tokens q)) x = JInt (rq_max_tokens q)).
  { intros x. unfold py_or. simpl. by rewrite bool_decide_true by apply fine. }
  rewrite Hmax, (ok_system q fine).
  set (base := [("model", _); ("messages", _); ("max_tokens", _); ("stream", _)]).
  assert ((match rq_system q with Some s => dict_set "system" (JStr s) base | None => base end) =
    base ++ opt "system" (JStr <$> rq_system q)) as -> by (by destruct (rq_system q)).
  rewrite tools_of_back by (subst base; lookups; done). cbn [mbind option_bind].
  rewrite stop_back by (subst base; rewrite !dict_lookup_app; lookups; by repeat case_match).
  cbn [mbind option_bind].
  assert (py_or (JStr (rq_model q)) (JStr "") = JStr (rq_model q)) as -> by (by destruct (rq_model q)).
  change (text_of (JStr (rq_model q))) with (Some (rq_model q)). cbn [mbind option_bind].
  rewrite (ok_model q fine). unfold sampling_params, effort_of. cbn [json_truthy foldl].
  destruct (ok_sampling q fine) as [Htemp Htop].
  rewrite (copy_param_opt "temperature" _ _ (rq_temperature q)); [|lookups; apply or_none|done|].
  2: { subst base. rewrite !dict_lookup_app. lookups. by repeat case_match. }
  rewrite (copy_param_opt "top_p" _ _ (rq_top_p q)); [|by lookups|done|].
  2: { subst base. rewrite !dict_lookup_app. lookups. by repeat case_match. }
  assert (Hk : dict_lookup "top_k" (openai_request_json q) = None) by (lookups; by repeat case_match).
  unfold copy_param at 1. rewrite Hk. subst base. unfold request_json. by rewrite <- !(assoc_L (++)).
Qed.
End requests.

(** C17: A request in the Anthropic format, of the shape below, is converted to the OpenAI
    format and back without loss, adaptive thinking apart.  It has a model that takes
    sampling parameters, a conversation, a token limit that is not zero, the stream flag,
    and possibly a non-empty system prompt, tools with a name and a schema that is not
    empty, a choice of tool ([any], [none] or a tool by its name, not [auto], and only with
    tools), stop sequences, a temperature and a top-p that are not null; no top-k and no
    other key.  Its turns alternate and none is empty: a user gives results of tools, as
    text, and then texts and images (base64 or by address), the texts not empty and more
    than one part only if one is an image; the assistant says at most one text and then
    calls tools, with inputs that JSON keeps. *)
Theorem a_request_survives {codec : Codec} (q : MessagesRequest) (default_max_tokens : Json)
    (laws : CodecLaws codec) (fine : request_ok q) :
  ∃ openai, convert_payload_anthropic_to_openai (request_json q) = Some openai ∧
            convert_payload_openai_to_anthropic openai default_max_tokens false = Some (request_json q).
Proof. exists (openai_request_json q). split; [by apply request_there|by apply request_back]. Qed.

Definition sample_request : MessagesRequest :=
  mkMessagesRequest "claude-haiku-4-5"
    [User [] [UText "What is on this picture?"; UImage "image/png" "aGk="];
     Assistant "Let me look." [("toolu_1", "look", [("zoom", JInt 2)]); ("toolu_2", "read", [])];
     User [("toolu_1", "a cat"); ("toolu_2", "")] [UText "And?"]]
    1024 true (Some "Be brief.") [("look", "Looks.", [("type", JStr "object")])] (Some (ThisTool "look")) ["END"]
    (Some (JFloat true)) None.

Lemma a_request_survives_witness :
  ∃ openai, convert_payload_anthropic_to_openai (request_json sample_request) = Some openai ∧
            convert_payload_openai_to_anthropic openai (JInt 4096) false = Some (request_json sample_request).
Proof.
  apply (a_request_survives sample_request (JInt 4096)); [apply sample_codec_laws|].
  split; try done.
  - apply List.Forall_cons; [|apply List.Forall_cons; [|apply List.Forall_cons; [|done]]].
    + split; [by right|]. split; [repeat constructor; done|by left].
    + split; [by left|]. apply List.Forall_cons; [|apply List.Forall_cons; [|done]]; simpl; solve_json_ok.
    + split; [by left|]. split; [repeat constructor; done|right; simpl; lia].
  - repeat constructor; done.
  - intros c [= <-]. done.
Defined.
