(* ===== verification/StreamContract.v ===== *)
(** What a client reads from the stream [convert_streaming_response_openai_to_anthropic]
    yields: the message is well formed for every upstream, its texts and tool inputs are
    the upstream's, and every delta is in the open block exactly when the upstream does
    not interleave its tool calls. *)

From stdpp Require Import base.
From S2P Require Import Prelude Data Formats Replies GenFacts.

(** ** The client of the Anthropic format *)

(** A content block as a client accumulates it. *)
Inductive Block := BText (texts : list Json) | BTool (id name : Json) (partials : list Json).

(** [neat]: so far, every delta was for the block that is open. *)
Inductive Reader :=
| RFresh
| ROpen (model : Json) (blocks : list Block) (open neat : bool)
| RDelivered (model : Json) (blocks : list Block) (neat : bool) (stop_reason : string) (usage : json_dict)
| REnded (model : Json) (blocks : list Block) (neat : bool) (stop_reason : string) (usage : json_dict).

Definition new_block (b : AnthropicBlock) : Block :=
  match b with TextBlock => BText [] | ToolUseBlock id name => BTool id name [] end.

Definition extend_block (b : Block) (d : AnthropicDelta) : option Block :=
  match b, d with
  | BText l, TextDelta t => Some (BText (l ++ [t]))
  | BTool id name l, InputJsonDelta p => Some (BTool id name (l ++ [p]))
  | _, _ => None
  end.

(** Blocks are numbered in order and opened one at a time; a delta is for a block of its
    kind; [None] is a stream that is not well formed. *)
Definition read (r : Reader) (e : AnthropicEvent) : option Reader :=
  match r, e with
  | RFresh, MessageStart m => Some (ROpen m [] false true)
  | ROpen m bs false neat, BlockStart i b =>
      if decide (i = length bs) then Some (ROpen m (bs ++ [new_block b]) true neat) else None
  | ROpen m bs open neat, BlockDelta i d =>
      b ← bs !! i; b ← extend_block b d;
      Some (ROpen m (<[i := b]> bs) open (neat && open && bool_decide (S i = length bs)))
  | ROpen m bs true neat, BlockStop i => if decide (S i = length bs) then Some (ROpen m bs false neat) else None
  | ROpen m bs false neat, MessageDelta stop usage => Some (RDelivered m bs neat stop usage)
  | RDelivered m bs neat stop usage, MessageStop => Some (REnded m bs neat stop usage)
  | _, _ => None
  end.

Fixpoint read_all (r : Reader) (es : list AnthropicEvent) : option Reader :=
  match es with [] => Some r | e :: es => r ← read r e; read_all r es end.

(** ** What the upstream sends *)

Inductive Item := IText (text : Json) | ICall (key id name arguments : Json).

Definition call_item (call : Json) : option Item :=
  index ← get_or "index" call (JInt 0);
  key ← dict_key index;
  function ← field "function" call;
  let function := py_or function (JDict []) in
  id ← field "id" call; name ← field "name" function; arguments ← field "arguments" function;
  Some (ICall key id name arguments).

(** The texts and calls of a chunk, in order. *)
Definition chunk_items (chunk : Json) : option (list Item) :=
  choice ← first_choice chunk;
  delta ← field "delta" choice;
  let delta := py_or delta (JDict []) in
  text ← field "content" delta;
  tool_calls ← field "tool_calls" delta;
  calls ← iter_or_empty tool_calls;
  items ← mapM call_item calls;
  Some ((if json_truthy text then [IText text] else []) ++ items).

(** The chunks in the complete lines of the stream. *)
Definition line_chunk `{!Codec} (line : string) : option Json :=
  payload ← data_payload line; if decide (payload = "[DONE]") then None else json_loads payload.
Definition chunks_in `{!Codec} (text : string) : list Json := omap line_chunk (take_lines text).1.
Definition chunks_of `{!Codec} (body : list Raw) : list Json := chunks_in (join EmptyString (raw_text <$> body)).

Definition contents (items : list Item) : list Json := omap (λ i, match i with IText t => Some t | _ => None end) items.

Definition item_of (key : Json) (i : Item) : option (Json * Json * Json) :=
  match i with ICall k id name args => if decide (k = key) then Some (id, name, args) else None | IText _ => None end.

(** The arguments sent for a call, and its first mention. *)
Definition arguments_of (key : Json) (items : list Item) : list Json :=
  omap (λ m, if json_truthy m.2 then Some m.2 else None) (omap (item_of key) items).
Definition mention_of (key : Json) (items : list Item) : option (Json * Json * Json) := head (omap (item_of key) items).

(** The calls in the order they are first mentioned, the call whose block is the last, and
    whether all arguments came while the block of their call was the last. *)
Record Scan := mkScan { sc_seen : list Json; sc_last : option Json; sc_neat : bool }.

Definition scan_step (s : Scan) (i : Item) : Scan :=
  match i with
  | IText _ => mkScan (sc_seen s) None (sc_neat s)
  | ICall k _ _ args =>
      if decide (k ∈ sc_seen s)
      then mkScan (sc_seen s) (sc_last s) (sc_neat s && (negb (json_truthy args) || bool_decide (sc_last s = Some k)))
      else mkScan (sc_seen s ++ [k]) (Some k) (sc_neat s)
  end.
Definition scan (items : list Item) : Scan := foldl scan_step (mkScan [] None true) items.

(** The block of a call: its first mention's name and, unless that was empty, id, and all
    its arguments. *)
Definition call_block (items : list Item) (key : Json) (b : Block) : Prop :=
  ∃ id name args0 id', mention_of key items = Some (id, name, args0) ∧ (json_truthy id = true → id' = id) ∧
    b = BTool id' name (arguments_of key items).

Definition block_texts (b : Block) : list Json := match b with BText l => l | _ => [] end.
Definition is_tool (b : Block) : bool := match b with BTool _ _ _ => true | BText _ => false end.
Definition tool_blocks (bs : list Block) : list Block := filter is_tool bs.

(** ** Running generators against the client *)

Definition accepts {A} (r : Reader) (m : gen AnthropicEvent A) (Q : A → Reader → Prop) : Prop :=
  ∃ r', read_all r m.1 = Some r' ∧ ∀ x, m.2 = Some x → Q x r'.

Lemma read_all_app r es es' : read_all r (es ++ es') = r' ← read_all r es; read_all r' es'.
Proof. revert r. induction es as [|e es IH]; intros r; simpl; [done|]. destruct (read r e); simpl; auto. Qed.

Lemma accepts_ret {A} r (x : A) (Q : A → Reader → Prop) : Q x r → accepts r (mret x) Q.
Proof. intros HQ. exists r. split; [done|]. by intros y [= <-]. Qed.

Lemma accepts_bind {A B} r (m : gen AnthropicEvent A) (k : A → gen AnthropicEvent B) (Q : B → Reader → Prop) :
  accepts r m (λ x r', accepts r' (k x) Q) → accepts r (m ≫= k) Q.
Proof.
  intros (r' & Hr & Hk). unfold mbind, gen_bind. destruct m as [es [x|]]; simpl in *; [|by exists r'].
  destruct (Hk x eq_refl) as (r'' & Hr'' & HQ). exists r''. split; [|done].
  change (read_all r (es ++ (k x).1) = Some r''). rewrite read_all_app. simpl in Hr. by rewrite Hr.
Qed.

Lemma accepts_raise_unless {A B} r (o : option A) (k : A → gen AnthropicEvent B) (Q : B → Reader → Prop) :
  (∀ x, o = Some x → accepts r (k x) Q) → accepts r (raise_unless o ≫= k) Q.
Proof. intros Hk. apply accepts_bind. exists r. split; [done|]. intros x Hx. by apply Hk. Qed.

Lemma accepts_yield {B} r r' e (k : unit → gen AnthropicEvent B) (Q : B → Reader → Prop) :
  read r e = Some r' → accepts r' (k tt) Q → accepts r (yield e ≫= k) Q.
Proof. intros He Hk. apply accepts_bind. exists r'. simpl. rewrite He. split; [done|]. by intros [] _. Qed.

Lemma accepts_mono {A} r (m : gen AnthropicEvent A) (P Q : A → Reader → Prop) :
  accepts r m P → (∀ x r', P x r' → Q x r') → accepts r m Q.
Proof. intros (r' & Hr & HP) HPQ. exists r'. split; [done|]. auto. Qed.

(** ** The scan of the items *)

Lemma scan_snoc items i : scan (items ++ [i]) = scan_step (scan items) i.
Proof. unfold scan. by rewrite foldl_app. Qed.

Lemma items_of_snoc k items i :
  omap (item_of k) (items ++ [i]) = omap (item_of k) items ++ option_list (item_of k i).
Proof. rewrite omap_app. simpl. by destruct (item_of k i). Qed.

Lemma scan_seen items k : k ∈ sc_seen (scan items) ↔ omap (item_of k) items ≠ [].
Proof.
  induction items as [|i items IH] using rev_ind.
  { simpl. split; [by intros ?%not_elem_of_nil|done]. }
  rewrite scan_snoc, items_of_snoc. destruct i as [t|k' id name args]; simpl.
  - by rewrite app_nil_r.
  - repeat case_decide; subst; simpl; try rewrite elem_of_app; rewrite ?list_elem_of_singleton, ?app_nil_r, IH;
      try (destruct (omap (item_of k) items); naive_solver).
Qed.

Lemma scan_NoDup items : NoDup (sc_seen (scan items)).
Proof.
  induction items as [|i items IH] using rev_ind; [constructor|]. rewrite scan_snoc.
  destruct i as [t|k id name args]; simpl; [done|]. case_decide; simpl; [done|].
  apply NoDup_app. repeat split; [done| |apply NoDup_singleton].
  by intros x Hx ->%list_elem_of_singleton.
Qed.

Lemma mention_kept k items i m : mention_of k items = Some m → mention_of k (items ++ [i]) = Some m.
Proof. unfold mention_of. rewrite items_of_snoc. by destruct (omap (item_of k) items). Qed.

Lemma arguments_snoc k items i :
  arguments_of k (items ++ [i]) =
    arguments_of k items ++ omap (λ m, if json_truthy m.2 then Some m.2 else None) (option_list (item_of k i)).
Proof. unfold arguments_of. by rewrite items_of_snoc, omap_app. Qed.

Lemma contents_snoc items i :
  contents (items ++ [i]) = contents items ++ match i with IText t => [t] | ICall _ _ _ _ => [] end.
Proof. unfold contents. rewrite omap_app. by destruct i. Qed.

(** ** Blocks and the calls they are for *)

Definition keyed (items : list Item) (ko : option Json) (b : Block) : Prop :=
  match ko with None => ∃ l, b = BText l | Some k => call_block items k b end.

Lemma keyed_other items i ko b : (∀ k, ko = Some k → item_of k i = None) → keyed items ko b → keyed (items ++ [i]) ko b.
Proof.
  intros Hi. destruct ko as [k|]; simpl; [|done]. intros (id & name & args & id' & Hm & Hid & ->).
  exists id, name, args, id'. split; [by apply mention_kept|]. split; [done|].
  by rewrite arguments_snoc, (Hi k eq_refl), app_nil_r.
Qed.

Lemma keyed_text items t ks bs : Forall2 (keyed items) ks bs → Forall2 (keyed (items ++ [IText t])) ks bs.
Proof. intros H. apply (Forall2_impl _ _ _ _ H). intros ko b Hk. apply keyed_other; [done|exact Hk]. Qed.

Lemma omap_id_inj (ks : list (option Json)) i j k :
  NoDup (omap id ks) → ks !! i = Some (Some k) → ks !! j = Some (Some k) → i = j.
Proof.
  revert i j. induction ks as [|ko ks IH]; intros i j Hnd Hi Hj; [done|].
  assert (Hin : ∀ n, ks !! n = Some (Some k) → k ∈ omap id ks).
  { intros n Hn%list_elem_of_lookup_2. apply list_elem_of_omap. by exists (Some k). }
  destruct i as [|i], j as [|j]; simpl in *; simplify_eq; [done| | |].
  - apply NoDup_cons in Hnd as [Hnd _]. by destruct Hnd; eapply Hin.
  - apply NoDup_cons in Hnd as [Hnd _]. by destruct Hnd; eapply Hin.
  - f_equal. apply IH; [|done|done]. destruct ko; simpl in Hnd; [by apply NoDup_cons in Hnd as [_ Hnd]|done].
Qed.

(** What the converter's state, the client and the items so far agree on; [ks] are the
    calls of the blocks, [None] for a text. *)
Record agrees (items : list Item) (s : ToAnthropic) (bs : list Block) (open neat : bool) (ks : list (option Json))
    : Prop := mkAgrees {
  ag_keyed : Forall2 (keyed items) ks bs;
  ag_seen : omap id ks = sc_seen (scan items);
  ag_index : ∀ k i, assoc k (tool_block_index s) = Some i → ks !! i = Some (Some k);
  ag_indexed : ∀ k, k ∈ sc_seen (scan items) → is_Some (assoc k (tool_block_index s));
  ag_texts : concat (block_texts <$> bs) = contents items;
  ag_next : next_index s = length bs;
  ag_open : open_block s = (λ ko : option Json, if ko then tool_use_open else text_open) <$> last ks;
  ag_opened : open = bool_decide (bs ≠ []);
  ag_last : sc_last (scan items) = default None (last ks);
  ag_neat : neat = sc_neat (scan items)
}.

Definition relates (items : list Item) (s : ToAnthropic) (r : Reader) : Prop :=
  started s = true ∧ ∃ m bs open neat ks, r = ROpen m bs open neat ∧ agrees items s bs open neat ks.

(** ** One more item *)

Section one_more_item.
Context (items : list Item) (s s' : ToAnthropic) (bs : list Block) (open neat : bool) (ks : list (option Json)).
Hypothesis H : agrees items s bs open neat ks.

Lemma ks_length : length ks = length bs.
Proof. by eapply Forall2_length, ag_keyed. Qed.

Lemma ks_NoDup : NoDup (omap id ks).
Proof. rewrite (ag_seen _ _ _ _ _ _ H). apply scan_NoDup. Qed.

Lemma agrees_new_text t :
  tool_block_index s' = tool_block_index s → next_index s' = S (next_index s) → open_block s' = Some text_open →
  agrees (items ++ [IText t]) s' (bs ++ [BText [t]]) true neat (ks ++ [None]).
Proof.
  intros Htool Hnext Hopen. destruct H as [Hk Hseen Hidx Hidxd Htexts Hn Ho Hop Hl Hneat].
  split; rewrite ?scan_snoc; simpl; rewrite ?Htool, ?Hnext, ?last_snoc; try done.
  - apply Forall2_app; [by apply keyed_text|]. repeat constructor. by exists [t].
  - by rewrite omap_app, app_nil_r.
  - intros k i Hi. by apply lookup_app_l_Some, Hidx.
  - by rewrite fmap_app, concat_app, Htexts, contents_snoc.
  - rewrite length_app, Hn. simpl. lia.
  - symmetry. apply bool_decide_eq_true. by destruct bs.
Qed.

Lemma agrees_more_text bs' l t :
  bs = bs' ++ [BText l] → open_block s = Some text_open →
  agrees (items ++ [IText t]) s (bs' ++ [BText (l ++ [t])]) true neat ks.
Proof.
  intros Hbs Hopen. destruct H as [Hk Hseen Hidx Hidxd Htexts Hn Ho Hop Hl Hneat].
  assert (Hlast : last ks = Some None).
  { rewrite Hopen in Ho. by destruct (last ks) as [[k|]|]. }
  destruct ks as [|ko ks0 _] using rev_ind; [done|]. rewrite last_snoc in Hlast. injection Hlast as ->.
  rewrite Hbs in *. apply Forall2_app_inv in Hk as [Hk _]; [|apply Forall2_length in Hk; rewrite !length_app in Hk; simpl in Hk; lia].
  split; rewrite ?scan_snoc; simpl; try done.
  - apply Forall2_app; [by apply keyed_text|]. repeat constructor. by exists (l ++ [t]).
  - rewrite fmap_app, concat_app in Htexts |- *. simpl in *. rewrite !app_nil_r in *.
    by rewrite contents_snoc, <- Htexts, (assoc_L (++)).
  - by rewrite length_app in Hn |- *.
  - symmetry. apply bool_decide_eq_true. by destruct bs'.
  - by rewrite last_snoc.
Qed.

Lemma agrees_new_call k id name args id' :
  k ∉ sc_seen (scan items) → (json_truthy id = true → id' = id) →
  tool_block_index s' = (k, next_index s) :: tool_block_index s → next_index s' = S (next_index s) →
  open_block s' = Some tool_use_open →
  agrees (items ++ [ICall k id name args]) s'
    (bs ++ [BTool id' name (if json_truthy args then [args] else [])]) true neat (ks ++ [Some k]).
Proof.
  intros Hnew Hid Htool Hnext Hopen. pose proof ks_length as Hlen.
  destruct H as [Hk Hseen Hidx Hidxd Htexts Hn Ho Hop Hl Hneat].
  assert (Hnone : omap (item_of k) items = []).
  { destruct (decide (omap (item_of k) items = [])) as [|Hne]; [done|]. by apply scan_seen in Hne. }
  split; rewrite ?scan_snoc; simpl; rewrite ?Htool, ?Hnext, ?last_snoc, ?decide_False by done; simpl; try done.
  - apply Forall2_app.
    + apply Forall2_same_length_lookup. split; [done|]. intros i ko b Hko Hb. apply keyed_other.
      * intros k' ->. simpl. rewrite decide_False; [done|]. intros ->. destruct Hnew. rewrite <- Hseen.
        apply list_elem_of_omap. exists (Some k'). split; [by eapply list_elem_of_lookup_2|done].
      * by eapply Forall2_lookup_lr.
    + repeat constructor. exists id, name, args, id'. unfold mention_of. rewrite items_of_snoc, Hnone. simpl.
      rewrite decide_True by done. simpl. split; [done|]. split; [done|].
      rewrite arguments_snoc. unfold arguments_of. rewrite Hnone. simpl. rewrite decide_True by done. simpl.
      by destruct (json_truthy args).
  - by rewrite omap_app, Hseen.
  - intros k' i. rewrite assoc_cons. case_decide as Hkk.
    + intros [= <-]. subst k'. rewrite Hn, <- Hlen. by rewrite lookup_app_r, Nat.sub_diag.
    + intros Hi. by apply lookup_app_l_Some, Hidx.
  - intros k' Hk'. rewrite assoc_cons. case_decide as Hkk; [eauto|].
    apply elem_of_app in Hk' as [Hk'|Hk'%list_elem_of_singleton]; [by apply Hidxd|]. by subst.
  - by rewrite fmap_app, concat_app, Htexts, contents_snoc.
  - rewrite length_app, Hn. simpl. lia.
  - symmetry. apply bool_decide_eq_true. by destruct bs.
Qed.

(** The block of a call that was mentioned before. *)
Lemma agrees_known_call k i id name args b :
  assoc k (tool_block_index s) = Some i → bs !! i = Some b →
  ∃ id' name' l, b = BTool id' name' l ∧
    agrees (items ++ [ICall k id name args]) s
      (if json_truthy args then <[i := BTool id' name' (l ++ [args])]> bs else bs) open
      (if json_truthy args then neat && open && bool_decide (S i = length bs) else neat) ks.
Proof.
  intros Hi Hb. pose proof ks_length as Hlen. pose proof ks_NoDup as Hnd.
  destruct H as [Hk Hseen Hidx Hidxd Htexts Hn Ho Hop Hl Hneat].
  pose proof (Hidx _ _ Hi) as Hki.
  assert (Hin : k ∈ sc_seen (scan items)).
  { rewrite <- Hseen. apply list_elem_of_omap. exists (Some k). split; [by eapply list_elem_of_lookup_2|done]. }
  destruct (Forall2_lookup_lr _ _ _ _ _ _ Hk Hki Hb) as (id0 & name0 & args0 & id' & Hm & Hid & ->).
  exists id', name0, (arguments_of k items). split; [done|].
  assert (Hkey : Forall2 (keyed (items ++ [ICall k id name args])) ks
    (if json_truthy args then <[i := BTool id' name0 (arguments_of k items ++ [args])]> bs else bs)).
  { apply Forall2_same_length_lookup. split; [destruct (json_truthy args); by rewrite ?length_insert|].
    intros j ko b Hko Hj. destruct (decide (j = i)) as [->|Hne].
    - assert (ko = Some k) as -> by congruence. exists id0, name0, args0, id'.
      split; [by apply mention_kept|]. split; [done|]. rewrite arguments_snoc. simpl. rewrite decide_True by done. simpl.
      destruct (json_truthy args); [|rewrite app_nil_r; congruence].
      rewrite list_lookup_insert_eq in Hj by (by eapply lookup_lt_Some). congruence.
    - assert (Hj' : bs !! j = Some b) by (destruct (json_truthy args); [by rewrite list_lookup_insert_ne in Hj|done]).
      apply keyed_other; [|by eapply Forall2_lookup_lr]. intros k' ->. simpl. rewrite decide_False; [done|].
      intros <-. by destruct Hne; eapply omap_id_inj. }
  assert (Hlast : bool_decide (S i = length bs) = bool_decide (sc_last (scan items) = Some k)).
  { apply bool_decide_ext. rewrite Hl. split.
    - intros HS. rewrite last_lookup, Hlen, <- HS. simpl. by rewrite Hki.
    - intros HS. destruct (last ks) as [ko|] eqn:Hko; [|done]. simpl in HS. subst ko.
      rewrite last_lookup in Hko. pose proof (omap_id_inj _ _ _ _ Hnd Hki Hko) as ->.
      assert (length ks ≠ 0%nat) by (destruct ks; simpl; [done|lia]). lia. }
  assert (Hopen : open = true) by (rewrite Hop; apply bool_decide_eq_true; intros ->; done).
  split; rewrite ?scan_snoc; simpl; rewrite ?decide_True by done; simpl; try done.
  - destruct (json_truthy args); [|by rewrite contents_snoc, app_nil_r].
    rewrite contents_snoc, app_nil_r, <- Htexts, list_fmap_insert. f_equal.
    apply list_insert_id. by rewrite list_lookup_fmap, Hb.
  - destruct (json_truthy args); by rewrite ?length_insert.
  - rewrite Hop. apply bool_decide_ext. destruct (json_truthy args); [|done].
    split; intros Hne HH; apply Hne; [|by subst].
    apply (f_equal length) in HH. rewrite length_insert in HH. by apply length_zero_iff_nil.
  - rewrite Hlast, Hopen, Hneat. destruct (json_truthy args); simpl; by rewrite ?andb_true_r.
Qed.
End one_more_item.

(** ** The handlers *)

(** What the handlers of deltas leave alone. *)
Definition same_meta (s s' : ToAnthropic) : Prop :=
  oa_stop_reason s' = oa_stop_reason s ∧ oa_usage s' = oa_usage s.

Lemma last_block (items : list Item) s bs open neat ks :
  agrees items s bs open neat ks → open_block s ≠ None →
  ∃ bs' b, bs = bs' ++ [b] ∧ open = true ∧
    match open_block s with Some text_open => ∃ l, b = BText l | _ => True end.
Proof.
  intros H Ho. pose proof (ks_length _ _ _ _ _ _ H) as Hlen. pose proof (ag_keyed _ _ _ _ _ _ H) as Hk.
  rewrite (ag_open _ _ _ _ _ _ H) in Ho |- *.
  destruct bs as [|b bs' _] using rev_ind; [by destruct ks|]. exists bs', b. split; [done|]. split.
  { rewrite (ag_opened _ _ _ _ _ _ H). apply bool_decide_eq_true. by destruct bs'. }
  destruct ks as [|ko ks' _] using rev_ind; [done|]. rewrite last_snoc. simpl.
  apply Forall2_app_inv in Hk as [_ Hk]; [|rewrite !length_app in Hlen; simpl in Hlen; lia].
  apply Forall2_cons in Hk as [Hb _]. by destruct ko.
Qed.

Section handlers.
Context {codec : Codec} (uuid4 : nat → string).

Lemma read_stop m bs b neat s :
  next_index s = length (bs ++ [b]) →
  read (ROpen m (bs ++ [b]) true neat) (BlockStop (pred (next_index s))) = Some (ROpen m (bs ++ [b]) false neat).
Proof. intros ->. simpl. rewrite length_app. simpl. rewrite decide_True by lia. done. Qed.

Lemma read_start m bs neat i b :
  i = length bs → read (ROpen m bs false neat) (BlockStart i b) = Some (ROpen m (bs ++ [new_block b]) true neat).
Proof. intros ->. simpl. by rewrite decide_True. Qed.

Lemma read_delta m bs open neat i d b b' :
  bs !! i = Some b → extend_block b d = Some b' →
  read (ROpen m bs open neat) (BlockDelta i d) =
    Some (ROpen m (<[i := b']> bs) open (neat && open && bool_decide (S i = length bs))).
Proof. intros Hb Hd. simpl. rewrite Hb. simpl. rewrite Hd. by destruct open. Qed.

Lemma read_delta_last m bs b b' neat i d :
  i = length bs → extend_block b d = Some b' →
  read (ROpen m (bs ++ [b]) true neat) (BlockDelta i d) = Some (ROpen m (bs ++ [b']) true neat).
Proof.
  intros -> Hd. simpl. rewrite lookup_app_r, Nat.sub_diag by lia. simpl. rewrite Hd. simpl.
  rewrite insert_app_r_alt, Nat.sub_diag by lia. simpl. rewrite bool_decide_true; [by rewrite !andb_true_r|].
  rewrite length_app. simpl. lia.
Qed.

(** A block is closed if one is open. *)
Lemma close_accepts {A} items s m bs open neat ks (k : unit → gen AnthropicEvent A) Q :
  agrees items s bs open neat ks → accepts (ROpen m bs false neat) (k tt) Q →
  accepts (ROpen m bs open neat)
    ((if decide (open_block s = None) then mret tt else close_block (pred (next_index s))) ≫= k) Q.
Proof.
  intros H Hk. case_decide as Ho.
  - apply accepts_bind, accepts_ret. assert (bs = []) as ->.
    { rewrite (ag_open _ _ _ _ _ _ H) in Ho. pose proof (ks_length _ _ _ _ _ _ H) as Hlen.
      destruct ks as [|ko ks' _] using rev_ind; [by destruct bs|by rewrite last_snoc in Ho]. }
    by rewrite (ag_opened _ _ _ _ _ _ H).
  - destruct (last_block _ _ _ _ _ _ H Ho) as (bs' & b & -> & -> & _).
    eapply accepts_yield; [|done]. apply read_stop. apply (ag_next _ _ _ _ _ _ H).
Qed.

Lemma on_text_accepts items s r text :
  relates items s r →
  accepts r (on_text s text) (λ s' r',
    relates (items ++ if json_truthy text then [IText text] else []) s' r' ∧ same_meta s s').
Proof.
  intros (Hst & m & bs & open & neat & ks & -> & H). unfold on_text.
  destruct (json_truthy text); [|rewrite app_nil_r; apply accepts_ret; split; [|done]; split; [done|]; naive_solver].
  destruct (decide (open_block s = Some text_open)) as [Htext|Hother].
  - (* the open block is a text *)
    rewrite (decide_False (P := open_block s = Some tool_use_open)) by congruence.
    apply accepts_bind, accepts_ret. rewrite decide_False by congruence. apply accepts_bind, accepts_ret.
    destruct (last_block _ _ _ _ _ _ H) as (bs' & b & -> & -> & Hb); [congruence|].
    rewrite Htext in Hb. destruct Hb as [l ->].
    eapply accepts_yield; [apply read_delta_last; [|done]|].
    { rewrite (ag_next _ _ _ _ _ _ H), length_app. simpl. lia. }
    apply accepts_ret. split; [|done]. split; [done|]. do 5 eexists. split; [done|].
    by eapply agrees_more_text.
  - (* a new block *)
    assert (Hclose : accepts (ROpen m bs open neat)
      (if decide (open_block s = Some tool_use_open)
       then close_block (pred (next_index s));; mret (s <| open_block := None |>) else mret s)
      (λ s1 r1, s1 = s <| open_block := None |> ∧ r1 = ROpen m bs false neat)).
    { destruct (decide (open_block s = Some tool_use_open)) as [Htool|Hno].
      - destruct (last_block _ _ _ _ _ _ H) as (bs' & b & -> & -> & _); [congruence|].
        eapply accepts_yield; [apply read_stop, (ag_next _ _ _ _ _ _ H)|]. by apply accepts_ret.
      - assert (Hnone : open_block s = None) by (destruct (open_block s) as [[]|]; congruence).
        apply accepts_ret. split.
        + destruct s; simpl in *. unfold set_field. simpl. congruence.
        + rewrite (ag_open _ _ _ _ _ _ H) in Hnone. pose proof (ks_length _ _ _ _ _ _ H) as Hlen.
          rewrite (ag_opened _ _ _ _ _ _ H).
          destruct ks as [|ko ks' _] using rev_ind; [by destruct bs|by rewrite last_snoc in Hnone]. }
    apply accepts_bind. eapply accepts_mono; [exact Hclose|]. intros s1 r1 [-> ->].
    rewrite decide_True by done. apply accepts_bind. eapply accepts_yield; [apply read_start, (ag_next _ _ _ _ _ _ H)|]. apply accepts_ret.
    eapply accepts_yield; [apply read_delta_last; [apply (ag_next _ _ _ _ _ _ H)|done]|].
    apply accepts_ret. split; [|done]. split; [done|]. do 5 eexists. split; [done|]. by eapply agrees_new_text.
Qed.

Lemma on_call_accepts items s r call :
  relates items s r →
  accepts r (on_call uuid4 s call) (λ s' r',
    ∃ i, call_item call = Some i ∧ relates (items ++ [i]) s' r' ∧ same_meta s s').
Proof.
  intros (Hst & m & bs & open & neat & ks & -> & H). unfold on_call.
  apply accepts_raise_unless. intros index Hindex. apply accepts_raise_unless. intros function Hfun.
  apply accepts_raise_unless. intros key Hkey. unfold tool_block.
  set (fn := py_or function (JDict [])).
  assert (Hitem : ∀ id name args, field "id" call = Some id → field "name" fn = Some name → field "arguments" fn = Some args →
    call_item call = Some (ICall key id name args)).
  { intros id name args Hid Hname Hargs. unfold call_item. subst fn.
    rewrite Hindex. simpl. rewrite Hkey. simpl. rewrite Hfun. simpl. rewrite Hid. simpl. rewrite Hname. simpl.
    by rewrite Hargs. }
  destruct (assoc key (tool_block_index s)) as [i|] eqn:Hi.
  - (* the block of the call is known *)
    apply accepts_bind, accepts_ret. apply accepts_raise_unless. intros args Hargs.
    assert (∃ id, field "id" call = Some id) as [id Hid] by (destruct call; try done; by eexists).
    assert (∃ name, field "name" fn = Some name) as [name Hname] by (destruct fn; try done; by eexists).
    destruct (lookup_lt_is_Some_2 bs i) as [b Hb].
    { pose proof (ag_index _ _ _ _ _ _ H _ _ Hi) as Hki. apply lookup_lt_Some in Hki.
      by rewrite (ks_length _ _ _ _ _ _ H) in Hki. }
    destruct (agrees_known_call _ _ _ _ _ _ H key i id name args b Hi Hb) as (id' & name' & l & -> & Hagr).
    destruct (json_truthy args) eqn:Ht.
    + eapply accepts_yield; [eapply (read_delta _ _ _ _ _ _ _ _ Hb); reflexivity|].
      apply accepts_ret. eexists. split; [by apply Hitem|]. split; [|done]. split; [done|]. by do 5 eexists.
    + apply accepts_bind, accepts_ret, accepts_ret. eexists. split; [by apply Hitem|]. split; [|done].
      split; [done|]. by do 5 eexists.
  - (* a new block *)
    apply accepts_bind. eapply close_accepts; [exact H|].
    apply accepts_raise_unless. intros id Hid. apply accepts_raise_unless. intros name Hname.
    set (named := if json_truthy id then _ else _). destruct named as [id' ids] eqn:Hnamed.
    assert (Hid' : json_truthy id = true → id' = id) by (intros Ht; subst named; rewrite Ht in Hnamed; congruence).
    eapply accepts_yield; [apply read_start, (ag_next _ _ _ _ _ _ H)|]. apply accepts_ret.
    apply accepts_raise_unless. intros args Hargs.
    assert (Hnew : key ∉ sc_seen (scan items)).
    { intros [j Hj]%(ag_indexed _ _ _ _ _ _ H). congruence. }
    set (s1 := s <| tool_block_index := _ |> <| open_block := _ |> <| next_index := _ |> <| oa_ids := _ |>).
    pose proof (agrees_new_call _ s s1 _ _ _ _ H key id name args id' Hnew Hid' eq_refl eq_refl eq_refl) as Hagr.
    destruct (json_truthy args) eqn:Ht.
    + eapply accepts_yield; [apply read_delta_last; [apply (ag_next _ _ _ _ _ _ H)|done]|].
      apply accepts_ret. eexists. split; [by apply Hitem|]. split; [|done]. split; [done|]. by do 5 eexists.
    + apply accepts_bind, accepts_ret, accepts_ret. eexists. split; [by apply Hitem|]. split; [|done].
      split; [done|]. by do 5 eexists.
Qed.

Lemma same_meta_trans s1 s2 s3 : same_meta s1 s2 → same_meta s2 s3 → same_meta s1 s3.
Proof. unfold same_meta. intuition congruence. Qed.

Lemma on_calls_accepts calls : ∀ items s r,
  relates items s r →
  accepts r (on_calls uuid4 s calls) (λ s' r',
    ∃ new, mapM call_item calls = Some new ∧ relates (items ++ new) s' r' ∧ same_meta s s').
Proof.
  induction calls as [|call rest IH]; intros items s r H; simpl.
  - apply accepts_ret. exists []. by rewrite app_nil_r.
  - apply accepts_bind. eapply accepts_mono; [by apply on_call_accepts|]. intros s1 r1 (i & Hi & H1 & Hm1).
    eapply accepts_mono; [by apply IH|]. intros s2 r2 (new & Hnew & H2 & Hm2).
    exists (i :: new). rewrite Hi. simpl. rewrite Hnew. split; [done|].
    rewrite <- (assoc_L (++)) in H2. split; [exact H2|by eapply same_meta_trans].
Qed.

(** ** Chunks, lines and the end *)

(** The reason a message stops for, and its usage, after one more chunk. *)
Definition stop_after (reason : string) (chunk : Json) : string :=
  match choice ← first_choice chunk; field "finish_reason" choice with
  | Some f => if json_truthy f then default reason (reason_of OPENAI_FINISH_REASON_MAP "end_turn" f) else reason
  | None => reason
  end.

Definition usage_after (usage : json_dict) (chunk : Json) : json_dict :=
  match field "usage" chunk with
  | Some u => if json_truthy u then default usage (usage_update usage u) else usage
  | None => usage
  end.

(** What holds after the given chunks. *)
Definition stands (chunks : list Json) (s : ToAnthropic) (r : Reader) : Prop :=
  ∃ items, mapM chunk_items chunks = Some items ∧
    (if started s then relates (concat items) s r
     else r = RFresh ∧ chunks = [] ∧ open_block s = None ∧ next_index s = 0%nat ∧ tool_block_index s = []) ∧
    oa_stop_reason s = foldl stop_after "end_turn" chunks ∧ oa_usage s = foldl usage_after [] chunks.

Lemma relates_start m s :
  open_block s = None → next_index s = 0%nat → tool_block_index s = [] →
  relates [] (s <| started := true |>) (ROpen m [] false true).
Proof.
  intros Ho Hn Ht. split; [done|]. exists m, [], false, true, []. split; [done|].
  split; try done; simpl; rewrite ?Ht, ?Ho; try done. by intros k ?%not_elem_of_nil.
Qed.

Lemma mapM_snoc {A B} (f : A → option B) l x k y : mapM f l = Some k → f x = Some y → mapM f (l ++ [x]) = Some (k ++ [y]).
Proof.
  intros Hl Hx. apply mapM_Some. apply mapM_Some in Hl. apply Forall2_app; [done|]. by repeat constructor.
Qed.

Section whole.
Context (model : option string).

Lemma update_meta s chunk s' : update_model model s chunk = Some s' →
  started s' = started s ∧ open_block s' = open_block s ∧ next_index s' = next_index s ∧
  tool_block_index s' = tool_block_index s ∧ oa_stop_reason s' = oa_stop_reason s ∧ oa_usage s' = oa_usage s.
Proof.
  unfold update_model. destruct model; [by intros [= <-]|]. destruct (field "model" chunk); simpl; [|done].
  by intros [= <-].
Qed.

Lemma update_usage_meta s chunk s' : update_usage s chunk = Some s' →
  started s' = started s ∧ open_block s' = open_block s ∧ next_index s' = next_index s ∧
  tool_block_index s' = tool_block_index s ∧ oa_stop_reason s' = oa_stop_reason s ∧
  oa_usage s' = usage_after (oa_usage s) chunk.
Proof.
  unfold update_usage, usage_after. destruct (field "usage" chunk) as [u|]; simpl; [|done].
  destruct (json_truthy u); simpl; [|by intros [= <-]].
  destruct (usage_update (oa_usage s) u); simpl; [by intros [= <-]|done].
Qed.

Lemma relates_ext items s s' r :
  started s' = started s → open_block s' = open_block s → next_index s' = next_index s →
  tool_block_index s' = tool_block_index s → relates items s r → relates items s' r.
Proof.
  intros Hs Ho Hn Ht (Hst & m & bs & open & neat & ks & -> & H). split; [congruence|].
  exists m, bs, open, neat, ks. split; [done|]. destruct H. split; rewrite ?Ht, ?Ho, ?Hn; done.
Qed.

Lemma start_accepts chunks s0 s r items :
  stands chunks s0 r → mapM chunk_items chunks = Some items →
  started s = started s0 → open_block s = open_block s0 → next_index s = next_index s0 →
  tool_block_index s = tool_block_index s0 →
  accepts r (if started s then mret s else start_message s;; mret (s <| started := true |>))
    (λ s' r', relates (concat items) s' r' ∧ same_meta s s').
Proof.
  intros (items' & Hi & Hst & _) Hitems Hs Ho Hn Ht. assert (items' = items) as -> by congruence.
  rewrite Hs. destruct (started s0) eqn:Hs0.
  - apply accepts_ret. split; [|done]. by apply (relates_ext _ s0); rewrite ?Hs0.
  - destruct Hst as (-> & -> & Ho' & Hn' & Ht'). injection Hitems as <-.
    eapply accepts_yield; [done|]. apply accepts_ret. split; [|done]. apply relates_start; congruence.
Qed.

Lemma on_chunk_accepts chunks s r chunk :
  stands chunks s r → accepts r (on_chunk uuid4 model s chunk) (λ s' r', stands (chunks ++ [chunk]) s' r').
Proof.
  intros Hst. pose proof Hst as (items & Hi & _ & Hstop & Husage). unfold on_chunk.
  apply accepts_raise_unless. intros s1 (Hs1 & Ho1 & Hn1 & Ht1 & Hr1 & Hu1)%update_meta.
  apply accepts_raise_unless. intros s2 (Hs2 & Ho2 & Hn2 & Ht2 & Hr2 & Hu2)%update_usage_meta.
  apply accepts_raise_unless. intros choice Hc. apply accepts_raise_unless. intros delta Hd.
  apply accepts_bind. eapply accepts_mono; [apply (start_accepts chunks s s2 r items); try done; congruence|].
  intros s3 r3 [H3 [Hr3 Hu3]].
  apply accepts_raise_unless. intros text Htext.
  apply accepts_bind. eapply accepts_mono; [by apply on_text_accepts|]. intros s4 r4 [H4 [Hr4 Hu4]].
  apply accepts_raise_unless. intros tool_calls Htc. apply accepts_raise_unless. intros calls Hcalls.
  apply accepts_bind. eapply accepts_mono; [by apply on_calls_accepts|]. intros s5 r5 (new & Hnew & H5 & Hr5 & Hu5).
  apply accepts_raise_unless. intros fr Hfr.
  assert (Hchunk : chunk_items chunk = Some ((if json_truthy text then [IText text] else []) ++ new)).
  { unfold chunk_items. rewrite Hc. simpl. rewrite Hd. simpl. rewrite Htext. simpl. rewrite Htc. simpl.
    rewrite Hcalls. simpl. by rewrite Hnew. }
  assert (Hend : ∀ s', started s' = started s5 → open_block s' = open_block s5 → next_index s' = next_index s5 →
    tool_block_index s' = tool_block_index s5 → oa_usage s' = oa_usage s5 →
    oa_stop_reason s' = stop_after (oa_stop_reason s) chunk → stands (chunks ++ [chunk]) s' r5).
  { intros s' Hs' Ho' Hn' Ht' Hu' Hr'. eexists. split; [by eapply mapM_snoc|].
    rewrite concat_app. simpl. rewrite app_nil_r, <- (assoc_L (++)) in *. rewrite !foldl_app. simpl.
    split; [|split; [congruence|rewrite <- Husage, <- Hu1; congruence]].
    pose proof H5 as [Hstart _]. rewrite Hs', Hstart. by apply (relates_ext _ s5). }
  assert (Hstop' : stop_after (oa_stop_reason s) chunk =
    if json_truthy fr then default (oa_stop_reason s) (reason_of OPENAI_FINISH_REASON_MAP "end_turn" fr)
    else oa_stop_reason s).
  { unfold stop_after. rewrite Hc. simpl. by rewrite Hfr. }
  destruct (json_truthy fr).
  - apply accepts_raise_unless. intros reason Hreason. apply accepts_ret. apply Hend; try done.
    rewrite Hstop', Hreason. done.
  - apply accepts_ret, Hend; try done. congruence.
Qed.

(** The lines of the body, and the end of the stream. *)
Lemma openai_line_accepts chunks s r line :
  stands chunks s r →
  accepts r (openai_line uuid4 model s line) (λ f r',
    ∃ s', f = Continue s' ∧ stands (chunks ++ option_list (line_chunk line)) s' r').
Proof.
  intros H. unfold openai_line, line_chunk. destruct (data_payload line) as [payload|]; simpl.
  - case_decide; [|destruct (json_loads payload) as [chunk|]; simpl].
    + apply accepts_ret. exists s. by rewrite app_nil_r.
    + apply accepts_bind. eapply accepts_mono; [by apply on_chunk_accepts|]. intros s' r' H'.
      apply accepts_ret. eauto.
    + apply accepts_ret. exists s. by rewrite app_nil_r.
  - apply accepts_ret. exists s. by rewrite app_nil_r.
Qed.

Lemma openai_lines_accept lines : ∀ chunks s r,
  stands chunks s r →
  accepts r (handle_lines (openai_line uuid4 model) s lines) (λ f r',
    ∃ s', f = Continue s' ∧ stands (chunks ++ omap line_chunk lines) s' r').
Proof.
  induction lines as [|line lines IH]; intros chunks s r H; simpl.
  - apply accepts_ret. exists s. by rewrite app_nil_r.
  - apply accepts_bind. eapply accepts_mono; [by apply openai_line_accepts|]. intros f r' (s' & -> & H').
    eapply accepts_mono; [by apply IH|]. intros f r'' (s'' & -> & H''). exists s''. split; [done|].
    rewrite <- (assoc_L (++)) in H''. by destruct (line_chunk line).
Qed.

Lemma tool_blocks_keyed items ks bs : Forall2 (keyed items) ks bs → Forall2 (call_block items) (omap id ks) (tool_blocks bs).
Proof.
  induction 1 as [|ko b ks bs Hb _ IH]; [constructor|]. unfold tool_blocks.
  destruct ko as [k|]; simpl in *.
  - destruct Hb as (id & name & args & id' & Hm & Hid & ->). rewrite filter_cons_True by done.
    constructor; [|exact IH]. by exists id, name, args, id'.
  - destruct Hb as [l ->]. rewrite filter_cons_False by (simpl; tauto). exact IH.
Qed.

(** What a client has read when the stream ends. *)
Definition message_of (chunks : list Json) (items : list Item) (r : Reader) : Prop :=
  ∃ m bs, r = REnded m bs (sc_neat (scan items)) (foldl stop_after "end_turn" chunks)
                (_openai_usage_to_anthropic (foldl usage_after [] chunks)) ∧
    concat (block_texts <$> bs) = contents items ∧
    Forall2 (call_block items) (sc_seen (scan items)) (tool_blocks bs).

Lemma finish_accepts chunks s r :
  stands chunks s r →
  accepts r (finish s) (λ _ r', ∃ items, mapM chunk_items chunks = Some items ∧ message_of chunks (concat items) r').
Proof.
  intros H. pose proof H as (items & Hi & _ & Hstop & Husage). unfold finish.
  assert (Hstart : accepts r (if started s then mret tt else start_message s)
    (λ _ r', relates (concat items) (s <| started := true |>) r')).
  { destruct H as (items' & Hi' & Hst & _). assert (items' = items) as -> by congruence.
    destruct (started s) eqn:Hs.
    - apply accepts_ret. by apply (relates_ext _ s).
    - destruct Hst as (-> & -> & Ho & Hn & Ht). injection Hi as <-. exists (ROpen (stream_model s) [] false true).
      split; [done|]. intros _ _. by apply relates_start. }
  apply accepts_bind. eapply accepts_mono; [exact Hstart|]. intros [] r' (_ & m & bs & open & neat & ks & -> & Hagr).
  assert (Hagr' : agrees (concat items) s bs open neat ks) by (destruct Hagr; by split).
  eapply close_accepts; [exact Hagr'|].
  eapply accepts_yield; [done|]. eexists. split; [done|]. intros _ _. exists items. split; [done|].
  destruct Hagr as [Hk Hseen _ _ Htexts _ _ _ _ Hneat]. exists m, bs.
  rewrite Hstop, Husage, Hneat. split; [done|]. split; [done|]. rewrite <- Hseen. by apply tool_blocks_keyed.
Qed.

End whole.
End handlers.

(** C16: For every body, what [convert_streaming_response_openai_to_anthropic] yields is a
    well-formed message as far as it goes; when it ends, the client has read exactly the
    texts and the calls of the upstream, in order, each call in one block under the name and
    id it was first mentioned with, with all its arguments, the stop reason and the usage;
    and every delta came while its block was open exactly when the upstream does not
    interleave the arguments of its calls with anything else.  What the upstream sent is
    what its pieces decode to, each by itself; that is what is on the wire, wherever it is
    cut, when no piece is cut inside a character. *)
Theorem client_reads_what_was_sent {codec : Codec} (uuid4 : nat → string) (model : option string) (body : list Raw) :
  let '(events, end_) := convert_streaming_response_openai_to_anthropic uuid4 model body in
  (∃ r, read_all RFresh events = Some r ∧
    (end_ = Some tt → ∃ items, mapM chunk_items (chunks_of body) = Some items ∧
                              message_of (chunks_of body) (concat items) r)) ∧
  (Forall is_whole body → chunks_of body = chunks_in (join EmptyString (raw_bytes <$> body))).
Proof.
  destruct (convert_streaming_response_openai_to_anthropic uuid4 model body) as [events end_] eqn:Hrun.
  assert (H : accepts RFresh (convert_streaming_response_openai_to_anthropic uuid4 model body)
    (λ _ r, ∃ items, mapM chunk_items (chunks_of body) = Some items ∧ message_of (chunks_of body) (concat items) r)).
  { unfold convert_streaming_response_openai_to_anthropic. rewrite handle_chunks_lines by done.
    apply accepts_bind. eapply accepts_mono; [apply (openai_lines_accept uuid4 model _ [])|].
    - exists []. by split.
    - intros f r (s & -> & Hs). by apply finish_accepts. }
  rewrite Hrun in H. destruct H as (r & Hr & HQ). split; [|intros Hw; unfold chunks_of; by rewrite raw_whole].
  exists r. split; [exact Hr|]. intros ->. by apply (HQ tt).
Qed.

(** Conversions on concrete requests and streams. *)
Module FormatRuns.

(** ** Streams *)

Definition call_delta (index : Z) (fields function : json_dict) : Json :=
  JDict [("choices", JList [JDict [("delta",
    JDict [("tool_calls", JList [JDict ([("index", JInt index)] ++ fields ++ [("function", JDict function)])])])]])].

Definition sse_line (j : Json) : string := data_line (json_dumps j).

(** Two calls whose arguments take turns, as parallel calls of some servers do. *)
Definition interleaved : list string :=
  sse_line <$>
    [call_delta 0 [("id", JStr "a")] [("name", JStr "f"); ("arguments", JStr "{")];
     call_delta 1 [("id", JStr "b")] [("name", JStr "g"); ("arguments", JStr "{")];
     call_delta 0 [] [("arguments", JStr "}")];
     call_delta 1 [] [("arguments", JStr "}")]].

(** The last piece of the first call is sent for a block that was closed before. *)
Example interleaved_calls_reach_a_closed_block :
  convert_streaming_response_openai_to_anthropic sample_uuid (Some "m") (RawText <$> interleaved) =
    ([MessageStart (JStr "m");
      BlockStart 0 (ToolUseBlock (JStr "a") (JStr "f")); BlockDelta 0 (InputJsonDelta (JStr "{")); BlockStop 0;
      BlockStart 1 (ToolUseBlock (JStr "b") (JStr "g")); BlockDelta 1 (InputJsonDelta (JStr "{"));
      BlockDelta 0 (InputJsonDelta (JStr "}")); BlockDelta 1 (InputJsonDelta (JStr "}")); BlockStop 1;
      MessageDelta "end_turn" [("input_tokens", JInt 0); ("output_tokens", JInt 0)]; MessageStop], Some tt).
Proof. vm_compute. reflexivity. Qed.

Example interleaving_is_noticed :
  sc_neat (scan [ICall (JInt 0) JNull JNull (JStr "{"); ICall (JInt 1) JNull JNull (JStr "{");
                 ICall (JInt 0) JNull JNull (JStr "}")]) = false.
Proof. vm_compute. reflexivity. Qed.

(** A piece that ends inside a character, here an e with an acute accent: each half is
    replaced, and the client reads two replacement characters. *)
Definition e_acute : string := String (Ascii.ascii_of_nat 195) (String (Ascii.ascii_of_nat 169) EmptyString).

Example a_cut_character_is_replaced :
  let halves := [RawBytes (String (Ascii.ascii_of_nat 195) EmptyString);
                 RawBytes (String (Ascii.ascii_of_nat 169) EmptyString)] in
  join EmptyString (raw_bytes <$> halves) = e_acute ∧ raw_text (RawBytes e_acute) = e_acute ∧
  join EmptyString (raw_text <$> halves) = replacement +:+ replacement.
Proof. by vm_compute. Qed.

(** A stream that says nothing is still a message. *)
Example nothing_is_a_message :
  convert_streaming_response_openai_to_anthropic sample_uuid None [RawText "data: [DONE]"] =
    ([MessageStart (JStr "self-ai"); MessageDelta "end_turn" [("input_tokens", JInt 0); ("output_tokens", JInt 0)];
      MessageStop], Some tt).
Proof. vm_compute. reflexivity. Qed.

(** An error of Anthropic's ends the stream. *)
Example an_error_ends_the_stream :
  (convert_streaming_response_anthropic_to_openai
     (RawText <$> [sse_line (JDict [("type", JStr "error"); ("error", JDict [("message", JStr "overloaded")])]);
      sse_line (JDict [("type", JStr "message_stop")])])).1 =
    [Chunk (mkOpenAIChunk (JStr "anthropic") (DContent (stream_error_text (JStr "overloaded"))) (Some "stop") None); Done].
Proof. vm_compute. reflexivity. Qed.

(** ** Ollama *)

(** A reply of Ollama's that has no text yet, as one that thinks or calls a tool, is a chunk
    that finishes the message. *)
Definition finish_reason_of (j : option Json) : option Json :=
  j ← j; choice ← first_choice j; field "finish_reason" choice.

Example an_empty_piece_stops_the_stream :
  finish_reason_of (ollama_chunk sample_uuid 0 (λ _ _, JNull) 0
    (json_dumps (JDict [("message", JDict [("content", JStr "")]); ("done", JBool false)]))) = Some (JStr "stop").
Proof. vm_compute. reflexivity. Qed.

(** A turn of Anthropic's in which the assistant only calls a tool has no content in the
    OpenAI format, which the conversion for Ollama raises on. *)
Definition tool_turn : Json :=
  JDict [("role", JStr "assistant");
         ("content", JList [JDict [("type", JStr "tool_use"); ("id", JStr "a"); ("name", JStr "f"); ("input", JDict [])]])].

Example a_tool_turn_cannot_be_sent_to_ollama :
  (messages ← convert_messages_anthropic_to_openai (JList [tool_turn]) JNull;
   convert_messages_openai_to_ollama (JList messages)) = None.
Proof. vm_compute. reflexivity. Qed.

(** ** Requests *)

(** The mark that a tool failed is not passed on. *)
Definition failed_result : Json :=
  JDict [("role", JStr "user");
         ("content", JList [JDict [("type", JStr "tool_result"); ("tool_use_id", JStr "a"); ("content", JStr "no such file");
                                   ("is_error", JBool true)]])].

Example a_failure_is_passed_on_as_a_result :
  convert_messages_anthropic_to_openai (JList [failed_result]) JNull =
    Some [JDict [("role", JStr "tool"); ("tool_call_id", JStr "a"); ("content", JStr "no such file")]].
Proof. vm_compute. reflexivity. Qed.

(** Arguments that parse to something else than an object are sent as the input of a call;
    in a reply they are replaced. *)
Definition listed : string := json_dumps (JList [JInt 1]).

Example a_list_is_sent_as_input :
  tool_use_block (JDict [("function", JDict [("name", JStr "f"); ("arguments", JStr listed)])]) =
    Some (JDict [("type", JStr "tool_use"); ("id", JNull); ("name", JStr "f"); ("input", JList [JInt 1])]) ∧
  _anthropic_tool_input (JStr listed) = Some (JDict []).
Proof. vm_compute. split; reflexivity. Qed.

(** A system prompt in parts becomes the Python notation of the parts. *)
Example a_system_prompt_in_parts_is_printed :
  let parts := JList [JDict [("type", JStr "text"); ("text", JStr "Be brief.")]] in
  add_or_update_system_message "You are a pirate." (JList [JDict [("role", JStr "system"); ("content", parts)]]) =
    Some (JList [JDict [("role", JStr "system");
                        ("content", JStr ("You are a pirate." +:+ String newline (py_repr parts)))]]).
Proof. vm_compute. reflexivity. Qed.

(** ** Stored tool specs *)

(** A spec stored under the key of the model is accepted, and overridden by one under the
    key of the format. *)
Example an_input_schema_is_accepted :
  from_openai [("name", JStr "f"); ("input_schema", JDict [("a", JNull)])] =
    Ok (mkToolSpec "f" "" [("a", JNull)] None None) ∧
  from_openai [("name", JStr "f"); ("input_schema", JDict [("a", JNull)]); ("parameters", JDict [("b", JNull)])] =
    Ok (mkToolSpec "f" "" [("b", JNull)] None None).
Proof. vm_compute. split; reflexivity. Qed.

Example an_unknown_key_is_refused :
  from_openai [("name", JStr "f"); ("strict", JBool true); ("parametres", JNull)] = Raise (ToolSpecError ["parametres"; "strict"]).
Proof. vm_compute. reflexivity. Qed.

End FormatRuns.
