(* ===== verification/StreamRoundTrip.v ===== *)
(** A message streamed by Anthropic and passed on through the OpenAI format reaches a client
    of the Anthropic format as the events it was sent as. *)

From S2P Require Import Prelude Data Formats Replies GenFacts.

(** ** Streams, frame by frame *)

Section feed.
Context {F St E : Type} (handle : St → E → gen F (flow St)).

Fixpoint feed (st : St) (es : list E) : gen F (flow St) :=
  match es with
  | [] => mret (Continue st)
  | e :: rest => next ← handle st e; match next with Continue st => feed st rest | Return => mret Return end
  end.

Lemma feed_app st es es' :
  feed st (es ++ es') =
    next ← feed st es; match next with Continue st => feed st es' | Return => mret Return end.
Proof.
  revert st. induction es as [|e es IH]; intros st; simpl; [by apply gen_eq|].
  rewrite gen_bind_assoc. apply gen_bind_ext. intros [st'|]; [done|by apply gen_eq].
Qed.

Lemma feed_then st st' out es es' : feed st es = (out, Some (Continue st')) →
  feed st (es ++ es') = (out ++ (feed st' es').1, (feed st' es').2).
Proof. intros Hes. rewrite feed_app, Hes. done. Qed.

(** Frames that go on. *)
Lemma feed_cons st st' out e es : handle st e = (out, Some (Continue st')) →
  feed st (e :: es) = (out ++ (feed st' es).1, (feed st' es).2).
Proof. intros He. simpl. by rewrite He. Qed.

(** Frames that each go on from the same state. *)
Lemma feed_map {A} (ev : A → E) (fr : A → F) st l :
  (∀ x, x ∈ l → handle st (ev x) = ([fr x], Some (Continue st))) →
  feed st (ev <$> l) = (fr <$> l, Some (Continue st)).
Proof.
  induction l as [|x l IH]; intros H; [done|]. change (feed st (ev x :: (ev <$> l)) = (fr x :: (fr <$> l), Some (Continue st))).
  rewrite (feed_cons _ _ _ _ _ (H x (list_elem_of_here _ _))), IH by (intros y Hy; apply H; by right). done.
Qed.

(** A body of whole frames is handled frame by frame. *)
Lemma handle_chunks_frames (line : St → string → gen F (flow St)) (text : E → string) st es :
  Forall (λ e, ∃ lines, take_lines (text e) = (lines, EmptyString) ∧ ∀ st, handle_lines line st lines = handle st e) es →
  handle_chunks line EmptyString st (RawText ∘ text <$> es) = feed st es.
Proof.
  intros H. revert st. induction H as [|e es (lines & Hl & Hh) _ IH]; intros st; [done|].
  change (handle_chunks line EmptyString st (RawText (text e) :: (RawText ∘ text <$> es)) = feed st (e :: es)). cbn [handle_chunks].
  change (EmptyString +:+ raw_text (RawText (text e))) with (text e). rewrite Hl, Hh. simpl. apply gen_bind_ext. by intros [st'|].
Qed.
End feed.

(** ** Events *)

Section events.
Context {codec : Codec} {laws : CodecLaws codec} (message_id : string).

Lemma anthropic_line_data s j : json_ok j → is_dict j = true →
  anthropic_line s ("data: " +:+ json_dumps j) = on_event s j.
Proof. intros Hok Hj. unfold anthropic_line. rewrite data_payload_dumps by done. by rewrite loads_dumps. Qed.

Lemma openai_line_data uuid4 model s j : json_ok j → is_dict j = true →
  openai_line uuid4 model s ("data: " +:+ json_dumps j) = s ← on_chunk uuid4 model s j; mret (Continue s).
Proof.
  intros Hok Hj. unfold openai_line. rewrite data_payload_dumps by done. rewrite decide_False.
  - by rewrite loads_dumps.
  - destruct j; try done. by destruct (dumps_dict d) as (s' & -> & _).
Qed.

(** What an Anthropic event does to the converter of Anthropic's stream. *)
Definition on_sse (s : ToOpenAI) (e : AnthropicEvent) : gen OpenAIFrame (flow ToOpenAI) := on_event s (event_json message_id e).

Lemma anthropic_sse_lines (e : AnthropicEvent) :
  json_ok (event_json message_id e) →
  ∃ lines, take_lines (anthropic_sse message_id e) = (lines, EmptyString) ∧
    ∀ s, handle_lines anthropic_line s lines = on_sse s e.
Proof.
  intros Hok. exists ["event: " +:+ event_name e; "data: " +:+ json_dumps (event_json message_id e); EmptyString]. split.
  - unfold anthropic_sse, _sse.
    assert (Hn : plain_line ("event: " +:+ event_name e)) by (by destruct e).
    rewrite append_assoc, take_line_app by exact Hn.
    change (take_lines _) with (take_lines (data_line (json_dumps (event_json message_id e)))).
    by rewrite take_data_line.
  - intros s. assert (He : data_payload ("event: " +:+ event_name e) = None) by (by destruct e).
    rewrite handle_lines_skip by (unfold anthropic_line; by rewrite He).
    change (["data: " +:+ json_dumps (event_json message_id e); EmptyString])
      with (["data: " +:+ json_dumps (event_json message_id e)] ++ [EmptyString]).
    rewrite handle_lines_app, handle_lines_one, anthropic_line_data by done. unfold on_sse.
    destruct (on_event s _) as [out [[s'|]|]]; apply gen_eq; simpl; by rewrite ?app_nil_r.
Qed.
End events.

(** ** Messages *)

(** A block: a run of text, or a tool call, in the pieces it is streamed in. *)
Inductive Seg := SText (texts : list string) | SCall (id name : string) (partials : list string).

Definition seg_block (seg : Seg) : AnthropicBlock :=
  match seg with SText _ => TextBlock | SCall id name _ => ToolUseBlock (JStr id) (JStr name) end.
Definition seg_deltas (seg : Seg) : list AnthropicDelta :=
  match seg with
  | SText l => (λ t, TextDelta (JStr t)) <$> l
  | SCall _ _ l => (λ p, InputJsonDelta (JStr p)) <$> l
  end.

Fixpoint seg_events (i : nat) (segs : list Seg) : list AnthropicEvent :=
  match segs with
  | [] => []
  | seg :: rest =>
      BlockStart i (seg_block seg) :: (BlockDelta i <$> seg_deltas seg) ++ BlockStop i :: seg_events (S i) rest
  end.

(** The events of a message. *)
Definition message_events (model : string) (segs : list Seg) (stop_reason : string) (input output : Z)
    : list AnthropicEvent :=
  MessageStart (JStr model) :: seg_events 0 segs ++
  [MessageDelta stop_reason [("input_tokens", JInt input); ("output_tokens", JInt output)]; MessageStop].

(** Blocks as Anthropic streams them: no empty pieces, text in one block as long as no tool
    is called, and an id for every call. *)
Definition seg_ok (seg : Seg) : Prop :=
  match seg with
  | SText l => l ≠ [] ∧ Forall (λ t, t ≠ EmptyString) l
  | SCall id _ l => id ≠ EmptyString ∧ Forall (λ p, p ≠ EmptyString) l
  end.

Fixpoint separated (after_text : bool) (segs : list Seg) : Prop :=
  match segs with
  | [] => True
  | SText _ :: rest => after_text = false ∧ separated true rest
  | SCall _ _ _ :: rest => separated false rest
  end.

Definition reasons : list string := ["end_turn"; "max_tokens"; "tool_use"; "refusal"].

(** Its chunks in the OpenAI format; [k] calls came before. *)
Definition plain_chunk (model : Json) (d : OpenAIDelta) : OpenAIFrame := Chunk (mkOpenAIChunk model d None None).

Definition seg_frames (model : Json) (k : nat) (seg : Seg) : list OpenAIFrame :=
  match seg with
  | SText l => (λ t, plain_chunk model (DContent (JStr t))) <$> l
  | SCall id name l =>
      plain_chunk model (DToolStart k (JStr id) (JStr name)) ::
      ((λ p, plain_chunk model (DToolArguments k (JStr p))) <$> l)
  end.

Definition after_seg (k : nat) (seg : Seg) : nat := match seg with SText _ => k | SCall _ _ _ => S k end.

Fixpoint segs_frames (model : Json) (k : nat) (segs : list Seg) : list OpenAIFrame :=
  match segs with
  | [] => []
  | seg :: rest => seg_frames model k seg ++ segs_frames model (after_seg k seg) rest
  end.

(** ** From Anthropic *)

Section from_anthropic.
Context {codec : Codec} {laws : CodecLaws codec} (message_id : string).

Lemma on_text_delta s i t : t ≠ EmptyString →
  on_sse message_id s (BlockDelta i (TextDelta (JStr t))) = ([plain_chunk (ao_model s) (DContent (JStr t))], Some (Continue s)).
Proof.
  intros Ht. destruct t as [|c t]; [done|reflexivity].
Qed.

Lemma on_partial s i k p : p ≠ EmptyString → assoc (JInt (Z.of_nat i)) (tool_index_by_block s) = Some k →
  on_sse message_id s (BlockDelta i (InputJsonDelta (JStr p))) =
    ([plain_chunk (ao_model s) (DToolArguments k (JStr p))], Some (Continue s)).
Proof.
  intros Hp Hk. destruct p as [|c p]; [done|].
  cbv -[assoc tool_index_by_block Z.of_nat]. rewrite Hk. reflexivity.
Qed.

(** The blocks of a message. *)
Definition same_message (s s' : ToOpenAI) : Prop :=
  ao_model s' = ao_model s ∧ ao_usage s' = ao_usage s ∧ ao_finish_reason s' = ao_finish_reason s.

Lemma feed_seg s i seg : seg_ok seg → ∃ s',
  feed (on_sse message_id) s (BlockStart i (seg_block seg) :: (BlockDelta i <$> seg_deltas seg) ++ [BlockStop i]) =
    (seg_frames (ao_model s) (next_tool_index s) seg, Some (Continue s')) ∧
  same_message s s' ∧ next_tool_index s' = after_seg (next_tool_index s) seg.
Proof.
  destruct seg as [l|id name l]; intros [Hid Hl]; simpl seg_block.
  - exists s. split; [|done]. assert (H0 : on_sse message_id s (BlockStart i TextBlock) = ([], Some (Continue s))) by reflexivity.
    rewrite (feed_cons _ _ _ _ _ _ H0), feed_app.
    simpl seg_deltas. rewrite <- list_fmap_compose.
    rewrite (feed_map _ _ (λ t, plain_chunk (ao_model s) (DContent (JStr t)))).
    + simpl. by rewrite app_nil_r.
    + intros t Ht. apply on_text_delta. by rewrite Forall_forall in Hl; apply Hl.
  - set (s' := s <| tool_index_by_block := (JInt (Z.of_nat i), next_tool_index s) :: tool_index_by_block s |>
                 <| next_tool_index := S (next_tool_index s) |>).
    exists s'. split; [|done].
    assert (H0 : on_sse message_id s (BlockStart i (ToolUseBlock (JStr id) (JStr name))) =
      ([plain_chunk (ao_model s) (DToolStart (next_tool_index s) (JStr id) (JStr name))], Some (Continue s'))) by reflexivity.
    rewrite (feed_cons _ _ _ _ _ _ H0).
    rewrite feed_app. simpl seg_deltas. rewrite <- list_fmap_compose.
    rewrite (feed_map _ _ (λ p, plain_chunk (ao_model s) (DToolArguments (next_tool_index s) (JStr p)))).
    + simpl. by rewrite app_nil_r.
    + intros p Hp. apply (on_partial s'); [by rewrite Forall_forall in Hl; apply Hl|].
      simpl. rewrite assoc_cons. by rewrite decide_True.
Qed.

Lemma feed_segs segs : ∀ s i, Forall seg_ok segs → ∃ s',
  feed (on_sse message_id) s (seg_events i segs) =
    (segs_frames (ao_model s) (next_tool_index s) segs, Some (Continue s')) ∧ same_message s s'.
Proof.
  induction segs as [|seg segs IH]; intros s i Hok; [by exists s|].
  apply Forall_cons in Hok as [Hseg Hok]. destruct (feed_seg s i seg Hseg) as (s1 & H1 & (Hm & Hu & Hf) & Hk).
  destruct (IH s1 (S i) Hok) as (s2 & H2 & (Hm2 & Hu2 & Hf2)).
  exists s2. split; [|by repeat split; etransitivity].
  change (seg_events i (seg :: segs)) with
    (BlockStart i (seg_block seg) :: (BlockDelta i <$> seg_deltas seg) ++ BlockStop i :: seg_events (S i) segs).
  rewrite (cons_middle (BlockStop i)), (assoc_L (++)), app_comm_cons, (feed_then _ _ _ _ _ _ H1), H2.
  simpl. by rewrite Hm, Hk.
Qed.
End from_anthropic.

(** ** Back to Anthropic *)

(** The frames with their numbers in the stream. *)
Fixpoint number {A} (n : nat) (l : list A) : list (nat * A) :=
  match l with [] => [] | x :: rest => (n, x) :: number (S n) rest end.

Lemma number_app {A} n (l l' : list A) : number n (l ++ l') = number n l ++ number (n + length l) l'.
Proof.
  revert n. induction l as [|x l IH]; intros n; simpl; [by rewrite Nat.add_0_r|]. by rewrite IH, Nat.add_succ_r.
Qed.

Section back.
Context {codec : Codec} {laws : CodecLaws codec} (uuid4 uuid4' : nat → string) (created : nat → Z) (model : string).

(** What a frame does to the converter of OpenAI's stream. *)
Definition on_frame (s : ToAnthropic) (nf : nat * OpenAIFrame) : gen AnthropicEvent (flow ToAnthropic) :=
  match nf.2 with
  | Chunk c => s ← on_chunk uuid4' (Some model) s (_anthropic_chunk uuid4 created nf.1 c); mret (Continue s)
  | Done => mret (Continue s)
  end.

Abbreviation frame_text := (λ nf : nat * OpenAIFrame, openai_sse uuid4 created nf.1 nf.2).

Lemma openai_sse_lines (nf : nat * OpenAIFrame) :
  (∀ c, nf.2 = Chunk c → json_ok (_anthropic_chunk uuid4 created nf.1 c)) →
  ∃ lines, take_lines (frame_text nf) = (lines, EmptyString) ∧
    ∀ s, handle_lines (openai_line uuid4' (Some model)) s lines = on_frame s nf.
Proof.
  destruct nf as [n [c|]]; simpl; intros Hok.
  - specialize (Hok c eq_refl). exists ["data: " +:+ json_dumps (_anthropic_chunk uuid4 created n c); EmptyString].
    split; [by rewrite take_data_line|]. intros s.
    change ([?a; ?b]) with ([a] ++ [b]). rewrite handle_lines_app, handle_lines_one, openai_line_data by done.
    unfold on_frame. cbn [fst snd].
    destruct (on_chunk _ _ _ _) as [out [s'|]]; apply gen_eq; simpl; by rewrite ?app_nil_r.
  - exists ["data: [DONE]"; EmptyString]. done.
Qed.

(** The end of the block that is open. *)
Definition closing (s : ToAnthropic) : list AnthropicEvent :=
  if decide (open_block s = None) then [] else [BlockStop (pred (next_index s))].

Definition text_opened (s : ToAnthropic) : ToAnthropic :=
  s <| open_block := Some text_open |> <| next_index := S (next_index s) |>.
Definition call_opened (s : ToAnthropic) (k : nat) : ToAnthropic :=
  s <| tool_block_index := (JInt (Z.of_nat k), next_index s) :: tool_block_index s |>
    <| open_block := Some tool_use_open |> <| next_index := S (next_index s) |>.

(** One frame of a block. *)
Lemma first_text_frame s n m t : started s = true → open_block s ≠ Some text_open → t ≠ EmptyString →
  on_frame s (n, plain_chunk m (DContent (JStr t))) =
    (closing s ++ [BlockStart (next_index s) TextBlock; BlockDelta (next_index s) (TextDelta (JStr t))],
     Some (Continue (text_opened s))).
Proof.
  destruct s as [sm st ni ob tbi r u ids]. simpl. intros -> Hob Ht. destruct t as [|c t]; [done|].
  destruct ob as [[]|]; [done| |]; reflexivity.
Qed.

Lemma next_text_frame s n m t : started s = true → open_block s = Some text_open → t ≠ EmptyString →
  on_frame s (n, plain_chunk m (DContent (JStr t))) =
    ([BlockDelta (pred (next_index s)) (TextDelta (JStr t))], Some (Continue s)).
Proof.
  destruct s as [sm st ni ob tbi r u ids]. simpl. intros -> -> Ht. by destruct t as [|c t].
Qed.

Lemma tool_start_frame s n m k id name : started s = true → assoc (JInt (Z.of_nat k)) (tool_block_index s) = None →
  id ≠ EmptyString →
  on_frame s (n, plain_chunk m (DToolStart k (JStr id) (JStr name))) =
    (closing s ++ [BlockStart (next_index s) (ToolUseBlock (JStr id) (JStr name))], Some (Continue (call_opened s k))).
Proof.
  destruct s as [sm st ni ob tbi r u ids]. simpl. intros -> Hk Hid. destruct id as [|c id]; [done|].
  destruct ob as [b|]; cbv -[assoc Z.of_nat]; rewrite Hk; reflexivity.
Qed.

Lemma argument_frame s n m k i p : started s = true → assoc (JInt (Z.of_nat k)) (tool_block_index s) = Some i →
  p ≠ EmptyString →
  on_frame s (n, plain_chunk m (DToolArguments k (JStr p))) =
    ([BlockDelta i (InputJsonDelta (JStr p))], Some (Continue s)).
Proof.
  destruct s as [sm st ni ob tbi r u ids]. simpl. intros -> Hk Hp. destruct p as [|c p]; [done|].
  cbv -[assoc Z.of_nat]; rewrite Hk; reflexivity.
Qed.
Lemma feed_number {A} (f : A → OpenAIFrame) (g : A → AnthropicEvent) s l : ∀ n,
  (∀ n x, x ∈ l → on_frame s (n, f x) = ([g x], Some (Continue s))) →
  feed on_frame s (number n (f <$> l)) = (g <$> l, Some (Continue s)).
Proof.
  induction l as [|x l IH]; intros n H; [done|].
  change (feed on_frame s ((n, f x) :: number (S n) (f <$> l)) = (g x :: (g <$> l), Some (Continue s))).
  rewrite (feed_cons _ _ _ _ _ _ (H n x (list_elem_of_here _ _))), IH by (intros m y Hy; apply H; by right). done.
Qed.

(** The state between blocks: no call from the [k]-th on is known, and [after_text] says
    whether the open block is text. *)
Definition between (k : nat) (after_text : bool) (s : ToAnthropic) : Prop :=
  started s = true ∧ (∀ k', (k ≤ k')%nat → assoc (JInt (Z.of_nat k')) (tool_block_index s) = None) ∧
  after_text = bool_decide (open_block s = Some text_open).

Definition is_text (seg : Seg) : bool := match seg with SText _ => true | SCall _ _ _ => false end.

Definition same_end (s s' : ToAnthropic) : Prop := oa_stop_reason s' = oa_stop_reason s ∧ oa_usage s' = oa_usage s.

Lemma seg_back m k s n seg after_text :
  seg_ok seg → between k after_text s → after_text && is_text seg = false → ∃ s',
  feed on_frame s (number n (seg_frames m k seg)) =
    (closing s ++ BlockStart (next_index s) (seg_block seg) :: (BlockDelta (next_index s) <$> seg_deltas seg), Some (Continue s')) ∧
  between (after_seg k seg) (is_text seg) s' ∧ closing s' = [BlockStop (next_index s)] ∧ next_index s' = S (next_index s) ∧
  same_end s s'.
Proof.
  intros Hok (Hs & Hfresh & Hat) Hsep. destruct seg as [l|id name l].
  - destruct Hok as [Hne Hl]. destruct l as [|t l]; [done|]. apply Forall_cons in Hl as [Ht Hl].
    assert (Hob : open_block s ≠ Some text_open).
    { simpl in Hsep. rewrite andb_true_r in Hsep. subst. by apply bool_decide_eq_false in Hsep. }
    exists (text_opened s). split; [|done].
    change (number n (seg_frames m k (SText (t :: l)))) with
      ((n, plain_chunk m (DContent (JStr t))) :: number (S n) ((λ t, plain_chunk m (DContent (JStr t))) <$> l)).
    rewrite (feed_cons _ _ _ _ _ _ (first_text_frame _ _ _ _ Hs Hob Ht)).
    rewrite (feed_number _ (λ t, BlockDelta (next_index s) (TextDelta (JStr t)))).
    + simpl. by rewrite <- (assoc_L (++)), <- list_fmap_compose.
    + intros n' t' Ht'. apply next_text_frame; [done|done|]. by rewrite Forall_forall in Hl; apply Hl.
  - destruct Hok as [Hid Hl]. exists (call_opened s k). split; [|split; [|done]].
    + assert (Hk : assoc (JInt (Z.of_nat k)) (tool_block_index s) = None) by (by apply Hfresh).
      change (number n (seg_frames m k (SCall id name l))) with
        ((n, plain_chunk m (DToolStart k (JStr id) (JStr name))) ::
         number (S n) ((λ p, plain_chunk m (DToolArguments k (JStr p))) <$> l)).
      rewrite (feed_cons _ _ _ _ _ _ (tool_start_frame _ _ _ _ _ _ Hs Hk Hid)).
      rewrite (feed_number _ (λ p, BlockDelta (next_index s) (InputJsonDelta (JStr p)))).
      * simpl. by rewrite <- (assoc_L (++)), <- list_fmap_compose.
      * intros n' p Hp. apply argument_frame; [done| |].
        -- simpl. rewrite assoc_cons. by rewrite decide_True.
        -- by rewrite Forall_forall in Hl; apply Hl.
    + split; [done|]. split; [|done]. intros k' Hk'. simpl in *. rewrite assoc_cons, decide_False.
      * apply Hfresh. lia.
      * intros [= Hkk%Nat2Z.inj]. lia.
Qed.

Lemma segs_back m segs : ∀ k s n after_text,
  Forall seg_ok segs → between k after_text s → separated after_text segs → ∃ out s',
  feed on_frame s (number n (segs_frames m k segs)) = (out, Some (Continue s')) ∧
  out ++ closing s' = closing s ++ seg_events (next_index s) segs ∧ started s' = true ∧ same_end s s'.
Proof.
  induction segs as [|seg segs IH]; intros k s n after_text Hok Hb Hsep.
  - exists [], s. simpl. rewrite app_nil_r. by destruct Hb.
  - apply Forall_cons in Hok as [Hseg Hok].
    assert (Hhere : after_text && is_text seg = false) by (destruct seg, after_text; naive_solver).
    assert (Hrest : separated (is_text seg) segs) by (destruct seg; naive_solver).
    destruct (seg_back m k s n seg after_text Hseg Hb Hhere) as (s1 & H1 & Hb1 & Hc1 & Hn1 & Hr1 & Hu1).
    destruct (IH _ s1 (n + length (seg_frames m k seg))%nat _ Hok Hb1 Hrest) as (out & s2 & H2 & Hout & Hs2 & Hr2 & Hu2).
    eexists _, s2. cbn [segs_frames]. rewrite number_app, (feed_then _ _ _ _ _ _ H1), H2. split; [done|].
    split; [|split; [done|split; etransitivity; done]].
    cbn [fst seg_events]. rewrite <- !(assoc_L (++)). f_equal. simpl. f_equal.
    by rewrite <- ?(assoc_L (++)), Hout, Hc1, Hn1.
Qed.
End back.

(** ** The whole message *)

Lemma reason_there_and_back r : r ∈ reasons → ∃ f,
  reason_of ANTHROPIC_STOP_REASON_MAP "stop" (JStr r) = Some f ∧ truthy (Some f) = Some f ∧
  reason_of OPENAI_FINISH_REASON_MAP "end_turn" (JStr f) = Some r ∧ json_truthy (JStr r) = true ∧ json_truthy (JStr f) = true.
Proof.
  unfold reasons. rewrite !elem_of_cons, elem_of_nil.
  intros [->|[->|[->|[->|[]]]]]; eexists; repeat split; reflexivity.
Qed.

Lemma py_or_int n : py_or (JInt n) (JInt 0) = JInt n.
Proof. unfold py_or. simpl. case_bool_decide; [done|]. destruct (decide (n = 0)); [by subst|done]. Qed.

Definition token_usage (input output : Z) : json_dict := [("input_tokens", JInt input); ("output_tokens", JInt output)].
Definition openai_usage (input output : Z) : json_dict :=
  [("prompt_tokens", JInt input); ("completion_tokens", JInt output); ("total_tokens", JInt (input + output))].

Lemma usage_there input output : _anthropic_usage_to_openai (token_usage input output) = Some (openai_usage input output).
Proof. unfold _anthropic_usage_to_openai, tokens. simpl. by rewrite !py_or_int. Qed.

Lemma usage_back input output : _openai_usage_to_anthropic (openai_usage input output) = token_usage input output.
Proof. unfold _openai_usage_to_anthropic, tokens. simpl. by rewrite !py_or_int. Qed.

Lemma seg_events_ok message_id segs : ∀ i, Forall (λ e, json_ok (event_json message_id e)) (seg_events i segs).
Proof.
  induction segs as [|seg segs IH]; intros i; [constructor|]. simpl. constructor.
  - destruct seg; unfold event_json; simpl; solve_json_ok.
  - apply Forall_app. split.
    + destruct seg as [l|id name l]; simpl; rewrite Forall_fmap, Forall_fmap; apply Forall_true; intros x;
        unfold compose, event_json; simpl; solve_json_ok.
    + constructor; [unfold event_json; simpl; solve_json_ok|apply IH].
Qed.

Definition frame_ok (uuid4 : nat → string) (created : nat → Z) (f : OpenAIFrame) : Prop :=
  ∀ n c, f = Chunk c → json_ok (_anthropic_chunk uuid4 created n c).

Lemma segs_frames_ok uuid4 created model segs : ∀ k, Forall (frame_ok uuid4 created) (segs_frames (JStr model) k segs).
Proof.
  induction segs as [|seg segs IH]; intros k; [constructor|]. simpl. apply Forall_app. split; [|apply IH].
  destruct seg as [l|id name l]; simpl; [|constructor].
  2: { intros n c [= <-]. unfold _anthropic_chunk. simpl. solve_json_ok. }
  all: rewrite Forall_fmap; apply Forall_true; intros x n c [= <-]; unfold _anthropic_chunk; simpl; solve_json_ok.
Qed.

Lemma delta_event {codec : Codec} message_id st r finish input output : r ∈ reasons →
  reason_of ANTHROPIC_STOP_REASON_MAP "stop" (JStr r) = Some finish → ao_usage st = token_usage 0 0 →
  on_sse message_id st (MessageDelta r (token_usage input output)) =
    ([], Some (Continue (st <| ao_finish_reason := Some finish |> <| ao_usage := token_usage input output |>))).
Proof.
  destruct st as [sm su sf stb sn]. simpl. unfold reasons. rewrite !elem_of_cons, elem_of_nil.
  intros [->|[->|[->|[->|[]]]]] [= <-] ->; reflexivity.
Qed.

Lemma stop_event {codec : Codec} message_id st f input output : ao_finish_reason st = Some f → truthy (Some f) = Some f →
  ao_usage st = token_usage input output →
  on_sse message_id st MessageStop =
    ([Chunk (mkOpenAIChunk (ao_model st) DNone (Some f) (Some (openai_usage input output)))], Some (Continue st)).
Proof.
  destruct st as [sm su sf stb sn]. cbn [ao_finish_reason ao_usage ao_model]. intros -> Hf ->.
  unfold on_sse, on_event. rewrite (gen_raise_some _ (JStr "message_stop")) by done.
  change (on_message_stop (mkToOpenAI sm (token_usage input output) (Some f) stb sn) =
    ([Chunk (mkOpenAIChunk sm DNone (Some f) (Some (openai_usage input output)))],
     Some (Continue (mkToOpenAI sm (token_usage input output) (Some f) stb sn)))).
  unfold on_message_stop. cbn [ao_usage ao_finish_reason ao_model]. rewrite decide_False by done.
  rewrite usage_there. cbn [fmap option_fmap option_map]. rewrite (gen_raise_some _ _ _ eq_refl). by rewrite Hf.
Qed.

Lemma last_frame {codec : Codec} uuid4 uuid4' created model s n m finish input output r :
  started s = true → reason_of OPENAI_FINISH_REASON_MAP "end_turn" (JStr finish) = Some r →
  json_truthy (JStr finish) = true → oa_usage s = [] →
  on_frame uuid4 uuid4' created model s (n, Chunk (mkOpenAIChunk m DNone (Some finish) (Some (openai_usage input output)))) =
    ([], Some (Continue (s <| oa_usage := openai_usage input output |> <| oa_stop_reason := r |>))).
Proof.
  destruct s as [sm st ni ob tbi rs u ids]. simpl. intros -> Hr Ht ->.
  destruct finish as [|c finish]; [done|].
  cbv -[reason_of OPENAI_FINISH_REASON_MAP Z.add]. cbv -[reason_of OPENAI_FINISH_REASON_MAP Z.add] in Hr.
  rewrite Hr. reflexivity.
Qed.

Lemma finish_frames s : started s = true →
  finish s = (closing s ++ [MessageDelta (oa_stop_reason s) (_openai_usage_to_anthropic (oa_usage s)); MessageStop], Some tt).
Proof. intros Hs. unfold finish, closing. rewrite Hs. by destruct (decide (open_block s = None)). Qed.

Section whole.
Context {codec : Codec} {laws : CodecLaws codec} (uuid4 uuid4' : nat → string) (created : nat → Z).
Context (message_id m : string) (segs : list Seg) (r : string) (input output : Z).
Context (segs_fine : Forall seg_ok segs) (r_fine : r ∈ reasons).

(** The OpenAI chunks of the message. *)
Definition message_frames (finish : string) : list OpenAIFrame :=
  plain_chunk (JStr m) DRole :: segs_frames (JStr m) 0 segs ++
  [Chunk (mkOpenAIChunk (JStr m) DNone (Some finish) (Some (openai_usage input output)))].

Lemma there finish : reason_of ANTHROPIC_STOP_REASON_MAP "stop" (JStr r) = Some finish → truthy (Some finish) = Some finish →
  json_truthy (JStr r) = true →
  convert_streaming_response_anthropic_to_openai
    (RawText ∘ anthropic_sse message_id <$> message_events m segs r input output) =
    (message_frames finish ++ [Done], Some tt).
Proof.
  intros Hr Hf Ht. unfold convert_streaming_response_anthropic_to_openai.
  rewrite (handle_chunks_frames (on_sse message_id)).
  2: { apply (Forall_impl (λ e, json_ok (event_json message_id e))); [|intros e He; by apply anthropic_sse_lines]. unfold message_events.
       constructor; [unfold event_json; simpl; solve_json_ok|]. apply Forall_app. split; [apply seg_events_ok|].
       constructor; [|constructor; [|constructor]]; unfold event_json; simpl; solve_json_ok. }
  set (s0 := to_openai_init <| ao_model := JStr m |> <| ao_usage := token_usage 0 0 |>).
  assert (H0 : on_sse message_id to_openai_init (MessageStart (JStr m)) =
    ([plain_chunk (JStr m) DRole], Some (Continue s0))) by reflexivity.
  destruct (feed_segs message_id segs s0 0 segs_fine) as (s1 & H1 & (Hm1 & Hu1 & _)).
  set (s2 := s1 <| ao_finish_reason := Some finish |> <| ao_usage := token_usage input output |>).
  assert (H2 : on_sse message_id s1 (MessageDelta r (token_usage input output)) = ([], Some (Continue s2)))
    by (apply delta_event; done).
  assert (H3 : on_sse message_id s2 MessageStop =
    ([Chunk (mkOpenAIChunk (ao_model s2) DNone (Some finish) (Some (openai_usage input output)))], Some (Continue s2)))
    by (by apply stop_event).
  unfold message_events. rewrite (feed_cons _ _ _ _ _ _ H0), (feed_then _ _ _ _ _ _ H1).
  rewrite (feed_cons _ _ _ _ _ _ H2), (feed_cons _ _ _ _ _ _ H3). apply gen_eq; [|done].
  simpl. by rewrite Hm1, <- !(assoc_L (++)).
Qed.

Lemma back finish (m' : string) : m' ≠ EmptyString →
  reason_of OPENAI_FINISH_REASON_MAP "end_turn" (JStr finish) = Some r → json_truthy (JStr finish) = true →
  separated false segs →
  convert_streaming_response_openai_to_anthropic uuid4' (Some m')
    (RawText ∘ (λ nf, openai_sse uuid4 created nf.1 nf.2) <$> number 0 (message_frames finish ++ [Done])) =
    (message_events m' segs r input output, Some tt).
Proof.
  intros Hm' Hr Ht Hsep. unfold convert_streaming_response_openai_to_anthropic.
  rewrite (handle_chunks_frames (on_frame uuid4 uuid4' created m')).
  2: { apply (Forall_impl (λ nf, frame_ok uuid4 created nf.2)).
       2: { intros [n f] Hf. apply openai_sse_lines. intros c Hc. by apply Hf. }
       assert (Hnum : ∀ fs n, Forall (frame_ok uuid4 created) fs → Forall (λ nf, frame_ok uuid4 created nf.2) (number n fs)).
       { intros fs n Hfs. revert n. induction Hfs; intros n'; constructor; auto. }
       apply Hnum. unfold message_frames. apply Forall_app. split; [constructor; [|apply Forall_app; split]|].
       - intros n c [= <-]. unfold _anthropic_chunk. simpl. solve_json_ok.
       - apply segs_frames_ok.
       - constructor; [|constructor]. intros n c [= <-]. unfold _anthropic_chunk. simpl. solve_json_ok.
       - constructor; [|constructor]. by intros n c. }
  set (s0 := mkToAnthropic (JStr m') true 0 None [] "end_turn" [] 1).
  assert (H0 : on_frame uuid4 uuid4' created m' (to_anthropic_init (Some m')) (0%nat, plain_chunk (JStr m) DRole) =
    ([MessageStart (JStr m')], Some (Continue s0))) by (by destruct m').
  destruct (segs_back uuid4 uuid4' created m' (JStr m) segs 0 s0 1 false segs_fine) as (out & s1 & H1 & Hout & Hs1 & Hr1 & Hu1);
    [done|done|].
  set (s2 := s1 <| oa_usage := openai_usage input output |> <| oa_stop_reason := r |>).
  assert (H2 : ∀ n, on_frame uuid4 uuid4' created m' s1
    (n, Chunk (mkOpenAIChunk (JStr m) DNone (Some finish) (Some (openai_usage input output)))) = ([], Some (Continue s2))).
  { intros n. apply last_frame; [done|done|done|by rewrite Hu1]. }
  assert (Hfeed : feed (on_frame uuid4 uuid4' created m') (to_anthropic_init (Some m')) (number 0 (message_frames finish ++ [Done])) =
    (MessageStart (JStr m') :: out, Some (Continue s2))).
  { unfold message_frames. rewrite <- app_comm_cons. cbn [number].
    rewrite (feed_cons _ _ _ _ _ _ H0), number_app, number_app, <- (assoc_L (++)), (feed_then _ _ _ _ _ _ H1).
    cbn [number app]. rewrite (feed_cons _ _ _ _ _ _ (H2 _)). apply gen_eq; [|done]. simpl. by rewrite app_nil_r. }
  rewrite Hfeed. unfold mbind, gen_bind. cbn [fst snd]. rewrite finish_frames by done. apply gen_eq; [|done].
  change (closing s2) with (closing s1). change (oa_usage s2) with (openai_usage input output). rewrite usage_back.
  change (oa_stop_reason s2) with r. cbn [fst]. rewrite <- app_comm_cons, (assoc_L (++)), Hout. done.
Qed.
End whole.

(** The text of a body. *)
Definition body_text (body : list Raw) : string := join EmptyString (raw_bytes <$> body).

Lemma whole_texts (texts : list string) : Forall is_whole (RawText <$> texts).
Proof. by apply Forall_fmap, Forall_true. Qed.
Lemma texts_body (texts : list string) : body_text (RawText <$> texts) = join EmptyString texts.
Proof. unfold body_text. by rewrite <- list_fmap_compose, list_fmap_id. Qed.

(** C18: A message streamed by Anthropic, read from its text, passed on as OpenAI chunks and
    converted back is the message that was sent, event by event, under the id and the model
    the client asked for: no text, tool input, stop reason or token count is lost or moved,
    however the two streams are cut, as long as it is between characters.  The message has
    blocks of text, no two in a row, and of tool calls, each in non-empty pieces, no
    thinking and no pings; its stop reason is one the formats both have; and it starts with
    no tokens counted, the counts coming at its end. *)
Theorem a_streamed_message_survives {codec : Codec} (uuid4 uuid4' : nat → string) (created : nat → Z)
    (message_id m m' : string) (segs : list Seg) (r : string) (input output : Z) (body : list Raw)
    (laws : CodecLaws codec) (segs_fine : Forall seg_ok segs) (apart : separated false segs) (r_fine : r ∈ reasons)
    (named : m' ≠ EmptyString) (whole : Forall is_whole body)
    (sent : body_text body = join EmptyString (anthropic_sse message_id <$> message_events m segs r input output)) :
  ∃ frames,
    convert_streaming_response_anthropic_to_openai body = (frames, Some tt) ∧
    ∀ body', Forall is_whole body' →
      body_text body' = join EmptyString ((λ nf, openai_sse uuid4 created nf.1 nf.2) <$> number 0 frames) →
      convert_streaming_response_openai_to_anthropic uuid4' (Some m') body' =
        (message_events m' segs r input output, Some tt).
Proof.
  destruct (reason_there_and_back r r_fine) as (f & Hthere & Hf & Hback & Htr & Htf).
  exists (message_frames m segs input output f ++ [Done]). split.
  - rewrite <- (there message_id m segs r input output segs_fine r_fine f) by done.
    unfold convert_streaming_response_anthropic_to_openai. rewrite list_fmap_compose.
    erewrite handle_chunks_cuts; [done|exact whole|apply whole_texts|]. unfold body_text in sent.
    rewrite sent. symmetry. apply texts_body.
  - intros body' whole' sent'.
    rewrite <- (back uuid4 uuid4' created m segs r input output segs_fine f m') by done.
    unfold convert_streaming_response_openai_to_anthropic. rewrite list_fmap_compose.
    erewrite handle_chunks_cuts; [done|exact whole'|apply whole_texts|]. unfold body_text in sent'.
    rewrite sent'. symmetry. apply texts_body.
Qed.

(** The body arrives as bytes, byte by byte. *)
Definition bytewise (s : string) : list Raw :=
  (λ c, RawBytes (String c EmptyString)) <$> String.list_ascii_of_string s.

Lemma a_streamed_message_survives_witness :
  let segs := [SText ["Let me "; "look."]; SCall "toolu_1" "search" ["{q:"; "1}"]; SCall "toolu_2" "time" []] in
  let text := join EmptyString (anthropic_sse "msg_1" <$> message_events "claude" segs "tool_use" 12 34) in
  ∃ frames,
    convert_streaming_response_anthropic_to_openai (bytewise text) = (frames, Some tt) ∧
    ∀ body', Forall is_whole body' →
      body_text body' = join EmptyString ((λ nf, openai_sse sample_uuid (λ _, 0) nf.1 nf.2) <$> number 0 frames) →
      convert_streaming_response_openai_to_anthropic sample_uuid (Some "house-model") body' =
        (message_events "house-model" segs "tool_use" 12 34, Some tt).
Proof.
  intros segs text.
  apply (a_streamed_message_survives sample_uuid sample_uuid (λ _, 0) "msg_1" "claude"); [apply sample_codec_laws| | | |done| |].
  - repeat constructor; done.
  - done.
  - by right; right; left.
  - by_decision.
  - by vm_compute.
Defined.
