(* ===== verification/ModTools.v ===== *)
(** The tools a conversation is offered: [mods/tools.py] (registration, the tools of a
    user, the rule for names that collide) and [get_tools] of [utils/tools.py].

    A Python function is known by its name: the functions of a toolkit, and the handlers
    of mods.  A mod's [handler] and a toolkit's attributes come with what executing their
    source left; the pydantic model of a tool and its two flags are not kept. *)

From Stdlib Require Import Ascii.
From S2P Require Import Prelude Data Accounts AccessControl Formats Studio Plugin.

(** What [str(e)] says of an exception. *)
Abbreviation Exn := string (only parsing).

(** A use that raises when there is no value: a missing key or attribute, a wrong type. *)
Definition type_error : Exn := "unsupported".
Definition expect {S A} (o : option A) : prog S Exn A :=
  match o with Some a => mret a | None => raise type_error end.

(** [try: m except Exception as e: h(e)] *)
Definition rescue {S A} (m : prog S Exn A) (h : Exn → prog S Exn A) : prog S Exn A := λ s,
  match m s with
  | (Raise e, s') => h e s'
  | r => r
  end.

(** ** Dicts of any values *)

Section dicts.
Context {A : Type}.
Implicit Types (d : list (string * A)).

(** [d[key] = v] *)
Fixpoint put (key : string) (v : A) d : list (string * A) :=
  match d with
  | [] => [(key, v)]
  | (k, x) :: rest => if decide (k = key) then (k, v) :: rest else (k, x) :: put key v rest
  end.

Fixpoint get (key : string) d : option A :=
  match d with
  | [] => None
  | (k, x) :: rest => if decide (k = key) then Some x else get key rest
  end.

(** How often a name occurs, [Counter(name for name, _ in pairs)]. *)
Definition count (name : string) d : nat := length (filter (λ nt, nt.1 = name) d).
End dicts.

(** ** Tools of mods *)

Record ModTool := mkModTool {
  mt_name : Json;
  mt_description : Json;
  mt_handler : string;
  mt_scope : Json;
  mt_parameters : Json;
  mt_output_schema : Json
}.

(** A tool as a mod declares it: the record, or the keyword arguments of one. *)
Inductive Declared :=
| DeclaredTool (t : ModTool)
| DeclaredDict (fields : json_dict) (handler : option string).

Inductive ModToolExn :=
| NotAModTool
| NoScope (index : nat)
| BadName (index : nat).

(** [re.compile(r"^[a-zA-Z0-9_-]{1,64}$").match(name)]; the [$] also matches before a last
    newline. *)
Definition is_name_char (c : ascii) : bool :=
  let n := nat_of_ascii c in
  bool_decide ((65 ≤ n)%nat ∧ (n ≤ 90)%nat ∨ (97 ≤ n)%nat ∧ (n ≤ 122)%nat ∨ (48 ≤ n)%nat ∧ (n ≤ 57)%nat ∨
               n = 95%nat ∨ n = 45%nat).

Definition matches_name (s : string) : bool :=
  bool_decide ((1 ≤ String.length s)%nat ∧ (String.length s ≤ 64)%nat) && all_chars is_name_char s.

Definition chop_newline (s : string) : string :=
  match string_rev s with
  | String c r => if decide (c = newline) then string_rev r else s
  | EmptyString => s
  end.

Definition is_valid_tool_name (name : Json) : bool :=
  match name with JStr s => matches_name s || matches_name (chop_newline s) | _ => false end.

(** [ModTool( **raw)] *)
Definition modtool_of (d : Declared) : option ModTool :=
  match d with
  | DeclaredTool t => Some t
  | DeclaredDict fields handler =>
      let optional key := default JNull (dict_lookup key fields) in
      if forallb (λ k, bool_decide (k ∈ ["name"; "description"; "scope"; "parameters"; "output_schema"])) fields.*1 then
        name ← dict_lookup "name" fields;
        description ← dict_lookup "description" fields;
        handler ← handler;
        scope ← dict_lookup "scope" fields;
        Some (mkModTool name description handler scope (optional "parameters") (optional "output_schema"))
      else None
  end.

Fixpoint validate_from (index : nat) (declared : list Declared) : result ModToolExn (list ModTool) :=
  match declared with
  | [] => Ok []
  | raw :: rest =>
      match modtool_of raw with
      | None => Raise NotAModTool
      | Some tool =>
          if negb (json_truthy (mt_scope tool)) then Raise (NoScope index)
          else if negb (is_valid_tool_name (mt_name tool)) then Raise (BadName index)
          else match validate_from (S index) rest with Ok tools => Ok (tool :: tools) | r => r end
      end
  end.

Definition validate_mod_tools (declared : list Declared) : result ModToolExn (list ModTool) := validate_from 0 declared.

Definition _no_param_schema : Json := JDict [("type", JStr "object"); ("properties", JDict [])].

(** ** Tools as a call may use them *)

(** The function of a toolkit, with the id it is injected with, or a mod's handler behind
    the guard for a user and the instance's defaults. *)
Inductive Callable :=
| Partial (toolkit_id function : string)
| Guarded (tool : ModTool) (user_id : string) (defaults : json_dict).

(** The value under the key [spec] of a tool's dict. *)
Inductive Spec :=
| Typed (s : ToolSpec)
| Plain (d : json_dict)
| NoSpec
| Alien.

Record ToolDict := mkToolDict {
  td_toolkit_id : string;
  td_callable : Callable;
  td_spec : option Spec
}.

#[export] Instance ToolDict_eta : Eta ToolDict := λ t, mkToolDict (td_toolkit_id t) (td_callable t) (td_spec t).

(** What a tool's function returned: a JSON value, or one [json.dumps] refuses. *)
Inductive Output := Value (j : Json) | Unserializable.

(** Something the conversation did to a tool, its page tools, or its status line. *)
Inductive Act :=
| Checked (user_id scope : string) (defaults : json_dict) (groups : list Group) (allowed : bool)
| Ran (c : Callable) (args : json_dict) (valves : option json_dict)
| Browsed (name : string) (argument : Json)
| Status (name : Json) (done : bool).

(** What a conversation shares with its tools: the rows and the loaded modules, the
    [valves] of the one [__user__] dict all toolkits are injected with, the group table as
    each check finds it, what functions and page tools will answer, and the messages. *)
Record Session := mkSession {
  ss_studio : Studio;
  ss_valves : option json_dict;
  ss_groups : list (list Group);
  ss_outputs : list (result Exn Output);
  ss_pages : list (result Exn string);
  ss_messages : list Json;
  ss_log : list Act
}.

#[export] Instance Session_eta : Eta Session := λ s,
  mkSession (ss_studio s) (ss_valves s) (ss_groups s) (ss_outputs s) (ss_pages s) (ss_messages s) (ss_log s).

Abbreviation session A := (prog Session Exn A).

Definition act (a : Act) : session unit := modify (λ s, s <| ss_log := ss_log s ++ [a] |>).

Definition next_groups : session (list Group) := λ s,
  match ss_groups s with
  | [] => (Ok [], s)
  | g :: rest => (Ok g, s <| ss_groups := rest |>)
  end.

Definition next_output : session Output := λ s,
  match ss_outputs s with
  | [] => (Raise type_error, s)
  | Ok o :: rest => (Ok o, s <| ss_outputs := rest |>)
  | Raise e :: rest => (Raise e, s <| ss_outputs := rest |>)
  end.

Definition next_page : session string := λ s,
  match ss_pages s with
  | [] => (Raise type_error, s)
  | Ok o :: rest => (Ok o, s <| ss_pages := rest |>)
  | Raise e :: rest => (Raise e, s <| ss_pages := rest |>)
  end.

(** A program over the rows and the loaded modules. *)
Definition over_studio {A} (m : studio A) : session A := λ s,
  match m (ss_studio s) with
  | (Ok a, t) => (Ok a, s <| ss_studio := t |>)
  | (Raise _, t) => (Raise type_error, s <| ss_studio := t |>)
  end.

Section tools.
Context (dialect : Dialect).

(** [has_permission], against the group table of the moment. *)
Definition permission_now (user_id : string) (scope : Json) (defaults : json_dict) : session bool :=
  scope ← expect (text_of scope);
  groups ← next_groups;
  let ok := has_permission dialect groups user_id scope defaults in
  act (Checked user_id scope defaults groups ok);;
  mret ok.

(** *** Assembly *)

(** [ToolSpec(name=..., description=..., input_schema=..., output_schema=...)] *)
Definition mod_spec (t : ModTool) : option ToolSpec :=
  match mt_name t, mt_description t, py_or (mt_parameters t) _no_param_schema, mt_output_schema t with
  | JStr name, JStr description, JDict schema, JNull => Some (mkToolSpec name description schema None None)
  | JStr name, JStr description, JDict schema, JDict out => Some (mkToolSpec name description schema None (Some out))
  | _, _, _, _ => None
  end.

Definition mod_prefix : string := "mod:".

Fixpoint assemble_mod_tools (tools : list ModTool) (manifest_id user_id : string) (defaults : json_dict)
    (assembled : list (string * ToolDict)) : session (list (string * ToolDict)) :=
  match tools with
  | [] => mret assembled
  | tool :: rest =>
      held ← permission_now user_id (mt_scope tool) defaults;
      if held : bool then
        spec ← expect (mod_spec tool);
        let td := mkToolDict (mod_prefix +:+ manifest_id) (Guarded tool user_id defaults) (Some (Typed spec)) in
        assemble_mod_tools rest manifest_id user_id defaults (put (ts_name spec) td assembled)
      else assemble_mod_tools rest manifest_id user_id defaults assembled
  end.

(** [load_result]: the mods that are loaded, with their validated tools; [None] without
    any loader. *)
Fixpoint assemble_mods (loaded : list (string * list ModTool)) (user_id : string) (defaults : json_dict)
    : session (list (string * ToolDict)) :=
  match loaded with
  | [] => mret []
  | (manifest_id, tools) :: rest =>
      pairs ← assemble_mod_tools tools manifest_id user_id defaults [];
      more ← assemble_mods rest user_id defaults;
      mret (pairs ++ more)
  end.

Definition assemble_for_user (load_result : option (list (string * list ModTool))) (user_id : string)
    (defaults : json_dict) : session (list (string * ToolDict)) :=
  match load_result with None => mret [] | Some loaded => assemble_mods loaded user_id defaults end.

(** *** Names that collide *)

(** [re.compile(r"[^a-zA-Z0-9_-]").sub("_", s)] *)
Fixpoint sanitized (s : string) : string :=
  match s with
  | EmptyString => EmptyString
  | String c s' => String (if is_name_char c then c else "_"%char) (sanitized s')
  end.

Definition collide_name (owner name : string) : string :=
  sanitized (removeprefix mod_prefix owner) +:+ "__" +:+ name.

Definition _spec_renamed_to (spec : Spec) (key : string) : Spec :=
  match spec with
  | Typed s => Typed (mkToolSpec key (ts_description s) (ts_input_schema s) (ts_title s) (ts_output_schema s))
  | Plain d => Plain (dict_set "name" (JStr key) d)
  | _ => spec
  end.

Definition renamed (tool : ToolDict) (key : string) : ToolDict :=
  tool <| td_spec := (λ spec, _spec_renamed_to spec key) <$> td_spec tool |>.

(** The key a pair is put under, and the tool put there. *)
Definition resolved_pair (pairs : list (string * ToolDict)) (nt : string * ToolDict) : string * ToolDict :=
  if decide (count nt.1 pairs = 1%nat) then nt
  else let key := collide_name (td_toolkit_id nt.2) nt.1 in (key, renamed nt.2 key).

Definition put_all {A} (kvs : list (string * A)) : list (string * A) := foldl (λ d kv, put kv.1 kv.2 d) [] kvs.

Definition resolve_collisions (pairs : list (string * ToolDict)) : list (string * ToolDict) :=
  put_all (resolved_pair pairs <$> pairs).

Definition yielded (reserved : list string) (nt : string * ToolDict) : string * ToolDict :=
  if decide (nt.1 ∈ reserved) then
    let key := collide_name (td_toolkit_id nt.2) nt.1 in (key, renamed nt.2 key)
  else nt.

Definition yield_names_to (tools : list (string * ToolDict)) (reserved : list string) : list (string * ToolDict) :=
  if decide (reserved = []) then tools else put_all (yielded reserved <$> tools).

(** *** The toolkits of a user *)

Section get_tools.
Context (execute : string → option ToolModule).
(** [hasattr(module, name)] *)
Context (has_attribute : ToolModule → string → bool).

(** [module.valves = module.Valves( **valves)]: what it is set to is read by nobody else
    here, that it can raise matters. *)
Definition set_valves (id : string) (m : ToolModule) : session unit :=
  match md_valves m with
  | Some cls =>
      if has_attribute m "valves" then
        s ← gets ss_studio;
        expect (vc_make cls (default [] (Tools.get_tool_valves_by_id id s)) ≫= λ _, Some tt)
      else mret tt
  | None => mret tt
  end.

(** [extra_params["__user__"]["valves"] = module.UserValves( **...)] *)
Definition set_user_valves (id user_id : string) (m : ToolModule) : session unit :=
  match md_user_valves m with
  | Some cls =>
      s ← gets ss_studio;
      stored ← expect (get_user_valves_by_id_and_user_id id user_id s);
      valves ← expect (match stored with JDict d => vc_make cls d | _ => None end);
      modify (λ s, s <| ss_valves := Some valves |>)
  | None => mret tt
  end.

Definition stored_tool (id : string) (m : ToolModule) (stored_spec : json_dict) : session (string * ToolDict) :=
  spec ← match from_openai stored_spec with Ok spec => mret spec | Raise _ => raise type_error end;
  let spec := without_internal_params spec in
  if has_attribute m (ts_name spec) then
    mret (ts_name spec, mkToolDict id (Partial id (ts_name spec)) (Some (Typed spec)))
  else raise type_error.

Fixpoint stored_tools (id : string) (m : ToolModule) (specs : list json_dict) : session (list (string * ToolDict)) :=
  match specs with
  | [] => mret []
  | stored_spec :: rest =>
      nt ← stored_tool id m stored_spec;
      more ← stored_tools id m rest;
      mret (nt :: more)
  end.

Fixpoint collect_tools (tool_ids : list string) (user_id : string) : session (list (string * ToolDict)) :=
  match tool_ids with
  | [] => mret []
  | tool_id :: rest =>
      row ← gets (λ s, Tools.get_tool_by_id tool_id (ss_studio s));
      match row with
      | None => collect_tools rest user_id
      | Some tools =>
          m ← over_studio (tool_module execute tool_id);
          set_valves tool_id m;;
          set_user_valves tool_id user_id m;;
          collected ← stored_tools tool_id m (tl_specs tools);
          more ← collect_tools rest user_id;
          mret (collected ++ more)
      end
  end.

Definition get_tools (tool_ids : list string) (user_id : string) : session (list (string * ToolDict)) :=
  collected ← collect_tools tool_ids user_id;
  mret (resolve_collisions collected).
End get_tools.
End tools.
