(* ===== verification/ToolLoop.v ===== *)
(** The tool-calling loops of [utils/middleware.py], from [extract_client_tools] to
    [generate_chat_completion_with_tools], with [get_task_model_id] of [utils/task.py] and
    [get_last_user_message] of [utils/misc.py].

    What the model answers is a script; a completion may also rewrite the list of messages
    it is given, which is the loop's own list.  Emitting a status never fails. *)

From Stdlib Require Import Ascii.
From S2P Require Import Prelude Data Accounts AccessControl Formats Replies Studio ModTools.

Definition MAX_TOOL_CALL_ROUNDS : nat := 5.
Definition BUILTIN_TOOL_OWNER : string := "selfai".
Definition CLIENT_TOOL_DEFERRAL : string :=
  "This tool runs on the client, which cannot be reached in the middle of a turn. The results of the other tool calls in this round are above. Re-issue this call on its own, with no other tool call alongside it, and it will be dispatched.".

(** [x.get(key)] where [x] may be no dict. *)
Definition get_field {S} (key : string) (x : Json) : prog S Exn Json := expect (field key x).

(** ** Messages *)

Fixpoint first_text (items : list Json) : option Json :=
  match items with
  | [] => Some JNull
  | i :: rest =>
      type ← item "type" i;
      if json_is "text" type then item "text" i else first_text rest
  end.

Definition get_content_from_message (message : Json) : option Json :=
  content ← item "content" message;
  match content with
  | JList items => first_text items
  | _ => Some content
  end.

Fixpoint last_user_item (reversed : list Json) : option (option Json) :=
  match reversed with
  | [] => Some None
  | m :: rest =>
      role ← item "role" m;
      if json_is "user" role then Some (Some m) else last_user_item rest
  end.

(** [None] when a message has no role, or the user's no content. *)
Definition get_last_user_message (messages : list Json) : option Json :=
  m ← last_user_item (rev messages);
  match m with None => Some JNull | Some m => get_content_from_message m end.

(** ** Tool calls *)

(** The function tools the caller supplied; [None] when the code raises. *)
Definition client_tool (tool : Json) : option (option Json) :=
  match tool with
  | JDict d =>
      match default JNull (dict_lookup "type" d) with
      | JNull | JStr "function" =>
          name ← field "name" (py_or (default JNull (dict_lookup "function" d)) (JDict []));
          match name with
          | JStr s => Some (if decide (s = "") then None else Some tool)
          | _ => Some None
          end
      | _ => Some None
      end
  | _ => Some None
  end.

Definition extract_client_tools (form_data : json_dict) : option (list Json) :=
  tools ← iter_or_empty (default JNull (dict_lookup "tools" form_data));
  found ← mapM client_tool tools;
  Some (omap id found).

(** [tool["function"]["name"]] *)
Definition offered_name (tool : Json) : option string := (item "function" tool ≫= item "name") ≫= text_of.

Definition _tool_call_name (tool_call : Json) : option Json :=
  function ← field "function" tool_call;
  name ← field "name" (py_or function (JDict []));
  Some (py_or name (JStr "")).

Definition _tool_call_id (tool_call : Json) : option Json :=
  id ← field "id" tool_call;
  if json_truthy id then Some id else _tool_call_name tool_call.

(** [x in names], for a set of strings; [None] when [x] cannot be hashed. *)
Definition in_names (x : Json) (names : list string) : option bool :=
  key ← dict_key x;
  Some (match key with JStr s => bool_decide (s ∈ names) | _ => false end).

Fixpoint _partition_tool_calls (tool_calls : list Json) (client_tool_names : list string)
    : option (list Json * list Json) :=
  match tool_calls with
  | [] => Some ([], [])
  | tool_call :: rest =>
      name ← _tool_call_name tool_call;
      client ← in_names name client_tool_names;
      '(server_calls, client_calls) ← _partition_tool_calls rest client_tool_names;
      Some (if client : bool then (server_calls, tool_call :: client_calls)
            else (tool_call :: server_calls, client_calls))
  end.

(** [builtin_aliases.get(name, name)] *)
Definition canonical (builtin_aliases : list (string * string)) (name : Json) : option Json :=
  key ← dict_key name;
  Some (match key with JStr s => from_option JStr name (get s builtin_aliases) | _ => name end).

(** ** Dispatch *)

Section dispatch.
Context (dialect : Dialect) `{!Codec}.

(** [json.loads(function.get("arguments") or "{}")], or nothing. *)
Definition parsed_arguments (arguments : Json) : Json :=
  match py_or arguments (JStr "{}") with
  | JStr s => default (JDict []) (json_loads s)
  | _ => JDict []
  end.

(** [getattr(spec, "input_schema", None) or {}], then its [properties]. *)
Definition allowed_params (spec : option Spec) : Json :=
  match spec with
  | Some (Typed s) => py_or (default JNull (dict_lookup "properties" (ts_input_schema s))) (JDict [])
  | _ => JDict []
  end.

(** [{k: v for k, v in arguments.items() if k in allowed_params}] *)
Fixpoint filter_args (allowed : Json) (arguments : json_dict) : option json_dict :=
  match arguments with
  | [] => Some []
  | (k, v) :: rest =>
      keep ← py_in k allowed;
      kept ← filter_args allowed rest;
      Some (if keep : bool then (k, v) :: kept else kept)
  end.

(** Calling a tool's function; a mod's is behind its guard. *)
Definition invoke (c : Callable) (args : json_dict) : session Output :=
  match c with
  | Partial _ _ => valves ← gets ss_valves; act (Ran c args valves);; next_output
  | Guarded tool user_id defaults =>
      ok ← permission_now dialect user_id (mt_scope tool) defaults;
      if ok : bool then
        act (Ran c (filter (λ kv, negb (_is_internal kv.1)) args) None);;
        next_output
      else raise ("this action requires the '" +:+ fstring (mt_scope tool) +:+ "' permission")
  end.

Definition run_tool (tool : ToolDict) (arguments : Json) : session string :=
  rescue
    (args ← expect (match arguments with JDict d => filter_args (allowed_params (td_spec tool)) d | _ => None end);
     out ← invoke (td_callable tool) args;
     match out with
     | Value (JStr s) => mret s
     | Value j => mret (json_dumps j)
     | Unserializable => raise type_error
     end)
    (λ e, mret e).

Definition browse (name : string) (argument : Json) : session string := act (Browsed name argument);; next_page.

(** [arguments.get("query") or get_last_user_message(messages)] *)
Definition query_of (arguments : Json) : session Json :=
  query ← get_field "query" arguments;
  if json_truthy query then mret query
  else messages ← gets ss_messages; expect (get_last_user_message messages).

Definition url_of (arguments : Json) : session Json := url ← get_field "url" arguments; mret (py_or url (JStr "")).

(** A key of [admin_tools] is a string. *)
Definition admin_tool (name : Json) (admin_tools : list (string * ToolDict)) : option ToolDict :=
  match name with JStr s => get s admin_tools | _ => None end.

Definition _dispatch_tool_call (tool_call : Json) (admin_tools : list (string * ToolDict)) (metadata : Json)
    (builtin_aliases : list (string * string)) : session string :=
  function ← expect (get_or "function" tool_call (JDict []));
  offered ← get_field "name" function;
  name ← expect (canonical builtin_aliases offered);
  arguments ← get_field "arguments" function;
  let arguments := parsed_arguments arguments in
  if json_is "web_search" name then
    query ← query_of arguments; browse "web_search" query
  else if json_is "web_fetch" name then
    url ← url_of arguments; browse "web_fetch" url
  else if json_is "web_crawl" name then
    url ← url_of arguments; browse "web_crawl" url
  else if json_is "deep_research" name then
    features ← get_field "features" (py_or metadata (JDict []));
    enabled ← get_field "deep_research" (py_or features (JDict []));
    if json_truthy enabled then query ← query_of arguments; browse "deep_research" query
    else mret "Deep research is not enabled for this conversation."
  else
    match admin_tool name admin_tools with
    | Some tool =>
        act (Status name false);;
        tool_output ← run_tool tool arguments;
        act (Status name true);;
        mret tool_output
    | None => mret ("Unknown tool: " +:+ fstring name)
    end.

(** *** The answers of a round *)

Definition tool_message (id : Json) (content : string) : Json :=
  JDict [("role", JStr "tool"); ("tool_call_id", id); ("content", JStr content)].

Definition append_message (m : Json) : session unit := modify (λ s, s <| ss_messages := ss_messages s ++ [m] |>).

(** The two [for] loops at the end of a round. *)
Definition answer_round (server_calls client_calls : list Json) (admin_tools : list (string * ToolDict))
    (metadata : Json) (builtin_aliases : list (string * string)) : session unit :=
  for_each (λ tool_call,
    tool_output ← _dispatch_tool_call tool_call admin_tools metadata builtin_aliases;
    id ← expect (_tool_call_id tool_call);
    append_message (tool_message id tool_output)) server_calls;;
  for_each (λ tool_call,
    id ← expect (_tool_call_id tool_call);
    append_message (tool_message id CLIENT_TOOL_DEFERRAL)) client_calls.
End dispatch.

(** ** Conversations with the model *)

(** What a completion gives: an exception, a decoded body, or a stream of lines that ends
    or breaks off. *)
Inductive Reply :=
| Failed (e : Exn)
| Whole (body : Json)
| Streamed (lines : list string) (broken : option Exn).

Record Answer := mkAnswer {
  an_reply : Reply;
  (** what the call leaves in the list of messages it was handed *)
  an_touch : list Json → list Json
}.

Record Conv := mkConv {
  cv_session : Session;
  cv_answers : list Answer;
  cv_asked : list json_dict;     (* the payloads of the completions asked for *)
  cv_sent : list string;         (* the lines yielded to the client *)
  cv_closed : nat                (* how many responses were closed *)
}.

#[export] Instance Conv_eta : Eta Conv := λ c,
  mkConv (cv_session c) (cv_answers c) (cv_asked c) (cv_sent c) (cv_closed c).

Abbreviation conv A := (prog Conv Exn A).

Definition in_session {A} (m : session A) : conv A := λ c,
  match m (cv_session c) with
  | (Ok a, s) => (Ok a, c <| cv_session := s |>)
  | (Raise e, s) => (Raise e, c <| cv_session := s |>)
  end.

Definition touched (f : list Json → list Json) (c : Conv) : Conv :=
  let s := cv_session c in c <| cv_session := s <| ss_messages := f (ss_messages s) |> |>.

(** [await generate_chat_completion(request, payload, user)] *)
Definition generate_chat_completion (payload : json_dict) : conv Reply := λ c,
  let c := c <| cv_asked := cv_asked c ++ [payload] |> in
  match cv_answers c with
  | [] => (Raise type_error, c)
  | a :: rest =>
      let c := touched (an_touch a) (c <| cv_answers := rest |>) in
      match an_reply a with
      | Failed e => (Raise e, c)
      | r => (Ok r, c)
      end
  end.

(** A call whose exception is handled by the caller. *)
Definition tried {S A} (m : prog S Exn A) : prog S Exn (result Exn A) := λ s,
  match m s with (r, s') => (Ok r, s') end.

Definition send (line : string) : conv unit := modify (λ c, c <| cv_sent := cv_sent c ++ [line] |>).
Definition close : conv unit := modify (λ c, c <| cv_closed := S (cv_closed c) |>).

Definition messages_now : conv Json := gets (λ c, JList (ss_messages (cv_session c))).

Section loops.
Context (dialect : Dialect) `{!Codec}.

Definition blank_line : string := String newline (String newline EmptyString).
Definition sse (j : Json) : string := "data: " +:+ json_dumps j +:+ blank_line.
Definition sse_done : string := "data: [DONE]" +:+ blank_line.

(** The arguments of both loops. *)
Record Offer := mkOffer {
  of_form_data : json_dict;
  of_openai_tools : list Json;
  of_admin_tools : list (string * ToolDict);
  of_metadata : Json;
  of_client_tool_names : list string;
  of_builtin_aliases : list (string * string)
}.
Context (o : Offer).

(** [{**form_data, ...}] *)
Definition round_payload (stream : bool) : conv json_dict :=
  messages ← messages_now;
  mret (dict_update (of_form_data o)
    [("messages", messages); ("tools", JList (of_openai_tools o));
     ("tool_choice", py_or (default JNull (dict_lookup "tool_choice" (of_form_data o))) (JStr "auto"));
     ("stream", JBool stream)]).

(** *** The buffered loop *)

(** [(response.get("choices") or [{}])[0].get("message", {})] *)
Definition reply_message (response : Json) : option Json :=
  choices ← field "choices" response;
  match py_or choices (JList [JDict []]) with
  | JList (first :: _) => get_or "message" first (JDict [])
  | _ => None
  end.

(** [choices[0]["finish_reason"] = "tool_calls"] *)
Definition with_finish_reason (response : Json) : option Json :=
  choices ← field "choices" response;
  match choices with
  | JList (first :: rest) =>
      first ← set_item "finish_reason" (JStr "tool_calls") first;
      set_item "choices" (JList (first :: rest)) response
  | _ => if json_truthy choices then None else Some response
  end.

Definition body_of (r : Reply) : option Json := match r with Whole j => Some j | _ => None end.

Definition original_stream : Json := default (JBool false) (dict_lookup "stream" (of_form_data o)).

(** The plain completion after a failed one: the caller's tools are still in it. *)
Definition buffered_fallback : conv Reply :=
  messages ← messages_now;
  generate_chat_completion (dict_update (of_form_data o) [("messages", messages); ("stream", original_stream)]).

Definition buffered_last : conv Reply :=
  messages ← messages_now;
  generate_chat_completion
    (dict_update (of_form_data o) [("messages", messages); ("tools", JNull); ("stream", original_stream)]).

Definition finish_round (message : Json) (server_calls client_calls : list Json) : conv unit :=
  in_session (append_message message);;
  in_session (answer_round dialect server_calls client_calls (of_admin_tools o) (of_metadata o) (of_builtin_aliases o)).

Fixpoint buffered_rounds (rounds : nat) : conv Reply :=
  match rounds with
  | O => buffered_last
  | S rounds =>
      payload ← round_payload false;
      response ← tried (generate_chat_completion payload);
      match response with
      | Raise _ => buffered_fallback
      | Ok r =>
          response ← expect (body_of r);
          message ← expect (reply_message response);
          tool_calls ← get_field "tool_calls" message;
          if negb (json_truthy tool_calls) then mret (Whole response)
          else
            tool_calls ← expect (py_iter tool_calls);
            parts ← expect (_partition_tool_calls tool_calls (of_client_tool_names o));
            let '(server_calls, client_calls) := parts in
            if decide (server_calls = []) then
              response ← expect (with_finish_reason response);
              mret (Whole response)
            else
              finish_round message server_calls client_calls;;
              buffered_rounds rounds
      end
  end.

Definition _run_tool_calling_buffered : conv Reply := buffered_rounds MAX_TOOL_CALL_ROUNDS.

(** *** The streaming loop *)

(** A call under assembly. *)
Record Entry := mkEntry { en_id : Json; en_name : string; en_arguments : string }.
#[export] Instance Entry_eta : Eta Entry := λ e, mkEntry (en_id e) (en_name e) (en_arguments e).

Definition new_entry : Entry := mkEntry (JStr "") "" "".

Definition entry_json (e : Entry) : json_dict :=
  [("id", en_id e); ("type", JStr "function");
   ("function", JDict [("name", JStr (en_name e)); ("arguments", JStr (en_arguments e))])].

(** [tool_calls_by_index], the text, and the envelope. *)
Record Round := mkRound {
  rd_calls : list (Json * Entry);
  rd_content : list Json;
  rd_envelope : json_dict
}.
#[export] Instance Round_eta : Eta Round := λ r, mkRound (rd_calls r) (rd_content r) (rd_envelope r).

(** [entry["function"][key] += text], for a value that is true. *)
Definition grown (so_far : string) (more : Json) : option string :=
  if json_truthy more then (λ s, so_far +:+ s) <$> text_of more else Some so_far.

Definition entry_with (tc : Json) (e : Entry) : option Entry :=
  id ← field "id" tc;
  function ← field "function" tc;
  let fct := py_or function (JDict []) in
  name ← field "name" fct;
  name ← grown (en_name e) name;
  arguments ← field "arguments" fct;
  arguments ← grown (en_arguments e) arguments;
  Some (mkEntry (if json_truthy id then id else en_id e) name arguments).

(** [entry = calls.setdefault(idx, ...)], changed in place. *)
Fixpoint at_index (idx : Json) (f : Entry → option Entry) (calls : list (Json * Entry)) : option (list (Json * Entry)) :=
  match calls with
  | [] => e ← f new_entry; Some [(idx, e)]
  | (i, e) :: rest =>
      if decide (i = idx) then e ← f e; Some ((i, e) :: rest)
      else rest ← at_index idx f rest; Some ((i, e) :: rest)
  end.

Definition add_delta (calls : list (Json * Entry)) (tc : Json) : option (list (Json * Entry)) :=
  idx ← get_or "index" tc (JInt 0);
  idx ← dict_key idx;
  at_index idx (entry_with tc) calls.

Fixpoint add_deltas (calls : list (Json * Entry)) (tcs : list Json) : option (list (Json * Entry)) :=
  match tcs with
  | [] => Some calls
  | tc :: rest => calls ← add_delta calls tc; add_deltas calls rest
  end.

Definition envelope_of (envelope chunk : json_dict) : json_dict :=
  if decide (envelope = []) then
    omap (λ key, (λ v, (key, v)) <$> dict_lookup key chunk) ["id"; "created"; "model"; "system_fingerprint"]
  else envelope.

(** One parsed chunk up to its text: the round with it, whether the chunk is relayed, and
    its tool calls. *)
Definition take_chunk (r : Round) (chunk : Json) : option (Round * bool * Json) :=
  match chunk with
  | JDict d =>
      let r := r <| rd_envelope := envelope_of (rd_envelope r) d |> in
      let choices := py_or (default JNull (dict_lookup "choices" d)) (JList []) in
      if negb (json_truthy choices) then Some (r, false, JNull)
      else
        match choices with
        | JList (first :: _) =>
            delta ← get_or "delta" first (JDict []);
            let delta := py_or delta (JDict []) in
            content ← field "content" delta;
            tcs ← field "tool_calls" delta;
            Some (if json_truthy content then (r <| rd_content := rd_content r ++ [content] |>, true, tcs)
                  else (r, false, tcs))
        | _ => None
        end
  | _ => None
  end.

Definition data_prefix : string := "data: ".

(** One line of a round; [None] at the end mark. *)
Definition take_line (r : Round) (line : string) : conv (option Round) :=
  if decide (strip line = "") then mret (Some r)
  else if negb (starts_with data_prefix line) then mret (Some r)
  else
    let data_str := removeprefix data_prefix line in
    if decide (strip data_str = "[DONE]") then mret None
    else match json_loads data_str with
         | None => mret (Some r)
         | Some chunk =>
             next ← expect (take_chunk r chunk);
             let '(r, relayed, tcs) := next in
             (if relayed : bool then send (sse chunk) else mret tt);;
             calls ← expect (iter_or_empty tcs ≫= add_deltas (rd_calls r));
             mret (Some (r <| rd_calls := calls |>))
         end.

Fixpoint take_body (r : Round) (lines : list string) (broken : option Exn) : conv Round :=
  match lines with
  | [] => match broken with None => mret r | Some e => raise e end
  | line :: rest =>
      next ← take_line r line;
      match next with None => mret r | Some r => take_body r rest broken end
  end.

(** [async for line in iter_lines(response)], when every line is passed on. *)
Definition relay_all (r : Reply) : conv unit :=
  match r with
  | Streamed lines broken =>
      for_each send lines;;
      match broken with None => close | Some e => raise e end
  | _ => raise type_error
  end.

Definition error_line (e : Exn) : string := sse (JDict [("error", JDict [("message", JStr e)])]).

(** The plain streamed completion, after a failure or after the last round. *)
Definition streamed_fallback : conv unit :=
  rescue
    (messages ← messages_now;
     fallback ← generate_chat_completion
       (dict_update (of_form_data o) [("messages", messages); ("tools", JNull); ("stream", JBool true)]);
     relay_all fallback)
    (λ e, send (error_line e);; send sse_done).

(** [sorted(tool_calls_by_index)] *)
Definition sorted_calls (calls : list (Json * Entry)) : option (list Entry) :=
  match calls with
  | [] => Some []
  | [(_, e)] => Some [e]
  | _ =>
      match mapM (λ ie, n ← json_int (Some ie.1); Some (n, ie.2)) calls with
      | Some l => Some (snd <$> sort_by fst l)
      | None =>
          l ← mapM (λ ie, s ← json_str (Some ie.1); Some (s, ie.2)) calls;
          Some (snd <$> order_by_text fst l)
      end
  end.

(** [[{"index": i, **call} for i, call in enumerate(client_calls)]] *)
Definition emitted (client_calls : list Json) : option (list Json) :=
  mapM (λ ic, match ic.2 with JDict call => Some (JDict (dict_update [("index", JInt (Z.of_nat ic.1))] call)) | _ => None end)
    (imap pair client_calls).

Definition tool_chunk (envelope : json_dict) (delta : json_dict) (finish_reason : Json) : Json :=
  JDict (dict_update envelope
    [("object", JStr "chat.completion.chunk");
     ("choices", JList [JDict [("index", JInt 0); ("delta", JDict delta); ("finish_reason", finish_reason)]])]).

Definition hand_back (envelope : json_dict) (client_calls : list Json) : conv unit :=
  calls ← expect (emitted client_calls);
  send (sse (tool_chunk envelope [("tool_calls", JList calls)] JNull));;
  send (sse (tool_chunk envelope [] (JStr "tool_calls")));;
  send sse_done.

(** ["".join(content_parts) or None] *)
Definition joined (parts : list Json) : option Json :=
  texts ← mapM text_of parts;
  Some (match join "" texts with "" => JNull | s => JStr s end).

Definition assistant_message (content : Json) (tool_calls : list Json) : Json :=
  JDict [("role", JStr "assistant"); ("content", content); ("tool_calls", JList tool_calls)].

Definition lines_of (r : Reply) : option (list string * option Exn) :=
  match r with Streamed lines broken => Some (lines, broken) | _ => None end.

Fixpoint streamed_rounds (rounds : nat) : conv unit :=
  match rounds with
  | O => streamed_fallback
  | S rounds =>
      payload ← round_payload true;
      response ← tried (generate_chat_completion payload);
      match response with
      | Raise _ => streamed_fallback
      | Ok r =>
          body ← expect (lines_of r);
          r ← take_body (mkRound [] [] []) body.1 body.2;
          close;;
          if decide (rd_calls r = []) then send sse_done
          else
            entries ← expect (sorted_calls (rd_calls r));
            let tool_calls := (λ e, JDict (entry_json e)) <$> entries in
            parts ← expect (_partition_tool_calls tool_calls (of_client_tool_names o));
            let '(server_calls, client_calls) := parts in
            if decide (server_calls = []) then hand_back (rd_envelope r) client_calls
            else
              content ← expect (joined (rd_content r));
              finish_round (assistant_message content tool_calls) server_calls client_calls;;
              streamed_rounds rounds
      end
  end.

Definition _stream_tool_calling : conv unit := streamed_rounds MAX_TOOL_CALL_ROUNDS.
End loops.

(** ** The tools of a request *)

(** [get_task_model_id] *)
Definition get_task_model_id (default_model_id : string) (task_model task_model_external : option string)
    (models : list (string * Json)) : option string :=
  model ← get default_model_id models;
  owner ← item "owned_by" model;
  let wanted := if json_is "ollama" owner then truthy task_model else truthy task_model_external in
  Some match wanted with
       | Some m => if decide (m ∈ models.*1) then m else default_model_id
       | None => default_model_id
       end.

(** A dash, as UTF-8. *)
Definition em_dash : string := String "226" (String "128" (String "148" EmptyString)).

Definition WEB_SEARCH_TOOL_SPEC : ToolSpec := mkToolSpec "web_search"
  ("Search the web for current, real-time, or otherwise unfamiliar information that is not already available in this conversation. Use this only when the existing context is insufficient to answer accurately " +:+ em_dash +:+ " do not use it for general knowledge, conversation, or anything already covered above.")
  [("type", JStr "object"); ("properties", JDict [("query", JDict [("type", JStr "string"); ("description", JStr "A concise, targeted web search query.")])]); ("required", JList [JStr "query"])] None None.

Definition WEB_FETCH_TOOL_SPEC : ToolSpec := mkToolSpec "web_fetch"
  ("Read the contents of one specific web page whose URL is already known " +:+ em_dash +:+ " because the user gave it, or because it appeared in earlier results in this conversation. Use this when a particular page needs to be read; use web_search instead when you need to find out which page to read. Returns the page's text, not a summary.")
  [("type", JStr "object"); ("properties", JDict [("url", JDict [("type", JStr "string"); ("description", JStr "The full absolute URL of the page to read, including its scheme (https://).")])]); ("required", JList [JStr "url"])] None None.

Definition DEEP_RESEARCH_TOOL_SPEC : ToolSpec := mkToolSpec "deep_research"
  ("Research a topic in depth: search the web, read the most promising results, and follow relevant links from those pages to gather more detail. Use this for questions that need more than a quick answer " +:+ em_dash +:+ " comparisons, how something works, gathering evidence from several sources. Use web_search instead for a quick factual lookup, and web_fetch when you already know the one page you need. This reads several pages and takes noticeably longer than a search.")
  [("type", JStr "object"); ("properties", JDict [("query", JDict [("type", JStr "string"); ("description", JStr "The research question or topic, phrased as a search query.")])]); ("required", JList [JStr "query"])] None None.

Definition WEB_CRAWL_TOOL_SPEC : ToolSpec := mkToolSpec "web_crawl"
  ("Crawl a website and save its pages into the knowledge base the user selected for this conversation. Use this when the user wants a site ingested for later reference " +:+ em_dash +:+ " documentation, a wiki, a blog archive " +:+ em_dash +:+ " rather than answered right now. The crawl runs in the background and can take several minutes; this returns immediately with a job reference, not the page contents. Use web_search or deep_research instead when the user wants an answer in this conversation.")
  [("type", JStr "object"); ("properties", JDict [("url", JDict [("type", JStr "string"); ("description", JStr "The site or page URL to start crawling from, including its scheme (https://).")])]); ("required", JList [JStr "url"])] None None.

(** A tool as it is offered. *)
Definition function_tool (function : json_dict) : Json := JDict [("type", JStr "function"); ("function", JDict function)].

Definition serialized (tool : ToolDict) : option Json :=
  match td_spec tool with Some (Typed s) => Some (function_tool (to_openai s)) | _ => None end.

(** [offer_builtin]: the function offered, and the alias when its name was claimed. *)
Definition offer_builtin (client_tool_names : list string) (spec : ToolSpec) : Json * list (string * string) :=
  let function := to_openai spec in
  if decide (ts_name spec ∈ client_tool_names) then
    let offered := collide_name BUILTIN_TOOL_OWNER (ts_name spec) in
    (function_tool (dict_set "name" (JStr offered) function), [(offered, ts_name spec)])
  else (function_tool function, []).

(** The built-in tools a request has switched on, in the order they are offered. *)
Definition builtins_of (web_search deep_research web_crawl : bool) : list ToolSpec :=
  (if web_search then [WEB_SEARCH_TOOL_SPEC; WEB_FETCH_TOOL_SPEC] else []) ++
  (if deep_research then [DEEP_RESEARCH_TOOL_SPEC] else []) ++
  (if web_crawl then [WEB_CRAWL_TOOL_SPEC] else []).

(** What the server knows when a request arrives. *)
Record Server := mkServer {
  sv_dialect : Dialect;
  sv_MODS : option (list (string * list ModTool));
  sv_USER_PERMISSIONS : option json_dict;
  sv_models : list (string * Json);
  sv_TASK_MODEL : option string;
  sv_TASK_MODEL_EXTERNAL : option string
}.

(** An answer, or the body of a streaming response run to its end. *)
Inductive Outcome :=
| Answered (r : Reply)
| StreamedBody (ended : result Exn unit).

Section request.
Context (sv : Server) `{!Codec} (execute : string → option ToolModule) (has_attribute : ToolModule → string → bool).

(** The switches of a request. *)
Record Switches := mkSwitches {
  sw_tool_ids : Json;
  sw_web_search : bool;
  sw_deep_research : bool;
  sw_web_crawl : bool
}.

Definition switches_of (metadata : Json) : option Switches :=
  tool_ids ← field "tool_ids" metadata;
  features ← field "features" metadata;
  let features := py_or features (JDict []) in
  web_search ← field "web_search" features;
  deep_research ← field "deep_research" features;
  kb_id ← field "web_crawl_kb_id" metadata;
  web_crawl ← field "web_crawl" features;
  Some (mkSwitches tool_ids (json_truthy web_search) (json_truthy deep_research)
          (json_truthy web_crawl && json_truthy kb_id)).

(** [{**extra_params["__user__"]}] is made anew for the request. *)
Definition fresh_user : session unit := modify (λ s, s <| ss_valves := None |>).

(** The toolkits of the request, with the mods' tools merged in and claimed names
    yielded. *)
Definition admin_tools_of (sw : Switches) (mod_tool_pairs : list (string * ToolDict)) (user_id : string)
    (form_data : json_dict) (client_tool_names : list string) : session (list (string * ToolDict)) :=
  default_model_id ← expect (dict_lookup "model" form_data ≫= text_of);
  task_model_id ← expect (get_task_model_id default_model_id (sv_TASK_MODEL sv) (sv_TASK_MODEL_EXTERNAL sv) (sv_models sv));
  own ← (if json_truthy (sw_tool_ids sw) then
           _ ← expect (get task_model_id (sv_models sv));
           _ ← expect (dict_lookup "messages" form_data);
           tool_ids ← expect (py_iter (sw_tool_ids sw));
           get_tools execute has_attribute (omap (λ id, text_of id) tool_ids) user_id
         else mret []);
  let merged := if decide (mod_tool_pairs = []) then own else resolve_collisions (own ++ mod_tool_pairs) in
  mret (yield_names_to merged client_tool_names).

(** Everything both loops are given. *)
Definition make_offer (form_data : json_dict) (metadata : Json) (client_tools : list Json) (client_tool_names : list string)
    (sw : Switches) (admin_tools : list (string * ToolDict)) : option Offer :=
  own ← mapM (λ nt, serialized nt.2) admin_tools;
  let built := offer_builtin client_tool_names <$> builtins_of (sw_web_search sw) (sw_deep_research sw) (sw_web_crawl sw) in
  Some (mkOffer form_data (own ++ built.*1 ++ client_tools) admin_tools metadata client_tool_names (concat built.*2)).

(** Nothing to offer. *)
Definition falls_through (sw : Switches) (mod_tool_pairs : list (string * ToolDict)) : bool :=
  negb (json_truthy (sw_tool_ids sw)) && negb (sw_web_search sw) && negb (sw_deep_research sw) &&
  negb (sw_web_crawl sw) && bool_decide (mod_tool_pairs = []).

Definition generate_chat_completion_with_tools (form_data : json_dict) (user : User) : conv Outcome :=
  let metadata := py_or (default (JDict []) (dict_lookup "metadata" form_data)) (JDict []) in
  sw ← expect (switches_of metadata);
  let mod_defaults := default [] (sv_USER_PERMISSIONS sv) in
  mod_tool_pairs ← in_session (assemble_for_user (sv_dialect sv) (sv_MODS sv) (us_id user) mod_defaults);
  client_tools ← expect (extract_client_tools form_data);
  client_tool_names ← expect (mapM offered_name client_tools);
  if falls_through sw mod_tool_pairs then
    r ← generate_chat_completion form_data;
    mret (Answered r)
  else
    in_session fresh_user;;
    admin_tools ← in_session (admin_tools_of sw mod_tool_pairs (us_id user) form_data client_tool_names);
    o ← expect (make_offer form_data metadata client_tools client_tool_names sw admin_tools);
    messages ← expect (dict_lookup "messages" form_data ≫= py_iter);
    in_session (modify (λ s, s <| ss_messages := messages |>));;
    if negb (json_truthy (default (JBool true) (dict_lookup "stream" form_data))) then
      r ← _run_tool_calling_buffered (sv_dialect sv) o;
      mret (Answered r)
    else
      ended ← tried (_stream_tool_calling (sv_dialect sv) o);
      mret (StreamedBody ended).
End request.
