(* ===== verification/ToolOffer.v ===== *)
(** What a conversation is offered is what it can run: the names of the assembled tools,
    their dispatch, and under which conditions a tool's function is entered. *)

From Stdlib Require Import Ascii.
From stdpp Require Import sets.
From S2P Require Import Prelude Data Accounts AccessControl Formats Replies Studio Plugin ModTools ToolLoop.

(** ** Dicts *)

Section dicts.
Context {A : Type}.
Implicit Types (d : list (string * A)) (key : string).

Lemma put_fresh key (v : A) d : key ∉ d.*1 → put key v d = d ++ [(key, v)].
Proof.
  induction d as [|[k x] d IH]; csimpl; [done|]. rewrite not_elem_of_cons. intros [Hk Hd].
  rewrite decide_False by congruence. by rewrite IH.
Qed.

Lemma elem_of_put kx key (v : A) d : kx ∈ put key v d → kx = (key, v) ∨ kx ∈ d.
Proof.
  induction d as [|[k x] d IH]; simpl; [intros ->%list_elem_of_singleton; by left|].
  case_decide; rewrite !elem_of_cons; [by intros [->|?]; subst; auto|]. intros [->|Hin]; [by right; left|].
  destruct (IH Hin); auto.
Qed.

Lemma keys_put key (v : A) d : ∀ k, k ∈ (put key v d).*1 ↔ k = key ∨ k ∈ d.*1.
Proof.
  intros k. induction d as [|[k' x] d IH]; csimpl; [by rewrite list_elem_of_singleton, elem_of_nil; naive_solver|].
  case_decide; csimpl; rewrite !elem_of_cons; [naive_solver|]. rewrite IH. naive_solver.
Qed.

Lemma NoDup_put key (v : A) d : NoDup d.*1 → NoDup (put key v d).*1.
Proof.
  induction d as [|[k x] d IH]; csimpl; [intros _; apply NoDup_singleton|]. intros [Hk Hd]%NoDup_cons.
  case_decide as He; csimpl; apply NoDup_cons; [done|]. split; [|by apply IH]. rewrite keys_put. intros [?|?]; congruence.
Qed.

Lemma get_elem key d (v : A) : get key d = Some v → (key, v) ∈ d.
Proof. induction d as [|[k x] d IH]; simpl; [done|]. case_decide; intros Hv; simplify_eq; [left|right; auto]. Qed.

Lemma elem_get key d (v : A) : NoDup d.*1 → (key, v) ∈ d → get key d = Some v.
Proof.
  induction d as [|[k x] d IH]; csimpl; [by intros _ ?%elem_of_nil|]. intros [Hk Hd]%NoDup_cons [[= -> ->]|Hin]%elem_of_cons.
  - by rewrite decide_True.
  - rewrite decide_False; [auto|]. intros ->. apply Hk. by apply (list_elem_of_fmap_2 fst) in Hin.
Qed.

Lemma foldl_put_elem kvs d kx : kx ∈ foldl (λ d kv, put kv.1 kv.2 d) d kvs → kx ∈ kvs ∨ kx ∈ d.
Proof.
  revert d. induction kvs as [|[k v] kvs IH]; intros d; simpl; [auto|]. intros [Hin|Hin]%IH; [by left; right|].
  apply elem_of_put in Hin as [->|Hin]; [left; left|by right].
Qed.

Lemma put_all_elem (kvs : list (string * A)) kx : kx ∈ put_all kvs → kx ∈ kvs.
Proof. intros [Hin|Hin]%foldl_put_elem; [done|by apply elem_of_nil in Hin]. Qed.

Lemma put_all_NoDup (kvs : list (string * A)) : NoDup (put_all kvs).*1.
Proof.
  unfold put_all. assert (NoDup ([] : list (string * A)).*1) as Hd by constructor. revert Hd.
  generalize ([] : list (string * A)). induction kvs as [|[k v] kvs IH]; intros d Hd; simpl; [done|].
  by apply IH, NoDup_put.
Qed.

(** Nothing is overwritten when the keys differ. *)
Lemma put_all_id (kvs : list (string * A)) : NoDup kvs.*1 → put_all kvs = kvs.
Proof.
  intros Hnd. unfold put_all. change kvs with ([] ++ kvs) at 2. revert Hnd. change kvs.*1 with (([] ++ kvs).*1).
  generalize ([] : list (string * A)). induction kvs as [|[k v] kvs IH]; intros d Hnd; simpl; [by rewrite app_nil_r|].
  rewrite put_fresh.
  - rewrite IH; [by rewrite <- (assoc_L (++))|]. by rewrite <- (assoc_L (++)).
  - rewrite fmap_app in Hnd. csimpl in Hnd. apply NoDup_app in Hnd as (_ & Hd & _). intros Hk. apply (Hd _ Hk). left.
Qed.
End dicts.

(** ** Names *)

(** A tool whose specification carries the name it is known by. *)
Definition well_named (nt : string * ToolDict) : Prop := ∃ s, td_spec nt.2 = Some (Typed s) ∧ ts_name s = nt.1.

Lemma renamed_well_named n t key : well_named (n, t) → well_named (key, renamed t key).
Proof. intros (s & Hs & _). unfold well_named, renamed. simpl in *. rewrite Hs. by eexists. Qed.

Lemma resolved_well_named pairs nt : well_named nt → well_named (resolved_pair pairs nt).
Proof. intros Hw. unfold resolved_pair. case_decide; [done|]. destruct nt. by apply (renamed_well_named s). Qed.

Lemma yielded_well_named names nt : well_named nt → well_named (yielded names nt).
Proof. intros Hw. unfold yielded. case_decide; [|done]. destruct nt. by apply (renamed_well_named s). Qed.

Lemma resolve_well_named pairs : Forall well_named pairs → Forall well_named (resolve_collisions pairs).
Proof.
  rewrite !Forall_forall. intros Hw nt (nt' & -> & Hin)%put_all_elem%list_elem_of_fmap.
  by apply resolved_well_named, Hw.
Qed.

Lemma yield_well_named names tools : Forall well_named tools → Forall well_named (yield_names_to tools names).
Proof.
  rewrite !Forall_forall. unfold yield_names_to. intros Hw nt. case_decide; [by apply Hw|].
  intros (nt' & -> & Hin)%put_all_elem%list_elem_of_fmap. by apply yielded_well_named, Hw.
Qed.

(** Renaming keeps the rest of a tool: its function, its owner, and what it is called with. *)
Definition same_tool (t t' : ToolDict) : Prop :=
  td_callable t' = td_callable t ∧ td_toolkit_id t' = td_toolkit_id t ∧
  allowed_params (td_spec t') = allowed_params (td_spec t).

Lemma renamed_same t key : same_tool t (renamed t key).
Proof. destruct t as [i c [[]|]]; by repeat split. Qed.

Lemma resolved_same pairs nt : same_tool nt.2 (resolved_pair pairs nt).2.
Proof. unfold resolved_pair. case_decide; [by repeat split|apply renamed_same]. Qed.

Lemma yielded_same names nt : same_tool nt.2 (yielded names nt).2.
Proof. unfold yielded. case_decide; [apply renamed_same|by repeat split]. Qed.

(** Two qualified names meet neither each other nor a name that stayed bare, nor one of the
    caller's. *)
Definition clash_free (pairs : list (string * ToolDict)) (names : list string) : bool :=
  let resolved := resolved_pair pairs <$> pairs in
  bool_decide (NoDup resolved.*1) && bool_decide (NoDup (yielded names <$> resolved).*1) &&
  forallb (λ nt, bool_decide ((yielded names nt).1 ∉ names)) resolved.

Definition finished (pairs : list (string * ToolDict)) (names : list string) : list (string * ToolDict) :=
  yield_names_to (resolve_collisions pairs) names.

Lemma finished_elem pairs names nt :
  nt ∈ finished pairs names → ∃ nt0, nt0 ∈ pairs ∧ same_tool nt0.2 nt.2.
Proof.
  unfold finished, yield_names_to. intros Hin.
  assert (∃ nt1, nt1 ∈ resolve_collisions pairs ∧ same_tool nt1.2 nt.2) as (nt1 & H1 & S1).
  { case_decide; [by exists nt; repeat split|]. apply put_all_elem, list_elem_of_fmap in Hin as (nt1 & -> & H1).
    exists nt1. split; [done|apply yielded_same]. }
  apply put_all_elem, list_elem_of_fmap in H1 as (nt0 & -> & H0). exists nt0. split; [done|].
  destruct (resolved_same pairs nt0) as (? & ? & ?), S1 as (? & ? & ?). repeat split; congruence.
Qed.

Lemma finished_clash_free pairs names :
  clash_free pairs names = true → finished pairs names = yielded names <$> (resolved_pair pairs <$> pairs).
Proof.
  unfold clash_free. rewrite !andb_true_iff, !bool_decide_eq_true. intros [[Hr Hy] _].
  unfold finished, yield_names_to, resolve_collisions. rewrite put_all_id by done. case_decide as Hn.
  - subst. rewrite <- list_fmap_id at 1. apply list_fmap_ext. intros i nt _. unfold yielded. case_decide as H; [by apply elem_of_nil in H|done].
  - by rewrite put_all_id.
Qed.

(** ** Assembled tools *)

(** No parameter a toolkit's function is injected with can be filled in by the model. *)
Definition no_internal_params (t : ToolDict) : Prop :=
  ∀ k, py_in k (allowed_params (td_spec t)) = Some true → _is_internal k = false.

Definition sound_tool (nt : string * ToolDict) : Prop :=
  well_named nt ∧ match td_callable nt.2 with Partial _ _ => no_internal_params nt.2 | Guarded _ _ _ => True end.

(** A schema whose [properties], if there are any, are a dict. *)
Definition properties_ok (schema : json_dict) : bool :=
  match dict_lookup "properties" schema with Some (JDict _) | None => true | Some _ => false end.

Definition spec_ok (stored_spec : json_dict) : bool :=
  match from_openai stored_spec with Ok s => properties_ok (ts_input_schema s) | Raise _ => true end.

Definition specs_ok (s : Studio) : Prop := Forall (λ t, Forall (λ spec, spec_ok spec = true) (tl_specs t)) (sd_tools s).

Lemma required_properties d :
  dict_lookup "properties"
    match dict_lookup "required" d with
    | Some (JList required) => dict_set "required" (JList (filter (λ e, negb (internal_entry e)) required)) d
    | _ => d
    end = dict_lookup "properties" d.
Proof. destruct (dict_lookup "required" d) as [[]|]; by rewrite ?dict_lookup_set_ne. Qed.

Lemma stripped_params s :
  properties_ok (ts_input_schema s) = true →
  ∀ k, py_in k (allowed_params (Some (Typed (without_internal_params s)))) = Some true → _is_internal k = false.
Proof.
  unfold properties_ok. intros Hp k. unfold allowed_params, without_internal_params.
  cbn [ts_input_schema]. rewrite required_properties.
  destruct (dict_lookup "properties" (ts_input_schema s)) as [[| | | | | |d]|] eqn:Hd; try done.
  - rewrite dict_lookup_set. unfold py_or. simpl. case_bool_decide; [|done]. simpl. unfold has_key. intros [= Hk].
    apply bool_decide_eq_true in Hk. apply list_elem_of_fmap in Hk as ([k' v] & -> & [Hf _]%list_elem_of_filter).
    simpl in *. by destruct (_is_internal k').
  - by rewrite Hd.
Qed.

Lemma py_in_dict k d : py_in k (py_or (JDict d) (JDict [])) = Some (has_key k d).
Proof. by destruct d. Qed.

(** Stripping adds no parameter. *)
Lemma stripped_subset s k :
  properties_ok (ts_input_schema s) = true →
  py_in k (allowed_params (Some (Typed (without_internal_params s)))) = Some true →
  py_in k (allowed_params (Some (Typed s))) = Some true.
Proof.
  unfold properties_ok. intros Hp. unfold allowed_params, without_internal_params.
  cbn [ts_input_schema]. rewrite required_properties.
  destruct (dict_lookup "properties" (ts_input_schema s)) as [[| | | | | |d]|] eqn:Hd; try done.
  2:{ by rewrite Hd. }
  rewrite dict_lookup_set. cbn [default from_option id]. rewrite !py_in_dict. unfold has_key. intros [= Hk]. f_equal.
  apply bool_decide_eq_true in Hk. apply bool_decide_eq_true.
  apply list_elem_of_fmap in Hk as (kv & -> & [_ Hin]%list_elem_of_filter). by apply list_elem_of_fmap_2.
Qed.

(** The specifications stored with each toolkit. *)
Definition declared_specs (s : Studio) : list (string * list json_dict) := (λ t, (tl_id t, tl_specs t)) <$> sd_tools s.

(** [sp] is what a stored specification of toolkit [id] says of its function [f]. *)
Definition declares (declared : list (string * list json_dict)) (id f : string) (sp : ToolSpec) : Prop :=
  ∃ specs d, (id, specs) ∈ declared ∧ d ∈ specs ∧ from_openai d = Ok sp ∧ ts_name sp = f.

Section assembly.
Context (dialect : Dialect).

(** What an assembled tool of a mod is: behind the guard for this very user, with the
    parameters the mod declares. *)
Definition mod_tool_of (loaded : list (string * list ModTool)) (user_id : string) (defaults : json_dict)
    (nt : string * ToolDict) : Prop :=
  well_named nt ∧ ∃ id tools t, (id, tools) ∈ loaded ∧ t ∈ tools ∧
    nt.2 = mkToolDict (mod_prefix +:+ id) (Guarded t user_id defaults) (td_spec nt.2) ∧
    ∃ sp, mod_spec t = Some sp ∧ td_spec nt.2 = Some (Typed sp).

#[local] Notation spec P m Q := (triple P m Q (λ _ _, True)).

Lemma spec_true {A} (m : session A) : spec (λ _, True) m (λ _ _, True).
Proof. intros s _. by destruct (m s) as [[]]. Qed.

Lemma spec_expect {A} (o : option A) P : spec P (expect o : session A) (λ a s, o = Some a ∧ P s).
Proof. destruct o; intros s Hs; simpl; auto. Qed.

Lemma assemble_mod_tools_sound loaded id tools0 user_id defaults tools assembled :
  (id, tools0) ∈ loaded → tools ⊆ tools0 →
  Forall (mod_tool_of loaded user_id defaults) assembled →
  spec (λ _, True) (assemble_mod_tools dialect tools id user_id defaults assembled)
    (λ pairs _, Forall (mod_tool_of loaded user_id defaults) pairs).
Proof.
  intros Hid. revert assembled. induction tools as [|t tools IH]; intros assembled Hsub Ha; simpl.
  { by apply triple_ret. }
  eapply triple_bind; [apply spec_true|]. intros held. destruct held; [|apply IH; [set_solver|done]].
  eapply triple_bind; [apply spec_expect|]. intros s st [Hs _]. apply IH; [set_solver| |done].
  rewrite Forall_forall in *. intros nt [->|Hin]%elem_of_put; [|by apply Ha]. split; [by eexists|].
  exists id, tools0, t. split_and!; [done|apply Hsub; left|done|by exists s].
Qed.

Lemma assemble_mods_sound loaded all user_id defaults :
  loaded ⊆ all →
  spec (λ _, True) (assemble_mods dialect loaded user_id defaults)
    (λ pairs _, Forall (mod_tool_of all user_id defaults) pairs).
Proof.
  induction loaded as [|[id tools] loaded IH]; intros Hsub; simpl; [by apply triple_ret|].
  eapply triple_bind; [apply (assemble_mod_tools_sound all id tools); [apply Hsub; left|done|done]|]. intros pairs.
  eapply triple_bind with (Q := λ more s, Forall (mod_tool_of all user_id defaults) pairs ∧ Forall (mod_tool_of all user_id defaults) more).
  - intros s Hp. specialize (IH ltac:(set_solver) s I). destruct (assemble_mods _ _ _ _ _) as [[]]; auto.
  - intros more. apply triple_ret. intros s [??]. by apply Forall_app.
Qed.

Lemma assemble_for_user_sound load_result user_id defaults :
  spec (λ _, True) (assemble_for_user dialect load_result user_id defaults)
    (λ pairs _, Forall (mod_tool_of (default [] load_result) user_id defaults) pairs).
Proof. destruct load_result; simpl; [by apply assemble_mods_sound|by apply triple_ret]. Qed.

(** *** Toolkits *)

Section toolkits.
Context (execute : string → option ToolModule) (has_attribute : ToolModule → string → bool).

(** The stored specifications, which assembling tools leaves alone. *)
Context (declared : list (string * list json_dict)).

Definition kept (s : Studio) : Prop := specs_ok s ∧ declared_specs s = declared.

Definition toolkit_tool (ids : list string) (nt : string * ToolDict) : Prop :=
  sound_tool nt ∧ ∃ id f, id ∈ ids ∧ nt.2 = mkToolDict id (Partial id f) (td_spec nt.2) ∧
    ∃ sp, declares declared id f sp ∧ ∀ k, py_in k (allowed_params (td_spec nt.2)) = Some true →
      py_in k (allowed_params (Some (Typed sp))) = Some true.

Lemma kept_update id (f : Tool → Tool) s :
  (∀ t, tl_id (f t) = tl_id t ∧ tl_specs (f t) = tl_specs t) → kept s → kept (Tools.put (update_row id f) s).
Proof.
  intros Hf [Hs Hd]. split.
  - revert Hs. unfold specs_ok, Tools.put. simpl. rewrite !Forall_forall. intros Hs t.
    unfold update_row, update_where. intros (t0 & -> & H0)%list_elem_of_fmap.
    case_bool_decide; [rewrite (proj2 (Hf t0))|]; by apply Hs.
  - rewrite <- Hd. unfold declared_specs, Tools.put, update_row, update_where. simpl. rewrite <- list_fmap_compose.
    apply list_fmap_ext. intros i t _. simpl. case_bool_decide; [|done]. by rewrite (proj1 (Hf t)), (proj2 (Hf t)).
Qed.

Lemma tool_module_specs id : preserves (stable kept) (tool_module execute id).
Proof.
  unfold tool_module, load_stored, Tools.update_tool_by_id, write, responded, now, next_commit.
  repeat first [preserves_step | intros s Hs].
  - unfold state_of. by destruct (sd_commits s).
  - by apply kept_update.
  - done.
Qed.

Lemma over_tool_module id :
  spec (λ s, kept (ss_studio s)) (over_studio (tool_module execute id)) (λ _ s, kept (ss_studio s)).
Proof.
  intros s Hs. unfold over_studio. pose proof (tool_module_specs id (ss_studio s) Hs) as H. unfold state_of in H.
  destruct (tool_module execute id (ss_studio s)) as [[]]; done.
Qed.

Lemma stored_tool_sound ids id m d :
  id ∈ ids → (∃ specs, (id, specs) ∈ declared ∧ d ∈ specs) → spec_ok d = true →
  spec (λ s, kept (ss_studio s)) (stored_tool has_attribute id m d) (λ nt s, toolkit_tool ids nt ∧ kept (ss_studio s)).
Proof.
  intros Hid (specs & Hspecs & Hin) Hd. unfold stored_tool, spec_ok in *.
  destruct (from_openai d) as [sp|] eqn:Hsp; [|by intros s Hs].
  eapply triple_bind with (Q := λ a s, a = sp ∧ kept (ss_studio s)); [by apply triple_ret|].
  intros a s [-> Hs]. destruct (has_attribute _ _); simpl; [|done]. split; [|done]. split.
  - split; [by eexists|]. simpl. intros k. by apply stripped_params.
  - exists id, (ts_name (without_internal_params sp)). split_and!; [done|done|]. exists sp. split; [by exists specs, d|].
    intros k. by apply stripped_subset.
Qed.

Lemma stored_tools_sound ids id m ds :
  id ∈ ids → Forall (λ d, (∃ specs, (id, specs) ∈ declared ∧ d ∈ specs) ∧ spec_ok d = true) ds →
  spec (λ s, kept (ss_studio s)) (stored_tools has_attribute id m ds)
    (λ nts s, Forall (toolkit_tool ids) nts ∧ kept (ss_studio s)).
Proof.
  intros Hid. induction 1 as [|d ds [Hin Hd] _ IH]; simpl; [by apply triple_ret|].
  eapply triple_bind; [by apply stored_tool_sound|]. intros nt.
  eapply triple_bind with (Q := λ more s, toolkit_tool ids nt ∧ Forall (toolkit_tool ids) more ∧ kept (ss_studio s)).
  - intros s [Hnt Hs]. specialize (IH s Hs). destruct (stored_tools _ _ _ _ s) as [[]]; naive_solver.
  - intros more. apply triple_ret. intros s (? & ? & ?). auto.
Qed.

Lemma set_valves_studio id m :
  spec (λ s, kept (ss_studio s)) (set_valves has_attribute id m) (λ _ s, kept (ss_studio s)).
Proof.
  unfold set_valves. destruct (md_valves m); [|by apply triple_ret]. destruct (has_attribute _ _); [|by apply triple_ret].
  intros s Hs. rewrite run_gets_bind. destruct (_ ≫= _) in |- *; done.
Qed.

Lemma set_user_valves_studio id user_id m :
  spec (λ s, kept (ss_studio s)) (set_user_valves id user_id m) (λ _ s, kept (ss_studio s)).
Proof.
  unfold set_user_valves. destruct (md_user_valves m) as [cls|]; [|by apply triple_ret].
  intros s Hs. rewrite run_gets_bind, run_bind.
  destruct (get_user_valves_by_id_and_user_id _ _ _) as [stored|]; [|done]. cbn.
  destruct (match stored with JDict d => vc_make cls d | _ => None end); done.
Qed.

Lemma collect_tools_sound all ids user_id :
  ids ⊆ all →
  spec (λ s, kept (ss_studio s)) (collect_tools execute has_attribute ids user_id)
    (λ nts s, Forall (toolkit_tool all) nts ∧ kept (ss_studio s)).
Proof.
  induction ids as [|id ids IH]; intros Hall; simpl; [by apply triple_ret|]. specialize (IH ltac:(set_solver)).
  intros s Hs. rewrite run_gets_bind.
  destruct (Tools.get_tool_by_id id (ss_studio s)) as [t|] eqn:Ht; [|by apply IH].
  assert (Forall (λ d, (∃ specs, (id, specs) ∈ declared ∧ d ∈ specs) ∧ spec_ok d = true) (tl_specs t)) as Hd.
  { apply find_row_Some in Ht as [Ht Hid]. destruct Hs as [Hs <-]. unfold specs_ok in Hs. rewrite Forall_forall in Hs. rewrite Forall_forall.
    intros d Hd. split; [|by apply (proj1 (Forall_forall _ _) (Hs t Ht))]. exists (tl_specs t). split; [|done].
    apply list_elem_of_fmap. exists t. split; [|done]. f_equal. exact (eq_sym Hid). }
  revert s Hs Ht. intros s Hs _. revert s Hs. eapply triple_bind; [apply over_tool_module|]. intros m.
  eapply triple_bind; [apply set_valves_studio|]. intros [].
  eapply triple_bind; [apply set_user_valves_studio|]. intros [].
  eapply triple_bind; [apply (stored_tools_sound all); [set_solver|done]|]. intros nts.
  eapply triple_bind with (Q := λ more s, Forall (toolkit_tool all) nts ∧ Forall (toolkit_tool all) more ∧ kept (ss_studio s)).
  - intros s [Hn Hs]. specialize (IH s Hs). destruct (collect_tools _ _ _ _ s) as [[]]; naive_solver.
  - intros more. apply triple_ret. intros s (? & ? & ?). split; [by apply Forall_app|done].
Qed.
End toolkits.
End assembly.

(** ** What is offered is what is dispatched *)

Lemma count_once {A} (d : list (string * A)) nt : NoDup d.*1 → nt ∈ d → count nt.1 d = 1%nat.
Proof.
  unfold count. induction d as [|[k x] d IH]; csimpl; [by intros _ ?%elem_of_nil|].
  intros [Hk Hd]%NoDup_cons Hin. rewrite filter_cons. simpl.
  apply elem_of_cons in Hin as [->|Hin]; simpl.
  - rewrite decide_True by done. simpl. f_equal. rewrite filter_none; [done|]. intros [k' x'] Hin He. simpl in He. subst.
    apply Hk. by apply (list_elem_of_fmap_2 fst) in Hin.
  - rewrite decide_False; [by apply IH|]. intros ->. apply Hk. by apply list_elem_of_fmap_2.
Qed.

Lemma resolve_distinct pairs : NoDup pairs.*1 → resolve_collisions pairs = pairs.
Proof.
  intros Hnd. unfold resolve_collisions.
  assert (resolved_pair pairs <$> pairs = pairs) as ->; [|by apply put_all_id].
  rewrite <- list_fmap_id. apply list_fmap_ext. intros i nt Hnt%list_elem_of_lookup_2. unfold resolved_pair.
  by rewrite decide_True by by apply count_once.
Qed.

Definition builtin_names : list string := ["web_search"; "web_fetch"; "web_crawl"; "deep_research"].

(** A call of a function by its offered name. *)
Definition calls_by_name (n : string) (arguments : Json) (tool_call : Json) : Prop :=
  ∃ d f, tool_call = JDict d ∧ dict_lookup "function" d = Some (JDict f) ∧
    dict_lookup "name" f = Some (JStr n) ∧ default JNull (dict_lookup "arguments" f) = arguments.

Lemma expect_some {S A B} (x : A) (k : A → prog S Exn B) : expect (Some x) ≫= k = k x.
Proof. done. Qed.

Lemma get_field_some {S A} key x v (k : Json → prog S Exn A) : field key x = Some v → get_field key x ≫= k = k v.
Proof. unfold get_field. by intros ->. Qed.

Definition is_run (a : Act) : bool := match a with Ran _ _ _ => true | _ => false end.

Section dispatch.
Context (dialect : Dialect) `{!Codec}.

(** What dispatching a call of an assembled tool does. *)
Definition dispatched (n : string) (t : ToolDict) (arguments : Json) : session string :=
  act (Status (JStr n) false);;
  out ← run_tool dialect t (parsed_arguments arguments);
  act (Status (JStr n) true);;
  mret out.

Lemma dispatch_by_name n t arguments tool_call admin_tools metadata aliases :
  calls_by_name n arguments tool_call → get n admin_tools = Some t →
  n ∉ builtin_names → n ∉ aliases.*1 →
  _dispatch_tool_call dialect tool_call admin_tools metadata aliases = dispatched n t arguments.
Proof.
  intros (d & f & -> & Hf & Hn & <-) Ht Hb Ha. unfold _dispatch_tool_call.
  assert (get_or "function" (JDict d) (JDict []) = Some (JDict f)) as -> by (simpl; by rewrite Hf).
  assert (field "name" (JDict f) = Some (JStr n)) as Hname by (unfold field; simpl; by rewrite Hn).
  rewrite expect_some. cbv beta. rewrite (get_field_some _ _ _ _ Hname). cbv beta.
  assert (canonical aliases (JStr n) = Some (JStr n)) as ->.
  { unfold canonical. simpl. destruct (get n aliases) as [x|] eqn:Hx; [|done]. destruct Ha. apply get_elem in Hx.
    by apply (list_elem_of_fmap_2 fst) in Hx. }
  rewrite expect_some. cbv beta. erewrite get_field_some by done. cbv beta.
  unfold builtin_names in Hb. rewrite !not_elem_of_cons in Hb. destruct Hb as (? & ? & ? & ? & _).
  assert (∀ x, n ≠ x → json_is x (JStr n) = false) as Hne by (intros; simpl; by apply bool_decide_eq_false).
  cbv zeta. rewrite !Hne by done. cbn [admin_tool]. by rewrite Ht.
Qed.

(** A call that enters no function of a toolkit or a mod. *)
Definition enters_nothing (s s' : Session) : Prop := filter (λ a, is_run a = true) (ss_log s') = filter (λ a, is_run a = true) (ss_log s).

#[export] Instance enters_nothing_preorder : PreOrder enters_nothing.
Proof. split; [by intros s|]. unfold enters_nothing. intros s1 s2 s3; congruence. Qed.

Lemma enters_nothing_browse name x : preserves enters_nothing (browse name x).
Proof.
  unfold browse. preserves_step.
  - intros s. unfold enters_nothing, state_of, act. simpl. by rewrite filter_app, app_nil_r.
  - intros s. unfold enters_nothing, state_of, next_page. by destruct (ss_pages s) as [|[]].
Qed.

Lemma enters_nothing_expect {A} (x : option A) : preserves enters_nothing (expect x : session A).
Proof. by destruct x; intros s. Qed.

(** A name that stands for a built-in tool never reaches another. *)
Lemma dispatch_builtin b offered tool_call admin_tools metadata aliases :
  (∃ arguments, calls_by_name offered arguments tool_call) →
  canonical aliases (JStr offered) = Some (JStr b) → b ∈ builtin_names →
  preserves enters_nothing (_dispatch_tool_call dialect tool_call admin_tools metadata aliases).
Proof.
  intros (arguments & d & f & -> & Hf & Hn & _) Hc Hb. unfold _dispatch_tool_call.
  assert (get_or "function" (JDict d) (JDict []) = Some (JDict f)) as -> by (simpl; by rewrite Hf).
  assert (field "name" (JDict f) = Some (JStr offered)) as Hname by (unfold field; simpl; by rewrite Hn).
  rewrite expect_some. cbv beta. rewrite (get_field_some _ _ _ _ Hname). cbv beta. rewrite Hc, expect_some.
  preserves_step; [apply enters_nothing_expect|]. cbv zeta.
  assert (∀ x, json_is x (JStr b) = bool_decide (b = x)) as Hj by done. rewrite !Hj.
  unfold builtin_names in Hb. rewrite !elem_of_cons in Hb.
  destruct Hb as [->|[->|[->|[->|[]%elem_of_nil]]]]; unfold query_of, url_of;
    repeat first [apply enters_nothing_browse | apply enters_nothing_expect
      | match goal with H : bool_decide _ = _ |- _ => by vm_compute in H end | preserves_step].
Qed.
End dispatch.

(** The names the aliases stand for are those of built-in tools. *)
Definition aliases_ok (aliases : list (string * string)) : Prop := ∀ k x, get k aliases = Some x → x ∈ builtin_names.

Lemma canonical_builtin aliases n :
  aliases_ok aliases → n ∈ builtin_names ∨ n ∈ aliases.*1 →
  ∃ b, canonical aliases (JStr n) = Some (JStr b) ∧ b ∈ builtin_names.
Proof.
  intros Ha Hn. unfold canonical. cbn [dict_key]. change (Some (JStr ?n) ≫= ?k) with (k (JStr n)). cbv beta iota.
  destruct (get n aliases) as [x|] eqn:Hx; [exists x; eauto|]. exists n. split; [done|]. destruct Hn as [?|Hn]; [done|].
  exfalso. clear Ha. induction aliases as [|[k v] aliases IH]; csimpl in *; [by apply elem_of_nil in Hn|].
  case_decide; [done|]. apply elem_of_cons in Hn as [->|Hn]; [done|by apply IH].
Qed.

Section offer.
Context (sv : Server) `{!Codec} (execute : string → option ToolModule) (has_attribute : ToolModule → string → bool).

Definition request_ids (sw : Switches) : list string := omap (λ id, text_of id) (default [] (py_iter (sw_tool_ids sw))).

(** The functions of the toolkits the request selects. *)
Definition own_tools (sw : Switches) (user_id : string) : session (list (string * ToolDict)) :=
  if json_truthy (sw_tool_ids sw) then get_tools execute has_attribute (request_ids sw) user_id else mret [].

Definition selected (declared : list (string * list json_dict)) (sw : Switches) (nt : string * ToolDict) : Prop :=
  ∃ nt0, toolkit_tool declared (request_ids sw) nt0 ∧ same_tool nt0.2 nt.2 ∧ well_named nt.

(** The tools of a request are the user's own and the mods', under the rule for names. *)
Lemma admin_tools_run sw pairs user_id form_data names s tools s' :
  specs_ok (ss_studio s) →
  admin_tools_of sv execute has_attribute sw pairs user_id form_data names s = (Ok tools, s') →
  ∃ own, result_of (own_tools sw user_id) s = Ok own ∧ tools = finished (own ++ pairs) names ∧
    Forall (selected (declared_specs (ss_studio s)) sw) own.
Proof.
  intros Hs. unfold admin_tools_of. intros (? & s1 & Hm & Hrun)%run_bind_Ok. apply run_bind_Ok in Hrun as (? & s2 & Ht & Hrun).
  assert (s1 = s ∧ s2 = s1) as [-> ->].
  { destruct (_ ≫= _) in Hm; [|done]. injection Hm as _ ->. destruct (get_task_model_id _ _ _ _) in Ht; [|done].
    by injection Ht as _ ->. }
  apply run_bind_Ok in Hrun as (own & s3 & Hown & [= <- <-]).
  exists own. assert (result_of (own_tools sw user_id) s = Ok own ∧
    Forall (selected (declared_specs (ss_studio s)) sw) own ∧ NoDup own.*1) as (Hres & Hall & Hnd).
  { unfold own_tools. destruct (json_truthy (sw_tool_ids sw)); [|by injection Hown as <- _; repeat constructor].
    apply run_bind_Ok in Hown as (? & s4 & Hm2 & Hown). apply run_bind_Ok in Hown as (? & s5 & Hm3 & Hown).
    apply run_bind_Ok in Hown as (ids & s6 & Hids & Hown).
    assert (s6 = s ∧ py_iter (sw_tool_ids sw) = Some ids) as [-> Hq].
    { repeat match goal with H : expect ?o _ = (Ok _, _) |- _ => destruct o; [injection H as ? ->|done] end. by subst. }
    split; [unfold request_ids, result_of; rewrite Hq; simpl; by rewrite Hown|].
    unfold get_tools in Hown. apply run_bind_Ok in Hown as (collected & s7 & Hc & [= <- <-]).
    split; [|apply put_all_NoDup].
    pose proof (collect_tools_sound execute has_attribute (declared_specs (ss_studio s)) (request_ids sw) (omap (λ id, text_of id) ids) user_id) as Hsound.
    unfold request_ids in Hsound. rewrite Hq in Hsound. specialize (Hsound ltac:(done) s (conj Hs eq_refl)).
    rewrite Hc in Hsound. destruct Hsound as [Hsound _]. unfold selected, request_ids. rewrite Hq. rewrite Forall_forall in Hsound |- *.
    intros nt (nt0 & -> & Hin)%put_all_elem%list_elem_of_fmap. exists nt0. split; [by apply Hsound|].
    split; [apply resolved_same|]. by apply resolved_well_named, Hsound. }
  split; [done|]. split; [|done]. unfold finished. case_decide as Hp; [|done]. subst pairs. by rewrite app_nil_r, resolve_distinct.
Qed.

Lemma finished_NoDup pairs names : NoDup (finished pairs names).*1.
Proof. unfold finished, yield_names_to. case_decide; apply put_all_NoDup. Qed.

Lemma finished_complete pairs names :
  clash_free pairs names = true →
  (∀ nt0, nt0 ∈ pairs → ∃ nt, nt ∈ finished pairs names ∧ same_tool nt0.2 nt.2) ∧
  ∀ n, n ∈ (finished pairs names).*1 → n ∉ names.
Proof.
  intros Hc. pose proof (finished_clash_free pairs names Hc) as ->. split.
  - intros nt0 Hin. exists (yielded names (resolved_pair pairs nt0)). split; [by do 2 apply list_elem_of_fmap_2|].
    destruct (resolved_same pairs nt0) as (? & ? & ?), (yielded_same names (resolved_pair pairs nt0)) as (? & ? & ?).
    repeat split; congruence.
  - unfold clash_free in Hc. apply andb_true_iff in Hc as [_ Hc]. rewrite forallb_forall in Hc.
    intros n (nt & -> & (nt1 & -> & Hin)%list_elem_of_fmap)%list_elem_of_fmap.
    apply list_elem_of_In in Hin. specialize (Hc _ Hin). by apply bool_decide_eq_true in Hc.
Qed.

Lemma make_offer_tools form_data metadata client_tools names sw admin_tools o :
  make_offer form_data metadata client_tools names sw admin_tools = Some o →
  of_admin_tools o = admin_tools ∧
  (∀ n t, (n, t) ∈ admin_tools → ∃ j, serialized t = Some j ∧ j ∈ of_openai_tools o) ∧
  (∀ nb, nb ∈ builtins_of (sw_web_search sw) (sw_deep_research sw) (sw_web_crawl sw) →
     (offer_builtin names nb).1 ∈ of_openai_tools o) ∧
  of_builtin_aliases o = concat (snd <$> (offer_builtin names <$>
    builtins_of (sw_web_search sw) (sw_deep_research sw) (sw_web_crawl sw))) ∧
  ∃ ours, of_openai_tools o = ours ++ client_tools.
Proof.
  unfold make_offer. destruct (mapM _ admin_tools) as [own|] eqn:Hown; [|done]. intros [= <-]. simpl. split; [done|].
  apply mapM_Some in Hown. split_and!; [| |done|].
  - intros n t Hin. apply list_elem_of_lookup in Hin as [i Hi].
    destruct (Forall2_lookup_l _ _ _ _ _ Hown Hi) as (j & Hj & Hs). exists j. split; [done|].
    apply elem_of_app. left. by apply list_elem_of_lookup_2 with i.
  - intros nb Hin. apply elem_of_app. right. apply elem_of_app. left. by do 2 apply list_elem_of_fmap_2.
  - eexists. by rewrite (assoc_L (++)).
Qed.

(** A built-in tool is offered under a name that stands for it. *)
Definition stands_for (names : list string) (aliases : list (string * string)) (b : ToolSpec) (n : string) : Prop :=
  (offer_builtin names b).1 = function_tool (dict_set "name" (JStr n) (to_openai b)) ∧
  canonical aliases (JStr n) = Some (JStr (ts_name b)).

Lemma alias_get names bs n x :
  get n (concat (snd <$> (offer_builtin names <$> bs))) = Some x → n = collide_name BUILTIN_TOOL_OWNER x.
Proof.
  induction bs as [|b bs IH]; csimpl; [done|]. unfold offer_builtin at 1. case_decide; cbn [snd app get]; [|done].
  case_decide as Hn; [|done]. intros [= <-]. done.
Qed.

Lemma alias_there names bs b :
  b ∈ bs → ts_name b ∈ names →
  is_Some (get (collide_name BUILTIN_TOOL_OWNER (ts_name b)) (concat (snd <$> (offer_builtin names <$> bs)))).
Proof.
  induction bs as [|b' bs IH]; [by intros ?%elem_of_nil|]. intros [->|Hb]%elem_of_cons Hn; csimpl.
  - unfold offer_builtin at 1. rewrite decide_True by done. cbn [snd app get]. by rewrite decide_True.
  - unfold offer_builtin at 1. case_decide; cbn [snd app get]; [case_decide; [done|]|]; by apply IH.
Qed.

Lemma builtins_stand_for names web_search deep_research web_crawl b :
  b ∈ builtins_of web_search deep_research web_crawl →
  ∃ n, stands_for names (concat (snd <$> (offer_builtin names <$> builtins_of web_search deep_research web_crawl))) b n.
Proof.
  intros Hb. exists (if decide (ts_name b ∈ names) then collide_name BUILTIN_TOOL_OWNER (ts_name b) else ts_name b).
  unfold stands_for. split; [unfold offer_builtin; by case_decide|]. unfold canonical. cbn [dict_key].
  change (Some (JStr ?n) ≫= ?k) with (k (JStr n)). cbv beta iota. case_decide as Hn.
  - destruct (alias_there names _ b Hb Hn) as [x Hx]. rewrite Hx. simpl. apply alias_get in Hx.
    unfold collide_name in Hx. simpl in Hx. injection Hx as Hx. change (ts_name b = x) in Hx. by rewrite Hx.
  - destruct (get _ _) as [x|] eqn:Hx; [|done]. apply alias_get in Hx. exfalso. revert Hx.
    assert (b ∈ [WEB_SEARCH_TOOL_SPEC; WEB_FETCH_TOOL_SPEC; DEEP_RESEARCH_TOOL_SPEC; WEB_CRAWL_TOOL_SPEC]) as Hin.
    { revert Hb. unfold builtins_of. destruct web_search, deep_research, web_crawl; simpl;
        rewrite ?elem_of_cons, ?elem_of_nil; tauto. }
    rewrite !elem_of_cons in Hin. destruct Hin as [->|[->|[->|[->|[]%elem_of_nil]]]]; done.
Qed.

Lemma offer_aliases_ok form_data metadata client_tools names sw admin_tools o :
  make_offer form_data metadata client_tools names sw admin_tools = Some o → aliases_ok (of_builtin_aliases o).
Proof.
  intros Ho. apply make_offer_tools in Ho as (_ & _ & _ & -> & _). intros k x.
  set (bs := builtins_of _ _ _). assert (∀ b, b ∈ bs → ts_name b ∈ builtin_names) as Hb.
  { intros b. unfold bs, builtins_of, builtin_names.
    destruct (sw_web_search sw), (sw_deep_research sw), (sw_web_crawl sw); simpl; rewrite ?elem_of_cons, ?elem_of_nil;
      intros Hb; repeat destruct Hb as [->|Hb]; try done; simpl; tauto. }
  induction bs as [|b bs IH]; csimpl; [done|]. unfold offer_builtin at 1.
  assert (∀ b, b ∈ bs → ts_name b ∈ builtin_names) as Hb' by (intros; apply Hb; by right).
  case_decide; cbn [snd app get]; [|by apply IH]. case_decide; [intros [= <-]; apply Hb; left|by apply IH].
Qed.

(** C21: For every request whose tools assemble, the tools of ours are offered under
    distinct names which their specifications carry.  A call by such a name runs the
    function that was offered under it, with the parameters its specification declares,
    unless the name is a built-in tool's or an alias of one: then it enters no function of
    a toolkit or a mod.  Built-in tools answer to the name they are offered under, and the
    caller's tools are offered as they were sent.  The tools offered come from the
    functions of the selected toolkits and from the mods' tools; as long as the qualified
    names of these do not meet, no tool is lost and none has a name the caller claimed.
    Stored schemas are taken to have a dict, if anything, as their properties. *)
Theorem offered_tools_are_dispatched sw pairs user_id form_data metadata client_tools names s tools s' o loaded defaults s0 :
  specs_ok (ss_studio s) → result_of (assemble_for_user (sv_dialect sv) loaded user_id defaults) s0 = Ok pairs →
  admin_tools_of sv execute has_attribute sw pairs user_id form_data names s = (Ok tools, s') →
  make_offer form_data metadata client_tools names sw tools = Some o →
  NoDup tools.*1 ∧
  (∀ n t, (n, t) ∈ tools →
     (∃ sp, td_spec t = Some (Typed sp) ∧ ts_name sp = n ∧ function_tool (to_openai sp) ∈ of_openai_tools o) ∧
     ∀ arguments tool_call, calls_by_name n arguments tool_call →
       let call := _dispatch_tool_call (sv_dialect sv) tool_call (of_admin_tools o) (of_metadata o) (of_builtin_aliases o) in
       if decide (n ∈ builtin_names ∨ n ∈ (of_builtin_aliases o).*1) then preserves enters_nothing call
       else call = dispatched (sv_dialect sv) n t arguments) ∧
  (∀ b, b ∈ builtins_of (sw_web_search sw) (sw_deep_research sw) (sw_web_crawl sw) →
     ∃ n, function_tool (dict_set "name" (JStr n) (to_openai b)) ∈ of_openai_tools o ∧
       canonical (of_builtin_aliases o) (JStr n) = Some (JStr (ts_name b))) ∧
  (∃ ours, of_openai_tools o = ours ++ client_tools) ∧
  ∃ own, result_of (own_tools sw user_id) s = Ok own ∧
    (∀ nt, nt ∈ tools → ∃ nt0, nt0 ∈ own ++ pairs ∧ same_tool nt0.2 nt.2) ∧
    (clash_free (own ++ pairs) names = true →
      (∀ nt0, nt0 ∈ own ++ pairs → ∃ nt, nt ∈ tools ∧ same_tool nt0.2 nt.2) ∧
      ∀ n, n ∈ tools.*1 → n ∉ names).
Proof.
  intros Hs Hassembled Hrun Ho.
  pose proof (assemble_for_user_sound (sv_dialect sv) loaded user_id defaults s0 I) as Hpairs.
  unfold result_of in Hassembled. destruct (assemble_for_user _ _ _ _ s0) as [r s1]. simpl in Hassembled. subst r.
  destruct (admin_tools_run _ _ _ _ _ _ _ _ Hs Hrun) as (own & Hres & -> & Hown).
  pose proof (offer_aliases_ok _ _ _ _ _ _ _ Ho) as Hal.
  destruct (make_offer_tools _ _ _ _ _ _ _ Ho) as (Ht & Hoffered & Hbuilt & Ha & Hours).
  pose proof (finished_NoDup (own ++ pairs) names) as Hnd. split_and!; [done| | |done|].
  - intros n t Hin. split.
    + assert (well_named (n, t)) as (sp & Hsp & Hn).
      { revert Hin. generalize (n, t). apply Forall_forall, yield_well_named, resolve_well_named, Forall_app. split.
        - eapply Forall_impl; [done|]. by intros nt (? & _ & _ & ?).
        - eapply Forall_impl; [done|]. by intros nt [? _]. }
      exists sp. split_and!; [done|done|]. destruct (Hoffered n t Hin) as (j & Hj & Hin').
      unfold serialized in Hj. simpl in Hsp. rewrite Hsp in Hj. by injection Hj as <-.
    + intros arguments tool_call Hcall. cbv zeta. case_decide as Hb.
      * destruct (canonical_builtin _ _ Hal Hb) as (b & Hc & Hbn). apply (dispatch_builtin _ b n); eauto.
      * rewrite Ht. apply dispatch_by_name; [done|by apply elem_get|tauto|tauto].
  - intros b Hb. destruct (builtins_stand_for names _ _ _ b Hb) as (n & Hn & Hc). exists n. rewrite <- Hn, Ha.
    split; [by apply Hbuilt|done].
  - exists own. split; [done|]. split; [intros nt; apply finished_elem|apply finished_complete].
Qed.
End offer.
