(* ===== verification/ToolRounds.v ===== *)
(** The rounds of a conversation: who may enter a tool, and that every call of a round is
    answered before the model is asked again. *)

From Stdlib Require Import Ascii.
From stdpp Require Import sets.
From S2P Require Import Prelude Data Accounts AccessControl Formats Replies Studio Plugin ModTools ToolLoop ToolOffer.

(** ** Programs *)

Lemma preserves_expect {S A} (R : relation S) `{!PreOrder R} (o : option A) : preserves R (expect o).
Proof. destruct o; intros s; reflexivity. Qed.

Lemma preserves_get_field {S} (R : relation S) `{!PreOrder R} key x : preserves R (get_field key x).
Proof. by apply preserves_expect. Qed.

Lemma preserves_rescue {S A} (R : relation S) `{!PreOrder R} (m : prog S Exn A) h :
  preserves R m → (∀ e, preserves R (h e)) → preserves R (rescue m h).
Proof.
  intros Hm Hh s. specialize (Hm s). unfold state_of, rescue in *. destruct (m s) as [[a|e] s'] eqn:E; simpl in *; [done|].
  etransitivity; [done|apply Hh].
Qed.

Lemma preserves_tried {S A} (R : relation S) (m : prog S Exn A) : preserves R m → preserves R (tried m).
Proof. intros Hm s. specialize (Hm s). unfold state_of, tried in *. by destruct (m s) as [[] s']. Qed.

Lemma preserves_in_session {A} (R : relation Session) (m : session A) :
  preserves R m → preserves (λ c c', R (cv_session c) (cv_session c')) (in_session m).
Proof.
  intros Hm c. specialize (Hm (cv_session c)). unfold state_of, in_session in *.
  by destruct (m (cv_session c)) as [[] s'].
Qed.

#[export] Instance on_session_preorder (R : relation Session) `{!PreOrder R} :
  PreOrder (λ c c', R (cv_session c) (cv_session c')).
Proof. split; [by intros c|]. intros c1 c2 c3 ??. by etransitivity. Qed.

(** ** Who enters a tool *)

Section rights.
Context (dialect : Dialect) `{!Codec}.
(** The assembled tools, and the names the caller claimed. *)
Context (tools : list (string * ToolDict)) (names : list string).

(** A tool's function is entered after the status line of a name that is not the caller's,
    with declared parameters only; a mod's handler right after a check of its scope that
    the group table of that moment allows. *)
Definition justified (before : list Act) (c : Callable) (args : json_dict) : Prop :=
  ∃ n t before', (n, t) ∈ tools ∧ n ∉ names ∧ td_callable t = c ∧
    Forall (λ kv, py_in kv.1 (allowed_params (td_spec t)) = Some true) args ∧
    match c with
    | Partial _ _ => before = before' ++ [Status (JStr n) false]
    | Guarded tool user_id defaults =>
        Forall (λ kv, _is_internal kv.1 = false) args ∧
        ∃ scope g, mt_scope tool = JStr scope ∧ has_permission dialect g user_id scope defaults = true ∧
          before = before' ++ [Status (JStr n) false; Checked user_id scope defaults g true]
    end.

Definition log_ok (l : list Act) : Prop :=
  ∀ before c args v after, l = before ++ Ran c args v :: after → justified before c args.

Lemma justified_app l before c args : justified before c args → justified (l ++ before) c args.
Proof.
  intros (n & t & before' & H1 & H2 & H3 & H4 & H5). exists n, t, (l ++ before'). split_and!; [done..|].
  destruct c; [by rewrite H5, (assoc_L (++))|]. destruct H5 as (? & scope & g & ? & ? & ->). split; [done|].
  exists scope, g. by rewrite (assoc_L (++)).
Qed.

Lemma log_ok_app l l' : log_ok l → log_ok l' → log_ok (l ++ l').
Proof.
  intros Hl Hl' before c args v after Heq. apply app_eq_inv in Heq as [(k & -> & Hk)|(k & Hk & Heq)].
  - destruct k as [|a k].
    + destruct l' as [|a l']; [done|]. injection Hk as <- <-. rewrite <- (app_nil_r before). apply justified_app.
      by apply (Hl' [] c args v after).
    + injection Hk as <- ->. by apply (Hl _ _ _ v k).
  - subst before. apply justified_app. by apply (Hl' _ _ _ v after).
Qed.

Lemma log_ok_quiet l : forallb (λ a, negb (is_run a)) l = true → log_ok l.
Proof. intros Hl before c args v after ->. rewrite forallb_app in Hl. simpl in Hl. by rewrite andb_false_r in Hl. Qed.

(** The log grows by acts that are in order. *)
Definition grows (s s' : Session) : Prop := ∃ l, ss_log s' = ss_log s ++ l ∧ log_ok l.

#[export] Instance grows_preorder : PreOrder grows.
Proof.
  split; [intros s; exists []; split; [by rewrite app_nil_r|by apply log_ok_quiet]|].
  intros s1 s2 s3 (l & Hl & Ok1) (l' & Hl' & Ok2). exists (l ++ l'). split; [by rewrite Hl', Hl, (assoc_L (++))|].
  by apply log_ok_app.
Qed.

Lemma grows_same {A} (m : session A) : (∀ s, ss_log (state_of m s) = ss_log s) → preserves grows m.
Proof. intros Hm s. exists []. rewrite Hm, app_nil_r. split; [done|by apply log_ok_quiet]. Qed.

Lemma grows_act a : is_run a = false → preserves grows (act a).
Proof. intros Ha s. exists [a]. split; [done|]. apply log_ok_quiet. simpl. by rewrite Ha. Qed.

Lemma grows_output : preserves grows next_output.
Proof. apply grows_same. intros s. unfold state_of, next_output. by destruct (ss_outputs s) as [|[]]. Qed.
Lemma grows_page : preserves grows next_page.
Proof. apply grows_same. intros s. unfold state_of, next_page. by destruct (ss_pages s) as [|[]]. Qed.
Lemma grows_groups : preserves grows next_groups.
Proof. apply grows_same. intros s. unfold state_of, next_groups. by destruct (ss_groups s). Qed.

Lemma grows_permission user_id scope defaults : preserves grows (permission_now dialect user_id scope defaults).
Proof.
  unfold permission_now. preserves_step; [by apply preserves_expect; apply _|].
  preserves_step; [apply grows_groups|]. preserves_step; [by apply grows_act|]. by preserves_step.
Qed.

(** What calling a tool's function adds to the log. *)
Definition invoked (c : Callable) (args : json_dict) (l : list Act) : Prop :=
  match c with
  | Partial _ _ => ∃ v, l = [Ran c args v]
  | Guarded tool user_id defaults =>
      forallb (λ a, negb (is_run a)) l = true ∨
      ∃ scope g, mt_scope tool = JStr scope ∧ has_permission dialect g user_id scope defaults = true ∧
        l = [Checked user_id scope defaults g true; Ran c (filter (λ kv, negb (_is_internal kv.1)) args) None]
  end.

Lemma next_output_log s : ss_log (next_output s).2 = ss_log s.
Proof. unfold next_output. by destruct (ss_outputs s) as [|[]]. Qed.

Lemma permission_log u scope d s :
  match permission_now dialect u scope d s with
  | (Raise _, s') => s' = s
  | (Ok ok, s') => ∃ sc g, scope = JStr sc ∧ ok = has_permission dialect g u sc d ∧
      ss_log s' = ss_log s ++ [Checked u sc d g ok]
  end.
Proof.
  unfold permission_now. destruct scope as [| | | |sc| |]; try done. cbn [text_of json_str expect].
  rewrite run_bind. simpl. rewrite run_bind. unfold next_groups. destruct (ss_groups s) as [|g rest]; simpl; by eexists _, _.
Qed.

Lemma invoke_log c args s : ∃ l, ss_log (state_of (invoke dialect c args) s) = ss_log s ++ l ∧ invoked c args l.
Proof.
  destruct c as [id f|t u d]; unfold invoke, state_of.
  - exists [Ran (Partial id f) args (ss_valves s)]. split; [|by eexists]. rewrite run_gets_bind, run_bind. simpl.
    by rewrite next_output_log.
  - rewrite run_bind. pose proof (permission_log u (mt_scope t) d s) as Hp.
    destruct (permission_now dialect u (mt_scope t) d s) as [[ok|e] s1]; simpl.
    2:{ subst. exists []. rewrite app_nil_r. split; [done|by left]. }
    destruct Hp as (sc & g & Hsc & -> & Hlog). destruct (has_permission dialect g u sc d) eqn:Hg; simpl.
    + eexists. split; [rewrite run_bind; simpl; rewrite next_output_log; simpl; rewrite Hlog; by rewrite <- (assoc_L (++))|].
      right. by exists sc, g.
    + eexists. split; [done|by left].
Qed.

Lemma filter_args_allowed allowed d kept :
  filter_args allowed d = Some kept → Forall (λ kv, py_in kv.1 allowed = Some true) kept.
Proof.
  revert kept. induction d as [|[k v] d IH]; intros kept; simpl; [by intros [= <-]|].
  destruct (py_in k allowed) as [b|] eqn:Hk; [|done]. simpl. destruct (filter_args allowed d) as [kept'|]; [|done]. simpl.
  intros [= <-]. destruct b; [by constructor; [|apply IH]|by apply IH].
Qed.

(** Running a tool always answers. *)
Lemma run_tool_log t arguments s :
  ∃ out s' l, run_tool dialect t arguments s = (Ok out, s') ∧ ss_log s' = ss_log s ++ l ∧
    (l = [] ∨ ∃ args, Forall (λ kv, py_in kv.1 (allowed_params (td_spec t)) = Some true) args ∧ invoked (td_callable t) args l).
Proof.
  unfold run_tool, rescue. rewrite run_bind.
  destruct (match arguments with JDict d => filter_args (allowed_params (td_spec t)) d | _ => None end) as [args|] eqn:Hargs.
  2:{ eexists _, s, []. split; [done|]. rewrite app_nil_r. split; [done|by left]. }
  assert (Forall (λ kv, py_in kv.1 (allowed_params (td_spec t)) = Some true) args) as Hall.
  { destruct arguments; try done. by apply filter_args_allowed in Hargs. }
  simpl. rewrite run_bind. destruct (invoke_log (td_callable t) args s) as (l & Hl & Hi). unfold state_of in Hl.
  destruct (invoke dialect (td_callable t) args s) as [[out|e] s'].
  - destruct out as [[]|]; eexists _, s', l; (split; [done|]); eauto.
  - eexists _, s', l. split; [done|]. eauto.
Qed.

Lemma invoked_ok n t args l :
  (n, t) ∈ tools → n ∉ names → Forall (λ kv, py_in kv.1 (allowed_params (td_spec t)) = Some true) args →
  invoked (td_callable t) args l → log_ok ([Status (JStr n) false] ++ l).
Proof.
  intros Hin Hn Hargs Hi. unfold invoked in Hi. destruct (td_callable t) as [id f|tool u d] eqn:Hc.
  - destruct Hi as [v ->]. intros [|a [|b before]] c args' v' after Heq; simplify_eq/=.
    + exists n, t, []. rewrite Hc. by split_and!.
    + by destruct before.
  - destruct Hi as [Hq|(sc & g & Hsc & Hp & ->)]; [by apply log_ok_quiet|].
    intros [|a [|b [|b' before]]] c args' v' after Heq; simplify_eq/=; [|by destruct before].
    exists n, t, []. rewrite Hc. split_and!; [done|done|done| | |].
    + rewrite Forall_forall in Hargs |- *. intros kv [_ Hkv]%list_elem_of_filter. by apply Hargs.
    + rewrite Forall_forall. by intros kv [?%Is_true_true%negb_true_iff _]%list_elem_of_filter.
    + by exists sc, g.
Qed.

Lemma grows_dispatched n t arguments :
  (n, t) ∈ tools → n ∉ names → preserves grows (dispatched dialect n t arguments).
Proof.
  intros Hin Hn s. unfold dispatched, state_of. rewrite run_bind. simpl.
  rewrite run_bind. match goal with |- context [run_tool dialect t ?a ?s1] => pose proof (run_tool_log t a s1) as Hrun end.
  destruct Hrun as (out & s' & l & -> & Hl & Hi). simpl.
  exists (([Status (JStr n) false] ++ l) ++ [Status (JStr n) true]). split.
  - rewrite Hl. simpl. by rewrite <- !(assoc_L (++)).
  - apply log_ok_app; [|by apply log_ok_quiet]. destruct Hi as [->|(args & Hargs & Hi)]; [by apply log_ok_quiet|].
    by apply (invoked_ok n t args).
Qed.

(** *** Dispatch *)

Lemma grows_expect {A} (o : option A) : preserves grows (expect o : session A).
Proof. apply preserves_expect, _. Qed.
Lemma grows_get_field key x : preserves grows (get_field key x : session Json).
Proof. apply grows_expect. Qed.
Lemma grows_append m : preserves grows (append_message m).
Proof. by apply grows_same. Qed.
#[local] Hint Resolve grows_output grows_page grows_groups grows_permission grows_expect grows_get_field grows_append : rights.

Ltac grows_step :=
  first [ progress auto with rights nocore | apply grows_act; done | preserves_step ].

Lemma grows_query arguments : preserves grows (query_of arguments).
Proof. unfold query_of. repeat grows_step. Qed.
Lemma grows_url arguments : preserves grows (url_of arguments).
Proof. unfold url_of. repeat grows_step. Qed.
Lemma grows_browse name x : preserves grows (browse name x).
Proof. unfold browse. repeat grows_step. Qed.
#[local] Hint Resolve grows_query grows_url grows_browse : rights.

(** A call of a name the caller did not claim. *)
Definition ours (tool_call : Json) : Prop := (_tool_call_name tool_call ≫= λ n, in_names n names) = Some false.

Lemma call_name tool_call function n :
  get_or "function" tool_call (JDict []) = Some function → field "name" function = Some (JStr n) →
  _tool_call_name tool_call = Some (JStr n).
Proof.
  destruct tool_call as [| | | | | |d]; try done. unfold _tool_call_name, field, get_or.
  destruct (dict_lookup "function" d) as [f|]; simpl; intros [= <-]; [|done].
  destruct f as [| | | | | |f]; try done. destruct f as [|kx f]; [done|]. simpl. intros [= Hn].
  change (py_or (JDict (kx :: f)) (JDict [])) with (JDict (kx :: f)). simpl. rewrite Hn. simpl.
  unfold py_or. simpl. case_bool_decide as He; [done|]. by rewrite He.
Qed.

Lemma grows_dispatch tool_call metadata aliases :
  aliases_ok aliases → ours tool_call →
  preserves grows (_dispatch_tool_call dialect tool_call tools metadata aliases).
Proof.
  intros Ha Hours. unfold _dispatch_tool_call.
  destruct (get_or "function" tool_call (JDict [])) as [function|] eqn:Hf; [|by intros s].
  rewrite expect_some. destruct (field "name" function) as [offered|] eqn:Hname; [|unfold get_field; rewrite Hname; by intros s].
  rewrite (get_field_some _ _ _ _ Hname). destruct (canonical aliases offered) as [name|] eqn:Hc; [|by intros s].
  rewrite expect_some. preserves_step; [apply grows_get_field|]. cbv zeta.
  destruct (json_is "web_search" name) eqn:H1; [repeat grows_step|].
  destruct (json_is "web_fetch" name) eqn:H2; [repeat grows_step|].
  destruct (json_is "web_crawl" name) eqn:H3; [repeat grows_step|].
  destruct (json_is "deep_research" name) eqn:H4; [repeat grows_step|].
  destruct (admin_tool name tools) as [t|] eqn:Ht; [|repeat grows_step].
  destruct name as [| | | |n| |]; try done. simpl in Ht, H1, H2, H3, H4.
  apply (grows_dispatched n t); [by apply get_elem|].
  assert (offered = JStr n) as ->.
  { unfold canonical in Hc. destruct (dict_key offered) as [key|] eqn:Hk; [|done]. simpl in Hc. injection Hc as Hc.
    destruct key as [| | | |k| |]; try done. destruct (get k aliases) as [x|] eqn:Hx; [|done]. simpl in Hc. injection Hc as ->.
    apply Ha in Hx. unfold builtin_names in Hx. rewrite !elem_of_cons in Hx. rewrite !bool_decide_eq_false in *.
    by destruct Hx as [->|[->|[->|[->|[]%elem_of_nil]]]]. }
  intros Hn. unfold ours in Hours. rewrite (call_name _ _ _ Hf Hname) in Hours.
  change (Some (bool_decide (n ∈ names)) = Some false) in Hours. injection Hours as Hours.
  by apply bool_decide_eq_false in Hours.
Qed.

Lemma partition_ours calls server client :
  _partition_tool_calls calls names = Some (server, client) → Forall ours server.
Proof.
  revert server client. induction calls as [|c calls IH]; intros server client; simpl; [by intros [= <- <-]|].
  destruct (_tool_call_name c) as [n|] eqn:Hn; [|done]. simpl. destruct (in_names n names) as [b|] eqn:Hb; [|done]. simpl.
  destruct (_partition_tool_calls calls names) as [[sv cl]|]; [|done]. simpl. intros [= Heq]. specialize (IH sv cl eq_refl).
  destruct b; simplify_eq; [done|]. constructor; [|done]. unfold ours. by rewrite Hn.
Qed.

Lemma grows_answer_round server client metadata aliases :
  aliases_ok aliases → Forall ours server → preserves grows (answer_round dialect server client tools metadata aliases).
Proof.
  intros Ha Hs. unfold answer_round. preserves_step.
  - apply preserves_for_each; [apply _|]. intros c Hc. preserves_step.
    + apply grows_dispatch; [done|]. by rewrite Forall_forall in Hs; apply Hs.
    + repeat grows_step.
  - apply preserves_for_each; [apply _|]. intros c Hc. repeat grows_step.
Qed.

(** *** The loops *)

Definition conv_grows (c c' : Conv) : Prop := grows (cv_session c) (cv_session c').

#[export] Instance conv_grows_preorder : PreOrder conv_grows.
Proof. apply (on_session_preorder grows). Qed.

Lemma grows_complete payload : preserves conv_grows (generate_chat_completion payload).
Proof.
  intros c. unfold state_of, generate_chat_completion, conv_grows. simpl.
  destruct (cv_answers c) as [|a rest]; [reflexivity|].
  assert (grows (cv_session c) ((cv_session c) <| ss_messages := an_touch a (ss_messages (cv_session c)) |>)) as Hg
    by (by exists []; rewrite app_nil_r; split; [|apply log_ok_quiet]).
  by destruct (an_reply a).
Qed.

Lemma grows_in_session {A} (m : session A) : preserves grows m → preserves conv_grows (in_session m).
Proof. apply preserves_in_session. Qed.
Lemma conv_expect {A} (o : option A) : preserves conv_grows (expect o : conv A).
Proof. apply preserves_expect, _. Qed.
Lemma conv_get_field key x : preserves conv_grows (get_field key x : conv Json).
Proof. apply conv_expect. Qed.
Lemma grows_messages : preserves conv_grows messages_now.
Proof. apply preserves_gets, _. Qed.
Lemma grows_send line : preserves conv_grows (send line).
Proof. intros c. unfold state_of, conv_grows. simpl. reflexivity. Qed.
Lemma grows_close : preserves conv_grows close.
Proof. intros c. unfold state_of, conv_grows. simpl. reflexivity. Qed.
#[local] Hint Resolve grows_complete conv_expect conv_get_field grows_messages grows_send grows_close : rights.

Ltac conv_step :=
  first [ progress auto with rights nocore
        | apply preserves_tried | apply preserves_rescue; [apply _| |intros ?]
        | apply preserves_for_each; [apply _|intros ? _] | preserves_step ].

Section loops.
Context (o : Offer).
Hypothesis (Htools : of_admin_tools o = tools) (Hnames : of_client_tool_names o = names)
  (Haliases : aliases_ok (of_builtin_aliases o)).

Lemma grows_payload stream : preserves conv_grows (round_payload o stream).
Proof. unfold round_payload. repeat conv_step. Qed.
Lemma grows_fallbacks :
  preserves conv_grows (buffered_fallback o) ∧ preserves conv_grows (buffered_last o) ∧
  preserves conv_grows (streamed_fallback o).
Proof. unfold buffered_fallback, buffered_last, streamed_fallback, relay_all. split_and!; repeat conv_step. Qed.

Lemma grows_finish message server client :
  Forall ours server → preserves conv_grows (finish_round dialect o message server client).
Proof.
  intros Hs. unfold finish_round. preserves_step; [by apply grows_in_session, grows_append|].
  rewrite Htools. by apply grows_in_session, grows_answer_round.
Qed.

Lemma grows_buffered rounds : preserves conv_grows (buffered_rounds dialect o rounds).
Proof.
  destruct grows_fallbacks as (Hf & Hl & _). induction rounds as [|rounds IH]; cbn [buffered_rounds]; [done|].
  preserves_step; [apply grows_payload|]. preserves_step; [apply preserves_tried, grows_complete|].
  destruct a0 as [r|e]; [|done]. do 3 (preserves_step; [auto with rights|]). preserves_step; [by preserves_step|].
  preserves_step; [auto with rights|]. destruct (_partition_tool_calls a3 (of_client_tool_names o)) as [[server client]|] eqn:Hp.
  - rewrite expect_some. cbn iota. case_decide; [repeat conv_step|]. preserves_step; [|done].
    apply grows_finish. rewrite Hnames in Hp. by apply partition_ours in Hp.
  - intros c. unfold conv_grows. simpl. reflexivity.
Qed.

Lemma grows_body r lines broken : preserves conv_grows (take_body r lines broken).
Proof.
  revert r. induction lines as [|line lines IH]; intros r; simpl; [repeat conv_step|].
  preserves_step; [|by destruct a; [apply IH|preserves_step]]. unfold take_line. repeat conv_step.
Qed.

Lemma grows_streamed rounds : preserves conv_grows (streamed_rounds dialect o rounds).
Proof.
  destruct grows_fallbacks as (_ & _ & Hf). induction rounds as [|rounds IH]; cbn [streamed_rounds]; [done|].
  preserves_step; [apply grows_payload|]. preserves_step; [apply preserves_tried, grows_complete|].
  destruct a0 as [r|e]; [|done]. preserves_step; [auto with rights|]. preserves_step; [apply grows_body|].
  preserves_step; [auto with rights|]. preserves_step; [auto with rights|]. preserves_step; [auto with rights|]. cbv zeta.
  destruct (_partition_tool_calls _ (of_client_tool_names o)) as [[server client]|] eqn:Hp.
  - rewrite expect_some. cbn iota. case_decide; [unfold hand_back; repeat conv_step|]. preserves_step; [auto with rights|].
    preserves_step; [|done]. apply grows_finish. rewrite Hnames in Hp. by apply partition_ours in Hp.
  - intros c. unfold conv_grows. simpl. reflexivity.
Qed.
End loops.
End rights.

(** *** A request *)

Section request.
Context (sv : Server) `{!Codec} (execute : string → option ToolModule) (has_attribute : ToolModule → string → bool).
Implicit Types (s : Session) (c : Conv).

(** Assembling tools checks scopes and touches nothing else; [studio] tells whether the rows
    and modules are left alone too. *)
Definition idle (studio : bool) s s' : Prop :=
  (studio = true → ss_studio s' = ss_studio s) ∧
  ∃ l, ss_log s' = ss_log s ++ l ∧ forallb (λ a, negb (is_run a)) l = true.

#[export] Instance idle_preorder studio : PreOrder (idle studio).
Proof.
  split; [intros s; split; [done|exists []; by rewrite app_nil_r]|].
  intros s1 s2 s3 (H1 & l & Hl & Q) (H2 & l' & Hl' & Q'). split; [intros Hs; by rewrite H2, H1|].
  exists (l ++ l'). rewrite Hl', Hl, <- (assoc_L (++)), forallb_app. by rewrite Q, Q'.
Qed.

Lemma idle_act studio a : is_run a = false → preserves (idle studio) (act a).
Proof. intros Ha s. split; [done|]. exists [a]. split; [done|]. simpl. by rewrite Ha. Qed.

Lemma idle_same {A} studio (m : session A) :
  (∀ s, ss_log (state_of m s) = ss_log s ∧ (studio = true → ss_studio (state_of m s) = ss_studio s)) → preserves (idle studio) m.
Proof. intros Hm s. destruct (Hm s) as [Hl Hs]. split; [done|]. exists []. by rewrite Hl, app_nil_r. Qed.

Lemma idle_expect {A} studio (x : option A) : preserves (idle studio) (expect x : session A).
Proof. apply preserves_expect, _. Qed.

Lemma idle_permission studio u scope d : preserves (idle studio) (permission_now (sv_dialect sv) u scope d).
Proof.
  unfold permission_now. preserves_step; [apply idle_expect|]. preserves_step.
  - apply idle_same. intros s. unfold state_of, next_groups. by destruct (ss_groups s).
  - preserves_step; [by apply idle_act|]. by preserves_step.
Qed.

Lemma idle_mod_tools tools id u d assembled :
  preserves (idle true) (assemble_mod_tools (sv_dialect sv) tools id u d assembled).
Proof.
  revert assembled. induction tools as [|t tools IH]; intros assembled; simpl; [by preserves_step|].
  preserves_step; [apply idle_permission|]. preserves_step; [|done]. preserves_step; [apply idle_expect|done].
Qed.

Lemma idle_mods loaded u d : preserves (idle true) (assemble_mods (sv_dialect sv) loaded u d).
Proof.
  induction loaded as [|[id tools] loaded IH]; simpl; [by preserves_step|].
  preserves_step; [apply idle_mod_tools|preserves_step; [done|by preserves_step]].
Qed.

Lemma idle_assembly mods u d : preserves (idle true) (assemble_for_user (sv_dialect sv) mods u d).
Proof. unfold assemble_for_user. destruct mods as [loaded|]; [apply idle_mods|by preserves_step]. Qed.

(** *** What is offered was allowed *)

(** A mod's tool passed a check of its scope, for the user it is bound to. *)
Definition granted (l : list Act) (call : Callable) : Prop :=
  match call with
  | Partial _ _ => True
  | Guarded tool u d => ∃ scope g, mt_scope tool = JStr scope ∧
      has_permission (sv_dialect sv) g u scope d = true ∧ Checked u scope d g true ∈ l
  end.

Definition all_granted s (pairs : list (string * ToolDict)) : Prop := Forall (λ nt, granted (ss_log s) (td_callable nt.2)) pairs.

Lemma granted_idle studio s s' pairs : idle studio s s' → all_granted s pairs → all_granted s' pairs.
Proof.
  intros (_ & l & Hl & _) Hg. eapply Forall_impl; [exact Hg|]. intros nt. unfold granted. destruct (td_callable nt.2); [done|].
  intros (scope & g & ? & ? & ?). exists scope, g. rewrite Hl. split_and!; [done..|]. apply elem_of_app. by left.
Qed.

Lemma mod_tools_granted tools id u d assembled s :
  all_granted s assembled →
  match assemble_mod_tools (sv_dialect sv) tools id u d assembled s with
  | (Ok pairs, s') => all_granted s' pairs
  | (Raise _, _) => True
  end.
Proof.
  revert assembled s. induction tools as [|t tools IH]; intros assembled s Hg; cbn [assemble_mod_tools]; [done|].
  rewrite run_bind. pose proof (idle_permission true u (mt_scope t) d s) as Hi.
  pose proof (permission_log (sv_dialect sv) u (mt_scope t) d s) as Hp. unfold state_of in Hi.
  destruct (permission_now _ u (mt_scope t) d s) as [[ok|e] s1]; [|done]. destruct Hp as (sc & g & Hsc & -> & Hlog).
  pose proof (granted_idle _ _ _ _ Hi Hg) as Hg1. destruct (has_permission _ g u sc d) eqn:Hok; [|by apply IH].
  destruct (mod_spec t) as [sp|]; [|done]. rewrite expect_some. cbv zeta. apply IH.
  unfold all_granted in *. rewrite Forall_forall in Hg1 |- *. intros nt [->|Hin]%elem_of_put; [|by apply Hg1].
  exists sc, g. split_and!; [done..|]. rewrite Hlog. apply elem_of_app. right. left.
Qed.

Lemma mods_granted loaded u d s :
  match assemble_mods (sv_dialect sv) loaded u d s with
  | (Ok pairs, s') => all_granted s' pairs
  | (Raise _, _) => True
  end.
Proof.
  revert s. induction loaded as [|[id tools] loaded IH]; intros s; cbn [assemble_mods]; [apply Forall_nil_2|].
  rewrite run_bind. pose proof (mod_tools_granted tools id u d [] s (Forall_nil_2 _)) as Hg.
  destruct (assemble_mod_tools _ tools id u d [] s) as [[pairs|e] s1]; [|done]. rewrite run_bind. specialize (IH s1).
  pose proof (idle_mods loaded u d s1) as Hi. unfold state_of in Hi.
  destruct (assemble_mods _ loaded u d s1) as [[more|e] s2]; [|done]. apply Forall_app.
  split; [by apply (granted_idle _ _ _ _ Hi)|done].
Qed.

Lemma assembly_granted mods u d s :
  match assemble_for_user (sv_dialect sv) mods u d s with
  | (Ok pairs, s') => all_granted s' pairs
  | (Raise _, _) => True
  end.
Proof. unfold assemble_for_user. destruct mods as [loaded|]; [apply mods_granted|apply Forall_nil_2]. Qed.

Lemma idle_get_tools ids u : preserves (idle false) (get_tools execute has_attribute ids u).
Proof.
  unfold get_tools. preserves_step; [|by preserves_step]. induction ids as [|id ids IH]; simpl; [by preserves_step|].
  preserves_step; [by preserves_step|]. destruct a as [t|]; [|done].
  preserves_step.
  { apply idle_same. intros s. split; [|done]. unfold state_of, over_studio. by destruct (tool_module execute id (ss_studio s)) as [[]]. }
  preserves_step.
  { unfold set_valves. repeat first [apply idle_expect | preserves_step]. }
  preserves_step.
  { unfold set_user_valves. repeat first [apply idle_expect | by apply idle_same | preserves_step]. }
  preserves_step; [|preserves_step; [done|by preserves_step]].
  generalize (tl_specs t). intros ds. induction ds as [|d ds IHd]; simpl; [by preserves_step|].
  preserves_step; [|preserves_step; [done|by preserves_step]].
  unfold stored_tool. preserves_step; [by destruct (from_openai d); preserves_step|]. by repeat preserves_step.
Qed.

Lemma idle_admin_tools sw pairs u form_data names :
  preserves (idle false) (admin_tools_of sv execute has_attribute sw pairs u form_data names).
Proof.
  unfold admin_tools_of. repeat first [apply idle_expect | apply idle_get_tools | preserves_step].
Qed.

Definition client_names (form_data : json_dict) : option (list string) :=
  extract_client_tools form_data ≫= mapM offered_name.

Definition request_switches (form_data : json_dict) : option Switches :=
  switches_of (py_or (default (JDict []) (dict_lookup "metadata" form_data)) (JDict [])).

(** Arguments that are parameters of a specification. *)
Definition args_of (sp : ToolSpec) (args : json_dict) : Prop :=
  Forall (λ kv, py_in kv.1 (allowed_params (Some (Typed sp))) = Some true) args.

(** Under which conditions a request enters a tool's function, given the specifications
    that are stored with the toolkits. *)
Definition entered (declared : list (string * list json_dict)) (form_data : json_dict) (user : User)
    (before : list Act) (call : Callable) (args : json_dict) : Prop :=
  Forall (λ kv, _is_internal kv.1 = false) args ∧
  ∃ n before', (∀ names, client_names form_data = Some names → n ∉ names) ∧
    match call with
    | Partial id f =>
        before = before' ++ [Status (JStr n) false] ∧
        (∀ sw, request_switches form_data = Some sw → id ∈ request_ids sw) ∧
        ∃ sp, declares declared id f sp ∧ args_of sp args
    | Guarded tool u d =>
        u = us_id user ∧ d = default [] (sv_USER_PERMISSIONS sv) ∧
        (∃ id tools, (id, tools) ∈ default [] (sv_MODS sv) ∧ tool ∈ tools) ∧
        (∃ sp, mod_spec tool = Some sp ∧ args_of sp args) ∧
        ∃ scope offered now, mt_scope tool = JStr scope ∧
          has_permission (sv_dialect sv) offered u scope d = true ∧ Checked u scope d offered true ∈ before' ∧
          has_permission (sv_dialect sv) now u scope d = true ∧
          before = before' ++ [Status (JStr n) false; Checked u scope d now true]
    end.

Definition all_entered declared (form_data : json_dict) (user : User) (l : list Act) : Prop :=
  ∀ before call args v after, l = before ++ Ran call args v :: after → entered declared form_data user before call args.

Lemma quiet_runs l before call args v after l' :
  forallb (λ a, negb (is_run a)) l = true → l ++ l' = before ++ Ran call args v :: after →
  ∃ before', before = l ++ before' ∧ l' = before' ++ Ran call args v :: after.
Proof.
  intros Hq [(k & -> & Hk)|(k & -> & Hk)]%app_eq_inv; [|by exists k]. destruct k as [|a k].
  - exists []. rewrite !app_nil_r in *. by split.
  - injection Hk as <- _. rewrite forallb_app in Hq. simpl in Hq. by rewrite andb_false_r in Hq.
Qed.

Lemma quiet_entered declared form_data user s s' studio :
  ss_log s = [] → idle studio s s' → all_entered declared form_data user (ss_log s').
Proof.
  intros Hs (_ & l & Hl & Hq) before call args v after Heq. rewrite Hl, Hs in Heq. simpl in Heq.
  rewrite <- (app_nil_r l) in Heq. apply quiet_runs in Heq as (before' & _ & Heq); [|done]. by destruct before'.
Qed.

(** From the order of the log to the conditions of the request. *)
Lemma log_ok_entered declared form_data user sw own pairs names l0 l :
  request_switches form_data = Some sw → client_names form_data = Some names →
  Forall (selected declared sw) own →
  Forall (mod_tool_of (default [] (sv_MODS sv)) (us_id user) (default [] (sv_USER_PERMISSIONS sv))) pairs →
  Forall (λ nt, granted l0 (td_callable nt.2)) pairs → forallb (λ a, negb (is_run a)) l0 = true →
  log_ok (sv_dialect sv) (finished (own ++ pairs) names) names l →
  all_entered declared form_data user (l0 ++ l).
Proof.
  intros Hsw Hnames Hown Hpairs Hgranted Hquiet Hl before call args v after Heq.
  apply quiet_runs in Heq as (b & -> & Heq); [|done].
  destruct (Hl b call args v after Heq) as (n & t & before' & Hin & Hn & Hc & Hargs & Hcall).
  apply finished_elem in Hin as (nt0 & Hin & Hcal & _ & Hpar). simpl in *. rewrite Hc in Hcal. rewrite Hpar in Hargs.
  assert (∀ names', client_names form_data = Some names' → n ∉ names') as Hn'
    by (by intros names' [= <-]%(eq_trans (eq_sym Hnames))).
  rewrite Forall_forall in Hown, Hpairs, Hgranted. apply elem_of_app in Hin as [Hin|Hin].
  - destruct (Hown nt0 Hin) as (nt1 & [[_ Hno] (id & f & Hid & Htd & sp & Hsp & Hpsp)] & (Hc1 & _ & Hp1) & _).
    rewrite Htd in Hno, Hc1. simpl in Hno, Hc1. rewrite Hc1 in Hcal. subst call. rewrite Hp1 in Hargs. split.
    + eapply Forall_impl; [done|]. intros kv Hkv. rewrite Htd in Hkv. by apply Hno.
    + exists n, (l0 ++ before'). split; [done|]. split; [by rewrite Hcall, (assoc_L (++))|]. split.
      * by intros sw' [= <-]%(eq_trans (eq_sym Hsw)).
      * exists sp. split; [done|]. eapply Forall_impl; [done|]. intros kv. apply Hpsp.
  - destruct (Hpairs nt0 Hin) as [_ (id & mods & tool & Hmods & Htool & Htd & sp & Hsp & Hts)].
    specialize (Hgranted nt0 Hin). rewrite Htd in Hcal, Hgranted. simpl in Hcal, Hgranted. subst call.
    destruct Hcall as (Hint & scope & g & Hsc & Hp & Hb), Hgranted as (scope0 & g0 & Hsc0 & Hp0 & Hck).
    rewrite Hsc in Hsc0. injection Hsc0 as <-. split; [done|]. exists n, (l0 ++ before').
    split; [done|]. split; [done|]. split; [done|]. split; [by exists id, mods|].
    split; [exists sp; split; [done|unfold args_of; by rewrite <- Hts]|].
    exists scope, g0, g. split_and!; [done|done| |done|by rewrite Hb, (assoc_L (++))]. apply elem_of_app. by left.
Qed.

Lemma run_in_session_bind {A B} (m : session A) (k : A → conv B) c :
  (in_session m ≫= k) c =
    match m (cv_session c) with
    | (Ok a, s) => k a (c <| cv_session := s |>)
    | (Raise e, s) => (Raise e, c <| cv_session := s |>)
    end.
Proof. rewrite run_bind. unfold in_session. by destruct (m (cv_session c)) as [[] s]. Qed.

(** How a request runs: it ends before the model is asked, it falls through to a plain
    completion, or one of the loops runs over its offer and its messages. *)
Inductive request_run (form_data : json_dict) (user : User) c c' : Prop :=
| EndsEarly (_ : idle false (cv_session c) (cv_session c')) (_ : cv_asked c' = cv_asked c)
| FallsThrough c1 (_ : idle false (cv_session c) (cv_session c1))
    (_ : cv_asked c1 = cv_asked c) (_ : cv_answers c1 = cv_answers c)
    (_ : c' = state_of (generate_chat_completion form_data) c1)
| Loops sw own pairs names o messages c1
    (_ : request_switches form_data = Some sw) (_ : client_names form_data = Some names)
    (_ : Forall (selected (declared_specs (ss_studio (cv_session c))) sw) own)
    (_ : Forall (mod_tool_of (default [] (sv_MODS sv)) (us_id user) (default [] (sv_USER_PERMISSIONS sv))) pairs)
    (_ : all_granted (cv_session c1) pairs)
    (_ : of_form_data o = form_data) (_ : of_admin_tools o = finished (own ++ pairs) names)
    (_ : of_client_tool_names o = names) (_ : aliases_ok (of_builtin_aliases o))
    (_ : (dict_lookup "messages" form_data ≫= py_iter) = Some messages)
    (_ : idle false (cv_session c) (cv_session c1)) (_ : ss_messages (cv_session c1) = messages)
    (_ : cv_asked c1 = cv_asked c) (_ : cv_answers c1 = cv_answers c)
    (_ : c' = state_of (_run_tool_calling_buffered (sv_dialect sv) o) c1 ∨
         c' = state_of (_stream_tool_calling (sv_dialect sv) o) c1).

Lemma make_offer_fields form_data metadata client_tools names sw admin_tools o :
  make_offer form_data metadata client_tools names sw admin_tools = Some o →
  of_form_data o = form_data ∧ of_admin_tools o = admin_tools ∧ of_client_tool_names o = names.
Proof. unfold make_offer. destruct (mapM _ _); [|done]. by intros [= <-]. Qed.

Lemma request_runs form_data user c :
  specs_ok (ss_studio (cv_session c)) →
  request_run form_data user c (state_of (generate_chat_completion_with_tools sv execute has_attribute form_data user) c).
Proof.
  intros Hspecs. unfold generate_chat_completion_with_tools, state_of. cbv zeta.
  destruct (switches_of _) as [sw|] eqn:Hsw; [|by apply EndsEarly].
  rewrite expect_some, run_in_session_bind.
  pose proof (idle_assembly (sv_MODS sv) (us_id user) (default [] (sv_USER_PERMISSIONS sv)) (cv_session c)) as [Hst H1].
  pose proof (assemble_for_user_sound (sv_dialect sv) (sv_MODS sv) (us_id user) (default [] (sv_USER_PERMISSIONS sv))
    (cv_session c) I) as Hpairs.
  pose proof (assembly_granted (sv_MODS sv) (us_id user) (default [] (sv_USER_PERMISSIONS sv)) (cv_session c)) as Hgr.
  unfold state_of in *. specialize (Hst eq_refl).
  destruct (assemble_for_user _ _ _ _ (cv_session c)) as [[pairs|e] s1]; [|by apply EndsEarly].
  destruct (extract_client_tools form_data) as [cts|] eqn:Hct; [|by apply EndsEarly].
  rewrite expect_some. destruct (mapM offered_name cts) as [names|] eqn:Hn; [|by apply EndsEarly].
  rewrite expect_some. destruct (falls_through sw pairs).
  { eapply (FallsThrough _ _ _ _ (c <| cv_session := s1 |>)); [done..|]. rewrite run_bind. unfold state_of.
    by destruct (generate_chat_completion form_data _) as [[] ?]. }
  rewrite run_in_session_bind. simpl. rewrite run_in_session_bind. simpl.
  match goal with |- context [admin_tools_of _ _ _ _ _ _ _ _ ?s] => set (s2 := s) end.
  pose proof (idle_admin_tools sw pairs (us_id user) form_data names s2) as [_ H3]. unfold state_of in H3.
  assert (idle false (cv_session c) s2) as H2 by done.
  assert (specs_ok (ss_studio s2)) as Hs2 by (simpl in Hst |- *; by rewrite Hst).
  assert (all_granted (state_of (admin_tools_of sv execute has_attribute sw pairs (us_id user) form_data names) s2) pairs) as Hgr3
    by (apply (granted_idle false s2); [apply idle_admin_tools|done]).
  unfold state_of in Hgr3.
  destruct (admin_tools_of _ _ _ _ _ _ _ _ s2) as [[tools|e] s3] eqn:Hadm;
    (assert (idle false (cv_session c) s3) as H13 by (by etransitivity)); [|by apply EndsEarly].
  destruct (make_offer _ _ _ _ _ _) as [o|] eqn:Ho; [|by apply EndsEarly].
  rewrite expect_some. destruct (dict_lookup "messages" form_data ≫= py_iter) as [messages|] eqn:Hm; [|by apply EndsEarly].
  rewrite expect_some, run_in_session_bind.
  destruct (admin_tools_run _ _ _ _ _ _ _ _ _ _ _ Hs2 Hadm) as (own & _ & -> & Hown).
  assert (ss_studio s2 = ss_studio (cv_session c)) as Hst2 by done. rewrite Hst2 in Hown.
  assert (aliases_ok (of_builtin_aliases o)) by (by eapply offer_aliases_ok). apply make_offer_fields in Ho as (? & ? & ?).
  eapply (Loops _ _ _ _ sw own pairs names o messages (c <| cv_session := s3 <| ss_messages := messages |> |>)); try done.
  { unfold client_names. by rewrite Hct. }
  cbn [modify]. destruct (negb _); rewrite run_bind; [left|right]; unfold state_of, tried.
  - by destruct (_run_tool_calling_buffered _ _ _) as [[] ?].
  - by destruct (_stream_tool_calling _ _ _) as [[] ?].
Qed.

(** C19: Whatever a model asks for, a tool's function is entered only by a call of a name
    the caller did not claim, and without any parameter the server injects.  A toolkit's is
    entered only when the request selected the toolkit, with arguments that a specification
    stored with the toolkit declares for that function.  A mod's handler is entered only
    for a mod that is loaded, bound to the user of the request, with arguments the tool
    declares, after a check of its scope when the tools were assembled and right after
    another: each was passed by the group table of its moment.  The log starts empty, and
    stored schemas are taken to have a dict, if anything, as their properties. *)
Theorem tools_run_within_rights form_data user c :
  ss_log (cv_session c) = [] → specs_ok (ss_studio (cv_session c)) →
  all_entered (declared_specs (ss_studio (cv_session c))) form_data user
    (ss_log (cv_session (state_of (generate_chat_completion_with_tools sv execute has_attribute form_data user) c))).
Proof.
  intros Hlog Hspecs. destruct (request_runs form_data user c Hspecs) as [Hi _|c1 Hi _ _ ->|sw own pairs names o messages c1
    Hsw Hnames Hown Hpairs Hgr _ Htools Hnm Hal _ Hi _ _ _ Hc']; [by apply (quiet_entered _ _ _ (cv_session c) _ false)| |].
  - apply (quiet_entered _ _ _ (cv_session c) _ false); [done|]. etransitivity; [exact Hi|]. split; [done|]. exists [].
    rewrite app_nil_r. unfold state_of, generate_chat_completion. simpl.
    destruct (cv_answers c1) as [|a rest]; [done|]. by destruct (an_reply a).
  - destruct Hi as (_ & l & Hl & Hq). rewrite Hlog in Hl. simpl in Hl.
    assert (grows (sv_dialect sv) (finished (own ++ pairs) names) names (cv_session c1)
      (cv_session (state_of (generate_chat_completion_with_tools sv execute has_attribute form_data user) c))) as (l' & -> & Ok').
    { destruct Hc' as [->| ->]; [by apply grows_buffered|by apply grows_streamed]. }
    apply (log_ok_entered _ _ _ sw own pairs names); [done..| |done]. by rewrite Hl.
Qed.
End request.

(** Every call of a round is answered before the model is asked again, by both loops, and
    how often the model is asked. *)
Module ToolAnswers.

(** ** Conversations *)

Definition is_system (m : Json) : bool := json_is "system" (default JNull (field "role" m)).

(** The messages without a system prompt at their head. *)
Definition conversation (ms : list Json) : list Json :=
  match ms with m :: rest => if is_system m then rest else ms | [] => [] end.

(** A completion may touch the head of the list it is handed, as the system prompt of a
    model preset does, and nothing else. *)
Definition keeps_conversation (f : list Json → list Json) : Prop :=
  ∀ ms, ms ≠ [] → f ms ≠ [] ∧ conversation (f ms) = conversation ms.

Lemma conversation_app ms l : ms ≠ [] → conversation (ms ++ l) = conversation ms ++ l.
Proof. destruct ms as [|m ms]; [done|]. intros _. simpl. by destruct (is_system m). Qed.

(** ** Rounds *)

Definition answers (ok : string → Prop) (tool_call reply : Json) : Prop :=
  ∃ id text, _tool_call_id tool_call = Some id ∧ reply = tool_message id text ∧ ok text.

(** The model's message and, for each of its calls, one answer: what the server's tools
    said, then the deferral of the caller's. *)
Definition full_round (names : list string) (round : list Json) : Prop :=
  ∃ message tool_calls calls server_calls client_calls said deferred,
    round = message :: said ++ deferred ∧
    field "tool_calls" message = Some tool_calls ∧ py_iter tool_calls = Some calls ∧
    _partition_tool_calls calls names = Some (server_calls, client_calls) ∧ server_calls ≠ [] ∧
    Forall2 (answers (λ _, True)) server_calls said ∧
    Forall2 (answers (λ text, text = CLIENT_TOOL_DEFERRAL)) client_calls deferred.

(** The [i]-th payload carries the caller's conversation and full rounds after it. *)
Definition asks_well (names : list string) (messages : list Json) (i : nat) (payload : json_dict) : Prop :=
  ∃ ms rounds, dict_lookup "messages" payload = Some (JList ms) ∧
    conversation ms = conversation messages ++ concat rounds ∧
    (length rounds ≤ i)%nat ∧ Forall (full_round names) rounds.

(** What the [i]-th payload offers: one list of tools, up to the last round; none; or what
    the caller sent. *)
Definition offers_well (offered : list Json) (form_data : json_dict) (i : nat) (payload : json_dict) : Prop :=
  let tools := dict_lookup "tools" payload in
  (i < MAX_TOOL_CALL_ROUNDS)%nat ∧ tools = Some (JList offered) ∨ tools = Some JNull ∨ tools = dict_lookup "tools" form_data.

(** *** Dispatch leaves the messages alone *)

Definition keeps_messages (s s' : Session) : Prop := ss_messages s' = ss_messages s.
#[export] Instance keeps_messages_preorder : PreOrder keeps_messages.
Proof. split; [by intros s|]. unfold keeps_messages. intros s1 s2 s3; congruence. Qed.

Section dispatch.
Context (dialect : Dialect) `{!Codec}.

Lemma keeps_act a : preserves keeps_messages (act a).
Proof. by intros s. Qed.
Lemma keeps_expect {A} (o : option A) : preserves keeps_messages (expect o : session A).
Proof. apply preserves_expect, _. Qed.
Lemma keeps_get_field key x : preserves keeps_messages (get_field key x : session Json).
Proof. apply keeps_expect. Qed.
Lemma keeps_output : preserves keeps_messages next_output.
Proof. intros s. unfold state_of, next_output. by destruct (ss_outputs s) as [|[]]. Qed.
Lemma keeps_page : preserves keeps_messages next_page.
Proof. intros s. unfold state_of, next_page. by destruct (ss_pages s) as [|[]]. Qed.
Lemma keeps_groups : preserves keeps_messages next_groups.
Proof. intros s. unfold state_of, next_groups. by destruct (ss_groups s). Qed.
#[local] Hint Resolve keeps_act keeps_expect keeps_get_field keeps_output keeps_page keeps_groups : answers.

Ltac keeps_step :=
  first [ progress auto with answers nocore | apply preserves_rescue; [apply _| |intros ?] | preserves_step ].

Lemma keeps_dispatch tool_call tools metadata aliases :
  preserves keeps_messages (_dispatch_tool_call dialect tool_call tools metadata aliases).
Proof.
  unfold _dispatch_tool_call, query_of, url_of, browse, run_tool, invoke, permission_now. repeat keeps_step.
Qed.

(** The answers of a list of calls, one after the other. *)
Lemma answers_each (f : Json → session string) ok calls s :
  (∀ c, preserves keeps_messages (f c)) → (∀ c s text s', f c s = (Ok text, s') → ok text) →
  match for_each (λ tool_call,
      out ← f tool_call; id ← expect (_tool_call_id tool_call); append_message (tool_message id out)) calls s with
  | (Ok _, s') => ∃ said, Forall2 (answers ok) calls said ∧ ss_messages s' = ss_messages s ++ said
  | (Raise _, _) => True
  end.
Proof.
  intros Hk Hok. revert s. induction calls as [|c calls IH]; intros s; simpl; [exists []; by rewrite app_nil_r|].
  rewrite !run_bind. specialize (Hk c s). specialize (Hok c s). unfold state_of in Hk.
  destruct (f c s) as [[text|e] s1]; [|done]. rewrite run_bind.
  destruct (_tool_call_id c) as [id|] eqn:Hid; [|done]. simpl. set (s2 := _ : Session). specialize (IH s2).
  destruct (for_each _ calls s2) as [[[]|e] s3]; [|done]. destruct IH as (said & Hsaid & Hm).
  exists (tool_message id text :: said). split; [constructor; [by exists id, text; eauto|done]|].
  rewrite Hm. simpl. unfold keeps_messages in Hk. simpl in Hk. rewrite Hk. by rewrite <- (assoc_L (++)).
Qed.

Lemma round_answered server client tools metadata aliases s :
  match answer_round dialect server client tools metadata aliases s with
  | (Ok _, s') => ∃ said deferred, Forall2 (answers (λ _, True)) server said ∧
      Forall2 (answers (λ text, text = CLIENT_TOOL_DEFERRAL)) client deferred ∧
      ss_messages s' = ss_messages s ++ said ++ deferred
  | (Raise _, _) => True
  end.
Proof.
  unfold answer_round. rewrite run_bind.
  pose proof (answers_each (λ c, _dispatch_tool_call dialect c tools metadata aliases) (λ _, True) server s) as H1.
  specialize (H1 (λ c, keeps_dispatch c tools metadata aliases) (λ _ _ _ _ _, I)).
  destruct (for_each _ server s) as [[[]|e] s1]; [|done]. destruct H1 as (said & Hs & Hm).
  pose proof (answers_each (λ _, mret CLIENT_TOOL_DEFERRAL) (λ text, text = CLIENT_TOOL_DEFERRAL) client s1) as H2.
  specialize (H2 (λ _ _, eq_refl) (λ _ _ text _ Ht, ltac:(by injection Ht))).
  change (λ tool_call, out ← mret CLIENT_TOOL_DEFERRAL; id ← expect (_tool_call_id tool_call); append_message (tool_message id out))
    with (λ tool_call, id ← (expect (_tool_call_id tool_call) : session Json); append_message (tool_message id CLIENT_TOOL_DEFERRAL)) in H2.
  destruct (for_each _ client s1) as [[[]|e] s2]; [|done]. destruct H2 as (deferred & Hd & Hm2).
  exists said, deferred. split_and!; [done|done|]. by rewrite Hm2, Hm, <- (assoc_L (++)).
Qed.
End dispatch.

(** ** The loops *)

Section loops.
Context (dialect : Dialect) `{!Codec} (o : Offer) (names : list string) (messages : list Json).
Hypothesis Hnames : of_client_tool_names o = names.
Implicit Types (c : Conv).

Definition all_well (asked : list json_dict) : Prop :=
  ∀ i payload, asked !! i = Some payload →
    asks_well names messages i payload ∧ offers_well (of_openai_tools o) (of_form_data o) i payload.

(** Between two completions: the messages are the conversation and [rounds] full ones. *)
Record settled c (rounds : list (list Json)) : Prop := mkSettled {
  st_some : ss_messages (cv_session c) ≠ [];
  st_messages : conversation (ss_messages (cv_session c)) = conversation messages ++ concat rounds;
  st_full : Forall (full_round names) rounds;
  st_count : (length rounds ≤ length (cv_asked c))%nat;
  st_asked : all_well (cv_asked c);
  st_answers : Forall (λ a, keeps_conversation (an_touch a)) (cv_answers c)
}.

Lemma all_well_snoc asked payload :
  all_well asked → asks_well names messages (length asked) payload →
  offers_well (of_openai_tools o) (of_form_data o) (length asked) payload → all_well (asked ++ [payload]).
Proof.
  intros Ha Hp Ho i p Hi. apply lookup_app_Some in Hi as [Hi|[Hl Hi]]; [by apply Ha|].
  apply list_lookup_singleton_Some in Hi as [Hz <-]. by replace i with (length asked) by lia.
Qed.

(** One more completion, asked with the messages of the moment. *)
Lemma complete_settled payload c rounds :
  settled c rounds → dict_lookup "messages" payload = Some (JList (ss_messages (cv_session c))) →
  offers_well (of_openai_tools o) (of_form_data o) (length (cv_asked c)) payload →
  let c' := (generate_chat_completion payload c).2 in
  settled c' rounds ∧ cv_asked c' = cv_asked c ++ [payload].
Proof.
  intros [Hs Hm Hf Hc Ha Hk] Hp Ho.
  assert (all_well (cv_asked c ++ [payload])) as Hw.
  { apply all_well_snoc; [done| |done]. by exists (ss_messages (cv_session c)), rounds. }
  unfold generate_chat_completion. simpl. destruct (cv_answers c) as [|a rest] eqn:Ean.
  - split; [|done]. split; simpl; rewrite ?length_app; [done..|lia|done|by rewrite ?Ean].
  - apply Forall_cons in Hk as [Hka Hk]. destruct (Hka _ Hs) as [H1 H2].
    assert (settled (touched (an_touch a) (c <| cv_asked := cv_asked c ++ [payload] |> <| cv_answers := rest |>)) rounds) as Hst.
    { split; simpl; rewrite ?length_app; [done|by rewrite H2|done|simpl; lia|done|done]. }
    by destruct (an_reply a).
Qed.

Lemma finish_settled message tool_calls calls server client c rounds :
  settled c rounds → (length rounds < length (cv_asked c))%nat →
  field "tool_calls" message = Some tool_calls → py_iter tool_calls = Some calls →
  _partition_tool_calls calls names = Some (server, client) → server ≠ [] →
  match finish_round dialect o message server client c with
  | (Ok _, c') => cv_asked c' = cv_asked c ∧ ∃ round, settled c' (rounds ++ [round])
  | (Raise _, c') => cv_asked c' = cv_asked c
  end.
Proof.
  intros [Hs Hm Hf Hc Ha Hk] Hlt Hcalls Hiter Hpart Hne. unfold finish_round.
  rewrite run_in_session_bind. simpl. unfold in_session. simpl.
  match goal with |- context [answer_round _ _ _ _ _ _ ?s] => set (s1 := s) end.
  pose proof (round_answered dialect server client (of_admin_tools o) (of_metadata o) (of_builtin_aliases o) s1) as Hr.
  destruct (answer_round _ _ _ _ _ _ s1) as [[[]|e] s2]; [|done]. destruct Hr as (said & deferred & Hsaid & Hdef & Hm2).
  split; [done|]. exists (message :: said ++ deferred). simpl in Hm2.
  assert (ss_messages s2 = ss_messages (cv_session c) ++ message :: said ++ deferred) as Hm3
    by (rewrite Hm2, <- (assoc_L (++)); done).
  split; simpl; rewrite ?length_app; [| | |simpl; lia|done|done].
  - rewrite Hm3. by destruct (ss_messages (cv_session c)).
  - rewrite Hm3, conversation_app, Hm, concat_app by done. simpl. by rewrite app_nil_r, (assoc_L (++)).
  - apply Forall_app. split; [done|]. apply Forall_singleton.
    exists message, tool_calls, calls, server, client, said, deferred. by split_and!.
Qed.

Lemma update_messages d (m : Json) rest :
  Forall (λ kv, kv.1 ≠ "messages") rest →
  dict_lookup "messages" (dict_update d (("messages", m) :: rest)) = Some m.
Proof.
  unfold dict_update. simpl. intros Hr. pose proof (dict_lookup_set "messages" m d) as Hl.
  revert Hl. generalize (dict_set "messages" m d). induction Hr as [|[k v] rest Hk _ IH]; intros e He; simpl; [done|].
  apply IH. rewrite dict_lookup_set_ne by (simpl in Hk; congruence). done.
Qed.

Definition within (n : nat) c c' : Prop :=
  all_well (cv_asked c') ∧ (length (cv_asked c') ≤ length (cv_asked c) + n)%nat.

(** A last completion. *)
Lemma last_within payload c rounds :
  settled c rounds → dict_lookup "messages" payload = Some (JList (ss_messages (cv_session c))) →
  offers_well (of_openai_tools o) (of_form_data o) (length (cv_asked c)) payload →
  within 1 c (generate_chat_completion payload c).2.
Proof.
  intros Hst Hp Ho. destruct (complete_settled payload c rounds Hst Hp Ho) as [[_ _ _ _ Ha _] Hasked].
  split; [done|]. rewrite Hasked, length_app. simpl. lia.
Qed.

Lemma within_same n c c' : all_well (cv_asked c) → cv_asked c' = cv_asked c → within n c c'.
Proof. intros Ha He. unfold within. rewrite He. split; [done|lia]. Qed.

Lemma within_step n c c1 c' payload :
  cv_asked c1 = cv_asked c ++ [payload] → within n c1 c' → within (S n) c c'.
Proof. intros He [Ha Hl]. split; [done|]. rewrite He, length_app in Hl. simpl in Hl. lia. Qed.

Lemma run_messages_bind {A} (k : Json → conv A) c :
  (messages_now ≫= k) c = k (JList (ss_messages (cv_session c))) c.
Proof. done. Qed.

Lemma payload_run stream c :
  ∃ payload, round_payload o stream c = (Ok payload, c) ∧
    dict_lookup "messages" payload = Some (JList (ss_messages (cv_session c))) ∧
    ((length (cv_asked c) < MAX_TOOL_CALL_ROUNDS)%nat →
       offers_well (of_openai_tools o) (of_form_data o) (length (cv_asked c)) payload).
Proof.
  eexists. split; [done|]. split; [by apply update_messages; repeat constructor|]. left. split; [done|].
  unfold dict_update. simpl. by rewrite !dict_lookup_set_ne, dict_lookup_set by done.
Qed.

(** A payload without tools, and one with the caller's. *)
Lemma offers_none i m stream :
  offers_well (of_openai_tools o) (of_form_data o) i
    (dict_update (of_form_data o) [("messages", m); ("tools", JNull); ("stream", stream)]).
Proof. right. left. unfold dict_update. simpl. by rewrite dict_lookup_set_ne, dict_lookup_set by done. Qed.

Lemma offers_callers i m stream :
  offers_well (of_openai_tools o) (of_form_data o) i (dict_update (of_form_data o) [("messages", m); ("stream", stream)]).
Proof. right. right. unfold dict_update. simpl. by rewrite !dict_lookup_set_ne by done. Qed.

Lemma buffered_within n c rounds :
  settled c rounds → (length (cv_asked c) + n ≤ MAX_TOOL_CALL_ROUNDS)%nat →
  within (S n) c (buffered_rounds dialect o n c).2.
Proof.
  revert c rounds. induction n as [|n IH]; intros c rounds Hst Hmax; cbn [buffered_rounds].
  - unfold buffered_last. rewrite run_messages_bind. apply (last_within _ _ rounds); [done| |apply offers_none]. by apply update_messages; repeat constructor.
  - rewrite run_bind. destruct (payload_run false c) as (payload & -> & Hp & Ho). rewrite run_bind. unfold tried.
    destruct (complete_settled payload c rounds Hst Hp (Ho ltac:(lia))) as [Hst1 Hasked].
    destruct (generate_chat_completion payload c) as [r c1]. simpl in *. apply (within_step _ c c1 _ payload); [done|].
    assert (within (S n) c1 c1) as Hsame by (by apply within_same; [apply Hst1|]).
    destruct r as [r|e].
    2:{ unfold buffered_fallback. rewrite run_messages_bind.
        assert (∀ c', within 1 c1 c' → within (S n) c1 c') as Hw by (intros c' [? ?]; split; [done|lia]).
        apply Hw, (last_within _ _ rounds); [done| |apply offers_callers]. by apply update_messages; repeat constructor. }
    destruct (body_of r) as [response|]; [|done]. rewrite expect_some.
    destruct (reply_message response) as [message|]; [|done]. rewrite expect_some.
    destruct (field "tool_calls" message) as [tool_calls|] eqn:Htc; [|unfold get_field; by rewrite Htc].
    rewrite (get_field_some _ _ _ _ Htc). destruct (negb _); [done|].
    destruct (py_iter tool_calls) as [calls|] eqn:Hit; [|done]. rewrite expect_some.
    destruct (_partition_tool_calls calls (of_client_tool_names o)) as [[server client]|] eqn:Hpart; [|done].
    rewrite expect_some. cbn iota. case_decide as Hne; [by destruct (with_finish_reason response)|].
    rewrite run_bind. rewrite Hnames in Hpart.
    pose proof (finish_settled message tool_calls calls server client c1 rounds Hst1) as Hfin.
    specialize (Hfin ltac:(rewrite Hasked, length_app; simpl; destruct Hst; lia) Htc Hit Hpart Hne).
    destruct (finish_round _ _ _ _ _ c1) as [[[]|e] c2]; simpl.
    + destruct Hfin as [He [round Hst2]]. assert (length (cv_asked c2) + n ≤ MAX_TOOL_CALL_ROUNDS)%nat as Hmax2
        by (rewrite He, Hasked, length_app; simpl; lia).
      specialize (IH c2 _ Hst2 Hmax2) as [IHa IHl]. split; [done|].
      by rewrite He in IHl.
    + by apply within_same; [apply Hst1|].
Qed.

(** Reading a body and writing lines touch neither the messages nor what was asked. *)
Definition reads c c' : Prop :=
  cv_session c' = cv_session c ∧ cv_asked c' = cv_asked c ∧ cv_answers c' = cv_answers c.

#[export] Instance reads_preorder : PreOrder reads.
Proof. split; [by intros c|]. unfold reads. intros c1 c2 c3 (? & ? & ?) (? & ? & ?). split_and!; congruence. Qed.

Lemma reads_send line : preserves reads (send line).
Proof. by intros c. Qed.
Lemma reads_close : preserves reads close.
Proof. by intros c. Qed.
Lemma reads_expect {A} (x : option A) : preserves reads (expect x : conv A).
Proof. apply preserves_expect, _. Qed.
#[local] Hint Resolve reads_send reads_close reads_expect : answers.

Ltac reads_step := first [ progress auto with answers nocore | preserves_step ].

Lemma reads_body r lines broken : preserves reads (take_body r lines broken).
Proof.
  revert r. induction lines as [|line lines IH]; intros r; simpl; [repeat reads_step|].
  preserves_step; [|by destruct a; [apply IH|preserves_step]]. unfold take_line. repeat reads_step.
Qed.

Lemma reads_relay r : preserves reads (relay_all r).
Proof.
  unfold relay_all. destruct r; try by repeat reads_step. preserves_step; [|by repeat reads_step].
  apply preserves_for_each; [apply _|]. intros; apply reads_send.
Qed.

Lemma run_close_bind {A} (k : conv A) c : (close;; k) c = k (state_of close c).
Proof. done. Qed.

Lemma reads_settled c c' rounds : reads c c' → settled c rounds → settled c' rounds.
Proof. intros (Hs & Ha & Hw) [? ? ? ? ? ?]. by split; rewrite ?Hs, ?Ha, ?Hw. Qed.

Lemma reads_within n c c' : all_well (cv_asked c) → reads c c' → within n c c'.
Proof. intros Ha (_ & He & _). by apply within_same. Qed.

Lemma within_reads n c c1 c' : reads c c1 → within n c1 c' → within n c c'.
Proof. intros (_ & He & _) [Ha Hl]. split; [done|]. by rewrite He in Hl. Qed.

Lemma fallback_within c rounds : settled c rounds → within 1 c (streamed_fallback o c).2.
Proof.
  intros Hst. unfold streamed_fallback, rescue. rewrite run_messages_bind, run_bind.
  set (payload := dict_update _ _).
  assert (dict_lookup "messages" payload = Some (JList (ss_messages (cv_session c)))) as Hp
    by (by apply update_messages; repeat constructor).
  pose proof (last_within payload c rounds Hst Hp (offers_none _ _ _)) as Hw.
  destruct (generate_chat_completion payload c) as [[r|e] c1]; simpl in *; [|done].
  pose proof (reads_relay r c1) as Hr1. unfold state_of in Hr1. destruct (relay_all r c1) as [[[]|e] c2]; simpl in *.
  - destruct Hw as [Ha Hl], Hr1 as (_ & He & _). split; by rewrite He.
  - destruct Hw as [Ha Hl], Hr1 as (_ & He & _). split; simpl; by rewrite He.
Qed.

Lemma streamed_within n c rounds :
  settled c rounds → (length (cv_asked c) + n ≤ MAX_TOOL_CALL_ROUNDS)%nat →
  within (S n) c (streamed_rounds dialect o n c).2.
Proof.
  revert c rounds. induction n as [|n IH]; intros c rounds Hst Hmax; cbn [streamed_rounds]; [by apply (fallback_within c rounds)|].
  rewrite run_bind. destruct (payload_run true c) as (payload & -> & Hp & Ho). rewrite run_bind. unfold tried.
  destruct (complete_settled payload c rounds Hst Hp (Ho ltac:(lia))) as [Hst1 Hasked].
  destruct (generate_chat_completion payload c) as [r c1]. simpl in *. apply (within_step _ c c1 _ payload); [done|].
  destruct r as [r|e].
  2:{ destruct (fallback_within c1 rounds Hst1) as [? ?]. split; [done|lia]. }
  destruct (lines_of r) as [body|]; [|by apply within_same; [apply Hst1|]]. rewrite expect_some, run_bind.
  pose proof (reads_body (mkRound [] [] []) body.1 body.2 c1) as Hb. unfold state_of in Hb.
  destruct (take_body _ _ _ c1) as [[rd|e] c2]; simpl in Hb; [|by apply reads_within; [apply Hst1|]].
  rewrite run_close_bind. apply (within_reads _ _ (state_of close c2)); [done|].
  assert (settled (state_of close c2) rounds) as Hst2 by (by apply (reads_settled c1)).
  assert (length (cv_asked (state_of close c2)) = S (length (cv_asked c))) as Hlt.
  { destruct Hb as (_ & He & _). simpl. rewrite He, Hasked, length_app. simpl. lia. }
  revert Hst2 Hlt. generalize (state_of close c2). clear c2 Hb. intros c2 Hst2 Hlt.
  case_decide; [by apply within_same; [apply Hst2|]|].
  destruct (sorted_calls (rd_calls rd)) as [entries|]; [|by apply within_same; [apply Hst2|]]. rewrite expect_some. cbv zeta.
  destruct (_partition_tool_calls _ (of_client_tool_names o)) as [[server client]|] eqn:Hpart;
    [|by apply within_same; [apply Hst2|]]. rewrite expect_some. cbn iota. case_decide as Hne.
  { apply reads_within; [apply Hst2|]. assert (preserves reads (hand_back (rd_envelope rd) client)) as Hh
      by (unfold hand_back; repeat reads_step). apply (Hh c2). }
  destruct (joined (rd_content rd)) as [content|]; [|by apply within_same; [apply Hst2|]]. rewrite expect_some, run_bind.
  rewrite Hnames in Hpart.
  pose proof (finish_settled (assistant_message content ((λ e, JDict (entry_json e)) <$> entries)) _ _ server client c2 rounds
    Hst2 ltac:(destruct Hst; lia) eq_refl eq_refl Hpart Hne) as Hfin.
  destruct (finish_round _ _ _ _ _ c2) as [[[]|e] c3]; simpl; [|by apply within_same; [apply Hst2|]].
  destruct Hfin as [He [round Hst3]].
  assert (length (cv_asked c3) + n ≤ MAX_TOOL_CALL_ROUNDS)%nat as Hmax3 by (rewrite He, Hlt; lia).
  specialize (IH c3 _ Hst3 Hmax3) as [IHa IHl]. split; [done|]. by rewrite He in IHl.
Qed.
End loops.

(** C20: Whenever the model is asked, it is sent the caller's conversation and after it
    whole rounds: each a message of the model's with a call for the server among its calls
    and, for every tool call in it, exactly one answer that names the call, the caller's
    calls being answered by a deferral.  A request asks the model at most six times.  What
    is offered is one and the same list in the first five of these, or no tools, or what
    the caller sent: the sixth never offers the server's tools.  A completion may rewrite
    the system prompt at the head of the list it is handed, and nothing else of it. *)
Theorem every_call_is_answered sv `{!Codec} execute has_attribute form_data user c messages :
  dict_lookup "messages" form_data = Some (JList messages) → messages ≠ [] →
  specs_ok (ss_studio (cv_session c)) → cv_asked c = [] →
  Forall (λ a, keeps_conversation (an_touch a)) (cv_answers c) →
  let asked := cv_asked (state_of (generate_chat_completion_with_tools sv execute has_attribute form_data user) c) in
  (length asked ≤ 6)%nat ∧
  ∃ offered, ∀ i payload, asked !! i = Some payload →
    asks_well (default [] (client_names form_data)) messages i payload ∧ offers_well offered form_data i payload.
Proof.
  intros Hm Hne Hspecs Hasked Hkeeps. cbv zeta.
  destruct (request_runs sv execute has_attribute form_data user c Hspecs) as [_ ->|c1 _ He1 Ha1 ->|sw own pairs names o msgs c1
    _ Hnames _ _ _ Hform _ Hnm _ Hmsgs _ Hm1 He1 Ha1 Hc']; rewrite ?Hasked.
  - split; [simpl; lia|]. exists []. intros i p Hp. by rewrite lookup_nil in Hp.
  - assert (cv_asked (state_of (generate_chat_completion form_data) c1) = [form_data]) as ->.
    { unfold state_of, generate_chat_completion. rewrite He1, Hasked. simpl.
      destruct (cv_answers c1) as [|a rest]; [done|]. by destruct (an_reply a). }
    split; [simpl; lia|]. exists []. intros i p [-> <-]%list_lookup_singleton_Some. split; [|by right; right].
    exists messages, []. rewrite app_nil_r. split_and!; [done|done|simpl; lia|done].
  - rewrite Hm in Hmsgs. injection Hmsgs as <-. rewrite Hnames. simpl.
    assert (settled o names messages c1 []) as Hst.
    { split; rewrite ?Hm1, ?He1, ?Ha1, ?Hasked; simpl; rewrite ?app_nil_r; try done.
    }
    assert (length (cv_asked c1) + MAX_TOOL_CALL_ROUNDS ≤ MAX_TOOL_CALL_ROUNDS)%nat as Hmax by by rewrite He1, Hasked.
    assert (within o names messages 6 c1
      (state_of (generate_chat_completion_with_tools sv execute has_attribute form_data user) c)) as [Hw Hl].
    { destruct Hc' as [-> | ->]; [by apply (buffered_within _ _ _ _ Hnm 5 _ [])|by apply (streamed_within _ _ _ _ Hnm 5 _ [])]. }
    rewrite He1, Hasked in Hl. split; [done|]. exists (of_openai_tools o). unfold all_well in Hw. by rewrite Hform in Hw.
Qed.

End ToolAnswers.
