(* ===== verification/ToolStream.v ===== *)
(** The streaming loop against the buffered one: however the calls of a reply are cut into
    deltas and interleaved, they are put together again, and both loops lead the same
    conversation. *)

From Stdlib Require Import Ascii.
From stdpp Require Import sets sorting.
From S2P Require Import Prelude Data Accounts AccessControl Formats Replies Studio Plugin ModTools ToolLoop ToolOffer ToolRounds GenFacts.
Import ToolAnswers.

(** ** Fragments of calls *)

(** What one entry of [tool_calls] in a delta carries; an absent field is an empty text. *)
Record Piece := mkPiece { pc_index : Z; pc_id : string; pc_name : string; pc_arguments : string }.

Definition text_field (key : string) (d : json_dict) (s : string) : Prop :=
  default JNull (dict_lookup key d) = JStr s ∨ default JNull (dict_lookup key d) = JNull ∧ s = "".

Definition is_piece (tc : Json) (p : Piece) : Prop :=
  ∃ d, tc = JDict d ∧ dict_lookup "index" d = Some (JInt (pc_index p)) ∧ text_field "id" d (pc_id p) ∧
    ((default JNull (dict_lookup "function" d) = JNull ∧ pc_name p = "" ∧ pc_arguments p = "") ∨
     ∃ f, dict_lookup "function" d = Some (JDict f) ∧ text_field "name" f (pc_name p) ∧
       text_field "arguments" f (pc_arguments p)).

(** The entry after a piece. *)
Definition with_piece (e : Entry) (p : Piece) : Entry :=
  mkEntry (if decide (pc_id p = "") then en_id e else JStr (pc_id p)) (en_name e +:+ pc_name p) (en_arguments e +:+ pc_arguments p).

Definition entry_of (i : Z) (pieces : list Piece) : Entry :=
  foldl with_piece new_entry (filter (λ p, pc_index p = i) pieces).

(** [pieces] are these calls cut up: every index is that of a call, the fragments of a call
    put together in order are its name and its arguments, and its id comes in some of them. *)
Record Call := mkCall { ca_id : string; ca_name : string; ca_arguments : string }.
Definition call_entry (c : Call) : Entry := mkEntry (JStr (ca_id c)) (ca_name c) (ca_arguments c).

Definition fragments (calls : list Call) (pieces : list Piece) : Prop :=
  Forall (λ p, 0 ≤ pc_index p < Z.of_nat (length calls)) pieces ∧
  ∀ (i : nat) c, calls !! i = Some c →
    let mine := filter (λ p, pc_index p = Z.of_nat i) pieces in
    mine ≠ [] ∧ Forall (λ p, pc_id p = "" ∨ pc_id p = ca_id c) mine ∧ Exists (λ p, pc_id p = ca_id c) mine ∧
    join "" (pc_name <$> mine) = ca_name c ∧ join "" (pc_arguments <$> mine) = ca_arguments c.

Lemma text_field_truthy key d s x :
  text_field key d s → default JNull (dict_lookup key d) = x → json_truthy x = negb (bool_decide (s = "")).
Proof.
  intros [-> |[-> ->]] <-; [|done]. simpl. case_bool_decide as H1; case_bool_decide as H2; done.
Qed.

Lemma text_field_grown key d s so_far :
  text_field key d s → grown so_far (default JNull (dict_lookup key d)) = Some (so_far +:+ s).
Proof.
  intros Ht. unfold grown. rewrite (text_field_truthy key d s _ Ht eq_refl). case_bool_decide as Hs; simpl.
  - subst. by rewrite append_nil_r.
  - destruct Ht as [-> |[_ ?]]; [done|congruence].
Qed.

Lemma field_or_empty key f : field key (py_or (JDict f) (JDict [])) = Some (default JNull (dict_lookup key f)).
Proof. by destruct f. Qed.

Lemma entry_with_piece tc p e : is_piece tc p → entry_with tc e = Some (with_piece e p).
Proof.
  intros (d & -> & _ & Hid & Hf). unfold entry_with.
  assert (∀ key, field key (JDict d) = Some (default JNull (dict_lookup key d))) as Hd by done. rewrite !Hd. cbn [mbind option_bind].
  assert ((if json_truthy (default JNull (dict_lookup "id" d)) then default JNull (dict_lookup "id" d) else en_id e)
    = if decide (pc_id p = "") then en_id e else JStr (pc_id p)) as ->.
  { rewrite (text_field_truthy "id" d _ _ Hid eq_refl). case_bool_decide; case_decide; try done; simpl.
    destruct Hid as [-> |[_ ?]]; [done|congruence]. }
  destruct Hf as [(-> & Hname & Hargs)|(f & -> & Hname & Hargs)].
  - simpl. unfold with_piece. rewrite Hname, Hargs. by rewrite !append_nil_r.
  - cbn [default from_option id]. rewrite !field_or_empty. cbn [mbind option_bind].
    rewrite (text_field_grown "name" f _ (en_name e) Hname). cbn [mbind option_bind].
    by rewrite (text_field_grown "arguments" f _ (en_arguments e) Hargs).
Qed.

(** *** The table of calls *)

Definition table (L : list Z) (E : Z → Entry) : list (Json * Entry) := (λ i, (JInt i, E i)) <$> L.

Definition with_index (L : list Z) (j : Z) : list Z := if decide (j ∈ L) then L else L ++ [j].

Lemma at_index_table L E j f g :
  (∀ e, f e = Some (g e)) → (j ∉ L → E j = new_entry) → NoDup L →
  at_index (JInt j) f (table L E) = Some (table (with_index L j) (λ i, if decide (i = j) then g (E i) else E i)).
Proof.
  intros Hf. unfold with_index, table. induction L as [|i L IH]; intros Hj Hnd; csimpl.
  - rewrite Hf, Hj by apply not_elem_of_nil. simpl.
    by rewrite decide_True.
  - apply NoDup_cons in Hnd as [Hi Hnd]. destruct (decide (i = j)) as [->|Hne].
    + rewrite (decide_True (P := JInt j = JInt j)), (decide_True (P := j ∈ j :: L)) by (done || left). rewrite Hf. csimpl. rewrite decide_True by done. f_equal. f_equal.
      apply list_fmap_ext. intros k x Hx. rewrite decide_False; [done|]. intros ->. apply Hi.
      by apply list_elem_of_lookup_2 in Hx.
    + rewrite (decide_False (P := JInt i = JInt j)) by congruence. rewrite IH; [|intros Hn; apply Hj; by rewrite not_elem_of_cons|done]. simpl.
      f_equal. destruct (decide (j ∈ L)) as [Hin|Hin].
      * rewrite (decide_True (P := j ∈ i :: L)) by (by right). csimpl. by rewrite (decide_False (P := i = j)).
      * rewrite (decide_False (P := j ∈ i :: L)) by (by rewrite not_elem_of_cons). csimpl.
        by rewrite (decide_False (P := i = j)).
Qed.

Lemma add_deltas_app calls tcs tcs' :
  add_deltas calls (tcs ++ tcs') = calls ← add_deltas calls tcs; add_deltas calls tcs'.
Proof.
  revert calls. induction tcs as [|tc tcs IH]; intros calls; simpl; [done|].
  destruct (add_delta calls tc); simpl; [apply IH|done].
Qed.

(** After any pieces the table holds, for each index among them, the entry they make. *)
Lemma add_deltas_table tcs pieces :
  Forall2 is_piece tcs pieces →
  ∃ L, add_deltas [] tcs = Some (table L (λ i, entry_of i pieces)) ∧ NoDup L ∧ ∀ i, i ∈ L ↔ i ∈ pc_index <$> pieces.
Proof.
  revert tcs. induction pieces as [|p pieces IH] using rev_ind; intros tcs Hall.
  { apply Forall2_nil_inv_r in Hall as ->. exists []. split_and!; [done|constructor|]. intros i. by rewrite !elem_of_nil. }
  apply Forall2_app_inv_r in Hall as (tcs1 & tcs2 & H1 & H2 & ->).
  apply Forall2_cons_inv_r in H2 as (tc & ? & Hp & ->%Forall2_nil_inv_r & ->).
  destruct (IH tcs1 H1) as (L & HL & Hnd & Hin). exists (with_index L (pc_index p)).
  rewrite add_deltas_app, HL. simpl. unfold add_delta.
  destruct Hp as (d & -> & Hi & Hrest) eqn:Hp'. simpl. rewrite Hi. simpl.
  rewrite (at_index_table L _ _ _ (λ e, with_piece e p)); [|by intros; apply entry_with_piece| |done].
  - simpl. split_and!.
    + f_equal. unfold table. apply list_fmap_ext. intros k i _. f_equal. unfold entry_of. rewrite filter_app, foldl_app.
      rewrite filter_cons, filter_nil. destruct (decide (i = pc_index p)) as [->|Hne].
      * by rewrite decide_True by done.
      * by rewrite decide_False by congruence.
    + unfold with_index. case_decide; [done|]. apply NoDup_app. split_and!; [done| |apply NoDup_singleton].
      by intros x Hx ->%list_elem_of_singleton.
    + intros i. rewrite fmap_app, elem_of_app, <- Hin. unfold with_index. csimpl.
      case_decide; rewrite ?elem_of_app, list_elem_of_singleton; naive_solver.
  - intros Hn. unfold entry_of. rewrite filter_none; [done|]. intros q Hq He. apply Hn, Hin. rewrite <- He.
    by apply list_elem_of_fmap_2.
Qed.

Lemma sorted_insert_map {B} (h : Z → B) i L :
  sorted_insert fst (i, h i) ((λ i, (i, h i)) <$> L) = (λ i, (i, h i)) <$> sorted_insert id i L.
Proof. induction L as [|j L IH]; csimpl; [done|]. unfold id. case_decide; [done|]. csimpl. by rewrite IH. Qed.

Lemma sort_by_map {B} (h : Z → B) L : sort_by fst ((λ i, (i, h i)) <$> L) = (λ i, (i, h i)) <$> sort_by id L.
Proof. induction L as [|i L IH]; csimpl; [done|]. rewrite IH. apply sorted_insert_map. Qed.

Lemma seq_sorted m n : StronglySorted Z.le (Z.of_nat <$> seq m n).
Proof.
  revert m. induction n as [|n IH]; intros m; csimpl; constructor; [apply IH|].
  apply Forall_fmap, Forall_forall. intros k Hk%elem_of_seq. simpl. lia.
Qed.

(** The indices [0 .. n-1], in whatever order they came. *)
Lemma sort_indices n L :
  NoDup L → (∀ i, i ∈ L ↔ 0 ≤ i < Z.of_nat n) → sort_by id L = Z.of_nat <$> seq 0 n.
Proof.
  intros Hnd Hin. apply (StronglySorted_unique Z.le).
  - apply (sort_by_sorted id).
  - apply seq_sorted.
  - rewrite sort_by_perm. apply NoDup_Permutation; [done| |].
    + apply NoDup_fmap; [apply _|apply NoDup_seq].
    + intros i. rewrite Hin, list_elem_of_fmap. split.
      * intros Hi. exists (Z.to_nat i). rewrite elem_of_seq. lia.
      * intros (k & -> & Hk%elem_of_seq). lia.
Qed.

Lemma sorted_calls_table L E : sorted_calls (table L E) = Some (E <$> sort_by id L).
Proof.
  unfold table. destruct L as [|i [|j L]]; [done|done|]. unfold sorted_calls. cbn [fmap list_fmap].
  match goal with |- context [mapM ?f ?l] => assert (mapM f l = Some ((λ i, (i, E i)) <$> (i :: j :: L))) as -> end.
  { apply mapM_Some_2. do 2 constructor; [done..|]. induction L as [|k L IH]; csimpl; by constructor. }
  rewrite sort_by_map. f_equal. rewrite <- list_fmap_compose. by apply list_fmap_ext.
Qed.

Lemma entry_of_call c mine :
  Forall (λ p, pc_id p = "" ∨ pc_id p = ca_id c) mine → Exists (λ p, pc_id p = ca_id c) mine →
  foldl with_piece new_entry mine = mkEntry (JStr (ca_id c)) (join "" (pc_name <$> mine)) (join "" (pc_arguments <$> mine)).
Proof.
  intros Hall Hex.
  assert (∀ e, foldl with_piece e mine =
    mkEntry (if decide (Exists (λ p, pc_id p ≠ "") mine) then JStr (ca_id c) else en_id e)
      (en_name e +:+ join "" (pc_name <$> mine)) (en_arguments e +:+ join "" (pc_arguments <$> mine))) as Hfold.
  { clear Hex. induction Hall as [|p mine Hp _ IH]; intros e; cbn [foldl].
    - rewrite decide_False by (by intros ?%Exists_nil). csimpl. rewrite !append_nil_r. by destruct e.
    - rewrite IH, !fmap_cons, !join_cons, !append_assoc. cbn [with_piece en_id en_name en_arguments]. f_equal.
      destruct (decide (pc_id p = "")) as [He|He].
      + destruct (decide (Exists (λ p, pc_id p ≠ "") mine)) as [Hm|Hm].
        * by rewrite decide_True by (by right).
        * rewrite decide_False; [done|]. by intros [?|?]%Exists_cons.
      + rewrite (decide_True (P := Exists _ (p :: mine))) by (by left). destruct Hp as [|Hp]; [done|]. rewrite Hp. by case_decide. }
  rewrite Hfold. simpl. f_equal. case_decide as Hne; [done|]. f_equal.
  destruct (decide (ca_id c = "")) as [->|Hc]; [done|]. destruct Hne. eapply Exists_impl; [done|]. intros p ->. done.
Qed.

(** However calls are cut up and interleaved, the table ends up with the calls. *)
Lemma fragments_assembled calls tcs pieces :
  Forall2 is_piece tcs pieces → fragments calls pieces →
  ∃ table, add_deltas [] tcs = Some table ∧ sorted_calls table = Some (call_entry <$> calls) ∧
    (table = [] ↔ calls = []).
Proof.
  intros Htcs [Hidx Hcalls]. destruct (add_deltas_table tcs pieces Htcs) as (L & HL & Hnd & Hin).
  exists (table L (λ i, entry_of i pieces)). split; [done|].
  assert (∀ i, i ∈ L ↔ 0 ≤ i < Z.of_nat (length calls)) as HinL.
  { intros i. rewrite Hin, list_elem_of_fmap. split.
    - intros (p & -> & Hp). rewrite Forall_forall in Hidx. by apply Hidx.
    - intros Hi. destruct (lookup_lt_is_Some_2 calls (Z.to_nat i)) as [c Hc]; [lia|].
      destruct (Hcalls _ c Hc) as [Hne _]. rewrite Z2Nat.id in Hne by lia.
      destruct (filter (λ p, pc_index p = i) pieces) as [|p l] eqn:Hf; [done|].
      assert (p ∈ filter (λ p, pc_index p = i) pieces) as [Hpi Hp]%list_elem_of_filter by (rewrite Hf; left).
      by exists p. }
  split.
  - rewrite sorted_calls_table, (sort_indices (length calls)) by done. f_equal. rewrite <- list_fmap_compose.
    apply list_eq. intros k. rewrite !list_lookup_fmap. destruct (decide (k < length calls)%nat) as [Hk|Hk].
    + rewrite lookup_seq_lt by done. simpl. destruct (lookup_lt_is_Some_2 calls k Hk) as [c Hc]. rewrite Hc. simpl. f_equal.
      destruct (Hcalls k c Hc) as (_ & Hall & Hex & Hname & Hargs). unfold entry_of.
      rewrite (entry_of_call c) by done. rewrite Hname, Hargs. done.
    + rewrite lookup_seq_ge by lia. simpl. by rewrite lookup_ge_None_2 by lia.
  - unfold table. split; intros He.
    + apply fmap_nil_inv in He. destruct calls as [|c calls]; [done|]. assert (0 ∈ L) as H0 by (apply HinL; simpl; lia).
      rewrite He in H0. by apply elem_of_nil in H0.
    + subst calls. destruct L as [|i L]; [done|]. assert (i ∈ i :: L) as Hi%HinL by left. simpl in Hi. lia.
Qed.

(** ** A streamed reply *)

Section streams.
Context `{!Codec}.

(** A delta: some text, and some pieces of calls. *)
Record Delta := mkDelta { dl_chunk : Json; dl_text : string; dl_pieces : list Piece }.

(** A chunk carries its delta; a trailer has no choices. *)
Definition carries (d : Delta) : Prop :=
  ∃ chunk first rest delta, dl_chunk d = JDict chunk ∧ dict_lookup "choices" chunk = Some (JList (first :: rest)) ∧
    get_or "delta" first (JDict []) = Some (JDict delta) ∧ text_field "content" delta (dl_text d) ∧
    ((default JNull (dict_lookup "tool_calls" delta) = JNull ∧ dl_pieces d = []) ∨
     ∃ tcs, dict_lookup "tool_calls" delta = Some (JList tcs) ∧ Forall2 is_piece tcs (dl_pieces d)).

Definition is_trailer (chunk : Json) : Prop :=
  ∃ d, chunk = JDict d ∧ json_truthy (default JNull (dict_lookup "choices" d)) = false.

Definition skipped (line : string) : Prop := strip line = "" ∨ starts_with data_prefix line = false.

Definition line_with (line : string) (chunk : Json) : Prop :=
  strip line ≠ "" ∧ starts_with data_prefix line = true ∧ strip (removeprefix data_prefix line) ≠ "[DONE]" ∧
  json_loads (removeprefix data_prefix line) = Some chunk.

Definition end_line (line : string) : Prop :=
  strip line ≠ "" ∧ starts_with data_prefix line = true ∧ strip (removeprefix data_prefix line) = "[DONE]".

(** The lines of a stream with these deltas. *)
Inductive streams : list string → list Delta → Prop :=
| streams_eof : streams [] []
| streams_done line rest : end_line line → streams (line :: rest) []
| streams_skip line lines ds : skipped line → streams lines ds → streams (line :: lines) ds
| streams_trailer line chunk lines ds :
    line_with line chunk → is_trailer chunk → streams lines ds → streams (line :: lines) ds
| streams_delta line d lines ds :
    line_with line (dl_chunk d) → carries d → streams lines ds → streams (line :: lines) (d :: ds).

Definition texts (ds : list Delta) : string := join "" (dl_text <$> ds).

(** The chunks that are relayed: those with text, as they came. *)
Definition relayed (ds : list Delta) : list string :=
  (λ d, sse (dl_chunk d)) <$> filter (λ d, dl_text d ≠ "") ds.

Definition spoken (ds : list Delta) : list Json := (λ d, JStr (dl_text d)) <$> filter (λ d, dl_text d ≠ "") ds.

Lemma json_text_truthy s : json_truthy (JStr s) = bool_decide (s ≠ "").
Proof. done. Qed.

(** The table after a piece. *)
Definition add_piece (calls : list (Json * Entry)) (p : Piece) : list (Json * Entry) :=
  default [] (at_index (JInt (pc_index p)) (λ e, Some (with_piece e p)) calls).

Lemma at_index_total idx f g calls :
  (∀ e, f e = Some (g e)) → at_index idx f calls = Some (default [] (at_index idx (λ e, Some (g e)) calls)).
Proof.
  intros Hf. assert (∃ x, at_index idx f calls = Some x ∧ at_index idx (λ e, Some (g e)) calls = Some x) as (x & -> & ->); [|done].
  induction calls as [|[i e] calls (x & IH1 & IH2)]; simpl; [rewrite Hf; by eexists|].
  case_decide; [rewrite Hf; by eexists|]. rewrite IH1, IH2. by eexists.
Qed.

Lemma add_deltas_pieces calls tcs pieces :
  Forall2 is_piece tcs pieces → add_deltas calls tcs = Some (foldl add_piece calls pieces).
Proof.
  intros Hall. revert calls. induction Hall as [|tc p tcs pieces Hp _ IH]; intros calls; simpl; [done|].
  assert (add_delta calls tc = Some (add_piece calls p)) as ->; [|apply IH].
  pose proof Hp as (d & -> & Hi & _). unfold add_delta. simpl. rewrite Hi. simpl.
  apply at_index_total. intros e. by apply entry_with_piece.
Qed.

Definition of_deltas (r : Round) (ds : list Delta) (envelope : json_dict) : Round :=
  mkRound (foldl add_piece (rd_calls r) (concat (dl_pieces <$> ds))) (rd_content r ++ spoken ds) envelope.

Lemma take_delta r d :
  carries d →
  ∃ tcs envelope, take_chunk r (dl_chunk d) =
    Some (mkRound (rd_calls r) (rd_content r ++ spoken [d]) envelope, bool_decide (dl_text d ≠ ""), tcs) ∧
    (iter_or_empty tcs ≫= add_deltas (rd_calls r)) = Some (foldl add_piece (rd_calls r) (dl_pieces d)).
Proof.
  intros (chunk & first & rest & delta & -> & Hch & Hdelta & Htext & Htcs). unfold take_chunk. cbv zeta.
  rewrite Hch. cbn [default from_option id].
  change (py_or (JList (first :: rest)) (JList [])) with (JList (first :: rest)).
  change (negb (json_truthy (JList (first :: rest)))) with false. cbv iota.
  rewrite Hdelta. cbn [mbind option_bind]. rewrite !field_or_empty. cbn [mbind option_bind].
  eexists (default JNull (dict_lookup "tool_calls" delta)), _. split.
  - rewrite (text_field_truthy "content" delta _ _ Htext eq_refl). unfold spoken. rewrite filter_cons, filter_nil.
    destruct (decide (dl_text d = "")) as [Hs|Hs].
    + rewrite (bool_decide_true (dl_text d = "")), bool_decide_false, decide_False by auto. simpl. by rewrite app_nil_r.
    + rewrite (bool_decide_false (dl_text d = "")), bool_decide_true, decide_True by auto. simpl.
      destruct Htext as [-> |[_ ?]]; done.
  - destruct Htcs as [[Hn Hp]|(tcs & Ht & Hall)].
    + rewrite Hn, Hp. done.
    + rewrite Ht. rewrite <- (add_deltas_pieces _ tcs) by done. by destruct tcs.
Qed.

Lemma of_deltas_nil r : of_deltas r [] (rd_envelope r) = r.
Proof. destruct r. unfold of_deltas. simpl. by rewrite app_nil_r. Qed.

Lemma of_deltas_cons r d ds e envelope :
  of_deltas (of_deltas r [d] e) ds envelope = of_deltas r (d :: ds) envelope.
Proof.
  unfold of_deltas, spoken. simpl. rewrite app_nil_r, foldl_app. f_equal. rewrite <- (assoc_L (++)), <- fmap_app. f_equal.
  f_equal. by rewrite <- filter_app.
Qed.

(** The conversation after some lines were sent. *)
Definition after_sending (lines : list string) (c : Conv) : Conv := c <| cv_sent := cv_sent c ++ lines |>.

Lemma after_sending_nil c : after_sending [] c = c.
Proof. unfold after_sending. destruct c. simpl. by rewrite app_nil_r. Qed.
Lemma after_sending_app l l' c : after_sending l' (after_sending l c) = after_sending (l ++ l') c.
Proof. unfold after_sending. simpl. by rewrite (assoc_L (++)). Qed.

Lemma take_line_skipped r line c : skipped line → take_line r line c = (Ok (Some r), c).
Proof. unfold take_line. intros [Hk|Hk]; [by rewrite decide_True|]. case_decide; [done|]. by rewrite Hk. Qed.

Lemma take_line_end r line c : end_line line → take_line r line c = (Ok None, c).
Proof. intros (H1 & H2 & H3). unfold take_line. rewrite decide_False, H2 by done. cbn [negb]. by rewrite decide_True. Qed.

Lemma take_line_data r line chunk :
  line_with line chunk →
  take_line r line =
    (next ← expect (take_chunk r chunk);
     let '(r, relayed, tcs) := next in
     (if relayed : bool then send (sse chunk) else mret tt);;
     calls ← expect (iter_or_empty tcs ≫= add_deltas (rd_calls r));
     mret (Some (r <| rd_calls := calls |>))).
Proof.
  intros (H1 & H2 & H3 & H4). unfold take_line. rewrite decide_False, H2 by done. cbn [negb].
  rewrite decide_False by done. by rewrite H4.
Qed.

Lemma take_line_delta r line d c :
  line_with line (dl_chunk d) → carries d →
  ∃ envelope, take_line r line c = (Ok (Some (of_deltas r [d] envelope)), after_sending (relayed [d]) c).
Proof.
  intros Hd Hc. rewrite (take_line_data _ _ (dl_chunk d)) by done. destruct (take_delta r d Hc) as (tcs & env & -> & Hcalls).
  exists env. rewrite expect_some. cbn iota beta. unfold relayed. rewrite filter_cons, filter_nil.
  assert (of_deltas r [d] env = (mkRound (rd_calls r) (rd_content r ++ spoken [d]) env)
    <| rd_calls := foldl add_piece (rd_calls r) (dl_pieces d) |>) as -> by (unfold of_deltas; simpl; by rewrite app_nil_r).
  cbn [rd_calls]. case_bool_decide as Hd0.
  - rewrite decide_True by done. rewrite run_bind. unfold send, modify. rewrite Hcalls. done.
  - rewrite (decide_False (P := dl_text d ≠ "")) by (intros H1; by apply H1). rewrite run_bind. unfold mret at 1, prog_ret at 1. rewrite Hcalls.
    by rewrite after_sending_nil.
Qed.

(** Reading a whole stream: its calls are those of its pieces, its text chunks are relayed
    in order, and nothing else is sent. *)
Lemma take_stream lines ds r c :
  streams lines ds →
  ∃ envelope, take_body r lines None c = (Ok (of_deltas r ds envelope), after_sending (relayed ds) c).
Proof.
  intros Hs. revert r c. induction Hs as [|line rest He|line lines ds Hk Hs IH|line chunk lines ds Hd Ht Hs IH|line d lines ds Hd Hc Hs IH];
    intros r c; cbn [take_body]; rewrite ?run_bind.
  - exists (rd_envelope r). by rewrite of_deltas_nil, after_sending_nil.
  - exists (rd_envelope r). by rewrite of_deltas_nil, after_sending_nil, take_line_end.
  - rewrite take_line_skipped by done. apply IH.
  - rewrite (take_line_data _ _ chunk) by done. destruct Ht as (x & -> & Ht). unfold take_chunk. cbv zeta.
    assert (py_or (default JNull (dict_lookup "choices" x)) (JList []) = JList []) as -> by (unfold py_or; by rewrite Ht).
    cbn. destruct r as [calls content env]. apply (IH (mkRound calls content (envelope_of env x))).
  - destruct (take_line_delta r line d c Hd Hc) as [env ->].
    destruct (IH (of_deltas r [d] env) (after_sending (relayed [d]) c)) as [env' Hb]. exists env'.
    rewrite of_deltas_cons, after_sending_app in Hb. rewrite Hb. unfold relayed. rewrite <- fmap_app, <- filter_app. done.
Qed.
End streams.

(** ** Both loops lead the same conversation *)

Section agree.
Context (dialect : Dialect) `{!Codec} (o : Offer).

Definition call_json (c : Call) : Json := JDict (entry_json (call_entry c)).

Definition text_if_any (s : string) : Json := match s with "" => JNull | _ => JStr s end.

(** The same turn of a model as a whole reply and as a stream: it fails, it answers without
    a call, or it calls tools, the calls cut up in any way. *)
Inductive same_turn : Answer → Answer → Prop :=
| turn_fails e e' touch : same_turn (mkAnswer (Failed e) touch) (mkAnswer (Failed e') touch)
| turn_answers body message tool_calls lines ds touch :
    reply_message body = Some message → field "tool_calls" message = Some tool_calls → json_truthy tool_calls = false →
    streams lines ds → concat (dl_pieces <$> ds) = [] →
    same_turn (mkAnswer (Whole body) touch) (mkAnswer (Streamed lines None) touch)
| turn_calls body calls lines ds touch :
    calls ≠ [] →
    reply_message body = Some (assistant_message (text_if_any (texts ds)) (call_json <$> calls)) →
    streams lines ds → fragments calls (concat (dl_pieces <$> ds)) →
    same_turn (mkAnswer (Whole body) touch) (mkAnswer (Streamed lines None) touch).

(** Two conversations that have been the same so far and will get the same turns. *)
Definition asked_messages (c : Conv) : list (option Json) := dict_lookup "messages" <$> cv_asked c.

Record alike (b s : Conv) : Prop := mkAlike {
  al_session : cv_session b = cv_session s;
  al_answers : Forall2 same_turn (cv_answers b) (cv_answers s);
  al_asked : asked_messages b = asked_messages s
}.

Lemma joined_spoken ds : joined (spoken ds) = Some (text_if_any (texts ds)).
Proof.
  unfold joined, spoken, texts.
  assert (mapM text_of ((λ d, JStr (dl_text d)) <$> filter (λ d, dl_text d ≠ "") ds) = Some (dl_text <$> filter (λ d, dl_text d ≠ "") ds)) as ->.
  { apply mapM_Some_2, Forall2_fmap_2, Forall_Forall2_diag, Forall_forall. done. }
  simpl. assert (join "" (dl_text <$> filter (λ d, dl_text d ≠ "") ds) = join "" (dl_text <$> ds)) as ->;
    [|unfold text_if_any; by destruct (join "" (dl_text <$> ds))].
  induction ds as [|d ds IH]; [done|]. rewrite filter_cons, fmap_cons, join_cons. case_decide as Hd.
  - by rewrite fmap_cons, join_cons, IH.
  - rewrite IH. destruct (decide (dl_text d = "")) as [->|Hne]; [done|]. by destruct Hd.
Qed.

(** What the two completions of a turn give. *)
Definition same_reply (rb rs : result Exn Reply) : Prop :=
  match rb, rs with
  | Raise _, Raise _ => True
  | Ok r, Ok r' => ∃ f, same_turn (mkAnswer r f) (mkAnswer r' f)
  | _, _ => False
  end.

Lemma complete_alike pb ps b s :
  alike b s → dict_lookup "messages" pb = dict_lookup "messages" ps →
  same_reply (generate_chat_completion pb b).1 (generate_chat_completion ps s).1 ∧
  alike (generate_chat_completion pb b).2 (generate_chat_completion ps s).2.
Proof.
  intros [Hs Ha Hq] Hp. unfold generate_chat_completion. cbn [cv_answers set_field].
  assert (asked_messages (b <| cv_asked := cv_asked b ++ [pb] |>) = asked_messages (s <| cv_asked := cv_asked s ++ [ps] |>)) as Hq'.
  { unfold asked_messages in *. simpl. by rewrite !fmap_app, Hq; csimpl; rewrite Hp. }
  simpl. destruct (cv_answers b) as [|ab rb] eqn:Eb, (cv_answers s) as [|as_ rs] eqn:Es.
  { split; [done|]. split; simpl; by rewrite ?Eb, ?Es. }
  1,2: by inversion Ha. apply Forall2_cons in Ha as [Hab Ha].
  assert (∀ f, alike (touched f ((b <| cv_asked := cv_asked b ++ [pb] |>) <| cv_answers := rb |>))
    (touched f ((s <| cv_asked := cv_asked s ++ [ps] |>) <| cv_answers := rs |>))) as Hal.
  { intros f. split; simpl; [by rewrite Hs|done|done]. }
  destruct Hab; simpl; (split; [|apply Hal]); [done|exists touch; by eapply turn_answers|exists touch; by eapply turn_calls].
Qed.

Lemma in_session_alike {A} (m : session A) b s :
  alike b s → (in_session m b).1 = (in_session m s).1 ∧ alike (in_session m b).2 (in_session m s).2.
Proof.
  intros [Hs Ha Hq]. unfold in_session. rewrite Hs. by destruct (m (cv_session s)) as [[] s'].
Qed.

Lemma finish_alike message server client b s :
  alike b s →
  (finish_round dialect o message server client b).1 = (finish_round dialect o message server client s).1 ∧
  alike (finish_round dialect o message server client b).2 (finish_round dialect o message server client s).2.
Proof.
  intros H0. unfold finish_round. rewrite !run_bind.
  destruct (in_session_alike (append_message message) b s H0) as [H1 H2].
  destruct (in_session (append_message message) b) as [r b1], (in_session (append_message message) s) as [r' s1].
  simpl in H1, H2. subst r'. destruct r as [[]|e]; [by apply in_session_alike|done].
Qed.

Lemma alike_reads b s s' : reads s s' → alike b s → alike b s'.
Proof. intros (Hs & Hq & Ha) [? ? ?]. by split; unfold asked_messages in *; rewrite ?Hs, ?Hq, ?Ha. Qed.

(** The last completions: only the streaming loop turns a failure into lines. *)
Lemma last_alike pb b s :
  alike b s → dict_lookup "messages" pb = Some (JList (ss_messages (cv_session b))) →
  alike (generate_chat_completion pb b).2 (streamed_fallback o s).2 ∧ ∃ u, (streamed_fallback o s).1 = Ok u.
Proof.
  intros Hal Hp. unfold streamed_fallback, rescue. rewrite run_messages_bind, run_bind.
  set (ps := dict_update _ _).
  assert (dict_lookup "messages" ps = Some (JList (ss_messages (cv_session s)))) as Hps by (by apply update_messages; repeat constructor).
  destruct (complete_alike pb ps b s Hal) as [_ H2]; [by rewrite Hp, Hps; destruct Hal as [-> _ _]|].
  destruct (generate_chat_completion ps s) as [[r|e] s1]; simpl in H2.
  - pose proof (reads_relay r s1) as Hr. unfold state_of in Hr. destruct (relay_all r s1) as [[u|e] s2]; simpl in *.
    + split; [by apply (alike_reads _ s1)|by exists u].
    + split; [|by eexists]. apply (alike_reads _ s1); [|done]. by destruct Hr as (? & ? & ?).
  - split; [|by eexists]. by apply (alike_reads _ s1).
Qed.

Lemma reads_hand_back envelope client s : reads s (hand_back envelope client s).2.
Proof.
  apply (preserves_bind reads (expect (emitted client))); [apply reads_expect|]. intros calls.
  repeat (apply preserves_bind; [apply reads_send|intros _]). apply reads_send.
Qed.

(** A call partitioned to the caller can be handed back. *)
Lemma partition_subset calls server client names :
  _partition_tool_calls calls names = Some (server, client) → client ⊆ calls.
Proof.
  revert server client. induction calls as [|c calls IH]; intros server client; simpl; [by intros [= <- <-]|].
  destruct (_tool_call_name c); [|done]. simpl. destruct (in_names _ names) as [b|]; [|done]. simpl.
  destruct (_partition_tool_calls calls names) as [[sv cl]|]; [|done]. simpl. specialize (IH sv cl eq_refl).
  destruct b; intros [= <- <-]; set_solver.
Qed.

Lemma emitted_total calls : Forall (λ c, is_dict c = true) calls → is_Some (emitted calls).
Proof.
  intros Hall. unfold emitted. apply mapM_is_Some_2, Forall_forall. intros [i c] Hin.
  apply list_elem_of_lookup in Hin as [k Hk]. rewrite list_lookup_imap in Hk.
  destruct (calls !! k) as [c'|] eqn:Hc; [|done]. simpl in Hk. injection Hk as <- <-.
  rewrite Forall_forall in Hall. apply list_elem_of_lookup_2 in Hc. specialize (Hall _ Hc). destruct c'; try done. by eexists.
Qed.

Lemma hand_back_total envelope calls s :
  Forall (λ c, is_dict c = true) calls → ∃ u, (hand_back envelope calls s).1 = Ok u.
Proof. intros [x Hx]%emitted_total. unfold hand_back. rewrite Hx. by eexists. Qed.

(** Reading the stream of a turn. *)
Lemma read_turn lines ds s :
  streams lines ds →
  ∃ rd s', take_body (mkRound [] [] []) lines None s = (Ok rd, s') ∧ reads s (state_of close s') ∧
    rd_content rd = spoken ds ∧ rd_calls rd = foldl add_piece [] (concat (dl_pieces <$> ds)).
Proof.
  intros Hs. destruct (take_stream lines ds (mkRound [] [] []) s Hs) as [env Hb].
  eexists _, _. split; [exact Hb|]. by split_and!.
Qed.

Lemma pieces_of_calls calls ds :
  (∀ d, d ∈ ds → carries d) → fragments calls (concat (dl_pieces <$> ds)) →
  sorted_calls (foldl add_piece [] (concat (dl_pieces <$> ds))) = Some (call_entry <$> calls) ∧
  (foldl add_piece [] (concat (dl_pieces <$> ds)) = [] ↔ calls = []).
Proof.
  intros Hc Hf. assert (∃ tcs, Forall2 is_piece tcs (concat (dl_pieces <$> ds))) as [tcs Htcs].
  { clear Hf. induction ds as [|d ds IH]; csimpl; [by exists []|]. destruct IH as [tcs Htcs]; [intros; apply Hc; by right|].
    destruct (Hc d ltac:(left)) as (? & ? & ? & ? & _ & _ & _ & _ & [[_ ->]|(tcs1 & _ & H1)]); [by exists tcs|].
    exists (tcs1 ++ tcs). by apply Forall2_app. }
  destruct (fragments_assembled calls tcs _ Htcs Hf) as (t & Ht & Hs & He).
  rewrite (add_deltas_pieces [] tcs _ Htcs) in Ht. by injection Ht as ->.
Qed.

Lemma streams_carry lines ds : streams lines ds → ∀ d, d ∈ ds → carries d.
Proof.
  induction 1 as [|line rest He|line lines ds Hk Hs IH|line chunk lines ds Hd Ht Hs IH|line d lines ds Hd Hc Hs IH];
    intros d' Hd'; [by apply elem_of_nil in Hd'|by apply elem_of_nil in Hd'|by apply IH|by apply IH|].
  apply elem_of_cons in Hd' as [->|Hd']; [done|by apply IH].
Qed.

(** How the two loops end. *)
Definition ends_alike (b : result Exn Reply * Conv) (s : result Exn unit * Conv) : Prop :=
  alike b.2 s.2 ∧ ∀ e, s.1 = Raise e → b.1 = Raise e.

Lemma last_ends pb b s :
  alike b s → dict_lookup "messages" pb = Some (JList (ss_messages (cv_session b))) →
  ends_alike (generate_chat_completion pb b) (streamed_fallback o s).
Proof.
  intros Hal Hp. destruct (last_alike pb b s Hal Hp) as [H1 [u Hu]]. split; [done|]. rewrite Hu. by intros e.
Qed.

Lemma rounds_alike n b s :
  alike b s → ends_alike (buffered_rounds dialect o n b) (streamed_rounds dialect o n s).
Proof.
  revert b s. induction n as [|n IH]; intros b s Hal; cbn [buffered_rounds streamed_rounds].
  { unfold buffered_last. rewrite run_messages_bind. apply last_ends; [done|]. by apply update_messages; repeat constructor. }
  rewrite !run_bind. destruct (payload_run o false b) as (pb & -> & Hpb & _), (payload_run o true s) as (ps & -> & Hps & _).
  rewrite !run_bind. unfold tried.
  destruct (complete_alike pb ps b s Hal) as [Hr Hal1]; [by rewrite Hpb, Hps; destruct Hal as [-> _ _]|].
  destruct (generate_chat_completion pb b) as [rb b1], (generate_chat_completion ps s) as [rs s1]. simpl in Hr, Hal1.
  destruct rb as [rb|eb], rs as [rs|es]; try done.
  2:{ unfold buffered_fallback. rewrite run_messages_bind. apply last_ends; [done|]. by apply update_messages; repeat constructor. }
  destruct Hr as [f Hturn]. inversion Hturn as [|body message tool_calls lines ds f' Hm Htc Hfalse Hst Hnone|
    body calls lines ds f' Hne Hm Hst Hfrag]; subst; clear Hturn;
    [by split; [|intros e0 [= <-]]|..]; cbn [body_of lines_of]; rewrite !expect_some; rewrite Hm, expect_some; cbn [fst snd]; rewrite (run_bind (take_body _ _ _));
    destruct (read_turn lines ds s1 Hst) as (rd & s2 & -> & Hreads & Hcont & Hcalls); rewrite run_close_bind;
    rewrite Hcalls; apply (alike_reads _ _ (state_of close s2) Hreads) in Hal1.
  - rewrite (get_field_some _ _ _ _ Htc), Hfalse, Hnone. cbn [negb foldl]. rewrite decide_True by done.
    split; [by apply (alike_reads _ (state_of close s2))|by intros e].
  - rewrite (get_field_some "tool_calls" _ (JList (call_json <$> calls))) by done.
    assert (json_truthy (JList (call_json <$> calls)) = true) as -> by (by destruct calls). cbn [negb py_iter]. rewrite expect_some.
    destruct (pieces_of_calls calls ds (streams_carry lines ds Hst) Hfrag) as [Hsorted Hnil].
    rewrite decide_False by (by rewrite Hnil). rewrite Hsorted, expect_some. cbv zeta.
    assert ((λ e, JDict (entry_json e)) <$> (call_entry <$> calls) = call_json <$> calls) as -> by (by rewrite <- list_fmap_compose).
    destruct (_partition_tool_calls (call_json <$> calls) (of_client_tool_names o)) as [[server client]|] eqn:Hpart;
      [|by split; [|intros e0 [= <-]]].
    rewrite !expect_some. cbn iota. case_decide as Hserver.
    + assert (Forall (λ c, is_dict c = true) client) as Hdict.
      { apply Forall_forall. intros c Hin%(partition_subset _ _ _ _ Hpart). by apply list_elem_of_fmap in Hin as (c' & -> & _). }
      destruct (hand_back_total (rd_envelope rd) client (state_of close s2) Hdict) as [u Hu]. split; [|by rewrite Hu; intros e].
      apply (alike_reads _ (state_of close s2)); [apply reads_hand_back|]. by destruct (with_finish_reason body).
    + rewrite Hcont, joined_spoken, expect_some, !run_bind.
      destruct (finish_alike (assistant_message (text_if_any (texts ds)) (call_json <$> calls)) server client b1 (state_of close s2) Hal1)
        as [H1 H2].
      destruct (finish_round _ _ _ _ _ b1) as [r b3], (finish_round _ _ _ _ _ (state_of close s2)) as [r' s3]. simpl in H1, H2. subst r'.
      destruct r as [u|e]; [by apply IH|]. split; [done|]. by intros e' [= ->].
Qed.

(** C22: Streaming a reply or buffering it makes no difference to the conversation: however
    the calls of each turn are cut into deltas and interleaved, both loops run the same
    tools with the same arguments in the same order, send the model the same messages
    whenever they ask it, and leave the same session behind; and when the stream breaks off
    with an exception, the buffered loop raises the same. *)
Theorem streaming_and_buffered_agree b s :
  alike b s →
  cv_session (state_of (_run_tool_calling_buffered dialect o) b) = cv_session (state_of (_stream_tool_calling dialect o) s) ∧
  asked_messages (state_of (_run_tool_calling_buffered dialect o) b) =
    asked_messages (state_of (_stream_tool_calling dialect o) s) ∧
  ∀ e, result_of (_stream_tool_calling dialect o) s = Raise e → result_of (_run_tool_calling_buffered dialect o) b = Raise e.
Proof. intros Hal. destruct (rounds_alike MAX_TOOL_CALL_ROUNDS b s Hal) as [[H1 _ H3] H4]. by split_and!. Qed.
End agree.

(** Conversations with tools, run: the theorems of the tool loops at work, and what the
    loops do where they fall short. *)
Module ToolRuns.

(** ** A server *)

Definition ann : User := mkUser "ann" "Ann" "ann@example.org" "user" "" 0 0 0 None None None None.

(** JSON documents by the texts that stand for them; any other value prints as one text. *)
Definition Docs : Type := list (string * Json).
Definition docs_codec (docs : Docs) : Codec :=
  {| json_loads := λ s, get s docs;
     json_dumps := λ j, match list_find (λ d, d.2 = j) docs with Some (_, d) => d.1 | None => "{..}" end;
     py_repr := λ j, match j with JNull => "None" | _ => "?" end |}.

Definition schema (properties : list string) : Json :=
  JDict [("type", JStr "object"); ("properties", JDict ((λ p, (p, JDict [])) <$> properties))].

(** Two toolkits, both with settings of the user's own, and a mod whose tool is gated. *)
Definition kept_valves : ValvesClass := mkValvesClass [] Some.
Definition notes_module : ToolModule := mkToolModule (Some []) None (Some kept_valves).
Definition run_source (content : string) : option ToolModule := Some notes_module.
Definition has_any (m : ToolModule) (name : string) : bool := true.

Definition toolkit (id owner : string) (functions : list string) : Tool :=
  mkTool id owner id "class Tools: ..." ((λ f, [("name", JStr f); ("description", JStr ""); ("parameters", schema ["q"; "__user__"])]) <$> functions)
    (mkToolMeta None None) None (Some []) 1 1.

Definition settings : json_dict :=
  [("tools", JDict [("valves", JDict [("notes", JDict [("key", JStr "for notes")]); ("mail", JDict [("key", JStr "for mail")])])])].

Definition rows (tools : list Tool) : Studio :=
  mkStudio [] tools [] [] [] [] [ann <| us_settings := Some settings |>] [] [] [] 0 0 [] [] [].

Definition lookup_tool : ModTool :=
  mkModTool (JStr "lookup") (JStr "Looks a customer up") "crm.lookup" (JStr "mods.crm.use") (schema ["q"; "__id__"]) JNull.

Definition members (granted : bool) : Group :=
  mkGroup "g" "root" "Sales" "" None None (Some [("mods", JDict [("crm", JDict [("use", JBool granted)])])]) ["ann"] 0 0.

Definition server_with (tool : ModTool) : Server :=
  mkServer SQLite (Some [("crm", [tool])]) (Some []) [("m", JDict [("owned_by", JStr "llamolotl")])] None None.
Definition server : Server := server_with lookup_tool.

Definition fresh_session (tools : list Tool) (groups : list (list Group)) (outputs : list (result Exn Output)) (pages : list (result Exn string))
    : Session :=
  mkSession (rows tools) None groups outputs pages [] [].

Definition fresh_conv (s : Session) (answers : list Answer) : Conv := mkConv s answers [] [] 0.

(** ** Requests and replies *)

Definition say (text : string) : Json := JDict [("role", JStr "user"); ("content", JStr text)].

Definition request (stream : bool) (tool_ids : list string) (features : json_dict) (more : json_dict) : json_dict :=
  [("model", JStr "m"); ("messages", JList [say "Who is Bo?"]); ("stream", JBool stream);
   ("metadata", JDict [("tool_ids", JList (JStr <$> tool_ids)); ("features", JDict features)])] ++ more.

Definition client_tools (names : list string) : json_dict :=
  [("tools", JList ((λ n, JDict [("type", JStr "function"); ("function", JDict [("name", JStr n)])]) <$> names))].

Definition reply (text : string) (calls : list Call) : Json :=
  JDict [("choices", JList [JDict [("message", assistant_message (text_if_any text) (call_json <$> calls))]])].

Definition whole (text : string) (calls : list Call) : Answer := mkAnswer (Whole (reply text calls)) id.

Definition docs : Docs := [("one", JDict [("q", JStr "Bo"); ("__user__", JStr "root"); ("__id__", JStr "x")]); ("two", JList [])].

Definition serve (sv : Server) (d : Docs) (form_data : json_dict) (c : Conv) : result Exn Outcome * Conv :=
  generate_chat_completion_with_tools sv (H := docs_codec d) run_source has_any form_data ann c.

Definition entered_tools (c : Conv) : list (Callable * json_dict * option json_dict) :=
  omap (λ a, match a with Ran c args v => Some (c, args, v) | _ => None end) (ss_log (cv_session c)).

Definition offered (form_data : json_dict) : list string :=
  match dict_lookup "tools" form_data with Some (JList l) => omap offered_name l | _ => [] end.

Definition shared_kits : list Tool := [toolkit "notes" "bob" ["find"]; toolkit "mail" "bob" ["find"; "send"]].

(** *** A turn with both kinds of tools *)

Definition busy_conv : Conv :=
  fresh_conv
    (fresh_session shared_kits [[members true]; [members true]] [Ok (Value (JStr "noted")); Ok (Value (JInt 3))] [])
    [whole "" [mkCall "c1" "notes__find" "one"; mkCall "c2" "crm__lookup" "one"; mkCall "c3" "lookup" "one"]; whole "Bo is Bo." []].

Definition busy : json_dict := request false ["notes"; "mail"] [] (client_tools ["lookup"]).

Example busy_run :
  let '(r, c) := serve server docs busy busy_conv in
  r = Ok (Answered (Whole (reply "Bo is Bo." []))) ∧
  (offered <$> cv_asked c) =
    [["notes__find"; "mail__find"; "send"; "crm__lookup"; "lookup"]; ["notes__find"; "mail__find"; "send"; "crm__lookup"; "lookup"]] ∧
  ss_messages (cv_session c) =
    [say "Who is Bo?";
     assistant_message JNull (call_json <$> [mkCall "c1" "notes__find" "one"; mkCall "c2" "crm__lookup" "one"; mkCall "c3" "lookup" "one"]);
     tool_message (JStr "c1") "noted"; tool_message (JStr "c2") "{..}"; tool_message (JStr "c3") CLIENT_TOOL_DEFERRAL].
Proof. vm_compute. done. Qed.

(** ** The theorems at work *)

Lemma tools_run_within_rights_witness :
  let c' := state_of (generate_chat_completion_with_tools server (H := docs_codec docs) run_source has_any busy ann) busy_conv in
  all_entered server (declared_specs (rows shared_kits)) busy ann (ss_log (cv_session c')) ∧
  entered_tools c' =
    [(Partial "notes" "find", [("q", JStr "Bo")], Some [("key", JStr "for mail")]);
     (Guarded lookup_tool "ann" [], [("q", JStr "Bo")], None)].
Proof.
  split; [|by vm_compute].
  apply (tools_run_within_rights server (H := docs_codec docs) run_source has_any busy ann busy_conv); [done|].
  repeat constructor.
Defined.

Lemma whole_keeps text calls : keeps_conversation (an_touch (whole text calls)).
Proof. by intros ms. Qed.

Lemma every_call_is_answered_witness :
  let asked := cv_asked (state_of (generate_chat_completion_with_tools server (H := docs_codec docs) run_source has_any busy ann) busy_conv) in
  length asked = 2%nat ∧
  ∃ offered, ∀ i payload, asked !! i = Some payload →
    asks_well ["lookup"] [say "Who is Bo?"] i payload ∧ offers_well offered busy i payload.
Proof.
  split; [by vm_compute|].
  refine (proj2 (every_call_is_answered server (H := docs_codec docs) run_source has_any busy ann busy_conv [say "Who is Bo?"]
    _ _ _ _ _)); [done|done|repeat constructor|done|].
  unfold busy_conv, fresh_conv. cbn [cv_answers]. by repeat (apply Forall_cons; split; [apply whole_keeps|]).
Defined.

Definition busy_switches : Switches := mkSwitches (JList [JStr "notes"; JStr "mail"]) true false false.
Definition mod_pair : string * ToolDict :=
  ("lookup", mkToolDict "mod:crm" (Guarded lookup_tool "ann" []) (Some (Typed
    (mkToolSpec "lookup" "Looks a customer up" [("type", JStr "object"); ("properties", JDict [("q", JDict []); ("__id__", JDict [])])] None None)))).

Definition busy_session : Session := fresh_session shared_kits [] [] [].
Definition busy_names : list string := ["lookup"; "web_search"].
Definition busy_assembly : result Exn (list (string * ToolDict)) * Session :=
  admin_tools_of server run_source has_any busy_switches [mod_pair] "ann" busy busy_names busy_session.
Definition busy_tools : list (string * ToolDict) := match busy_assembly.1 with Ok tools => tools | Raise _ => [] end.
Definition busy_offer : Offer :=
  default (mkOffer [] [] [] JNull [] []) (make_offer busy JNull [] busy_names busy_switches busy_tools).

Definition result_own : list (string * ToolDict) :=
  match result_of (own_tools run_source has_any busy_switches "ann") busy_session with Ok own => own | Raise _ => [] end.

Lemma offered_tools_are_dispatched_witness :
  busy_tools.*1 = ["notes__find"; "mail__find"; "send"; "crm__lookup"] ∧ NoDup busy_tools.*1 ∧
  (∀ n t, (n, t) ∈ busy_tools →
     ∃ sp, td_spec t = Some (Typed sp) ∧ ts_name sp = n ∧ function_tool (to_openai sp) ∈ of_openai_tools busy_offer) ∧
  (∃ n, canonical (of_builtin_aliases busy_offer) (JStr n) = Some (JStr "web_search")) ∧
  ∃ own, result_of (own_tools run_source has_any busy_switches "ann") busy_session = Ok own ∧
    ∀ nt0, nt0 ∈ own ++ [mod_pair] → ∃ nt, nt ∈ busy_tools ∧ same_tool nt0.2 nt.2.
Proof.
  destruct (offered_tools_are_dispatched server (H := docs_codec docs) run_source has_any busy_switches [mod_pair] "ann" busy JNull []
    busy_names busy_session busy_tools busy_assembly.2 busy_offer (Some [("crm", [lookup_tool])]) []
    (fresh_session shared_kits [[members true]] [] [])) as (H1 & H2 & H3 & _ & own & Hown & _ & Hall).
  - repeat constructor.
  - by vm_compute.
  - by vm_compute.
  - by vm_compute.
  - split; [by vm_compute|]. split; [done|]. split; [intros n t Hin; by destruct (H2 n t Hin)|].
    split; [destruct (H3 WEB_SEARCH_TOOL_SPEC ltac:(left)) as (n & _ & Hn); by exists n|].
    exists own. split; [done|]. apply Hall. assert (own = result_own) as ->; [|by vm_compute].
    unfold result_own. by rewrite Hown.
Defined.

(** *** The same turns, buffered and streamed *)

Definition piece (p : Piece) : Json :=
  JDict [("index", JInt (pc_index p)); ("id", JStr (pc_id p));
         ("function", JDict [("name", JStr (pc_name p)); ("arguments", JStr (pc_arguments p))])].

Definition delta (text : string) (pieces : list Piece) : Delta :=
  mkDelta (JDict [("id", JStr "r1"); ("choices", JList [JDict [("delta", JDict [("content", JStr text); ("tool_calls", JList (piece <$> pieces))])]])])
    text pieces.

Lemma delta_carries text pieces : carries (delta text pieces).
Proof.
  eexists _, _, _, _. split; [done|]. split; [done|]. split; [done|]. split; [by left|]. right. eexists. split; [done|].
  simpl. induction pieces as [|p pieces IH]; csimpl; constructor; [|done]. eexists. split; [done|]. split; [done|].
  split; [by left|]. right. eexists. split; [done|]. by split; left.
Qed.

Definition calls : list Call := [mkCall "c1" "notes__find" "one"; mkCall "c2" "crm__lookup" "one"].

(** The two calls cut up and mixed. *)
Definition first_delta : Delta := delta "Let me" [mkPiece 0 "c1" "notes__find" "o"].
Definition second_delta : Delta := delta "" [mkPiece 1 "c2" "crm__" ""; mkPiece 0 "" "" "ne"].
Definition third_delta : Delta := delta " see." [mkPiece 1 "" "lookup" "one"].
Definition last_delta : Delta := delta "Bo is Bo." [].

Definition stream_docs : Docs :=
  docs ++ [("d1", dl_chunk first_delta); ("d2", dl_chunk second_delta); ("d3", dl_chunk third_delta); ("d4", dl_chunk last_delta)].

Definition calling_lines : list string := ["data: d1"; ""; ": ping"; "data: d2"; "data: d3"; "data: [DONE]"].
Definition answering_lines : list string := ["data: d4"; "data: [DONE]"].

Definition streamed_answers : list Answer :=
  [mkAnswer (Streamed calling_lines None) id; mkAnswer (Streamed answering_lines None) id].
Definition buffered_answers : list Answer := [whole "Let me see." calls; whole "Bo is Bo." []].

Definition stream_session : Session :=
  (fresh_session shared_kits [[members true]] [Ok (Value (JStr "noted")); Ok (Value (JStr "Bo, of Bo Ltd"))] []) <| ss_messages := [say "Who is Bo?"] |>.

Lemma turns_alike :
  alike (H := docs_codec stream_docs) (fresh_conv stream_session buffered_answers) (fresh_conv stream_session streamed_answers).
Proof.
  split; [done| |done]. constructor; [|constructor; [|constructor]].
  - apply (turn_calls (H := docs_codec stream_docs) (reply "Let me see." calls) calls calling_lines [first_delta; second_delta; third_delta]);
      [done|by vm_compute| |].
    + apply streams_delta; [by vm_compute|apply delta_carries|]. apply streams_skip; [by left|].
      apply streams_skip; [by right|]. apply streams_delta; [by vm_compute|apply delta_carries|].
      apply streams_delta; [by vm_compute|apply delta_carries|]. by apply streams_done.
    + split; [repeat constructor; simpl; lia|]. intros [|[|i]] c Hc; simplify_eq/=; vm_compute; split_and!; try done;
        first [by constructor|repeat (apply Forall_cons; split; [first [by left|by right]|]); by constructor].
  - eapply (turn_answers (H := docs_codec stream_docs) (reply "Bo is Bo." []) _ (JList []) answering_lines [last_delta]); try done.
    apply streams_delta; [by vm_compute|apply delta_carries|]. by apply streams_done.
Qed.

Lemma streaming_and_buffered_agree_witness :
  let b := state_of (_run_tool_calling_buffered SQLite (H := docs_codec stream_docs) busy_offer) (fresh_conv stream_session buffered_answers) in
  let s := state_of (_stream_tool_calling SQLite (H := docs_codec stream_docs) busy_offer) (fresh_conv stream_session streamed_answers) in
  (cv_session b = cv_session s ∧ asked_messages b = asked_messages s) ∧
  ss_messages (cv_session s) =
    [say "Who is Bo?"; assistant_message (JStr "Let me see.") (call_json <$> calls);
     tool_message (JStr "c1") "noted"; tool_message (JStr "c2") "Bo, of Bo Ltd"] ∧
  cv_sent s = (sse (H := docs_codec stream_docs) <$> [dl_chunk first_delta; dl_chunk third_delta; dl_chunk last_delta]) ++ [sse_done].
Proof.
  intros b s. split; [|by vm_compute].
  destruct (streaming_and_buffered_agree SQLite (H := docs_codec stream_docs) busy_offer _ _ turns_alike) as (H1 & H2 & _).
  exact (conj H1 H2).
Defined.

(** ** Where the loops fall short *)

(** *** What a request is given *)

(** A toolkit is found by its id alone: nothing asks whether the user may use it. *)
Example any_toolkit_of_anyone :
  let hers := (toolkit "hers" "bob" ["read"]) <| tl_access_control := Some [] |> in
  has_access SQLite [] "ann" "read" (tl_access_control hers) = Some false ∧
  match result_of (get_tools run_source has_any ["hers"] "ann") (fresh_session [hers] [] [] []) with
  | Ok [(name, t)] => name = "read" ∧ td_callable t = Partial "hers" "read"
  | _ => False
  end.
Proof. by vm_compute. Qed.

(** Two tools of one mod with one name: the first is gone before the rule for names that
    collide can see it. *)
Definition named_tool (name description handler : string) : ModTool :=
  mkModTool (JStr name) (JStr description) handler (JStr "mods.crm.use") JNull JNull.
Example twins_of_a_mod :
  let twins := [named_tool "find" "by name" "crm.by_name"; named_tool "find" "by number" "crm.by_number"] in
  validate_mod_tools (DeclaredTool <$> twins) = Ok twins ∧
  match result_of (assemble_mods SQLite [("crm", twins)] "ann" []) (fresh_session [] [[members true]; [members true]] [] []) with
  | Ok [(name, t)] => name = "find" ∧ td_callable t = Guarded (named_tool "find" "by number" "crm.by_number") "ann" []
  | _ => False
  end.
Proof. by vm_compute. Qed.

(** A name that ends in a newline is accepted. *)
Example a_name_with_a_newline :
  let name := "find" +:+ String newline "" in
  validate_mod_tools [DeclaredTool (named_tool name "" "crm.find")] = Ok [named_tool name "" "crm.find"].
Proof. by vm_compute. Qed.

(** So is a description that is no text, and then every request of those who hold the
    scope fails, whatever it asks for. *)
Example one_description_breaks_every_request :
  let odd := mkModTool (JStr "odd") (JInt 3) "crm.odd" (JStr "mods.crm.use") JNull JNull in
  validate_mod_tools [DeclaredTool odd] = Ok [odd] ∧
  (serve (server_with odd) [] (request false [] [] [])
    (fresh_conv (fresh_session [] [[members true]] [] []) [whole "Hello." []])).1 = Raise type_error ∧
  (serve (server_with odd) [] (request false [] [] [])
    (fresh_conv (fresh_session [] [[members false]] [] []) [whole "Hello." []])).1 = Ok (Answered (Whole (reply "Hello." []))).
Proof. by vm_compute. Qed.

(** Entries that could not be a function tool are dropped, but one whose [function] is a
    text raises. *)
Example a_malformed_client_tool :
  extract_client_tools [("tools", JList [JInt 3; JDict [("type", JStr "custom")]; JDict [("function", JDict [])]])] = Some [] ∧
  extract_client_tools [("tools", JList [JDict [("function", JStr "lookup")]])] = None.
Proof. by vm_compute. Qed.

(** *** What a call runs *)

Definition one_call (name arguments : string) : list Call := [mkCall "c1" name arguments].
Definition answers_of (calls : list Call) : list Answer := [whole "" calls; whole "Done." []].
Definition log_of (c : Conv) : list Act := ss_log (cv_session c).

(** A toolkit whose function is called [web_search] is offered and never run: the literal
    name goes to the page tools.  Searching and reading a page run for a model they were
    not offered to; deep research does not. *)
Example a_toolkit_in_the_shadow :
  let kit := toolkit "kit" "bob" ["web_search"] in
  let run features name :=
    serve server docs (request false ["kit"] features [])
      (fresh_conv (fresh_session [kit] [[members false]] [Ok (Value (JStr "mine"))] [Ok "a page"]) (answers_of (one_call name "one"))) in
  (offered <$> cv_asked (run [] "web_search").2) = [["web_search"]; ["web_search"]] ∧
  log_of (run [] "web_search").2 = [Checked "ann" "mods.crm.use" [] [members false] false; Browsed "web_search" (JStr "Who is Bo?")] ∧
  log_of (run [] "web_fetch").2 = [Checked "ann" "mods.crm.use" [] [members false] false; Browsed "web_fetch" (JStr "")] ∧
  ss_messages (cv_session (run [] "deep_research").2) =
    [say "Who is Bo?"; assistant_message JNull (call_json <$> one_call "deep_research" "one");
     tool_message (JStr "c1") "Deep research is not enabled for this conversation."].
Proof. by vm_compute. Qed.

(** Arguments that are a list: a toolkit's function reports the error to the model, a page
    tool ends the turn. *)
Example arguments_that_are_no_dict :
  let run name :=
    serve server docs (request false ["notes"] [("web_search", JBool true)] [])
      (fresh_conv (fresh_session shared_kits [[members false]] [] []) (answers_of (one_call name "two"))) in
  (run "find").1 = Ok (Answered (Whole (reply "Done." []))) ∧ (run "web_fetch").1 = Raise type_error.
Proof. by vm_compute. Qed.

(** *** What the model is asked *)

(** A completion puts the system prompt of the model at the head of the messages it is
    handed, and these are the loop's own: the prompt grows by a copy each round. *)
Definition prompted (ms : list Json) : list Json :=
  match add_or_update_system_message (H := docs_codec []) "Be brief." (JList ms) with Some (JList ms') => ms' | _ => ms end.
Example the_system_prompt_repeats :
  let a calls := mkAnswer (Whole (reply "" calls)) prompted in
  let c := (serve server docs (request false ["notes"] [] [])
    (fresh_conv (fresh_session shared_kits [[members false]] [Ok (Value (JStr "x")); Ok (Value (JStr "y"))] [])
      [a (one_call "find" "one"); a (one_call "find" "one"); a []])).2 in
  match ss_messages (cv_session c) with
  | JDict d :: _ => dict_lookup "content" d = Some (JStr (join (String newline "") ["Be brief."; "Be brief."; "Be brief."]))
  | _ => False
  end.
Proof. by vm_compute. Qed.

(** A tool choice the caller forces is repeated in every round, after the answer of the
    tool it forces too. *)
Example a_forced_choice_is_repeated :
  let forced := [("tool_choice", JStr "required")] in
  let c := (serve server docs (request false ["notes"] [] forced)
    (fresh_conv (fresh_session shared_kits [[members false]] [Ok (Value (JStr "x"))] []) (answers_of (one_call "find" "one")))).2 in
  (dict_lookup "tool_choice" <$> cv_asked c) = [Some (JStr "required"); Some (JStr "required")].
Proof. by vm_compute. Qed.

(** After a failed completion the buffered loop asks again with the caller's tools, the
    streaming loop with none. *)
Definition failing : list Answer := [mkAnswer (Failed "no template") id; mkAnswer (Streamed ["data: [DONE]"] None) id].
Example fallbacks_differ :
  let asked stream := cv_asked (serve server docs (request stream ["notes"] [] (client_tools ["lookup"]))
    (fresh_conv (fresh_session shared_kits [[members false]] [] []) failing)).2 in
  (offered <$> asked false) = [["find"; "lookup"]; ["lookup"]] ∧
  (dict_lookup "tools" <$> asked true) = [Some (JList [function_tool (to_openai (mkToolSpec "find" "" [("type", JStr "object"); ("properties", JDict [("q", JDict [])])] None None)); JDict [("type", JStr "function"); ("function", JDict [("name", JStr "lookup")])]]); Some JNull].
Proof. vm_compute. done. Qed.

(** *** What the client is sent *)

Definition lone (d : json_dict) : Json := JDict [("choices", JList [JDict d])].
Definition thinking : Json := lone [("delta", JDict [("reasoning_content", JStr "hm")])].
Definition stopping : Json := lone [("delta", JDict []); ("finish_reason", JStr "stop")].
Definition usage : Json := JDict [("choices", JList []); ("usage", JDict [("total_tokens", JInt 7)])].
Definition failure : Json := JDict [("error", JDict [("message", JStr "out of memory")])].
Definition odd_docs : Docs := [("thinking", thinking); ("stopping", stopping); ("usage", usage); ("failure", failure)].

(** With a toolkit selected, what is not text is lost: the reasoning, the reason to stop,
    the usage, and the error of an upstream that fails in the middle of its answer; without
    one the body is passed on as it comes. *)
Definition stream_of (tool_ids : list string) (lines : list string) (broken : option Exn) : result Exn Outcome * Conv :=
  serve server odd_docs (request true tool_ids [] [])
    (fresh_conv (fresh_session shared_kits [[members false]] [] []) [mkAnswer (Streamed lines broken) id]).
Example what_is_not_text_is_lost :
  let lines := ["data: thinking"; "data: stopping"; "data: usage"; "data: failure"] in
  cv_sent (stream_of ["notes"] lines None).2 = [sse_done] ∧
  (stream_of [] lines None).1 = Ok (Answered (Streamed lines None)).
Proof. by vm_compute. Qed.

(** A stream that breaks off ends the client's without a word, and is never closed. *)
Example a_broken_stream_stays_open :
  let '(r, c) := stream_of ["notes"] [] (Some "connection lost") in
  r = Ok (StreamedBody (Raise "connection lost")) ∧ cv_sent c = [] ∧ cv_closed c = 0%nat.
Proof. by vm_compute. Qed.

End ToolRuns.
